(* ===== verification/_CoqProject ===== *)
-Q . S2P
Prelude.v
Vaddr.v
Bitmap.v
Palloc.v
Arith64.v
Pic.v
Uart.v
Ioport.v
Intq.v
Gdt.v
Vcpu.v
Interrupt.v
Callouts.v
Realmode.v
Protected.v
Paging.v
Shadow.v
Sort.v
Dlist.v
Malloc.v
Hash.v
Rbtree.v
RbtreeMem.v
RbtreeBalance.v
RbtreeSpec.v
RbtreeOps.v
Thread.v
ThreadInv.v
ThreadSafe.v
ThreadRun.v
Random.v
Printf.v
Cstring.v
Ustar.v
Strtol.v
Bdrv.v
BdrvOpen.v
Ide.v
IdeSafe.v
IdeData.v
IdeGuest.v
Ports.v
Ata.v
AtaIde.v
Block.v
Vga.v
Serial.v
Kbd.v
