(* ===== verification/Prelude.v ===== *)
(** * Verification of the monitor

    [monee/] is a virtual machine monitor for 32-bit x86: it runs a guest
    operating system by binary translation, emulates the guest's devices and
    keeps shadow page tables for it, on top of a small kernel of its own (page
    allocator, lists, formatted output, queues between interrupt handlers and
    threads).  This library models the parts of that program listed below and
    proves what makes them correct.  Paths are relative to [src/monee/].

    ** The parts and the files that model them

    - [Prelude] (this file): outcomes of a computation ([res]), a state monad
      over them ([st]), machine words ([wrap], [sgn], [inU], bit operators),
      arrays indexed by [Z] ([geti], [seti], [lenZ]), and the shared lemmas.
    - [Vaddr]: [mem/vaddr.h], [mem/pte.h], [sys/loader.h]: address splitting,
      the monitor's address window, page-table entries.
    - [Bitmap]: [lib/bitmap.c]: the [struct bitmap] with its 32-bit elements;
      the abstract view is a function from indices to booleans.  The
      [BitArray] class states what the page allocator needs of it.
    - [Palloc]: [mem/palloc.c], written against [BitArray]: the pool, its
      quotas and counters, and the bytes of the pages.
    - [Arith64]: [lib/arithmetic.c]: 64-bit division from [divl].
    - [Pic]: [hw/i8259.c]: the two emulated interrupt controllers.
    - [Uart]: [hw/uart.c] with what it reaches in [hw/chr_driver.c] and the
      interrupt request word of [sys/vcpu.c]; it raises its line through [Pic].
    - [Ioport]: [sys/io.c]: registration tables and dispatch; its board runs
      guest port accesses on [Pic] and [Uart].
    - [Intq]: [devices/intq.c]: the bounded queue between interrupt handlers
      and threads, as a step relation.
    - [Gdt]: [sys/gdt.c] and the segment cache of [sys/vcpu.h]: segment
      descriptors and their shadows.
    - [Vcpu]: [vcpu_t] of [sys/vcpu.h] with the guest's memory, its accessors
      and stack macros; a computation on it returns, raises an exception for
      the guest, or stops the monitor.  [Interrupt]: the delivery of
      interrupts to the guest and the return from them in [sys/interrupt.c],
      and the loop of [sys/init.c] that delivers exceptions.  [Callouts]: the
      instructions emulated by [peep/callouts.c].  [Realmode] and [Protected]
      prove what these do in the two modes.
    - [Paging]: [mem/paging.c]: walks of guest tables, and what a fault
      installs in the shadow tables.
    - [Shadow]: [page_fault] of [sys/exception.c] on top of [Paging].
    - [Sort]: [sort] and [binary_search] of [lib/stdlib.c], on bytes.
    - [Dlist]: [lib/list.c], on a memory of [prev] and [next] fields.
    - [Malloc]: [mem/malloc.c] on top of [Palloc]: descriptors, arenas and the
      bytes of the blocks.
    - [Hash]: [lib/hash.c], with the buckets as the sequences [Dlist] shows
      its lists to be.
    - [Rbtree]: [lib/rbtree.c], on a memory of the elements' fields, with the
      comparison function as a parameter.  [RbtreeMem] relates that memory to
      trees and contexts, [RbtreeBalance] proves that the loops of insertion
      and deletion restore the colours, [RbtreeSpec] that the operations are
      those of an ordered sequence, [RbtreeOps] composes them.
    - [Thread]: [threads/thread.c], [threads/synch.c], [devices/timer.c] and
      the interrupt level and external handler of [sys/interrupt.c]: a state
      of threads whose stacks are the pieces of code left to run between two
      points where the processor may be taken away, and events (the running
      thread goes on, calls a function, a timer or device interrupt).
      [ThreadInv] states the invariant of that state and proves it for the
      scheduler and semaphores, [ThreadSafe] for every piece of code, every
      call and interrupt and for the boot sequence, [ThreadRun] for every
      series of events.
    - [Random]: [lib/random.c].
    - [Printf]: the formatter of [lib/stdio.c], and [atoi].
    - [Cstring]: [lib/string.c].
    - [Ustar]: [lib/ustar.c].
    - [Strtol]: [strtol] of [lib/stdio.c].
    - [Bdrv]: [devices/disk.c] and [hw/displace_bdrv.c] on any drive that
      obeys the laws of its class: the boot disk as the guest sees it, with
      the monitor's sectors protected.  [BdrvOpen]: [hw/bdrv.c] and the rest
      of those two files: the name under which the boot disk is opened.
    - [Ide]: [hw/ide.c]: the emulated controller of the guest's disks, on top
      of [Bdrv] and raising its line through [Pic].  [IdeSafe] states its
      invariant and proves it for every port access, [IdeData] follows sector
      numbers and data through it, [IdeGuest] has the theorems.
    - [Ports]: the port instructions of [sys/io.h] on any hardware (a class),
      which the drivers below are written against.
    - [Ata]: [devices/ata.c], the monitor's own disk driver.  [AtaIde] runs it
      on the controller of [Ide], as a monitor inside a guest does.
    - [Block]: [devices/block.c] and [devices/partition.c]: sectors of
      registered devices, and the scan for partitions, on any drivers that
      obey the laws of their class.
    - [Vga]: [devices/vga.c]: the text display.
    - [Serial]: [devices/serial.c] and [devices/input.c], with the queues of
      [Intq]: the serial port and the buffer of keys.  [Kbd]:
      [devices/kbd.c], which fills that buffer.

    A definition keeps the name of the C function it translates.  A function
    that changes state takes the state and returns it, in [st] where it makes
    several calls; [ASSERT] and [PANIC] are [Stop Panic], a processor trap is
    [Stop Trap], an access outside an object is [Stop Fault].  Unsigned
    integers are [Z] with their wrap-around written out.

    ** What the theorems show

    - Memory: the page allocator hands out exactly a free range within its
      quotas, keeps its counters equal to the populations of its bitmaps, and
      takes back what it gave ([palloc_get_multiple_spec], [palloc_free_get],
      [palloc_init_inv]); the bitmap scan finds the first free run
      ([bitmap_scan_and_flip_spec]).  The heap allocator returns blocks that
      are disjoint from the live ones and large enough, and keeps the
      contents of the others ([malloc_spec], [free_spec],
      [realloc_preserves]), except for sizes that wrap ([malloc_size_wraps]);
      the pages of an arena go back to the page allocator with its last block.
    - Paging: a walk returns the translation of the tables and sets only the
      accessed and dirty bits it should ([pt_walk_spec]); failures are
      classified as the processor would ([pt_walk_errors_classified]); a page
      fault reaches the guest exactly when the guest's tables do not allow the
      access, unless the entry that refuses is at physical address 0 or in
      the monitor's range ([page_fault_forwards]), and a hidden fault installs
      an entry that allows the access ([shadow_small_page_progress]).  For
      4-MB pages this fails, in the two ways [shadow_large_page_frame] and
      [shadow_large_page_write_refused] show.
    - Devices: invariants over every series of port accesses and line changes
      ([pic_run_safe], [uart_run_inv]), the priority of interrupts
      ([pic_get_irq_spec]), acknowledge and end of interrupt, dispatch by
      port ([board_out_dispatch]), and the queue as a FIFO ([intq_fifo]).
    - Disks: whatever the guest does with the ports of an IDE channel set up
      in memory without stray pointers, the controller stays within its buffers and the monitor's sectors keep
      their contents ([ide_guest_isolated]); read commands deliver the
      sectors of the disk, write commands store them
      ([ide_read_returns_disk], [ide_write_read]); after READ DMA the guest
      polls a busy drive and no interrupt comes ([ide_readdma_hangs]).  The disk driver finds the disks
      of that controller and reads back from them what it wrote, with no
      assertion failing and no wait timing out ([ata_driver_detects],
      [ata_driver_roundtrip]).  The place of the monitor survives
      being printed into the name of the disk and parsed from it, below
      sector 2^31 ([bdrv_init_opens], [strtol_clamps]).  The scan registers
      the partitions of a table without extended ones
      ([partition_scan_finds]), and goes on for ever on one with
      ([partition_scan_diverges]).
    - Console: the screen shows the last rows of all that was written
      ([vga_refines_paper]), from a cursor that is on it
      ([vga_putc_outside]); the serial port transmits what was put, and
      readers get what the port received and the keyboard typed, in order and
      whole, whatever threads and handlers do ([serial_in_order], [serial_interrupt_serves]); the
      keyboard's handler types what a US keyboard does, with the shift keys
      that are down ([kbd_types]).
    - Threads: no series of lawful calls and interrupts fails an assertion or
      leaves an object ([threads_never_fail]), a lock has one holder
      ([lock_mutual_exclusion]), no thread sleeps on a semaphore that has a
      unit for it ([sema_no_lost_wakeup]).  The rules ([may]) leave out timed
      waits, which can unlink an element twice ([timed_wait_removes_twice]),
      and the creation and the end of a thread while another is being linked
      into the list of all threads with interrupts on.
    - Segments: round trip of descriptors, what loading a segment register
      puts in the cache and in the shadow table, and which shadow page tables
      it selects ([load_seg_cache_spec]).
    - Guest interrupts: in real mode a handler's return resumes the
      interrupted program ([real_interrupt_roundtrip]); in protected mode
      delivery never lowers privilege and a return never raises it
      ([interrupt_privilege], [iret_privilege]), and an exception raised on
      the way leaves the program restartable ([delivery_restartable]).  A
      return always turns interrupts on ([iret_ignores_saved_IF]) and an empty
      interrupt table hangs the monitor ([triple_fault_hangs]).
    - Library: exact 64-bit quotients; sorting permutes and orders, searching
      finds ([sort_sorts], [binary_search_finds], [list_sort_sorts]); linked
      lists refine sequences ([list_refines_sequence]) and hash tables refine
      sets ([hash_refines_set]); red-black trees refine ordered sequences
      ([rbtree_refines]), insertion ends whatever the comparison answers
      ([rbtree_insert_total]), deletion takes one element out
      ([rbtree_delete_tree]) and the height is logarithmic
      ([rbtree_height_bound]); printed integers read
      back ([printf_atoi]); output is bounded by the buffer
      ([vsnprintf_bounded]); string functions meet their specification;
      archive headers parse back ([ustar_roundtrip]).

    ** Fuel and bounds

    A loop that is not structural takes fuel and returns [Stop NoFuel] when it
    runs out.  Each theorem that a function returns a result either fixes the
    fuel the definition computes (the number of elements of an array, the 32
    bits of a word, the digits of an integer, the 8 interrupt lines, the
    sectors of a request, the turns of a polling loop, the 63
    bytes of a queue) or asks for more than
    the length of the list the loop follows.  A loop over a tree takes the
    number of objects in memory, which bounds every path.  Results of type
    [size_t] are 32 bits wide.

    ** What is not modelled

    The binary translator ([peep/]) with its generated tables, the memory
    traces and the swap cache, bus-master DMA (no code allocates its state),
    the disk driven by [devices/mdisk.c] and the block driver that prepends
    sectors ([hw/append_bdrv.c]), the PCI bus and the clock, registration of
    the drivers' handlers, the hardware entry code and boot sequence, and
    console output with its locks.  The translator pastes machine
    code together from tables that the build generates out of
    [peep/peep.tab], so what it does rests on the meaning of x86 code; the
    traces and the swap cache are fed by that code.  Guest memory that a part
    only reads is a function from addresses to words. *)

From Stdlib Require Import ZArith Lia Bool List.
From stdpp Require Import base list numbers option.

#[global] Open Scope Z_scope.

(** ** Outcomes

    The monitor stops in four ways that a caller never sees as a value:
    [ASSERT]/[PANIC]/[NOT_REACHED] halt the machine, the processor raises a
    trap ([#DE] of [divl]), an access leaves the object it is made to, and
    (in the model only) a loop is given too little fuel. *)

Inductive stop : Set :=
| Panic
| Trap
| Fault
| NoFuel.

Inductive res (A : Type) : Type :=
| Ret (a : A)
| Stop (s : stop).
Arguments Ret {A} a.
Arguments Stop {A} s.

#[global] Instance stop_eq_dec : EqDecision stop.
Proof. solve_decision. Defined.

#[global] Instance res_ret : MRet res := fun A a => Ret a.
#[global] Instance res_bind : MBind res := fun A B f m =>
  match m with Ret a => f a | Stop s => Stop s end.
#[global] Instance res_fmap : FMap res := fun A B f m =>
  match m with Ret a => Ret (f a) | Stop s => Stop s end.

(** [ASSERT (b)]. *)
Definition assert (b : bool) : res unit :=
  if b then Ret tt else Stop Panic.

(** Reading a C object that must be there. *)
Definition the {A} (o : option A) : res A :=
  match o with Some a => Ret a | None => Stop Fault end.

Lemma bind_Ret {A B} (m : res A) (f : A -> res B) b :
  (m ≫= f) = Ret b <-> exists a, m = Ret a /\ f a = Ret b.
Proof. destruct m; simpl; split; intros H0; [eauto|destruct H0 as (? & [= ->] & ?)| |destruct H0 as (? & ? & ?)]; congruence. Qed.

Lemma assert_Ret b u : assert b = Ret u <-> b = true.
Proof. destruct b, u; simpl; naive_solver. Qed.

Lemma the_Ret {A} (o : option A) a : the o = Ret a <-> o = Some a.
Proof. destruct o; simpl; naive_solver. Qed.

(** State passing on top of [res]: the shape of the code that updates
    shared structures through pointers. *)
Definition st (S A : Type) : Type := S -> res (A * S).

#[global] Instance st_ret {S} : MRet (st S) := fun A a s => Ret (a, s).
#[global] Instance st_bind {S} : MBind (st S) := fun A B f m s =>
  match m s with Ret (a, s') => f a s' | Stop e => Stop e end.

Definition get {S} : st S S := fun s => Ret (s, s).
Definition put {S} (s : S) : st S unit := fun _ => Ret (tt, s).
Definition modify {S} (f : S -> S) : st S unit := fun s => Ret (tt, f s).
Definition lift {S A} (m : res A) : st S A := fun s =>
  match m with Ret a => Ret (a, s) | Stop e => Stop e end.
Definition stop_with {S A} (e : stop) : st S A := fun _ => Stop e.

Lemma st_bind_Ret {S A B} (m : st S A) (f : A -> st S B) s b s' :
  (m ≫= f) s = Ret (b, s') <->
  exists a s1, m s = Ret (a, s1) /\ f a s1 = Ret (b, s').
Proof.
  unfold mbind, st_bind. destruct (m s) as [[a s1]|e]; split.
  - eauto.
  - intros (? & ? & [= <- <-] & ?). assumption.
  - discriminate.
  - intros (? & ? & ? & _). discriminate.
Qed.

(** ** Machine integers

    A [w]-bit unsigned integer is a [Z] in [[0, 2^w)]; a conversion to the
    type is [wrap w]; [sgn w] reads a [w]-bit pattern as two's complement. *)

Definition wrap (w x : Z) : Z := x mod 2 ^ w.

Definition sgn (w x : Z) : Z :=
  if wrap w x <? 2 ^ (w - 1) then wrap w x else wrap w x - 2 ^ w.

Definition inU (w x : Z) : Prop := 0 <= x < 2 ^ w.

#[global] Instance inU_dec w x : Decision (inU w x).
Proof. unfold inU. apply _. Defined.

Declare Scope mach_scope.
Delimit Scope mach_scope with mach.
Notation "x &! y" := (Z.land x y) (at level 40, left associativity) : mach_scope.
Notation "x |! y" := (Z.lor x y) (at level 50, left associativity) : mach_scope.
Notation "x ^! y" := (Z.lxor x y) (at level 45, left associativity) : mach_scope.
Notation "x << n" := (Z.shiftl x n) (at level 37, left associativity) : mach_scope.
Notation "x >> n" := (Z.shiftr x n) (at level 37, left associativity) : mach_scope.
#[global] Open Scope mach_scope.

(** [x & ~m] on [w]-bit integers clears the bits of [m]. *)
Notation "x &~ m" := (Z.ldiff x m) (at level 40, left associativity) : mach_scope.

(** C truth of an integer. *)
Definition nz (x : Z) : bool := negb (x =? 0).

(** C value of a comparison. *)
Definition b2z (b : bool) : Z := if b then 1 else 0.

Create HintDb width discriminated.

Section Width.
Context (w : Z) (Hw : 0 <= w).

Lemma wrap_inU x : inU w (wrap w x).
Proof using Hw. unfold inU, wrap. apply Z.mod_pos_bound. lia. Qed.

Lemma wrap_id x : inU w x -> wrap w x = x.
Proof using Type. intros. apply Z.mod_small. exact H. Qed.

Lemma inU_testbit x i : inU w x -> w <= i -> Z.testbit x i = false.
Proof using Hw.
  intros [H0 H1] Hi. destruct (decide (x = 0)) as [->|Hx]; [apply Z.bits_0|].
  apply Z.bits_above_log2; [lia|].
  assert (Z.log2 x < w) by (apply Z.log2_lt_pow2; lia). lia.
Qed.

Lemma testbit_inU x :
  0 <= x -> (forall i, w <= i -> Z.testbit x i = false) -> inU w x.
Proof using Hw.
  intros H0 H. split; [exact H0|].
  destruct (decide (x = 0)) as [->|Hx]; [apply Z.pow_pos_nonneg; lia|].
  apply Z.log2_lt_pow2; [lia|].
  destruct (Z.lt_ge_cases (Z.log2 x) w) as [|Hge]; [lia|].
  pose proof (Z.bit_log2 x ltac:(lia)) as Hb.
  rewrite (H _ Hge) in Hb. discriminate.
Qed.

Lemma testbit_wrap x i :
  0 <= i -> Z.testbit (wrap w x) i = (i <? w) && Z.testbit x i.
Proof using Hw.
  intros Hi. unfold wrap. destruct (Z.ltb_spec i w).
  - rewrite Z.mod_pow2_bits_low by lia. reflexivity.
  - rewrite Z.mod_pow2_bits_high by lia. reflexivity.
Qed.

Lemma inU_0 : inU w 0.
Proof using Hw. split; [lia|apply Z.pow_pos_nonneg; lia]. Qed.

Lemma inU_land x y : inU w x -> 0 <= y -> inU w (x &! y).
Proof using Hw.
  intros Hx Hy. apply testbit_inU.
  - apply Z.land_nonneg. left. apply Hx.
  - intros i Hi. rewrite Z.land_spec, (inU_testbit x i) by assumption. reflexivity.
Qed.

Lemma inU_land_r x y : 0 <= x -> inU w y -> inU w (x &! y).
Proof using Hw. intros. rewrite Z.land_comm. apply inU_land; assumption. Qed.

Lemma inU_lor x y : inU w x -> inU w y -> inU w (x |! y).
Proof using Hw.
  intros Hx Hy. apply testbit_inU.
  - apply Z.lor_nonneg. split; [apply Hx|apply Hy].
  - intros i Hi. rewrite Z.lor_spec, !inU_testbit by assumption. reflexivity.
Qed.

Lemma inU_lxor x y : inU w x -> inU w y -> inU w (x ^! y).
Proof using Hw.
  intros Hx Hy. apply testbit_inU.
  - apply Z.lxor_nonneg. split; intros; [apply Hy|apply Hx].
  - intros i Hi. rewrite Z.lxor_spec, !inU_testbit by assumption. reflexivity.
Qed.

Lemma inU_ldiff x y : inU w x -> inU w (x &~ y).
Proof using Hw.
  intros Hx. apply testbit_inU.
  - apply Z.ldiff_nonneg. left. apply Hx.
  - intros i Hi. rewrite Z.ldiff_spec, (inU_testbit x i) by assumption. reflexivity.
Qed.

Lemma inU_shiftr x n : 0 <= n -> inU w x -> inU w (x >> n).
Proof using Hw.
  intros Hn Hx. apply testbit_inU.
  - apply Z.shiftr_nonneg. apply Hx.
  - intros i Hi. rewrite Z.shiftr_spec, inU_testbit by (assumption || lia). reflexivity.
Qed.

Lemma inU_bit n : 0 <= n < w -> inU w (1 << n).
Proof using Hw.
  intros Hn. rewrite Z.shiftl_1_l. split; [apply Z.pow_nonneg; lia|].
  apply Z.pow_lt_mono_r; lia.
Qed.
End Width.

Lemma sgn_id w x : 0 < w -> 0 <= x < 2 ^ (w - 1) -> sgn w x = x.
Proof.
  intros Hw Hx. assert (2 ^ w = 2 * 2 ^ (w - 1))
    by (rewrite <- Z.pow_succ_r by lia; f_equal; lia).
  unfold sgn. rewrite wrap_id by (unfold inU; lia).
  destruct (Z.ltb_spec x (2 ^ (w - 1))); lia.
Qed.

#[export] Hint Resolve wrap_inU inU_0 inU_land inU_lor inU_lxor inU_ldiff
  inU_shiftr inU_bit : width.
#[export] Hint Extern 5 (_ <= _) => lia : width.
#[export] Hint Extern 5 (_ < _) => lia : width.
#[export] Hint Extern 5 (_ <= _ < _) => lia : width.

(** Closed numerals are in range by computation. *)
Ltac inU_num := split; [apply Z.leb_le; vm_compute; reflexivity
                       |apply Z.ltb_lt; vm_compute; reflexivity].

Lemma inU_weaken w w' x : 0 <= w <= w' -> inU w x -> inU w' x.
Proof.
  intros Hw [H0 H1]. split; [exact H0|].
  assert (2 ^ w <= 2 ^ w') by (apply Z.pow_le_mono_r; lia). lia.
Qed.

(** ** Bits *)

Lemma testbit_bit n i :
  0 <= n -> 0 <= i -> Z.testbit (1 << n) i = (i =? n).
Proof.
  intros Hn Hi. rewrite Z.shiftl_1_l. destruct (Z.eqb_spec i n) as [->|Hne].
  - apply Z.pow2_bits_true. exact Hn.
  - apply Z.pow2_bits_false. lia.
Qed.

Lemma land_bit_nz x n : 0 <= n -> nz (x &! (1 << n)) = Z.testbit x n.
Proof.
  intros Hn. unfold nz.
  destruct (Z.eqb_spec (x &! (1 << n)) 0) as [H|H]; simpl.
  - assert (Hb : Z.testbit (x &! (1 << n)) n = false) by (rewrite H; apply Z.bits_0).
    rewrite Z.land_spec, testbit_bit, Z.eqb_refl, andb_true_r in Hb by lia. congruence.
  - destruct (Z.testbit x n) eqn:Hx; [reflexivity|]. exfalso. apply H.
    apply Z.bits_inj'. intros i Hi.
    rewrite Z.land_spec, testbit_bit, Z.bits_0 by lia.
    destruct (Z.eqb_spec i n) as [->|]; [rewrite Hx|]; auto using andb_false_r.
Qed.

Lemma testbit_ones n i :
  0 <= n -> 0 <= i -> Z.testbit (Z.ones n) i = (i <? n).
Proof.
  intros Hn Hi. destruct (Z.ltb_spec i n).
  - apply Z.ones_spec_low. lia.
  - apply Z.ones_spec_high. lia.
Qed.

(** Equality of integers bit by bit: unfold every operator at a symbolic
    index and decide the index comparisons. *)
Ltac bits_step :=
  first
  [ rewrite Z.land_spec | rewrite Z.lor_spec | rewrite Z.lxor_spec
  | rewrite Z.ldiff_spec | rewrite Z.lnot_spec by lia
  | rewrite testbit_ones by lia | rewrite testbit_bit by lia
  | rewrite Z.shiftr_spec by lia | rewrite Z.shiftl_spec by lia
  | rewrite testbit_wrap by lia | rewrite Z.bits_0 ].

(** Decide every comparison of the goal. *)
Ltac cmp_cases :=
  repeat match goal with
  | |- context [?a <=? ?b] => destruct (Z.leb_spec a b)
  | |- context [?a <? ?b] => destruct (Z.ltb_spec a b)
  | |- context [?a =? ?b] => destruct (Z.eqb_spec a b)
  end.

Ltac bits_eq := apply Z.bits_inj'; let i := fresh "i" in let Hi := fresh "Hi" in
  intros i Hi; repeat bits_step.

(** [~m] of a [w]-bit mask. *)
Definition wnot (w m : Z) : Z := wrap w (Z.lnot m).

Lemma land_wnot_ldiff w x m :
  0 <= w -> inU w x -> x &! wnot w m = x &~ m.
Proof.
  intros Hw Hx. unfold wnot. bits_eq.
  destruct (Z.ltb_spec i w); [reflexivity|].
  rewrite (inU_testbit w Hw x i) by assumption. reflexivity.
Qed.

Lemma ldiff_ones x n : 0 <= n -> x &~ Z.ones n = 2 ^ n * (x / 2 ^ n).
Proof.
  intros Hn. rewrite Z.ldiff_ones_r, Z.shiftl_mul_pow2, Z.shiftr_div_pow2 by lia. lia.
Qed.

Lemma land_wnot_ones w x n :
  0 <= w -> 0 <= n -> inU w x -> x &! wnot w (Z.ones n) = 2 ^ n * (x / 2 ^ n).
Proof. intros. rewrite land_wnot_ldiff, ldiff_ones by assumption. reflexivity. Qed.

(** Field extraction: the [c] bits of [x] from bit [s]. *)
Lemma land_field x s c :
  0 <= s -> 0 <= c -> (x &! (Z.ones c << s)) >> s = x / 2 ^ s mod 2 ^ c.
Proof.
  intros Hs Hc. rewrite <- Z.shiftr_div_pow2, <- Z.land_ones by lia. bits_eq.
  replace (i + s - s) with i by lia.
  destruct (Z.ltb_spec i c); reflexivity.
Qed.

Lemma lor_disjoint x y : x &! y = 0 -> x |! y = x + y.
Proof. intros H. rewrite Z.add_nocarry_lxor, Z.lxor_lor by exact H. reflexivity. Qed.

(** A multiple of [2^n] and a number below it have no bit in common. *)
Lemma land_mult_low n x y : inU n y -> 0 <= n -> (2 ^ n * x) &! y = 0.
Proof.
  intros Hy Hn. rewrite Z.mul_comm, <- Z.shiftl_mul_pow2 by lia. bits_eq.
  destruct (Z.lt_ge_cases i n).
  - rewrite (Z.testbit_neg_r x) by lia. reflexivity.
  - rewrite (inU_testbit n Hn y i) by assumption. apply andb_false_r.
Qed.

Lemma lor_mult_low n x y : inU n y -> 0 <= n -> (2 ^ n * x) |! y = 2 ^ n * x + y.
Proof. intros. apply lor_disjoint, land_mult_low; assumption. Qed.

(** Appending a field above the [n] low bits. *)
Lemma lor_shiftl_low n x y : inU n x -> 0 <= n -> x |! (y << n) = x + y * 2 ^ n.
Proof.
  intros Hx Hn. rewrite Z.lor_comm, Z.shiftl_mul_pow2, Z.mul_comm, lor_mult_low by assumption.
  lia.
Qed.

(** Masking out a field in place. *)
Lemma land_field_at x s c :
  0 <= s -> 0 <= c -> x &! (Z.ones c << s) = (x / 2 ^ s mod 2 ^ c) << s.
Proof.
  intros Hs Hc. rewrite <- Z.shiftr_div_pow2, <- Z.land_ones by lia.
  apply Z.bits_inj'. intros i Hi. rewrite Z.land_spec, !Z.shiftl_spec by lia.
  destruct (Z.lt_ge_cases i s).
  - rewrite !(Z.testbit_neg_r _ (i - s)) by lia. apply andb_false_r.
  - rewrite Z.land_spec, Z.shiftr_spec by lia. replace (i - s + s) with i by lia. reflexivity.
Qed.

(** ** Exhaustive checks on small ranges *)

Definition all_below (n : Z) (P : Z -> bool) : bool := forallb P (seqZ 0 n).

Lemma all_below_spec n P :
  all_below n P = true -> forall x, 0 <= x < n -> P x = true.
Proof.
  unfold all_below. rewrite forallb_forall. intros H x Hx. apply H.
  apply list_elem_of_In, elem_of_seqZ. lia.
Qed.

(** ** Arrays: lists indexed by [Z] *)

Definition geti {A} (l : list A) (i : Z) : option A :=
  if i <? 0 then None else l !! Z.to_nat i.

Definition seti {A} (l : list A) (i : Z) (a : A) : list A :=
  if i <? 0 then l else <[Z.to_nat i := a]> l.

Definition lenZ {A} (l : list A) : Z := Z.of_nat (length l).

Section Arrays.
Context {A : Type}.
Implicit Types (l : list A) (i j : Z) (a : A).

Lemma geti_lt_Some l i : 0 <= i < lenZ l -> exists a, geti l i = Some a.
Proof using Type.
  unfold geti, lenZ. intros Hi. destruct (Z.ltb_spec i 0); [lia|].
  apply lookup_lt_is_Some_2. lia.
Qed.

Lemma geti_Some_lt l i a : geti l i = Some a -> 0 <= i < lenZ l.
Proof using Type.
  unfold geti, lenZ. destruct (Z.ltb_spec i 0); [discriminate|].
  intros H1%lookup_lt_Some. lia.
Qed.

Lemma lenZ_seti l i a : lenZ (seti l i a) = lenZ l.
Proof using Type.
  unfold lenZ, seti. destruct (i <? 0); [reflexivity|]. rewrite length_insert. reflexivity.
Qed.

Lemma geti_seti_eq l i a : 0 <= i < lenZ l -> geti (seti l i a) i = Some a.
Proof using Type.
  unfold geti, seti, lenZ. intros Hi. destruct (Z.ltb_spec i 0); [lia|].
  apply list_lookup_insert_eq. lia.
Qed.

Lemma geti_seti_ne l i j a : i <> j -> geti (seti l i a) j = geti l j.
Proof using Type.
  unfold geti, seti. intros Hne. destruct (Z.ltb_spec i 0), (Z.ltb_spec j 0); auto.
  apply list_lookup_insert_ne. lia.
Qed.

Lemma geti_seti l i j a :
  0 <= i < lenZ l -> geti (seti l i a) j = if j =? i then Some a else geti l j.
Proof using Type.
  intros Hi. destruct (Z.eqb_spec j i) as [->|].
  - apply geti_seti_eq; exact Hi.
  - apply geti_seti_ne; congruence.
Qed.

Lemma geti_replicate (n : nat) a i : 0 <= i < Z.of_nat n -> geti (replicate n a) i = Some a.
Proof using Type.
  intros Hi. unfold geti. destruct (Z.ltb_spec i 0); [lia|].
  apply lookup_replicate_2. lia.
Qed.

Lemma geti_ext l l' : (forall i, geti l i = geti l' i) -> l = l'.
Proof using Type.
  intros H. apply list_eq. intros n. specialize (H (Z.of_nat n)). unfold geti in H.
  rewrite (proj2 (Z.ltb_ge _ _)) in H by lia. rewrite Nat2Z.id in H. exact H.
Qed.

(** Exchanging two elements of an array. *)
Definition swapi l i j : option (list A) :=
  a ← geti l i; b ← geti l j; Some (seti (seti l i b) j a).

Lemma swapi_Some l i j :
  0 <= i < lenZ l -> 0 <= j < lenZ l -> exists l', swapi l i j = Some l'.
Proof using Type.
  intros Hi Hj. destruct (geti_lt_Some l i Hi) as (a & Ea), (geti_lt_Some l j Hj) as (b & Eb).
  unfold swapi. rewrite Ea, Eb. eexists. reflexivity.
Qed.

Lemma geti_swapi l i j l' k :
  swapi l i j = Some l' ->
  geti l' k = if k =? j then geti l i else if k =? i then geti l j else geti l k.
Proof using Type.
  unfold swapi. intros (a & Ea & (b & Eb & [= <-])%bind_Some)%bind_Some.
  pose proof (geti_Some_lt _ _ _ Ea). pose proof (geti_Some_lt _ _ _ Eb).
  rewrite !geti_seti by (rewrite ?lenZ_seti; lia).
  destruct (k =? j); [symmetry; exact Ea|]. destruct (k =? i); [symmetry; exact Eb|reflexivity].
Qed.

Lemma lenZ_swapi l i j l' : swapi l i j = Some l' -> lenZ l' = lenZ l.
Proof using Type.
  unfold swapi. intros (a & _ & (b & _ & [= <-])%bind_Some)%bind_Some.
  rewrite !lenZ_seti. reflexivity.
Qed.

Lemma swapi_perm l i j l' : swapi l i j = Some l' -> l' ≡ₚ l.
Proof using Type.
  intros E. apply Permutation_inj. pose proof (lenZ_swapi _ _ _ _ E) as Hlen.
  assert (0 <= i /\ 0 <= j) as (Hi & Hj).
  { unfold swapi in E. apply bind_Some in E as (a & Ea & (b & Eb & _)%bind_Some).
    apply geti_Some_lt in Ea, Eb. lia. }
  split; [unfold lenZ in Hlen; lia|].
  exists (fun n => if decide (n = Z.to_nat j) then Z.to_nat i
                   else if decide (n = Z.to_nat i) then Z.to_nat j else n). split.
  - intros x y. repeat destruct (decide _); lia.
  - intros n. pose proof (geti_swapi _ _ _ _ (Z.of_nat n) E) as H. unfold geti in H.
    rewrite !(proj2 (Z.ltb_ge _ _)), Nat2Z.id in H by lia. rewrite H.
    destruct (Z.eqb_spec (Z.of_nat n) j), (Z.eqb_spec (Z.of_nat n) i);
      repeat destruct (decide _); try reflexivity; lia.
Qed.
End Arrays.

Create Rewrite HintDb arrays.
#[export] Hint Rewrite @lenZ_seti : arrays.
