(* ===== verification/Vaddr.v ===== *)
(** * Virtual addresses and page-table entries

    [mem/vaddr.h] and [mem/pte.h]: how a 32-bit address splits into page
    directory index, page table index and offset, the two linear maps between
    the monitor's physical and virtual ranges, and the constructors and
    accessors of page directory and page table entries.  Pointers are 32-bit
    integers. *)

From Stdlib Require Import ZArith Lia Bool.
From stdpp Require Import base.
From S2P Require Import Prelude.

(** [1ul] is a 32-bit constant of this target. *)
Definition BITMASK (SHIFT CNT : Z) : Z :=
  wrap 32 (wrap 32 (wrap 32 (1 << CNT) - 1) << SHIFT).

Definition PGBITS : Z := 12.
Definition PGSIZE : Z := 1 << PGBITS.
Definition PGMASK : Z := BITMASK 0 PGBITS.
Definition LPGBITS : Z := 22.
Definition LPGSIZE : Z := 1 << LPGBITS.
Definition LPGMASK : Z := BITMASK 0 LPGBITS.

Definition pg_ofs (va : Z) : Z := va &! PGMASK.
Definition lpg_ofs (va : Z) : Z := va &! LPGMASK.
Definition pg_no (va : Z) : Z := va >> PGBITS.
Definition pg_round_up (va : Z) : Z := wrap 32 (va + PGSIZE - 1) &! wnot 32 PGMASK.
Definition pg_round_down (va : Z) : Z := va &! wnot 32 PGMASK.

(** [sys/loader.h]. *)
Definition LOADER_MONITOR_BASE : Z := 0x400000.
Definition VMM_SIZE : Z := 0x400000.
Definition VMX_SIZE : Z := 0x400000.
Definition MONITOR_SIZE : Z := VMM_SIZE + VMX_SIZE.
Definition LOADER_MONITOR_END : Z := LOADER_MONITOR_BASE + MONITOR_SIZE.
Definition LOADER_VMM_VIRT_BASE : Z := 0xffc00000.
Definition LOADER_VMX_VIRT_BASE : Z := LOADER_VMM_VIRT_BASE - VMX_SIZE.
Definition LOADER_MONITOR_VIRT_BASE : Z := LOADER_VMX_VIRT_BASE.
Definition MONITOR_BASE : Z := LOADER_MONITOR_VIRT_BASE.

Definition is_monitor_vaddr (vaddr : Z) : bool := MONITOR_BASE <=? vaddr.

Definition ptov_phy (x : Z) : Z := x.
Definition vtop_phy (x : Z) : Z := x.

Definition ptov_mon (x : Z) : res Z :=
  assert ((LOADER_MONITOR_BASE <=? x)
          && (x <? LOADER_MONITOR_BASE + (MONITOR_SIZE - 1)));;
  mret (wrap 32 (x + (MONITOR_BASE - LOADER_MONITOR_BASE))).

Definition vtop_mon (x : Z) : res Z :=
  assert ((MONITOR_BASE <=? x) && (x <=? MONITOR_BASE + (MONITOR_SIZE - 1)));;
  mret (wrap 32 (x - (MONITOR_BASE - LOADER_MONITOR_BASE))).

(** The [__MONITOR__] variants: an odd argument must be the value 1. *)
Definition ptov (x : Z) : res Z :=
  if nz (x &! 1) then assert (x =? 1);; mret x
  else if (LOADER_MONITOR_BASE <=? x) && (x <? LOADER_MONITOR_END)
  then ptov_mon x else mret x.

Definition vtop (x : Z) : res Z :=
  if LOADER_MONITOR_VIRT_BASE <=? x then vtop_mon x else mret x.

Definition PTSHIFT : Z := PGBITS.
Definition PTBITS : Z := 10.
Definition PTMASK : Z := BITMASK PTSHIFT PTBITS.
Definition PDSHIFT : Z := PTSHIFT + PTBITS.

Definition pt_no (va : Z) : Z := (va &! PTMASK) >> PTSHIFT.
Definition pd_no (va : Z) : Z := va >> PDSHIFT.

Definition PTE_FLAGS : Z := 0x00000fff.
Definition PTE_ADDR : Z := 0xfffff000.
Definition PTE_AVL : Z := 0x00000e00.
Definition PTE_P : Z := 0x1.
Definition PTE_W : Z := 0x2.
Definition PTE_U : Z := 0x4.
Definition PTE_A : Z := 0x20.
Definition PTE_D : Z := 0x40.
Definition LPTE_ADDR : Z := 0xffc00000.
Definition PTE_PS : Z := 0x80.
Definition PTE_G : Z := 0x100.

Definition pde_create (pt : Z) (writable : bool) : res Z :=
  assert (pg_ofs pt =? 0);;
  p ← vtop_mon pt;
  mret (p |! PTE_U |! PTE_P |! (if writable then PTE_W else 0)).

Definition pde_get_pt_mon (pde : Z) : res Z := ptov_mon (pde &! PTE_ADDR).

Definition pte_create (paddr : Z) (writable : bool) : res Z :=
  assert (pg_ofs (ptov_phy paddr) =? 0);;
  mret (paddr |! PTE_U |! PTE_P |! (if writable then PTE_W else 0)).

Definition pte_get_page (pte : Z) : Z := ptov_phy (pte &! PTE_ADDR).

Definition pde_create_large (paddr : Z) (writable : bool) : res Z :=
  assert (pg_ofs (ptov_phy paddr) =? 0);;
  mret (paddr |! PTE_U |! PTE_PS |! PTE_G |! PTE_P |! (if writable then PTE_W else 0)).

Definition pde_create_mon (paddr : Z) (writable : bool) : Z :=
  paddr |! PTE_U |! PTE_P |! (if writable then PTE_W else 0).

Definition pde_create_large_mon (paddr : Z) (writable : bool) : Z :=
  paddr |! PTE_U |! PTE_PS |! PTE_G |! PTE_P |! (if writable then PTE_W else 0).

(** Unfold the layout constants of [sys/loader.h] for [lia]. *)
Ltac loader_consts :=
  unfold LOADER_MONITOR_END, MONITOR_BASE, LOADER_MONITOR_VIRT_BASE,
    LOADER_VMX_VIRT_BASE, MONITOR_SIZE in *;
  unfold VMM_SIZE, VMX_SIZE, LOADER_VMM_VIRT_BASE, LOADER_MONITOR_BASE in *.

(** ** Arithmetic readings of the bit operations *)

Lemma pg_ofs_mod va : pg_ofs va = va mod 2 ^ 12.
Proof. apply (Z.land_ones va 12). lia. Qed.

Lemma lpg_ofs_mod va : lpg_ofs va = va mod 2 ^ 22.
Proof. apply (Z.land_ones va 22). lia. Qed.

Lemma pg_no_div va : pg_no va = va / 2 ^ 12.
Proof. apply Z.shiftr_div_pow2. lia. Qed.

Lemma pd_no_div va : pd_no va = va / 2 ^ 22.
Proof. apply Z.shiftr_div_pow2. lia. Qed.

Lemma pt_no_field va : pt_no va = va / 2 ^ 12 mod 2 ^ 10.
Proof. apply (land_field va 12 10); lia. Qed.

Lemma land_PTE_ADDR x : inU 32 x -> x &! PTE_ADDR = 2 ^ 12 * (x / 2 ^ 12).
Proof. apply (land_wnot_ones 32 x 12); lia. Qed.

Lemma land_LPTE_ADDR x : inU 32 x -> x &! LPTE_ADDR = 2 ^ 22 * (x / 2 ^ 22).
Proof. apply (land_wnot_ones 32 x 22); lia. Qed.

Lemma pg_round_down_div va : inU 32 va -> pg_round_down va = 2 ^ 12 * (va / 2 ^ 12).
Proof. apply (land_wnot_ones 32 va 12); lia. Qed.

Lemma pg_round_up_div va :
  inU 32 va -> pg_round_up va = 2 ^ 12 * (wrap 32 (va + 4095) / 2 ^ 12).
Proof.
  intros Hva. unfold pg_round_up.
  replace (va + PGSIZE - 1) with (va + 4095) by (change PGSIZE with 4096; lia).
  apply (land_wnot_ones 32 _ 12); [lia..|]. apply wrap_inU. lia.
Qed.

(** Flag bits of an entry below a page-aligned address. *)
Lemma aligned_lor paddr flags :
  inU 12 flags -> paddr mod 2 ^ 12 = 0 -> paddr |! flags = paddr + flags.
Proof.
  intros Hf Hp. replace paddr with (2 ^ 12 * (paddr / 2 ^ 12)).
  - apply lor_mult_low; [exact Hf|lia].
  - pose proof (Z.div_mod paddr (2 ^ 12)). lia.
Qed.

Lemma aligned_entry paddr flags :
  inU 12 flags -> inU 32 paddr -> paddr mod 2 ^ 12 = 0 ->
  (paddr |! flags) &! PTE_ADDR = paddr /\ (paddr |! flags) &! PTE_FLAGS = flags.
Proof.
  intros Hf Hp Hm. pose proof (Z.div_mod paddr (2 ^ 12)).
  rewrite (aligned_lor paddr flags) by assumption. unfold inU in *. split.
  - rewrite land_PTE_ADDR by (unfold inU; lia).
    rewrite <- Z.div_unique with (q := paddr / 2 ^ 12) (r := flags) (b := 2 ^ 12); lia.
  - change PTE_FLAGS with (Z.ones 12). rewrite Z.land_ones by lia.
    symmetry. apply Z.mod_unique with (q := paddr / 2 ^ 12); lia.
Qed.

(** ** Properties *)

(** Every 32-bit virtual address is the page directory index, the page
    table index and the offset put back together, and each part fits the
    table it indexes. *)
Theorem vaddr_decompose va :
  inU 32 va ->
  va = pd_no va * LPGSIZE + pt_no va * PGSIZE + pg_ofs va
  /\ inU 10 (pd_no va) /\ inU 10 (pt_no va) /\ inU 12 (pg_ofs va)
  /\ pg_no va = pd_no va * 1024 + pt_no va
  /\ lpg_ofs va = pt_no va * PGSIZE + pg_ofs va.
Proof.
  intros Hva. rewrite pd_no_div, pt_no_field, pg_ofs_mod, lpg_ofs_mod, pg_no_div.
  change LPGSIZE with (2 ^ 22). change PGSIZE with (2 ^ 12). unfold inU in *.
  Z.div_mod_to_equations. lia.
Qed.

Lemma vaddr_decompose_witness :
  pd_no 0xffc01abc = 1023 /\ pt_no 0xffc01abc = 1
  /\ 0xffc01abc = pd_no 0xffc01abc * LPGSIZE + pt_no 0xffc01abc * PGSIZE + pg_ofs 0xffc01abc.
Proof.
  split; [reflexivity|split; [reflexivity|]].
  apply (vaddr_decompose 0xffc01abc). inU_num.
Defined.

Lemma ptov_mon_spec x :
  LOADER_MONITOR_BASE <= x < LOADER_MONITOR_END - 1 ->
  ptov_mon x = Ret (x + (MONITOR_BASE - LOADER_MONITOR_BASE)).
Proof.
  intros Hx. unfold ptov_mon, assert.
  loader_consts.
  rewrite (proj2 (Z.leb_le _ _)), (proj2 (Z.ltb_lt _ _)) by lia. simpl.
  rewrite wrap_id by (unfold inU; lia). reflexivity.
Qed.

Lemma vtop_mon_spec x :
  MONITOR_BASE <= x < MONITOR_BASE + MONITOR_SIZE ->
  vtop_mon x = Ret (x - (MONITOR_BASE - LOADER_MONITOR_BASE)).
Proof.
  intros Hx. unfold vtop_mon, assert.
  loader_consts.
  rewrite !(proj2 (Z.leb_le _ _)) by lia. simpl.
  rewrite wrap_id by (unfold inU; lia). reflexivity.
Qed.

(** The linear maps are inverse on page addresses below the monitor's virtual
    range: the physical address of the virtual address of [x] is [x]. *)
Lemma vtop_ptov x :
  x mod 2 = 0 -> 0 <= x < MONITOR_BASE ->
  exists v, ptov x = Ret v /\ vtop v = Ret x.
Proof.
  intros Heven Hx. unfold ptov.
  replace (nz (x &! 1)) with false
    by (change 1 with (Z.ones 1); rewrite Z.land_ones, Z.pow_1_r, Heven by lia; reflexivity).
  destruct (Z.leb_spec LOADER_MONITOR_BASE x), (Z.ltb_spec x LOADER_MONITOR_END); simpl.
  2-4: exists x; split; [reflexivity|]; unfold vtop;
    rewrite (proj2 (Z.leb_gt _ _)) by apply Hx; reflexivity.
  assert (x <> LOADER_MONITOR_END - 1) by (intros ->; discriminate Heven).
  eexists. split; [apply ptov_mon_spec; lia|].
  assert (MONITOR_BASE <= x + (MONITOR_BASE - LOADER_MONITOR_BASE)) by lia.
  unfold vtop. change LOADER_MONITOR_VIRT_BASE with MONITOR_BASE.
  rewrite (proj2 (Z.leb_le _ _)) by lia.
  unfold LOADER_MONITOR_END in *. rewrite vtop_mon_spec by lia. f_equal. lia.
Qed.

(** [ptov_mon] and the guard of [ptov] disagree on the last byte of the
    monitor's physical range: the range test of [ptov] admits it, the
    assertion of [ptov_mon] refuses it, and [vtop_mon] accepts its image. *)
Theorem ptov_mon_last_byte :
  (LOADER_MONITOR_BASE <=? LOADER_MONITOR_END - 1) = true
  /\ (LOADER_MONITOR_END - 1 <? LOADER_MONITOR_END) = true
  /\ ptov_mon (LOADER_MONITOR_END - 1) = Stop Panic
  /\ vtop_mon (MONITOR_BASE + MONITOR_SIZE - 1) = Ret (LOADER_MONITOR_END - 1).
Proof. repeat split. Qed.

(** A page directory entry made for a page table of the monitor leads
    back to that table, is present, is writable exactly when asked, and
    leaves the flag bits that were not asked for clear. *)
Theorem pde_create_get_pt pt w :
  MONITOR_BASE <= pt < MONITOR_BASE + MONITOR_SIZE -> pg_ofs pt = 0 ->
  exists pde, pde_create pt w = Ret pde
  /\ pde_get_pt_mon pde = Ret pt
  /\ pde &! PTE_FLAGS = PTE_U + PTE_P + (if w then PTE_W else 0).
Proof.
  intros Hpt Hofs. unfold pde_create. rewrite Hofs. simpl.
  rewrite vtop_mon_spec by exact Hpt. simpl. eexists; split; [reflexivity|].
  set (p := pt - (MONITOR_BASE - LOADER_MONITOR_BASE)).
  rewrite pg_ofs_mod in Hofs.
  assert (Hp : LOADER_MONITOR_BASE <= p < LOADER_MONITOR_END /\ p mod 2 ^ 12 = 0).
  { split; [unfold p, LOADER_MONITOR_END; lia|]. unfold p.
    rewrite Zminus_mod, Hofs. reflexivity. }
  rewrite <- !Z.lor_assoc.
  destruct (aligned_entry p (PTE_U |! (PTE_P |! (if w then PTE_W else 0))))
    as [HA HF].
  - destruct w; inU_num.
  - loader_consts. unfold inU. lia.
  - apply Hp.
  - unfold pde_get_pt_mon. rewrite HA, HF. split; [|destruct w; reflexivity].
    rewrite ptov_mon_spec; [f_equal; unfold p; lia|].
    assert (p <> LOADER_MONITOR_END - 1) by (intros E; rewrite E in Hp; destruct Hp; discriminate).
    lia.
Qed.

Lemma pde_create_get_pt_witness :
  exists pde, pde_create 0xff801000 true = Ret pde /\ pde_get_pt_mon pde = Ret 0xff801000
  /\ pde &! PTE_FLAGS = 7.
Proof. apply (pde_create_get_pt 0xff801000 true); [vm_compute; split; congruence|reflexivity]. Defined.
