(* ===== verification/Bitmap.v ===== *)
(** * Bitmaps

    [lib/bitmap.c]: an array of bits kept in 32-bit elements.  The state is
    the [struct bitmap] with its element array; every operation is translated
    with its assertions.  The abstract view of a bitmap is the function [bit]
    from indices to booleans, and each operation is characterised by what it
    does to that view. *)

From Stdlib Require Import ZArith Lia Bool.
From stdpp Require Import base list numbers.
From S2P Require Import Prelude.

Definition ELEM_BITS : Z := 32.
Definition BITMAP_ERROR : Z := 0xffffffff.

Record bitmap := mk_bitmap { bit_cnt : Z; bits : list Z }.

Definition elem_idx (bit_idx : Z) : Z := bit_idx / ELEM_BITS.
Definition bit_mask (bit_idx : Z) : Z := wrap 32 (1 << (bit_idx mod ELEM_BITS)).
Definition elem_cnt (bit_cnt : Z) : Z := wrap 32 (bit_cnt + ELEM_BITS - 1) / ELEM_BITS.
Definition byte_cnt (bit_cnt : Z) : Z := wrap 32 (4 * elem_cnt bit_cnt).
(** [sizeof (struct bitmap)] is two words. *)
Definition bitmap_buf_size (bit_cnt : Z) : Z := wrap 32 (8 + byte_cnt bit_cnt).
Definition last_mask (b : bitmap) : Z :=
  let last_bits := bit_cnt b mod ELEM_BITS in
  if nz last_bits then wrap 32 (wrap 32 (1 << last_bits) - 1) else wrap 32 (-1).

Definition bitmap_size (b : bitmap) : Z := bit_cnt b.

(** The read-modify-write of element [elem_idx bit_idx] done by the three
    single-bit operations. *)
Definition update_elem (f : Z -> Z -> Z) (b : bitmap) (bit_idx : Z) : res bitmap :=
  e ← the (geti (bits b) (elem_idx bit_idx));
  mret (mk_bitmap (bit_cnt b) (seti (bits b) (elem_idx bit_idx) (f e (bit_mask bit_idx)))).

Definition bitmap_mark : bitmap -> Z -> res bitmap := update_elem Z.lor.
Definition bitmap_reset : bitmap -> Z -> res bitmap :=
  update_elem (fun e mask => e &! wnot 32 mask).
Definition bitmap_flip : bitmap -> Z -> res bitmap := update_elem Z.lxor.

Definition bitmap_set (b : bitmap) (idx : Z) (value : bool) : res bitmap :=
  assert (idx <? bit_cnt b);;
  if value then bitmap_mark b idx else bitmap_reset b idx.

Definition bitmap_test (b : bitmap) (idx : Z) : res bool :=
  assert (idx <? bit_cnt b);;
  e ← the (geti (bits b) (elem_idx idx));
  mret (nz (e &! bit_mask idx)).

Definition assert_range (b : bitmap) (start cnt : Z) : res unit :=
  assert (start <=? bit_cnt b);; assert (wrap 32 (start + cnt) <=? bit_cnt b).

(** The loops run [n] more iterations, the next one on bit [i]. *)
Fixpoint set_loop (n : nat) (b : bitmap) (i : Z) (value : bool) : res bitmap :=
  match n with
  | O => mret b
  | S n => b' ← bitmap_set b (wrap 32 i) value; set_loop n b' (i + 1) value
  end.

Definition bitmap_set_multiple (b : bitmap) (start cnt : Z) (value : bool) : res bitmap :=
  assert_range b start cnt;; set_loop (Z.to_nat cnt) b start value.

Definition bitmap_set_all (b : bitmap) (value : bool) : res bitmap :=
  bitmap_set_multiple b 0 (bitmap_size b) value.

Fixpoint count_loop (n : nat) (b : bitmap) (i : Z) (value : bool) (value_cnt : Z) : res Z :=
  match n with
  | O => mret value_cnt
  | S n => t ← bitmap_test b (wrap 32 i);
           count_loop n b (i + 1) value
             (if Bool.eqb t value then value_cnt + 1 else value_cnt)
  end.

Definition bitmap_count (b : bitmap) (start cnt : Z) (value : bool) : res Z :=
  assert_range b start cnt;; count_loop (Z.to_nat cnt) b start value 0.

Fixpoint contains_loop (n : nat) (b : bitmap) (i : Z) (value : bool) : res bool :=
  match n with
  | O => mret false
  | S n => t ← bitmap_test b (wrap 32 i);
           if Bool.eqb t value then mret true else contains_loop n b (i + 1) value
  end.

Definition bitmap_contains (b : bitmap) (start cnt : Z) (value : bool) : res bool :=
  assert_range b start cnt;; contains_loop (Z.to_nat cnt) b start value.

Definition bitmap_any (b : bitmap) (start cnt : Z) : res bool :=
  bitmap_contains b start cnt true.
Definition bitmap_none (b : bitmap) (start cnt : Z) : res bool :=
  negb <$> bitmap_contains b start cnt true.
Definition bitmap_all (b : bitmap) (start cnt : Z) : res bool :=
  negb <$> bitmap_contains b start cnt false.

Fixpoint scan_loop (n : nat) (b : bitmap) (i cnt : Z) (value : bool) : res Z :=
  match n with
  | O => mret BITMAP_ERROR
  | S n => c ← bitmap_contains b i cnt (negb value);
           if negb c then mret i else scan_loop n b (i + 1) cnt value
  end.

Definition bitmap_scan (b : bitmap) (start cnt : Z) (value : bool) : res Z :=
  assert (start <=? bit_cnt b);;
  if cnt <=? bit_cnt b then
    let last := bit_cnt b - cnt in
    scan_loop (Z.to_nat (last + 1 - start)) b start cnt value
  else mret BITMAP_ERROR.

Definition bitmap_scan_and_flip (b : bitmap) (start cnt : Z) (value : bool)
  : res (Z * bitmap) :=
  idx ← bitmap_scan b start cnt value;
  if negb (idx =? BITMAP_ERROR) then
    b' ← bitmap_set_multiple b idx cnt (negb value); mret (idx, b')
  else mret (idx, b).

(** The elements of a bitmap created in a buffer are whatever the buffer
    held; [bitmap_set_all] clears the bits. *)
Definition bitmap_create_in_buf (bit_cnt : Z) (block : list Z) (block_size : Z)
  : res bitmap :=
  assert (bitmap_buf_size bit_cnt <=? block_size);;
  bitmap_set_all (mk_bitmap bit_cnt block) false.

(** ** Invariant and abstract view *)

Definition bit (b : bitmap) (i : Z) : bool :=
  match geti (bits b) (elem_idx i) with
  | Some e => Z.testbit e (i mod ELEM_BITS)
  | None => false
  end.

(** There is an element for every bit, and the bit count leaves room for the
    rounding in [elem_cnt]. *)
Record wf (b : bitmap) : Prop := {
  wf_cnt : 0 <= bit_cnt b <= 2 ^ 32 - 32;
  wf_len : elem_cnt (bit_cnt b) <= lenZ (bits b);
  wf_elems : Forall (inU 32) (bits b) }.

(** All bits of the [cnt]-bit group from [i] are [value]. *)
Definition group (f : Z -> bool) (i cnt : Z) (value : bool) : Prop :=
  forall j, i <= j < i + cnt -> f j = value.

(** The view [f] with the [cnt] bits from [start] set to [value]. *)
Definition set_range (f : Z -> bool) (start cnt : Z) (value : bool) (j : Z) : bool :=
  if (start <=? j) && (j <? start + cnt) then value else f j.

Definition updated (b b' : bitmap) (start cnt : Z) (value : bool) : Prop :=
  wf b' /\ bit_cnt b' = bit_cnt b /\
  forall j, bit b' j = set_range (bit b) start cnt value j.

(** The result of a scan for [cnt] bits among the first [size]: the error
    value when there is no group, the first group otherwise. *)
Definition scan_result (f : Z -> bool) (size start cnt : Z) (v : bool) (r : Z) : Prop :=
  (r = BITMAP_ERROR /\ forall k, start <= k -> k + cnt <= size -> ~ group f k cnt v)
  \/ (start <= r /\ r + cnt <= size /\ group f r cnt v
      /\ forall k, start <= k < r -> ~ group f k cnt v).

(** Number of bits among the [n] from [i] that are [v]. *)
Fixpoint count_bits (n : nat) (f : Z -> bool) (i : Z) (v : bool) : Z :=
  match n with
  | O => 0
  | S n => (if Bool.eqb (f i) v then 1 else 0) + count_bits n f (i + 1) v
  end.

(** ** Single bits *)

Lemma elem_idx_bound b i :
  wf b -> 0 <= i < bit_cnt b -> 0 <= elem_idx i < lenZ (bits b).
Proof.
  intros [Hc Hl _] Hi. unfold elem_cnt in Hl. rewrite wrap_id in Hl.
  - unfold elem_idx, ELEM_BITS in *. Z.div_mod_to_equations. lia.
  - unfold inU, ELEM_BITS. lia.
Qed.

Lemma bit_mask_bit i : bit_mask i = 1 << (i mod 32).
Proof.
  apply wrap_id, inU_bit; [lia|]. apply (Z.mod_pos_bound i 32). lia.
Qed.

Lemma wf_elem b i e : wf b -> geti (bits b) i = Some e -> inU 32 e.
Proof.
  intros [_ _ H] He. unfold geti in He. destruct (i <? 0); [discriminate|].
  rewrite Forall_lookup in H. eauto.
Qed.

Lemma bitmap_test_spec b i :
  wf b -> 0 <= i < bit_cnt b -> bitmap_test b i = Ret (bit b i).
Proof.
  intros Hwf Hi. unfold bitmap_test, bit.
  rewrite (proj2 (Z.ltb_lt _ _)) by lia. simpl.
  destruct (geti_lt_Some (bits b) (elem_idx i)) as [e He];
    [apply elem_idx_bound; assumption|].
  rewrite He. simpl. unfold mret, res_ret. f_equal. rewrite bit_mask_bit. apply land_bit_nz.
  apply (Z.mod_pos_bound i 32). lia.
Qed.

Lemma same_bit i j : elem_idx i = elem_idx j -> i mod 32 = j mod 32 -> i = j.
Proof. unfold elem_idx, ELEM_BITS. intros. Z.div_mod_to_equations. lia. Qed.

Lemma update_elem_spec f b i v :
  wf b -> 0 <= i < bit_cnt b ->
  (forall e, inU 32 e -> inU 32 (f e (bit_mask i))) ->
  (forall e k, inU 32 e -> 0 <= k < 32 ->
     Z.testbit (f e (bit_mask i)) k =
     if k =? i mod 32 then v (Z.testbit e k) else Z.testbit e k) ->
  exists b', update_elem f b i = Ret b' /\ wf b' /\ bit_cnt b' = bit_cnt b /\
    forall j, bit b' j = if j =? i then v (bit b i) else bit b j.
Proof.
  intros Hwf Hi Hrange Hbits. pose proof (elem_idx_bound b i Hwf Hi) as Hidx.
  destruct (geti_lt_Some _ _ Hidx) as [e He]. pose proof (wf_elem _ _ _ Hwf He) as Hu.
  unfold update_elem. rewrite He. simpl. eexists; split; [reflexivity|].
  split; [|split; [reflexivity|]].
  - destruct Hwf as [Hc Hl Hf]. split; simpl; [exact Hc|rewrite lenZ_seti; exact Hl|].
    unfold seti. destruct (_ <? 0); [exact Hf|]. apply Forall_insert; auto.
  - intros j. unfold bit at 1. simpl. rewrite geti_seti by exact Hidx.
    pose proof (Z.mod_pos_bound j 32 ltac:(lia)).
    destruct (Z.eqb_spec (elem_idx j) (elem_idx i)) as [E|E].
    + rewrite Hbits by (assumption || lia). unfold ELEM_BITS.
      unfold bit. rewrite E, He. unfold ELEM_BITS.
      destruct (Z.eqb_spec j i) as [->|Hne]; [rewrite Z.eqb_refl; reflexivity|].
      destruct (Z.eqb_spec (j mod 32) (i mod 32)); [|reflexivity].
      exfalso. apply Hne, same_bit; assumption.
    + destruct (Z.eqb_spec j i) as [->|]; [congruence|reflexivity].
Qed.

Lemma bit_mask_testbit i k : 0 <= k -> Z.testbit (bit_mask i) k = (k =? i mod 32).
Proof.
  intros Hk. rewrite bit_mask_bit. apply testbit_bit; [|exact Hk].
  apply Z.mod_pos_bound. lia.
Qed.

Lemma bit_mask_inU i : inU 32 (bit_mask i).
Proof. apply wrap_inU. lia. Qed.

Lemma bitmap_mark_spec b i :
  wf b -> 0 <= i < bit_cnt b ->
  exists b', bitmap_mark b i = Ret b' /\ wf b' /\ bit_cnt b' = bit_cnt b /\
    forall j, bit b' j = if j =? i then true else bit b j.
Proof.
  intros Hwf Hi. apply (update_elem_spec Z.lor b i (fun _ => true)); try assumption.
  - intros e He. apply inU_lor; [lia|exact He|apply bit_mask_inU].
  - intros e k He Hk. rewrite Z.lor_spec, bit_mask_testbit by lia.
    destruct (_ =? _); auto using orb_true_r, orb_false_r.
Qed.

Lemma bitmap_reset_spec b i :
  wf b -> 0 <= i < bit_cnt b ->
  exists b', bitmap_reset b i = Ret b' /\ wf b' /\ bit_cnt b' = bit_cnt b /\
    forall j, bit b' j = if j =? i then false else bit b j.
Proof.
  intros Hwf Hi. apply (update_elem_spec _ b i (fun _ => false)); try assumption.
  - intros e He. rewrite land_wnot_ldiff by (assumption || lia). apply inU_ldiff; [lia|exact He].
  - intros e k He Hk.
    rewrite land_wnot_ldiff, Z.ldiff_spec, bit_mask_testbit by (assumption || lia).
    destruct (_ =? _); simpl; auto using andb_true_r, andb_false_r.
Qed.

Lemma bitmap_flip_spec b i :
  wf b -> 0 <= i < bit_cnt b ->
  exists b', bitmap_flip b i = Ret b' /\ wf b' /\ bit_cnt b' = bit_cnt b /\
    forall j, bit b' j = if j =? i then negb (bit b i) else bit b j.
Proof.
  intros Hwf Hi. apply (update_elem_spec Z.lxor b i negb); try assumption.
  - intros e He. apply inU_lxor; [lia|exact He|apply bit_mask_inU].
  - intros e k He Hk. rewrite Z.lxor_spec, bit_mask_testbit by lia.
    destruct (_ =? _); auto using xorb_true_r, xorb_false_r.
Qed.

Lemma bitmap_set_spec b i v :
  wf b -> 0 <= i < bit_cnt b ->
  exists b', bitmap_set b i v = Ret b' /\ wf b' /\ bit_cnt b' = bit_cnt b /\
    forall j, bit b' j = if j =? i then v else bit b j.
Proof.
  intros Hwf Hi. unfold bitmap_set. rewrite (proj2 (Z.ltb_lt _ _)) by lia. simpl.
  destruct v; [apply bitmap_mark_spec|apply bitmap_reset_spec]; assumption.
Qed.

(** ** Ranges of bits *)

Lemma set_loop_spec n v : forall b i,
  wf b -> 0 <= i -> i + Z.of_nat n <= bit_cnt b ->
  exists b', set_loop n b i v = Ret b' /\ updated b b' i (Z.of_nat n) v.
Proof.
  induction n as [|n IH]; intros b i Hwf Hi Hn; simpl.
  - eexists; split; [reflexivity|]. split; [exact Hwf|split; [reflexivity|]].
    intros j. unfold set_range. cmp_cases; simpl; auto; lia.
  - pose proof (wf_cnt b Hwf). rewrite wrap_id by (unfold inU; lia).
    destruct (bitmap_set_spec b i v) as (b1 & -> & Hwf1 & Hc1 & Hb1); [assumption|lia|].
    simpl. destruct (IH b1 (i + 1)) as (b2 & -> & Hwf2 & Hc2 & Hb2); [assumption|lia|lia|].
    eexists; split; [reflexivity|]. split; [exact Hwf2|split; [congruence|]].
    intros j. rewrite Hb2. unfold set_range. rewrite Hb1.
    cmp_cases; simpl; auto; lia.
Qed.

Lemma assert_range_ok b start cnt :
  wf b -> 0 <= start -> 0 <= cnt -> start + cnt <= bit_cnt b ->
  assert_range b start cnt = Ret tt.
Proof.
  intros Hwf H0 H1 H2. pose proof (wf_cnt b Hwf). unfold assert_range.
  rewrite wrap_id by (unfold inU; lia).
  rewrite !(proj2 (Z.leb_le _ _)) by lia. reflexivity.
Qed.

Lemma bitmap_set_multiple_spec b start cnt v :
  wf b -> 0 <= start -> 0 <= cnt -> start + cnt <= bit_cnt b ->
  exists b', bitmap_set_multiple b start cnt v = Ret b' /\ updated b b' start cnt v.
Proof.
  intros Hwf H0 H1 H2. unfold bitmap_set_multiple.
  rewrite assert_range_ok by assumption. simpl.
  destruct (set_loop_spec (Z.to_nat cnt) v b start) as (b' & -> & Hb');
    [assumption|lia|lia|].
  rewrite Z2Nat.id in Hb' by lia. eauto.
Qed.

Lemma contains_loop_spec n v b : forall i,
  wf b -> 0 <= i -> i + Z.of_nat n <= bit_cnt b ->
  exists c, contains_loop n b i v = Ret c /\
    (c = false <-> group (bit b) i (Z.of_nat n) (negb v)).
Proof.
  induction n as [|n IH]; intros i Hwf Hi Hn; simpl.
  - exists false. split; [reflexivity|]. split; [|auto]. intros _ j Hj. lia.
  - pose proof (wf_cnt b Hwf). rewrite wrap_id by (unfold inU; lia).
    rewrite bitmap_test_spec by (assumption || lia). simpl.
    destruct (Bool.eqb (bit b i) v) eqn:E.
    + exists true. split; [reflexivity|]. split; [discriminate|].
      intros G. apply eqb_prop in E. rewrite (G i) in E by lia. destruct v; discriminate.
    + destruct (IH (i + 1)) as (c & -> & Hc); [assumption|lia|lia|].
      exists c. split; [reflexivity|]. rewrite Hc. split; intros G j Hj.
      * destruct (decide (j = i)) as [->|].
        -- apply eqb_false_iff in E. revert E. destruct (bit b i), v; simpl; congruence.
        -- apply G. lia.
      * apply G. lia.
Qed.

Lemma bitmap_contains_spec b start cnt v :
  wf b -> 0 <= start -> 0 <= cnt -> start + cnt <= bit_cnt b ->
  exists c, bitmap_contains b start cnt v = Ret c /\
    (c = false <-> group (bit b) start cnt (negb v)).
Proof.
  intros Hwf H0 H1 H2. unfold bitmap_contains.
  rewrite assert_range_ok by assumption. simpl.
  destruct (contains_loop_spec (Z.to_nat cnt) v b start) as (c & -> & Hc);
    [assumption|lia|lia|].
  rewrite Z2Nat.id in Hc by lia. eauto.
Qed.

Lemma bitmap_none_spec b start cnt :
  wf b -> 0 <= start -> 0 <= cnt -> start + cnt <= bit_cnt b ->
  exists r, bitmap_none b start cnt = Ret r /\ (r = true <-> group (bit b) start cnt false).
Proof.
  intros Hwf H0 H1 H2. unfold bitmap_none.
  destruct (bitmap_contains_spec b start cnt true) as (c & -> & Hc); [assumption..|].
  exists (negb c). split; [reflexivity|]. rewrite negb_true_iff. exact Hc.
Qed.

Lemma bitmap_all_spec b start cnt :
  wf b -> 0 <= start -> 0 <= cnt -> start + cnt <= bit_cnt b ->
  exists r, bitmap_all b start cnt = Ret r /\ (r = true <-> group (bit b) start cnt true).
Proof.
  intros Hwf H0 H1 H2. unfold bitmap_all.
  destruct (bitmap_contains_spec b start cnt false) as (c & -> & Hc); [assumption..|].
  exists (negb c). split; [reflexivity|]. rewrite negb_true_iff. exact Hc.
Qed.

Lemma count_loop_spec n v b : forall i acc,
  wf b -> 0 <= i -> i + Z.of_nat n <= bit_cnt b ->
  count_loop n b i v acc = Ret (acc + count_bits n (bit b) i v).
Proof.
  induction n as [|n IH]; intros i acc Hwf Hi Hn; simpl.
  - rewrite Z.add_0_r. reflexivity.
  - pose proof (wf_cnt b Hwf). rewrite wrap_id by (unfold inU; lia).
    rewrite bitmap_test_spec by (assumption || lia). simpl.
    rewrite IH by (assumption || lia). destruct (Bool.eqb _ _); f_equal; lia.
Qed.

Lemma bitmap_count_spec b start cnt v :
  wf b -> 0 <= start -> 0 <= cnt -> start + cnt <= bit_cnt b ->
  bitmap_count b start cnt v = Ret (count_bits (Z.to_nat cnt) (bit b) start v).
Proof.
  intros. unfold bitmap_count. rewrite assert_range_ok by assumption. simpl.
  rewrite count_loop_spec by (assumption || lia). reflexivity.
Qed.

Lemma count_bits_app n m f v : forall i,
  count_bits (n + m) f i v = count_bits n f i v + count_bits m f (i + Z.of_nat n) v.
Proof.
  induction n as [|n IH]; intros i; cbn [count_bits Nat.add].
  - rewrite Z.add_0_r. reflexivity.
  - rewrite IH. replace (i + 1 + Z.of_nat n) with (i + Z.of_nat (S n)) by lia. lia.
Qed.

Lemma count_bits_ext n f g v : forall i,
  (forall j, i <= j < i + Z.of_nat n -> f j = g j) ->
  count_bits n f i v = count_bits n g i v.
Proof.
  induction n as [|n IH]; intros i H; simpl; [reflexivity|].
  rewrite (H i) by lia. rewrite (IH (i + 1)) by (intros; apply H; lia). reflexivity.
Qed.

Lemma count_bits_const n f v u : forall i,
  group f i (Z.of_nat n) u ->
  count_bits n f i v = if Bool.eqb u v then Z.of_nat n else 0.
Proof.
  induction n as [|n IH]; intros i G.
  - destruct (Bool.eqb _ _); reflexivity.
  - cbn [count_bits]. rewrite (G i), (IH (i + 1)) by (try (intros ? ?; apply G); lia).
    destruct (Bool.eqb _ _); lia.
Qed.

Lemma count_bits_bound n f v : forall i, 0 <= count_bits n f i v <= Z.of_nat n.
Proof.
  induction n as [|n IH]; intros i; cbn [count_bits]; [lia|].
  specialize (IH (i + 1)). destruct (Bool.eqb _ _); lia.
Qed.

(** A group of [v] bits inside the first [size] bits is counted. *)
Lemma count_bits_group f v size start cnt :
  group f start cnt v -> 0 <= start -> 0 <= cnt -> start + cnt <= size ->
  cnt <= count_bits (Z.to_nat size) f 0 v.
Proof.
  intros G H0 H1 H2.
  replace (Z.to_nat size) with
    (Z.to_nat start + (Z.to_nat cnt + Z.to_nat (size - start - cnt)))%nat by lia.
  rewrite !count_bits_app, !Z.add_0_l, !Z2Nat.id by lia.
  pose proof (count_bits_bound (Z.to_nat start) f v 0).
  pose proof (count_bits_bound (Z.to_nat (size - start - cnt)) f v (start + cnt)).
  rewrite (count_bits_const (Z.to_nat cnt) f v v) by (rewrite Z2Nat.id by lia; exact G).
  rewrite Bool.eqb_reflx. lia.
Qed.

(** Setting a uniform range moves its size from one count to the other. *)
Lemma count_bits_set_range f size start cnt v u :
  group f start cnt u -> 0 <= start -> 0 <= cnt -> start + cnt <= size ->
  count_bits (Z.to_nat size) (set_range f start cnt v) 0 true =
  count_bits (Z.to_nat size) f 0 true
  + cnt * ((if v then 1 else 0) - (if u then 1 else 0)).
Proof.
  intros G H0 H1 H2. unfold set_range.
  replace (Z.to_nat size) with
    (Z.to_nat start + (Z.to_nat cnt + Z.to_nat (size - start - cnt)))%nat by lia.
  rewrite !count_bits_app, !Z.add_0_l, !Z2Nat.id by lia.
  rewrite (count_bits_ext (Z.to_nat start) _ f)
    by (intros j Hj; cmp_cases; simpl; auto; lia).
  rewrite (count_bits_ext (Z.to_nat (size - start - cnt)) _ f)
    by (intros j Hj; cmp_cases; simpl; auto; lia).
  rewrite (count_bits_const (Z.to_nat cnt) _ true v)
    by (intros j Hj; cmp_cases; simpl; auto; lia).
  rewrite (count_bits_const (Z.to_nat cnt) f true u) by (rewrite Z2Nat.id by lia; exact G).
  destruct u, v; cbn [Bool.eqb]; lia.
Qed.

(** ** Scanning *)

Lemma scan_loop_spec b cnt v : forall n i,
  wf b -> 0 <= i -> 0 <= cnt <= bit_cnt b ->
  i + Z.of_nat n = bit_cnt b - cnt + 1 \/ n = O ->
  exists r, scan_loop n b i cnt v = Ret r /\
    ((r = BITMAP_ERROR /\ forall k, i <= k < i + Z.of_nat n -> ~ group (bit b) k cnt v)
     \/ (i <= r < i + Z.of_nat n /\ group (bit b) r cnt v
         /\ forall k, i <= k < r -> ~ group (bit b) k cnt v)).
Proof.
  induction n as [|n IH]; intros i Hwf Hi Hcnt Hn; simpl.
  - eexists; split; [reflexivity|]. left. split; [reflexivity|]. lia.
  - destruct (bitmap_contains_spec b i cnt (negb v)) as (c & -> & Hc);
      [assumption|lia|lia|lia|].
    rewrite negb_involutive in Hc. simpl. destruct c; simpl.
    + assert (Hno : ~ group (bit b) i cnt v) by (intros G; apply Hc in G; discriminate).
      destruct (IH (i + 1)) as (r & -> & Hr); [assumption|lia|lia|lia|].
      exists r. split; [reflexivity|].
      assert (Hext : forall P : Z -> Prop, P i ->
        forall lo hi, (forall k, i + 1 <= k < hi -> P k) -> lo = i -> forall k, lo <= k < hi -> P k).
      { intros P Pi lo hi HP -> k Hk. destruct (decide (k = i)) as [->|]; [exact Pi|].
        apply HP. lia. }
      destruct Hr as [[-> Hnone]|(Hr & G & Hmin)]; [left|right].
      * split; [reflexivity|]. eapply (Hext (fun k => ~ group (bit b) k cnt v));
          [exact Hno| |reflexivity]. intros k Hk. apply Hnone. lia.
      * split; [lia|split; [exact G|]].
        eapply (Hext (fun k => ~ group (bit b) k cnt v)); [exact Hno|exact Hmin|reflexivity].
    + exists i. split; [reflexivity|]. right. split; [lia|split; [apply Hc; reflexivity|lia]].
Qed.

Lemma bitmap_scan_spec b start cnt v :
  wf b -> 0 <= start <= bit_cnt b -> 0 <= cnt ->
  exists r, bitmap_scan b start cnt v = Ret r /\ scan_result (bit b) (bit_cnt b) start cnt v r.
Proof.
  intros Hwf Hs Hcnt. unfold bitmap_scan. rewrite (proj2 (Z.leb_le start (bit_cnt b))) by lia. simpl.
  destruct (Z.leb_spec cnt (bit_cnt b)).
  - destruct (scan_loop_spec b cnt v (Z.to_nat (bit_cnt b - cnt + 1 - start)) start)
      as (r & -> & Hr); [assumption|lia|lia|lia|].
    exists r. split; [reflexivity|]. destruct Hr as [[-> Hn]|(Hr & G & Hmin)]; [left|right].
    + split; [reflexivity|]. intros k Hk1 Hk2. apply Hn. lia.
    + repeat split; auto; lia.
  - exists BITMAP_ERROR. split; [reflexivity|]. left. split; [reflexivity|]. lia.
Qed.

Lemma scan_and_flip_correct b start cnt value :
  wf b -> 0 <= start <= bit_cnt b -> 0 <= cnt ->
  exists idx b', bitmap_scan_and_flip b start cnt value = Ret (idx, b')
  /\ scan_result (bit b) (bit_cnt b) start cnt value idx
  /\ (idx = BITMAP_ERROR -> b' = b)
  /\ (idx <> BITMAP_ERROR -> updated b b' idx cnt (negb value)).
Proof.
  intros Hwf Hs Hcnt. unfold bitmap_scan_and_flip.
  destruct (bitmap_scan_spec b start cnt value) as (idx & -> & Hr); [assumption..|].
  simpl. destruct (Z.eqb_spec idx BITMAP_ERROR) as [->|Hne]; simpl.
  - exists BITMAP_ERROR, b. repeat split; [exact Hr|congruence..].
  - pose proof Hr as [[? _]|(Hr1 & Hr2 & _)]; [contradiction|].
    destruct (bitmap_set_multiple_spec b idx cnt (negb value)) as (b' & -> & Hb');
      [assumption|lia|lia|lia|].
    exists idx, b'. repeat split; [exact Hr|contradiction|apply Hb'..].
Qed.

(** ** The interface of a bit array

    What the page allocator needs of its three bitmaps: the operations with
    the laws its own proofs use. *)
Class BitArray (B : Type) := {
  ba_wf : B -> Prop;
  ba_size : B -> Z;
  ba_bit : B -> Z -> bool;
  ba_test : B -> Z -> res bool;
  ba_set_multiple : B -> Z -> Z -> bool -> res B;
  ba_none : B -> Z -> Z -> res bool;
  ba_all : B -> Z -> Z -> res bool;
  ba_scan_and_flip : B -> Z -> Z -> bool -> res (Z * B);
  ba_updated (b b' : B) (start cnt : Z) (v : bool) : Prop :=
    ba_wf b' /\ ba_size b' = ba_size b /\
    forall j, ba_bit b' j = set_range (ba_bit b) start cnt v j;
  ba_size_range b : ba_wf b -> 0 <= ba_size b < BITMAP_ERROR;
  ba_test_spec b i : ba_wf b -> 0 <= i < ba_size b -> ba_test b i = Ret (ba_bit b i);
  ba_set_multiple_spec b start cnt v :
    ba_wf b -> 0 <= start -> 0 <= cnt -> start + cnt <= ba_size b ->
    exists b', ba_set_multiple b start cnt v = Ret b' /\ ba_updated b b' start cnt v;
  ba_none_spec b start cnt :
    ba_wf b -> 0 <= start -> 0 <= cnt -> start + cnt <= ba_size b ->
    exists r, ba_none b start cnt = Ret r /\ (r = true <-> group (ba_bit b) start cnt false);
  ba_all_spec b start cnt :
    ba_wf b -> 0 <= start -> 0 <= cnt -> start + cnt <= ba_size b ->
    exists r, ba_all b start cnt = Ret r /\ (r = true <-> group (ba_bit b) start cnt true);
  ba_scan_and_flip_spec b start cnt v :
    ba_wf b -> 0 <= start <= ba_size b -> 0 <= cnt ->
    exists idx b', ba_scan_and_flip b start cnt v = Ret (idx, b')
    /\ scan_result (ba_bit b) (ba_size b) start cnt v idx
    /\ (idx = BITMAP_ERROR -> b' = b)
    /\ (idx <> BITMAP_ERROR -> ba_updated b b' idx cnt (negb v)) }.

#[export] Instance bitmap_bit_array : BitArray bitmap.
Proof.
  refine {| ba_wf := wf; ba_size := bitmap_size; ba_bit := bit;
    ba_test := bitmap_test; ba_set_multiple := bitmap_set_multiple;
    ba_none := bitmap_none; ba_all := bitmap_all;
    ba_scan_and_flip := bitmap_scan_and_flip |}.
  - intros b Hb. destruct (wf_cnt b Hb). unfold bitmap_size, BITMAP_ERROR. lia.
  - exact bitmap_test_spec.
  - exact bitmap_set_multiple_spec.
  - exact bitmap_none_spec.
  - exact bitmap_all_spec.
  - exact scan_and_flip_correct.
Defined.

(** ** Properties *)

(** [bitmap_scan_and_flip] returns the start of the first run of [cnt]
    bits equal to [value] at or after [start], or [BITMAP_ERROR] exactly when
    there is no such run; it flips that run and no other bit, and leaves the
    bitmap alone when it fails. *)
Theorem bitmap_scan_and_flip_spec b start cnt value :
  wf b -> 0 <= start <= bit_cnt b -> 0 <= cnt ->
  exists idx b', bitmap_scan_and_flip b start cnt value = Ret (idx, b')
  /\ scan_result (bit b) (bit_cnt b) start cnt value idx
  /\ (idx = BITMAP_ERROR -> b' = b)
  /\ (idx <> BITMAP_ERROR -> updated b b' idx cnt (negb value)).
Proof. apply scan_and_flip_correct. Qed.

Lemma bitmap_scan_and_flip_spec_witness :
  exists idx b', bitmap_scan_and_flip (mk_bitmap 40 [0xffff00f0; 0]) 5 3 false = Ret (idx, b')
  /\ scan_result (bit (mk_bitmap 40 [0xffff00f0; 0])) 40 5 3 false idx
  /\ (idx = BITMAP_ERROR -> b' = mk_bitmap 40 [0xffff00f0; 0])
  /\ (idx <> BITMAP_ERROR -> updated (mk_bitmap 40 [0xffff00f0; 0]) b' idx 3 true).
Proof.
  apply (bitmap_scan_and_flip_spec (mk_bitmap 40 [0xffff00f0; 0]) 5 3 false);
    [|simpl; lia|lia].
  split; [simpl; lia|vm_compute; congruence|].
  repeat apply Forall_cons_2; [inU_num..|apply Forall_nil_2].
Defined.

(** A request of zero bits returns [start], not 0. *)
Theorem bitmap_scan_and_flip_zero b start value :
  wf b -> 0 <= start <= bit_cnt b ->
  exists b', bitmap_scan_and_flip b start 0 value = Ret (start, b') /\ updated b b' start 0 (negb value).
Proof.
  intros Hwf Hs. unfold bitmap_scan_and_flip.
  destruct (bitmap_scan_spec b start 0 value) as (r & -> & Hr); [assumption|lia|lia|].
  simpl. assert (r = start) as ->.
  { destruct Hr as [[_ Hn]|(? & ? & _ & Hmin)].
    - exfalso. apply (Hn start); [lia..|]. intros j Hj. lia.
    - destruct (decide (r = start)); [assumption|].
      exfalso. apply (Hmin start); [lia|]. intros j Hj. lia. }
  pose proof (wf_cnt b Hwf). destruct (Z.eqb_spec start BITMAP_ERROR) as [->|]; simpl.
  - unfold BITMAP_ERROR in *. lia.
  - destruct (bitmap_set_multiple_spec b start 0 (negb value)) as (b' & -> & Hb');
      [assumption|lia|lia|lia|]. eauto.
Qed.

Lemma bitmap_scan_and_flip_zero_witness :
  exists b', bitmap_scan_and_flip (mk_bitmap 8 [0xf0]) 3 0 true = Ret (3, b')
  /\ updated (mk_bitmap 8 [0xf0]) b' 3 0 false.
Proof.
  apply (bitmap_scan_and_flip_zero (mk_bitmap 8 [0xf0]) 3 true); [|simpl; lia].
  split; [simpl; lia|vm_compute; congruence|].
  repeat apply Forall_cons_2; [inU_num..|apply Forall_nil_2].
Defined.

Lemma bitmap_create_in_buf_spec n block size :
  0 <= n <= 2 ^ 32 - 32 -> elem_cnt n <= lenZ block -> Forall (inU 32) block ->
  bitmap_buf_size n <= size ->
  exists b, bitmap_create_in_buf n block size = Ret b
  /\ wf b /\ bit_cnt b = n /\ group (bit b) 0 n false.
Proof.
  intros Hn Hl Hf Hs. unfold bitmap_create_in_buf.
  rewrite (proj2 (Z.leb_le _ _)) by exact Hs. simpl.
  unfold bitmap_set_all, bitmap_size. simpl.
  destruct (bitmap_set_multiple_spec (mk_bitmap n block) 0 n false)
    as (b & -> & Hwf & Hc & Hb); [split; assumption|simpl; lia..|].
  exists b. repeat split; try assumption; try apply Hwf.
  intros j Hj. rewrite Hb. unfold set_range. cmp_cases; simpl; auto; lia.
Qed.
