(* ===== verification/Palloc.v ===== *)
(** * The page allocator

    [mem/palloc.c]: one pool of pages described by three bitmaps (pages in
    use, pages of the translation cache, pages of the swap area) and three
    counters.  The allocator is written against the [BitArray] interface.
    The state also holds the bytes of memory, because allocation may clear
    the pages and freeing poisons them.  The pool lock is held only around
    the scan, which the model runs as one step. *)

From Stdlib Require Import ZArith Lia Bool.
From stdpp Require Import base list numbers.
From S2P Require Import Prelude Vaddr Bitmap.

Definition PAL_ASSERT : Z := 0x1.
Definition PAL_ZERO : Z := 0x2.
Definition PAL_TC : Z := 0x4.
Definition PAL_SWAP : Z := 0x8.

Definition NULL : Z := 0.

(** [memset (dst, value, size)] on a byte-addressed memory. *)
Definition memset_mem (m : Z -> Z) (dst value size : Z) : Z -> Z := fun a =>
  if (dst <=? a) && (a <? dst + size) then value else m a.

Section Palloc.
Context {B : Type} {BA : BitArray B}.

Record pool := mk_pool {
  used_map : B; tc_map : B; swap_map : B; base : Z }.

Record palloc_state := mk_palloc {
  mem_pool : pool;
  tc_page_limit : Z; swap_page_limit : Z;
  tc_page_count : Z; swap_page_count : Z; kernel_page_count : Z;
  memory : Z -> Z }.

Definition set_used (s : palloc_state) (m : B) : palloc_state :=
  mk_palloc (mk_pool m (tc_map (mem_pool s)) (swap_map (mem_pool s)) (base (mem_pool s)))
    (tc_page_limit s) (swap_page_limit s) (tc_page_count s) (swap_page_count s)
    (kernel_page_count s) (memory s).
Definition set_tc (s : palloc_state) (m : B) (c : Z) : palloc_state :=
  mk_palloc (mk_pool (used_map (mem_pool s)) m (swap_map (mem_pool s)) (base (mem_pool s)))
    (tc_page_limit s) (swap_page_limit s) c (swap_page_count s)
    (kernel_page_count s) (memory s).
Definition set_swap (s : palloc_state) (m : B) (c : Z) : palloc_state :=
  mk_palloc (mk_pool (used_map (mem_pool s)) (tc_map (mem_pool s)) m (base (mem_pool s)))
    (tc_page_limit s) (swap_page_limit s) (tc_page_count s) c
    (kernel_page_count s) (memory s).
Definition set_kernel (s : palloc_state) (c : Z) : palloc_state :=
  mk_palloc (mem_pool s) (tc_page_limit s) (swap_page_limit s) (tc_page_count s)
    (swap_page_count s) c (memory s).
Definition set_memory (s : palloc_state) (m : Z -> Z) : palloc_state :=
  mk_palloc (mem_pool s) (tc_page_limit s) (swap_page_limit s) (tc_page_count s)
    (swap_page_count s) (kernel_page_count s) m.

(** The quota test at the head of [palloc_get_multiple]; the counters are
    [int], the sum is computed as [size_t]. *)
Definition over_quota (s : palloc_state) (flags page_cnt : Z) : bool :=
  if nz (flags &! PAL_TC) then
    tc_page_limit s <? wrap 32 (tc_page_count s + page_cnt)
  else if nz (flags &! PAL_SWAP) then
    swap_page_limit s <? wrap 32 (swap_page_count s + page_cnt)
  else false.

(** The bookkeeping once the pages are found. *)
Definition account (s : palloc_state) (flags page_idx page_cnt : Z) : res palloc_state :=
  if nz (flags &! PAL_TC) then
    none ← ba_none (tc_map (mem_pool s)) page_idx page_cnt;
    assert none;;
    m ← ba_set_multiple (tc_map (mem_pool s)) page_idx page_cnt true;
    mret (set_tc s m (sgn 32 (tc_page_count s + page_cnt)))
  else if nz (flags &! PAL_SWAP) then
    none ← ba_none (swap_map (mem_pool s)) page_idx page_cnt;
    assert none;;
    m ← ba_set_multiple (swap_map (mem_pool s)) page_idx page_cnt true;
    mret (set_swap s m (sgn 32 (swap_page_count s + page_cnt)))
  else mret (set_kernel s (wrap 32 (kernel_page_count s + page_cnt))).

Definition palloc_get_multiple (s : palloc_state) (flags page_cnt : Z)
  : res (Z * palloc_state) :=
  if over_quota s flags page_cnt then mret (NULL, s)
  else if page_cnt =? 0 then mret (NULL, s)
  else
    '(page_idx, m) ← ba_scan_and_flip (used_map (mem_pool s)) 0 page_cnt false;
    let s := set_used s m in
    let pages := if negb (page_idx =? BITMAP_ERROR)
                 then wrap 32 (base (mem_pool s) + PGSIZE * page_idx) else NULL in
    if negb (pages =? NULL) then
      let s := if nz (flags &! PAL_ZERO)
               then set_memory s (memset_mem (memory s) pages 0 (PGSIZE * page_cnt)) else s in
      s ← account s flags page_idx page_cnt; mret (pages, s)
    else if nz (flags &! PAL_ASSERT) then Stop Panic
    else mret (pages, s).

Definition palloc_get_page (s : palloc_state) (flags : Z) : res (Z * palloc_state) :=
  palloc_get_multiple s flags 1.

Definition page_from_pool (s : palloc_state) (pool_id page : Z) : res bool :=
  let page_idx := wrap 32 (pg_no page - pg_no (base (mem_pool s))) in
  used ← ba_test (used_map (mem_pool s)) page_idx;
  assert used;;
  if pool_id =? PAL_TC then
    t ← ba_test (tc_map (mem_pool s)) page_idx;
    if (t : bool) then
      w ← ba_test (swap_map (mem_pool s)) page_idx; assert (negb w);; mret true
    else mret false
  else if pool_id =? PAL_SWAP then
    w ← ba_test (swap_map (mem_pool s)) page_idx;
    if (w : bool) then
      t ← ba_test (tc_map (mem_pool s)) page_idx; assert (negb t);; mret true
    else mret false
  else Stop Panic.

Definition palloc_free_multiple (s : palloc_state) (pages page_cnt : Z) : res palloc_state :=
  assert (pg_ofs pages =? 0);;
  if (pages =? NULL) || (page_cnt =? 0) then mret s
  else
    let p := mem_pool s in
    let page_idx := wrap 32 (pg_no pages - pg_no (base p)) in
    is_tc ← page_from_pool s PAL_TC pages;
    s ← (if (is_tc : bool) then
           a ← ba_all (tc_map p) page_idx page_cnt; assert a;;
           n ← ba_none (swap_map p) page_idx page_cnt; assert n;;
           let c := sgn 32 (tc_page_count s - page_cnt) in
           assert (0 <=? c);; mret (set_tc s (tc_map p) c)
         else
           is_swap ← page_from_pool s PAL_SWAP pages;
           if (is_swap : bool) then
             a ← ba_all (swap_map p) page_idx page_cnt; assert a;;
             n ← ba_none (tc_map p) page_idx page_cnt; assert n;;
             let c := sgn 32 (swap_page_count s - page_cnt) in
             assert (0 <=? c);; mret (set_swap s (swap_map p) c)
           else mret (set_kernel s (wrap 32 (kernel_page_count s - page_cnt))));
    let s := set_memory s (memset_mem (memory s) pages 0xcc (PGSIZE * page_cnt)) in
    a ← ba_all (used_map p) page_idx page_cnt; assert a;;
    u ← ba_set_multiple (used_map p) page_idx page_cnt false;
    t ← ba_set_multiple (tc_map p) page_idx page_cnt false;
    w ← ba_set_multiple (swap_map p) page_idx page_cnt false;
    mret (set_swap (set_tc (set_used s u) t (tc_page_count s)) w (swap_page_count s)).

Definition palloc_free_page (s : palloc_state) (page : Z) : res palloc_state :=
  palloc_free_multiple s page 1.

(** ** Invariant *)

Abbreviation used s := (ba_bit (used_map (mem_pool s))).
Abbreviation tc s := (ba_bit (tc_map (mem_pool s))).
Abbreviation swap s := (ba_bit (swap_map (mem_pool s))).
Abbreviation npages s := (ba_size (used_map (mem_pool s))).
Abbreviation count s f := (count_bits (Z.to_nat (npages s)) f 0 true).

(** Pages in use that are neither of the translation cache nor of swap. *)
Definition kern (s : palloc_state) (j : Z) : bool :=
  used s j && negb (tc s j) && negb (swap s j).

Record inv (s : palloc_state) : Prop := {
  inv_wf : ba_wf (used_map (mem_pool s)) /\ ba_wf (tc_map (mem_pool s))
           /\ ba_wf (swap_map (mem_pool s));
  inv_sizes : ba_size (tc_map (mem_pool s)) = npages s
              /\ ba_size (swap_map (mem_pool s)) = npages s;
  inv_base : 0 < base (mem_pool s) /\ base (mem_pool s) mod 2 ^ 12 = 0
             /\ base (mem_pool s) + PGSIZE * npages s <= 2 ^ 32;
  inv_tc : forall i, 0 <= i < npages s -> tc s i = true ->
           used s i = true /\ swap s i = false;
  inv_swap : forall i, 0 <= i < npages s -> swap s i = true -> used s i = true;
  inv_counts : tc_page_count s = count s (tc s) /\ swap_page_count s = count s (swap s)
           /\ kernel_page_count s = count s (kern s);
  inv_limits : tc_page_count s <= tc_page_limit s < 2 ^ 32
           /\ swap_page_count s <= swap_page_limit s < 2 ^ 32 }.

Lemma npages_bound s : inv s -> 0 <= npages s < 2 ^ 20.
Proof using Type.
  intros H. destruct (inv_wf s H) as [Hw _]. pose proof (ba_size_range _ Hw).
  destruct (inv_base s H) as (? & Hm & ?). change PGSIZE with 4096 in *.
  Z.div_mod_to_equations. lia.
Qed.

Lemma count_bound s f : inv s -> 0 <= count s f <= npages s.
Proof using Type.
  intros H. pose proof (npages_bound s H).
  pose proof (count_bits_bound (Z.to_nat (npages s)) f true 0). lia.
Qed.

Lemma pages_addr s idx :
  inv s -> 0 <= idx < npages s ->
  wrap 32 (base (mem_pool s) + PGSIZE * idx) = base (mem_pool s) + PGSIZE * idx
  /\ base (mem_pool s) + PGSIZE * idx <> NULL.
Proof using Type.
  intros H Hi. destruct (inv_base s H) as (? & _ & ?). change PGSIZE with 4096 in *.
  unfold NULL. rewrite wrap_id by (unfold inU; lia). lia.
Qed.

(** Free pages belong to no pool. *)
Lemma free_group s idx cnt :
  inv s -> group (used s) idx cnt false -> 0 <= idx -> idx + cnt <= npages s ->
  group (tc s) idx cnt false /\ group (swap s) idx cnt false.
Proof using Type.
  intros H G H0 H1. split; intros j Hj.
  - destruct (tc s j) eqn:E; [|reflexivity].
    destruct (inv_tc s H j ltac:(lia) E) as [Eu _]. rewrite G in Eu by lia. discriminate.
  - destruct (swap s j) eqn:E; [|reflexivity].
    pose proof (inv_swap s H j ltac:(lia) E) as Eu. rewrite G in Eu by lia. discriminate.
Qed.

(** The pages of a group move from free to one of the three owners. *)
Inductive owner := Tc | Swap | Kernel.

Definition owner_of (flags : Z) : owner :=
  if nz (flags &! PAL_TC) then Tc else if nz (flags &! PAL_SWAP) then Swap else Kernel.

Definition owned (s : palloc_state) (o : owner) (idx cnt : Z) : Prop :=
  group (used s) idx cnt true
  /\ group (tc s) idx cnt (match o with Tc => true | _ => false end)
  /\ group (swap s) idx cnt (match o with Swap => true | _ => false end).

(** [s'] is [s] with the [cnt] pages from [idx] given to owner [o]. *)
Definition owned_count (o o' : owner) (cnt : Z) : Z :=
  match o, o' with Tc, Tc | Swap, Swap | Kernel, Kernel => cnt | _, _ => 0 end.

Record given (s s' : palloc_state) (o : owner) (idx cnt : Z) : Prop := {
  given_used : forall j, used s' j = set_range (used s) idx cnt true j;
  given_tc : forall j, tc s' j =
    match o with Tc => set_range (tc s) idx cnt true j | _ => tc s j end;
  given_swap : forall j, swap s' j =
    match o with Swap => set_range (swap s) idx cnt true j | _ => swap s j end;
  given_npages : npages s' = npages s;
  given_sizes : ba_size (tc_map (mem_pool s')) = npages s
                /\ ba_size (swap_map (mem_pool s')) = npages s;
  given_wf : ba_wf (used_map (mem_pool s')) /\ ba_wf (tc_map (mem_pool s'))
             /\ ba_wf (swap_map (mem_pool s'));
  given_counts : tc_page_count s' = tc_page_count s + owned_count o Tc cnt
    /\ swap_page_count s' = swap_page_count s + owned_count o Swap cnt
    /\ kernel_page_count s' = kernel_page_count s + owned_count o Kernel cnt;
  given_limits : tc_page_limit s' = tc_page_limit s
                 /\ swap_page_limit s' = swap_page_limit s;
  given_base : base (mem_pool s') = base (mem_pool s) }.

Lemma set_range_in f i cnt v j : i <= j < i + cnt -> set_range f i cnt v j = v.
Proof using Type. intros. unfold set_range. cmp_cases; simpl; auto; lia. Qed.

Lemma set_range_out f i cnt v j : ~ (i <= j < i + cnt) -> set_range f i cnt v j = f j.
Proof using Type. intros. unfold set_range. cmp_cases; simpl; auto; lia. Qed.

Lemma set_range_true f i cnt j : f j = true -> set_range f i cnt true j = true.
Proof using Type. intros H. unfold set_range. destruct (_ && _); auto. Qed.

Lemma count_ext s f g : (forall j, f j = g j) -> count s f = count s g.
Proof using Type. intros H. apply count_bits_ext. auto. Qed.

Section Given.
Context (s s' : palloc_state) (o : owner) (idx cnt : Z).
Hypothesis (Hinv : inv s) (Hidx : 0 <= idx) (Hcnt : 0 <= cnt)
  (Hfit : idx + cnt <= npages s) (Hfree : group (used s) idx cnt false)
  (Hgiven : given s s' o idx cnt).

Lemma given_kern j :
  kern s' j = match o with Kernel => set_range (kern s) idx cnt true j | _ => kern s j end.
Proof using Hinv Hidx Hcnt Hfit Hfree Hgiven.
  destruct (free_group s idx cnt) as [Ht Hw]; [assumption..|]. unfold kern.
  rewrite (given_used _ _ _ _ _ Hgiven), (given_tc _ _ _ _ _ Hgiven),
    (given_swap _ _ _ _ _ Hgiven).
  destruct (decide (idx <= j < idx + cnt)) as [Hj|Hj].
  - destruct o; rewrite ?set_range_in by lia; rewrite ?Hfree, ?Ht, ?Hw by lia; reflexivity.
  - destruct o; rewrite ?set_range_out by lia; reflexivity.
Qed.

Lemma given_inv :
  tc_page_count s' <= tc_page_limit s -> swap_page_count s' <= swap_page_limit s -> inv s'.
Proof using Hinv Hidx Hcnt Hfit Hfree Hgiven.
  intros Htl Hwl. destruct (free_group s idx cnt) as [Ht Hw]; [assumption..|].
  pose proof given_kern as Hk. destruct Hgiven as [Gu Gt Gw Gn Gs Gf Gc Gl Gb].
  destruct (inv_counts s Hinv) as (Ct & Cw & Ck), (inv_limits s Hinv) as [Lt Lw].
  split; rewrite ?Gn.
  - exact Gf.
  - exact Gs.
  - rewrite Gb. apply (inv_base s Hinv).
  - intros i Hi. rewrite Gt, Gu, Gw. pose proof (inv_tc s Hinv i Hi) as IT.
    destruct (decide (idx <= i < idx + cnt)) as [Hr|Hr].
    + destruct o; rewrite ?set_range_in by lia; rewrite ?Ht, ?Hw by lia; auto.
    + destruct o; rewrite ?set_range_out by lia; auto.
  - intros i Hi. rewrite Gu, Gw. pose proof (inv_swap s Hinv i Hi) as IW.
    destruct (decide (idx <= i < idx + cnt)) as [Hr|Hr].
    + rewrite (set_range_in (used s)) by lia. auto.
    + destruct o; rewrite ?set_range_out by lia; auto.
  - destruct Gc as (-> & -> & ->). rewrite Ct, Cw, Ck.
    rewrite (count_ext s _ _ Gt), (count_ext s _ _ Gw), (count_ext s _ _ Hk).
    destruct o; simpl; rewrite ?Z.add_0_r; repeat split; symmetry;
      rewrite (count_bits_set_range _ _ _ _ true false); try lia; try assumption.
    intros j Hj. unfold kern. rewrite Hfree by lia. reflexivity.
  - destruct Gl as [-> ->]. lia.
Qed.
End Given.

Ltac solve_given :=
  split; [|reflexivity]; split; simpl; auto with lia; repeat split; auto; lia.

Lemma account_spec s flags idx cnt m mm :
  inv s -> 0 <= idx -> 0 <= cnt -> idx + cnt <= npages s ->
  group (used s) idx cnt false -> ba_updated (used_map (mem_pool s)) m idx cnt true ->
  over_quota s flags cnt = false ->
  exists s', account (set_memory (set_used s m) mm) flags idx cnt = Ret s'
  /\ given s s' (owner_of flags) idx cnt /\ memory s' = mm /\ inv s'.
Proof using Type.
  intros Hinv Hi Hc Hfit Hfree (Hm1 & Hm2 & Hm3) Hq.
  destruct (free_group s idx cnt) as [Ht Hw]; [assumption..|].
  pose proof (npages_bound s Hinv) as Hn.
  pose proof (inv_wf s Hinv) as (_ & Wt & Ww). pose proof (inv_sizes s Hinv) as [St Sw].
  pose proof (inv_counts s Hinv) as (Ct & Cw & Ck).
  pose proof (inv_limits s Hinv) as [Lt Lw].
  pose proof (count_bound s (tc s) Hinv) as Bt. pose proof (count_bound s (swap s) Hinv) as Bw.
  pose proof (count_bound s (kern s) Hinv) as Bk.
  assert (Main : forall s', account (set_memory (set_used s m) mm) flags idx cnt = Ret s' ->
    given s s' (owner_of flags) idx cnt /\ memory s' = mm ->
    tc_page_count s' <= tc_page_limit s -> swap_page_count s' <= swap_page_limit s ->
    exists s', account (set_memory (set_used s m) mm) flags idx cnt = Ret s'
    /\ given s s' (owner_of flags) idx cnt /\ memory s' = mm /\ inv s').
  { intros s' E [G M] L1 L2. exists s'. do 3 (split; [assumption|]).
    eapply (given_inv s s' _ idx cnt); eassumption. }
  unfold over_quota in Hq. unfold account, owner_of in *. simpl in *.
  destruct (nz (flags &! PAL_TC)) eqn:Etc; [|destruct (nz (flags &! PAL_SWAP)) eqn:Esw].
  - destruct (ba_none_spec (tc_map (mem_pool s)) idx cnt) as (r & Er & Hr); [auto; lia..|].
    rewrite Er in *. simpl in *. rewrite (proj2 Hr Ht) in *. simpl in *.
    destruct (ba_set_multiple_spec (tc_map (mem_pool s)) idx cnt true)
      as (b & Eb & Hb1 & Hb2 & Hb3); [auto; lia..|].
    rewrite Eb in *. simpl in *. rewrite wrap_id in Hq by (unfold inU; lia).
    rewrite Z.ltb_ge in Hq. rewrite sgn_id in * by lia.
    eapply Main; [reflexivity| |simpl; lia..]. solve_given.
  - destruct (ba_none_spec (swap_map (mem_pool s)) idx cnt) as (r & Er & Hr); [auto; lia..|].
    rewrite Er in *. simpl in *. rewrite (proj2 Hr Hw) in *. simpl in *.
    destruct (ba_set_multiple_spec (swap_map (mem_pool s)) idx cnt true)
      as (b & Eb & Hb1 & Hb2 & Hb3); [auto; lia..|].
    rewrite Eb in *. simpl in *. rewrite wrap_id in Hq by (unfold inU; lia).
    rewrite Z.ltb_ge in Hq. rewrite sgn_id in * by lia.
    eapply Main; [reflexivity| |simpl; lia..]. solve_given.
  - eapply Main; [reflexivity| |simpl; lia..].
    rewrite wrap_id by (unfold inU; lia). solve_given.
Qed.

Lemma set_used_id s : set_used s (used_map (mem_pool s)) = s.
Proof using Type. destruct s as [[] ? ? ? ? ? ?]. reflexivity. Qed.

(** What a successful or failing [palloc_get_multiple] does. *)
Definition get_post (s : palloc_state) (flags cnt r : Z) (s' : palloc_state) : Prop :=
  (r = NULL /\ s' = s)
  \/ exists idx,
     r = base (mem_pool s) + PGSIZE * idx /\ r <> NULL
     /\ 0 <= idx /\ idx + cnt <= npages s
     /\ group (used s) idx cnt false
     /\ given s s' (owner_of flags) idx cnt
     /\ memory s' = (if nz (flags &! PAL_ZERO)
                     then memset_mem (memory s) r 0 (PGSIZE * cnt) else memory s).

Definition no_room (s : palloc_state) (cnt : Z) : Prop :=
  forall k, 0 <= k -> k + cnt <= npages s -> ~ group (used s) k cnt false.

Lemma get_multiple_correct s flags cnt :
  inv s -> 0 <= cnt ->
  match palloc_get_multiple s flags cnt with
  | Ret (r, s') => inv s' /\ get_post s flags cnt r s'
       /\ (r = NULL -> over_quota s flags cnt = true \/ cnt = 0 \/ no_room s cnt)
  | Stop e => e = Panic /\ nz (flags &! PAL_ASSERT) = true /\ no_room s cnt
  end.
Proof using Type.
  intros Hinv Hc. unfold palloc_get_multiple.
  destruct (over_quota s flags cnt) eqn:Hq; [simpl; unfold get_post; auto|].
  destruct (Z.eqb_spec cnt 0) as [->|Hc0]; [simpl; unfold get_post; auto 6|].
  pose proof (npages_bound s Hinv) as Hn. destruct (inv_wf s Hinv) as [Hwf _].
  destruct (ba_scan_and_flip_spec (used_map (mem_pool s)) 0 cnt false)
    as (idx & m & -> & Hr & He & Hne); [auto; lia..|]. simpl.
  destruct (Z.eqb_spec idx BITMAP_ERROR) as [->|Hok]; simpl.
  - rewrite (He eq_refl), set_used_id.
    destruct Hr as [[_ Hnone]|(? & Hr & _)]; [|unfold BITMAP_ERROR in *; lia].
    destruct (nz (flags &! PAL_ASSERT)); simpl; [auto|].
    split; [exact Hinv|]. split; [left; auto|]. right; right. exact Hnone.
  - destruct Hr as [[? _]|(H0 & Hfit & G & _)]; [contradiction|].
    destruct (pages_addr s idx Hinv ltac:(lia)) as [-> Hnull].
    rewrite (proj2 (Z.eqb_neq _ _) Hnull). simpl.
    destruct (account_spec s flags idx cnt m
      (if nz (flags &! PAL_ZERO)
       then memset_mem (memory s) (base (mem_pool s) + PGSIZE * idx) 0 (PGSIZE * cnt)
       else memory s)) as (s' & E & Gv & Hm & Hi); auto.
    replace (if nz (flags &! PAL_ZERO) then _ else _) with
      (set_memory (set_used s m) (if nz (flags &! PAL_ZERO)
       then memset_mem (memory s) (base (mem_pool s) + PGSIZE * idx) 0 (PGSIZE * cnt)
       else memory s)) by (destruct (nz (flags &! PAL_ZERO)); reflexivity).
    rewrite E. simpl. split; [exact Hi|]. split; [|contradiction].
    right. exists idx. repeat (split; [assumption || reflexivity|]). exact Hm.
Qed.

(** ** Freeing *)

Record taken (s s' : palloc_state) (o : owner) (idx cnt : Z) : Prop := {
  taken_used : forall j, used s' j = set_range (used s) idx cnt false j;
  taken_tc : forall j, tc s' j = set_range (tc s) idx cnt false j;
  taken_swap : forall j, swap s' j = set_range (swap s) idx cnt false j;
  taken_npages : npages s' = npages s;
  taken_sizes : ba_size (tc_map (mem_pool s')) = npages s
                /\ ba_size (swap_map (mem_pool s')) = npages s;
  taken_wf : ba_wf (used_map (mem_pool s')) /\ ba_wf (tc_map (mem_pool s'))
             /\ ba_wf (swap_map (mem_pool s'));
  taken_counts : tc_page_count s' = tc_page_count s - owned_count o Tc cnt
    /\ swap_page_count s' = swap_page_count s - owned_count o Swap cnt
    /\ kernel_page_count s' = kernel_page_count s - owned_count o Kernel cnt;
  taken_limits : tc_page_limit s' = tc_page_limit s
                 /\ swap_page_limit s' = swap_page_limit s;
  taken_base : base (mem_pool s') = base (mem_pool s) }.

Section Taken.
Context (s : palloc_state) (o : owner) (idx cnt : Z).
Hypothesis (Hinv : inv s) (Hidx : 0 <= idx) (Hcnt : 0 <= cnt)
  (Hfit : idx + cnt <= npages s) (Hown : owned s o idx cnt).

Lemma owned_kern :
  group (kern s) idx cnt (match o with Kernel => true | _ => false end).
Proof using Hown.
  destruct Hown as (Hu & Ht & Hw). intros j Hj. unfold kern.
  rewrite Hu, Ht, Hw by lia. destruct o; reflexivity.
Qed.

(** The owner's counter covers the group. *)
Lemma owned_counts :
  owned_count o Tc cnt <= tc_page_count s
  /\ owned_count o Swap cnt <= swap_page_count s
  /\ owned_count o Kernel cnt <= kernel_page_count s.
Proof using Hinv Hidx Hcnt Hfit Hown.
  destruct (inv_counts s Hinv) as (-> & -> & ->). pose proof owned_kern as Hk.
  destruct Hown as (Hu & Ht & Hw).
  pose proof (count_bound s (tc s) Hinv). pose proof (count_bound s (swap s) Hinv).
  pose proof (count_bound s (kern s) Hinv).
  destruct o; simpl in *; repeat split; try lia; eapply count_bits_group; eassumption.
Qed.

Lemma taken_inv s' : taken s s' o idx cnt -> inv s'.
Proof using Hinv Hidx Hcnt Hfit Hown.
  intros [Gu Gt Gw Gn Gs Gf Gc Gl Gb].
  pose proof owned_counts as Hoc. pose proof owned_kern as Hk.
  destruct Hown as (Hu & Ht & Hw).
  destruct (inv_counts s Hinv) as (Ct & Cw & Ck), (inv_limits s Hinv) as [Lt Lw].
  assert (Gk : forall j, kern s' j = set_range (kern s) idx cnt false j).
  { intros j. unfold kern. rewrite Gu, Gt, Gw.
    destruct (decide (idx <= j < idx + cnt)); rewrite ?set_range_in, ?set_range_out by lia;
      reflexivity. }
  split; rewrite ?Gn.
  - exact Gf.
  - exact Gs.
  - rewrite Gb. apply (inv_base s Hinv).
  - intros i Hi. rewrite Gt, Gu, Gw. pose proof (inv_tc s Hinv i Hi).
    destruct (decide (idx <= i < idx + cnt));
      rewrite ?set_range_in, ?set_range_out by lia; auto.
  - intros i Hi. rewrite Gu, Gw. pose proof (inv_swap s Hinv i Hi).
    destruct (decide (idx <= i < idx + cnt));
      rewrite ?set_range_in, ?set_range_out by lia; auto.
  - destruct Gc as (-> & -> & ->). rewrite Ct, Cw, Ck.
    rewrite (count_ext s _ _ Gt), (count_ext s _ _ Gw), (count_ext s _ _ Gk).
    rewrite (count_bits_set_range (tc s) _ _ _ false _ Ht) by lia.
    rewrite (count_bits_set_range (swap s) _ _ _ false _ Hw) by lia.
    rewrite (count_bits_set_range (kern s) _ _ _ false _ Hk) by lia.
    destruct o; simpl; lia.
  - destruct Gl as [-> ->], Gc as (-> & -> & _).
    destruct o; simpl in *; lia.
Qed.

Lemma page_idx_of pages :
  pages = base (mem_pool s) + PGSIZE * idx -> 0 < cnt ->
  wrap 32 (pg_no pages - pg_no (base (mem_pool s))) = idx
  /\ pg_ofs pages = 0 /\ pages <> NULL.
Proof using Hinv Hidx Hfit.
  intros -> Hpos. destruct (inv_base s Hinv) as (Hb & Hm & Hl).
  rewrite !pg_no_div, pg_ofs_mod. change PGSIZE with (2 ^ 12) in *. unfold NULL.
  rewrite Z.mul_comm, Z.div_add, Z.mod_add by lia.
  replace (_ + idx - _) with idx by lia. rewrite wrap_id by (unfold inU; lia). lia.
Qed.

Lemma page_from_pool_spec pages pid :
  pages = base (mem_pool s) + PGSIZE * idx -> 0 < cnt ->
  pid = PAL_TC \/ pid = PAL_SWAP ->
  page_from_pool s pid pages =
    Ret (match o with Tc => pid =? PAL_TC | Swap => pid =? PAL_SWAP | Kernel => false end).
Proof using Hinv Hidx Hcnt Hfit Hown.
  intros Hp Hpos Hpid. unfold page_from_pool.
  destruct (page_idx_of pages) as (-> & _ & _); [assumption..|].
  destruct Hown as (Hu & Ht & Hw). destruct (inv_wf s Hinv) as (W1 & W2 & W3).
  destruct (inv_sizes s Hinv) as [S1 S2].
  rewrite !ba_test_spec by (assumption || lia).
  rewrite Hu, Ht, Hw by lia.
  destruct Hpid as [-> | ->]; destruct o; reflexivity.
Qed.
End Taken.

Ltac finish_free Inv' :=
  eexists; split; [reflexivity|];
  match goal with |- ?T /\ _ =>
    let G := fresh in assert T as G
      by (split; simpl; auto with lia; repeat split; auto; lia);
    split; [exact G|split; [apply Inv'; exact G|reflexivity]]
  end.

Lemma free_multiple_correct s o idx cnt :
  inv s -> 0 <= idx -> 0 < cnt -> idx + cnt <= npages s -> owned s o idx cnt ->
  let pages := base (mem_pool s) + PGSIZE * idx in
  exists s', palloc_free_multiple s pages cnt = Ret s'
  /\ taken s s' o idx cnt /\ inv s'
  /\ memory s' = memset_mem (memory s) pages 0xcc (PGSIZE * cnt).
Proof using Type.
  intros Hinv Hidx Hc Hfit Hown pages.
  destruct (page_idx_of s idx cnt Hinv Hidx Hfit pages eq_refl Hc) as (Ei & Eo & En).
  pose proof (owned_counts s o idx cnt Hinv Hidx ltac:(lia) Hfit Hown) as Hoc.
  pose proof (npages_bound s Hinv) as Hn.
  destruct (inv_counts s Hinv) as (Ct & Cw & Ck).
  pose proof (count_bound s (tc s) Hinv). pose proof (count_bound s (swap s) Hinv).
  pose proof (count_bound s (kern s) Hinv).
  assert (Inv' : forall s', taken s s' o idx cnt -> inv s')
    by (intros s'; apply taken_inv; auto; lia).
  unfold palloc_free_multiple. rewrite Eo, Ei, (proj2 (Z.eqb_neq _ _) En).
  rewrite (proj2 (Z.eqb_neq cnt 0)) by lia. simpl.
  rewrite !(page_from_pool_spec s o idx cnt Hinv Hidx ltac:(lia) Hfit Hown pages)
    by auto.
  destruct Hown as (Hu & Ht & Hw). destruct (inv_wf s Hinv) as (W1 & W2 & W3).
  destruct (inv_sizes s Hinv) as [S1 S2].
  destruct (ba_all_spec (used_map (mem_pool s)) idx cnt) as (ru & Eu & Hru); [auto; lia..|].
  destruct (ba_set_multiple_spec (used_map (mem_pool s)) idx cnt false)
    as (mu & Emu & Hmu1 & Hmu2 & Hmu3); [auto; lia..|].
  destruct (ba_set_multiple_spec (tc_map (mem_pool s)) idx cnt false)
    as (mt & Emt & Hmt1 & Hmt2 & Hmt3); [auto; lia..|].
  destruct (ba_set_multiple_spec (swap_map (mem_pool s)) idx cnt false)
    as (mw & Emw & Hmw1 & Hmw2 & Hmw3); [auto; lia..|].
  destruct (ba_all_spec (tc_map (mem_pool s)) idx cnt) as (rt & Et & Hrt); [auto; lia..|].
  destruct (ba_none_spec (tc_map (mem_pool s)) idx cnt) as (nt & Ent & Hnt); [auto; lia..|].
  destruct (ba_all_spec (swap_map (mem_pool s)) idx cnt) as (rw & Ew & Hrw); [auto; lia..|].
  destruct (ba_none_spec (swap_map (mem_pool s)) idx cnt) as (nw & Enw & Hnw); [auto; lia..|].
  rewrite Eu, Emu, Emt, Emw, Et, Ent, Ew, Enw.
  assert (ru = true) as -> by (apply Hru; exact Hu).
  destruct o; simpl in *.
  - rewrite (proj2 Hrt Ht), (proj2 Hnw Hw). simpl. rewrite sgn_id by lia.
    rewrite (proj2 (Z.leb_le _ _)) by lia. simpl. finish_free Inv'.
  - rewrite (proj2 Hrw Hw), (proj2 Hnt Ht). simpl. rewrite sgn_id by lia.
    rewrite (proj2 (Z.leb_le _ _)) by lia. simpl. finish_free Inv'.
  - rewrite wrap_id by (unfold inU; lia). finish_free Inv'.
Qed.
End Palloc.

Arguments palloc_state : clear implicits.
Arguments pool : clear implicits.

(** ** Initialisation

    [word] reads the word a bitmap element occupies before the bitmaps are
    laid out; [end_of_kernel] is the linker symbol [_end]. *)

Definition NUM_BITMAPS : Z := 3.

Definition block_at (word : Z -> Z) (ptr bit_cnt : Z) : list Z :=
  (fun i => wrap 32 (word (ptr + 8 + 4 * i))) <$> seqZ 0 (elem_cnt bit_cnt).

Definition init_pool (word : Z -> Z) (ptr page_cnt : Z) : res (pool bitmap) :=
  let bm_size := bitmap_buf_size page_cnt in
  let bm_pages := wrap 32 (wrap 32 (NUM_BITMAPS * bm_size) + PGSIZE - 1) / PGSIZE in
  if page_cnt <? bm_pages then Stop Panic
  else
    let page_cnt := page_cnt - bm_pages in
    u ← bitmap_create_in_buf page_cnt (block_at word ptr page_cnt) bm_size;
    t ← bitmap_create_in_buf page_cnt (block_at word (ptr + bm_size) page_cnt) bm_size;
    w ← bitmap_create_in_buf page_cnt (block_at word (ptr + 2 * bm_size) page_cnt) bm_size;
    mret (mk_pool u t w (wrap 32 (ptr + bm_pages * PGSIZE))).

Definition palloc_init (word : Z -> Z) (m : Z -> Z) (end_of_kernel free_end : Z)
  : res (palloc_state bitmap) :=
  let free_start := pg_round_up end_of_kernel in
  let free_pages := (free_end - free_start) / PGSIZE in
  p ← init_pool word free_start free_pages;
  mret (mk_palloc p 10000 1000 0 0 0 m).

Definition is_heap_addr (end_of_kernel addr : Z) : bool :=
  (pg_round_up end_of_kernel <=? addr) && (addr <? 0xfffff000).

Lemma elem_cnt_mono n m : 0 <= n <= m -> m <= 2 ^ 32 - 32 -> 0 <= elem_cnt n <= elem_cnt m.
Proof.
  intros. unfold elem_cnt, ELEM_BITS. rewrite !wrap_id by (unfold inU; lia).
  Z.div_mod_to_equations. lia.
Qed.

Lemma buf_size_eq n :
  0 <= n <= 2 ^ 20 -> bitmap_buf_size n = 8 + 4 * ((n + 31) / 32)
  /\ elem_cnt n = (n + 31) / 32.
Proof.
  intros Hn. unfold bitmap_buf_size, byte_cnt, elem_cnt, ELEM_BITS.
  rewrite (wrap_id 32 (n + 32 - 1)) by (unfold inU; lia).
  replace (n + 32 - 1) with (n + 31) by lia.
  rewrite (wrap_id 32 (4 * _)) by (unfold inU; Z.div_mod_to_equations; lia).
  rewrite wrap_id by (unfold inU; Z.div_mod_to_equations; lia). auto.
Qed.

Lemma block_at_ok word ptr n :
  0 <= n <= 2 ^ 20 -> lenZ (block_at word ptr n) = elem_cnt n
  /\ Forall (inU 32) (block_at word ptr n).
Proof.
  intros Hn. destruct (buf_size_eq n Hn) as [_ E]. unfold block_at, lenZ. split.
  - rewrite length_fmap, length_seqZ, Z2Nat.id; [reflexivity|].
    rewrite E. Z.div_mod_to_equations. lia.
  - apply Forall_fmap, Forall_true. intros i. apply wrap_inU. lia.
Qed.

Lemma create_all_free word ptr n m :
  0 <= n <= m -> m <= 2 ^ 20 ->
  exists b, bitmap_create_in_buf n (block_at word ptr n) (bitmap_buf_size m) = Ret b
  /\ wf b /\ bit_cnt b = n /\ group (bit b) 0 n false.
Proof.
  intros Hn Hm. destruct (block_at_ok word ptr n ltac:(lia)) as [Hl Hf].
  apply bitmap_create_in_buf_spec; [lia|rewrite Hl; lia|exact Hf|].
  rewrite (proj1 (buf_size_eq n ltac:(lia))), (proj1 (buf_size_eq m ltac:(lia))).
  Z.div_mod_to_equations. lia.
Qed.

Lemma init_pool_spec word ptr n :
  0 < ptr -> ptr mod 2 ^ 12 = 0 -> 0 <= n -> ptr + PGSIZE * n < 2 ^ 32 ->
  match init_pool word ptr n with
  | Ret p => wf (used_map p) /\ wf (tc_map p) /\ wf (swap_map p)
      /\ bit_cnt (tc_map p) = bit_cnt (used_map p)
      /\ bit_cnt (swap_map p) = bit_cnt (used_map p)
      /\ (let k := bit_cnt (used_map p) in
          group (bit (used_map p)) 0 k false /\ group (bit (tc_map p)) 0 k false
          /\ group (bit (swap_map p)) 0 k false
          /\ base p + PGSIZE * k = ptr + PGSIZE * n /\ base p mod 2 ^ 12 = 0
          /\ ptr + NUM_BITMAPS * bitmap_buf_size n <= base p)
  | Stop e => e = Panic
  end.
Proof.
  intros Hp Hm Hn Hend. unfold init_pool. change PGSIZE with 4096 in *.
  assert (Hn20 : n <= 2 ^ 20) by lia. unfold NUM_BITMAPS.
  pose proof (proj1 (buf_size_eq n ltac:(lia))) as Eb.
  assert (Hb : 8 <= bitmap_buf_size n < 2 ^ 18) by (Z.div_mod_to_equations; lia).
  rewrite (wrap_id 32 (3 * _)) by (unfold inU; lia).
  rewrite (wrap_id 32 (3 * _ + 4096 - 1)) by (unfold inU; lia).
  set (bm := (3 * bitmap_buf_size n + 4096 - 1) / 4096).
  assert (Hbm : 0 <= bm /\ 3 * bitmap_buf_size n <= 4096 * bm)
    by (unfold bm; Z.div_mod_to_equations; lia).
  destruct (Z.ltb_spec n bm) as [|Hle]; [reflexivity|].
  destruct (create_all_free word ptr (n - bm) n) as (u & -> & Hu1 & Hu2 & Hu3); [lia..|].
  destruct (create_all_free word (ptr + bitmap_buf_size n) (n - bm) n)
    as (t & -> & Ht1 & Ht2 & Ht3); [lia..|].
  destruct (create_all_free word (ptr + 2 * bitmap_buf_size n) (n - bm) n)
    as (w & -> & Hw1 & Hw2 & Hw3); [lia..|].
  simpl. rewrite wrap_id by (unfold inU; lia). rewrite Hu2, Ht2, Hw2.
  do 5 (split; [assumption || reflexivity|]). repeat split; try assumption; try lia.
  rewrite Z.mod_add by lia. exact Hm.
Qed.

Lemma count_none f n : group f 0 n false -> 0 <= n -> count_bits (Z.to_nat n) f 0 true = 0.
Proof.
  intros G Hn. rewrite (count_bits_const _ f true false); [reflexivity|].
  rewrite Z2Nat.id by lia. exact G.
Qed.

Lemma palloc_init_correct word m end_of_kernel free_end :
  0 < end_of_kernel <= 2 ^ 32 - 2 ^ 12 -> pg_round_up end_of_kernel <= free_end < 2 ^ 32 ->
  let start := pg_round_up end_of_kernel in
  match palloc_init word m end_of_kernel free_end with
  | Ret s => inv s
      /\ group (bit (used_map (mem_pool s))) 0 (bit_cnt (used_map (mem_pool s))) false
      /\ base (mem_pool s) + PGSIZE * bit_cnt (used_map (mem_pool s)) <= free_end
      /\ start + NUM_BITMAPS * bitmap_buf_size ((free_end - start) / PGSIZE)
         <= base (mem_pool s)
  | Stop e => e = Panic
  end.
Proof.
  intros He Hf start. unfold palloc_init. fold start.
  assert (Hs : 0 < start /\ start mod 2 ^ 12 = 0).
  { unfold start. rewrite pg_round_up_div, wrap_id by (unfold inU; lia).
    rewrite Z.mul_comm, Z.mod_mul by lia. Z.div_mod_to_equations. lia. }
  assert (Hn : 0 <= (free_end - start) / PGSIZE
             /\ PGSIZE * ((free_end - start) / PGSIZE) <= free_end - start)
    by (change PGSIZE with 4096; fold start in Hf; Z.div_mod_to_equations; lia).
  pose proof (init_pool_spec word start ((free_end - start) / PGSIZE)) as P.
  destruct (init_pool _ _ _) as [p|e]; simpl; [|apply P; lia].
  destruct P as (W1 & W2 & W3 & S2 & S3 & G1 & G2 & G3 & B1 & B2 & B3); [lia..|].
  pose proof (wf_cnt _ W1) as Hk. split; [|split; [exact G1|split; [lia|exact B3]]].
  split; simpl; unfold bitmap_size; auto.
  - unfold NUM_BITMAPS in *. unfold bitmap_buf_size in B3.
    pose proof (wrap_inU 32 ltac:(lia) (8 + byte_cnt ((free_end - start) / PGSIZE))).
    unfold inU in *. repeat split; [lia|exact B2|lia].
  - intros i Hi. rewrite G2 by lia. discriminate.
  - intros i Hi. rewrite G3 by lia. discriminate.
  - rewrite (count_none _ _ G2), (count_none _ _ G3) by lia. repeat split.
    symmetry. apply count_none; [|lia]. intros j Hj. unfold kern. simpl.
    rewrite G1 by lia. reflexivity.
  - lia.
Qed.

(** [palloc_init] on the memory after the kernel either panics because
    the bitmaps do not fit, or leaves a pool that satisfies the allocator's
    invariant, with every page free, the pages inside the memory given and
    the three bitmaps before the first page handed out. *)
Theorem palloc_init_inv word m end_of_kernel free_end :
  0 < end_of_kernel <= 2 ^ 32 - 2 ^ 12 -> pg_round_up end_of_kernel <= free_end < 2 ^ 32 ->
  let start := pg_round_up end_of_kernel in
  match palloc_init word m end_of_kernel free_end with
  | Ret s => inv s
      /\ group (bit (used_map (mem_pool s))) 0 (bit_cnt (used_map (mem_pool s))) false
      /\ base (mem_pool s) + PGSIZE * bit_cnt (used_map (mem_pool s)) <= free_end
      /\ start + NUM_BITMAPS * bitmap_buf_size ((free_end - start) / PGSIZE)
         <= base (mem_pool s)
  | Stop e => e = Panic
  end.
Proof. apply palloc_init_correct. Qed.

Lemma palloc_init_inv_witness :
  0 < 0xffc12345 <= 2 ^ 32 - 2 ^ 12
  /\ match palloc_init (fun _ => 0) (fun _ => 0) 0xffc12345 0xffc20000 with
     | Ret s => inv s /\ base (mem_pool s) = 0xffc14000
     | Stop _ => False
     end.
Proof.
  split; [lia|].
  pose proof (palloc_init_inv (fun _ => 0) (fun _ => 0) 0xffc12345 0xffc20000) as P.
  destruct (palloc_init _ _ 0xffc12345 0xffc20000) as [s|e] eqn:E.
  - split; [apply P; [lia|vm_compute; intuition congruence]|].
    vm_compute in E. injection E as <-. reflexivity.
  - vm_compute in E. discriminate.
Defined.

(** A small pool for evaluating the allocator. *)
Definition small_pool : palloc_state bitmap :=
  match palloc_init (fun _ => 0) (fun _ => 7) 0xffc12345 0xffc20000 with
  | Ret s => s
  | Stop _ => mk_palloc (mk_pool (mk_bitmap 0 []) (mk_bitmap 0 []) (mk_bitmap 0 []) 0)
                0 0 0 0 0 (fun _ => 0)
  end.

Lemma small_pool_inv : inv small_pool.
Proof.
  pose proof (palloc_init_correct (fun _ => 0) (fun _ => 7) 0xffc12345 0xffc20000) as P.
  unfold small_pool. destruct (palloc_init _ _ _ _) as [s|e] eqn:E.
  - apply P; [lia|vm_compute; intuition congruence].
  - vm_compute in E. discriminate.
Qed.

(** C1: in a pool that satisfies the invariant, [palloc_get_multiple] returns
    either [NULL] with the state unchanged, only because the quota is
    exhausted, no page was asked for or no run of [page_cnt] free pages
    exists; or the address of such a run, which becomes used and owned as the
    flags say, is cleared when [PAL_ZERO] is set, and is accounted for.  The
    invariant is preserved, and the machine halts only with [PAL_ASSERT] and
    no room: none of the allocator's own assertions can fail. *)
Theorem palloc_get_multiple_spec (s : palloc_state bitmap) flags page_cnt :
  inv s -> 0 <= page_cnt ->
  match palloc_get_multiple s flags page_cnt with
  | Ret (r, s') => inv s' /\ get_post s flags page_cnt r s'
      /\ (r = NULL -> over_quota s flags page_cnt = true \/ page_cnt = 0 \/ no_room s page_cnt)
  | Stop e => e = Panic /\ nz (flags &! PAL_ASSERT) = true /\ no_room s page_cnt
  end.
Proof. apply get_multiple_correct. Qed.

Lemma palloc_get_multiple_spec_witness :
  match palloc_get_multiple small_pool (PAL_TC |! PAL_ZERO) 3 with
  | Ret (r, s') => r = 0xffc14000 /\ inv s' /\ tc_page_count s' = 3
  | Stop _ => False
  end.
Proof.
  assert (E : (fun '(r, s') => (r, tc_page_count s')) <$>
              palloc_get_multiple small_pool (PAL_TC |! PAL_ZERO) 3 = Ret (0xffc14000, 3))
    by (vm_compute; reflexivity).
  pose proof (palloc_get_multiple_spec small_pool (PAL_TC |! PAL_ZERO) 3
                small_pool_inv ltac:(lia)) as P.
  destruct (palloc_get_multiple small_pool (PAL_TC |! PAL_ZERO) 3) as [[r s']|e];
    [|discriminate].
  injection E as -> ->. split; [reflexivity|]. split; [apply P|reflexivity].
Defined.

Lemma given_owned {B} `{BA : BitArray B} (s s' : palloc_state B) o idx cnt :
  inv s -> 0 <= idx -> idx + cnt <= ba_size (used_map (mem_pool s)) ->
  group (ba_bit (used_map (mem_pool s))) idx cnt false ->
  given s s' o idx cnt -> owned s' o idx cnt.
Proof.
  intros Hi H0 Hfit G Gv. destruct (free_group s idx cnt) as [Ht Hw]; [assumption..|].
  repeat split; intros j Hj.
  - rewrite (given_used _ _ _ _ _ Gv), set_range_in by lia. reflexivity.
  - rewrite (given_tc _ _ _ _ _ Gv). destruct o; rewrite ?set_range_in by lia; auto.
  - rewrite (given_swap _ _ _ _ _ Gv). destruct o; rewrite ?set_range_in by lia; auto.
Qed.

Lemma set_range_undo f g h idx cnt :
  group f idx cnt false -> (forall j, g j = set_range f idx cnt true j \/ g j = f j) ->
  (forall j, h j = set_range g idx cnt false j) ->
  (forall j, ~ (idx <= j < idx + cnt) -> g j = f j) -> forall j, h j = f j.
Proof.
  intros Hf Hg Hh Hout j. rewrite Hh.
  destruct (decide (idx <= j < idx + cnt)).
  - rewrite set_range_in, Hf by lia. reflexivity.
  - rewrite set_range_out by lia. auto.
Qed.

(** C23: freeing what was just allocated restores the pool: the same pages are
    free, translation-cache and swap pages as before, the counters are back,
    the invariant holds, and no assertion of [palloc_free_multiple] fails. *)
Theorem palloc_free_get (s s' : palloc_state bitmap) flags page_cnt pages :
  inv s -> 0 <= page_cnt ->
  palloc_get_multiple s flags page_cnt = Ret (pages, s') -> pages <> NULL ->
  exists s'', palloc_free_multiple s' pages page_cnt = Ret s''
  /\ inv s''
  /\ (forall j, bit (used_map (mem_pool s'')) j = bit (used_map (mem_pool s)) j)
  /\ (forall j, bit (tc_map (mem_pool s'')) j = bit (tc_map (mem_pool s)) j)
  /\ (forall j, bit (swap_map (mem_pool s'')) j = bit (swap_map (mem_pool s)) j)
  /\ tc_page_count s'' = tc_page_count s /\ swap_page_count s'' = swap_page_count s
  /\ kernel_page_count s'' = kernel_page_count s.
Proof.
  intros Hinv Hc E Hnull. pose proof (get_multiple_correct s flags page_cnt Hinv Hc) as P.
  rewrite E in P. destruct P as (Hinv' & Hpost & _).
  destruct Hpost as [[? _]|(idx & Hr & _ & H0 & Hfit & G & Gv & _)]; [contradiction|].
  destruct (free_group s idx page_cnt) as [Ht Hw]; [assumption..|].
  assert (Hpos : 0 < page_cnt).
  { destruct (Z.eq_dec page_cnt 0) as [->|]; [|lia]. unfold palloc_get_multiple in E.
    unfold mret, res_ret in E. destruct (over_quota _ _ _); simpl in E; congruence. }
  destruct (free_multiple_correct s' (owner_of flags) idx page_cnt) as (s'' & Ef & T & Hi & _).
  - exact Hinv'.
  - exact H0.
  - exact Hpos.
  - rewrite (given_npages _ _ _ _ _ Gv). exact Hfit.
  - apply (given_owned s s'); assumption.
  - rewrite (given_base _ _ _ _ _ Gv), <- Hr in Ef. exists s''.
    split; [exact Ef|split; [exact Hi|]].
    destruct T as [Tu Tt Tw _ _ _ Tc' _ _], Gv as [Gu Gt Gw _ _ _ Gc _ _]. simpl in *.
    split; [|split; [|split]].
    + eapply set_range_undo; [exact G| |exact Tu|]; intros j; rewrite Gu; auto.
      intros Hj. apply set_range_out. exact Hj.
    + eapply set_range_undo; [exact Ht| |exact Tt|]; intros j; rewrite Gt;
        destruct (owner_of flags); auto using set_range_out.
    + eapply set_range_undo; [exact Hw| |exact Tw|]; intros j; rewrite Gw;
        destruct (owner_of flags); auto using set_range_out.
    + lia.
Qed.

Lemma palloc_free_get_witness :
  match palloc_get_multiple small_pool PAL_SWAP 2 with
  | Ret (pages, s') => match palloc_free_multiple s' pages 2 with
                       | Ret s'' => inv s'' /\ swap_page_count s'' = 0
                       | Stop _ => False end
  | Stop _ => False
  end.
Proof.
  assert (E' : fst <$> palloc_get_multiple small_pool PAL_SWAP 2 = Ret 0xffc14000)
    by (vm_compute; reflexivity).
  destruct (palloc_get_multiple small_pool PAL_SWAP 2) as [[pages s']|e] eqn:E;
    [|discriminate].
  destruct (palloc_free_get small_pool s' PAL_SWAP 2 pages) as (s'' & -> & Hi & H);
    [exact small_pool_inv|lia|exact E|injection E' as ->; discriminate|].
  split; [exact Hi|]. apply H.
Defined.

(** An exhausted quota makes [palloc_get_multiple] return [NULL] even when
    [PAL_ASSERT] is set, where its comment promises a panic. *)
Theorem palloc_quota_ignores_assert (s : palloc_state bitmap) flags page_cnt :
  over_quota s flags page_cnt = true ->
  palloc_get_multiple s (flags |! PAL_ASSERT) page_cnt = Ret (NULL, s).
Proof.
  intros H. unfold palloc_get_multiple.
  replace (over_quota s (flags |! PAL_ASSERT) page_cnt) with true; [reflexivity|].
  rewrite <- H. unfold over_quota. rewrite !Z.land_lor_distr_l.
  change (PAL_ASSERT &! PAL_TC) with 0. change (PAL_ASSERT &! PAL_SWAP) with 0.
  rewrite !Z.lor_0_r. reflexivity.
Qed.

Lemma palloc_quota_ignores_assert_witness :
  palloc_get_multiple small_pool (PAL_SWAP |! PAL_ASSERT) 1001 = Ret (NULL, small_pool).
Proof. apply (palloc_quota_ignores_assert small_pool PAL_SWAP 1001). reflexivity. Defined.
