(* ===== verification/Arith64.v ===== *)
(** * 64-bit division on a 32-bit machine

    [lib/arithmetic.c]: the routines the compiler calls for 64-bit [/] and
    [%].  They are built on the [divl] instruction, which raises a divide
    error when the quotient does not fit in 32 bits; the theorems show that
    the quotient routines never do and compute the exact quotient, and say
    what the remainder routines compute. *)

From Stdlib Require Import ZArith Lia Bool.
From stdpp Require Import base.
From S2P Require Import Prelude.

(** [DIVL]: 64-bit by 32-bit division, [#DE] on a zero divisor and on a
    quotient of more than 32 bits. *)
Definition divl (n d : Z) : res Z :=
  if d =? 0 then Stop Trap
  else if n / d <? 2 ^ 32 then mret (n / d) else Stop Trap.

Definition nlz (x : Z) : Z :=
  let '(n, x) := (0, x) in
  let '(n, x) := if x <=? 0x0000FFFF then (n + 16, wrap 32 (x << 16)) else (n, x) in
  let '(n, x) := if x <=? 0x00FFFFFF then (n + 8, wrap 32 (x << 8)) else (n, x) in
  let '(n, x) := if x <=? 0x0FFFFFFF then (n + 4, wrap 32 (x << 4)) else (n, x) in
  let '(n, x) := if x <=? 0x3FFFFFFF then (n + 2, wrap 32 (x << 2)) else (n, x) in
  if x <=? 0x7FFFFFFF then n + 1 else n.

Definition udiv64 (n d : Z) : res Z :=
  if d >> 32 =? 0 then
    let b := wrap 64 (1 << 32) in
    let n1 := wrap 32 (n >> 32) in
    let n0 := wrap 32 n in
    let d0 := wrap 32 d in
    if d0 =? 0 then Stop Trap
    else
      q ← divl (wrap 64 (b * (n1 mod d0) + n0)) d0;
      mret (wrap 64 (q + b * (n1 / d0)))
  else if n <? d then mret 0
  else
    let d1 := wrap 32 (d >> 32) in
    let s := nlz d1 in
    q ← divl (n >> 1) (wrap 32 (wrap 64 (d << s) >> 32));
    let q := q >> (31 - s) in
    mret (if wrap 64 (n - wrap 64 (wrap 64 (q - 1) * d)) <? d
          then wrap 64 (q - 1) else q).

(** The result type is [uint32_t]. *)
Definition umod64 (n d : Z) : res Z :=
  q ← udiv64 n d; mret (wrap 32 (wrap 64 (n - wrap 64 (d * q)))).

Definition sdiv64 (n d : Z) : res Z :=
  let n_abs := if 0 <=? n then wrap 64 n else wrap 64 (- wrap 64 n) in
  let d_abs := if 0 <=? d then wrap 64 d else wrap 64 (- wrap 64 d) in
  q_abs ← udiv64 n_abs d_abs;
  mret (if Bool.eqb (n <? 0) (d <? 0) then sgn 64 q_abs else sgn 64 (- sgn 64 q_abs)).

(** The result type is [int32_t]. *)
Definition smod64 (n d : Z) : res Z :=
  q ← sdiv64 n d; mret (sgn 32 (sgn 64 (n - sgn 64 (d * q)))).

Definition __divdi3 (n d : Z) : res Z := sdiv64 n d.
Definition __moddi3 (n d : Z) : res Z := smod64 n d.
Definition __udivdi3 (n d : Z) : res Z := udiv64 n d.
Definition __umoddi3 (n d : Z) : res Z := umod64 n d.

(** ** Leading zeros *)

Lemma nlz_step n x k lim :
  0 <= k < 32 -> lim + 1 = 2 ^ (32 - k) -> 0 < x < 2 ^ 32 ->
  let '(n', x') := if x <=? lim then (n + k, wrap 32 (x << k)) else (n, x) in
  0 < x' < 2 ^ 32 /\ x' = x * 2 ^ (n' - n)
  /\ (n' = n /\ lim < x \/ n' = n + k /\ x <= lim).
Proof.
  intros Hk Hlim Hx. destruct (Z.leb_spec x lim).
  - assert (Hp : 0 < 2 ^ k) by (apply Z.pow_pos_nonneg; lia).
    assert (Hm : 2 ^ (32 - k) * 2 ^ k = 2 ^ 32)
      by (rewrite <- Z.pow_add_r by lia; f_equal; lia).
    rewrite Z.shiftl_mul_pow2 by lia. rewrite wrap_id by (unfold inU; nia).
    replace (n + k - n) with k by lia. nia.
  - replace (n - n) with 0 by lia. lia.
Qed.

(** For a nonzero 32-bit [x], shifting left by [nlz x] brings the leading bit
    to the top. *)
Lemma nlz_spec x :
  0 < x < 2 ^ 32 -> 0 <= nlz x <= 31 /\ 2 ^ 31 <= x * 2 ^ nlz x < 2 ^ 32.
Proof.
  intros Hx. unfold nlz.
  pose proof (nlz_step 0 x 16 0x0000FFFF ltac:(lia) eq_refl Hx) as H1.
  destruct (if x <=? 0x0000FFFF then _ else _) as [n1 x1].
  destruct H1 as (Hx1 & E1 & C1).
  pose proof (nlz_step n1 x1 8 0x00FFFFFF ltac:(lia) eq_refl Hx1) as H2.
  destruct (if x1 <=? 0x00FFFFFF then _ else _) as [n2 x2].
  destruct H2 as (Hx2 & E2 & C2).
  pose proof (nlz_step n2 x2 4 0x0FFFFFFF ltac:(lia) eq_refl Hx2) as H3.
  destruct (if x2 <=? 0x0FFFFFFF then _ else _) as [n3 x3].
  destruct H3 as (Hx3 & E3 & C3).
  pose proof (nlz_step n3 x3 2 0x3FFFFFFF ltac:(lia) eq_refl Hx3) as H4.
  destruct (if x3 <=? 0x3FFFFFFF then _ else _) as [n4 x4].
  destruct H4 as (Hx4 & E4 & C4).
  assert (E : x4 = x * 2 ^ n4).
  { rewrite E4, E3, E2, E1. rewrite <- !Z.mul_assoc, <- !Z.pow_add_r by lia.
    do 2 f_equal. lia. }
  assert (Hbound : 0 <= n4 <= 30) by lia.
  assert (Hlow : 2 ^ 30 <= x4).
  { rewrite E4, E3, E2, E1.
    destruct C4 as [[-> ?]|[-> ?]], C3 as [[-> ?]|[-> ?]],
      C2 as [[-> ?]|[-> ?]], C1 as [[-> ?]|[-> ?]]; simpl in *; lia. }
  destruct (Z.leb_spec x4 0x7FFFFFFF); rewrite E in *.
  - split; [lia|]. rewrite Z.pow_add_r, Z.mul_assoc by lia. lia.
  - lia.
Qed.

(** ** Unsigned division *)

Lemma divl_ok n d : 0 < d -> 0 <= n < d * 2 ^ 32 -> divl n d = Ret (n / d).
Proof.
  intros Hd Hn. unfold divl. rewrite (proj2 (Z.eqb_neq _ _)) by lia.
  rewrite (proj2 (Z.ltb_lt _ _)); [reflexivity|].
  apply Z.div_lt_upper_bound; lia.
Qed.

(** The divisor fits in 32 bits: two steps of schoolbook division. *)
Lemma udiv64_short n d :
  inU 64 n -> 0 < d < 2 ^ 32 -> udiv64 n d = Ret (n / d).
Proof.
  intros Hn Hd. unfold inU in Hn. unfold udiv64.
  rewrite !Z.shiftr_div_pow2, Z.div_small by lia. simpl (0 =? 0).
  rewrite (wrap_id 64 (1 << 32)) by inU_num. change (1 << 32) with (2 ^ 32).
  assert (Hn1 : 0 <= n / 2 ^ 32 < 2 ^ 32) by (Z.div_mod_to_equations; lia).
  rewrite (wrap_id 32 (n / 2 ^ 32)), (wrap_id 32 d) by (unfold inU; lia).
  change (wrap 32 n) with (n mod 2 ^ 32). rewrite (proj2 (Z.eqb_neq d 0)) by lia.
  pose proof (Z.mod_pos_bound (n / 2 ^ 32) d ltac:(lia)) as Hr.
  pose proof (Z.mod_pos_bound n (2 ^ 32) ltac:(lia)) as H0.
  rewrite (wrap_id 64 (2 ^ 32 * _ + _)) by (unfold inU; nia).
  rewrite divl_ok by nia. simpl (_ ≫= _). unfold mret, res_ret. f_equal.
  replace ((2 ^ 32 * (n / 2 ^ 32 mod d) + n mod 2 ^ 32) / d
           + 2 ^ 32 * (n / 2 ^ 32 / d)) with (n / d).
  - apply wrap_id. split; [apply Z.div_pos; lia|].
    apply Z.div_lt_upper_bound; nia.
  - rewrite <- Z.div_add by lia. f_equal.
    pose proof (Z.div_mod n (2 ^ 32)). pose proof (Z.div_mod (n / 2 ^ 32) d). lia.
Qed.

(** The estimate of the long case: [V] is [d] with its low bits cleared, and
    dividing by [V] instead of [d] overshoots by at most one. *)
Lemma estimate n d V P R :
  0 <= n < 2 ^ 64 -> 0 < d -> 0 < P -> 0 < R -> P * R = 2 ^ 32 ->
  V <= d < V + P -> P * 2 ^ 31 <= V ->
  n / d <= n / V <= n / d + 1.
Proof.
  intros Hn Hd HP HR HPR HV HVP. assert (0 < V) by nia.
  split.
  - apply Z.div_le_compat_l; lia.
  - enough (n / V < n / d + 2) by lia. apply Z.div_lt_upper_bound; [lia|].
    pose proof (Z.mul_succ_div_gt n d Hd) as Hq.
    set (Q := n / d) in *.
    assert (HQ : Q < 2 * R).
    { unfold Q. apply Z.div_lt_upper_bound; nia. }
    assert (0 <= Q) by (apply Z.div_pos; lia).
    assert (Hgap : (2 * R + 1) * (d - V) <= 2 * R * (P - 1) + (d - V)) by nia.
    assert ((Q + 2) * (d - V) <= (2 * R + 1) * (d - V)) by nia.
    assert (2 * R * (P - 1) <= P * 2 ^ 31).
    { apply Z.mul_le_mono_pos_l with (p := P); [lia|].
      pose proof (Z.square_nonneg (P - 2)). nia. }
    nia.
Qed.

(** What [nlz] of the high word says of the divisor. *)
Lemma normalise d s :
  2 ^ 32 <= d < 2 ^ 64 -> s = nlz (d / 2 ^ 32) ->
  0 <= s <= 31 /\ 0 < 2 ^ (32 - s) /\ 0 < 2 ^ s /\ 2 ^ (32 - s) * 2 ^ s = 2 ^ 32
  /\ d * 2 ^ s < 2 ^ 64 /\ 2 ^ 31 <= d / 2 ^ (32 - s) < 2 ^ 32
  /\ d * 2 ^ s / 2 ^ 32 = d / 2 ^ (32 - s).
Proof.
  intros Hd ->. set (s := nlz (d / 2 ^ 32)).
  destruct (nlz_spec (d / 2 ^ 32)) as [Hs Hn]; [Z.div_mod_to_equations; lia|]. fold s in Hs, Hn.
  assert (Hm : 2 ^ (32 - s) * 2 ^ s = 2 ^ 32)
    by (rewrite <- Z.pow_add_r by lia; f_equal; lia).
  assert (0 < 2 ^ s) by (apply Z.pow_pos_nonneg; lia).
  assert (0 < 2 ^ (32 - s)) by (apply Z.pow_pos_nonneg; lia).
  assert (E : d * 2 ^ s / 2 ^ 32 = d / 2 ^ (32 - s))
    by (rewrite <- Hm; apply Z.div_mul_cancel_r; lia).
  pose proof (Z.div_mod d (2 ^ 32)). pose proof (Z.mod_pos_bound d (2 ^ 32)).
  assert (Hlt : d * 2 ^ s < 2 ^ 64) by nia.
  rewrite <- E. repeat split; try lia.
  - apply Z.div_le_lower_bound; nia.
  - apply Z.div_lt_upper_bound; lia.
Qed.

Lemma udiv64_long n d :
  inU 64 n -> 2 ^ 32 <= d < 2 ^ 64 -> udiv64 n d = Ret (n / d).
Proof.
  intros Hn Hd. unfold inU in Hn. unfold udiv64. rewrite !Z.shiftr_div_pow2 by lia.
  rewrite (proj2 (Z.eqb_neq _ _)) by (Z.div_mod_to_equations; lia).
  destruct (Z.ltb_spec n d) as [Hlt|Hge]; [rewrite Z.div_small by lia; reflexivity|].
  rewrite (wrap_id 32 (d / 2 ^ 32)) by (unfold inU; Z.div_mod_to_equations; lia).
  destruct (normalise d _ Hd eq_refl) as (Hs & HP & HR & HPR & Hlt & HV & EV).
  set (s := nlz (d / 2 ^ 32)) in *. set (P := 2 ^ (32 - s)) in *.
  rewrite (Z.shiftl_mul_pow2 d s) by lia. rewrite (wrap_id 64 (d * _)) by (unfold inU; nia).
  rewrite EV. rewrite (wrap_id 32 (d / P)) by (unfold inU; lia).
  rewrite divl_ok by (try (Z.div_mod_to_equations; nia); lia).
  simpl (_ ≫= _). unfold mret, res_ret. f_equal.
  assert (Eq : (n / 2 ^ 1 / (d / P)) >> (31 - s) = n / (P * (d / P))).
  { assert (0 < 2 ^ (31 - s)) by (apply Z.pow_pos_nonneg; lia).
    rewrite Z.shiftr_div_pow2 by lia. rewrite (Z.div_div (n / 2 ^ 1)) by lia.
    rewrite Z.div_div by (lia || (apply Z.mul_pos_pos; lia)).
    f_equal. unfold P. replace (32 - s) with (31 - s + 1) by lia.
    rewrite Z.pow_add_r by lia. ring. }
  rewrite Eq.
  pose proof (Z.div_mod d P). pose proof (Z.mod_pos_bound d P HP).
  pose proof (estimate n d (P * (d / P)) P (2 ^ s) Hn ltac:(lia) HP HR HPR
                ltac:(lia) ltac:(nia)) as He.
  set (q := n / (P * (d / P))) in *.
  assert (1 <= n / d) by (apply Z.div_le_lower_bound; lia).
  assert (n / d < 2 ^ 64) by (apply Z.div_lt_upper_bound; nia).
  pose proof (Z.mul_div_le n d ltac:(lia)). pose proof (Z.mul_succ_div_gt n d ltac:(lia)).
  rewrite (wrap_id 64 (q - 1)) by (unfold inU; lia).
  rewrite (wrap_id 64 ((q - 1) * d)) by (unfold inU; nia).
  rewrite wrap_id by (unfold inU; nia).
  destruct (Z.ltb_spec (n - (q - 1) * d) d); nia.
Qed.

Lemma udiv64_exact n d : inU 64 n -> inU 64 d -> d <> 0 -> udiv64 n d = Ret (n / d).
Proof.
  intros Hn Hd H0. unfold inU in Hd. destruct (Z.lt_ge_cases d (2 ^ 32)).
  - apply udiv64_short; [exact Hn|lia].
  - apply udiv64_long; [exact Hn|lia].
Qed.

(** ** Signed division *)

(** [int64_t]. *)
Definition inS64 (x : Z) : Prop := - 2 ^ 63 <= x < 2 ^ 63.

Lemma abs64 n : inS64 n -> (if 0 <=? n then wrap 64 n else wrap 64 (- wrap 64 n)) = Z.abs n.
Proof.
  intros Hn. unfold inS64 in Hn. destruct (Z.leb_spec 0 n).
  - rewrite wrap_id by (unfold inU; lia). lia.
  - unfold wrap. rewrite <- (Z.mod_add n 1) by lia.
    rewrite (Z.mod_small (n + _)) by lia. rewrite <- (Z.mod_add _ 1) by lia.
    rewrite Z.mod_small; lia.
Qed.

Lemma sgn64_id x : inS64 x -> sgn 64 x = x.
Proof.
  intros Hx. unfold inS64 in Hx. unfold sgn, wrap. destruct (Z.lt_ge_cases x 0).
  - rewrite <- (Z.mod_add x 1) by lia. rewrite Z.mod_small by lia.
    destruct (Z.ltb_spec (x + 1 * 2 ^ 64) (2 ^ (64 - 1))); lia.
  - rewrite Z.mod_small by lia. destruct (Z.ltb_spec x (2 ^ (64 - 1))); lia.
Qed.

Lemma sdiv64_exact n d :
  inS64 n -> inS64 d -> d <> 0 -> ~ (n = - 2 ^ 63 /\ d = -1) ->
  sdiv64 n d = Ret (Z.quot n d).
Proof.
  intros Hn Hd H0 Hmin. unfold sdiv64. rewrite !abs64 by assumption.
  unfold inS64 in *. rewrite udiv64_exact by (unfold inU; lia).
  simpl (_ ≫= _). unfold mret, res_ret. f_equal.
  rewrite Z.quot_div by assumption.
  assert (0 <= Z.abs n / Z.abs d <= Z.abs n)
    by (split; [apply Z.div_pos; lia|apply Z.div_le_upper_bound; nia]).
  set (q := Z.abs n / Z.abs d) in *.
  assert (Z.abs n < 2 ^ 63 \/ n = - 2 ^ 63) as [Hsmall| ->] by lia.
  - rewrite (sgn64_id q), (sgn64_id (- q)) by (unfold inS64; lia).
    destruct (Z.ltb_spec n 0), (Z.ltb_spec d 0); simpl; lia.
  - destruct (Z.eq_dec q (2 ^ 63)) as [E|].
    + assert (d = 1) as -> by (unfold q in E; destruct (Z.eq_dec (Z.abs d) 1); [lia|];
        assert (Z.abs (- 2 ^ 63) / Z.abs d < 2 ^ 63) by (apply Z.div_lt_upper_bound; lia); lia).
      rewrite E. vm_compute. reflexivity.
    + rewrite (sgn64_id q), (sgn64_id (- q)) by (unfold inS64; lia).
      destruct (Z.ltb_spec d 0); simpl; lia.
Qed.

(** ** Properties *)

(** C22: [__udivdi3] computes the exact unsigned quotient for every 64-bit
    dividend and every nonzero 64-bit divisor; in particular [divl] never
    raises a divide error in it. *)
Theorem udivdi3_exact n d :
  inU 64 n -> inU 64 d -> d <> 0 -> __udivdi3 n d = Ret (n / d).
Proof. apply udiv64_exact. Qed.

Lemma udivdi3_exact_witness :
  __udivdi3 0xffffffffffffffff 0x100000001 = Ret (0xffffffffffffffff / 0x100000001).
Proof. apply (udivdi3_exact 0xffffffffffffffff 0x100000001); [inU_num..|discriminate]. Defined.

(** [__divdi3] computes the quotient rounded towards zero for every pair
    of 64-bit integers whose quotient is representable. *)
Theorem divdi3_exact n d :
  inS64 n -> inS64 d -> d <> 0 -> ~ (n = - 2 ^ 63 /\ d = -1) ->
  __divdi3 n d = Ret (Z.quot n d).
Proof. apply sdiv64_exact. Qed.

Lemma divdi3_exact_witness : __divdi3 (-7000000000001) 2000000003 = Ret (-3499).
Proof.
  apply (divdi3_exact (-7000000000001) 2000000003);
    [unfold inS64; lia..|lia|lia].
Defined.

(** [__umoddi3] keeps only the low 32 bits of the remainder, because
    [umod64] returns a 32-bit type: it is the remainder exactly when the
    remainder is below 2^32. *)
Theorem umoddi3_truncates n d :
  inU 64 n -> inU 64 d -> d <> 0 ->
  __umoddi3 n d = Ret ((n mod d) mod 2 ^ 32)
  /\ (__umoddi3 n d = Ret (n mod d) <-> n mod d < 2 ^ 32).
Proof.
  intros Hn Hd H0. unfold inU in *.
  pose proof (Z.mod_pos_bound n d ltac:(lia)) as Hm.
  assert (E : __umoddi3 n d = Ret ((n mod d) mod 2 ^ 32)).
  { unfold __umoddi3, umod64. rewrite udiv64_exact by assumption.
    simpl (_ ≫= _). unfold mret, res_ret. f_equal.
    pose proof (Z.mul_div_le n d ltac:(lia)). pose proof (Z.div_pos n d ltac:(lia) ltac:(lia)).
    rewrite (wrap_id 64 (d * _)) by (unfold inU; nia).
    replace (n - d * (n / d)) with (n mod d) by (pose proof (Z.div_mod n d ltac:(lia)); lia).
    rewrite (wrap_id 64) by (unfold inU; lia). reflexivity. }
  split; [exact E|]. rewrite E. split.
  - intros [= Eq]. pose proof (Z.mod_pos_bound (n mod d) (2 ^ 32) ltac:(lia)). lia.
  - intros Hlt. rewrite Z.mod_small by lia. reflexivity.
Qed.

Lemma umoddi3_truncates_witness : __umoddi3 (2 ^ 33 + 5) (2 ^ 34) = Ret 5.
Proof.
  destruct (umoddi3_truncates (2 ^ 33 + 5) (2 ^ 34)) as [E _]; [inU_num..|discriminate|].
  exact E.
Defined.

(** [__moddi3] is the low 32 bits of the remainder read as [int32_t], so
    a remainder outside that type comes back with another value, or even
    another sign. *)
Theorem moddi3_truncates n d :
  inS64 n -> inS64 d -> d <> 0 -> ~ (n = - 2 ^ 63 /\ d = -1) ->
  __moddi3 n d = Ret (sgn 32 (Z.rem n d)).
Proof.
  intros Hn Hd H0 Hmin. unfold __moddi3, smod64. rewrite sdiv64_exact by assumption.
  simpl (_ ≫= _). unfold mret, res_ret. f_equal.
  pose proof (Z.quot_rem n d H0) as Hqr. pose proof (Z.rem_bound_abs n d H0) as Hr.
  assert (Hs : 0 <= Z.rem n d * n) by apply Z.rem_sign_mul, H0.
  assert (Hle : Z.abs (Z.rem n d) <= Z.abs n).
  { rewrite <- Z.rem_abs, Z.rem_mod_nonneg by lia. apply Z.mod_le; lia. }
  unfold inS64 in *. assert (Z.abs (d * Z.quot n d) <= Z.abs n) by nia.
  assert (inS64 (d * Z.quot n d) /\ inS64 (Z.rem n d)) as [H1 H2] by (unfold inS64; nia).
  rewrite (sgn64_id (d * _)) by assumption.
  replace (n - d * Z.quot n d) with (Z.rem n d) by lia.
  rewrite sgn64_id by assumption. reflexivity.
Qed.

Lemma moddi3_truncates_witness : __moddi3 (2 ^ 31) (2 ^ 40) = Ret (- 2 ^ 31).
Proof.
  apply (moddi3_truncates (2 ^ 31) (2 ^ 40)); [unfold inS64; lia..|lia|lia].
Defined.
