(* ===== verification/Pic.v ===== *)
(** * The i8259 interrupt controllers

    [hw/i8259.c]: the master and slave controllers the monitor emulates for
    the guest.  A controller is the [PicState] record; the pair is
    [PicState2].  Ports are written and read through the handlers the I/O
    layer calls; [pic_set_irq] is the device side and [pic_read_irq] the
    processor side.  [alt_irq_func] is null in this program (its setter is
    never called), so [pic_set_irq] has no further effect. *)

From Stdlib Require Import ZArith Lia Bool.
From stdpp Require Import base list numbers.
From S2P Require Import Prelude.

Record PicState := mk_pic {
  last_irr : Z;
  irr : Z;
  imr : Z;
  isr : Z;
  priority_add : Z;
  irq_base : Z;
  read_reg_select : Z;
  poll : Z;
  special_mask : Z;
  init_state : Z;
  auto_eoi : Z;
  rotate_on_auto_eoi : Z;
  special_fully_nested_mode : Z;
  init4 : Z;
  elcr : Z;
  elcr_mask : Z }.

Definition set_last_irr (s : PicState) (v : Z) : PicState :=
  mk_pic v (irr s) (imr s) (isr s) (priority_add s) (irq_base s) (read_reg_select s)
    (poll s) (special_mask s) (init_state s) (auto_eoi s) (rotate_on_auto_eoi s)
    (special_fully_nested_mode s) (init4 s) (elcr s) (elcr_mask s).
Definition set_irr (s : PicState) (v : Z) : PicState :=
  mk_pic (last_irr s) v (imr s) (isr s) (priority_add s) (irq_base s)
    (read_reg_select s) (poll s) (special_mask s) (init_state s) (auto_eoi s)
    (rotate_on_auto_eoi s) (special_fully_nested_mode s) (init4 s) (elcr s)
    (elcr_mask s).
Definition set_imr (s : PicState) (v : Z) : PicState :=
  mk_pic (last_irr s) (irr s) v (isr s) (priority_add s) (irq_base s)
    (read_reg_select s) (poll s) (special_mask s) (init_state s) (auto_eoi s)
    (rotate_on_auto_eoi s) (special_fully_nested_mode s) (init4 s) (elcr s)
    (elcr_mask s).
Definition set_isr (s : PicState) (v : Z) : PicState :=
  mk_pic (last_irr s) (irr s) (imr s) v (priority_add s) (irq_base s)
    (read_reg_select s) (poll s) (special_mask s) (init_state s) (auto_eoi s)
    (rotate_on_auto_eoi s) (special_fully_nested_mode s) (init4 s) (elcr s)
    (elcr_mask s).
Definition set_priority_add (s : PicState) (v : Z) : PicState :=
  mk_pic (last_irr s) (irr s) (imr s) (isr s) v (irq_base s) (read_reg_select s)
    (poll s) (special_mask s) (init_state s) (auto_eoi s) (rotate_on_auto_eoi s)
    (special_fully_nested_mode s) (init4 s) (elcr s) (elcr_mask s).
Definition set_irq_base (s : PicState) (v : Z) : PicState :=
  mk_pic (last_irr s) (irr s) (imr s) (isr s) (priority_add s) v (read_reg_select s)
    (poll s) (special_mask s) (init_state s) (auto_eoi s) (rotate_on_auto_eoi s)
    (special_fully_nested_mode s) (init4 s) (elcr s) (elcr_mask s).
Definition set_read_reg_select (s : PicState) (v : Z) : PicState :=
  mk_pic (last_irr s) (irr s) (imr s) (isr s) (priority_add s) (irq_base s) v (poll s)
    (special_mask s) (init_state s) (auto_eoi s) (rotate_on_auto_eoi s)
    (special_fully_nested_mode s) (init4 s) (elcr s) (elcr_mask s).
Definition set_poll (s : PicState) (v : Z) : PicState :=
  mk_pic (last_irr s) (irr s) (imr s) (isr s) (priority_add s) (irq_base s)
    (read_reg_select s) v (special_mask s) (init_state s) (auto_eoi s)
    (rotate_on_auto_eoi s) (special_fully_nested_mode s) (init4 s) (elcr s)
    (elcr_mask s).
Definition set_special_mask (s : PicState) (v : Z) : PicState :=
  mk_pic (last_irr s) (irr s) (imr s) (isr s) (priority_add s) (irq_base s)
    (read_reg_select s) (poll s) v (init_state s) (auto_eoi s) (rotate_on_auto_eoi s)
    (special_fully_nested_mode s) (init4 s) (elcr s) (elcr_mask s).
Definition set_init_state (s : PicState) (v : Z) : PicState :=
  mk_pic (last_irr s) (irr s) (imr s) (isr s) (priority_add s) (irq_base s)
    (read_reg_select s) (poll s) (special_mask s) v (auto_eoi s) (rotate_on_auto_eoi s)
    (special_fully_nested_mode s) (init4 s) (elcr s) (elcr_mask s).
Definition set_auto_eoi (s : PicState) (v : Z) : PicState :=
  mk_pic (last_irr s) (irr s) (imr s) (isr s) (priority_add s) (irq_base s)
    (read_reg_select s) (poll s) (special_mask s) (init_state s) v
    (rotate_on_auto_eoi s) (special_fully_nested_mode s) (init4 s) (elcr s)
    (elcr_mask s).
Definition set_rotate_on_auto_eoi (s : PicState) (v : Z) : PicState :=
  mk_pic (last_irr s) (irr s) (imr s) (isr s) (priority_add s) (irq_base s)
    (read_reg_select s) (poll s) (special_mask s) (init_state s) (auto_eoi s) v
    (special_fully_nested_mode s) (init4 s) (elcr s) (elcr_mask s).
Definition set_special_fully_nested_mode (s : PicState) (v : Z) : PicState :=
  mk_pic (last_irr s) (irr s) (imr s) (isr s) (priority_add s) (irq_base s)
    (read_reg_select s) (poll s) (special_mask s) (init_state s) (auto_eoi s)
    (rotate_on_auto_eoi s) v (init4 s) (elcr s) (elcr_mask s).
Definition set_init4 (s : PicState) (v : Z) : PicState :=
  mk_pic (last_irr s) (irr s) (imr s) (isr s) (priority_add s) (irq_base s)
    (read_reg_select s) (poll s) (special_mask s) (init_state s) (auto_eoi s)
    (rotate_on_auto_eoi s) (special_fully_nested_mode s) v (elcr s) (elcr_mask s).
Definition set_elcr (s : PicState) (v : Z) : PicState :=
  mk_pic (last_irr s) (irr s) (imr s) (isr s) (priority_add s) (irq_base s)
    (read_reg_select s) (poll s) (special_mask s) (init_state s) (auto_eoi s)
    (rotate_on_auto_eoi s) (special_fully_nested_mode s) (init4 s) v (elcr_mask s).
Definition set_elcr_mask (s : PicState) (v : Z) : PicState :=
  mk_pic (last_irr s) (irr s) (imr s) (isr s) (priority_add s) (irq_base s)
    (read_reg_select s) (poll s) (special_mask s) (init_state s) (auto_eoi s)
    (rotate_on_auto_eoi s) (special_fully_nested_mode s) (init4 s) (elcr s) v.

Record PicState2 := mk_pics { pic0 : PicState; pic1 : PicState }.

(** Which of the two controllers a handler was registered for. *)
Inductive which := Master | Slave.

Definition pic_at (s : PicState2) (w : which) : PicState :=
  match w with Master => pic0 s | Slave => pic1 s end.
Definition set_pic (s : PicState2) (w : which) (p : PicState) : PicState2 :=
  match w with Master => mk_pics p (pic1 s) | Slave => mk_pics (pic0 s) p end.

(** ** Operations *)

Definition pic_set_irq1 (s : PicState) (irq : Z) (level : bool) : PicState :=
  let mask := 1 << irq in
  if nz (elcr s &! mask) then
    if level then
      let s := set_irr s (wrap 8 (irr s |! mask)) in
      set_last_irr s (wrap 8 (last_irr s |! mask))
    else
      let s := set_irr s (irr s &~ mask) in
      set_last_irr s (last_irr s &~ mask)
  else
    if level then
      let s := if (last_irr s &! mask) =? 0 then set_irr s (wrap 8 (irr s |! mask)) else s in
      set_last_irr s (wrap 8 (last_irr s |! mask))
    else set_last_irr s (last_irr s &~ mask).

Fixpoint priority_loop (fuel : nat) (mask add priority : Z) : res Z :=
  match fuel with
  | O => Stop NoFuel
  | S fuel =>
      if (mask &! (1 << ((priority + add) &! 7))) =? 0
      then priority_loop fuel mask add (priority + 1) else mret priority
  end.

(** Eight iterations visit every line. *)
Definition get_priority (s : PicState) (mask : Z) : res Z :=
  if mask =? 0 then mret 8 else priority_loop 8 mask (priority_add s) 0.

Definition pic_get_irq (w : which) (s : PicState) : res Z :=
  priority ← get_priority s (irr s &~ imr s);
  if priority =? 8 then mret (-1)
  else
    let mask := isr s in
    let mask := if nz (special_fully_nested_mode s)
                   && (match w with Master => true | Slave => false end)
                then mask &~ (1 << 2) else mask in
    cur_priority ← get_priority s mask;
    if priority <? cur_priority
    then mret ((priority + priority_add s) &! 7) else mret (-1).

Definition pic_update_irq (s : PicState2) : res PicState2 :=
  irq2 ← pic_get_irq Slave (pic1 s);
  if 0 <=? irq2 then mret (mk_pics (pic_set_irq1 (pic0 s) 2 true) (pic1 s)) else mret s.

Definition pic_set_irq (s : PicState2) (irq : Z) (level : bool) : res PicState2 :=
  match irq >> 3 with
  | 0 => mret (mk_pics (pic_set_irq1 (pic0 s) (irq &! 7) level) (pic1 s))
  | 1 => mret (mk_pics (pic0 s) (pic_set_irq1 (pic1 s) (irq &! 7) level))
  | _ => Stop Fault
  end.

(** The condition that would keep a level-triggered request is or-ed with 1. *)
Definition pic_intack (s : PicState) (irq : Z) : PicState :=
  let s := if nz (auto_eoi s) then
             if nz (rotate_on_auto_eoi s) then set_priority_add s ((irq + 1) &! 7) else s
           else set_isr s (wrap 8 (isr s |! (1 << irq))) in
  if negb (nz (elcr s &! (1 << irq))) || true
  then set_irr s (irr s &~ (1 << irq)) else s.

Definition pic_read_irq (s : PicState2) : res (Z * PicState2) :=
  irq ← pic_get_irq Master (pic0 s);
  '(intno, s) ←
    (if 0 <=? irq then
       let s := mk_pics (pic_intack (pic0 s) irq) (pic1 s) in
       if irq =? 2 then
         irq2 ← pic_get_irq Slave (pic1 s);
         if 0 <=? irq2 then
           let s := mk_pics (pic0 s) (pic_intack (pic1 s) irq2) in
           mret (irq_base (pic1 s) + irq2, s)
         else mret (irq_base (pic1 s) + 7, s)
       else mret (irq_base (pic0 s) + irq, s)
     else mret (irq_base (pic0 s) + 7, s));
  s ← pic_update_irq s;
  mret (intno, s).

Definition pic_is_spurious_interrupt (s : PicState2) (intno : Z) : bool :=
  intno =? irq_base (pic0 s) + 7.

Definition pic_reset (s : PicState) : PicState :=
  mk_pic 0 0 0 0 0 0 0 0 0 0 0 0 0 0 (elcr s) (elcr_mask s).

Definition pic_ioport_write (w : which) (s2 : PicState2) (addr val : Z) : res PicState2 :=
  let s := pic_at s2 w in
  let addr := addr &! 1 in
  if addr =? 0 then
    if nz (val &! 0x10) then
      let s := pic_reset s in
      let s := set_init_state s 1 in
      let s := set_init4 s (val &! 1) in
      if nz (val &! 0x02) then Stop Panic
      else if nz (val &! 0x08) then Stop Panic
      else mret (set_pic s2 w s)
    else if nz (val &! 0x08) then
      let s := if nz (val &! 0x04) then set_poll s 1 else s in
      let s := if nz (val &! 0x02) then set_read_reg_select s (val &! 1) else s in
      let s := if nz (val &! 0x40) then set_special_mask s ((val >> 5) &! 1) else s in
      mret (set_pic s2 w s)
    else
      let cmd := val >> 5 in
      if (cmd =? 0) || (cmd =? 4) then
        mret (set_pic s2 w (set_rotate_on_auto_eoi s (cmd >> 2)))
      else if (cmd =? 1) || (cmd =? 5) then
        priority ← get_priority s (isr s);
        if negb (priority =? 8) then
          let irq := (priority + priority_add s) &! 7 in
          let s := set_isr s (isr s &~ (1 << irq)) in
          let s := if cmd =? 5 then set_priority_add s ((irq + 1) &! 7) else s in
          pic_update_irq (set_pic s2 w s)
        else mret s2
      else if cmd =? 3 then
        let irq := val &! 7 in
        pic_update_irq (set_pic s2 w (set_isr s (isr s &~ (1 << irq))))
      else if cmd =? 6 then
        pic_update_irq (set_pic s2 w (set_priority_add s ((val + 1) &! 7)))
      else if cmd =? 7 then
        let irq := val &! 7 in
        let s := set_isr s (isr s &~ (1 << irq)) in
        let s := set_priority_add s ((irq + 1) &! 7) in
        pic_update_irq (set_pic s2 w s)
      else mret s2
  else
    match init_state s with
    | 0 => pic_update_irq (set_pic s2 w (set_imr s (wrap 8 val)))
    | 1 => mret (set_pic s2 w (set_init_state (set_irq_base s (val &! 0xf8)) 2))
    | 2 => mret (set_pic s2 w (set_init_state s (if nz (init4 s) then 3 else 0)))
    | 3 => let s := set_special_fully_nested_mode s ((val >> 4) &! 1) in
           let s := set_auto_eoi s ((val >> 1) &! 1) in
           mret (set_pic s2 w (set_init_state s 0))
    | _ => mret s2
    end.

Definition pic_poll_read (w : which) (s2 : PicState2) (addr1 : Z) : res (Z * PicState2) :=
  ret ← pic_get_irq w (pic_at s2 w);
  if 0 <=? ret then
    let s2 := if nz (addr1 >> 7) then
                let m := set_isr (pic0 s2) (isr (pic0 s2) &~ (1 << 2)) in
                mk_pics (set_irr m (irr m &~ (1 << 2))) (pic1 s2)
              else s2 in
    let s := pic_at s2 w in
    let s := set_irr s (irr s &~ (1 << ret)) in
    let s2 := set_pic s2 w (set_isr s (isr s &~ (1 << ret))) in
    if nz (addr1 >> 7) || negb (ret =? 2)
    then s2 ← pic_update_irq s2; mret (ret, s2)
    else mret (ret, s2)
  else
    s2 ← pic_update_irq s2; mret (0x07, s2).

Definition pic_ioport_read (w : which) (s2 : PicState2) (addr1 : Z) : res (Z * PicState2) :=
  let addr := addr1 &! 1 in
  if nz (poll (pic_at s2 w)) then
    '(ret, s2) ← pic_poll_read w s2 addr1;
    mret (ret, set_pic s2 w (set_poll (pic_at s2 w) 0))
  else
    let s := pic_at s2 w in
    mret (if addr =? 0 then if nz (read_reg_select s) then isr s else irr s else imr s, s2).

Definition pic_intack_read (s : PicState2) : res (Z * PicState2) :=
  '(ret, s) ← pic_poll_read Master s 0x00;
  '(ret, s) ← (if ret =? 2 then
                 '(r, s) ← pic_poll_read Slave s 0x80; mret (r + 8, s)
               else mret (ret, s));
  mret (ret, mk_pics (set_read_reg_select (pic0 s) 1) (pic1 s)).

Definition elcr_ioport_write (w : which) (s2 : PicState2) (addr val : Z) : PicState2 :=
  let s := pic_at s2 w in set_pic s2 w (set_elcr s (wrap 8 (val &! elcr_mask s))).

Definition elcr_ioport_read (w : which) (s2 : PicState2) (addr1 : Z) : Z :=
  elcr (pic_at s2 w).

(** [__pic_init] after the port registration. *)
Definition __pic_init (s : PicState2) : PicState2 :=
  mk_pics (set_elcr_mask (pic0 s) 0xf8) (set_elcr_mask (pic1 s) 0xde).

Definition pic_init (s : PicState2) : PicState2 :=
  let s := __pic_init s in
  mk_pics (set_elcr (pic_reset (pic0 s)) 0xff) (set_elcr (pic_reset (pic1 s)) 0xff).

Definition pic_is_external_interrupt (s : PicState2) (intno : Z) : bool :=
  (irq_base (pic0 s) <=? intno) && (intno <? irq_base (pic0 s) + 0x10).

Definition pic1_states_equal (s1 s2 : PicState) : bool :=
  (last_irr s1 =? last_irr s2)
  && (irr s1 =? irr s2)
  && (imr s1 =? imr s2)
  && (isr s1 =? isr s2)
  && (priority_add s1 =? priority_add s2)
  && (irq_base s1 =? irq_base s2)
  && (read_reg_select s1 =? read_reg_select s2)
  && (poll s1 =? poll s2)
  && (special_mask s1 =? special_mask s2)
  && (init_state s1 =? init_state s2)
  && (auto_eoi s1 =? auto_eoi s2)
  && (rotate_on_auto_eoi s1 =? rotate_on_auto_eoi s2)
  && (special_fully_nested_mode s1 =? special_fully_nested_mode s2)
  && (init4 s1 =? init4 s2)
  && (elcr s1 =? elcr s2)
  && (elcr_mask s1 =? elcr_mask s2).

Definition pic_states_equal (s1 s2 : PicState2) : bool := true.

(** ** Priorities

    [line add p] is the interrupt line of priority [p] when the controller's
    rotation is [add]; [rank] is its inverse. *)

Definition line (add p : Z) : Z := (p + add) &! 7.
Definition rank (add i : Z) : Z := (i - add) mod 8.

Lemma line_mod add p : line add p = (p + add) mod 8.
Proof. apply (Z.land_ones (p + add) 3). lia. Qed.

Lemma line_range add p : 0 <= line add p < 8.
Proof. rewrite line_mod. apply Z.mod_pos_bound. lia. Qed.

Lemma rank_range add i : 0 <= rank add i < 8.
Proof. apply Z.mod_pos_bound. lia. Qed.

Lemma line_rank add i : 0 <= i < 8 -> line add (rank add i) = i.
Proof. intros. rewrite line_mod. unfold rank. Z.div_mod_to_equations. lia. Qed.

Lemma rank_line add p : 0 <= p < 8 -> rank add (line add p) = p.
Proof. intros. rewrite line_mod. unfold rank. Z.div_mod_to_equations. lia. Qed.

(** [p] is the best priority with a bit of [mask], 8 when there is none. *)
Definition best (add mask p : Z) : Prop :=
  (mask = 0 /\ p = 8)
  \/ (0 <= p < 8 /\ Z.testbit mask (line add p) = true
      /\ forall i, 0 <= i < 8 -> Z.testbit mask i = true -> p <= rank add i).

Lemma byte_nonzero_bit m : inU 8 m -> m <> 0 -> exists i, 0 <= i < 8 /\ Z.testbit m i = true.
Proof.
  intros Hm H0. exists (Z.log2 m). unfold inU in Hm. split.
  - split; [apply Z.log2_nonneg|]. apply Z.log2_lt_pow2; lia.
  - apply Z.bit_log2. lia.
Qed.

Lemma priority_loop_spec mask add : forall fuel p,
  inU 8 mask -> mask <> 0 -> 0 <= p -> p + Z.of_nat fuel = 8 ->
  (forall i, 0 <= i < 8 -> Z.testbit mask i = true -> p <= rank add i) ->
  exists q, priority_loop fuel mask add p = Ret q /\ best add mask q.
Proof.
  induction fuel as [|fuel IH]; intros p Hm H0 Hp Hf Hlow.
  - exfalso. destruct (byte_nonzero_bit mask Hm H0) as (i & Hi & Hb).
    pose proof (Hlow i Hi Hb). pose proof (rank_range add i). lia.
  - cbn [priority_loop]. fold (line add p).
    pose proof (land_bit_nz mask (line add p)) as Hb. pose proof (line_range add p).
    unfold nz in Hb. destruct (_ =? 0).
    + apply IH; [assumption..|lia|lia|]. intros i Hi Hbi.
      specialize (Hlow i Hi Hbi). destruct (Z.eq_dec p (rank add i)) as [->|]; [|lia].
      rewrite line_rank in Hb by lia. rewrite <- Hb in Hbi by lia. discriminate.
    + exists p. split; [reflexivity|]. right. split; [lia|]. split; [|exact Hlow].
      symmetry. apply Hb. lia.
Qed.

Lemma get_priority_spec s mask :
  inU 8 mask -> exists p, get_priority s mask = Ret p /\ best (priority_add s) mask p.
Proof.
  intros Hm. unfold get_priority. destruct (Z.eqb_spec mask 0) as [->|H0].
  - exists 8. split; [reflexivity|]. left. auto.
  - apply priority_loop_spec; auto; [lia|]. intros i Hi _. apply rank_range.
Qed.

Lemma best_unique add m p q : best add m p -> best add m q -> p = q.
Proof.
  intros [[Hm ->]|(Hp & Hb & Hl)] [[Hm' ->]|(Hp' & Hb' & Hl')]; auto.
  - subst. rewrite Z.bits_0 in Hb'. discriminate.
  - subst. rewrite Z.bits_0 in Hb. discriminate.
  - pose proof (Hl _ (line_range add q) Hb'). pose proof (Hl' _ (line_range add p) Hb).
    rewrite rank_line in * by lia. lia.
Qed.

(** ** Invariant *)

Definition flag (x : Z) : Prop := x = 0 \/ x = 1.

Record pic_wf (s : PicState) : Prop := {
  wf_last_irr : inU 8 (last_irr s);
  wf_irr : inU 8 (irr s);
  wf_imr : inU 8 (imr s);
  wf_isr : inU 8 (isr s);
  wf_elcr : inU 8 (elcr s);
  wf_elcr_mask : inU 8 (elcr_mask s);
  wf_priority_add : 0 <= priority_add s < 8;
  wf_irq_base : inU 8 (irq_base s) /\ irq_base s mod 8 = 0;
  wf_init_state : 0 <= init_state s <= 3;
  wf_flags : flag (read_reg_select s) /\ flag (poll s) /\ flag (special_mask s)
    /\ flag (auto_eoi s) /\ flag (rotate_on_auto_eoi s)
    /\ flag (special_fully_nested_mode s) /\ flag (init4 s) }.

Definition pics_wf (s : PicState2) : Prop := pic_wf (pic0 s) /\ pic_wf (pic1 s).

Lemma land_1_flag x : flag (x &! 1).
Proof.
  unfold flag. pose proof (Z.land_ones x 1 ltac:(lia)) as E. change (Z.ones 1) with 1 in E.
  pose proof (Z.mod_pos_bound x (2 ^ 1) ltac:(lia)). lia.
Qed.

Lemma land_7_range x : 0 <= x &! 7 < 8.
Proof.
  change 7 with (Z.ones 3). rewrite Z.land_ones by lia. apply Z.mod_pos_bound. lia.
Qed.

Lemma land_f8 x : inU 32 x -> inU 8 (x &! 0xf8) /\ (x &! 0xf8) mod 8 = 0.
Proof.
  intros Hx. split; [apply inU_land_r; [lia|apply Hx|inU_num]|].
  change 8 with (2 ^ 3). rewrite <- Z.land_ones, <- Z.land_assoc by lia.
  change (0xf8 &! Z.ones 3) with 0. apply Z.land_0_r.
Qed.

Create HintDb pic discriminated.
#[export] Hint Resolve land_1_flag land_7_range inU_ldiff wrap_inU inU_0 wf_last_irr wf_irr
  wf_imr wf_isr wf_elcr wf_elcr_mask wf_priority_add wf_irq_base wf_init_state wf_flags : pic.
#[export] Hint Extern 1 (flag _) => (left; reflexivity) : pic.
#[export] Hint Extern 1 (0 mod _ = 0) => reflexivity : pic.
#[export] Hint Extern 1 (flag _) => (right; reflexivity) : pic.
#[export] Hint Extern 1 (0 <= _ &! 7) => apply land_7_range : pic.
#[export] Hint Extern 1 (_ &! 7 < 8) => apply land_7_range : pic.
#[export] Hint Extern 4 (_ <= _) => lia : pic.
#[export] Hint Extern 4 (_ < _) => lia : pic.
#[export] Hint Extern 4 (_ <= _ < _) => lia : pic.
#[export] Hint Extern 4 (_ <= _ <= _) => lia : pic.

(** A controller with some fields replaced by values in range. *)
Ltac wf_fields H := destruct H; split; simpl; intuition (auto with pic).

Lemma set_irq1_wf s irq level : pic_wf s -> pic_wf (pic_set_irq1 s irq level).
Proof.
  intros H. unfold pic_set_irq1. destruct (nz _), level; [| | |wf_fields H].
  1-2: wf_fields H.
  destruct (_ =? 0); wf_fields H.
Qed.

(** The in-service lines that hold back an interrupt. *)
Definition blocking (w : which) (s : PicState) : Z :=
  if nz (special_fully_nested_mode s) && (match w with Master => true | Slave => false end)
  then isr s &~ (1 << 2) else isr s.

(** [pic_get_irq] returns a line [r] exactly when [r] is requested and not
    masked, every other such line has a worse priority, and every blocking
    in-service line has a strictly worse priority than [r]. *)
Definition wanted (w : which) (s : PicState) (r : Z) : Prop :=
  0 <= r < 8 /\ Z.testbit (irr s) r = true /\ Z.testbit (imr s) r = false
  /\ (forall i, 0 <= i < 8 -> Z.testbit (irr s) i = true -> Z.testbit (imr s) i = false ->
      rank (priority_add s) r <= rank (priority_add s) i)
  /\ (forall i, 0 <= i < 8 -> Z.testbit (blocking w s) i = true ->
      rank (priority_add s) r < rank (priority_add s) i).

Lemma pending_inU s : pic_wf s -> inU 8 (irr s &~ imr s).
Proof. intros H. apply inU_ldiff; [lia|apply (wf_irr s H)]. Qed.

Lemma blocking_inU w s : pic_wf s -> inU 8 (blocking w s).
Proof.
  intros H. unfold blocking. destruct (_ && _); [apply inU_ldiff; [lia|]|]; apply (wf_isr s H).
Qed.

Lemma wanted_best w s r :
  pic_wf s ->
  wanted w s r <-> exists p c, best (priority_add s) (irr s &~ imr s) p
    /\ best (priority_add s) (blocking w s) c /\ p < 8 /\ p < c /\ r = line (priority_add s) p.
Proof.
  intros H. set (add := priority_add s). split.
  - intros (Hr & Hi & Hm & Hmin & Hblk). exists (rank add r).
    destruct (get_priority_spec s (blocking w s) (blocking_inU w s H)) as (c & _ & Hc).
    fold add in Hc. exists c. pose proof (rank_range add r). split; [|split; [exact Hc|]].
    + right. rewrite line_rank by lia. split; [lia|]. split.
      * rewrite Z.ldiff_spec, Hi, Hm. reflexivity.
      * intros i Hi'. rewrite Z.ldiff_spec. intros [? ?%negb_true_iff]%andb_true_iff. auto.
    + split; [lia|]. rewrite line_rank by lia. split; [|reflexivity].
      destruct Hc as [[_ ->]|(Hc1 & Hc2 & _)]; [lia|].
      pose proof (Hblk _ (line_range add c) Hc2) as Hlt. fold add in Hlt.
      rewrite rank_line in Hlt by lia. exact Hlt.
  - intros (p & c & Hp & Hc & Hp8 & Hpc & ->).
    destruct Hp as [[_ ->]|(Hp1 & Hp2 & Hp3)]; [lia|].
    rewrite Z.ldiff_spec in Hp2. apply andb_true_iff in Hp2 as [Hi Hm%negb_true_iff].
    unfold wanted. fold add. rewrite rank_line by lia.
    split; [apply line_range|]. do 2 (split; [assumption|]). split.
    + intros i Hi' Hb1 Hb2. apply Hp3; [exact Hi'|]. rewrite Z.ldiff_spec, Hb1, Hb2. reflexivity.
    + intros i Hi' Hb. destruct Hc as [[Hz ->]|(Hc1 & Hc2 & Hc3)].
      * rewrite Hz, Z.bits_0 in Hb. discriminate.
      * specialize (Hc3 i Hi' Hb). lia.
Qed.

Lemma pic_get_irq_eq w s p c :
  get_priority s (irr s &~ imr s) = Ret p -> get_priority s (blocking w s) = Ret c ->
  pic_get_irq w s = Ret (if (p =? 8) || negb (p <? c) then -1 else line (priority_add s) p).
Proof.
  intros Hp Hc. unfold pic_get_irq. fold (blocking w s). rewrite Hp. simpl.
  destruct (p =? 8); [reflexivity|]. rewrite Hc. simpl. destruct (p <? c); reflexivity.
Qed.

Lemma get_irq_correct w s :
  pic_wf s ->
  exists r, pic_get_irq w s = Ret r /\
    ((r = -1 /\ forall i, ~ wanted w s i) \/ (0 <= r < 8 /\ wanted w s r)).
Proof.
  intros H.
  destruct (get_priority_spec s _ (pending_inU s H)) as (p & Ep & Hp).
  destruct (get_priority_spec s _ (blocking_inU w s H)) as (c & Ec & Hc).
  rewrite (pic_get_irq_eq w s p c Ep Ec). eexists. split; [reflexivity|].
  destruct ((p =? 8) || negb (p <? c)) eqn:E; [left|right].
  - split; [reflexivity|]. intros i Hw. apply wanted_best in Hw; [|exact H].
    destruct Hw as (p' & c' & Hp' & Hc' & H8 & Hlt & _).
    rewrite (best_unique _ _ _ _ Hp' Hp), (best_unique _ _ _ _ Hc' Hc) in *.
    apply orb_true_iff in E as [->%Z.eqb_eq|E%negb_true_iff%Z.ltb_ge]; lia.
  - split; [apply line_range|]. apply wanted_best; [exact H|]. exists p, c.
    apply orb_false_iff in E as [E1%Z.eqb_neq E2%negb_false_iff%Z.ltb_lt].
    repeat split; auto. destruct Hp as [[_ ->]|[? _]]; [congruence|lia].
Qed.

Lemma get_irq_total w s : pic_wf s -> exists r, pic_get_irq w s = Ret r /\ -1 <= r < 8.
Proof.
  intros H. destruct (get_irq_correct w s H) as (r & E & [[-> _]|[Hr _]]);
    eexists; (split; [exact E|lia]).
Qed.

(** ** Every operation keeps the invariant *)

Lemma set_pic_wf s w p : pics_wf s -> pic_wf p -> pics_wf (set_pic s w p).
Proof. intros [H0 H1] Hp. destruct w; split; assumption. Qed.

Lemma pic_at_wf s w : pics_wf s -> pic_wf (pic_at s w).
Proof. intros [H0 H1]. destruct w; assumption. Qed.

Lemma update_irq_wf s : pics_wf s -> exists s', pic_update_irq s = Ret s' /\ pics_wf s'.
Proof.
  intros [H0 H1]. unfold pic_update_irq.
  destruct (get_irq_total Slave _ H1) as (r & -> & _). simpl.
  destruct (0 <=? r); eexists; (split; [reflexivity|]); split; simpl; auto using set_irq1_wf.
Qed.

Lemma intack_wf s irq : pic_wf s -> pic_wf (pic_intack s irq).
Proof.
  intros H. unfold pic_intack. rewrite orb_true_r.
  destruct (nz (auto_eoi s)); [destruct (nz (rotate_on_auto_eoi s))|]; wf_fields H.
Qed.

Lemma read_irq_wf s :
  pics_wf s -> exists v s', pic_read_irq s = Ret (v, s') /\ pics_wf s'.
Proof.
  intros [H0 H1]. unfold pic_read_irq.
  destruct (get_irq_total Master _ H0) as (r & -> & Hr). simpl.
  destruct (get_irq_total Slave _ H1) as (r2 & -> & Hr2). simpl.
  assert (Hend : forall (v : Z) s1, pics_wf s1 ->
    exists v' s', (s2 ← pic_update_irq s1; mret (v, s2)) = Ret (v', s') /\ pics_wf s').
  { intros v s1 Hs1. destruct (update_irq_wf s1 Hs1) as (s2 & -> & Hs2). simpl. eauto. }
  destruct (0 <=? r); simpl; [|apply Hend; split; assumption].
  destruct (r =? 2); [destruct (0 <=? r2)|]; simpl; apply Hend; split; simpl;
    auto using intack_wf.
Qed.

Lemma poll_read_wf w s addr :
  pics_wf s -> exists v s', pic_poll_read w s addr = Ret (v, s') /\ pics_wf s' /\ 0 <= v < 8.
Proof.
  intros H. unfold pic_poll_read.
  destruct (get_irq_total w _ (pic_at_wf s w H)) as (r & -> & Hr). simpl.
  destruct (Z.leb_spec 0 r); simpl.
  - set (s1 := if nz (addr >> 7) then _ else s).
    assert (H1 : pics_wf s1).
    { unfold s1. destruct (nz (addr >> 7)); [|exact H]. destruct H as [Hm Hs].
      split; [wf_fields Hm|exact Hs]. }
    match goal with |- context [set_pic s1 w ?q] =>
      assert (H2 : pics_wf (set_pic s1 w q)) end.
    { apply set_pic_wf; [exact H1|]. pose proof (pic_at_wf s1 w H1) as Hp. wf_fields Hp. }
    destruct (_ || _); simpl.
    + destruct (update_irq_wf _ H2) as (s2 & -> & Hs2). simpl. eauto with lia.
    + eauto with lia.
  - destruct (update_irq_wf _ H) as (s2 & -> & Hs2). simpl. eexists _, _. auto with lia.
Qed.

Lemma ioport_read_wf w s addr :
  pics_wf s -> exists v s', pic_ioport_read w s addr = Ret (v, s') /\ pics_wf s'.
Proof.
  intros H. unfold pic_ioport_read. destruct (nz _); [|eauto].
  destruct (poll_read_wf w s addr H) as (v & s' & -> & H' & _). simpl.
  eexists _, _. split; [reflexivity|]. apply set_pic_wf; [exact H'|].
  pose proof (pic_at_wf s' w H') as Hp. wf_fields Hp.
Qed.

Lemma intack_read_wf s :
  pics_wf s -> exists v s', pic_intack_read s = Ret (v, s') /\ pics_wf s'.
Proof.
  intros H. unfold pic_intack_read.
  assert (Hend : forall s1, pics_wf s1 ->
    pics_wf (mk_pics (set_read_reg_select (pic0 s1) 1) (pic1 s1))).
  { intros s1 [Hm Hs]. split; [wf_fields Hm|exact Hs]. }
  destruct (poll_read_wf Master s 0x00 H) as (v & s' & -> & H' & _). simpl.
  destruct (v =? 2).
  - destruct (poll_read_wf Slave s' 0x80 H') as (v2 & s2 & -> & H2 & _). simpl.
    eexists _, _. split; [reflexivity|]. apply Hend, H2.
  - simpl. eexists _, _. split; [reflexivity|]. apply Hend, H'.
Qed.

(** The command of [val] is an ICW1 asking for a mode the emulation lacks. *)
Definition unsupported_icw1 (addr val : Z) : bool :=
  (addr &! 1 =? 0) && nz (val &! 0x10) && (nz (val &! 0x02) || nz (val &! 0x08)).

Lemma ioport_write_wf w s addr val :
  pics_wf s -> inU 32 val ->
  if unsupported_icw1 addr val then pic_ioport_write w s addr val = Stop Panic
  else exists s', pic_ioport_write w s addr val = Ret s' /\ pics_wf s'.
Proof.
  intros H Hv. unfold pic_ioport_write, unsupported_icw1.
  pose proof (pic_at_wf s w H) as Hp. set (p := pic_at s w) in *.
  assert (Hupd : forall q, pic_wf q -> exists s', pic_update_irq (set_pic s w q) = Ret s'
    /\ pics_wf s') by (intros q Hq; apply update_irq_wf, set_pic_wf; assumption).
  assert (Hset : forall q, pic_wf q -> exists s', mret (set_pic s w q) = Ret s' /\ pics_wf s')
    by (intros q Hq; eexists; split; [reflexivity|apply set_pic_wf; assumption]).
  assert (Hsame : exists s', mret s = Ret s' /\ pics_wf s') by eauto.
  destruct (Z.eqb_spec (addr &! 1) 0); simpl.
  - destruct (nz (val &! 0x10)); simpl.
    { destruct (nz (val &! 0x02)); [reflexivity|].
      destruct (nz (val &! 0x08)); [reflexivity|]. apply Hset. wf_fields Hp. }
    destruct (nz (val &! 0x08)).
    { apply Hset. destruct (nz (val &! 0x04)), (nz (val &! 0x02)), (nz (val &! 0x40));
        wf_fields Hp. }
    destruct (Z.eqb_spec (val >> 5) 0) as [E|]; [apply Hset; rewrite E; wf_fields Hp|].
    destruct (Z.eqb_spec (val >> 5) 4) as [E|]; [apply Hset; rewrite E; wf_fields Hp|].
    simpl. destruct (_ || _).
    { destruct (get_priority_spec p (isr p) (wf_isr p Hp)) as (k & -> & _). simpl.
      destruct (k =? 8); simpl; [exact Hsame|]. apply Hupd. destruct (_ =? 5); wf_fields Hp. }
    repeat (destruct (_ =? _); [apply Hupd; wf_fields Hp|]). exact Hsame.
  - pose proof (land_f8 val Hv) as Hf8.
    destruct (init_state p) as [|[[]|[]|]|] eqn:E; try exact Hsame;
      first [apply Hupd|apply Hset]; try (wf_fields Hp; fail).
    destruct (nz (init4 p)); wf_fields Hp.
Qed.

Lemma elcr_write_wf w s addr val : pics_wf s -> pics_wf (elcr_ioport_write w s addr val).
Proof.
  intros H. apply set_pic_wf; [exact H|]. pose proof (pic_at_wf s w H) as Hp. wf_fields Hp.
Qed.

Lemma set_irq_wf s irq level :
  pics_wf s -> 0 <= irq < 16 -> exists s', pic_set_irq s irq level = Ret s' /\ pics_wf s'.
Proof.
  intros [H0 H1] Hi. unfold pic_set_irq. rewrite Z.shiftr_div_pow2 by lia.
  assert (irq / 2 ^ 3 = 0 \/ irq / 2 ^ 3 = 1) as [-> | ->] by (Z.div_mod_to_equations; lia);
    eexists; (split; [reflexivity|]); split; simpl; auto using set_irq1_wf.
Qed.

(** ** Runs *)

Inductive pic_op :=
| SetIrq (irq : Z) (level : bool)
| ReadIrq
| IoWrite (w : which) (addr val : Z)
| IoRead (w : which) (addr : Z)
| IntackRead
| ElcrWrite (w : which) (addr val : Z).

Definition pic_exec (o : pic_op) (s : PicState2) : res PicState2 :=
  match o with
  | SetIrq irq level => pic_set_irq s irq level
  | ReadIrq => snd <$> pic_read_irq s
  | IoWrite w addr val => pic_ioport_write w s addr val
  | IoRead w addr => snd <$> pic_ioport_read w s addr
  | IntackRead => snd <$> pic_intack_read s
  | ElcrWrite w addr val => mret (elcr_ioport_write w s addr val)
  end.

Fixpoint pic_run (ops : list pic_op) (s : PicState2) : res PicState2 :=
  match ops with
  | [] => mret s
  | o :: ops => s' ← pic_exec o s; pic_run ops s'
  end.

Definition valid_op (o : pic_op) : Prop :=
  match o with
  | SetIrq irq _ => 0 <= irq < 16
  | IoWrite _ _ val => inU 32 val
  | _ => True
  end.

Definition halting_op (o : pic_op) : bool :=
  match o with IoWrite _ addr val => unsupported_icw1 addr val | _ => false end.

Lemma pic_exec_wf o s :
  pics_wf s -> valid_op o ->
  if halting_op o then pic_exec o s = Stop Panic
  else exists s', pic_exec o s = Ret s' /\ pics_wf s'.
Proof.
  intros H Hv. destruct o; simpl in *.
  - apply set_irq_wf; assumption.
  - destruct (read_irq_wf s H) as (v & s' & -> & ?). simpl. eauto.
  - apply ioport_write_wf; assumption.
  - destruct (ioport_read_wf w s addr H) as (v & s' & -> & ?). simpl. eauto.
  - destruct (intack_read_wf s H) as (v & s' & -> & ?). simpl. eauto.
  - eexists. split; [reflexivity|]. apply elcr_write_wf, H.
Qed.

Lemma pic_init_wf s : pics_wf (pic_init s).
Proof. split; (split; simpl; auto 10 with pic); try inU_num; repeat split; auto with pic. Qed.

(** C3: whatever the guest, the devices and the processor do to the
    controllers after [pic_init], they stay well formed (registers are bytes,
    the rotation is a line number, the vector base a multiple of 8, the
    initialisation state one of the four), no access leaves the two
    controllers and no priority search fails to end; the machine halts only
    on an initialisation word for a mode that is not emulated. *)
Theorem pic_run_safe s0 ops :
  Forall valid_op ops ->
  match pic_run ops (pic_init s0) with
  | Ret s => pics_wf s
  | Stop e => e = Panic /\ existsb halting_op ops = true
  end.
Proof.
  generalize (pic_init_wf s0). generalize (pic_init s0).
  induction ops as [|o ops IH]; intros s Hwf Hv; simpl; [exact Hwf|].
  inversion_clear Hv as [|? ? Hv1 Hv2]. pose proof (pic_exec_wf o s Hwf Hv1) as He.
  destruct (halting_op o); simpl.
  - rewrite He. simpl. auto.
  - destruct He as (s' & -> & Hs'). simpl. apply IH; assumption.
Qed.

Definition blank : PicState :=
  mk_pic 0 0 0 0 0 0 0 0 0 0 0 0 0 0 0 0.

Lemma pic_run_safe_witness :
  match pic_run [IoWrite Master 0x20 0x11; IoWrite Master 0x21 0x20; IoWrite Master 0x21 4;
                 IoWrite Master 0x21 1; SetIrq 3 true; ReadIrq; IoWrite Master 0x20 0x20]
          (pic_init (mk_pics blank blank)) with
  | Ret s => pics_wf s /\ irq_base (pic0 s) = 0x20
  | Stop _ => False
  end.
Proof.
  pose proof (pic_run_safe (mk_pics blank blank)
    [IoWrite Master 0x20 0x11; IoWrite Master 0x21 0x20; IoWrite Master 0x21 4;
     IoWrite Master 0x21 1; SetIrq 3 true; ReadIrq; IoWrite Master 0x20 0x20]) as P.
  destruct (pic_run _ _) as [s|e] eqn:E.
  - split; [apply P; repeat constructor; simpl; try lia|].
    vm_compute in E. injection E as <-. reflexivity.
  - vm_compute in E. discriminate.
Defined.

(** [pic_get_irq] returns the line that is requested and not masked, has
    the best priority under the current rotation, and strictly beats every
    line in service (the cascade line excepted on a master in special fully
    nested mode); it returns -1 exactly when there is no such line. *)
Theorem pic_get_irq_spec w s :
  pic_wf s ->
  exists r, pic_get_irq w s = Ret r /\
    ((r = -1 /\ forall i, ~ wanted w s i) \/ (0 <= r < 8 /\ wanted w s r)).
Proof. apply get_irq_correct. Qed.

(** A controller with lines 1 and 5 requested, line 3 in service and the
    rotation at 4, so that line 5 precedes line 3. *)
Definition rotated : PicState :=
  mk_pic 0x22 0x22 0 0x08 4 0x20 0 0 0 0 0 0 0 0 0xff 0xf8.

Lemma rotated_wf : pic_wf rotated.
Proof. split; try inU_num; simpl; auto with pic; repeat split; auto with pic; lia. Qed.

Lemma pic_get_irq_spec_witness :
  pic_get_irq Master rotated = Ret 5 /\ wanted Master rotated 5.
Proof.
  destruct (pic_get_irq_spec Master rotated rotated_wf) as (r & E & H).
  split; [reflexivity|]. vm_compute in E. injection E as <-.
  destruct H as [[H _]|[_ H]]; [discriminate|exact H].
Defined.

(** ** Acknowledge and end of interrupt *)

(** The fields of the master that [pic_update_irq] leaves alone. *)
Lemma update_irq_frame s s' :
  pic_update_irq s = Ret s' ->
  pic1 s' = pic1 s /\ isr (pic0 s') = isr (pic0 s)
  /\ priority_add (pic0 s') = priority_add (pic0 s)
  /\ special_fully_nested_mode (pic0 s') = special_fully_nested_mode (pic0 s)
  /\ auto_eoi (pic0 s') = auto_eoi (pic0 s) /\ irq_base (pic0 s') = irq_base (pic0 s)
  /\ elcr (pic0 s') = elcr (pic0 s) /\ elcr_mask (pic0 s') = elcr_mask (pic0 s).
Proof.
  unfold pic_update_irq. rewrite bind_Ret. intros (r & _ & E).
  destruct (0 <=? r); injection E as <-; simpl; [|auto 10].
  unfold pic_set_irq1. destruct (nz _); simpl; [auto 10|].
  destruct (_ =? 0); simpl; auto 10.
Qed.

(** What acknowledging line [r] does to a controller without automatic EOI. *)
Lemma intack_isr s r :
  pic_wf s -> auto_eoi s = 0 -> 0 <= r < 8 -> isr (pic_intack s r) = isr s |! (1 << r)
  /\ priority_add (pic_intack s r) = priority_add s
  /\ special_fully_nested_mode (pic_intack s r) = special_fully_nested_mode s.
Proof.
  intros H Ha Hr. unfold pic_intack. rewrite orb_true_r, Ha. simpl.
  rewrite wrap_id; [auto|]. apply inU_lor; [lia|apply (wf_isr s H)|apply inU_bit; lia].
Qed.

Lemma wanted_not_in_service s r :
  special_fully_nested_mode s = 0 -> wanted Master s r -> Z.testbit (isr s) r = false.
Proof.
  intros Hn (Hr & _ & _ & _ & Hb). destruct (Z.testbit (isr s) r) eqn:E; [|reflexivity].
  specialize (Hb r Hr). unfold blocking in Hb. rewrite Hn in Hb. simpl in Hb.
  specialize (Hb E). lia.
Qed.

(** A line of best priority is what a non-specific EOI ends. *)
Lemma best_lor s r :
  pic_wf s -> special_fully_nested_mode s = 0 -> wanted Master s r ->
  best (priority_add s) (isr s |! (1 << r)) (rank (priority_add s) r).
Proof.
  intros Hwf Hn (Hr & _ & _ & _ & Hb). right. rewrite line_rank by lia.
  split; [apply rank_range|]. split.
  - rewrite Z.lor_spec, testbit_bit, Z.eqb_refl, orb_true_r by lia. reflexivity.
  - intros i Hi. rewrite Z.lor_spec, testbit_bit by lia.
    intros [E| ->%Z.eqb_eq]%orb_true_iff; [|lia].
    specialize (Hb i Hi). unfold blocking in Hb. rewrite Hn in Hb. specialize (Hb E). lia.
Qed.

Lemma clear_set_bit x r : 0 <= r -> Z.testbit x r = false -> (x |! (1 << r)) &~ (1 << r) = x.
Proof.
  intros Hr Hb. bits_eq. destruct (Z.eqb_spec i r) as [->|]; simpl.
  - rewrite Hb. reflexivity.
  - rewrite orb_false_r, andb_true_r. reflexivity.
Qed.

Lemma eoi_write s r :
  best (priority_add (pic0 s)) (isr (pic0 s)) (rank (priority_add (pic0 s)) r) ->
  pics_wf s -> 0 <= r < 8 -> exists s', pic_ioport_write Master s 0x20 0x20 = Ret s'
  /\ isr (pic0 s') = isr (pic0 s) &~ (1 << r).
Proof.
  intros Hbest Hwf Hr. unfold pic_ioport_write. simpl (pic_at s Master).
  change (nz (0x20 &! 0x10)) with false. change (nz (0x20 &! 0x08)) with false.
  change (0x20 &! 1 =? 0) with true. change (0x20 >> 5) with 1. cbn [orb Z.eqb Pos.eqb].
  destruct (get_priority_spec (pic0 s) (isr (pic0 s))) as (p & -> & Hp);
    [apply wf_isr, Hwf|].
  rewrite (best_unique _ _ _ _ Hp Hbest). simpl (_ ≫= _).
  pose proof (rank_range (priority_add (pic0 s)) r).
  rewrite (proj2 (Z.eqb_neq _ _)) by lia. cbn [negb].
  fold (line (priority_add (pic0 s)) (rank (priority_add (pic0 s)) r)).
  rewrite line_rank by lia.
  destruct (update_irq_wf (set_pic s Master
    (set_isr (pic0 s) (isr (pic0 s) &~ (1 << r))))) as (s' & E & _).
  { apply set_pic_wf; [exact Hwf|]. destruct Hwf as [Hp0 _]. wf_fields Hp0. }
  exists s'. split; [exact E|]. apply update_irq_frame in E as (_ & -> & _). reflexivity.
Qed.

(** On a master in ordinary nested mode, acknowledging the wanted line
    [r] puts exactly [r] in service; until it ends, only lines of strictly
    better priority are wanted; and the non-specific EOI command then ends
    [r] and leaves in service exactly what was before the interrupt. *)
Theorem pic_ack_then_eoi s r :
  pics_wf s -> auto_eoi (pic0 s) = 0 -> special_fully_nested_mode (pic0 s) = 0 ->
  pic_get_irq Master (pic0 s) = Ret r -> 0 <= r ->
  exists v s1 s2, pic_read_irq s = Ret (v, s1)
  /\ isr (pic0 s1) = isr (pic0 s) |! (1 << r) /\ Z.testbit (isr (pic0 s)) r = false
  /\ (forall r', pic_get_irq Master (pic0 s1) = Ret r' -> r' = -1
        \/ rank (priority_add (pic0 s)) r' < rank (priority_add (pic0 s)) r)
  /\ pic_ioport_write Master s1 0x20 0x20 = Ret s2 /\ isr (pic0 s2) = isr (pic0 s).
Proof.
  intros Hwf Ha Hn Hg H0. pose proof Hwf as [Hwf0 Hwf1].
  destruct (get_irq_correct Master _ Hwf0) as (r' & Hg' & Hw). rewrite Hg in Hg'.
  injection Hg' as <-. destruct Hw as [[-> _]|[Hr Hw]]; [lia|].
  destruct (intack_isr (pic0 s) r Hwf0 Ha Hr) as (Hisr & Hadd & Hsf).
  destruct (read_irq_wf s Hwf) as (v & s1 & E & Hwf1').
  assert (F : isr (pic0 s1) = isr (pic0 s) |! (1 << r)
    /\ priority_add (pic0 s1) = priority_add (pic0 s)
    /\ special_fully_nested_mode (pic0 s1) = 0).
  { pose proof E as E'. unfold pic_read_irq in E'. rewrite Hg in E'. simpl in E'.
    rewrite (proj2 (Z.leb_le 0 r)) in E' by lia.
    rewrite <- Hisr, <- Hadd, <- Hn, <- Hsf.
    apply bind_Ret in E' as ([v' s'] & Eacc & E').
    apply bind_Ret in E' as (s2 & Eupd & E'). injection E' as _ <-.
    apply update_irq_frame in Eupd as (_ & -> & -> & -> & _).
    destruct (r =? 2); [|injection Eacc as _ <-; auto].
    apply bind_Ret in Eacc as (r2 & _ & Eacc).
    destruct (0 <=? r2); injection Eacc as _ <-; auto. }
  destruct F as (F1 & F2 & F3). exists v, s1.
  pose proof (wanted_not_in_service (pic0 s) r Hn Hw) as Hbit.
  destruct (eoi_write s1 r) as (s2 & Es2 & Hs2); [|exact Hwf1'|exact Hr|].
  { rewrite F1, F2. apply best_lor; assumption. }
  exists s2. split; [exact E|]. do 2 (split; [assumption|]). split; [|split; [exact Es2|]].
  - intros r' Hg'. destruct (get_irq_correct Master (pic0 s1)) as (r'' & Hg'' & Hw');
      [apply Hwf1'|].
    rewrite Hg' in Hg''. injection Hg'' as <-. destruct Hw' as [[? _]|[_ Hw']]; [auto|].
    right. destruct Hw' as (_ & _ & _ & _ & Hblk). rewrite <- F2. apply Hblk; [exact Hr|].
    unfold blocking. rewrite F3, F1. simpl.
    rewrite Z.lor_spec, testbit_bit, Z.eqb_refl, orb_true_r by lia. reflexivity.
  - rewrite Hs2, F1. apply clear_set_bit; [lia|exact Hbit].
Qed.

Lemma pic_ack_then_eoi_witness :
  exists v s1 s2, pic_read_irq (mk_pics rotated blank) = Ret (v, s1)
  /\ isr (pic0 s1) = 0x28 /\ Z.testbit 0x08 5 = false
  /\ (forall r', pic_get_irq Master (pic0 s1) = Ret r' -> r' = -1 \/ rank 4 r' < rank 4 5)
  /\ pic_ioport_write Master s1 0x20 0x20 = Ret s2 /\ isr (pic0 s2) = 0x08.
Proof.
  apply (pic_ack_then_eoi (mk_pics rotated blank) 5); try reflexivity; [|lia].
  split; [exact rotated_wf|]. split; try inU_num; simpl; auto with pic; repeat split; auto with pic; lia.
Defined.

(** ** Initialisation sequence *)

(** The controller after ICW1 to ICW4. *)
Definition initialised (p : PicState) (icw2 icw4 : Z) : PicState :=
  mk_pic 0 0 0 0 0 (icw2 &! 0xf8) 0 0 0 0 ((icw4 >> 1) &! 1) 0 ((icw4 >> 4) &! 1) 1
    (elcr p) (elcr_mask p).

(** The four initialisation words, written in order from any state,
    leave the controller with the vector base, automatic-EOI and nesting mode
    of the words, everything else but the trigger modes cleared, in normal
    operation, and the other controller untouched. *)
Theorem pic_icw_sequence w s icw2 icw3 icw4 :
  (s1 ← pic_ioport_write w s 0x20 0x11;
   s2 ← pic_ioport_write w s1 0x21 icw2;
   s3 ← pic_ioport_write w s2 0x21 icw3;
   pic_ioport_write w s3 0x21 icw4)
  = Ret (set_pic s w (initialised (pic_at s w) icw2 icw4)).
Proof. destruct s, w; reflexivity. Qed.

(** ** The cascade line

    The slave reaches the processor through line 2 of the master, which
    [pic_update_irq] raises and nothing lowers. *)

Record cascade_stuck (p : PicState) : Prop := {
  stuck_mask : Z.testbit (elcr_mask p) 2 = false;
  stuck_edge : Z.testbit (elcr p) 2 = false;
  stuck_high : Z.testbit (last_irr p) 2 = true;
  stuck_clear : Z.testbit (irr p) 2 = false }.

Lemma stuck_set_irq1_2 p : cascade_stuck p -> cascade_stuck (pic_set_irq1 p 2 true).
Proof.
  intros [Hm He Hh Hc]. unfold pic_set_irq1. rewrite land_bit_nz, He by lia.
  pose proof (land_bit_nz (last_irr p) 2 ltac:(lia)) as Hl. unfold nz in Hl.
  rewrite Hh in Hl. destruct (_ =? 0); [discriminate|].
  split; try assumption. cbn [last_irr set_last_irr].
  rewrite testbit_wrap, Z.lor_spec, Hh by lia. reflexivity.
Qed.

Lemma stuck_update s s' :
  cascade_stuck (pic0 s) -> pic_update_irq s = Ret s' -> cascade_stuck (pic0 s').
Proof.
  intros H. unfold pic_update_irq. rewrite bind_Ret. intros (r & _ & E).
  destruct (0 <=? r); injection E as <-; [|exact H]. apply stuck_set_irq1_2, H.
Qed.

Lemma stuck_set_irq1 p irq level :
  0 <= irq < 8 -> irq <> 2 -> cascade_stuck p -> cascade_stuck (pic_set_irq1 p irq level).
Proof.
  intros Hi Hne [Hm He Hh Hc]. unfold pic_set_irq1.
  destruct (nz _), level; [| |destruct (_ =? 0)|]; split; try assumption;
    cbn [last_irr irr set_last_irr set_irr];
    rewrite ?testbit_wrap, ?Z.lor_spec, ?Z.ldiff_spec, ?testbit_bit by lia;
    rewrite ?Hh, ?Hc, ?(proj2 (Z.eqb_neq 2 irq)) by lia; reflexivity.
Qed.

(** Changing other fields, or clearing requests, leaves the line stuck. *)
Lemma stuck_ext p q :
  cascade_stuck p -> elcr_mask q = elcr_mask p -> elcr q = elcr p ->
  last_irr q = last_irr p ->
  (irr q = irr p \/ exists m, irr q = irr p &~ m) -> cascade_stuck q.
Proof.
  intros [Hm He Hh Hc] E1 E2 E3 E4. split; rewrite ?E1, ?E2, ?E3; try assumption.
  destruct E4 as [->|[m ->]]; [assumption|]. rewrite Z.ldiff_spec, Hc. reflexivity.
Qed.

Ltac stuck_fields H := apply (stuck_ext _ _ H); simpl; eauto.

Lemma stuck_intack p r : cascade_stuck p -> cascade_stuck (pic_intack p r).
Proof.
  intros H. unfold pic_intack. rewrite orb_true_r.
  destruct (nz _); [destruct (nz _)|]; stuck_fields H.
Qed.

Lemma stuck_read_irq s v s' :
  cascade_stuck (pic0 s) -> pic_read_irq s = Ret (v, s') -> cascade_stuck (pic0 s').
Proof.
  intros H. unfold pic_read_irq. rewrite bind_Ret. intros (r & _ & E).
  apply bind_Ret in E as ([v' s1] & E1 & E). apply bind_Ret in E as (s2 & E2 & E).
  injection E as _ <-. eapply stuck_update; [|exact E2].
  destruct (0 <=? r); [|injection E1 as _ <-; exact H].
  destruct (r =? 2).
  - apply bind_Ret in E1 as (r2 & _ & E1).
    destruct (0 <=? r2); injection E1 as _ <-; apply stuck_intack, H.
  - injection E1 as _ <-. apply stuck_intack, H.
Qed.

Lemma stuck_poll_read w s addr v s' :
  cascade_stuck (pic0 s) -> pic_poll_read w s addr = Ret (v, s') -> cascade_stuck (pic0 s').
Proof.
  intros H. unfold pic_poll_read. rewrite bind_Ret. intros (r & _ & E).
  destruct (0 <=? r).
  - set (s1 := if nz (addr >> 7) then _ else s) in E.
    assert (H1 : cascade_stuck (pic0 s1))
      by (unfold s1; destruct (nz (addr >> 7)); [stuck_fields H|exact H]).
    match type of E with context [set_pic s1 w ?q] =>
      assert (H2 : cascade_stuck (pic0 (set_pic s1 w q)))
        by (destruct w; [stuck_fields H1|exact H1]) end.
    destruct (_ || _).
    + apply bind_Ret in E as (s2 & E2 & E). injection E as _ <-.
      eapply stuck_update; [exact H2|exact E2].
    + injection E as _ <-. exact H2.
  - apply bind_Ret in E as (s2 & E2 & E). injection E as _ <-.
    eapply stuck_update; [exact H|exact E2].
Qed.

Lemma stuck_ioport_read w s addr v s' :
  cascade_stuck (pic0 s) -> pic_ioport_read w s addr = Ret (v, s') -> cascade_stuck (pic0 s').
Proof.
  intros H. unfold pic_ioport_read. destruct (nz _).
  - rewrite bind_Ret. intros ([v' s1] & E1 & E). injection E as _ <-.
    apply stuck_poll_read in E1; [|exact H]. destruct w; [stuck_fields E1|exact E1].
  - intros [= _ <-]. exact H.
Qed.

Lemma stuck_intack_read s v s' :
  cascade_stuck (pic0 s) -> pic_intack_read s = Ret (v, s') -> cascade_stuck (pic0 s').
Proof.
  intros H. unfold pic_intack_read. rewrite bind_Ret. intros ([v1 s1] & E1 & E).
  apply stuck_poll_read in E1; [|exact H].
  apply bind_Ret in E as ([v2 s2] & E2 & E). injection E as _ <-.
  assert (H2 : cascade_stuck (pic0 s2)).
  { destruct (v1 =? 2); [|injection E2 as _ <-; exact E1].
    apply bind_Ret in E2 as ([v3 s3] & E3 & E2). injection E2 as _ <-.
    eapply stuck_poll_read; eassumption. }
  stuck_fields H2.
Qed.

(** The operations that can free the line: ICW1 to the master, and a device
    driving line 2 itself. *)
Definition touches_cascade (o : pic_op) : bool :=
  match o with
  | SetIrq irq _ => irq =? 2
  | IoWrite Master addr val => (addr &! 1 =? 0) && nz (val &! 0x10)
  | _ => false
  end.

Lemma stuck_ioport_write w s addr val s' :
  cascade_stuck (pic0 s) -> touches_cascade (IoWrite w addr val) = false ->
  pic_ioport_write w s addr val = Ret s' -> cascade_stuck (pic0 s').
Proof.
  intros H Ht E.
  assert (Hset : forall q, (elcr_mask q = elcr_mask (pic_at s w) /\ elcr q = elcr (pic_at s w)
    /\ last_irr q = last_irr (pic_at s w) /\ irr q = irr (pic_at s w)) ->
    cascade_stuck (pic0 (set_pic s w q))).
  { intros q (E1 & E2 & E3 & E4). destruct w; simpl in *; [|exact H].
    apply (stuck_ext _ _ H); auto. }
  unfold pic_ioport_write in E. simpl in Ht.
  destruct (addr &! 1 =? 0).
  - destruct (nz (val &! 0x10)).
    { destruct w; [discriminate|]. simpl in E.
      destruct (nz _); [discriminate|]. destruct (nz _); [discriminate|].
      injection E as <-. exact H. }
    destruct (nz (val &! 0x08)).
    { injection E as <-. apply Hset. destruct (nz _), (nz _), (nz _); simpl; auto. }
    destruct (_ || _); [injection E as <-; apply Hset; simpl; auto|].
    destruct (_ || _).
    { apply bind_Ret in E as (p & _ & E). destruct (negb _); [|injection E as <-; exact H].
      eapply stuck_update; [apply Hset|exact E]. destruct (_ =? 5); simpl; auto. }
    repeat (destruct (_ =? _); [eapply stuck_update; [apply Hset|exact E]; simpl; auto|]).
    injection E as <-. exact H.
  - destruct (init_state (pic_at s w)) as [|[[]|[]|]|];
      try (injection E as <-); try exact H; try (apply Hset; simpl; auto; fail).
    eapply stuck_update; [apply Hset|exact E]. simpl. auto.
Qed.

Lemma stuck_exec o s s' :
  cascade_stuck (pic0 s) -> valid_op o -> touches_cascade o = false ->
  pic_exec o s = Ret s' -> cascade_stuck (pic0 s').
Proof.
  intros H Hv Ht. destruct o; cbn [pic_exec].
  - simpl in Hv, Ht. unfold pic_set_irq. rewrite Z.shiftr_div_pow2 by lia.
    assert (irq / 2 ^ 3 = 0 \/ irq / 2 ^ 3 = 1) as [E|E] by (Z.div_mod_to_equations; lia);
      rewrite E; intros [= <-]; [|exact H].
    apply Z.eqb_neq in Ht. assert (irq &! 7 = irq) as ->.
    { change 7 with (Z.ones 3). rewrite Z.land_ones by lia. apply Z.mod_small.
      Z.div_mod_to_equations. lia. }
    apply stuck_set_irq1; [Z.div_mod_to_equations; lia|exact Ht|exact H].
  - destruct (pic_read_irq s) as [[v s1]|] eqn:E; [|discriminate]. intros [= <-].
    eapply stuck_read_irq; eassumption.
  - apply stuck_ioport_write; assumption.
  - destruct (pic_ioport_read w s addr) as [[v s1]|] eqn:E; [|discriminate]. intros [= <-].
    eapply stuck_ioport_read; eassumption.
  - destruct (pic_intack_read s) as [[v s1]|] eqn:E; [|discriminate]. intros [= <-].
    eapply stuck_intack_read; eassumption.
  - intros [= <-]. destruct w; [|exact H]. destruct H as [Hm He Hh Hc].
    split; cbn [elcr_ioport_write set_pic pic0 pic_at elcr set_elcr]; try assumption.
    rewrite testbit_wrap, Z.land_spec, Hm, andb_false_r by lia. reflexivity.
Qed.

(** While the line is stuck, no vector of the slave is ever delivered. *)
Lemma stuck_no_slave s :
  pics_wf s -> cascade_stuck (pic0 s) ->
  exists r s', pic_read_irq s = Ret (irq_base (pic0 s) + r, s') /\ 0 <= r < 8.
Proof.
  intros Hwf H. pose proof Hwf as [H0 H1].
  destruct (get_irq_correct Master _ H0) as (r & E & Hr). unfold pic_read_irq. rewrite E.
  assert (Hne : r <> 2).
  { intros ->. destruct Hr as [[? _]|[_ (_ & Hi & _)]]; [discriminate|].
    rewrite (stuck_clear _ H) in Hi. discriminate. }
  simpl. destruct (Z.leb_spec 0 r).
  - rewrite (proj2 (Z.eqb_neq r 2) Hne). simpl.
    destruct (update_irq_wf (mk_pics (pic_intack (pic0 s) r) (pic1 s))) as (s' & -> & _);
      [split; simpl; auto using intack_wf|].
    assert (irq_base (pic_intack (pic0 s) r) = irq_base (pic0 s)) as ->.
    { unfold pic_intack. rewrite orb_true_r. destruct (nz _); [destruct (nz _)|]; reflexivity. }
    exists r, s'. split; [reflexivity|lia].
  - simpl. destruct (update_irq_wf s Hwf) as (s' & -> & _). exists 7, s'.
    split; [reflexivity|lia].
Qed.

Lemma stuck_run ops : forall s s',
  pics_wf s -> cascade_stuck (pic0 s) -> Forall valid_op ops ->
  existsb touches_cascade ops = false -> pic_run ops s = Ret s' ->
  pics_wf s' /\ cascade_stuck (pic0 s').
Proof.
  induction ops as [|o ops IH]; intros s s' Hwf H Hv Ht E.
  - injection E as <-. auto.
  - inversion_clear Hv as [|? ? Hv1 Hv2]. simpl in Ht. apply orb_false_iff in Ht as [Ht1 Ht2].
    simpl in E. apply bind_Ret in E as (s1 & E1 & E).
    pose proof (pic_exec_wf o s Hwf Hv1) as He. destruct (halting_op o); [congruence|].
    destruct He as (s1' & E1' & Hwf1). rewrite E1 in E1'. injection E1' as <-.
    eapply IH; eauto using stuck_exec.
Qed.

(** Once the guest has made the cascade line edge triggered (as any write
    to the master's ELCR does) and a slave interrupt has been taken, no later
    run of operations delivers a slave interrupt again until the master is
    re-initialised or a device drives line 2: the call that would lower the
    cascade line is commented out of [pic_update_irq]. *)
Theorem pic_cascade_lost s ops s' :
  pics_wf s -> cascade_stuck (pic0 s) -> Forall valid_op ops ->
  existsb touches_cascade ops = false -> pic_run ops s = Ret s' ->
  cascade_stuck (pic0 s')
  /\ exists r s'', pic_read_irq s' = Ret (irq_base (pic0 s') + r, s'') /\ 0 <= r < 8.
Proof.
  intros Hwf H Hv Ht E. destruct (stuck_run ops s s') as [Hwf' H']; try assumption.
  split; [exact H'|]. apply stuck_no_slave; assumption.
Qed.

(** The state after the guest initialises both controllers, writes the
    master's ELCR, and one slave interrupt (line 8) has been delivered. *)
Definition after_first_slave_irq : res PicState2 :=
  pic_run [IoWrite Master 0x20 0x11; IoWrite Master 0x21 0x20; IoWrite Master 0x21 4;
           IoWrite Master 0x21 1; IoWrite Slave 0xa0 0x11; IoWrite Slave 0xa1 0x28;
           IoWrite Slave 0xa1 2; IoWrite Slave 0xa1 1; ElcrWrite Master 0x4d0 0;
           SetIrq 8 true; IoWrite Master 0x21 0; ReadIrq;
           IoWrite Slave 0xa0 0x20; IoWrite Master 0x20 0x20]
    (pic_init (mk_pics blank blank)).

Definition state_of (r : res PicState2) : PicState2 :=
  match r with Ret s => s | Stop _ => mk_pics blank blank end.

Lemma after_first_slave_irq_wf : pics_wf (state_of after_first_slave_irq).
Proof.
  split; (split; try inU_num; repeat split; auto with pic; vm_compute; try congruence;
          try (left; reflexivity); try (right; reflexivity)).
Qed.

(** A second slave interrupt (line 9) is requested, unmasked and wanted on
    the slave, yet the processor reads a spurious vector of the master. *)
Lemma pic_cascade_lost_witness :
  match pic_run [SetIrq 9 true; IoWrite Master 0x21 0] (state_of after_first_slave_irq) with
  | Ret s => pic_get_irq Slave (pic1 s) = Ret 1
      /\ exists r s'', pic_read_irq s = Ret (irq_base (pic0 s) + r, s'') /\ 0 <= r < 8
  | Stop _ => False
  end.
Proof.
  destruct (pic_run [SetIrq 9 true; IoWrite Master 0x21 0] (state_of after_first_slave_irq))
    as [s|e] eqn:E; [|vm_compute in E; discriminate].
  split; [vm_compute in E; injection E as <-; reflexivity|].
  apply (pic_cascade_lost (state_of after_first_slave_irq)
           [SetIrq 9 true; IoWrite Master 0x21 0] s); try assumption; try reflexivity.
  - apply after_first_slave_irq_wf.
  - split; reflexivity.
  - repeat constructor; simpl; lia.
Defined.

(** Every vector the processor reads is the base of one of the controllers
    plus a line number. *)
Lemma read_irq_vector s v s' :
  pics_wf s -> pic_read_irq s = Ret (v, s') ->
  exists r, 0 <= r < 8 /\ (v = irq_base (pic0 s) + r \/ v = irq_base (pic1 s) + r).
Proof.
  intros [H0 H1]. unfold pic_read_irq.
  destruct (get_irq_total Master _ H0) as (r & -> & Hr).
  destruct (get_irq_total Slave _ H1) as (r2 & E2 & Hr2). simpl. intros E.
  apply bind_Ret in E as ([v1 s1] & E1 & E). apply bind_Ret in E as (s2 & _ & E).
  injection E as <- _.
  assert (Hb : forall p i, irq_base (pic_intack p i) = irq_base p).
  { intros p i. unfold pic_intack. rewrite orb_true_r.
    destruct (nz _); [destruct (nz _)|]; reflexivity. }
  destruct (Z.leb_spec 0 r); simpl in E1.
  - destruct (r =? 2).
    + rewrite E2 in E1. simpl in E1. destruct (Z.leb_spec 0 r2); injection E1 as <- _.
      * rewrite Hb. exists r2. split; [lia|auto].
      * exists 7. split; [lia|auto].
    + injection E1 as <- _. rewrite Hb. exists r. split; [lia|auto].
  - injection E1 as <- _. exists 7. split; [lia|auto].
Qed.

(** When the slave's vectors follow the master's, every vector
    [pic_read_irq] delivers is recognised by [pic_is_external_interrupt]; the
    test looks only at the master's base, so with any other slave base (the
    PC BIOS uses 0x08 and 0x70) it refuses vectors of the slave. *)
Theorem pic_external_vectors s v s' :
  pics_wf s -> pic_read_irq s = Ret (v, s') ->
  (irq_base (pic1 s) = irq_base (pic0 s) + 8 -> pic_is_external_interrupt s v = true)
  /\ (irq_base (pic0 s) = 0x08 -> irq_base (pic1 s) = 0x70 -> 0x70 <= v ->
      pic_is_external_interrupt s v = false).
Proof.
  intros Hwf E. destruct (read_irq_vector s v s' Hwf E) as (r & Hr & Hv).
  unfold pic_is_external_interrupt. split.
  - intros Hb. apply andb_true_iff. rewrite Z.leb_le, Z.ltb_lt. lia.
  - intros E0 E1 Hlo. rewrite E0 in *. rewrite (proj2 (Z.ltb_ge v _)) by lia.
    apply andb_false_r.
Qed.

(** Both controllers programmed as the BIOS does, with a slave interrupt
    pending. *)
Definition bios_pics : PicState2 :=
  state_of (pic_run [IoWrite Master 0x20 0x11; IoWrite Master 0x21 0x08;
    IoWrite Master 0x21 4; IoWrite Master 0x21 1; IoWrite Slave 0xa0 0x11;
    IoWrite Slave 0xa1 0x70; IoWrite Slave 0xa1 2; IoWrite Slave 0xa1 1;
    SetIrq 14 true; IoWrite Master 0x21 0] (pic_init (mk_pics blank blank))).

Lemma pic_external_vectors_witness :
  match pic_read_irq bios_pics with
  | Ret (v, _) => v = 0x76 /\ pic_is_external_interrupt bios_pics v = false
  | Stop _ => False
  end.
Proof.
  assert (Hwf : pics_wf bios_pics).
  { split; (split; try inU_num; repeat split; auto with pic; vm_compute; try congruence;
            try (left; reflexivity); try (right; reflexivity)). }
  destruct (pic_read_irq bios_pics) as [[v s']|e] eqn:E; [|vm_compute in E; discriminate].
  destruct (pic_external_vectors bios_pics v s' Hwf E) as [_ P].
  vm_compute in E. injection E as <- _. split; [reflexivity|].
  apply P; [reflexivity|reflexivity|lia].
Defined.

(** ** Snapshots *)

(** [pic1_states_equal] decides equality of two controllers, but
    [pic_states_equal], which replay uses, accepts any two pairs. *)
Theorem pic_states_equal_spec :
  (forall p q, pic1_states_equal p q = true <-> p = q)
  /\ (forall s t, pic_states_equal s t = true).
Proof.
  split; [|reflexivity]. intros [] []. unfold pic1_states_equal. simpl.
  rewrite !andb_true_iff, !Z.eqb_eq. split; [intros H|intros [= ]; subst; tauto].
  decompose [and] H. subst. reflexivity.
Qed.
