(* ===== verification/Uart.v ===== *)
(** * The 16450 UART

    [hw/uart.c]: the serial port the monitor emulates, together with what its
    handlers reach: the interrupt controllers (through [set_irq] and
    [pic_set_irq]), the processor's interrupt request word (through
    [cpu_interrupt] of [sys/vcpu.c]) and the character driver of
    [hw/chr_driver.c], of which the model keeps the bytes printed and the
    control calls made. *)

From Stdlib Require Import ZArith Lia Bool.
From stdpp Require Import base list numbers.
From S2P Require Import Prelude Pic.

Definition UART_LCR_DLAB : Z := 0x80.
Definition UART_IER_THRI : Z := 0x02.
Definition UART_IER_RDI : Z := 0x01.
Definition UART_IIR_NO_INT : Z := 0x01.
Definition UART_IIR_THRI : Z := 0x02.
Definition UART_IIR_RDI : Z := 0x04.
Definition UART_MCR_LOOP : Z := 0x10.
Definition UART_MSR_DCD : Z := 0x80.
Definition UART_MSR_RI : Z := 0x40.
Definition UART_MSR_DSR : Z := 0x20.
Definition UART_MSR_CTS : Z := 0x10.
Definition UART_LSR_TEMT : Z := 0x40.
Definition UART_LSR_THRE : Z := 0x20.
Definition UART_LSR_BI : Z := 0x10.
Definition UART_LSR_DR : Z := 0x01.
Definition SERIAL_IRQ : Z := 0x20 + 3.
Definition CPU_INTERRUPT_HARD : Z := 0x02.
Definition CHR_EVENT_BREAK : Z := 0.

Record SerialState := mk_serial {
  divider : Z;
  rbr : Z;
  ier : Z;
  iir : Z;
  lcr : Z;
  mcr : Z;
  lsr : Z;
  msr : Z;
  scr : Z;
  thr_ipending : Z;
  irq : Z;
  last_break_enable : Z }.

Definition set_divider (s : SerialState) (v : Z) : SerialState :=
  mk_serial v (rbr s) (ier s) (iir s) (lcr s) (mcr s) (lsr s) (msr s) (scr s)
    (thr_ipending s) (irq s) (last_break_enable s).
Definition set_rbr (s : SerialState) (v : Z) : SerialState :=
  mk_serial (divider s) v (ier s) (iir s) (lcr s) (mcr s) (lsr s) (msr s) (scr s)
    (thr_ipending s) (irq s) (last_break_enable s).
Definition set_ier (s : SerialState) (v : Z) : SerialState :=
  mk_serial (divider s) (rbr s) v (iir s) (lcr s) (mcr s) (lsr s) (msr s) (scr s)
    (thr_ipending s) (irq s) (last_break_enable s).
Definition set_iir (s : SerialState) (v : Z) : SerialState :=
  mk_serial (divider s) (rbr s) (ier s) v (lcr s) (mcr s) (lsr s) (msr s) (scr s)
    (thr_ipending s) (irq s) (last_break_enable s).
Definition set_lcr (s : SerialState) (v : Z) : SerialState :=
  mk_serial (divider s) (rbr s) (ier s) (iir s) v (mcr s) (lsr s) (msr s) (scr s)
    (thr_ipending s) (irq s) (last_break_enable s).
Definition set_mcr (s : SerialState) (v : Z) : SerialState :=
  mk_serial (divider s) (rbr s) (ier s) (iir s) (lcr s) v (lsr s) (msr s) (scr s)
    (thr_ipending s) (irq s) (last_break_enable s).
Definition set_lsr (s : SerialState) (v : Z) : SerialState :=
  mk_serial (divider s) (rbr s) (ier s) (iir s) (lcr s) (mcr s) v (msr s) (scr s)
    (thr_ipending s) (irq s) (last_break_enable s).
Definition set_msr (s : SerialState) (v : Z) : SerialState :=
  mk_serial (divider s) (rbr s) (ier s) (iir s) (lcr s) (mcr s) (lsr s) v (scr s)
    (thr_ipending s) (irq s) (last_break_enable s).
Definition set_scr (s : SerialState) (v : Z) : SerialState :=
  mk_serial (divider s) (rbr s) (ier s) (iir s) (lcr s) (mcr s) (lsr s) (msr s) v
    (thr_ipending s) (irq s) (last_break_enable s).
Definition set_thr_ipending (s : SerialState) (v : Z) : SerialState :=
  mk_serial (divider s) (rbr s) (ier s) (iir s) (lcr s) (mcr s) (lsr s) (msr s) (scr s)
    v (irq s) (last_break_enable s).
Definition set_irq (s : SerialState) (v : Z) : SerialState :=
  mk_serial (divider s) (rbr s) (ier s) (iir s) (lcr s) (mcr s) (lsr s) (msr s) (scr s)
    (thr_ipending s) v (last_break_enable s).
Definition set_last_break_enable (s : SerialState) (v : Z) : SerialState :=
  mk_serial (divider s) (rbr s) (ier s) (iir s) (lcr s) (mcr s) (lsr s) (msr s) (scr s)
    (thr_ipending s) (irq s) v.

(** Control calls to the character driver. *)
Inductive chr_ioctl :=
| SetParams (speed parity data_bits stop_bits : Z)
| SetBreak (on : Z).

Record machine := mk_machine {
  serial : SerialState;
  isa_pic : PicState2;
  interrupt_request : Z;
  replay_log : bool;
  chr_out : list Z;
  chr_ioctls : list chr_ioctl }.

Definition set_serial (m : machine) (s : SerialState) : machine :=
  mk_machine s (isa_pic m) (interrupt_request m) (replay_log m) (chr_out m) (chr_ioctls m).

Definition cpu_interrupt (m : machine) (mask : Z) : res machine :=
  assert (negb (replay_log m));;
  mret (mk_machine (serial m) (isa_pic m) (interrupt_request m |! mask) (replay_log m)
          (chr_out m) (chr_ioctls m)).

Definition cpu_reset_interrupt (m : machine) (mask : Z) : res machine :=
  assert (negb (replay_log m));;
  mret (mk_machine (serial m) (isa_pic m) (interrupt_request m &~ mask) (replay_log m)
          (chr_out m) (chr_ioctls m)).

Definition chr_driver_write (m : machine) (buf : list Z) : machine :=
  mk_machine (serial m) (isa_pic m) (interrupt_request m) (replay_log m)
    (chr_out m ++ buf) (chr_ioctls m).

Definition chr_driver_ioctl (m : machine) (c : chr_ioctl) : machine :=
  mk_machine (serial m) (isa_pic m) (interrupt_request m) (replay_log m)
    (chr_out m) (chr_ioctls m ++ [c]).

(** [set_irq] of the UART; its opaque pointer is null. *)
Definition set_irq_line (m : machine) (irq_num : Z) (level : bool) : res machine :=
  m ← (if level then cpu_interrupt m CPU_INTERRUPT_HARD else mret m);
  p ← pic_set_irq (isa_pic m) irq_num level;
  mret (mk_machine (serial m) p (interrupt_request m) (replay_log m)
          (chr_out m) (chr_ioctls m)).

Definition iir_of (s : SerialState) : Z :=
  if nz (lsr s &! UART_LSR_DR) && nz (ier s &! UART_IER_RDI) then UART_IIR_RDI
  else if nz (thr_ipending s) && nz (ier s &! UART_IER_THRI) then UART_IIR_THRI
  else UART_IIR_NO_INT.

Definition serial_update_irq (m : machine) : res machine :=
  let s := set_iir (serial m) (iir_of (serial m)) in
  let m := set_serial m s in
  if negb (iir s =? UART_IIR_NO_INT) then set_irq_line m (irq s) true
  else set_irq_line m (irq s) false.

Definition serial_update_parameters (m : machine) : machine :=
  let s := serial m in
  let parity := if nz (lcr s &! 0x08) then if nz (lcr s &! 0x10) then 69 else 79 else 78 in
  let stop_bits := if nz (lcr s &! 0x04) then 2 else 1 in
  let data_bits := (lcr s &! 0x03) + 5 in
  if divider s =? 0 then m
  else chr_driver_ioctl m (SetParams (115200 / divider s) parity data_bits stop_bits).

Definition serial_ioport_write (m : machine) (addr val : Z) : res machine :=
  let s := serial m in
  match addr &! 7 with
  | 1 =>
      if nz (lcr s &! UART_LCR_DLAB) then
        mret (serial_update_parameters
          (set_serial m (set_divider s (wrap 16 ((divider s &! 0x00ff) |! (val << 8))))))
      else
        let s := set_ier s (val &! 0x0f) in
        let s := if nz (lsr s &! UART_LSR_THRE) then set_thr_ipending s 1 else s in
        serial_update_irq (set_serial m s)
  | 2 => mret m
  | 3 =>
      let m := serial_update_parameters (set_serial m (set_lcr s (wrap 8 val))) in
      let break_enable := (val >> 6) &! 1 in
      if negb (break_enable =? last_break_enable (serial m)) then
        let m := set_serial m (set_last_break_enable (serial m) break_enable) in
        mret (chr_driver_ioctl m (SetBreak break_enable))
      else mret m
  | 4 => mret (set_serial m (set_mcr s (val &! 0x1f)))
  | 5 => mret m
  | 6 => mret m
  | 7 => mret (set_serial m (set_scr s (wrap 8 val)))
  | _ =>
      if nz (lcr s &! UART_LCR_DLAB) then
        mret (serial_update_parameters
          (set_serial m (set_divider s (wrap 16 ((divider s &! 0xff00) |! val)))))
      else
        let s := set_thr_ipending s 0 in
        let s := set_lsr s (lsr s &~ UART_LSR_THRE) in
        m ← serial_update_irq (set_serial m s);
        let m := chr_driver_write m [wrap 8 val] in
        let s := set_thr_ipending (serial m) 1 in
        let s := set_lsr s (lsr s |! UART_LSR_THRE) in
        let s := set_lsr s (lsr s |! UART_LSR_TEMT) in
        serial_update_irq (set_serial m s)
  end.

Definition serial_ioport_read (m : machine) (addr : Z) : res (Z * machine) :=
  let s := serial m in
  match addr &! 7 with
  | 1 => mret (if nz (lcr s &! UART_LCR_DLAB) then (divider s >> 8) &! 0xff else ier s, m)
  | 2 =>
      let ret := iir s in
      let s := if (ret &! 0x7) =? UART_IIR_THRI then set_thr_ipending s 0 else s in
      m ← serial_update_irq (set_serial m s); mret (ret, m)
  | 3 => mret (lcr s, m)
  | 4 => mret (mcr s, m)
  | 5 => mret (lsr s, m)
  | 6 =>
      mret (if nz (mcr s &! UART_MCR_LOOP)
            then ((mcr s &! 0x0c) << 4) |! ((mcr s &! 0x02) << 3) |! ((mcr s &! 0x01) << 5)
            else msr s, m)
  | 7 => mret (scr s, m)
  | _ =>
      if nz (lcr s &! UART_LCR_DLAB) then mret (divider s &! 0xff, m)
      else
        let ret := rbr s in
        let s := set_lsr s (lsr s &~ (UART_LSR_DR |! UART_LSR_BI)) in
        m ← serial_update_irq (set_serial m s); mret (ret, m)
  end.

Definition serial_can_receive (s : SerialState) : bool := negb (nz (lsr s &! UART_LSR_DR)).

Definition serial_receive_byte (m : machine) (ch : Z) : res machine :=
  let s := set_rbr (serial m) (wrap 8 ch) in
  let s := set_lsr s (lsr s |! UART_LSR_DR) in
  serial_update_irq (set_serial m s).

Definition serial_receive_break (m : machine) : res machine :=
  let s := set_rbr (serial m) 0 in
  let s := set_lsr s (lsr s |! (UART_LSR_BI |! UART_LSR_DR)) in
  serial_update_irq (set_serial m s).

Definition serial_receive1 (m : machine) (buf : list Z) : res machine :=
  c ← the (buf !! 0%nat); serial_receive_byte m c.

Definition serial_event (m : machine) (event : Z) : res machine :=
  if event =? CHR_EVENT_BREAK then serial_receive_break m else mret m.

(** [uart_init] once the state is allocated and cleared. *)
Definition uart_init (m : machine) : machine :=
  let s := mk_serial 0 0 0 0 0 0 0 0 0 0 0 0 in
  let s := set_irq s (SERIAL_IRQ - 0x20) in
  let s := set_lsr s (UART_LSR_TEMT |! UART_LSR_THRE) in
  let s := set_iir s UART_IIR_NO_INT in
  set_serial m (set_msr s (UART_MSR_DCD |! UART_MSR_DSR |! UART_MSR_CTS)).


(** ** The interrupt line *)

Definition line_high (m : machine) : bool := Z.testbit (last_irr (pic0 (isa_pic m))) 3.

Record uart_inv (m : machine) : Prop := {
  inv_pics : pics_wf (isa_pic m);
  inv_irq : irq (serial m) = 3;
  inv_iir : iir (serial m) = iir_of (serial m);
  inv_line : line_high m = negb (iir (serial m) =? UART_IIR_NO_INT);
  inv_hard : line_high m = true -> Z.testbit (interrupt_request m) 1 = true;
  inv_replay : replay_log m = false;
  inv_thre : Z.testbit (lsr (serial m)) 5 = true;
  inv_thr_flag : flag (thr_ipending (serial m)) }.

Lemma set_irq1_last_irr p i level :
  0 <= i < 8 -> Z.testbit (last_irr (pic_set_irq1 p i level)) i = level.
Proof.
  intros Hi. unfold pic_set_irq1.
  destruct (nz _), level; [| |destruct (_ =? 0)|];
    cbn [last_irr Pic.set_last_irr Pic.set_irr];
    rewrite ?testbit_wrap, ?Z.lor_spec, ?Z.ldiff_spec, ?testbit_bit, ?Z.eqb_refl by lia;
    rewrite ?(proj2 (Z.ltb_lt i 8)), ?orb_true_r, ?andb_false_r by lia; reflexivity.
Qed.

(** [set_irq_line] drives line 3 and, when raising it, requests the
    processor's attention. *)
Lemma set_irq_line_spec m level :
  pics_wf (isa_pic m) -> replay_log m = false ->
  exists m', set_irq_line m 3 level = Ret m' /\ pics_wf (isa_pic m')
  /\ line_high m' = level /\ (level = true -> Z.testbit (interrupt_request m') 1 = true)
  /\ serial m' = serial m /\ replay_log m' = false /\ chr_out m' = chr_out m
  /\ chr_ioctls m' = chr_ioctls m.
Proof.
  intros Hp Hr. unfold set_irq_line, cpu_interrupt. rewrite Hr.
  destruct (set_irq_wf (isa_pic m) 3 level Hp ltac:(lia)) as (p & Ep & Hp').
  assert (Hl : Z.testbit (last_irr (pic0 p)) 3 = level).
  { unfold pic_set_irq in Ep. simpl in Ep. injection Ep as <-. apply set_irq1_last_irr. lia. }
  destruct level; unfold assert; cbn [negb mbind res_bind mret res_ret isa_pic];
    rewrite Ep; eexists; (split; [reflexivity|]);
    repeat split; cbn [isa_pic interrupt_request]; try apply Hp'; auto; try discriminate.
  intros _. rewrite Z.lor_spec. apply orb_true_r.
Qed.

Definition frame (m m' : machine) : Prop :=
  chr_out m' = chr_out m /\ chr_ioctls m' = chr_ioctls m.

Lemma update_irq_spec m :
  pics_wf (isa_pic m) -> irq (serial m) = 3 -> replay_log m = false ->
  exists m', serial_update_irq m = Ret m'
  /\ serial m' = set_iir (serial m) (iir_of (serial m)) /\ frame m m'
  /\ pics_wf (isa_pic m') /\ replay_log m' = false
  /\ line_high m' = negb (iir_of (serial m) =? UART_IIR_NO_INT)
  /\ (line_high m' = true -> Z.testbit (interrupt_request m') 1 = true).
Proof.
  intros Hp Hi Hr. unfold serial_update_irq. cbn [iir set_iir irq]. rewrite Hi.
  set (m0 := set_serial m _).
  destruct (set_irq_line_spec m0 (negb (iir_of (serial m) =? UART_IIR_NO_INT)))
    as (m' & E & H1 & H2 & H3 & H4 & H5 & H6 & H7); [exact Hp|exact Hr|].
  exists m'. split; [destruct (iir_of _ =? _); exact E|].
  split; [exact H4|]. split; [split; assumption|]. do 2 (split; [assumption|]).
  rewrite H2. auto.
Qed.

(** Updating after a register change restores the invariant. *)
Lemma update_irq_inv m :
  pics_wf (isa_pic m) -> irq (serial m) = 3 -> replay_log m = false ->
  Z.testbit (lsr (serial m)) 5 = true -> flag (thr_ipending (serial m)) ->
  exists m', serial_update_irq m = Ret m' /\ uart_inv m'
  /\ serial m' = set_iir (serial m) (iir_of (serial m)) /\ frame m m'.
Proof.
  intros Hp Hi Hr Ht Hf.
  destruct (update_irq_spec m Hp Hi Hr) as (m' & E & Hs & Hfr & H1 & H2 & H3 & H4).
  exists m'. split; [exact E|]. split; [|auto]. split; rewrite ?Hs; auto.
Qed.

(** ** Operations as events *)

Inductive uart_op :=
| UWrite (addr val : Z)
| URead (addr : Z)
| UReceive (ch : Z)
| UBreak.

Definition uart_exec (o : uart_op) (m : machine) : res machine :=
  match o with
  | UWrite addr val => serial_ioport_write m addr val
  | URead addr => snd <$> serial_ioport_read m addr
  | UReceive ch => serial_receive_byte m ch
  | UBreak => serial_event m CHR_EVENT_BREAK
  end.

Fixpoint uart_run (ops : list uart_op) (m : machine) : res machine :=
  match ops with
  | [] => mret m
  | o :: ops => m' ← uart_exec o m; uart_run ops m'
  end.

(** The byte an operation transmits: a write to the data register while the
    divisor latch is closed. *)
Definition sent (o : uart_op) (m : machine) : list Z :=
  match o with
  | UWrite addr val =>
      if (addr &! 7 =? 0) && negb (nz (lcr (serial m) &! UART_LCR_DLAB))
      then [wrap 8 val] else []
  | _ => []
  end.

Lemma addr_cases addr :
  addr &! 7 = 0 \/ addr &! 7 = 1 \/ addr &! 7 = 2 \/ addr &! 7 = 3 \/ addr &! 7 = 4
  \/ addr &! 7 = 5 \/ addr &! 7 = 6 \/ addr &! 7 = 7.
Proof. pose proof (land_7_range addr). lia. Qed.

(** Registers that the interrupt logic does not look at. *)
Lemma inv_ext m m' :
  uart_inv m -> isa_pic m' = isa_pic m -> interrupt_request m' = interrupt_request m ->
  replay_log m' = replay_log m ->
  irq (serial m') = irq (serial m) -> iir (serial m') = iir (serial m) ->
  lsr (serial m') = lsr (serial m) -> ier (serial m') = ier (serial m) ->
  thr_ipending (serial m') = thr_ipending (serial m) -> uart_inv m'.
Proof.
  intros [] E1 E2 E3 E4 E5 E6 E7 E8.
  split; unfold line_high, iir_of in *; rewrite ?E1, ?E2, ?E3, ?E4, ?E5, ?E6, ?E7, ?E8; auto.
Qed.

Lemma update_parameters_serial m : serial (serial_update_parameters m) = serial m
  /\ isa_pic (serial_update_parameters m) = isa_pic m
  /\ interrupt_request (serial_update_parameters m) = interrupt_request m
  /\ replay_log (serial_update_parameters m) = replay_log m
  /\ chr_out (serial_update_parameters m) = chr_out m.
Proof. unfold serial_update_parameters. destruct (_ =? 0); simpl; auto. Qed.

Lemma write_inv m addr val :
  uart_inv m -> exists m', serial_ioport_write m addr val = Ret m' /\ uart_inv m'
  /\ chr_out m' = chr_out m ++ sent (UWrite addr val) m.
Proof.
  intros H. pose proof H as [Hp Hi Hiir Hl Hh Hr Ht Hf].
  unfold serial_ioport_write, sent.
  assert (Hsame : forall m', m' = m -> chr_out m' = chr_out m ++ [])
    by (intros m' ->; rewrite app_nil_r; reflexivity).
  assert (Hpar : forall s, irq s = irq (serial m) -> iir s = iir (serial m) ->
    lsr s = lsr (serial m) -> ier s = ier (serial m) ->
    thr_ipending s = thr_ipending (serial m) ->
    uart_inv (serial_update_parameters (set_serial m s))
    /\ chr_out (serial_update_parameters (set_serial m s)) = chr_out m ++ []).
  { intros s E1 E2 E3 E4 E5.
    destruct (update_parameters_serial (set_serial m s)) as (F1 & F2 & F3 & F4 & F5).
    split; [|rewrite F5, app_nil_r; reflexivity].
    apply (inv_ext m); [exact H|rewrite ?F1, ?F2, ?F3, ?F4; auto..]. }
  destruct (addr_cases addr) as [E|[E|[E|[E|[E|[E|[E|E]]]]]]]; rewrite E;
    cbn [Z.eqb Pos.eqb andb].
  - destruct (nz (lcr (serial m) &! UART_LCR_DLAB)); cbn [negb].
    { eexists. split; [reflexivity|]. apply Hpar; reflexivity. }
    match goal with |- context [serial_update_irq ?x ≫= _] =>
      destruct (update_irq_spec x Hp Hi Hr) as (m1 & -> & Hs1 & [Ho1 _] & P1 & R1 & _) end.
    cbn [mbind res_bind].
    match goal with |- context [serial_update_irq ?x] =>
      destruct (update_irq_inv x) as (m2 & -> & I2 & _ & [Ho2 _]) end.
    + exact P1.
    + cbn. rewrite Hs1. exact Hi.
    + exact R1.
    + cbn [serial set_serial lsr set_lsr set_thr_ipending].
      rewrite !Z.lor_spec. apply orb_true_iff. left. apply orb_true_r.
    + right. reflexivity.
    + exists m2. split; [reflexivity|]. split; [exact I2|]. rewrite Ho2. cbn.
      rewrite Ho1. reflexivity.
  - destruct (nz (lcr (serial m) &! UART_LCR_DLAB)).
    { eexists. split; [reflexivity|]. apply Hpar; reflexivity. }
    assert (nz (lsr (set_ier (serial m) (val &! 0x0f)) &! UART_LSR_THRE) = true) as ->.
    { change UART_LSR_THRE with (1 << 5). rewrite land_bit_nz by lia. exact Ht. }
    match goal with |- context [serial_update_irq ?x] =>
      destruct (update_irq_inv x) as (m2 & -> & I2 & _ & [Ho2 _]) end;
      [exact Hp|exact Hi|exact Hr|exact Ht|right; reflexivity|].
    exists m2. split; [reflexivity|]. split; [exact I2|]. rewrite Ho2, app_nil_r. reflexivity.
  - eauto.
  - destruct (Hpar (set_lcr (serial m) (wrap 8 val))) as [I O]; try reflexivity.
    destruct (negb (_ =? last_break_enable _)); eexists; (split; [reflexivity|]); [|auto].
    split; [|exact O]. apply (inv_ext _ _ I); reflexivity.
  - eexists. split; [reflexivity|]. split; [|auto using app_nil_r].
    apply (inv_ext _ _ H); reflexivity.
  - eauto.
  - eauto.
  - eexists. split; [reflexivity|]. split; [|auto using app_nil_r].
    apply (inv_ext _ _ H); reflexivity.
Qed.

Lemma dr_bi_keep_thre x : Z.testbit (x &~ (UART_LSR_DR |! UART_LSR_BI)) 5 = Z.testbit x 5.
Proof. rewrite Z.ldiff_spec. apply andb_true_r. Qed.

Lemma read_inv m addr :
  uart_inv m -> exists v m', serial_ioport_read m addr = Ret (v, m') /\ uart_inv m'
  /\ frame m m'.
Proof.
  intros H. pose proof H as [Hp Hi Hiir Hl Hh Hr Ht Hf]. unfold serial_ioport_read.
  assert (Hsame : frame m m) by (split; reflexivity).
  destruct (addr_cases addr) as [E|[E|[E|[E|[E|[E|[E|E]]]]]]]; rewrite E; eauto 6.
  - destruct (nz _); [eauto 6|].
    match goal with |- context [serial_update_irq ?x] =>
      destruct (update_irq_inv x) as (m2 & -> & I2 & _ & Hf2) end;
      [exact Hp|exact Hi|exact Hr|cbn; rewrite <- Ht; apply dr_bi_keep_thre|exact Hf|].
    eauto.
  - match goal with |- context [serial_update_irq ?x] =>
      destruct (update_irq_inv x) as (m2 & -> & I2 & _ & Hf2) end;
      [exact Hp|destruct (_ =? UART_IIR_THRI); exact Hi|exact Hr
      |destruct (_ =? UART_IIR_THRI); exact Ht| |].
    { destruct (_ =? UART_IIR_THRI); [left; reflexivity|exact Hf]. }
    eauto.
Qed.

Lemma receive_inv m rb bits :
  uart_inv m ->
  exists m', serial_update_irq (set_serial m
    (set_lsr (set_rbr (serial m) rb) (lsr (serial m) |! bits))) = Ret m'
  /\ uart_inv m' /\ frame m m' /\ rbr (serial m') = rb
  /\ lsr (serial m') = lsr (serial m) |! bits /\ lcr (serial m') = lcr (serial m).
Proof.
  intros [Hp Hi Hiir Hl Hh Hr Ht Hf].
  match goal with |- context [serial_update_irq ?x] =>
    destruct (update_irq_inv x) as (m2 & -> & I2 & Hs & Hf2) end;
    [exact Hp|exact Hi|exact Hr| |exact Hf|].
  - cbn [serial set_serial lsr set_lsr set_rbr]. rewrite Z.lor_spec, Ht. reflexivity.
  - exists m2. rewrite Hs. auto 10.
Qed.

Lemma exec_inv o m :
  uart_inv m -> exists m', uart_exec o m = Ret m' /\ uart_inv m'
  /\ chr_out m' = chr_out m ++ sent o m.
Proof.
  intros H. destruct o; cbn [uart_exec sent].
  - apply write_inv, H.
  - destruct (read_inv m addr H) as (v & m' & -> & I & [Ho _]). exists m'.
    rewrite app_nil_r. auto.
  - destruct (receive_inv m (wrap 8 ch) UART_LSR_DR H) as (m' & E & I & [Ho _] & _).
    exists m'. rewrite app_nil_r. auto.
  - destruct (receive_inv m 0 (UART_LSR_BI |! UART_LSR_DR) H) as (m' & E & I & [Ho _] & _).
    exists m'. rewrite app_nil_r. auto.
Qed.

(** ** Properties *)

(** The bytes a run transmits, in order. *)
Fixpoint sent_run (ops : list uart_op) (m : machine) : list Z :=
  match ops with
  | [] => []
  | o :: ops => sent o m ++
      match uart_exec o m with Ret m' => sent_run ops m' | Stop _ => [] end
  end.

Lemma run_inv ops : forall m,
  uart_inv m -> exists m', uart_run ops m = Ret m' /\ uart_inv m'
  /\ chr_out m' = chr_out m ++ sent_run ops m.
Proof.
  induction ops as [|o ops IH]; intros m H; simpl.
  - exists m. rewrite app_nil_r. auto.
  - destruct (exec_inv o m H) as (m1 & -> & I1 & O1). simpl.
    destruct (IH m1 I1) as (m2 & -> & I2 & O2). exists m2.
    rewrite O2, O1, <- app_assoc. auto.
Qed.

Lemma uart_init_inv m :
  pics_wf (isa_pic m) -> replay_log m = false -> line_high m = false -> uart_inv (uart_init m).
Proof.
  intros Hp Hr Hl. split; try assumption; try reflexivity.
  - intros E. change (line_high (uart_init m)) with (line_high m) in E. congruence.
  - left. reflexivity.
Qed.

(** C39: From [uart_init], on a machine that is not replaying a log, whose
    controllers are well-formed and whose line 3 is low, every sequence of
    port accesses, received bytes and breaks runs to the end; the
    identification register always equals what the enabled and pending
    conditions say, the interrupt line the controller sees is high exactly
    when an interrupt is identified (and then the processor has been asked
    for attention), and the bytes printed are exactly those written to the
    data register while the divisor latch was closed, in order. *)
Theorem uart_run_inv m ops :
  pics_wf (isa_pic m) -> replay_log m = false -> line_high m = false ->
  exists m', uart_run ops (uart_init m) = Ret m' /\ uart_inv m'
  /\ chr_out m' = chr_out m ++ sent_run ops (uart_init m).
Proof. intros Hp Hr Hl. apply (run_inv ops (uart_init m)), uart_init_inv; assumption. Qed.

Definition new_machine : machine :=
  mk_machine (mk_serial 0 0 0 0 0 0 0 0 0 0 0 0) (pic_init (mk_pics blank blank))
    0 false [] [].

Lemma uart_run_inv_witness :
  exists m', uart_run [UWrite 0x2f9 3; UWrite 0x2f8 72; UWrite 0x2f8 105; UReceive 33;
                       URead 0x2fa; URead 0x2f8; URead 0x2fa] (uart_init new_machine) = Ret m'
  /\ uart_inv m' /\ chr_out m' = [72; 105].
Proof.
  apply (uart_run_inv new_machine [UWrite 0x2f9 3; UWrite 0x2f8 72; UWrite 0x2f8 105;
           UReceive 33; URead 0x2fa; URead 0x2f8; URead 0x2fa]).
  - apply pic_init_wf.
  - reflexivity.
  - reflexivity.
Defined.

(** A received byte is what the next read of the data register returns,
    and reading it makes the receiver ready for another one. *)
Theorem uart_receive_read m ch :
  uart_inv m -> inU 8 ch -> nz (lcr (serial m) &! UART_LCR_DLAB) = false ->
  exists m1 m2, serial_receive_byte m ch = Ret m1
  /\ serial_can_receive (serial m1) = false
  /\ serial_ioport_read m1 0x2f8 = Ret (ch, m2)
  /\ serial_can_receive (serial m2) = true /\ uart_inv m2.
Proof.
  intros H Hch Hd. unfold serial_receive_byte.
  destruct (receive_inv m (wrap 8 ch) UART_LSR_DR H) as (m1 & E & I & _ & Hrbr & Hlsr & Hl).
  exists m1. cbn [lsr set_rbr] in *. rewrite E. pose proof I as [Hp Hi _ _ _ Hr Ht Hf].
  unfold serial_ioport_read. change (0x2f8 &! 7) with 0. cbv iota. rewrite Hl, Hd.
  match goal with |- context [serial_update_irq ?x] =>
    destruct (update_irq_inv x) as (m2 & E2 & I2 & Hs & Hf2) end;
    [exact Hp|exact Hi|exact Hr|cbn; rewrite <- Ht; apply dr_bi_keep_thre|exact Hf|].
  exists m2. split; [reflexivity|]. split; [|split; [|split; [|exact I2]]].
  - unfold serial_can_receive. rewrite Hlsr. change UART_LSR_DR with (1 << 0) at 2.
    rewrite land_bit_nz, Z.lor_spec by lia. rewrite orb_true_r. reflexivity.
  - rewrite E2, Hrbr, wrap_id by exact Hch. reflexivity.
  - unfold serial_can_receive. rewrite Hs. cbn [lsr set_iir serial set_serial set_lsr].
    change UART_LSR_DR with (1 << 0) at 2. rewrite land_bit_nz, Z.ldiff_spec by lia.
    rewrite andb_false_r. reflexivity.
Qed.

Lemma uart_receive_read_witness :
  exists m1 m2, serial_receive_byte (uart_init new_machine) 0x5a = Ret m1
  /\ serial_can_receive (serial m1) = false
  /\ serial_ioport_read m1 0x2f8 = Ret (0x5a, m2)
  /\ serial_can_receive (serial m2) = true /\ uart_inv m2.
Proof.
  apply (uart_receive_read (uart_init new_machine) 0x5a); [|inU_num|reflexivity].
  apply uart_init_inv; [apply pic_init_wf|reflexivity|reflexivity].
Defined.

Lemma divisor_bytes d lo hi :
  inU 16 d -> inU 8 lo -> inU 8 hi ->
  wrap 16 ((wrap 16 ((d &! 0xff00) |! lo) &! 0x00ff) |! (hi << 8)) = hi * 256 + lo.
Proof.
  intros Hd Hl Hh. assert (E : wrap 16 ((d &! 0xff00) |! lo) &! 0x00ff = lo).
  { change 0x00ff with (Z.ones 8). change 0xff00 with (Z.ones 8 << 8). bits_eq.
    destruct (Z.ltb_spec i 8).
    - rewrite (Z.testbit_neg_r (Z.ones 8)) by lia.
      rewrite (proj2 (Z.ltb_lt i 16)), andb_false_r, andb_true_r by lia. reflexivity.
    - rewrite andb_false_r. symmetry. apply (inU_testbit 8); [lia|exact Hl|lia]. }
  rewrite E, Z.lor_comm, Z.shiftl_mul_pow2, (Z.mul_comm hi), lor_mult_low by (assumption || lia).
  unfold inU in *. rewrite wrap_id by (unfold inU; lia). lia.
Qed.

(** With the divisor latch open, writing the two divisor bytes stores the
    16-bit divisor, tells the character driver the resulting line speed, and
    reading the two ports gives the bytes back. *)
Theorem uart_divisor_latch m lo hi :
  nz (lcr (serial m) &! UART_LCR_DLAB) = true -> inU 16 (divider (serial m)) ->
  inU 8 lo -> inU 8 hi -> hi * 256 + lo <> 0 ->
  exists m1 m2, serial_ioport_write m 0x2f8 lo = Ret m1
  /\ serial_ioport_write m1 0x2f9 hi = Ret m2
  /\ divider (serial m2) = hi * 256 + lo
  /\ (exists l p d s, chr_ioctls m2 = l ++ [SetParams (115200 / (hi * 256 + lo)) p d s])
  /\ serial_ioport_read m2 0x2f8 = Ret (lo, m2) /\ serial_ioport_read m2 0x2f9 = Ret (hi, m2).
Proof.
  intros Hd Hdiv Hl Hh Hnz. pose proof (divisor_bytes _ lo hi Hdiv Hl Hh) as Eb.
  unfold serial_ioport_write. change (0x2f8 &! 7) with 0. change (0x2f9 &! 7) with 1.
  cbv iota. rewrite Hd. eexists _, _. split; [reflexivity|].
  set (m1 := serial_update_parameters _).
  assert (Hs1 : serial m1 = set_divider (serial m)
    (wrap 16 ((divider (serial m) &! 0xff00) |! lo))) by apply update_parameters_serial.
  rewrite Hs1. cbn [lcr set_divider]. rewrite Hd. split; [reflexivity|].
  set (m2 := serial_update_parameters _).
  assert (Hs2 : serial m2 = set_divider (serial m) (hi * 256 + lo)).
  { unfold m2. rewrite (proj1 (update_parameters_serial _)). cbn [serial set_serial].
    rewrite <- Eb. reflexivity. }
  split; [rewrite Hs2; reflexivity|]. split.
  - unfold m2, serial_update_parameters. cbn [serial set_serial divider set_divider].
    rewrite Eb, (proj2 (Z.eqb_neq _ _) Hnz). unfold chr_driver_ioctl. cbn [chr_ioctls].
    eexists _, _, _, _. reflexivity.
  - unfold serial_ioport_read. change (0x2f8 &! 7) with 0. change (0x2f9 &! 7) with 1.
    cbv iota. rewrite Hs2. cbn [lcr set_divider divider]. rewrite Hd.
    unfold mret, res_ret. unfold inU in *. change 0xff with (Z.ones 8).
    rewrite !Z.land_ones, Z.shiftr_div_pow2 by lia.
    replace ((hi * 256 + lo) / 2 ^ 8) with hi by (Z.div_mod_to_equations; lia).
    replace ((hi * 256 + lo) mod 2 ^ 8) with lo by (Z.div_mod_to_equations; lia).
    rewrite (Z.mod_small hi) by lia. auto.
Qed.

Definition latch_open : machine :=
  match serial_ioport_write (uart_init new_machine) 0x2fb 0x83 with
  | Ret m => m | Stop _ => new_machine end.

Lemma uart_divisor_latch_witness :
  exists m1 m2, serial_ioport_write latch_open 0x2f8 0x0c = Ret m1
  /\ serial_ioport_write m1 0x2f9 0 = Ret m2 /\ divider (serial m2) = 12
  /\ (exists l p d s, chr_ioctls m2 = l ++ [SetParams 9600 p d s])
  /\ serial_ioport_read m2 0x2f8 = Ret (0x0c, m2) /\ serial_ioport_read m2 0x2f9 = Ret (0, m2).
Proof.
  apply (uart_divisor_latch latch_open 0x0c 0); [reflexivity|inU_num|inU_num|inU_num|lia].
Defined.

(** Loopback connects OUT2, OUT1, DTR and RTS to DCD, RI, DSR and CTS. *)
Lemma uart_loopback m :
  inU 5 (mcr (serial m)) -> Z.testbit (mcr (serial m)) 4 = true ->
  exists v, serial_ioport_read m 0x2fe = Ret (v, m)
  /\ Z.testbit v 7 = Z.testbit (mcr (serial m)) 3
  /\ Z.testbit v 6 = Z.testbit (mcr (serial m)) 2
  /\ Z.testbit v 5 = Z.testbit (mcr (serial m)) 0
  /\ Z.testbit v 4 = Z.testbit (mcr (serial m)) 1.
Proof.
  intros Hm Hl. unfold serial_ioport_read. change (0x2fe &! 7) with 6. cbv iota.
  change UART_MCR_LOOP with (1 << 4). rewrite land_bit_nz, Hl by lia.
  eexists. split; [reflexivity|].
  rewrite !Z.lor_spec, !Z.shiftl_spec, !Z.land_spec by lia. simpl.
  rewrite !andb_false_r, !andb_true_r, !orb_false_r, ?orb_false_l. auto.
Qed.
