(* ===== verification/Ioport.v ===== *)
(** * Port I/O dispatch

    [sys/io.c]: the tables that map an access size and a port number to the
    handler of an emulated device, their registration, and the dispatch of
    the guest's port accesses.  A null table entry is an absent key.  The
    board section registers the handlers of the interrupt controllers and the
    UART the way their [init] functions do and runs guest accesses on them. *)

From Stdlib Require Import ZArith Lia Bool.
From stdpp Require Import base list numbers gmap.
From S2P Require Import Prelude Pic Uart.

Definition MAX_IOPORTS : Z := 65536.

Definition get_bsize (size : Z) : Z :=
  if size =? 1 then 0 else if size =? 2 then 1 else if size =? 4 then 2 else -1.

Section Tables.
(** Read handlers, write handlers and opaque device pointers. *)
Context {R W D : Type}.

Record ioports := mk_ioports {
  ioport_read_table : gmap (Z * Z) R;
  ioport_write_table : gmap (Z * Z) W;
  ioport_opaque : gmap Z D;
  needs_log : gmap Z bool }.

Definition init_ioports (t : ioports) : ioports :=
  mk_ioports ∅ ∅ (ioport_opaque t)
    (list_to_map ((fun i => (i, true)) <$> seqZ 0 MAX_IOPORTS)).

Definition ioport_needs_log (t : ioports) (port : Z) : res bool := the (needs_log t !! port).

(** Table entries are written for [i = start, start + size, ...] below [stop];
    an index outside the tables is a stray store. *)
Fixpoint register_loop (n : nat) (put : ioports -> Z -> ioports) (t : ioports) (i size : Z)
  : res ioports :=
  match n with
  | O => mret t
  | S n => if (0 <=? i) && (i <? MAX_IOPORTS)
           then register_loop n put (put t i) (i + size) size else Stop Fault
  end.

(** Number of iterations of [for (i = start; i < start + length; i += size)]. *)
Definition iterations (length size : Z) : nat := Z.to_nat ((length + size - 1) / size).

Definition put_read (bsize : Z) (func : R) (opaque : D) (log : bool) (t : ioports) (i : Z) :=
  mk_ioports (<[(bsize, i) := func]> (ioport_read_table t)) (ioport_write_table t)
    (<[i := opaque]> (ioport_opaque t)) (<[i := log]> (needs_log t)).

Definition put_write (bsize : Z) (func : W) (opaque : D) (log : bool) (t : ioports) (i : Z) :=
  mk_ioports (ioport_read_table t) (<[(bsize, i) := func]> (ioport_write_table t))
    (<[i := opaque]> (ioport_opaque t)) (<[i := log]> (needs_log t)).

Definition register_ioport_read (t : ioports) (start length size : Z) (func : R) (opaque : D)
  (log : bool) : res (Z * ioports) :=
  let bsize := get_bsize size in
  if bsize =? -1 then mret (-1, t)
  else t ← register_loop (iterations length size) (put_read bsize func opaque log) t start size;
       mret (0, t).

Definition register_ioport_write (t : ioports) (start length size : Z) (func : W) (opaque : D)
  (log : bool) : res (Z * ioports) :=
  let bsize := get_bsize size in
  if bsize =? -1 then mret (-1, t)
  else t ← register_loop (iterations length size) (put_write bsize func opaque log) t start size;
       mret (0, t).

(** What an output access turns into. *)
Inductive out_action :=
| Call_write (func : W) (opaque : option D) (port data : Z)
| Physical_out (size port data : Z)
| Dropped.

Definition io_out (t : ioports) (replay : bool) (port data data_size : Z) : res out_action :=
  let bsize := get_bsize data_size in
  assert (negb (bsize =? -1));;
  match ioport_write_table t !! (bsize, port) with
  | Some f => mret (Call_write f (ioport_opaque t !! port) port data)
  | None => if replay then mret Dropped
            else mret (Physical_out data_size port (wrap (8 * data_size) data))
  end.

Inductive in_action :=
| Call_read (func : R) (opaque : option D) (port : Z)
| Physical_in (size port : Z).

Definition io_in (t : ioports) (port data_size : Z) : res in_action :=
  let bsize := get_bsize data_size in
  assert (negb (bsize =? -1));;
  match ioport_read_table t !! (bsize, port) with
  | Some f => mret (Call_read f (ioport_opaque t !! port) port)
  | None => mret (Physical_in data_size port)
  end.

(** ** Registration *)

(** The ports [start, start + size, ...] of a registration. *)
Definition on_port (start length size i : Z) : bool :=
  (start <=? i) && (i <? start + length) && ((i - start) mod size =? 0).

Lemma on_port_succ start n size p :
  0 < size -> 0 <= n ->
  on_port start (size * Z.succ n) size p
  = (p =? start) || on_port (start + size) (size * n) size p.
Proof using Type.
  intros Hs Hn. unfold on_port. rewrite Z.mul_succ_r.
  replace (p - (start + size)) with (p - start + (-1) * size) by lia.
  rewrite Z.mod_add by lia. destruct (Z.eqb_spec p start) as [->|Hne].
  - rewrite Z.sub_diag, Z.mod_0_l by lia. simpl. cmp_cases; simpl; auto; nia.
  - destruct (Z.eqb_spec ((p - start) mod size) 0) as [Em|]; rewrite ?andb_false_r; auto.
    apply Z.mod_divide in Em as [k Ek]; [|lia].
    cmp_cases; simpl; auto; assert (k <= 0 \/ 1 <= k) by lia; nia.
Qed.

Section Loop.
Context (put : ioports -> Z -> ioports) (size : Z) (Hsize : 0 < size).

Lemma register_loop_ok : forall n t i,
  0 <= i -> i + size * (Z.of_nat n - 1) < MAX_IOPORTS ->
  exists t', register_loop n put t i size = Ret t'.
Proof using Hsize.
  induction n as [|n IH]; intros t i Hi Hmax; [eexists; reflexivity|].
  cbn [register_loop]. rewrite (proj2 (Z.leb_le 0 i)), (proj2 (Z.ltb_lt i MAX_IOPORTS)) by nia.
  apply IH; nia.
Qed.

(** A component of the tables that [put] does not touch. *)
Lemma register_loop_keep {X} (view : ioports -> X) :
  (forall t i, view (put t i) = view t) -> forall n t i t',
  register_loop n put t i size = Ret t' -> view t' = view t.
Proof using Type.
  intros Hput. induction n as [|n IH]; intros t i t'; cbn [register_loop].
  - intros [= <-]. reflexivity.
  - destruct (_ && _); [|discriminate]. intros E. rewrite (IH _ _ _ E). apply Hput.
Qed.

(** A component of which [put] sets one entry. *)
Lemma register_loop_set {X} (view : ioports -> Z -> option X) (x : X) :
  (forall t i p, view (put t i) p = if p =? i then Some x else view t p) ->
  forall n t i t', register_loop n put t i size = Ret t' ->
  forall p, view t' p = if on_port i (size * Z.of_nat n) size p then Some x else view t p.
Proof using Hsize.
  intros Hput. induction n as [|n IH]; intros t i t'; cbn [register_loop].
  - intros [= <-] p. unfold on_port. cmp_cases; simpl; auto; lia.
  - destruct (_ && _); [|discriminate]. intros E p. rewrite (IH _ _ _ E p), Hput.
    rewrite Nat2Z.inj_succ, on_port_succ by lia.
    destruct (on_port (i + size) _ _ p); rewrite ?orb_true_r, ?orb_false_r; reflexivity.
Qed.
End Loop.

Lemma get_bsize_cases size : get_bsize size <> -1 -> 0 < size.
Proof using Type. unfold get_bsize. cmp_cases; lia. Qed.

(** Sizes that divide the length run exactly over the registered ports. *)
Lemma iterations_mult k size : 0 < size -> 0 <= k -> iterations (size * k) size = Z.to_nat k.
Proof using Type.
  intros Hs Hk. unfold iterations. f_equal. symmetry.
  apply Z.div_unique with (r := size - 1); lia.
Qed.

Lemma insert_view {X} (m : gmap (Z * Z) X) b i x p :
  <[(b, i) := x]> m !! (b, p) = if p =? i then Some x else m !! (b, p).
Proof using Type.
  destruct (Z.eqb_spec p i) as [->|Hp]; [apply lookup_insert_eq|].
  apply lookup_insert_ne. congruence.
Qed.

Lemma insert_view1 {X} (m : gmap Z X) i x p :
  <[i := x]> m !! p = if p =? i then Some x else m !! p.
Proof using Type.
  destruct (Z.eqb_spec p i) as [->|Hp]; [apply lookup_insert_eq|].
  apply lookup_insert_ne. congruence.
Qed.

Lemma register_write_correct t start k size f op log :
  get_bsize size <> -1 -> 0 <= start -> 0 <= k -> start + size * k <= MAX_IOPORTS ->
  exists t', register_ioport_write t start (size * k) size f op log = Ret (0, t')
  /\ ioport_read_table t' = ioport_read_table t
  /\ (forall b p, ioport_write_table t' !! (b, p) =
        if (b =? get_bsize size) && on_port start (size * k) size p then Some f
        else ioport_write_table t !! (b, p))
  /\ (forall p, ioport_opaque t' !! p =
        if on_port start (size * k) size p then Some op else ioport_opaque t !! p).
Proof using Type.
  intros Hb H0 Hk Hmax. pose proof (get_bsize_cases size Hb) as Hs.
  unfold register_ioport_write. rewrite (proj2 (Z.eqb_neq _ _) Hb), iterations_mult by lia.
  destruct (register_loop_ok (put_write (get_bsize size) f op log) size Hs (Z.to_nat k) t start)
    as [t' E]; [lia|nia|].
  rewrite E. exists t'. split; [reflexivity|].
  pose proof (Z2Nat.id k Hk) as Ek.
  split; [apply (register_loop_keep _ _ ioport_read_table) with (2 := E); reflexivity|].
  rewrite <- Ek. split.
  2: { apply (register_loop_set _ _ Hs (fun t p => ioport_opaque t !! p) op) with (2 := E).
       intros. apply insert_view1. }
  intros b p. destruct (Z.eqb_spec b (get_bsize size)) as [->|Hne]; cbn [andb].
  - apply (register_loop_set _ _ Hs
      (fun t p => ioport_write_table t !! (get_bsize size, p)) f) with (2 := E).
    intros. apply insert_view.
  - apply (register_loop_keep _ _ (fun t => ioport_write_table t !! (b, p))) with (2 := E).
    intros. apply lookup_insert_ne. congruence.
Qed.

Lemma register_read_correct t start k size f op log :
  get_bsize size <> -1 -> 0 <= start -> 0 <= k -> start + size * k <= MAX_IOPORTS ->
  exists t', register_ioport_read t start (size * k) size f op log = Ret (0, t')
  /\ ioport_write_table t' = ioport_write_table t
  /\ (forall b p, ioport_read_table t' !! (b, p) =
        if (b =? get_bsize size) && on_port start (size * k) size p then Some f
        else ioport_read_table t !! (b, p))
  /\ (forall p, ioport_opaque t' !! p =
        if on_port start (size * k) size p then Some op else ioport_opaque t !! p).
Proof using Type.
  intros Hb H0 Hk Hmax. pose proof (get_bsize_cases size Hb) as Hs.
  unfold register_ioport_read. rewrite (proj2 (Z.eqb_neq _ _) Hb), iterations_mult by lia.
  destruct (register_loop_ok (put_read (get_bsize size) f op log) size Hs (Z.to_nat k) t start)
    as [t' E]; [lia|nia|].
  rewrite E. exists t'. split; [reflexivity|].
  pose proof (Z2Nat.id k Hk) as Ek.
  split; [apply (register_loop_keep _ _ ioport_write_table) with (2 := E); reflexivity|].
  rewrite <- Ek. split.
  2: { apply (register_loop_set _ _ Hs (fun t p => ioport_opaque t !! p) op) with (2 := E).
       intros. apply insert_view1. }
  intros b p. destruct (Z.eqb_spec b (get_bsize size)) as [->|Hne]; cbn [andb].
  - apply (register_loop_set _ _ Hs
      (fun t p => ioport_read_table t !! (get_bsize size, p)) f) with (2 := E).
    intros. apply insert_view.
  - apply (register_loop_keep _ _ (fun t => ioport_read_table t !! (b, p))) with (2 := E).
    intros. apply lookup_insert_ne. congruence.
Qed.
End Tables.
Arguments ioports : clear implicits.
Arguments out_action : clear implicits.
Arguments in_action : clear implicits.

(** ** The board *)

Inductive write_handler := Pic_ioport_write | Elcr_ioport_write | Serial_ioport_write.
Inductive read_handler := Pic_ioport_read | Elcr_ioport_read | Serial_ioport_read.
Inductive device := Pic_device (w : which) | Serial_device.

Abbreviation board_ports := (ioports read_handler write_handler device).

(** [pic_init1]. *)
Definition pic_init1 (t : board_ports) (replay : bool) (io_addr elcr_addr : Z) (w : which)
  : res board_ports :=
  if replay then mret t
  else
    '(_, t) ← register_ioport_write t io_addr 2 1 Pic_ioport_write (Pic_device w) true;
    '(_, t) ← register_ioport_read t io_addr 2 1 Pic_ioport_read (Pic_device w) true;
    if 0 <=? elcr_addr then
      '(_, t) ← register_ioport_write t elcr_addr 1 1 Elcr_ioport_write (Pic_device w) true;
      '(_, t) ← register_ioport_read t elcr_addr 1 1 Elcr_ioport_read (Pic_device w) true;
      mret t
    else mret t.

Definition SERIAL_IO_BASE : Z := 0x2f8.

(** [io_init], [__pic_init] and [uart_init], as far as the tables go. *)
Definition board_init (t : board_ports) (replay : bool) : res board_ports :=
  let t := init_ioports t in
  t ← pic_init1 t replay 0x20 0x4d0 Master;
  t ← pic_init1 t replay 0xa0 0x4d1 Slave;
  '(_, t) ← register_ioport_write t SERIAL_IO_BASE 8 1 Serial_ioport_write Serial_device true;
  '(_, t) ← register_ioport_read t SERIAL_IO_BASE 8 1 Serial_ioport_read Serial_device true;
  mret t.

(** Run a dispatched access on the devices. *)
Definition run_write (m : machine) (a : out_action write_handler device) : res machine :=
  let with_pics p := mk_machine (serial m) p (interrupt_request m) (replay_log m)
                       (chr_out m) (chr_ioctls m) in
  match a with
  | Call_write Pic_ioport_write (Some (Pic_device w)) port data =>
      p ← pic_ioport_write w (isa_pic m) port data; mret (with_pics p)
  | Call_write Elcr_ioport_write (Some (Pic_device w)) port data =>
      mret (with_pics (elcr_ioport_write w (isa_pic m) port data))
  | Call_write Serial_ioport_write (Some Serial_device) port data =>
      serial_ioport_write m port data
  | Call_write _ _ _ _ => Stop Fault
  | Physical_out _ _ _ | Dropped => mret m
  end.

Definition guest_out (t : board_ports) (m : machine) (port data data_size : Z) : res machine :=
  a ← io_out t (replay_log m) port data data_size; run_write m a.

(** Which device a byte access to a port reaches. *)
Definition decode (port : Z) : option (write_handler * read_handler * device) :=
  if (port =? 0x20) || (port =? 0x21) then
    Some (Pic_ioport_write, Pic_ioport_read, Pic_device Master)
  else if (port =? 0xa0) || (port =? 0xa1) then
    Some (Pic_ioport_write, Pic_ioport_read, Pic_device Slave)
  else if port =? 0x4d0 then Some (Elcr_ioport_write, Elcr_ioport_read, Pic_device Master)
  else if port =? 0x4d1 then Some (Elcr_ioport_write, Elcr_ioport_read, Pic_device Slave)
  else if (0x2f8 <=? port) && (port <=? 0x2ff) then
    Some (Serial_ioport_write, Serial_ioport_read, Serial_device)
  else None.

Lemma on_port_1 start k p : on_port start (1 * k) 1 p = (start <=? p) && (p <? start + k).
Proof. unfold on_port. rewrite Z.mod_1_r, Z.mul_1_l, andb_true_r. reflexivity. Qed.

(** The tables after a registration with byte size, for rewriting. *)
Record registered (t t' : board_ports) (start k : Z) (f : option write_handler)
  (g : option read_handler) (op : device) : Prop := {
  reg_write b p : ioport_write_table t' !! (b, p) =
    match f with
    | Some f => if (b =? 0) && ((start <=? p) && (p <? start + k)) then Some f
                else ioport_write_table t !! (b, p)
    | None => ioport_write_table t !! (b, p) end;
  reg_read b p : ioport_read_table t' !! (b, p) =
    match g with
    | Some g => if (b =? 0) && ((start <=? p) && (p <? start + k)) then Some g
                else ioport_read_table t !! (b, p)
    | None => ioport_read_table t !! (b, p) end;
  reg_opaque p : ioport_opaque t' !! p =
    if (start <=? p) && (p <? start + k) then Some op else ioport_opaque t !! p }.

Lemma reg_w t start k f op :
  0 <= start -> 0 <= k -> start + k <= MAX_IOPORTS ->
  exists t', register_ioport_write t start k 1 f op true = Ret (0, t')
  /\ registered t t' start k (Some f) None op.
Proof.
  intros H0 Hk Hm.
  destruct (register_write_correct t start k 1 f op true) as (t' & E & E1 & E2 & E3);
    [discriminate|lia..|].
  replace (1 * k) with k in E by lia. exists t'. split; [exact E|].
  split; intros; rewrite ?E1, ?E2, ?E3, ?on_port_1; reflexivity.
Qed.

Lemma reg_r t start k g op :
  0 <= start -> 0 <= k -> start + k <= MAX_IOPORTS ->
  exists t', register_ioport_read t start k 1 g op true = Ret (0, t')
  /\ registered t t' start k None (Some g) op.
Proof.
  intros H0 Hk Hm.
  destruct (register_read_correct t start k 1 g op true) as (t' & E & E1 & E2 & E3);
    [discriminate|lia..|].
  replace (1 * k) with k in E by lia. exists t'. split; [exact E|].
  split; intros; rewrite ?E1, ?E2, ?E3, ?on_port_1; reflexivity.
Qed.

Lemma pic_init1_spec t io_addr elcr_addr w :
  0 <= io_addr -> io_addr + 2 <= MAX_IOPORTS -> 0 <= elcr_addr < MAX_IOPORTS ->
  exists t1 t2 t3 t', pic_init1 t false io_addr elcr_addr w = Ret t'
  /\ registered t t1 io_addr 2 (Some Pic_ioport_write) None (Pic_device w)
  /\ registered t1 t2 io_addr 2 None (Some Pic_ioport_read) (Pic_device w)
  /\ registered t2 t3 elcr_addr 1 (Some Elcr_ioport_write) None (Pic_device w)
  /\ registered t3 t' elcr_addr 1 None (Some Elcr_ioport_read) (Pic_device w).
Proof.
  intros H0 H1 H2. unfold pic_init1.
  destruct (reg_w t io_addr 2 Pic_ioport_write (Pic_device w)) as (t1 & -> & R1); [lia..|]. simpl.
  destruct (reg_r t1 io_addr 2 Pic_ioport_read (Pic_device w)) as (t2 & -> & R2); [lia..|]. simpl.
  rewrite (proj2 (Z.leb_le 0 elcr_addr)) by lia.
  destruct (reg_w t2 elcr_addr 1 Elcr_ioport_write (Pic_device w)) as (t3 & -> & R3); [lia..|]. simpl.
  destruct (reg_r t3 elcr_addr 1 Elcr_ioport_read (Pic_device w)) as (t4 & -> & R4); [lia..|]. simpl.
  exists t1, t2, t3, t4. auto.
Qed.

(** A port is one of those decoded, or outside all the ranges. *)
Lemma port_cases p :
  (p = 0x20 \/ p = 0x21 \/ p = 0xa0 \/ p = 0xa1 \/ p = 0x4d0 \/ p = 0x4d1)
  \/ 0x2f8 <= p < 0x2f8 + 8
  \/ (~ (0x20 <= p < 0x20 + 2) /\ ~ (0xa0 <= p < 0xa0 + 2) /\ ~ (0x4d0 <= p < 0x4d0 + 1)
      /\ ~ (0x4d1 <= p < 0x4d1 + 1) /\ ~ (0x2f8 <= p < 0x2f8 + 8)).
Proof. lia. Qed.

Lemma in_range_true a k p : a <= p < a + k -> (a <=? p) && (p <? a + k) = true.
Proof. intros. rewrite (proj2 (Z.leb_le _ _)), (proj2 (Z.ltb_lt _ _)) by lia. reflexivity. Qed.

Lemma in_range_false a k p : ~ (a <= p < a + k) -> (a <=? p) && (p <? a + k) = false.
Proof. intros. cmp_cases; auto; lia. Qed.

Lemma decode_uart p :
  0x2f8 <= p < 0x2f8 + 8 -> decode p = Some (Serial_ioport_write, Serial_ioport_read, Serial_device).
Proof.
  intros H. unfold decode. rewrite !(proj2 (Z.eqb_neq p _)) by lia. simpl.
  rewrite !(proj2 (Z.leb_le _ _)) by lia. reflexivity.
Qed.

Lemma decode_none p :
  ~ (0x20 <= p < 0x20 + 2) -> ~ (0xa0 <= p < 0xa0 + 2) -> ~ (0x4d0 <= p < 0x4d0 + 1) ->
  ~ (0x4d1 <= p < 0x4d1 + 1) -> ~ (0x2f8 <= p < 0x2f8 + 8) -> decode p = None.
Proof.
  intros. unfold decode. rewrite !(proj2 (Z.eqb_neq p _)) by lia. simpl. cmp_cases; auto; lia.
Qed.

(** Settle a lookup in the board's tables for each class of ports. *)
Ltac by_port p :=
  destruct (port_cases p) as [[->|[->|[->|[->|[->| ->]]]]]|[Hp|(Hp1 & Hp2 & Hp3 & Hp4 & Hp5)]];
  [reflexivity..
  |rewrite (decode_uart p Hp); rewrite !in_range_true by lia; reflexivity
  |rewrite (decode_none p Hp1 Hp2 Hp3 Hp4 Hp5); rewrite !in_range_false by lia; reflexivity].

Lemma board_tables t0 :
  exists t, board_init t0 false = Ret t
  /\ (forall b p, ioport_write_table t !! (b, p) =
        if b =? 0 then (fun '(f, _, _) => f) <$> decode p else None)
  /\ (forall b p, ioport_read_table t !! (b, p) =
        if b =? 0 then (fun '(_, g, _) => g) <$> decode p else None)
  /\ (forall p d, (exists f g, decode p = Some (f, g, d)) -> ioport_opaque t !! p = Some d).
Proof.
  unfold board_init.
  destruct (pic_init1_spec (init_ioports t0) 0x20 0x4d0 Master)
    as (t1 & t2 & t3 & t4 & -> & R1 & R2 & R3 & R4); [unfold MAX_IOPORTS; lia..|]. cbn [mbind res_bind].
  destruct (pic_init1_spec t4 0xa0 0x4d1 Slave)
    as (t5 & t6 & t7 & t8 & -> & R5 & R6 & R7 & R8); [unfold MAX_IOPORTS; lia..|]. cbn [mbind res_bind].
  destruct (reg_w t8 SERIAL_IO_BASE 8 Serial_ioport_write Serial_device)
    as (t9 & -> & R9); [unfold SERIAL_IO_BASE, MAX_IOPORTS; lia..|]. cbn [mbind res_bind].
  destruct (reg_r t9 SERIAL_IO_BASE 8 Serial_ioport_read Serial_device)
    as (t10 & -> & R10); [unfold SERIAL_IO_BASE, MAX_IOPORTS; lia..|]. cbn [mbind res_bind].
  unfold SERIAL_IO_BASE in *. exists t10. split; [reflexivity|]. repeat split.
  - intros b p.
    rewrite (reg_write _ _ _ _ _ _ _ R10), (reg_write _ _ _ _ _ _ _ R9),
      (reg_write _ _ _ _ _ _ _ R8), (reg_write _ _ _ _ _ _ _ R7), (reg_write _ _ _ _ _ _ _ R6),
      (reg_write _ _ _ _ _ _ _ R5), (reg_write _ _ _ _ _ _ _ R4), (reg_write _ _ _ _ _ _ _ R3),
      (reg_write _ _ _ _ _ _ _ R2), (reg_write _ _ _ _ _ _ _ R1).
    cbn [init_ioports ioport_write_table]. rewrite lookup_empty.
    destruct (b =? 0); cbn [andb]; [|reflexivity]. by_port p.
  - intros b p.
    rewrite (reg_read _ _ _ _ _ _ _ R10), (reg_read _ _ _ _ _ _ _ R9),
      (reg_read _ _ _ _ _ _ _ R8), (reg_read _ _ _ _ _ _ _ R7), (reg_read _ _ _ _ _ _ _ R6),
      (reg_read _ _ _ _ _ _ _ R5), (reg_read _ _ _ _ _ _ _ R4), (reg_read _ _ _ _ _ _ _ R3),
      (reg_read _ _ _ _ _ _ _ R2), (reg_read _ _ _ _ _ _ _ R1).
    cbn [init_ioports ioport_read_table]. rewrite lookup_empty.
    destruct (b =? 0); cbn [andb]; [|reflexivity]. by_port p.
  - intros p d (f & g & E).
    rewrite (reg_opaque _ _ _ _ _ _ _ R10), (reg_opaque _ _ _ _ _ _ _ R9),
      (reg_opaque _ _ _ _ _ _ _ R8), (reg_opaque _ _ _ _ _ _ _ R7),
      (reg_opaque _ _ _ _ _ _ _ R6), (reg_opaque _ _ _ _ _ _ _ R5),
      (reg_opaque _ _ _ _ _ _ _ R4), (reg_opaque _ _ _ _ _ _ _ R3),
      (reg_opaque _ _ _ _ _ _ _ R2), (reg_opaque _ _ _ _ _ _ _ R1).
    destruct (port_cases p) as [[->|[->|[->|[->|[->| ->]]]]]|[Hp|(Hp1 & Hp2 & Hp3 & Hp4 & Hp5)]].
    1-6: injection E as <- <- <-; reflexivity.
    + rewrite decode_uart in E by exact Hp. injection E as <- <- <-.
      rewrite in_range_true by lia. reflexivity.
    + rewrite decode_none in E by assumption. discriminate.
Qed.

(** After the board is initialised, a guest byte write to a port of the
    controllers, of their trigger registers or of the UART runs exactly that
    device's handler on that device's state, and any other access of size 1,
    2 or 4 leaves the emulated devices alone. *)
Theorem board_out_dispatch t0 m :
  exists t, board_init t0 false = Ret t /\ forall port data size,
  get_bsize size <> -1 ->
  guest_out t m port data size =
    match (if size =? 1 then decode port else None) with
    | Some (f, _, d) => run_write m (Call_write f (Some d) port data)
    | None => Ret m
    end.
Proof.
  destruct (board_tables t0) as (t & E & Hw & _ & Ho). exists t. split; [exact E|].
  intros port data size Hs. unfold guest_out, io_out. rewrite Hw.
  rewrite (proj2 (Z.eqb_neq _ _) Hs). cbn [negb assert mbind res_bind].
  assert ((get_bsize size =? 0) = (size =? 1)) as ->
    by (unfold get_bsize; destruct (size =? 1), (size =? 2), (size =? 4); reflexivity).
  destruct (size =? 1).
  - destruct (decode port) as [[[f g] d]|] eqn:D; cbn [fmap option_fmap option_map].
    + rewrite (Ho port d) by eauto. reflexivity.
    + destruct (replay_log m); reflexivity.
  - destruct (replay_log m); reflexivity.
Qed.
