(* ===== verification/Intq.v ===== *)
(** * Interrupt queues

    [devices/intq.c]: the 64-byte circular buffer shared by kernel threads
    and interrupt handlers.  Callers run with interrupts off, so each pass
    through the body of [intq_getc] and [intq_putc] is one step of the model;
    a step that finds the queue empty (full) records the caller as the waiter
    and blocks it.  The queue refines a list of at most 63 bytes. *)

From Stdlib Require Import ZArith Lia Bool.
From stdpp Require Import base list numbers.
From S2P Require Import Prelude.

Definition INTQ_BUFSIZE : Z := 64.

Record intq := mk_intq {
  not_full : option Z;      (** waiting thread, by id *)
  not_empty : option Z;
  buf : list Z;
  head : Z;
  tail : Z }.

Definition next (pos : Z) : Z := (pos + 1) mod INTQ_BUFSIZE.

Definition intq_init (q : intq) : intq := mk_intq None None (buf q) 0 0.
Definition intq_empty (q : intq) : bool := head q =? tail q.
Definition intq_full (q : intq) : bool := next (head q) =? tail q.

(** Which waiter member a call passes the address of. *)
Inductive waiter := Not_empty | Not_full.

Definition wait (q : intq) (w : waiter) (current : Z) (intr_context : bool) : res intq :=
  assert (negb intr_context);;
  assert (match w with Not_empty => intq_empty q | Not_full => intq_full q end);;
  mret match w with
       | Not_empty => mk_intq (not_full q) (Some current) (buf q) (head q) (tail q)
       | Not_full => mk_intq (Some current) (not_empty q) (buf q) (head q) (tail q)
       end.

(** Returns the thread to unblock, if any. *)
Definition signal (q : intq) (w : waiter) : res (option Z * intq) :=
  assert (match w with Not_empty => negb (intq_empty q) | Not_full => negb (intq_full q) end);;
  mret match w with
       | Not_empty => (not_empty q, mk_intq (not_full q) None (buf q) (head q) (tail q))
       | Not_full => (not_full q, mk_intq None (not_empty q) (buf q) (head q) (tail q))
       end.

(** One pass: the caller blocks, or completes and wakes a waiter. *)
Inductive outcome (A : Type) :=
| Blocks
| Done (a : A) (woken : option Z).
Arguments Blocks {A}.
Arguments Done {A} a woken.

Definition intq_getc (q : intq) (current : Z) (intr_context : bool) : res (outcome Z * intq) :=
  if intq_empty q then
    assert (negb intr_context);;
    q ← wait q Not_empty current intr_context; mret (Blocks, q)
  else
    byte ← the (geti (buf q) (tail q));
    let q := mk_intq (not_full q) (not_empty q) (buf q) (head q) (next (tail q)) in
    '(w, q) ← signal q Not_full;
    mret (Done byte w, q).

Definition intq_putc (q : intq) (byte current : Z) (intr_context : bool)
  : res (outcome unit * intq) :=
  if intq_full q then
    assert (negb intr_context);;
    q ← wait q Not_full current intr_context; mret (Blocks, q)
  else
    _ ← the (geti (buf q) (head q));
    let q := mk_intq (not_full q) (not_empty q) (seti (buf q) (head q) byte)
               (next (head q)) (tail q) in
    '(w, q) ← signal q Not_empty;
    mret (Done tt w, q).

(** ** Abstract queue *)

Definition count (q : intq) : Z := (head q - tail q) mod 64.

Definition nth_byte (q : intq) (k : Z) : Z :=
  match geti (buf q) ((tail q + k) mod 64) with Some b => b | None => 0 end.

Definition contents (q : intq) : list Z := nth_byte q <$> seqZ 0 (count q).

Record wf (q : intq) : Prop := {
  wf_buf : lenZ (buf q) = 64;
  wf_head : 0 <= head q < 64;
  wf_tail : 0 <= tail q < 64;
  wf_not_empty : not_empty q <> None -> contents q = [];
  wf_not_full : not_full q <> None -> lenZ (contents q) = 63 }.

Lemma count_range q : 0 <= count q < 64.
Proof. apply Z.mod_pos_bound. lia. Qed.

Lemma contents_length q : lenZ (contents q) = count q.
Proof.
  unfold lenZ, contents. rewrite length_fmap, length_seqZ. pose proof (count_range q). lia.
Qed.

Lemma contents_nil q : contents q = [] <-> count q = 0.
Proof.
  pose proof (contents_length q) as H. pose proof (count_range q). unfold lenZ in H.
  destruct (contents q); simpl in H; split; intros; try discriminate; try lia. reflexivity.
Qed.

Lemma empty_count q : wf q -> intq_empty q = (count q =? 0).
Proof.
  intros [_ Hh Ht _ _]. unfold intq_empty, count.
  destruct (Z.eqb_spec (head q) (tail q)), (Z.eqb_spec ((head q - tail q) mod 64) 0); auto;
    exfalso; Z.div_mod_to_equations; lia.
Qed.

Lemma full_count q : wf q -> intq_full q = (count q =? 63).
Proof.
  intros [_ Hh Ht _ _]. unfold intq_full, count, next, INTQ_BUFSIZE.
  destruct (Z.eqb_spec ((head q + 1) mod 64) (tail q)),
    (Z.eqb_spec ((head q - tail q) mod 64) 63); auto;
    exfalso; Z.div_mod_to_equations; lia.
Qed.

Lemma seqZ_fmap_ext {A} (f g : Z -> A) a b n :
  (forall k, 0 <= k < n -> f (a + k) = g (b + k)) -> f <$> seqZ a n = g <$> seqZ b n.
Proof.
  intros H. apply list_eq. intros i. rewrite !list_lookup_fmap.
  destruct (decide (Z.of_nat i < n)) as [Hi|Hi].
  - rewrite !lookup_seqZ_lt by lia. simpl. f_equal. apply H. lia.
  - rewrite !lookup_seqZ_ge by lia. reflexivity.
Qed.

(** Dropping the oldest byte. *)
Lemma contents_pop q nf ne :
  wf q -> 0 < count q ->
  contents q = nth_byte q 0 :: contents (mk_intq nf ne (buf q) (head q) (next (tail q))).
Proof.
  intros [_ Hh Ht _ _] Hc. unfold contents.
  assert (Hc' : count (mk_intq nf ne (buf q) (head q) (next (tail q))) = count q - 1).
  { unfold count, next, INTQ_BUFSIZE in *. simpl. Z.div_mod_to_equations. lia. }
  rewrite Hc', seqZ_cons by lia. simpl. f_equal. rewrite Z.sub_1_r.
  apply seqZ_fmap_ext. intros k Hk. unfold nth_byte. simpl. unfold next, INTQ_BUFSIZE.
  rewrite Zplus_mod_idemp_l.
  replace (tail q + 1 + (0 + k)) with (tail q + (1 + k)) by lia. reflexivity.
Qed.

(** Adding a byte at the head. *)
Lemma contents_push q nf ne b :
  wf q -> count q < 63 ->
  contents (mk_intq nf ne (seti (buf q) (head q) b) (next (head q)) (tail q))
  = contents q ++ [b].
Proof.
  intros [Hb Hh Ht _ _] Hc. unfold contents. pose proof (count_range q).
  assert (Hc' : count (mk_intq nf ne (seti (buf q) (head q) b) (next (head q)) (tail q))
                = count q + 1).
  { unfold count, next, INTQ_BUFSIZE in *. simpl. Z.div_mod_to_equations. lia. }
  rewrite Hc', seqZ_app, fmap_app by lia. f_equal.
  - apply seqZ_fmap_ext. intros k Hk. unfold nth_byte. simpl.
    rewrite geti_seti_ne; [reflexivity|]. unfold count in *. Z.div_mod_to_equations. lia.
  - simpl. unfold nth_byte. simpl.
    replace ((tail q + (Z.of_nat 0 + (0 + count q))) mod 64) with (head q)
      by (unfold count; Z.div_mod_to_equations; lia).
    rewrite geti_seti_eq by lia. reflexivity.
Qed.

(** ** Each pass *)

Lemma getc_correct q current (ic : bool) :
  wf q ->
  match contents q with
  | [] => if ic then intq_getc q current ic = Stop Panic
          else exists q', intq_getc q current ic = Ret (Blocks, q') /\ wf q'
               /\ contents q' = [] /\ not_empty q' = Some current
  | b :: bs => exists q' w, intq_getc q current ic = Ret (Done b w, q') /\ wf q'
               /\ contents q' = bs /\ w = not_full q /\ not_full q' = None
  end.
Proof.
  intros Hwf. pose proof Hwf as [Hb Hh Ht Hne Hnf]. pose proof (count_range q) as Hc.
  pose proof (empty_count q Hwf) as He. unfold intq_getc. rewrite He.
  destruct (contents q) as [|b bs] eqn:E.
  - assert (Hc0 : count q = 0) by (apply contents_nil, E). rewrite Hc0. simpl.
    destruct ic; [reflexivity|]. unfold wait. rewrite He, Hc0. simpl.
    eexists. split; [reflexivity|]. simpl.
    assert (E' : contents (mk_intq (not_full q) (Some current) (buf q) (head q) (tail q)) = [])
      by exact E.
    split; [|auto]. split; auto. rewrite E'. exact Hnf.
  - assert (Hc0 : 0 < count q).
    { destruct (Z.eq_dec (count q) 0) as [H0|]; [|lia].
      apply contents_nil in H0. congruence. }
    rewrite (proj2 (Z.eqb_neq _ _)) by lia.
    destruct (geti_lt_Some (buf q) (tail q)) as [c Hg]; [lia|]. rewrite Hg. simpl.
    assert (Ec : c :: contents (mk_intq None (not_empty q) (buf q) (head q) (next (tail q)))
                 = b :: bs).
    { rewrite <- E, (contents_pop q None (not_empty q)) by assumption. f_equal.
      unfold nth_byte. rewrite Z.add_0_r, Z.mod_small, Hg by lia. reflexivity. }
    injection Ec as -> Ec.
    assert (Hwf' : wf (mk_intq None (not_empty q) (buf q) (head q) (next (tail q)))).
    { split; simpl; auto; try congruence.
      - apply Z.mod_pos_bound. reflexivity.
      - intros Hn. specialize (Hne Hn). congruence. }
    unfold signal.
    assert (Hf : intq_full (mk_intq (not_full q) (not_empty q) (buf q) (head q) (next (tail q)))
                 = false).
    { change (intq_full (mk_intq None (not_empty q) (buf q) (head q) (next (tail q))) = false).
      rewrite (full_count _ Hwf').
      pose proof (contents_length (mk_intq None (not_empty q) (buf q) (head q) (next (tail q)))).
      apply Z.eqb_neq. unfold count, next, INTQ_BUFSIZE in *. simpl in *.
      Z.div_mod_to_equations. lia. }
    rewrite Hf. simpl. eexists _, _. split; [reflexivity|]. auto.
Qed.

Lemma putc_correct q b current (ic : bool) :
  wf q ->
  if lenZ (contents q) =? 63 then
    if ic then intq_putc q b current ic = Stop Panic
    else exists q', intq_putc q b current ic = Ret (Blocks, q') /\ wf q'
         /\ contents q' = contents q /\ not_full q' = Some current
  else exists q' w, intq_putc q b current ic = Ret (Done tt w, q') /\ wf q'
       /\ contents q' = contents q ++ [b] /\ w = not_empty q /\ not_empty q' = None.
Proof.
  intros Hwf. pose proof Hwf as [Hb Hh Ht Hne Hnf]. pose proof (count_range q) as Hc.
  pose proof (full_count q Hwf) as Hf. rewrite contents_length. unfold intq_putc. rewrite Hf.
  destruct (Z.eqb_spec (count q) 63) as [E|E].
  - destruct ic; [reflexivity|]. unfold wait. rewrite Hf. simpl.
    eexists. split; [reflexivity|]. split; [|auto].
    split; simpl; auto. intros _.
    rewrite <- E. change (lenZ (contents q) = count q). apply contents_length.
  - destruct (geti_lt_Some (buf q) (head q)) as [c Hg]; [lia|]. rewrite Hg. simpl.
    set (nb := seti (buf q) (head q) b).
    assert (Ec : contents (mk_intq (not_full q) None nb (next (head q)) (tail q))
                 = contents q ++ [b]) by (apply contents_push; [assumption|lia]).
    assert (Hwf' : wf (mk_intq (not_full q) None nb (next (head q)) (tail q))).
    { split; simpl; auto; try congruence.
      - unfold nb. rewrite lenZ_seti. exact Hb.
      - apply Z.mod_pos_bound. reflexivity.
      - intros Hn. specialize (Hnf Hn). rewrite contents_length in Hnf. lia. }
    unfold signal.
    assert (He : intq_empty (mk_intq (not_full q) (not_empty q) nb (next (head q)) (tail q))
                 = false).
    { change (intq_empty (mk_intq (not_full q) None nb (next (head q)) (tail q)) = false).
      rewrite (empty_count _ Hwf'). apply Z.eqb_neq. rewrite <- contents_length, Ec.
      unfold lenZ. rewrite length_app. simpl. lia. }
    rewrite He. simpl. eexists _, _. split; [reflexivity|]. auto.
Qed.

(** ** Runs

    Threads and handlers put and get bytes in any order; a run collects the
    bytes of the passes that completed. *)

Inductive call := Put (b current : Z) (ic : bool) | Get (current : Z) (ic : bool).

Definition step (c : call) (q : intq) : res (list Z * list Z * intq) :=
  match c with
  | Put b cur ic => '(o, q) ← intq_putc q b cur ic;
      mret (match o with Blocks => [] | Done _ _ => [b] end, [], q)
  | Get cur ic => '(o, q) ← intq_getc q cur ic;
      mret ([], match o with Blocks => [] | Done b _ => [b] end, q)
  end.

(** Bytes put, bytes got, final queue. *)
Fixpoint run (cs : list call) (q : intq) : res (list Z * list Z * intq) :=
  match cs with
  | [] => mret ([], [], q)
  | c :: cs => '(p, g, q) ← step c q; '(ps, gs, q) ← run cs q; mret (p ++ ps, g ++ gs, q)
  end.

Definition from_handler (c : call) : bool :=
  match c with Put _ _ ic => ic | Get _ ic => ic end.

Lemma step_correct c q :
  wf q ->
  match step c q with
  | Ret (p, g, q') => wf q' /\ g ++ contents q' = contents q ++ p
  | Stop e => e = Panic /\ from_handler c = true
  end.
Proof.
  intros Hwf. destruct c as [b cur ic|cur ic]; simpl.
  - pose proof (putc_correct q b cur ic Hwf) as H.
    destruct (_ =? 63).
    + destruct ic; [rewrite H; simpl; auto|].
      destruct H as (q' & -> & Hq & Hc & _). simpl. rewrite Hc, app_nil_r. auto.
    + destruct H as (q' & w & -> & Hq & Hc & _). simpl. auto.
  - pose proof (getc_correct q cur ic Hwf) as H.
    destruct (contents q) as [|b bs].
    + destruct ic; [rewrite H; simpl; auto|].
      destruct H as (q' & -> & Hq & Hc & _). simpl. rewrite Hc. auto.
    + destruct H as (q' & w & -> & Hq & Hc & _). simpl. rewrite Hc, app_nil_r. auto.
Qed.

Lemma run_correct cs : forall q,
  wf q ->
  match run cs q with
  | Ret (ps, gs, q') => wf q' /\ gs ++ contents q' = contents q ++ ps
  | Stop e => e = Panic /\ existsb from_handler cs = true
  end.
Proof.
  induction cs as [|c cs IH]; intros q Hwf; simpl.
  - rewrite app_nil_r. auto.
  - pose proof (step_correct c q Hwf) as Hs.
    destruct (step c q) as [[[p g] q1]|e]; simpl; [|destruct Hs as [-> ->]; auto].
    destruct Hs as [Hwf1 E1]. specialize (IH q1 Hwf1).
    destruct (run cs q1) as [[[ps gs] q2]|e]; simpl.
    + destruct IH as [Hwf2 E2]. split; [exact Hwf2|].
      rewrite <- app_assoc, E2, app_assoc, E1, app_assoc. reflexivity.
    + destruct IH as [-> ->]. rewrite orb_true_r. auto.
Qed.

Lemma init_wf q : lenZ (buf q) = 64 -> wf (intq_init q) /\ contents (intq_init q) = [].
Proof. intros H. split; [|reflexivity]. split; simpl; auto; try lia; congruence. Qed.

(** ** Properties *)

(** The interrupt queue is a first-in first-out queue.  After any
    interleaving of completed puts and gets from a freshly initialised queue,
    the bytes got followed by the bytes still queued are exactly the bytes
    put, in order; a thread recorded as waiting for data waits on an empty
    queue and one waiting for room on a full one (no wake-up is lost); and an
    assertion fails only when an interrupt handler finds the queue empty or
    full. *)
Theorem intq_fifo q cs :
  lenZ (buf q) = 64 ->
  match run cs (intq_init q) with
  | Ret (puts, gets, q') => gets ++ contents q' = puts
      /\ lenZ (contents q') <= 63
      /\ (not_empty q' <> None -> contents q' = [])
      /\ (not_full q' <> None -> lenZ (contents q') = 63)
  | Stop e => e = Panic /\ existsb from_handler cs = true
  end.
Proof.
  intros Hb. destruct (init_wf q Hb) as [Hwf He]. pose proof (run_correct cs _ Hwf) as H.
  destruct (run cs (intq_init q)) as [[[ps gs] q']|e]; [|exact H].
  destruct H as [Hwf' E]. rewrite He in E. split; [exact E|].
  pose proof (count_range q'). rewrite contents_length. split; [lia|].
  rewrite <- contents_length. destruct Hwf'. auto.
Qed.

Lemma intq_fifo_witness :
  match run [Get 1 false; Put 10 2 true; Put 20 2 true; Get 1 false; Put 30 2 true]
          (intq_init (mk_intq None None (replicate 64 0) 5 9)) with
  | Ret (puts, gets, q') => gets ++ contents q' = puts /\ gets = [10] /\ contents q' = [20; 30]
  | Stop _ => False
  end.
Proof.
  pose proof (intq_fifo (mk_intq None None (replicate 64 0) 5 9)
    [Get 1 false; Put 10 2 true; Put 20 2 true; Get 1 false; Put 30 2 true] eq_refl) as P.
  destruct (run _ _) as [[[ps gs] q']|e] eqn:E.
  - split; [apply P|]. vm_compute in E. injection E as <- <- <-. split; reflexivity.
  - vm_compute in E. discriminate.
Defined.
