(* ===== verification/Gdt.v ===== *)
(** * Segment descriptors

    [sys/gdt.c]: the constructor and the readers of x86 segment descriptors,
    the cache of the guest's segment registers, and the shadow descriptors
    the monitor installs in its own descriptor table for them.  The guest's
    memory is reached through [ldl], a parameter; a store to it is part of
    the result. *)

From Stdlib Require Import ZArith Lia Bool.
From stdpp Require Import base list numbers.
From S2P Require Import Prelude Vaddr.

(** [sys/vcpu_consts.h], [sys/bootsector.h] and [sys/gdt.h]. *)
Definition GDT_SIZE : Z := 8192.
Definition NUM_SEGSELS : Z := 6.
Definition SEL_SIZE : Z := 0x48 + NUM_SEGSELS * 8.
Definition SEL_BASE : Z := GDT_SIZE * 8 - SEL_SIZE.
Definition SEL_SHADOW : Z := SEL_BASE + 0x48.
Definition NUM_SEGS : Z := 6.
Definition R_CS : Z := 1.
Definition CR0_PE_MASK : Z := 1 << 0.
Definition DESC_G_MASK : Z := 1 << 23.
Definition DESC_A_MASK : Z := 1 << 8.

Inductive seg_class := CLS_SYSTEM | CLS_CODE_DATA.
Inductive seg_granularity := GRAN_BYTE | GRAN_PAGE.

Definition class_val (c : seg_class) : Z :=
  match c with CLS_SYSTEM => 0 | CLS_CODE_DATA => 1 end.
Definition gran_val (g : seg_granularity) : Z :=
  match g with GRAN_BYTE => 0 | GRAN_PAGE => 1 end.

Definition make_seg_desc (base limit : Z) (class : seg_class) (type dpl : Z)
  (granularity : seg_granularity) : res Z :=
  assert (limit <=? 0xfffff);;
  assert ((0 <=? type) && (type <=? 15));;
  assert ((0 <=? dpl) && (dpl <=? 3));;
  let e0 := (limit &! 0xffff) |! wrap 32 (base << 16) in
  let e1 := ((base >> 16) &! 0xff) |! (type << 8) |! (class_val class << 12) |! (dpl << 13)
            |! (1 << 15) |! (limit &! 0xf0000) |! (1 << 22) |! (gran_val granularity << 23)
            |! (base &! 0xff000000) in
  mret (e0 |! wrap 64 (e1 << 32)).

Arguments make_seg_desc : simpl never.

Definition guest_limit (guest : bool) : Z :=
  if guest then (LOADER_MONITOR_VIRT_BASE - 1) >> 12 else 0xfffff.
Definition make_code_desc (dpl : Z) (guest : bool) : res Z :=
  make_seg_desc 0 (guest_limit guest) CLS_CODE_DATA 10 dpl GRAN_PAGE.
Definition make_data_desc (dpl : Z) (guest : bool) : res Z :=
  make_seg_desc 0 (guest_limit guest) CLS_CODE_DATA 2 dpl GRAN_PAGE.
Definition make_tss_desc (laddr : Z) : res Z :=
  make_seg_desc laddr 0x67 CLS_SYSTEM 9 0 GRAN_BYTE.
Definition make_gdtr_operand (limit base : Z) : Z := limit |! (base << 16).

Definition get_seg_base (e1 e2 : Z) : Z :=
  (e1 >> 16) |! wrap 32 ((e2 &! 0xff) << 16) |! (e2 &! 0xff000000).

Definition get_seg_limit (e1 e2 : Z) : Z :=
  let limit := (e1 &! 0xffff) |! (e2 &! 0x000f0000) in
  if nz (e2 &! DESC_G_MASK) then wrap 32 (limit << 12) |! 0xfff else limit.

(** The two words of a descriptor in memory. *)
Definition word0 (d : Z) : Z := wrap 32 d.
Definition word1 (d : Z) : Z := d >> 32.

(** ** Descriptor fields *)

(** The high word as a sum of its fields. *)
Lemma desc_words base limit class type dpl gran d :
  inU 32 base -> 0 <= limit -> make_seg_desc base limit class type dpl gran = Ret d ->
  limit < 2 ^ 20 /\ 0 <= type < 16 /\ 0 <= dpl < 4
  /\ word0 d = limit mod 2 ^ 16 + (base mod 2 ^ 16) * 2 ^ 16
  /\ word1 d = base / 2 ^ 16 mod 2 ^ 8 + type * 2 ^ 8 + class_val class * 2 ^ 12 + dpl * 2 ^ 13
       + 2 ^ 15 + (limit / 2 ^ 16) * 2 ^ 16 + 2 ^ 22 + gran_val gran * 2 ^ 23
       + (base / 2 ^ 24) * 2 ^ 24.
Proof.
  intros Hb Hl. unfold make_seg_desc. rewrite bind_Ret. intros (? & A1%assert_Ret & E).
  apply bind_Ret in E as (? & A2%assert_Ret & E).
  apply bind_Ret in E as (? & A3%assert_Ret & E). injection E as <-.
  apply Z.leb_le in A1. rewrite andb_true_iff, !Z.leb_le in A2, A3. unfold inU in Hb.
  assert (Hc : 0 <= class_val class <= 1) by (destruct class; simpl; lia).
  assert (Hg : 0 <= gran_val gran <= 1) by (destruct gran; simpl; lia).
  do 3 (split; [lia|]).
  assert (E0 : (limit &! 0xffff) |! wrap 32 (base << 16)
               = limit mod 2 ^ 16 + (base mod 2 ^ 16) * 2 ^ 16).
  { change 0xffff with (Z.ones 16). rewrite Z.land_ones by lia.
    replace (wrap 32 (base << 16)) with ((base mod 2 ^ 16) << 16).
    - apply lor_shiftl_low; [|lia]. apply Z.mod_pos_bound. lia.
    - rewrite !Z.shiftl_mul_pow2 by lia. unfold wrap.
      change (2 ^ 32) with (2 ^ 16 * 2 ^ 16). rewrite Zmult_mod_distr_r. reflexivity. }
  assert (E1 : ((base >> 16) &! 0xff) |! (type << 8) |! (class_val class << 12) |! (dpl << 13)
            |! (1 << 15) |! (limit &! 0xf0000) |! (1 << 22) |! (gran_val gran << 23)
            |! (base &! 0xff000000)
    = base / 2 ^ 16 mod 2 ^ 8 + type * 2 ^ 8 + class_val class * 2 ^ 12 + dpl * 2 ^ 13
       + 2 ^ 15 + (limit / 2 ^ 16) * 2 ^ 16 + 2 ^ 22 + gran_val gran * 2 ^ 23
       + (base / 2 ^ 24) * 2 ^ 24).
  { change 0xff with (Z.ones 8). change 0xf0000 with (Z.ones 4 << 16).
    change 0xff000000 with (Z.ones 8 << 24).
    rewrite Z.land_ones, Z.shiftr_div_pow2, !land_field_at by lia.
    replace (base / 2 ^ 24 mod 2 ^ 8) with (base / 2 ^ 24)
      by (symmetry; apply Z.mod_small; Z.div_mod_to_equations; lia).
    replace (limit / 2 ^ 16 mod 2 ^ 4) with (limit / 2 ^ 16)
      by (symmetry; apply Z.mod_small; Z.div_mod_to_equations; lia).
    pose proof (Z.mod_pos_bound (base / 2 ^ 16) (2 ^ 8) ltac:(lia)).
    assert (0 <= limit / 2 ^ 16 < 2 ^ 4) by (Z.div_mod_to_equations; lia).
    rewrite (lor_shiftl_low 8), (lor_shiftl_low 12), (lor_shiftl_low 13), (lor_shiftl_low 15),
      (lor_shiftl_low 16), (lor_shiftl_low 22), (lor_shiftl_low 23), (lor_shiftl_low 24)
      by (unfold inU; lia). lia. }
  rewrite E0, E1.
  assert (0 <= limit / 2 ^ 16 < 2 ^ 4) by (Z.div_mod_to_equations; lia).
  assert (0 <= base / 2 ^ 24 < 2 ^ 8) by (Z.div_mod_to_equations; lia).
  pose proof (Z.mod_pos_bound (base / 2 ^ 16) (2 ^ 8) ltac:(lia)).
  pose proof (Z.mod_pos_bound limit (2 ^ 16) ltac:(lia)).
  pose proof (Z.mod_pos_bound base (2 ^ 16) ltac:(lia)).
  rewrite wrap_id, lor_shiftl_low by (try rewrite Z.shiftl_mul_pow2 by lia; unfold inU; lia).
  unfold word0, word1, wrap. rewrite Z.shiftr_div_pow2 by lia.
  rewrite Z.mod_add, Z.div_add, Z.mod_small, Z.div_small by lia. split; [reflexivity|lia].
Qed.

Lemma get_seg_base_sum e1 e2 :
  inU 32 e1 -> inU 32 e2 ->
  get_seg_base e1 e2 = e1 / 2 ^ 16 + (e2 mod 2 ^ 8) * 2 ^ 16 + (e2 / 2 ^ 24) * 2 ^ 24.
Proof.
  intros H1 H2. unfold get_seg_base, inU in *. change 0xff with (Z.ones 8).
  change 0xff000000 with (Z.ones 8 << 24). rewrite land_field_at, Z.land_ones by lia.
  replace (e2 / 2 ^ 24 mod 2 ^ 8) with (e2 / 2 ^ 24)
    by (symmetry; apply Z.mod_small; Z.div_mod_to_equations; lia).
  pose proof (Z.mod_pos_bound e2 (2 ^ 8) ltac:(lia)).
  assert (0 <= e1 / 2 ^ 16 < 2 ^ 16) by (Z.div_mod_to_equations; lia).
  rewrite (wrap_id 32) by (rewrite Z.shiftl_mul_pow2 by lia; unfold inU; lia).
  rewrite Z.shiftr_div_pow2 by lia.
  rewrite (lor_shiftl_low 16), (lor_shiftl_low 24) by (unfold inU; lia). reflexivity.
Qed.

Lemma get_seg_limit_sum e1 e2 :
  inU 32 e1 -> inU 32 e2 ->
  let limit := e1 mod 2 ^ 16 + (e2 / 2 ^ 16 mod 2 ^ 4) * 2 ^ 16 in
  get_seg_limit e1 e2 = if Z.testbit e2 23 then limit * 2 ^ 12 + 0xfff else limit.
Proof.
  intros H1 H2. unfold get_seg_limit, inU, DESC_G_MASK in *. rewrite land_bit_nz by lia.
  change 0xffff with (Z.ones 16). change 0x000f0000 with (Z.ones 4 << 16).
  rewrite land_field_at, Z.land_ones by lia.
  pose proof (Z.mod_pos_bound e1 (2 ^ 16) ltac:(lia)).
  pose proof (Z.mod_pos_bound (e2 / 2 ^ 16) (2 ^ 4) ltac:(lia)).
  rewrite (lor_shiftl_low 16) by (unfold inU; lia). destruct (Z.testbit e2 23); [|reflexivity].
  rewrite Z.shiftl_mul_pow2, wrap_id by (unfold inU; lia).
  rewrite Z.mul_comm, lor_mult_low by (try inU_num; lia). lia.
Qed.

(** Treat the slices of base and limit as variables and solve the rest as
    linear arithmetic. *)
Ltac by_fields base limit :=
  set (bm := base / 2 ^ 16 mod 2 ^ 8) in *; set (bh := base / 2 ^ 24) in *;
  set (bl := base mod 2 ^ 16) in *; set (lh := limit / 2 ^ 16) in *;
  set (ll := limit mod 2 ^ 16) in *; clearbody bm bh bl lh ll;
  Z.div_mod_to_equations; lia.

(** Fields of the high word, by position. *)
Lemma desc_fields base limit class type dpl gran d :
  inU 32 base -> 0 <= limit -> make_seg_desc base limit class type dpl gran = Ret d ->
  inU 32 (word0 d) /\ inU 32 (word1 d)
  /\ get_seg_base (word0 d) (word1 d) = base
  /\ get_seg_limit (word0 d) (word1 d) =
       match gran with GRAN_BYTE => limit | GRAN_PAGE => limit * 2 ^ 12 + 0xfff end
  /\ word1 d / 2 ^ 8 mod 2 ^ 4 = type /\ word1 d / 2 ^ 13 mod 2 ^ 2 = dpl
  /\ word1 d / 2 ^ 12 mod 2 = class_val class /\ Z.testbit (word1 d) 15 = true.
Proof.
  intros Hb Hl E. destruct (desc_words _ _ _ _ _ _ _ Hb Hl E) as (Hl2 & Ht & Hd & E0 & E1).
  unfold inU in *. clear E.
  assert (Hc : 0 <= class_val class <= 1) by (destruct class; simpl; lia).
  assert (Hg : 0 <= gran_val gran <= 1) by (destruct gran; simpl; lia).
  assert (Hlh : 0 <= limit / 2 ^ 16 < 2 ^ 4) by (Z.div_mod_to_equations; lia).
  assert (Hbh : 0 <= base / 2 ^ 24 < 2 ^ 8) by (Z.div_mod_to_equations; lia).
  pose proof (Z.mod_pos_bound (base / 2 ^ 16) (2 ^ 8) ltac:(lia)) as Hbm.
  pose proof (Z.mod_pos_bound limit (2 ^ 16) ltac:(lia)) as Hll.
  pose proof (Z.mod_pos_bound base (2 ^ 16) ltac:(lia)) as Hbl.
  assert (H0 : inU 32 (word0 d)) by (unfold inU; lia).
  assert (H1 : inU 32 (word1 d)) by (unfold inU; lia).
  split; [exact H0|split; [exact H1|]]. split; [|split; [|split; [|split; [|split]]]].
  - rewrite get_seg_base_sum by assumption. rewrite E0, E1.
    assert (base = base mod 2 ^ 16 + base / 2 ^ 16 mod 2 ^ 8 * 2 ^ 16 + base / 2 ^ 24 * 2 ^ 24)
      by (Z.div_mod_to_equations; lia).
    by_fields base limit.
  - rewrite get_seg_limit_sum by assumption.
    assert (Hgb : Z.testbit (word1 d) 23 = (gran_val gran =? 1)).
    { rewrite Z.testbit_eqb, E1 by lia. f_equal. clear E0 E1. by_fields base limit. }
    assert (Hlim : word0 d mod 2 ^ 16 + word1 d / 2 ^ 16 mod 2 ^ 4 * 2 ^ 16 = limit).
    { rewrite E0, E1. assert (limit = limit mod 2 ^ 16 + limit / 2 ^ 16 * 2 ^ 16)
        by (pose proof (Z.div_mod limit (2 ^ 16)); lia).
      by_fields base limit. }
    rewrite Hlim, Hgb. destruct gran; reflexivity.
  - rewrite E1. by_fields base limit.
  - rewrite E1. by_fields base limit.
  - rewrite E1. by_fields base limit.
  - rewrite Z.testbit_eqb, E1 by lia. apply Z.eqb_eq. by_fields base limit.
Qed.

(** ** The segment cache *)

Record segcache := mk_segcache { selector : Z; base : Z; limit : Z; flags : Z }.

Record seg_state := mk_segs {
  segs : list segcache;
  orig_segs : list Z;
  gdt : list Z;            (** the monitor's table, 64-bit entries *)
  gdt_addr : Z;            (** its address *)
  guest_gdt_base : Z;      (** [vcpu.gdt] *)
  guest_gdt_limit : Z;
  cr0 : Z }.

Definition upd_segs (s : seg_state) (l : list segcache) : seg_state :=
  mk_segs l (orig_segs s) (gdt s) (gdt_addr s) (guest_gdt_base s) (guest_gdt_limit s) (cr0 s).
Definition upd_orig (s : seg_state) (l : list Z) : seg_state :=
  mk_segs (segs s) l (gdt s) (gdt_addr s) (guest_gdt_base s) (guest_gdt_limit s) (cr0 s).
Definition upd_gdt (s : seg_state) (l : list Z) : seg_state :=
  mk_segs (segs s) (orig_segs s) l (gdt_addr s) (guest_gdt_base s) (guest_gdt_limit s) (cr0 s).

(** Array stores; outside the array is a stray store. *)
Definition store {A} (l : list A) (i : Z) (a : A) : res (list A) :=
  _ ← the (geti l i); mret (seti l i a).

(** [read_segment]: [None] is the false result; the last component is the
    store that sets the accessed bit in the guest's table. *)
Definition read_segment (ldl : Z -> Z) (s : seg_state) (sel : Z) (shadow set_accessed : bool)
  : res (option (Z * Z * option (Z * Z))) :=
  _ ← (if shadow then mret tt
       else assert (nz (cr0 s &! CR0_PE_MASK));; assert (negb (nz (sel &! 0x4))));
  let gdt_base := if shadow then gdt_addr s else guest_gdt_base s in
  let gdt_limit := if shadow then GDT_SIZE * 8 - 1 else wrap 16 (guest_gdt_limit s) in
  let index := sel &~ 7 in
  if gdt_limit <? index + 7 then mret None
  else
    let ptr := wrap 32 (gdt_base + index) in
    '(e1, e2) ← (if shadow then
                   assert (is_monitor_vaddr ptr);;
                   d ← the (geti (gdt s) (index / 8)); mret (word0 d, word1 d)
                 else mret (ldl ptr, ldl (wrap 32 (ptr + 4))));
    if set_accessed && negb (nz (e2 &! DESC_A_MASK)) then
      let e2 := e2 |! DESC_A_MASK in mret (Some (e1, e2, Some (wrap 32 (ptr + 4), e2)))
    else mret (Some (e1, e2, None)).

Definition gdt_make_shadow_segdesc (s : seg_state) (segno : Z) : res seg_state :=
  sc ← the (geti (segs s) segno);
  let '(granularity, lim) :=
    if nz (flags sc &! DESC_G_MASK) then (GRAN_PAGE, limit sc >> 12)
    else (GRAN_BYTE, limit sc) in
  d ← make_seg_desc (base sc) lim CLS_CODE_DATA 2 3 granularity;
  g ← store (gdt s) (selector sc >> 3) d;
  mret (upd_gdt s g).

Definition shadow_selector (segno : Z) : Z := (SEL_SHADOW + (segno << 3)) |! 0x3.

Definition set_selector (sc : segcache) (v : Z) : segcache :=
  mk_segcache v (base sc) (limit sc) (flags sc).

Definition vcpu_get_privilege_level (s : seg_state) : res Z :=
  cs ← the (geti (orig_segs s) R_CS);
  mret (b2z (nz (cr0 s &! CR0_PE_MASK) && (cs &! 3 =? 3))).

(** The second component is the argument of [switch_to_shadow] when [CS] is
    loaded. *)
Definition load_seg_cache (s : seg_state) (segno sel b lim fl : Z)
  : res (seg_state * option Z) :=
  l ← store (segs s) segno (mk_segcache (sel |! 0x3) b lim fl);
  o ← store (orig_segs s) segno sel;
  let s := upd_orig (upd_segs s l) o in
  s ← (if negb (nz (cr0 s &! CR0_PE_MASK)) || (SEL_BASE <=? sel) then
         sc ← the (geti (segs s) segno);
         l ← store (segs s) segno (set_selector sc (shadow_selector segno));
         mret (upd_segs s l)
       else mret s);
  s ← gdt_make_shadow_segdesc s segno;
  if segno =? R_CS then user ← vcpu_get_privilege_level s; mret (s, Some user)
  else mret (s, None).

(** One iteration of the loop of [gdt_load].  When the guest's own entry is
    out of reach, [e1] and [e2] keep the words of the shadow entry. *)
Definition gdt_load_seg (ldl : Z -> Z) (s : seg_state) (segno : Z) : res seg_state :=
  sc ← the (geti (segs s) segno);
  if selector sc <? SEL_BASE then
    r ← read_segment ldl s (selector sc) true false;
    '(e1, e2, _) ← the r;
    if negb (e1 =? 0) || negb (e2 =? 0) then
      r ← read_segment ldl s (selector sc) false false;
      let '(e1, e2) := match r with Some (e1', e2', _) => (e1', e2') | None => (e1, e2) end in
      l ← store (segs s) segno (mk_segcache (shadow_selector segno)
            (get_seg_base e1 e2) (get_seg_limit e1 e2) e2);
      gdt_make_shadow_segdesc (upd_segs s l) segno
    else mret s
  else mret s.

Fixpoint gdt_load_loop (n : nat) (ldl : Z -> Z) (s : seg_state) (segno : Z) : res seg_state :=
  match n with
  | O => mret s
  | S n => s ← gdt_load_seg ldl s segno; gdt_load_loop n ldl s (segno + 1)
  end.

(** [memset (gdt, 0, SEL_BASE)]. *)
Definition clear_guest_entries (g : list Z) : list Z :=
  replicate (Z.to_nat (SEL_BASE / 8)) 0 ++ drop (Z.to_nat (SEL_BASE / 8)) g.

Definition gdt_load (ldl : Z -> Z) (s : seg_state) (b lim : Z) : res seg_state :=
  s ← gdt_load_loop (Z.to_nat NUM_SEGS) ldl s 0;
  if SEL_BASE <? lim + 1 then Stop Panic
  else mret (upd_gdt s (clear_guest_entries (gdt s))).

Definition segcache_sync (ldl : Z -> Z) (s : seg_state) (segno : Z) : res seg_state :=
  sc ← the (geti (segs s) segno);
  if selector sc <? SEL_BASE then
    o ← the (geti (orig_segs s) segno);
    r ← read_segment ldl s o false false;
    '(e1, e2, _) ← the r;
    l ← store (segs s) segno (mk_segcache (selector sc)
          (get_seg_base e1 e2) (get_seg_limit e1 e2) e2);
    mret (upd_segs s l)
  else mret s.

(** ** Loading a segment register *)

Definition sizes_ok (s : seg_state) : Prop :=
  lenZ (segs s) = NUM_SEGS /\ lenZ (orig_segs s) = NUM_SEGS /\ lenZ (gdt s) = GDT_SIZE.

Lemma store_ok {A} (l : list A) i a :
  0 <= i < lenZ l -> store l i a = Ret (seti l i a).
Proof. intros H. unfold store. destruct (geti_lt_Some l i H) as [x ->]. reflexivity. Qed.

Lemma make_seg_desc_ok base limit :
  0 <= limit <= 0xfffff -> forall gran,
  exists d, make_seg_desc base limit CLS_CODE_DATA 2 3 gran = Ret d.
Proof.
  intros Hl gran. unfold make_seg_desc. rewrite (proj2 (Z.leb_le limit _)) by lia.
  simpl. eexists. reflexivity.
Qed.

(** The limit a descriptor can express for a cached segment. *)
Definition effective_limit (lim fl : Z) : Z :=
  if nz (fl &! DESC_G_MASK) then lim / 2 ^ 12 * 2 ^ 12 + 0xfff else lim.

Lemma shadow_segdesc_spec s segno sc :
  sizes_ok s -> geti (segs s) segno = Some sc -> inU 32 (base sc) -> inU 32 (limit sc) ->
  0 <= selector sc < 2 ^ 16 ->
  nz (flags sc &! DESC_G_MASK) = true \/ limit sc <= 0xfffff ->
  exists d, gdt_make_shadow_segdesc s segno = Ret (upd_gdt s (seti (gdt s) (selector sc >> 3) d))
  /\ get_seg_base (word0 d) (word1 d) = base sc
  /\ get_seg_limit (word0 d) (word1 d) = effective_limit (limit sc) (flags sc)
  /\ word1 d / 2 ^ 13 mod 2 ^ 2 = 3 /\ Z.testbit (word1 d) 15 = true.
Proof.
  intros (_ & _ & Hg) Hsc Hb Hl Hsel Hfl. unfold gdt_make_shadow_segdesc. rewrite Hsc.
  cbn [the mbind res_bind]. unfold effective_limit.
  set (lim := if nz (flags sc &! DESC_G_MASK) then limit sc >> 12 else limit sc).
  set (gran := if nz (flags sc &! DESC_G_MASK) then GRAN_PAGE else GRAN_BYTE).
  assert (Hlim : 0 <= lim <= 0xfffff).
  { unfold lim, inU in *. destruct (nz _); [|destruct Hfl; [discriminate|lia]].
    rewrite Z.shiftr_div_pow2 by lia. Z.div_mod_to_equations. lia. }
  destruct (make_seg_desc_ok (base sc) lim Hlim gran) as [d Ed].
  destruct (desc_fields _ _ _ _ _ _ _ Hb (proj1 Hlim) Ed) as (_ & _ & E1 & E2 & _ & E3 & _ & E4).
  exists d. split; [|split; [exact E1|split; [|auto]]].
  - unfold lim, gran in Ed.
    assert (Hi : 0 <= selector sc >> 3 < lenZ (gdt s)).
    { rewrite Hg, Z.shiftr_div_pow2 by lia. unfold GDT_SIZE. Z.div_mod_to_equations. lia. }
    destruct (nz (flags sc &! DESC_G_MASK)); rewrite Ed; cbn [mbind res_bind];
      rewrite store_ok by exact Hi; reflexivity.
  - rewrite E2. unfold gran, lim. destruct (nz _); [|reflexivity].
    rewrite Z.shiftr_div_pow2 by lia. reflexivity.
Qed.

Lemma shadow_selector_val segno :
  0 <= segno < NUM_SEGS -> shadow_selector segno = SEL_SHADOW + segno * 8 + 3.
Proof.
  unfold NUM_SEGS. intros H. assert (Hs : segno = 0 \/ segno = 1 \/ segno = 2 \/ segno = 3
    \/ segno = 4 \/ segno = 5) by lia.
  destruct Hs as [->|[->|[->|[->|[->| ->]]]]]; reflexivity.
Qed.

(** The selector the cache ends up with. *)
Definition cached_selector (s : seg_state) (segno sel : Z) : Z :=
  if negb (nz (cr0 s &! CR0_PE_MASK)) || (SEL_BASE <=? sel)
  then shadow_selector segno else sel |! 0x3.

Lemma lor_3_range sel : 0 <= sel < 2 ^ 16 -> 0 <= sel |! 0x3 < 2 ^ 16.
Proof. intros H. apply (inU_lor 16); [lia|exact H|inU_num]. Qed.

Lemma cached_selector_range s segno sel :
  0 <= segno < NUM_SEGS -> 0 <= sel < 2 ^ 16 -> 0 <= cached_selector s segno sel < 2 ^ 16.
Proof.
  intros H1 H2. unfold cached_selector. destruct (_ || _).
  - rewrite shadow_selector_val by exact H1. unfold NUM_SEGS in H1.
    change SEL_SHADOW with 65488. lia.
  - apply lor_3_range, H2.
Qed.

(** 1 when the guest is in protected mode and [sel] asks for privilege level
    3, and 0 otherwise. *)
Definition user_level (s : seg_state) (sel : Z) : Z :=
  if Z.testbit (cr0 s) 0 && (sel mod 4 =? 3) then 1 else 0.

Lemma load_seg_cache_correct s segno sel b lim fl :
  sizes_ok s -> 0 <= segno < NUM_SEGS -> 0 <= sel < 2 ^ 16 -> inU 32 b -> inU 32 lim ->
  nz (fl &! DESC_G_MASK) = true \/ lim <= 0xfffff ->
  exists s' sw d, load_seg_cache s segno sel b lim fl = Ret (s', sw)
  /\ geti (segs s') segno = Some (mk_segcache (cached_selector s segno sel) b lim fl)
  /\ geti (orig_segs s') segno = Some sel
  /\ gdt s' = seti (gdt s) (cached_selector s segno sel >> 3) d
  /\ get_seg_base (word0 d) (word1 d) = b
  /\ get_seg_limit (word0 d) (word1 d) = effective_limit lim fl
  /\ word1 d / 2 ^ 13 mod 2 ^ 2 = 3 /\ Z.testbit (word1 d) 15 = true
  /\ sizes_ok s' /\ sw = (if segno =? R_CS then Some (user_level s sel) else None).
Proof.
  intros (H1 & H2 & H3) Hn Hsel Hb Hl Hfl. unfold load_seg_cache.
  rewrite !store_ok by lia. cbn [mbind res_bind].
  set (sc := mk_segcache (cached_selector s segno sel) b lim fl).
  set (s1 := upd_orig (upd_segs s (seti (segs s) segno (mk_segcache (sel |! 3) b lim fl)))
               (seti (orig_segs s) segno sel)).
  assert (E1 : (if negb (nz (cr0 s1 &! CR0_PE_MASK)) || (SEL_BASE <=? sel) then
         sc ← the (geti (segs s1) segno);
         l ← store (segs s1) segno (set_selector sc (shadow_selector segno));
         mret (upd_segs s1 l)
       else mret s1) = Ret (upd_segs s1 (if negb (nz (cr0 s &! CR0_PE_MASK)) || (SEL_BASE <=? sel)
           then seti (seti (segs s) segno (mk_segcache (sel |! 3) b lim fl)) segno sc
           else seti (segs s) segno sc))).
  { unfold sc, cached_selector. change (cr0 s1) with (cr0 s).
    destruct (negb (nz (cr0 s &! CR0_PE_MASK)) || (SEL_BASE <=? sel)); [|reflexivity].
    change (segs s1) with (seti (segs s) segno (mk_segcache (sel |! 3) b lim fl)).
    rewrite geti_seti_eq by lia. cbn [the mbind res_bind].
    rewrite store_ok by (rewrite lenZ_seti; lia). reflexivity. }
  rewrite E1. cbn [mbind res_bind]. set (s2 := upd_segs s1 _).
  assert (Hs2 : geti (segs s2) segno = Some sc /\ lenZ (segs s2) = NUM_SEGS).
  { unfold s2. cbn [segs upd_segs].
    destruct (_ || _); rewrite geti_seti_eq, !lenZ_seti by (rewrite ?lenZ_seti; lia); auto. }
  destruct Hs2 as [Hs2 Hlen].
  destruct (shadow_segdesc_spec s2 segno sc) as (d & Ed & D1 & D2 & D3 & D4);
    [|exact Hs2|exact Hb|exact Hl|apply cached_selector_range; assumption|exact Hfl|].
  { split; [exact Hlen|]. split; [|exact H3].
    change (orig_segs s2) with (seti (orig_segs s) segno sel). rewrite lenZ_seti. exact H2. }
  rewrite Ed. cbn [mbind res_bind].
  set (s3 := upd_gdt s2 _).
  assert (Ho : geti (orig_segs s3) segno = Some sel) by (apply geti_seti_eq; lia).
  assert (Hok : sizes_ok s3).
  { split; [exact Hlen|]. split.
    - change (orig_segs s3) with (seti (orig_segs s) segno sel). rewrite lenZ_seti. exact H2.
    - unfold s3. cbn [gdt upd_gdt]. rewrite lenZ_seti. exact H3. }
  destruct (Z.eqb_spec segno R_CS) as [->|Hcs].
  - unfold vcpu_get_privilege_level. rewrite Ho. cbn [the mbind res_bind].
    eexists s3, _, d. split; [reflexivity|]. do 8 (split; [assumption || reflexivity|]).
    change (cr0 s3) with (cr0 s). unfold user_level, CR0_PE_MASK.
    change (sel &! 3) with (Z.land sel (Z.ones 2)). rewrite Z.land_ones by lia. change (2 ^ 2) with 4.
    change 1 with (1 << 0) at 1. rewrite land_bit_nz by lia. by destruct (_ && _).
  - eexists s3, _, d. split; [reflexivity|]. do 8 (split; [assumption || reflexivity|]). reflexivity.
Qed.


Definition new_segs : seg_state :=
  mk_segs (replicate 6 (mk_segcache 0 0 0 0)) (replicate 6 0) (replicate 8192 0)
    0xffc20000 0 0 1.

Lemma new_segs_ok : sizes_ok new_segs.
Proof. repeat split. Qed.


(** A descriptor built by [make_seg_desc] reads back as it was built: the
    base, the limit scaled by its granularity, the type, the privilege level
    and the class, with the present bit set. *)
Theorem seg_desc_roundtrip base limit class type dpl gran d :
  inU 32 base -> 0 <= limit -> make_seg_desc base limit class type dpl gran = Ret d ->
  get_seg_base (word0 d) (word1 d) = base
  /\ get_seg_limit (word0 d) (word1 d) =
       match gran with GRAN_BYTE => limit | GRAN_PAGE => limit * 2 ^ 12 + 0xfff end
  /\ word1 d / 2 ^ 8 mod 2 ^ 4 = type /\ word1 d / 2 ^ 13 mod 2 ^ 2 = dpl
  /\ word1 d / 2 ^ 12 mod 2 = class_val class /\ Z.testbit (word1 d) 15 = true.
Proof. intros Hb Hl E. apply (desc_fields base limit class type dpl gran d Hb Hl E). Qed.

Lemma seg_desc_roundtrip_witness :
  get_seg_base (word0 0x12c0a93456780067) (word1 0x12c0a93456780067) = 0x12345678
  /\ get_seg_limit (word0 0x12c0a93456780067) (word1 0x12c0a93456780067) = 0x67 * 2 ^ 12 + 0xfff
  /\ word1 0x12c0a93456780067 / 2 ^ 8 mod 2 ^ 4 = 9
  /\ word1 0x12c0a93456780067 / 2 ^ 13 mod 2 ^ 2 = 1
  /\ word1 0x12c0a93456780067 / 2 ^ 12 mod 2 = class_val CLS_SYSTEM
  /\ Z.testbit (word1 0x12c0a93456780067) 15 = true.
Proof.
  apply (seg_desc_roundtrip 0x12345678 0x67 CLS_SYSTEM 9 1 GRAN_PAGE 0x12c0a93456780067);
    [inU_num|lia|vm_compute; reflexivity].
Defined.

(** The monitor's own descriptors for guest code and data end just below the
    monitor. *)
Lemma guest_descs_below_monitor :
  exists c d, make_code_desc 3 true = Ret c /\ make_data_desc 3 true = Ret d
  /\ get_seg_base (word0 c) (word1 c) = 0 /\ get_seg_base (word0 d) (word1 d) = 0
  /\ get_seg_limit (word0 c) (word1 c) = MONITOR_BASE - 1
  /\ get_seg_limit (word0 d) (word1 d) = MONITOR_BASE - 1.
Proof. eexists _, _. repeat split. Qed.

(** The guest is not confined by segmentation once it loads a segment of
    its own: the limit of the shadow descriptor is not truncated, so every
    page-granular guest segment whose limit lies past the monitor's base gets
    a privilege-3 descriptor through which monitor addresses are reachable. *)
Theorem shadow_desc_reaches_monitor s segno sel lim fl :
  sizes_ok s -> 0 <= segno < NUM_SEGS -> 0 <= sel < 2 ^ 16 -> inU 32 lim ->
  nz (fl &! DESC_G_MASK) = true -> MONITOR_BASE <= lim ->
  exists s' sw d i, load_seg_cache s segno sel 0 lim fl = Ret (s', sw)
  /\ geti (gdt s') i = Some d /\ word1 d / 2 ^ 13 mod 2 ^ 2 = 3
  /\ get_seg_base (word0 d) (word1 d) + get_seg_limit (word0 d) (word1 d) >= MONITOR_BASE.
Proof.
  intros Hok Hn Hsel Hl Hfl Hm.
  destruct (load_seg_cache_correct s segno sel 0 lim fl)
    as (s' & sw & d & E & _ & _ & Eg & Eb & El & Ed & _); auto; [inU_num|].
  exists s', sw, d, (cached_selector s segno sel >> 3). split; [exact E|]. split; [|split; [exact Ed|]].
  - rewrite Eg. apply geti_seti_eq. destruct Hok as (_ & _ & ->).
    pose proof (cached_selector_range s segno sel Hn Hsel).
    rewrite Z.shiftr_div_pow2 by lia. unfold GDT_SIZE. Z.div_mod_to_equations. lia.
  - rewrite Eb, El. unfold effective_limit. rewrite Hfl.
    pose proof (Z.div_mod lim (2 ^ 12)). pose proof (Z.mod_pos_bound lim (2 ^ 12)). lia.
Qed.

Lemma shadow_desc_reaches_monitor_witness :
  exists s' sw d i, load_seg_cache new_segs 3 0x10 0 0xffffffff 0xcf9200 = Ret (s', sw)
  /\ geti (gdt s') i = Some d /\ word1 d / 2 ^ 13 mod 2 ^ 2 = 3
  /\ get_seg_base (word0 d) (word1 d) + get_seg_limit (word0 d) (word1 d) >= MONITOR_BASE.
Proof.
  apply (shadow_desc_reaches_monitor new_segs 3 0x10 0xffffffff 0xcf9200);
    [exact new_segs_ok|vm_compute; split; congruence|lia|inU_num|reflexivity|].
  vm_compute. congruence.
Defined.
