(* ===== verification/Vcpu.v ===== *)
(** * The guest's processor

    [vcpu_t] of [sys/vcpu.h] with the guest's memory, the accessors that
    header defines ([ld_kernel], [st_kernel], [PUSHL], [POPL], [SET_ESP]), the
    segment functions of [sys/gdt.c] on that state, and the exceptions the
    code raises for the guest ([raise_interrupt] of [sys/interrupt.c]).

    A function ends in one of three ways: it returns ([Next]), it raises an
    exception for the guest and leaves by [longjmp] with the state it had
    changed so far ([Raise]), or the monitor stops ([Halt]).

    The guest's page tables are the parameter [fault]: the error code with
    which they refuse an access, if they do.  Memory is by linear address, so
    that a guest which maps one frame at two addresses and uses both is not
    covered.  Everything runs at the
    monitor's user level, as the assertions on [read_cpl] require. *)

From Stdlib Require Import ZArith Lia Bool.
From stdpp Require Import base list numbers.
From S2P Require Import Prelude Vaddr Gdt.

(** [exception_index], [error_code], [exception_is_int] and
    [exception_next_eip]. *)
Record exception := mk_exn {
  exception_index : Z;
  error_code : Z;
  exception_is_int : bool;
  exception_next_eip : Z }.

Record vcpu_t := mk_vcpu {
  eip : Z; (** guest instruction pointer *)
  eip_executing : Z; (** start of the block being run *)
  regs : list Z;
  eflags : Z;
  tr : segcache;
  idt : Z * Z; (** base and limit *)
  sg : seg_state; (** segment registers, both tables, [cr[0]] *)
  IF_ : Z; (** [vcpu.IF] *)
  IOPL : Z;
  AC : Z;
  temporaries : list Z;
  halted : bool;
  cr2 : Z;
  exn : exception;
  exception_cr2 : Z;
  pt_user : Z; (** the shadow directory in use *)
  mem : Z -> Z (** guest memory, a byte per linear address *) }.

Definition set_eip (v : Z) (s : vcpu_t) : vcpu_t :=
  mk_vcpu v (eip_executing s) (regs s) (eflags s) (tr s) (idt s) (sg s) (IF_ s) (IOPL s) (AC
    s) (temporaries s) (halted s) (cr2 s) (exn s) (exception_cr2 s) (pt_user s) (mem s).
Definition set_eip_executing (v : Z) (s : vcpu_t) : vcpu_t :=
  mk_vcpu (eip s) v (regs s) (eflags s) (tr s) (idt s) (sg s) (IF_ s) (IOPL s) (AC s)
    (temporaries s) (halted s) (cr2 s) (exn s) (exception_cr2 s) (pt_user s) (mem s).
Definition set_regs (v : list Z) (s : vcpu_t) : vcpu_t :=
  mk_vcpu (eip s) (eip_executing s) v (eflags s) (tr s) (idt s) (sg s) (IF_ s) (IOPL s) (AC s)
    (temporaries s) (halted s) (cr2 s) (exn s) (exception_cr2 s) (pt_user s) (mem s).
Definition set_eflags (v : Z) (s : vcpu_t) : vcpu_t :=
  mk_vcpu (eip s) (eip_executing s) (regs s) v (tr s) (idt s) (sg s) (IF_ s) (IOPL s) (AC s)
    (temporaries s) (halted s) (cr2 s) (exn s) (exception_cr2 s) (pt_user s) (mem s).
Definition set_tr (v : segcache) (s : vcpu_t) : vcpu_t :=
  mk_vcpu (eip s) (eip_executing s) (regs s) (eflags s) v (idt s) (sg s) (IF_ s) (IOPL s) (AC
    s) (temporaries s) (halted s) (cr2 s) (exn s) (exception_cr2 s) (pt_user s) (mem s).
Definition set_idt (v : Z * Z) (s : vcpu_t) : vcpu_t :=
  mk_vcpu (eip s) (eip_executing s) (regs s) (eflags s) (tr s) v (sg s) (IF_ s) (IOPL s) (AC
    s) (temporaries s) (halted s) (cr2 s) (exn s) (exception_cr2 s) (pt_user s) (mem s).
Definition set_sg (v : seg_state) (s : vcpu_t) : vcpu_t :=
  mk_vcpu (eip s) (eip_executing s) (regs s) (eflags s) (tr s) (idt s) v (IF_ s) (IOPL s) (AC
    s) (temporaries s) (halted s) (cr2 s) (exn s) (exception_cr2 s) (pt_user s) (mem s).
Definition set_IF (v : Z) (s : vcpu_t) : vcpu_t :=
  mk_vcpu (eip s) (eip_executing s) (regs s) (eflags s) (tr s) (idt s) (sg s) v (IOPL s) (AC
    s) (temporaries s) (halted s) (cr2 s) (exn s) (exception_cr2 s) (pt_user s) (mem s).
Definition set_IOPL (v : Z) (s : vcpu_t) : vcpu_t :=
  mk_vcpu (eip s) (eip_executing s) (regs s) (eflags s) (tr s) (idt s) (sg s) (IF_ s) v (AC s)
    (temporaries s) (halted s) (cr2 s) (exn s) (exception_cr2 s) (pt_user s) (mem s).
Definition set_AC (v : Z) (s : vcpu_t) : vcpu_t :=
  mk_vcpu (eip s) (eip_executing s) (regs s) (eflags s) (tr s) (idt s) (sg s) (IF_ s) (IOPL s)
    v (temporaries s) (halted s) (cr2 s) (exn s) (exception_cr2 s) (pt_user s) (mem s).
Definition set_temporaries (v : list Z) (s : vcpu_t) : vcpu_t :=
  mk_vcpu (eip s) (eip_executing s) (regs s) (eflags s) (tr s) (idt s) (sg s) (IF_ s) (IOPL s)
    (AC s) v (halted s) (cr2 s) (exn s) (exception_cr2 s) (pt_user s) (mem s).
Definition set_halted (v : bool) (s : vcpu_t) : vcpu_t :=
  mk_vcpu (eip s) (eip_executing s) (regs s) (eflags s) (tr s) (idt s) (sg s) (IF_ s) (IOPL s)
    (AC s) (temporaries s) v (cr2 s) (exn s) (exception_cr2 s) (pt_user s) (mem s).
Definition set_cr2 (v : Z) (s : vcpu_t) : vcpu_t :=
  mk_vcpu (eip s) (eip_executing s) (regs s) (eflags s) (tr s) (idt s) (sg s) (IF_ s) (IOPL s)
    (AC s) (temporaries s) (halted s) v (exn s) (exception_cr2 s) (pt_user s) (mem s).
Definition set_exn (v : exception) (s : vcpu_t) : vcpu_t :=
  mk_vcpu (eip s) (eip_executing s) (regs s) (eflags s) (tr s) (idt s) (sg s) (IF_ s) (IOPL s)
    (AC s) (temporaries s) (halted s) (cr2 s) v (exception_cr2 s) (pt_user s) (mem s).
Definition set_exception_cr2 (v : Z) (s : vcpu_t) : vcpu_t :=
  mk_vcpu (eip s) (eip_executing s) (regs s) (eflags s) (tr s) (idt s) (sg s) (IF_ s) (IOPL s)
    (AC s) (temporaries s) (halted s) (cr2 s) (exn s) v (pt_user s) (mem s).
Definition set_pt_user (v : Z) (s : vcpu_t) : vcpu_t :=
  mk_vcpu (eip s) (eip_executing s) (regs s) (eflags s) (tr s) (idt s) (sg s) (IF_ s) (IOPL s)
    (AC s) (temporaries s) (halted s) (cr2 s) (exn s) (exception_cr2 s) v (mem s).
Definition set_mem (v : Z -> Z) (s : vcpu_t) : vcpu_t :=
  mk_vcpu (eip s) (eip_executing s) (regs s) (eflags s) (tr s) (idt s) (sg s) (IF_ s) (IOPL s)
    (AC s) (temporaries s) (halted s) (cr2 s) (exn s) (exception_cr2 s) (pt_user s) v.

(** [sys/vcpu_consts.h] and the descriptor masks of [sys/gdt.h]. *)
Definition NUM_REGS : Z := 8.
Definition R_EAX : Z := 0.
Definition R_ECX : Z := 1.
Definition R_EDX : Z := 2.
Definition R_ESP : Z := 4.
Definition R_ESI : Z := 6.
Definition R_EDI : Z := 7.
Definition R_ES : Z := 0.
Definition R_SS : Z := 2.
Definition R_DS : Z := 3.
Definition R_FS : Z := 4.
Definition R_GS : Z := 5.
Definition EXCP0A_TSS : Z := 10.
Definition EXCP0B_NOSEG : Z := 11.
Definition EXCP0D_GPF : Z := 13.
Definition EXCP0E_PAGE : Z := 14.
Definition PF_U : Z := 0x4.
Definition TF_MASK : Z := 0x100.
Definition IF_MASK : Z := 0x200.
Definition DF_MASK : Z := 0x400.
Definition IOPL_MASK : Z := 0x3000.
Definition NT_MASK : Z := 0x4000.
Definition RF_MASK : Z := 0x10000.
Definition VM_MASK : Z := 0x20000.
Definition AC_MASK : Z := 0x40000.
Definition ID_MASK : Z := 0x200000.
Definition IOPL_SHIFT : Z := 12.
Definition AC_SHIFT : Z := 18.
Definition DESC_B_MASK : Z := 1 << 22.
Definition DESC_L_MASK : Z := 1 << 21.
Definition DESC_P_MASK : Z := 1 << 15.
Definition DESC_S_MASK : Z := 1 << 12.
Definition DESC_CS_MASK : Z := 1 << 11.
Definition DESC_C_MASK : Z := 1 << 10.
Definition DESC_W_MASK : Z := 1 << 9.
Definition DESC_TSS_BUSY_MASK : Z := 1 << 9.
Definition DESC_DPL_SHIFT : Z := 13.
Definition DESC_TYPE_SHIFT : Z := 8.

Definition desc_dpl (e2 : Z) : Z := (e2 >> DESC_DPL_SHIFT) &! 3.

(** ** Computations on the processor *)

Inductive outcome (A : Type) : Type :=
| Next (a : A) (s : vcpu_t)
| Raise (s : vcpu_t)
| Halt (e : stop).
Arguments Next {A} a s.
Arguments Raise {A} s.
Arguments Halt {A} e.

Definition guest (A : Type) : Type := vcpu_t -> outcome A.

#[global] Instance guest_ret : MRet guest := fun A a s => Next a s.
#[global] Instance guest_bind : MBind guest := fun A B f m s =>
  match m s with Next a s' => f a s' | Raise s' => Raise s' | Halt e => Halt e end.

Definition gets {A} (f : vcpu_t -> A) : guest A := fun s => Next (f s) s.
Definition upd (f : vcpu_t -> vcpu_t) : guest unit := fun s => Next tt (f s).
Definition lift (A : Type) (m : res A) : guest A := fun s =>
  match m with Ret a => Next a s | Stop e => Halt e end.
Arguments lift {A} m.
Definition NOT_IMPLEMENTED {A} : guest A := fun _ => Halt Panic.
Definition ASSERT (b : bool) : guest unit := lift (assert b).
Definition when (b : bool) (m : guest unit) : guest unit := if b then m else mret tt.

(** ** Exceptions *)

(** [raise_interrupt], up to the record of external interrupts in the replay
    log. *)
Definition raise_interrupt {A} (intno : Z) (is_int_insn : bool) (err next_eip : Z) : guest A :=
  fun s => Raise (set_exn (mk_exn intno err is_int_insn next_eip) s).

Definition raise_exception_err {A} (intno err : Z) : guest A := raise_interrupt intno false err 0.

Definition raise_if (b : bool) (intno err : Z) : guest unit :=
  when b (raise_exception_err intno err).

Definition vcpu_cpl : guest Z := s ← gets sg; cs ← lift (the (geti (orig_segs s) R_CS));
  mret (cs &! 3).

(** ** Memory *)

Fixpoint load (n : nat) (m : Z -> Z) (a : Z) : Z :=
  match n with O => 0 | S n => m a + 2 ^ 8 * load n m (a + 1) end.

Definition poke (m : Z -> Z) (a v : Z) : Z -> Z := fun x => if x =? a then wrap 8 v else m x.

Fixpoint save (n : nat) (m : Z -> Z) (a v : Z) : Z -> Z :=
  match n with O => m | S n => save n (poke m a v) (a + 1) (v >> 8) end.

Section Guest.

(** [fault a write]: the error code of the page fault that the guest's tables
    give for an access at [a], when it is theirs. *)
Context (fault : Z -> bool -> option Z).

(** A fault of the guest's during [ld_kernel] or [st_kernel]: [page_fault]
    records the address and [guest_intr_handler] restarts the instruction
    being executed with an exception. *)
Definition guest_fault {A} (a err : Z) : guest A :=
  cpl ← vcpu_cpl;
  let err := if nz (err &! PF_U) && negb (cpl =? 3) then err &~ PF_U else err in
  upd (set_exception_cr2 a);;
  s ← gets id;
  upd (set_eip (eip_executing s));;
  raise_exception_err EXCP0E_PAGE err.

(** The access itself: the address is asserted to be below the monitor, and
    the segment the access goes through ends there. *)
Definition touch (n : nat) (a : Z) (write : bool) : guest unit :=
  ASSERT (a <? LOADER_MONITOR_VIRT_BASE);;
  match fault a write, fault (a + Z.of_nat n - 1) write with
  | Some err, _ => guest_fault a err
  | None, Some err => guest_fault (a + Z.of_nat n - 1) err
  | None, None => if a + Z.of_nat n <=? LOADER_MONITOR_VIRT_BASE then mret tt
                  else lift (Stop Trap)
  end.

Definition ld_kernel (n : nat) (a : Z) : guest Z := touch n a false;; gets (fun s => load n (mem s) a).
Definition st_kernel (n : nat) (a v : Z) : guest unit :=
  touch n a true;; upd (fun s => set_mem (save n (mem s) a v) s).

(** [PUSHW] and [PUSHL] ([n] is 2 or 4), [POPW] and [POPL]: the new stack
    pointer is returned. *)
Definition PUSH (n : nat) (ssp sp sp_mask v : Z) : guest Z :=
  let sp := wrap 32 (sp - Z.of_nat n) in
  st_kernel n (wrap 32 (ssp + (sp &! sp_mask))) v;; mret sp.
Definition POP (n : nat) (ssp sp sp_mask : Z) : guest (Z * Z) :=
  v ← ld_kernel n (wrap 32 (ssp + (sp &! sp_mask)));
  mret (v, wrap 32 (sp + Z.of_nat n)).

Definition get_sp_mask (e2 : Z) : Z := if nz (e2 &! DESC_B_MASK) then 0xffffffff else 0xffff.

(** Registers; the number is asserted or constant wherever it is used. *)
Definition get_reg (r : Z) : guest Z := l ← gets regs; lift (the (geti l r)).
Definition set_reg (r v : Z) : guest unit :=
  l ← gets regs; l ← lift (store l r v); upd (set_regs l).
Definition SET_ESP (v sp_mask : Z) : guest unit :=
  esp ← get_reg R_ESP; set_reg R_ESP ((esp &~ sp_mask) |! (v &! sp_mask)).

(** ** Segments *)

Definition seg_cache (segno : Z) : guest segcache :=
  s ← gets sg; lift (the (geti (segs s) segno)).
Definition orig_seg (segno : Z) : guest Z :=
  s ← gets sg; lift (the (geti (orig_segs s) segno)).

(** [segcache_sync]: the guest's table is read through its page tables by
    [ldl_kernel_dont_set_access_bit], which gives up on a missing page. *)
Definition vcpu_segcache_sync (segno : Z) : guest unit :=
  s ← gets id;
  sc ← seg_cache segno; o ← orig_seg segno;
  let ptr := wrap 32 (guest_gdt_base (sg s) + (o &~ 7)) in
  let missing := negb (bool_decide (fault ptr false = None))
                 || negb (bool_decide (fault (wrap 32 (ptr + 4)) false = None)) in
  if (selector sc <? SEL_BASE) && ((o &~ 7) + 7 <=? wrap 16 (guest_gdt_limit (sg s))) && missing
  then NOT_IMPLEMENTED
  else g ← lift (segcache_sync (load 4 (mem s)) (sg s) segno); upd (set_sg g).

(** [read_segment (&e1, &e2, selector, false, true)]. *)
Definition vcpu_read_segment (sel : Z) : guest (option (Z * Z)) :=
  s ← gets id;
  r ← lift (read_segment (load 4 (mem s)) (sg s) sel false true);
  match r with
  | None => mret None
  | Some (e1, e2, wr) =>
      let ptr := wrap 32 (guest_gdt_base (sg s) + (sel &~ 7)) in
      _ ← ld_kernel 4 ptr; _ ← ld_kernel 4 (wrap 32 (ptr + 4));
      match wr with Some (a, v) => st_kernel 4 a v | None => mret tt end;;
      mret (Some (e1, e2))
  end.

(** [load_seg_cache]; a new [CS] selects a shadow page directory. *)
Definition vcpu_load_seg_cache (segno sel b lim fl : Z) : guest unit :=
  s ← gets sg;
  '(g, user) ← lift (load_seg_cache s segno sel b lim fl);
  upd (set_sg g);;
  match user with Some u => upd (set_pt_user u) | None => mret tt end.

End Guest.

(** ** Reasoning about computations *)

Lemma bind_Next {A B} (m : guest A) (f : A -> guest B) s b s' :
  (m ≫= f) s = Next b s' <-> exists a s1, m s = Next a s1 /\ f a s1 = Next b s'.
Proof.
  unfold mbind, guest_bind. destruct (m s) as [a s1|s1|e]; split.
  - eauto.
  - intros (? & ? & [= <- <-] & ?). assumption.
  - discriminate.
  - intros (? & ? & ? & _). discriminate.
  - discriminate.
  - intros (? & ? & ? & _). discriminate.
Qed.

Lemma bind_run {A B} (m : guest A) (f : A -> guest B) s a s1 :
  m s = Next a s1 -> (m ≫= f) s = f a s1.
Proof. intros E. unfold mbind, guest_bind. rewrite E. reflexivity. Qed.

Lemma bind_Raise {A B} (m : guest A) (f : A -> guest B) s s1 :
  m s = Raise s1 -> (m ≫= f) s = Raise s1.
Proof. intros E. unfold mbind, guest_bind. rewrite E. reflexivity. Qed.

Lemma ret_Next {A} (a b : A) s s' : (mret a : guest A) s = Next b s' <-> a = b /\ s' = s.
Proof. unfold mret, guest_ret. split; [intros [= -> ->]; auto|intros [-> ->]; reflexivity]. Qed.

Lemma gets_Next {A} (f : vcpu_t -> A) s a s' : gets f s = Next a s' <-> a = f s /\ s' = s.
Proof. unfold gets. split; [intros [= -> ->]; auto|intros [-> ->]; reflexivity]. Qed.

Lemma upd_Next f s u s' : upd f s = Next u s' <-> s' = f s.
Proof. unfold upd. destruct u. split; [intros [= ->]; auto|intros ->; reflexivity]. Qed.

Lemma lift_Next {A} (m : res A) s a s' : lift m s = Next a s' <-> m = Ret a /\ s' = s.
Proof. unfold lift. destruct m; split; [intros [= -> ->]; auto|intros [[= ->] ->]; reflexivity|discriminate|intros [? _]; discriminate]. Qed.

Lemma when_Next b m s u s' :
  when b m s = Next u s' <-> (if b then m s = Next u s' else s' = s).
Proof. unfold when. destruct b; [reflexivity|]. rewrite ret_Next. destruct u. tauto. Qed.

Lemma ASSERT_Next b s u s' : ASSERT b s = Next u s' <-> b = true /\ s' = s.
Proof. unfold ASSERT. rewrite lift_Next, assert_Ret. reflexivity. Qed.

Lemma raise_if_Next b i e s u s' : raise_if b i e s = Next u s' -> b = false /\ s' = s.
Proof. unfold raise_if. rewrite when_Next. destruct b; [discriminate|auto]. Qed.

(** Decompose a computation that returns.  [ginv_known] is extended with the
    inversion of each operation. *)
Ltac ginv_known H := idtac.
Ltac ginv H :=
  lazymatch type of H with
  | (_ ≫= _) _ = Next _ _ =>
      let a := fresh "a" in let s := fresh "s" in let H1 := fresh "H" in
      apply bind_Next in H as (a & s & H1 & H); ginv H1; cbn beta iota in H; ginv H
  | mret _ _ = Next _ _ => apply ret_Next in H as [? ->]
  | gets _ _ = Next _ _ => apply gets_Next in H as [-> ->]
  | upd _ _ = Next _ _ => apply upd_Next in H as ->
  | lift _ _ = Next _ _ => apply lift_Next in H as [H ->]
  | ASSERT _ _ = Next _ _ => apply ASSERT_Next in H as [H ->]
  | when _ _ _ = Next _ _ => apply when_Next in H
  | NOT_IMPLEMENTED _ = Next _ _ => discriminate H
  | raise_exception_err _ _ _ = Next _ _ => discriminate H
  | raise_if _ _ _ _ = Next _ _ => apply raise_if_Next in H as [H ->]
  | (match ?p with (_, _) => _ end) _ = Next _ _ => destruct p; cbn beta iota in H; ginv H
  | _ => ginv_known H
  end.

(** ** Memory *)

Lemma load_ext n m m' a :
  (forall x, a <= x < a + Z.of_nat n -> m x = m' x) -> load n m a = load n m' a.
Proof.
  revert a. induction n as [|n IH]; intros a H; [reflexivity|]. cbn [load].
  rewrite H by lia. f_equal. f_equal. apply IH. intros x Hx. apply H. lia.
Qed.

Lemma save_out n m a v x : x < a \/ a + Z.of_nat n <= x -> save n m a v x = m x.
Proof.
  revert m a v. induction n as [|n IH]; intros m a v H; [reflexivity|]. cbn [save].
  rewrite IH by lia. unfold poke. destruct (Z.eqb_spec x a); [lia|reflexivity].
Qed.

Lemma load_save_other n k m a b v :
  a + Z.of_nat n <= b \/ b + Z.of_nat k <= a -> load n (save k m b v) a = load n m a.
Proof. intros H. apply load_ext. intros x Hx. apply save_out. lia. Qed.

Lemma load_save n m a v : load n (save n m a v) a = wrap (8 * Z.of_nat n) v.
Proof.
  revert m a v. induction n as [|n IH]; intros m a v; [symmetry; apply Z.mod_1_r|].
  cbn [load save]. rewrite IH, save_out by lia. unfold poke. rewrite Z.eqb_refl.
  unfold wrap. rewrite Z.shiftr_div_pow2 by lia.
  replace (8 * Z.of_nat (S n)) with (8 + 8 * Z.of_nat n) by lia.
  rewrite Z.pow_add_r, Z.rem_mul_r by (lia || apply Z.pow_pos_nonneg; lia). lia.
Qed.

Lemma load_inU n m a : (forall x, inU 8 (m x)) -> inU (8 * Z.of_nat n) (load n m a).
Proof.
  intros H. revert a. induction n as [|n IH]; intros a; [inU_num|]. cbn [load].
  specialize (H a). specialize (IH (a + 1)). unfold inU in *.
  replace (8 * Z.of_nat (S n)) with (8 + 8 * Z.of_nat n) by lia.
  rewrite Z.pow_add_r by lia. nia.
Qed.

#[global] Arguments load : simpl never.
#[global] Arguments save : simpl never.

(** [s'] differs from [s] in memory only. *)
Definition only_mem (s s' : vcpu_t) : Prop := s' = set_mem (mem s') s.

Lemma only_mem_refl s : only_mem s s.
Proof. destruct s. reflexivity. Qed.

Lemma only_mem_set s m : only_mem s (set_mem m s).
Proof. reflexivity. Qed.

Lemma only_mem_trans s1 s2 s3 : only_mem s1 s2 -> only_mem s2 s3 -> only_mem s1 s3.
Proof. unfold only_mem. intros H12 ->. rewrite H12. destruct s1. reflexivity. Qed.

Section Accesses.
Context (fault : Z -> bool -> option Z).

Lemma touch_Next n a w s u s' :
  touch fault n a w s = Next u s' -> s' = s /\ a + Z.of_nat n <= LOADER_MONITOR_VIRT_BASE.
Proof.
  unfold touch. intros H. ginv H. destruct (fault a w); [|destruct (fault _ w)].
  1,2: unfold guest_fault in H; ginv H.
  destruct (Z.leb_spec (a + Z.of_nat n) LOADER_MONITOR_VIRT_BASE); ginv H; [auto|discriminate].
Qed.

Lemma ld_kernel_Next n a s v s' :
  ld_kernel fault n a s = Next v s' -> v = load n (mem s) a /\ s' = s.
Proof.
  unfold ld_kernel. intros H. ginv H. apply touch_Next in H0 as [-> _]. auto.
Qed.

Lemma st_kernel_Next n a v s u s' :
  st_kernel fault n a v s = Next u s' -> s' = set_mem (save n (mem s) a v) s.
Proof. unfold st_kernel. intros H. ginv H. apply touch_Next in H0 as [-> _]. reflexivity. Qed.

Lemma PUSH_Next n ssp sp mask v s sp' s' :
  PUSH fault n ssp sp mask v s = Next sp' s' ->
  sp' = wrap 32 (sp - Z.of_nat n)
  /\ s' = set_mem (save n (mem s) (wrap 32 (ssp + (sp' &! mask))) v) s.
Proof. unfold PUSH. intros H. ginv H. apply st_kernel_Next in H0. subst. auto. Qed.

Lemma POP_Next n ssp sp mask s v sp' s' :
  POP fault n ssp sp mask s = Next (v, sp') s' ->
  v = load n (mem s) (wrap 32 (ssp + (sp &! mask))) /\ sp' = wrap 32 (sp + Z.of_nat n) /\ s' = s.
Proof.
  unfold POP. intros H. ginv H. apply ld_kernel_Next in H0 as [-> ->].
  injection H as <- <-. auto.
Qed.

(** ** Accesses that go through *)

Definition reachable (n : nat) (a : Z) (w : bool) : Prop :=
  a + Z.of_nat n <= LOADER_MONITOR_VIRT_BASE
  /\ fault a w = None /\ fault (a + Z.of_nat n - 1) w = None.

Lemma touch_run n a w s : (n <> 0)%nat -> reachable n a w -> touch fault n a w s = Next tt s.
Proof.
  intros Hn (H & F1 & F2). unfold touch.
  rewrite (bind_run _ _ _ tt s) by (rewrite ASSERT_Next, Z.ltb_lt; split; [lia|reflexivity]).
  rewrite F1, F2, (proj2 (Z.leb_le _ _) H). reflexivity.
Qed.

Lemma ld_kernel_run n a s :
  (n <> 0)%nat -> reachable n a false -> ld_kernel fault n a s = Next (load n (mem s) a) s.
Proof.
  intros Hn H. unfold ld_kernel. rewrite (bind_run _ _ _ _ _ (touch_run n a false s Hn H)).
  reflexivity.
Qed.

Lemma st_kernel_run n a v s :
  (n <> 0)%nat -> reachable n a true ->
  st_kernel fault n a v s = Next tt (set_mem (save n (mem s) a v) s).
Proof.
  intros Hn H. unfold st_kernel. rewrite (bind_run _ _ _ _ _ (touch_run n a true s Hn H)).
  reflexivity.
Qed.

End Accesses.

(** ** Segments *)

(** The guest's privilege level. *)
Definition level (s : vcpu_t) : Z := default 0 (geti (orig_segs (sg s)) R_CS) &! 3.

Lemma level_range s : 0 <= level s < 4.
Proof. unfold level. change 3 with (Z.ones 2). rewrite Z.land_ones by lia. apply Z.mod_pos_bound. lia. Qed.

Lemma orig_seg_Next segno s v s' :
  orig_seg segno s = Next v s' -> geti (orig_segs (sg s)) segno = Some v /\ s' = s.
Proof. unfold orig_seg. intros H. ginv H. apply the_Ret in H. auto. Qed.

Lemma seg_cache_Next segno s v s' :
  seg_cache segno s = Next v s' -> geti (segs (sg s)) segno = Some v /\ s' = s.
Proof. unfold seg_cache. intros H. ginv H. apply the_Ret in H. auto. Qed.

Lemma vcpu_cpl_Next s c s' : vcpu_cpl s = Next c s' -> c = level s /\ s' = s.
Proof.
  unfold vcpu_cpl, level. intros H. ginv H. apply the_Ret in H0. rewrite H0. auto.
Qed.

Lemma get_reg_Next r s v s' : get_reg r s = Next v s' -> geti (regs s) r = Some v /\ s' = s.
Proof. unfold get_reg. intros H. ginv H. apply the_Ret in H. auto. Qed.

Lemma store_Ret {A} (l l' : list A) i a : store l i a = Ret l' -> l' = seti l i a /\ 0 <= i < lenZ l.
Proof.
  unfold store. rewrite bind_Ret. intros (x & Hx%the_Ret & [= <-]).
  split; [reflexivity|]. eapply geti_Some_lt. exact Hx.
Qed.

Lemma set_reg_Next r v s u s' : set_reg r v s = Next u s' -> s' = set_regs (seti (regs s) r v) s.
Proof. unfold set_reg. intros H. ginv H. apply store_Ret in H0 as [-> _]. reflexivity. Qed.

Lemma SET_ESP_Next v mask s u s' :
  SET_ESP v mask s = Next u s' -> exists esp, geti (regs s) R_ESP = Some esp
  /\ s' = set_regs (seti (regs s) R_ESP ((esp &~ mask) |! (v &! mask))) s.
Proof.
  unfold SET_ESP. intros H. apply bind_Next in H as (esp & s1 & H1 & H).
  apply get_reg_Next in H1 as [H1 ->]. apply set_reg_Next in H. eauto.
Qed.

Ltac ginv_known H ::=
  lazymatch type of H with
  | seg_cache _ _ = Next _ _ => apply seg_cache_Next in H as [H ->]
  | orig_seg _ _ = Next _ _ => apply orig_seg_Next in H as [H ->]
  | get_reg _ _ = Next _ _ => apply get_reg_Next in H as [H ->]
  | vcpu_cpl _ = Next _ _ => apply vcpu_cpl_Next in H as [-> ->]
  | ld_kernel _ _ _ _ = Next _ _ => apply ld_kernel_Next in H as [-> ->]
  | st_kernel _ _ _ _ _ = Next _ _ => apply st_kernel_Next in H as ->
  | _ => idtac
  end.

(** What operations on the cache leave alone. *)
Definition same_tables (g g' : seg_state) : Prop :=
  cr0 g' = cr0 g /\ guest_gdt_base g' = guest_gdt_base g /\ guest_gdt_limit g' = guest_gdt_limit g
  /\ gdt_addr g' = gdt_addr g.

Lemma make_shadow_same g segno g' :
  gdt_make_shadow_segdesc g segno = Ret g' ->
  same_tables g g' /\ orig_segs g' = orig_segs g /\ segs g' = segs g.
Proof.
  unfold gdt_make_shadow_segdesc. rewrite bind_Ret. intros (sc & _ & H).
  destruct (nz _); rewrite bind_Ret in H; destruct H as (d & _ & H);
    rewrite bind_Ret in H; destruct H as (l & _ & [= <-]); repeat split.
Qed.

Lemma load_seg_cache_same g segno sel b lim fl g' u :
  load_seg_cache g segno sel b lim fl = Ret (g', u) ->
  same_tables g g' /\ orig_segs g' = seti (orig_segs g) segno sel
  /\ 0 <= segno < lenZ (orig_segs g) /\ geti (orig_segs g') segno = Some sel.
Proof.
  unfold load_seg_cache. intros H.
  apply bind_Ret in H as (l & [-> _]%store_Ret & H).
  apply bind_Ret in H as (o & [-> Ho]%store_Ret & H).
  apply bind_Ret in H as (g1 & H1 & H). apply bind_Ret in H as (g2 & H2 & H).
  apply make_shadow_same in H2 as (T & O & _).
  assert (E1 : same_tables g g1 /\ orig_segs g1 = seti (orig_segs g) segno sel).
  { destruct (_ || _).
    - apply bind_Ret in H1 as (sc & _ & H1). apply bind_Ret in H1 as (l & _ & [= <-]). repeat split.
    - injection H1 as <-. repeat split. }
  assert (E : g' = g2).
  { destruct (segno =? R_CS); [|injection H; auto].
    apply bind_Ret in H as (? & _ & [= <- _]). reflexivity. }
  subst g'. destruct E1 as [(T1 & T2 & T3 & T4) O1], T as (? & ? & ? & ?).
  unfold same_tables. rewrite O, O1. split; [repeat split; congruence|].
  split; [reflexivity|]. split; [lia|]. apply geti_seti_eq. lia.
Qed.

Lemma vcpu_load_seg_cache_Next segno sel b lim fl s u s' :
  vcpu_load_seg_cache segno sel b lim fl s = Next u s' ->
  exists g p, s' = set_pt_user p (set_sg g s) /\ same_tables (sg s) g
  /\ orig_segs g = seti (orig_segs (sg s)) segno sel
  /\ geti (orig_segs g) segno = Some sel.
Proof.
  unfold vcpu_load_seg_cache. intros H. apply bind_Next in H as (? & ? & H1 & H). ginv H1.
  apply bind_Next in H as ([g user] & ? & H1 & H). ginv H1. cbn beta iota in H. ginv H.
  apply load_seg_cache_same in H1 as (T & O & _ & G).
  destruct user as [p|]; ginv H; subst; [exists g, p; auto|].
  exists g, (pt_user s). destruct s; auto.
Qed.

Lemma vcpu_segcache_sync_Next fault segno s u s' :
  vcpu_segcache_sync fault segno s = Next u s' ->
  exists g, s' = set_sg g s /\ same_tables (sg s) g /\ orig_segs g = orig_segs (sg s).
Proof.
  unfold vcpu_segcache_sync. intros H. ginv H. cbn beta zeta in H. destruct (_ && _); ginv H.
  eexists. split; [reflexivity|].
  match goal with K : segcache_sync _ _ _ = _ |- _ => clear H1; rename K into H1 end.
  unfold segcache_sync in H1.
  apply bind_Ret in H1 as (sc & _ & H1). destruct (selector sc <? SEL_BASE).
  - apply bind_Ret in H1 as (o & _ & H1). apply bind_Ret in H1 as (r & _ & H1).
    apply bind_Ret in H1 as ([[e1 e2] wr] & _ & H1). apply bind_Ret in H1 as (l & _ & [= <-]).
    repeat split.
  - injection H1 as <-. repeat split.
Qed.

(** The descriptor at [sel] in the guest's table. *)
Definition desc_ptr (g : seg_state) (sel : Z) : Z := wrap 32 (guest_gdt_base g + (sel &~ 7)).

Lemma vcpu_read_segment_Next fault sel s e1 e2 s' :
  vcpu_read_segment fault sel s = Next (Some (e1, e2)) s' ->
  only_mem s s' /\ e1 = load 4 (mem s) (desc_ptr (sg s) sel)
  /\ (sel &~ 7) + 7 <= wrap 16 (guest_gdt_limit (sg s))
  /\ let w := load 4 (mem s) (wrap 32 (desc_ptr (sg s) sel + 4)) in
     e2 = if nz (w &! DESC_A_MASK) then w else w |! DESC_A_MASK.
Proof.
  unfold vcpu_read_segment. intros H. apply bind_Next in H as (? & ? & H1 & H). ginv H1.
  apply bind_Next in H as (r & ? & H1 & H). ginv H1. cbn beta in H.
  unfold read_segment in H1. apply bind_Ret in H1 as (? & _ & H1).
  change (id s) with s in *. destruct (Z.ltb_spec (wrap 16 (guest_gdt_limit (sg s))) ((sel &~ 7) + 7)).
  { injection H1 as <-. ginv H. discriminate. }
  unfold desc_ptr. cbv zeta in H1 |- *. cbn [mbind res_bind mret res_ret] in H1.
  set (w := load 4 (mem s) _) in *. change (true && ?b) with b in H1.
  destruct (nz (w &! DESC_A_MASK)) eqn:Ea; cbn [negb] in H1; injection H1 as <-; ginv H; injection H as <- <-.
  - split; [apply only_mem_refl|]. auto.
  - split; [apply only_mem_set|]. auto.
Qed.

(** [s'] differs from [s] in memory and segments only. *)
Definition only_segs (s s' : vcpu_t) : Prop :=
  s' = set_mem (mem s') (set_pt_user (pt_user s') (set_sg (sg s') s)).

Lemma only_segs_refl s : only_segs s s.
Proof. destruct s. reflexivity. Qed.

Lemma only_segs_trans s1 s2 s3 : only_segs s1 s2 -> only_segs s2 s3 -> only_segs s1 s3.
Proof. unfold only_segs. intros H12 ->. rewrite H12. destruct s1. reflexivity. Qed.

Lemma only_mem_segs s s' : only_mem s s' -> only_segs s s'.
Proof. unfold only_mem, only_segs. intros ->. destruct s. reflexivity. Qed.

Lemma set_segs_only g p s : only_segs s (set_pt_user p (set_sg g s)).
Proof. destruct s. reflexivity. Qed.

Lemma set_sg_only g s : only_segs s (set_sg g s).
Proof. destruct s. reflexivity. Qed.

(** ** Running computations forward *)

(** One step of a sequence: the first computation runs as [tac] shows. *)
Ltac gstep tac := erewrite bind_run by (tac; try eassumption; try reflexivity); cbv beta iota zeta.
(** Steps that only read or update the state. *)
Ltac gpure :=
  repeat (lazymatch goal with
  | |- (gets ?f ≫= _) ?s = _ => rewrite (bind_run (gets f) _ s (f s) s eq_refl)
  | |- (upd ?f ≫= _) ?s = _ => rewrite (bind_run (upd f) _ s tt (f s) eq_refl)
  | |- (mret ?a ≫= _) ?s = _ => rewrite (bind_run (mret a) _ s a s eq_refl)
  end; cbv beta iota zeta).

Lemma seg_cache_run segno s sc :
  geti (segs (sg s)) segno = Some sc -> seg_cache segno s = Next sc s.
Proof. intros H. unfold seg_cache. gpure. rewrite H. reflexivity. Qed.

Lemma orig_seg_run segno s o :
  geti (orig_segs (sg s)) segno = Some o -> orig_seg segno s = Next o s.
Proof. intros H. unfold orig_seg. gpure. rewrite H. reflexivity. Qed.

Lemma get_reg_run r s v : geti (regs s) r = Some v -> get_reg r s = Next v s.
Proof. intros H. unfold get_reg. gpure. rewrite H. reflexivity. Qed.

Lemma set_reg_run r s v w :
  geti (regs s) r = Some w -> set_reg r v s = Next tt (set_regs (seti (regs s) r v) s).
Proof.
  intros H. unfold set_reg. gpure.
  rewrite store_ok by (eapply geti_Some_lt; exact H). reflexivity.
Qed.

Lemma vcpu_cpl_run s cs : geti (orig_segs (sg s)) R_CS = Some cs -> vcpu_cpl s = Next (level s) s.
Proof.
  intros H. unfold vcpu_cpl, level. gpure. rewrite H. reflexivity.
Qed.

Lemma raise_if_run b i e s : b = false -> raise_if b i e s = Next tt s.
Proof. intros ->. reflexivity. Qed.

Lemma ASSERT_run b s : b = true -> ASSERT b s = Next tt s.
Proof. intros ->. reflexivity. Qed.

Lemma lift_run {A} (m : res A) a s : m = Ret a -> lift m s = Next a s.
Proof. intros ->. reflexivity. Qed.

Lemma SET_ESP_run v mask s esp :
  geti (regs s) R_ESP = Some esp ->
  SET_ESP v mask s = Next tt (set_regs (seti (regs s) R_ESP ((esp &~ mask) |! (v &! mask))) s).
Proof.
  intros H. unfold SET_ESP. rewrite (bind_run _ _ s esp s (get_reg_run _ _ _ H)).
  apply (set_reg_run _ _ _ esp H).
Qed.

(** A shadow selector needs no refresh from the guest's table. *)
Lemma sync_run fault segno s sc o :
  geti (segs (sg s)) segno = Some sc -> geti (orig_segs (sg s)) segno = Some o ->
  SEL_BASE <= selector sc -> vcpu_segcache_sync fault segno s = Next tt s.
Proof.
  intros Hsc Ho Hsel. unfold vcpu_segcache_sync. gpure.
  gstep ltac:(apply seg_cache_run). gstep ltac:(apply orig_seg_run).
  change (id s) with s. rewrite (proj2 (Z.ltb_ge _ _) Hsel). cbn [andb].
  gstep ltac:(apply lift_run; unfold segcache_sync; rewrite Hsc; cbn [the mbind res_bind];
              rewrite (proj2 (Z.ltb_ge _ _) Hsel)).
  destruct s. reflexivity.
Qed.
