(* ===== verification/Interrupt.v ===== *)
(** * Interrupts and exceptions of the guest

    The part of [sys/interrupt.c] that delivers interrupts to the guest and
    returns from them, in real and protected mode ([do_interrupt],
    [iret_real], [ret_protected]), and the loop of [sys/init.c] that delivers
    the exception a [longjmp] reports. *)

From Stdlib Require Import ZArith Lia Bool.
From stdpp Require Import base list numbers.
From S2P Require Import Prelude Vaddr Gdt Vcpu.

Section Delivery.
Context (fault : Z -> bool -> option Z).
#[local] Arguments geti : simpl never.

Notation ld_kernel := (ld_kernel fault).
Notation PUSH := (PUSH fault).
Notation POP := (POP fault).
Notation vcpu_segcache_sync := (vcpu_segcache_sync fault).
Notation vcpu_read_segment := (vcpu_read_segment fault).

(** The stack pointer the guest's task state segment gives for level [dpl]. *)
Definition get_ss_esp_from_tss (dpl : Z) : guest (Z * Z) :=
  t ← gets tr;
  if negb (nz (flags t &! DESC_P_MASK)) then NOT_IMPLEMENTED else
  let type := (flags t >> DESC_TYPE_SHIFT) &! 0xf in
  if negb (type &! 7 =? 1) then NOT_IMPLEMENTED else
  let shift := type >> 3 in
  let index := (dpl * 4 + 2) << shift in
  raise_if (limit t <? index + (4 << shift) - 1) EXCP0A_TSS (selector t &! 0xfffc);;
  if shift =? 0 then
    esp ← ld_kernel 2 (wrap 32 (base t + index));
    ss ← ld_kernel 2 (wrap 32 (base t + index + 2)); mret (ss, esp)
  else
    esp ← ld_kernel 4 (wrap 32 (base t + index));
    ss ← ld_kernel 2 (wrap 32 (base t + index + 4)); mret (ss, esp).

Definition has_error_code (intno : Z) (is_int is_hw : bool) : bool :=
  negb is_int && negb is_hw && existsb (Z.eqb intno) [8; 10; 11; 12; 13; 14; 17].

(** The checks on the stack segment of an inner level: its descriptor. *)
Definition inner_stack (ss dpl : Z) : guest (Z * Z) :=
  raise_if (ss &! 0xfffc =? 0) EXCP0A_TSS (ss &! 0xfffc);;
  raise_if (negb (ss &! 3 =? dpl)) EXCP0A_TSS (ss &! 0xfffc);;
  r ← vcpu_read_segment ss;
  match r with
  | None => raise_exception_err EXCP0A_TSS (ss &! 0xfffc)
  | Some (ss_e1, ss_e2) =>
      raise_if (negb (desc_dpl ss_e2 =? dpl)) EXCP0A_TSS (ss &! 0xfffc);;
      raise_if (negb (nz (ss_e2 &! DESC_S_MASK)) || nz (ss_e2 &! DESC_CS_MASK)
                || negb (nz (ss_e2 &! DESC_W_MASK))) EXCP0A_TSS (ss &! 0xfffc);;
      raise_if (negb (nz (ss_e2 &! DESC_P_MASK))) EXCP0A_TSS (ss &! 0xfffc);;
      mret (ss_e1, ss_e2)
  end.

(** Where the frame goes: the new stack segment, when there is one, then
    [sp_mask], [ssp], [esp] and the level the handler runs at. *)
Definition interrupt_stack (selector e2 cpl : Z)
  : guest (option (Z * Z * Z) * Z * Z * Z * Z) :=
  let dpl := desc_dpl e2 in
  if negb (nz (e2 &! DESC_C_MASK)) && (dpl <? cpl) then
    '(ss, esp) ← get_ss_esp_from_tss dpl;
    '(ss_e1, ss_e2) ← inner_stack ss dpl;
    mret (Some (ss, ss_e1, ss_e2), get_sp_mask ss_e2, get_seg_base ss_e1 ss_e2, esp, dpl)
  else if nz (e2 &! DESC_C_MASK) || (dpl =? cpl) then
    fl ← gets eflags;
    raise_if (nz (fl &! VM_MASK)) EXCP0D_GPF (selector &! 0xfffc);;
    sc ← seg_cache R_SS;
    esp ← get_reg R_ESP;
    mret (None, get_sp_mask (flags sc), base sc, esp, cpl)
  else raise_exception_err EXCP0D_GPF (selector &! 0xfffc).

(** The flags image of a frame. *)
Definition push_eflags (s : vcpu_t) : Z :=
  (eflags s &~ IF_MASK &~ IOPL_MASK) |! (if IF_ s =? 1 then IF_MASK else 0)
  |! (IOPL s << 12) |! (if nz (AC s) then AC_MASK else 0).

Fixpoint push_all (n : nat) (ssp sp sp_mask : Z) (vs : list Z) : guest Z :=
  match vs with
  | [] => mret sp
  | v :: vs => sp ← PUSH n ssp sp sp_mask v; push_all n ssp sp sp_mask vs
  end.

(** The words of the frame in the order they are pushed. *)
Definition frame_words (new_stack : bool) (old_eip : Z) (err : option Z) : guest (list Z) :=
  s ← gets id;
  gs ← orig_seg R_GS; fs ← orig_seg R_FS; ds ← orig_seg R_DS; es ← orig_seg R_ES;
  ss ← orig_seg R_SS; cs ← orig_seg R_CS; esp ← get_reg R_ESP;
  mret ((if new_stack then (if nz (eflags s &! VM_MASK) then [gs; fs; ds; es] else []) ++ [ss; esp]
         else [])
        ++ [push_eflags s; cs; old_eip] ++ match err with Some e => [e] | None => [] end).

(** [IF] is 2 between an [sti] and the end of the next instruction. *)
Definition settle_IF : guest unit :=
  s ← gets id;
  when (IF_ s =? 2) (upd (set_IF 1));;
  s ← gets id;
  ASSERT ((IF_ s =? 0) || (IF_ s =? 1)).

(** What the gate of an interrupt says: its type, the selector and the offset
    of the handler. *)
Definition read_gate (intno : Z) (is_int : bool) (cpl : Z) : guest (Z * Z * Z) :=
  '(ibase, ilimit) ← gets idt;
  let err := sgn 32 (intno * 8 + 2) in
  raise_if (ilimit <? wrap 32 (intno * 8 + 7)) EXCP0D_GPF err;;
  let ptr := wrap 32 (ibase + intno * 8) in
  e1 ← ld_kernel 4 ptr;
  e2 ← ld_kernel 4 (wrap 32 (ptr + 4));
  let type := (e2 >> DESC_TYPE_SHIFT) &! 0x1f in
  if type =? 5 then NOT_IMPLEMENTED else
  raise_if (negb (existsb (Z.eqb type) [6; 7; 14; 15])) EXCP0D_GPF err;;
  raise_if (is_int && (desc_dpl e2 <? cpl)) EXCP0D_GPF err;;
  raise_if (negb (nz (e2 &! DESC_P_MASK))) EXCP0B_NOSEG err;;
  mret (type, e1 >> 16, (e2 &! 0xffff0000) |! (e1 &! 0xffff)).

(** The handler's code segment. *)
Definition handler_segment (selector cpl : Z) : guest (Z * Z) :=
  raise_if (selector &! 0xfffc =? 0) EXCP0D_GPF 0;;
  r ← vcpu_read_segment selector;
  match r with
  | None => raise_exception_err EXCP0D_GPF (selector &! 0xfffc)
  | Some (e1, e2) =>
      raise_if (negb (nz (e2 &! DESC_S_MASK)) || negb (nz (e2 &! DESC_CS_MASK)))
        EXCP0D_GPF (selector &! 0xfffc);;
      raise_if (cpl <? desc_dpl e2) EXCP0D_GPF (selector &! 0xfffc);;
      raise_if (negb (nz (e2 &! DESC_P_MASK))) EXCP0B_NOSEG (selector &! 0xfffc);;
      mret (e1, e2)
  end.

Definition do_interrupt_protected (intno : Z) (is_int : bool) (error_code next_eip : Z)
  (is_hw : bool) : guest unit :=
  vcpu_segcache_sync R_SS;;
  s ← gets id;
  let old_eip := if is_int then next_eip else eip s in
  cpl ← vcpu_cpl;
  '(type, selector, offset) ← read_gate intno is_int cpl;
  '(e1, e2) ← handler_segment selector cpl;
  '(new_stack, sp_mask, ssp, esp, dpl) ← interrupt_stack selector e2 cpl;
  settle_IF;;
  ws ← frame_words (bool_decide (new_stack <> None)) old_eip
         (if has_error_code intno is_int is_hw then Some error_code else None);
  esp ← push_all (if type >> 3 =? 1 then 4 else 2) ssp esp sp_mask ws;
  match new_stack with
  | Some (ss, ss_e1, ss_e2) =>
      fl ← gets eflags;
      if nz (fl &! VM_MASK) then NOT_IMPLEMENTED else
      vcpu_load_seg_cache R_SS ((ss &~ 3) |! dpl) ssp (get_seg_limit ss_e1 ss_e2) ss_e2
  | None => mret tt
  end;;
  SET_ESP esp sp_mask;;
  vcpu_load_seg_cache R_CS ((selector &~ 3) |! dpl) (get_seg_base e1 e2) (get_seg_limit e1 e2) e2;;
  upd (set_eip offset);;
  when (type &! 1 =? 0) (upd (set_IF 0));;
  upd (fun s => set_eflags (eflags s &~ (TF_MASK |! VM_MASK |! RF_MASK |! NT_MASK)) s).

Definition do_interrupt_real (intno : Z) (is_int : bool) (next_eip : Z) : guest unit :=
  vcpu_segcache_sync R_SS;;
  '(ibase, ilimit) ← gets idt;
  raise_if (ilimit <? wrap 32 (intno * 4 + 3)) EXCP0D_GPF (sgn 32 (intno * 8 + 2));;
  let ptr := wrap 32 (ibase + intno * 4) in
  offset ← ld_kernel 2 ptr;
  selector ← ld_kernel 2 (wrap 32 (ptr + 2));
  esp ← get_reg R_ESP;
  ss ← seg_cache R_SS;
  s ← gets id;
  let old_eip := if is_int then next_eip else eip s in
  cs ← seg_cache R_CS;
  settle_IF;;
  s ← gets id;
  esp ← push_all 2 (base ss) esp 0xffff [push_eflags s; base cs >> 4; old_eip];
  SET_ESP esp 0xffff;;
  upd (set_eip offset);;
  vcpu_load_seg_cache R_CS selector (selector << 4) 0xffff 0;;
  upd (fun s => set_eflags (eflags s &~ (TF_MASK |! AC_MASK |! RF_MASK)) s);;
  upd (set_AC 0);;
  upd (set_IF 0).

Definition do_interrupt (intno : Z) (is_int : bool) (error_code next_eip : Z) (is_hw : bool)
  : guest unit :=
  s ← gets sg;
  if nz (cr0 s &! CR0_PE_MASK) then do_interrupt_protected intno is_int error_code next_eip is_hw
  else do_interrupt_real intno is_int next_eip.

(** ** Returning from interrupts *)

Definition load_eflags (new_eflags eflags_mask : Z) : guest unit :=
  let m := eflags_mask &~ (IF_MASK |! IOPL_MASK |! AC_MASK) in
  upd (fun s => set_eflags ((eflags s &~ m) |! (new_eflags &! m)) s).

Definition iret_real : guest unit :=
  vcpu_segcache_sync R_SS;;
  ss ← seg_cache R_SS;
  sp ← get_reg R_ESP;
  '(new_eip, sp) ← POP 2 (base ss) sp 0xffff;
  '(new_cs, sp) ← POP 2 (base ss) sp 0xffff;
  '(new_eflags, sp) ← POP 2 (base ss) sp 0xffff;
  SET_ESP sp 0xffff;;
  let new_cs := new_cs &! 0xffff in
  vcpu_load_seg_cache R_CS new_cs (new_cs << 4) 0xffff 0;;
  upd (set_eip new_eip);;
  s ← gets id;
  when (negb (nz (eflags s &! VM_MASK))) (upd (set_IOPL ((new_eflags >> IOPL_SHIFT) &! 3)));;
  load_eflags new_eflags (0xffffffff &! 0xffff);;
  upd (set_IF (if nz (new_eflags &! IF_MASK) then 1 else 0));;
  upd (set_AC (if nz (new_eflags &! AC_MASK) then 1 else 0)).

(** A data segment the outer level may not use is emptied. *)
Definition validate_seg (seg_reg cpl : Z) : guest unit :=
  o ← orig_seg seg_reg;
  if ((seg_reg =? R_FS) || (seg_reg =? R_GS)) && (o &! 0xfffc =? 0) then mret tt else
  vcpu_segcache_sync seg_reg;;
  sc ← seg_cache seg_reg;
  let e2 := flags sc in
  when ((negb (nz (e2 &! DESC_CS_MASK)) || negb (nz (e2 &! DESC_C_MASK))) && (desc_dpl e2 <? cpl))
    (vcpu_load_seg_cache seg_reg 0 0 0 0).

(** The checks on the code segment returned to. *)
Definition return_segment (new_cs cpl : Z) : guest (Z * Z) :=
  raise_if (new_cs &! 0xfffc =? 0) EXCP0D_GPF (new_cs &! 0xfffc);;
  r ← vcpu_read_segment new_cs;
  match r with
  | None => raise_exception_err EXCP0D_GPF (new_cs &! 0xfffc)
  | Some (e1, e2) =>
      raise_if (negb (nz (e2 &! DESC_S_MASK)) || negb (nz (e2 &! DESC_CS_MASK)))
        EXCP0D_GPF (new_cs &! 0xfffc);;
      let rpl := new_cs &! 3 in
      raise_if (rpl <? cpl) EXCP0D_GPF (new_cs &! 0xfffc);;
      let dpl := desc_dpl e2 in
      raise_if (if nz (e2 &! DESC_C_MASK) then rpl <? dpl else negb (dpl =? rpl))
        EXCP0D_GPF (new_cs &! 0xfffc);;
      raise_if (negb (nz (e2 &! DESC_P_MASK))) EXCP0B_NOSEG (new_cs &! 0xfffc);;
      mret (e1, e2)
  end.

(** The checks on the stack segment of an outer level. *)
Definition outer_stack (new_ss rpl : Z) : guest (Z * Z) :=
  raise_if (new_ss &! 0xfffc =? 0) EXCP0D_GPF 0;;
  raise_if (negb (new_ss &! 3 =? rpl)) EXCP0D_GPF (new_ss &! 0xfffc);;
  r ← vcpu_read_segment new_ss;
  match r with
  | None => raise_exception_err EXCP0D_GPF (new_ss &! 0xfffc)
  | Some (ss_e1, ss_e2) =>
      raise_if (negb (nz (ss_e2 &! DESC_S_MASK)) || nz (ss_e2 &! DESC_CS_MASK)
                || negb (nz (ss_e2 &! DESC_W_MASK))) EXCP0D_GPF (new_ss &! 0xfffc);;
      raise_if (negb (desc_dpl ss_e2 =? rpl)) EXCP0D_GPF (new_ss &! 0xfffc);;
      raise_if (negb (nz (ss_e2 &! DESC_P_MASK))) EXCP0B_NOSEG (new_ss &! 0xfffc);;
      mret (ss_e1, ss_e2)
  end.

(** The return proper: the new stack pointer and its mask. *)
Definition switch_level (new_cs e1 e2 cpl ssp sp sp_mask addend : Z) : guest (Z * Z) :=
  let rpl := new_cs &! 3 in
  if rpl =? cpl then
    vcpu_load_seg_cache R_CS new_cs (get_seg_base e1 e2) (get_seg_limit e1 e2) e2;;
    mret (sp, sp_mask)
  else
    '(new_esp, sp) ← POP 4 ssp sp sp_mask;
    '(new_ss, sp) ← POP 4 ssp sp sp_mask;
    let new_ss := new_ss &! 0xffff in
    '(ss_e1, ss_e2) ← outer_stack new_ss rpl;
    vcpu_load_seg_cache R_SS new_ss (get_seg_base ss_e1 ss_e2) (get_seg_limit ss_e1 ss_e2) ss_e2;;
    vcpu_load_seg_cache R_CS new_cs (get_seg_base e1 e2) (get_seg_limit e1 e2) e2;;
    validate_seg R_ES rpl;; validate_seg R_DS rpl;;
    validate_seg R_FS rpl;; validate_seg R_GS rpl;;
    mret (wrap 32 (new_esp + addend), get_sp_mask ss_e2).

Definition CC_MASK : Z := 0x0001 |! 0x0004 |! 0x0010 |! 0x0040 |! 0x0080 |! 0x0800.

(** The flags of an [iret] from level [cpl]. *)
Definition return_flags (new_eflags cpl : Z) : guest unit :=
  s ← gets id;
  when (cpl <=? IOPL s) (upd (set_IF 1));;
  load_eflags new_eflags (CC_MASK |! TF_MASK |! ID_MASK |! RF_MASK |! NT_MASK);;
  when (cpl =? 0)
    (upd (set_IOPL ((new_eflags >> IOPL_SHIFT) &! 3));;
     upd (set_AC ((new_eflags >> AC_SHIFT) &! 1))).

(** The addresses the guest's levels are expected to run at. *)
Definition check_eip (new_eip : Z) : guest unit :=
  cs ← orig_seg R_CS;
  when (cs &! 3 =? 0) (ASSERT (0xc0000000 <=? new_eip));;
  when (cs &! 3 =? 3) (ASSERT (new_eip <? 0xc0000000)).

Definition ret_protected (is_iret : bool) (addend : Z) : guest unit :=
  vcpu_segcache_sync R_SS;;
  ss ← seg_cache R_SS;
  let sp_mask := get_sp_mask (flags ss) in
  let ssp := base ss in
  sp ← get_reg R_ESP;
  '(new_eip, sp) ← POP 4 ssp sp sp_mask;
  '(new_cs, sp) ← POP 4 ssp sp sp_mask;
  let new_cs := new_cs &! 0xffff in
  '(new_eflags, sp) ← (if is_iret then POP 4 ssp sp sp_mask else mret (0, sp));
  if nz (new_eflags &! VM_MASK) then NOT_IMPLEMENTED else
  cpl ← vcpu_cpl;
  '(e1, e2) ← return_segment new_cs cpl;
  let sp := wrap 32 (sp + addend) in
  '(sp, sp_mask) ← switch_level new_cs e1 e2 cpl ssp sp sp_mask addend;
  SET_ESP sp sp_mask;;
  upd (set_eip new_eip);;
  check_eip new_eip;;
  when is_iret (return_flags new_eflags cpl).

Definition iret_protected : guest unit :=
  fl ← gets eflags;
  if nz (fl &! NT_MASK) then NOT_IMPLEMENTED else ret_protected true 0.

(** ** The loop that delivers exceptions

    [setjmp] in [sys/init.c] returns 1 with the exception to deliver; an
    exception raised meanwhile comes back to the same place. *)

Definition deliver_exception : guest unit :=
  s ← gets id;
  let e := exn s in
  ASSERT (0 <=? exception_index e);;
  when (exception_index e =? EXCP0E_PAGE) (upd (set_cr2 (exception_cr2 s)));;
  do_interrupt (exception_index e) (exception_is_int e) (error_code e) (exception_next_eip e) false;;
  upd (fun s => set_exn (mk_exn (-1) (error_code (exn s)) (exception_is_int (exn s))
                           (exception_next_eip (exn s))) s).

Fixpoint exception_loop (fuel : nat) (s : vcpu_t) : res vcpu_t :=
  match fuel with
  | O => Stop NoFuel
  | S fuel =>
      match deliver_exception s with
      | Next _ s => Ret s
      | Raise s => exception_loop fuel s
      | Halt e => Stop e
      end
  end.

(** ** Entering a handler *)

Lemma get_ss_esp_Next dpl s r s' : get_ss_esp_from_tss dpl s = Next r s' -> s' = s.
Proof.
  unfold get_ss_esp_from_tss. intros H. ginv H. repeat (case_match; ginv H; try reflexivity).
Qed.

Lemma inner_stack_Next ss dpl s r s' : inner_stack ss dpl s = Next r s' -> only_mem s s'.
Proof.
  unfold inner_stack. intros H. ginv H. case_match; [|discriminate].
  match goal with K : vcpu_read_segment _ _ = _ |- _ => rename K into R end.
  destruct p as [e1 e2]. apply vcpu_read_segment_Next in R as (R & _). ginv H. exact R.
Qed.

(** The level a handler runs at, from its code descriptor [e2]. *)
Definition handler_level (e2 cpl : Z) : Z :=
  if nz (e2 &! DESC_C_MASK) then cpl else desc_dpl e2.

Lemma interrupt_stack_Next sel e2 cpl s ns mask ssp esp lvl s' :
  desc_dpl e2 <= cpl -> interrupt_stack sel e2 cpl s = Next (ns, mask, ssp, esp, lvl) s' ->
  only_mem s s' /\ lvl = handler_level e2 cpl /\ (ns <> None <-> lvl <> cpl).
Proof.
  unfold interrupt_stack, handler_level. intros Hd H.
  destruct (nz (e2 &! DESC_C_MASK)); cbn [negb andb orb] in H.
  - ginv H. injection H as <- _ _ _ <-. split; [apply only_mem_refl|]. intuition congruence.
  - destruct (Z.ltb_spec (desc_dpl e2) cpl); [|destruct (Z.eqb_spec (desc_dpl e2) cpl)].
    + apply bind_Next in H as ([ss esp'] & s1 & H1 & H). apply get_ss_esp_Next in H1 as ->.
      apply bind_Next in H as ([ss_e1 ss_e2] & s2 & H2 & H). apply inner_stack_Next in H2.
      ginv H. injection H as <- _ _ _ <-. split; [exact H2|]. split; [reflexivity|].
      split; [lia|discriminate].
    + ginv H. injection H as <- _ _ _ <-. split; [apply only_mem_refl|]. intuition congruence.
    + lia.
Qed.

Lemma frame_words_Next ns old_eip err s ws s' : frame_words ns old_eip err s = Next ws s' -> s' = s.
Proof. unfold frame_words. intros H. ginv H. reflexivity. Qed.

Lemma push_all_Next n ssp mask vs sp s sp' s' :
  push_all n ssp sp mask vs s = Next sp' s' -> only_mem s s'.
Proof.
  revert sp s. induction vs as [|v vs IH]; intros sp s H; cbn [push_all] in H; ginv H.
  - apply only_mem_refl.
  - apply PUSH_Next in H0 as [-> ->]. apply IH in H.
    eapply only_mem_trans; [apply only_mem_set|exact H].
Qed.

Definition settled (i : Z) : Z := if i =? 2 then 1 else i.

Lemma settle_IF_Next s u s' :
  settle_IF s = Next u s' -> s' = set_IF (settled (IF_ s)) s /\ 0 <= settled (IF_ s) <= 1.
Proof.
  unfold settle_IF, settled. intros H. ginv H. change (id ?x) with x in *.
  destruct (Z.eqb_spec (IF_ s) 2).
  - ginv H0. split; [reflexivity|lia].
  - subst. rewrite orb_true_iff, !Z.eqb_eq in H. split; [destruct s; reflexivity|lia].
Qed.

(** The two words of the gate of an interrupt. *)
Definition gate1 (s : vcpu_t) (intno : Z) : Z :=
  load 4 (mem s) (wrap 32 (fst (idt s) + intno * 8)).
Definition gate2 (s : vcpu_t) (intno : Z) : Z :=
  load 4 (mem s) (wrap 32 (wrap 32 (fst (idt s) + intno * 8) + 4)).
Definition gate_type (e2 : Z) : Z := (e2 >> DESC_TYPE_SHIFT) &! 0x1f.

Lemma read_gate_Next intno is_int cpl s type sel off s' :
  read_gate intno is_int cpl s = Next (type, sel, off) s' ->
  s' = s /\ type = gate_type (gate2 s intno) /\ In type [6; 7; 14; 15]
  /\ (is_int = true -> cpl <= desc_dpl (gate2 s intno))
  /\ nz (gate2 s intno &! DESC_P_MASK) = true
  /\ wrap 32 (intno * 8 + 7) <= snd (idt s)
  /\ sel = gate1 s intno >> 16
  /\ off = (gate2 s intno &! 0xffff0000) |! (gate1 s intno &! 0xffff).
Proof.
  unfold read_gate. intros H. apply bind_Next in H as ([ib il] & s1 & H1 & H).
  apply gets_Next in H1 as [E ->]. ginv H. case_match; ginv H.
  match goal with
  | K1 : (il <? _) = false, K2 : negb (existsb _ _) = false, K3 : is_int && _ = false,
    K4 : negb (nz _) = false |- _ => rename K1 into L, K2 into X, K3 into D, K4 into P
  end.
  unfold gate1, gate2, gate_type in *. rewrite <- E. cbn [fst snd]. injection H as <- <- <-.
  apply Z.ltb_ge in L. apply negb_false_iff in X, P. apply existsb_exists in X as (t & Ht & Et).
  apply Z.eqb_eq in Et. split; [reflexivity|]. split; [congruence|].
  split; [congruence|]. split; [|auto].
  intros ->. apply Z.ltb_ge, D.
Qed.

Lemma handler_segment_Next sel cpl s e1 e2 s' :
  handler_segment sel cpl s = Next (e1, e2) s' ->
  only_mem s s' /\ desc_dpl e2 <= cpl /\ vcpu_read_segment sel s = Next (Some (e1, e2)) s'
  /\ nz (e2 &! DESC_P_MASK) = true /\ nz (e2 &! DESC_CS_MASK) = true.
Proof.
  unfold handler_segment. intros H. ginv H. case_match; [|discriminate]. ginv H.
  injection H as -> ->.
  match goal with K : vcpu_read_segment _ _ = _ |- _ =>
    split; [apply vcpu_read_segment_Next in K as (K & _); exact K|] end.
  match goal with
  | K1 : (cpl <? _) = false, K2 : negb _ || _ = false, K3 : negb (nz _) = false |- _ =>
      apply Z.ltb_ge in K1; apply orb_false_iff in K2 as [_ K2%negb_false_iff];
      apply negb_false_iff in K3; auto
  end.
Qed.

Lemma only_mem_sg s s' : only_mem s s' -> sg s' = sg s.
Proof. intros ->. reflexivity. Qed.

(** What entering a handler does to the processor, apart from its stack. *)
Definition entered (s : vcpu_t) (intno : Z) (cpl : Z) (s' : vcpu_t) : Prop :=
  let g1 := gate1 s intno in
  let g2 := gate2 s intno in
  geti (orig_segs (sg s')) R_CS = Some (((g1 >> 16) &~ 3) |! cpl)
  /\ eip s' = (g2 &! 0xffff0000) |! (g1 &! 0xffff)
  /\ IF_ s' = (if gate_type g2 &! 1 =? 0 then 0 else settled (IF_ s))
  /\ eflags s' = eflags s &~ (TF_MASK |! VM_MASK |! RF_MASK |! NT_MASK)
  /\ IOPL s' = IOPL s /\ AC s' = AC s.

Lemma load_stack_Next ns ssp dpl s u s' :
  match ns with
  | Some (ss, ss_e1, ss_e2) =>
      fl ← gets eflags;
      if nz (fl &! VM_MASK) then NOT_IMPLEMENTED else
      vcpu_load_seg_cache R_SS ((ss &~ 3) |! dpl) ssp (get_seg_limit ss_e1 ss_e2) ss_e2
  | None => mret tt
  end s = Next u s' ->
  exists g p, s' = set_pt_user p (set_sg g s).
Proof.
  destruct ns as [[[ss e1] e2]|]; intros H; ginv H.
  - destruct (nz _); [discriminate|]. apply vcpu_load_seg_cache_Next in H as (g & p & -> & _). eauto.
  - exists (sg s), (pt_user s). destruct s; reflexivity.
Qed.

Lemma do_interrupt_protected_Next intno is_int err next is_hw s u s' :
  do_interrupt_protected intno is_int err next is_hw s = Next u s' ->
  exists e2 cpl, entered s intno cpl s' /\ cpl = handler_level e2 (level s)
  /\ cpl <= level s
  /\ (let w := load 4 (mem s) (wrap 32 (desc_ptr (sg s) (gate1 s intno >> 16) + 4)) in
     e2 = if nz (w &! DESC_A_MASK) then w else w |! DESC_A_MASK)
  /\ nz (e2 &! DESC_P_MASK) = true /\ nz (e2 &! DESC_CS_MASK) = true
  /\ In (gate_type (gate2 s intno)) [6; 7; 14; 15]
  /\ nz (gate2 s intno &! DESC_P_MASK) = true
  /\ (is_int = true -> level s <= desc_dpl (gate2 s intno)).
Proof.
  unfold do_interrupt_protected. intros H.
  apply bind_Next in H as (? & s1 & (g & E1 & (T1 & T2 & T3 & T4) & O)%vcpu_segcache_sync_Next & H).
  apply bind_Next in H as (? & ? & [-> ->]%gets_Next & H).
  apply bind_Next in H as (? & ? & [-> ->]%vcpu_cpl_Next & H).
  assert (L : level s1 = level s) by (subst s1; unfold level; cbn; rewrite O; reflexivity).
  rewrite L in H. cbv zeta in H.
  apply bind_Next in H as ([[type sel] off] & s2 & G & H).
  apply read_gate_Next in G as (-> & Et & Ht & Hi & Hp & _ & Es & Eo).
  assert (G1 : gate1 s1 intno = gate1 s intno) by (subst s1; reflexivity).
  assert (G2 : gate2 s1 intno = gate2 s intno) by (subst s1; reflexivity).
  rewrite G2 in *. rewrite G1 in *.
  apply bind_Next in H as ([e1 e2] & s3 & (M1 & Hd & R & P & C)%handler_segment_Next & H).
  apply bind_Next in H as ([[[[ns mask] ssp] esp] lvl] & s4 & (M2 & El & _)%interrupt_stack_Next & H);
    [|exact Hd].
  assert (M : only_mem s1 s4) by (eapply only_mem_trans; eassumption). clear M2 M1.
  apply bind_Next in H as (? & s5 & [E5 _]%settle_IF_Next & H).
  apply bind_Next in H as (ws & ? & ->%frame_words_Next & H).
  apply bind_Next in H as (esp' & s6 & M6%push_all_Next & H).
  apply bind_Next in H as (? & s7 & (g7 & p7 & E7)%load_stack_Next & H).
  apply bind_Next in H as (? & s8 & (esp0 & _ & E8)%SET_ESP_Next & H).
  apply bind_Next in H as (? & s9 & (g9 & p9 & E9 & _ & _ & G9)%vcpu_load_seg_cache_Next & H).
  ginv H. apply vcpu_read_segment_Next in R as (_ & _ & _ & R).
  exists e2, lvl. subst lvl.
  assert (E0 : s0 = set_IF (if type &! 1 =? 0 then 0 else IF_ s9) (set_eip off s9)).
  { destruct (type &! 1 =? 0); ginv H0; [reflexivity|]. subst s0. destruct s9; reflexivity. }
  split.
  { unfold entered. subst s0 s9 s8 s7. rewrite M6. subst s5. rewrite M. subst s1. cbn.
    rewrite G9, Es, Eo, Et. auto 10. }
  split; [reflexivity|]. split; [unfold handler_level; destruct (nz (e2 &! DESC_C_MASK)); [reflexivity|exact Hd]|].
  split; [|rewrite <- Et; auto]. subst s1. rewrite R, Es. unfold desc_ptr. cbn. rewrite T2. reflexivity.
Qed.

(** ** Leaving a handler *)

Lemma return_segment_Next new_cs cpl s e1 e2 s' :
  return_segment new_cs cpl s = Next (e1, e2) s' -> only_mem s s' /\ cpl <= new_cs &! 3.
Proof.
  unfold return_segment. intros H. ginv H. case_match; [|discriminate]. ginv H.
  match goal with
  | K1 : vcpu_read_segment _ _ = _, K2 : (_ <? cpl) = false |- _ =>
      injection H as -> ->; apply vcpu_read_segment_Next in K1 as (K1 & _);
      apply Z.ltb_ge in K2; auto
  end.
Qed.

Lemma outer_stack_Next new_ss rpl s r s' : outer_stack new_ss rpl s = Next r s' -> only_mem s s'.
Proof.
  unfold outer_stack. intros H. ginv H. case_match; [|discriminate]. ginv H.
  match goal with K : vcpu_read_segment _ _ = _ |- _ => apply vcpu_read_segment_Next in K as (K & _); exact K end.
Qed.

(** The guest's selector of [CS] survives. *)
Definition keeps_cs (s s' : vcpu_t) : Prop :=
  geti (orig_segs (sg s')) R_CS = geti (orig_segs (sg s)) R_CS.

Lemma validate_seg_Next seg_reg cpl s u s' :
  validate_seg seg_reg cpl s = Next u s' -> seg_reg <> R_CS -> only_segs s s' /\ keeps_cs s s'.
Proof.
  unfold validate_seg, keeps_cs. intros H Hn.
  apply bind_Next in H as (o & ? & [_ ->]%orig_seg_Next & H).
  destruct (_ && _); [ginv H; split; [apply only_segs_refl|reflexivity]|].
  apply bind_Next in H as (? & s1 & (g & -> & _ & O)%vcpu_segcache_sync_Next & H).
  apply bind_Next in H as (sc & ? & [_ ->]%seg_cache_Next & H). cbv zeta in H.
  apply when_Next in H. destruct (_ && _).
  - apply vcpu_load_seg_cache_Next in H as (g' & p & -> & _ & O' & _). split.
    + eapply only_segs_trans; [apply set_sg_only|apply set_segs_only].
    + cbn. rewrite O'. cbn. rewrite O, geti_seti_ne by congruence. reflexivity.
  - subst. split; [apply set_sg_only|]. cbn. rewrite O. reflexivity.
Qed.

Lemma switch_level_Next new_cs e1 e2 cpl ssp sp mask addend s r s' :
  switch_level new_cs e1 e2 cpl ssp sp mask addend s = Next r s' ->
  only_segs s s' /\ geti (orig_segs (sg s')) R_CS = Some new_cs.
Proof.
  unfold switch_level. intros H. cbv zeta in H. destruct (_ =? cpl).
  - apply bind_Next in H as (? & s1 & (g & p & -> & _ & _ & O)%vcpu_load_seg_cache_Next & H).
    ginv H. split; [apply set_segs_only|exact O].
  - apply bind_Next in H as ([new_esp sp1] & ? & (_ & _ & ->)%POP_Next & H).
    apply bind_Next in H as ([new_ss sp2] & ? & (_ & _ & ->)%POP_Next & H).
    apply bind_Next in H as ([ss_e1 ss_e2] & s1 & M1%outer_stack_Next%only_mem_segs & H).
    apply bind_Next in H as (? & s2 & (g2 & p2 & -> & _)%vcpu_load_seg_cache_Next & H).
    apply bind_Next in H as (? & s3 & (g3 & p3 & -> & _ & _ & O)%vcpu_load_seg_cache_Next & H).
    apply bind_Next in H as (? & s4 & [M4 K4]%validate_seg_Next & H); [|discriminate].
    apply bind_Next in H as (? & s5 & [M5 K5]%validate_seg_Next & H); [|discriminate].
    apply bind_Next in H as (? & s6 & [M6 K6]%validate_seg_Next & H); [|discriminate].
    apply bind_Next in H as (? & s7 & [M7 K7]%validate_seg_Next & H); [|discriminate].
    ginv H. unfold keeps_cs in *. split; [|rewrite K7, K6, K5, K4; exact O].
    do 6 (eapply only_segs_trans; [first [eassumption|apply set_segs_only]|]). exact M7.
Qed.

(** The words of the frame that is popped. *)
Definition stack_word (s : vcpu_t) (ssp mask sp : Z) : Z :=
  load 4 (mem s) (wrap 32 (ssp + (sp &! mask))).
Definition next_sp (sp : Z) : Z := wrap 32 (sp + 4).

Definition iret_mask : Z := CC_MASK |! TF_MASK |! ID_MASK |! RF_MASK |! NT_MASK.

(** What returning through the frame ([new_eip], [new_cs], [new_flags]) does
    to the processor, apart from its stack and data segments. *)
Definition returned (s : vcpu_t) (new_eip new_cs new_flags : Z) (s' : vcpu_t) : Prop :=
  eip s' = new_eip
  /\ geti (orig_segs (sg s')) R_CS = Some (new_cs &! 0xffff)
  /\ IF_ s' = (if level s <=? IOPL s then 1 else IF_ s)
  /\ eflags s' = (eflags s &~ iret_mask) |! (new_flags &! iret_mask)
  /\ IOPL s' = (if level s =? 0 then (new_flags >> IOPL_SHIFT) &! 3 else IOPL s)
  /\ AC s' = (if level s =? 0 then (new_flags >> AC_SHIFT) &! 1 else AC s).

Lemma return_flags_Next fl cpl s u s' :
  return_flags fl cpl s = Next u s' ->
  s' = set_AC (if cpl =? 0 then (fl >> AC_SHIFT) &! 1 else AC s)
       (set_IOPL (if cpl =? 0 then (fl >> IOPL_SHIFT) &! 3 else IOPL s)
       (set_eflags ((eflags s &~ iret_mask) |! (fl &! iret_mask))
       (set_IF (if cpl <=? IOPL s then 1 else IF_ s) s))).
Proof.
  unfold return_flags, load_eflags. intros H. ginv H. change (id ?x) with x in *.
  match goal with K : if cpl <=? IOPL s then _ else _ |- _ => rename K into K1 end.
  destruct (cpl <=? IOPL s), (cpl =? 0); ginv K1; ginv H; subst; destruct s; reflexivity.
Qed.

Lemma check_eip_Next e s u s' : check_eip e s = Next u s' -> s' = s.
Proof.
  unfold check_eip. intros H. ginv H.
  repeat match goal with K : if ?b then _ else _ |- _ => destruct b; ginv K; subst end; reflexivity.
Qed.

Lemma ret_protected_Next s u s' :
  ret_protected true 0 s = Next u s' ->
  exists ss esp, geti (regs s) R_ESP = Some esp
  /\ vcpu_segcache_sync R_SS s = Next tt (set_sg ss s)
  /\ exists sc, geti (segs ss) R_SS = Some sc /\
     let w := stack_word s (base sc) (get_sp_mask (flags sc)) in
     returned s (w esp) (w (next_sp esp)) (w (next_sp (next_sp esp))) s' /\ level s <= level s'.
Proof.
  unfold ret_protected. intros H.
  apply bind_Next in H as ([] & s1 & S1 & H). pose proof S1 as (g & E1 & (T1 & T2 & T3 & T4) & O)%vcpu_segcache_sync_Next.
  subst s1. exists g. apply bind_Next in H as (sc & ? & [Hsc ->]%seg_cache_Next & H). cbv zeta in H.
  apply bind_Next in H as (esp & ? & [He ->]%get_reg_Next & H). exists esp.
  split; [exact He|]. split; [exact S1|]. exists sc. split; [exact Hsc|].
  apply bind_Next in H as ([neip sp1] & ? & (-> & -> & ->)%POP_Next & H).
  apply bind_Next in H as ([ncs sp2] & ? & (-> & -> & ->)%POP_Next & H).
  apply bind_Next in H as ([nfl sp3] & ? & (-> & -> & ->)%POP_Next & H).
  destruct (nz _); [discriminate|].
  apply bind_Next in H as (? & ? & [-> ->]%vcpu_cpl_Next & H).
  assert (L : level (set_sg g s) = level s) by (unfold level; cbn; rewrite O; reflexivity).
  rewrite L in H.
  apply bind_Next in H as ([e1 e2] & s2 & [M2 Hl]%return_segment_Next & H).
  apply bind_Next in H as ([sp4 mask'] & s3 & [M3 O3]%switch_level_Next & H).
  apply bind_Next in H as (? & s4 & (esp0 & _ & E4)%SET_ESP_Next & H).
  apply bind_Next in H as (? & ? & ->%upd_Next & H).
  apply bind_Next in H as (? & ? & ->%check_eip_Next & H).
  apply when_Next, return_flags_Next in H as ->.
  assert (M : only_segs (set_sg g s) s3) by (eapply only_segs_trans; [apply only_mem_segs|]; eassumption).
  cbv zeta. unfold returned, stack_word, next_sp. subst s4. rewrite M. cbn.
  split; [rewrite O3; auto 10|].
  etransitivity; [exact Hl|]. unfold level. cbn. rewrite O3. reflexivity.
Qed.

End Delivery.
