(* ===== verification/Callouts.v ===== *)
(** * Instructions emulated by callouts

    The callouts of [peep/callouts.c] on the guest's processor: far calls,
    jumps and returns, loads of the descriptor-table and task registers,
    segment registers in real mode, [int] and [iret], and [gpf_load_seg], the
    load of a segment whose shadow descriptor is still empty. *)

From Stdlib Require Import ZArith Lia Bool.
From stdpp Require Import base list numbers.
From S2P Require Import Prelude Vaddr Gdt Vcpu Interrupt.

Section Callouts.
Context (fault : Z -> bool -> option Z).
#[local] Arguments geti : simpl never.

Notation ld_kernel := (ld_kernel fault).
Notation st_kernel := (st_kernel fault).
Notation PUSH := (PUSH fault).
Notation POP := (POP fault).
Notation vcpu_segcache_sync := (vcpu_segcache_sync fault).
Notation vcpu_read_segment := (vcpu_read_segment fault).

(** Accesses through a plain pointer.  A page the guest has not mapped fails
    the assertion of [guest_intr_handler] that the fault is the guest's code
    or goes through the guest's data segment; addresses above the guest's are
    the monitor's. *)
Definition plain_access (n : nat) (a : Z) (write : bool) : guest unit :=
  if LOADER_MONITOR_VIRT_BASE <? a + Z.of_nat n then lift (Stop Fault) else
  match fault a write, fault (a + Z.of_nat n - 1) write with
  | None, None => mret tt
  | _, _ => NOT_IMPLEMENTED
  end.
Definition ld_plain (n : nat) (a : Z) : guest Z :=
  plain_access n a false;; gets (fun s => load n (mem s) a).
Definition st_plain (n : nat) (a v : Z) : guest unit :=
  plain_access n a true;; upd (fun s => set_mem (save n (mem s) a v) s).

Definition is_reg (r : Z) : bool := (0 <=? r) && (r <? NUM_REGS).
Definition is_seg (r : Z) : bool := (0 <=? r) && (r <? NUM_SEGS).

Definition get_temporary (i : Z) : guest Z := l ← gets temporaries; lift (the (geti l i)).

Definition protected_mode : guest bool := s ← gets sg; mret (nz (cr0 s &! CR0_PE_MASK)).

(** The operand's address [segs[segno].base + regs[tr0]]; register [tr0] held
    it and gets its own value back. *)
Definition operand_restore_tr0 (tr0 segno : Z) : guest Z :=
  ASSERT (is_reg tr0);;
  ASSERT (is_seg segno);;
  vcpu_segcache_sync segno;;
  sc ← seg_cache segno;
  r ← get_reg tr0;
  t ← get_temporary 0;
  set_reg tr0 t;;
  mret (wrap 32 (base sc + r)).

Definition callout_int {A} (intno fallthrough_addr : Z) : guest A :=
  upd (set_eip fallthrough_addr);;
  raise_interrupt intno true (-1) fallthrough_addr.

Definition set_tr_null (selector : Z) : guest unit :=
  upd (fun s => set_tr (mk_segcache selector 0 0 0) s).

Definition callout_ltr_val (val : Z) : guest unit :=
  let selector := val &! 0xffff in
  if selector &! 0xfffc =? 0 then set_tr_null selector else
  raise_if (nz (selector &! 0x4)) EXCP0D_GPF (selector &! 0xfffc);;
  s ← gets sg;
  let index := selector &~ 7 in
  raise_if (guest_gdt_limit s <? index + 7) EXCP0D_GPF (selector &! 0xfffc);;
  let ptr := wrap 32 (guest_gdt_base s + index) in
  e1 ← ld_kernel 4 ptr;
  e2 ← ld_kernel 4 (wrap 32 (ptr + 4));
  let type := (e2 >> DESC_TYPE_SHIFT) &! 0xf in
  raise_if (nz (e2 &! DESC_S_MASK) || (negb (type =? 1) && negb (type =? 9)))
    EXCP0D_GPF (selector &! 0xfffc);;
  raise_if (negb (nz (e2 &! DESC_P_MASK))) EXCP0B_NOSEG (selector &! 0xfffc);;
  t ← gets tr;
  upd (set_tr (mk_segcache (Gdt.selector t) (get_seg_base e1 e2) (get_seg_limit e1 e2) e2));;
  st_kernel 4 (wrap 32 (ptr + 4)) (e2 |! DESC_TSS_BUSY_MASK);;
  upd (set_tr (mk_segcache selector (get_seg_base e1 e2) (get_seg_limit e1 e2) e2)).

Definition callout_restore_tr0_and_ltr_mem (tr0 segno : Z) : guest unit :=
  a ← operand_restore_tr0 tr0 segno;
  v ← ld_plain 2 a;
  callout_ltr_val v.

(** [vcpu.gdt]. *)
Definition set_guest_gdt (g : seg_state) (b lim : Z) : seg_state :=
  mk_segs (segs g) (orig_segs g) (gdt g) (gdt_addr g) b lim (cr0 g).

Definition callout_restore_tr0_and_lgdt (tr0 segno : Z) : guest unit :=
  a ← operand_restore_tr0 tr0 segno;
  lim ← ld_plain 2 a;
  b ← ld_plain 4 (wrap 32 (a + 2));
  upd (fun s => set_sg (set_guest_gdt (sg s) b lim) s);;
  s ← gets id;
  g ← lift (gdt_load (load 4 (mem s)) (sg s) b lim);
  upd (set_sg g).

Definition callout_restore_tr0_and_lidt (tr0 segno : Z) : guest unit :=
  a ← operand_restore_tr0 tr0 segno;
  lim ← ld_plain 2 a;
  b ← ld_plain 4 (wrap 32 (a + 2));
  upd (set_idt (b, lim)).

Definition lcall_real (new_cs new_eip size fallthrough_addr : Z) : guest unit :=
  vcpu_segcache_sync R_SS;;
  esp ← get_reg R_ESP;
  ss ← seg_cache R_SS;
  let esp_mask := get_sp_mask (flags ss) in
  cs ← orig_seg R_CS;
  esp ← (if size =? 4 then push_all fault 4 (base ss) esp esp_mask [cs; fallthrough_addr]
         else ASSERT (size =? 2);; push_all fault 2 (base ss) esp esp_mask [cs; fallthrough_addr]);
  SET_ESP esp esp_mask;;
  upd (set_eip new_eip);;
  vcpu_load_seg_cache R_CS new_cs (wrap 32 (new_cs << 4)) 0xffff 0.

Definition callout_lcall (new_cs new_eip size fallthrough_addr : Z) : guest unit :=
  p ← protected_mode;
  if (p : bool) then NOT_IMPLEMENTED else lcall_real new_cs new_eip size fallthrough_addr.

Definition lret_real (size popsize : Z) : guest unit :=
  vcpu_segcache_sync R_SS;;
  sp ← get_reg R_ESP;
  ss ← seg_cache R_SS;
  let sp_mask := get_sp_mask (flags ss) in
  n ← (if size =? 4 then mret 4%nat else ASSERT (size =? 2);; mret 2%nat);
  '(new_eip, sp) ← POP n (base ss) sp sp_mask;
  '(new_cs, sp) ← POP n (base ss) sp sp_mask;
  SET_ESP (wrap 32 (sp + popsize)) sp_mask;;
  let new_cs := new_cs &! 0xffff in
  vcpu_load_seg_cache R_CS new_cs (new_cs << 4) 0xffff 0;;
  upd (set_eip new_eip).

Definition callout_lret (size popsize : Z) : guest unit :=
  p ← protected_mode;
  if (p : bool) then NOT_IMPLEMENTED else lret_real size popsize.

(** The checks of a far jump on the descriptor [e2] of its target. *)
Definition ljmp_checks (new_cs new_eip limit e2 cpl : Z) : guest unit :=
  let err := new_cs &! 0xfffc in
  raise_if (negb (nz (e2 &! DESC_CS_MASK))) EXCP0D_GPF err;;
  let dpl := desc_dpl e2 in
  (if nz (e2 &! DESC_C_MASK) then raise_if (cpl <? dpl) EXCP0D_GPF err
   else raise_if (cpl <? new_cs &! 3) EXCP0D_GPF err;;
        raise_if (negb (dpl =? cpl)) EXCP0D_GPF err);;
  raise_if (negb (nz (e2 &! DESC_P_MASK))) EXCP0B_NOSEG err;;
  raise_if ((limit <? new_eip) && negb (nz (e2 &! DESC_L_MASK))) EXCP0D_GPF err.

Definition callout_ljmp (new_cs new_eip : Z) : guest unit :=
  p ← protected_mode;
  if (p : bool) then
    raise_if (new_cs &! 0xfffc =? 0) EXCP0D_GPF 0;;
    r ← vcpu_read_segment new_cs;
    match r with
    | None => raise_exception_err EXCP0D_GPF (new_cs &! 0xfffc)
    | Some (e1, e2) =>
        cpl ← vcpu_cpl;
        if nz (e2 &! DESC_S_MASK) then
          ljmp_checks new_cs new_eip (get_seg_limit e1 e2) e2 cpl;;
          vcpu_load_seg_cache R_CS ((new_cs &! 0xfffc) |! cpl) (get_seg_base e1 e2)
            (get_seg_limit e1 e2) e2;;
          upd (set_eip new_eip)
        else NOT_IMPLEMENTED
    end
  else
    vcpu_load_seg_cache R_CS new_cs (wrap 32 (new_cs << 4)) 0xffff 0;;
    upd (set_eip new_eip).

(** A far pointer in memory: offset, then selector. *)
Definition far_pointer (a dsize : Z) : guest (Z * Z) :=
  if dsize =? 2 then
    new_eip ← ld_plain 2 a; new_cs ← ld_plain 2 (wrap 32 (a + 2)); mret (new_cs, new_eip)
  else if dsize =? 4 then
    new_eip ← ld_plain 4 a; new_cs ← ld_plain 2 (wrap 32 (a + 4)); mret (new_cs, new_eip)
  else mret (0, 0).

Definition callout_restore_tr0_and_ljmp_indir (tr0 segno dsize : Z) : guest unit :=
  a ← operand_restore_tr0 tr0 segno;
  '(new_cs, new_eip) ← far_pointer a dsize;
  callout_ljmp new_cs new_eip.

Definition callout_restore_tr0_and_lcall_indir (tr0 segno dsize fallthrough_addr : Z)
  : guest unit :=
  a ← operand_restore_tr0 tr0 segno;
  '(new_cs, new_eip) ← far_pointer a dsize;
  callout_lcall new_cs new_eip 2 fallthrough_addr.

(** ** Segment registers in real mode *)

Definition load_real (segno selector : Z) : guest unit :=
  vcpu_load_seg_cache segno selector (selector << 4) 0xffff 0.

Definition callout_real_mov_to_seg (val segno : Z) : guest unit :=
  ASSERT (is_seg segno);;
  load_real segno (val &! 0xffff).

Definition callout_real_mov_to_seg_restore_tr0 (tr0 segno : Z) : guest unit :=
  ASSERT (is_seg segno);;
  r ← get_reg tr0;
  t ← get_temporary 0;
  set_reg tr0 t;;
  load_real segno (r &! 0xffff).

Definition callout_real_lxs_restore_tr0 (tr0 segno regno : Z) : guest unit :=
  ASSERT (is_reg regno);;
  ASSERT (is_seg segno);;
  ASSERT (is_reg tr0);;
  memaddr ← get_reg tr0;
  t ← get_temporary 0;
  set_reg tr0 t;;
  regval ← ld_plain 2 memaddr;
  selector ← ld_plain 2 (wrap 32 (memaddr + 2));
  load_real segno selector;;
  set_reg regno regval.

Definition callout_real_pop_seg (segno : Z) : guest unit :=
  ASSERT (is_seg segno);;
  vcpu_segcache_sync R_SS;;
  ss ← seg_cache R_SS;
  esp ← get_reg R_ESP;
  let sp := wrap 16 esp in
  selector ← ld_plain 2 (wrap 32 (base ss + sp));
  set_reg R_ESP ((esp &! 0xffff0000) |! wrap 16 (sp + 2));;
  load_real segno selector.

Definition callout_real_push_seg (segno : Z) : guest unit :=
  ASSERT (is_seg segno);;
  vcpu_segcache_sync R_SS;;
  ss ← seg_cache R_SS;
  esp ← get_reg R_ESP;
  let sp := wrap 16 (wrap 16 esp - 2) in
  set_reg R_ESP ((esp &! 0xffff0000) |! sp);;
  sc ← seg_cache segno;
  st_plain 2 (wrap 32 (base ss + sp)) (wrap 16 (base sc >> 4)).

Definition callout_real_mov_seg_to_reg (segno regno : Z) : guest unit :=
  ASSERT (is_seg segno);;
  ASSERT (is_reg regno);;
  sc ← seg_cache segno;
  r ← get_reg regno;
  set_reg regno ((r &! 0xffff0000) |! wrap 16 (base sc >> 4)).

Definition callout_real_mov_seg_to_mem_restore_tr0 (src_segno target_segno tr0 : Z) : guest unit :=
  ASSERT (is_seg src_segno);;
  ASSERT (is_seg target_segno);;
  ASSERT (is_reg tr0);;
  vcpu_segcache_sync src_segno;;
  vcpu_segcache_sync target_segno;;
  dst ← seg_cache target_segno;
  r ← get_reg tr0;
  t ← get_temporary 0;
  set_reg tr0 t;;
  src ← seg_cache src_segno;
  st_plain 2 (wrap 32 (base dst + r)) (wrap 16 (base src >> 4)).

Definition callout_iret : guest unit :=
  p ← protected_mode;
  if (p : bool) then iret_protected fault else iret_real fault.

(** ** Loading a segment lazily

    The descriptors of the guest are absent from the monitor's table until
    the guest uses one and faults. *)
Definition gpf_load_seg (segno descno_val : Z) : guest unit :=
  let descno := wrap 16 descno_val in
  if SEL_BASE <=? descno then NOT_IMPLEMENTED else
  s ← gets sg;
  sc ← seg_cache segno;
  l ← lift (store (segs s) segno (set_selector sc descno));
  upd (set_sg (upd_segs s l));;
  r ← vcpu_read_segment descno;
  match r with
  | None => NOT_IMPLEMENTED
  | Some (e1, e2) =>
      s ← gets sg;
      l ← lift (store (segs s) segno
                  (mk_segcache descno (get_seg_base e1 e2) (get_seg_limit e1 e2) e2));
      g ← lift (gdt_make_shadow_segdesc (upd_segs s l) segno);
      upd (set_sg g)
  end.

End Callouts.
