(* ===== verification/Realmode.v ===== *)
(** * The guest in real mode

    What an interrupt and its return, a far call and its return, and a push
    and pop of a segment register do together while the guest runs in real
    mode, where there is no paging and segments are loaded as base and limit
    only. *)

From Stdlib Require Import ZArith Lia Bool.
From stdpp Require Import base list numbers.
From S2P Require Import Prelude Vaddr Gdt Vcpu Interrupt Callouts.

#[local] Arguments geti : simpl never.
#[local] Arguments seti : simpl never.

(** ** Segments *)

Definition real_seg (segno sel : Z) : segcache :=
  mk_segcache (shadow_selector segno) (sel << 4) 0xffff 0.
Definition real_desc (sel : Z) : Z :=
  match make_seg_desc (sel << 4) 0xffff CLS_CODE_DATA 2 3 GRAN_BYTE with
  | Ret d => d
  | Stop _ => 0
  end.

(** The state with register [segno] loaded with [sel]. *)
Definition real_load (g : seg_state) (segno sel : Z) : seg_state :=
  mk_segs (seti (segs g) segno (real_seg segno sel)) (seti (orig_segs g) segno sel)
    (seti (gdt g) (shadow_selector segno >> 3) (real_desc sel))
    (gdt_addr g) (guest_gdt_base g) (guest_gdt_limit g) (cr0 g).

Definition real_mode (g : seg_state) : Prop := nz (cr0 g &! CR0_PE_MASK) = false.

Lemma seti_seti {A} (l : list A) i a b : seti (seti l i a) i b = seti l i b.
Proof. unfold seti. destruct (i <? 0); [reflexivity|]. apply list_insert_insert_eq. Qed.

Lemma real_load_load g segno a b : real_load (real_load g segno a) segno b = real_load g segno b.
Proof. unfold real_load. cbn. rewrite !seti_seti. reflexivity. Qed.

Lemma real_load_sizes g segno sel : sizes_ok g -> sizes_ok (real_load g segno sel).
Proof. intros (H1 & H2 & H3). unfold sizes_ok, real_load. cbn. rewrite !lenZ_seti. auto. Qed.

Lemma load_seg_cache_real g segno sel :
  sizes_ok g -> real_mode g -> 0 <= segno < NUM_SEGS ->
  load_seg_cache g segno sel (sel << 4) 0xffff 0 =
  Ret (real_load g segno sel, if segno =? R_CS then Some 0 else None).
Proof.
  intros (H1 & H2 & H3) Hr Hs. unfold load_seg_cache, real_mode in *.
  rewrite !store_ok by lia. cbn [mbind res_bind cr0 upd_orig upd_segs segs orig_segs]. rewrite Hr.
  cbn [negb orb]. rewrite geti_seti_eq by lia. cbn [the mbind res_bind].
  rewrite store_ok by (rewrite lenZ_seti; lia). rewrite seti_seti. cbn [mbind res_bind mret res_ret].
  unfold gdt_make_shadow_segdesc. cbn [upd_orig upd_segs segs]. rewrite geti_seti_eq by lia.
  cbn [the mbind res_bind set_selector flags limit base selector].
  change (nz (0 &! DESC_G_MASK)) with false. cbn iota.
  destruct (make_seg_desc_ok (sel << 4) 0xffff ltac:(lia) GRAN_BYTE) as [d Ed].
  unfold real_load, real_desc. rewrite Ed. cbn [mbind res_bind gdt upd_orig upd_segs].
  rewrite store_ok.
  2:{ rewrite H3, shadow_selector_val, Z.shiftr_div_pow2 by lia. unfold NUM_SEGS, GDT_SIZE in *.
      change SEL_SHADOW with 65488. Z.div_mod_to_equations. lia. }
  cbn [mbind res_bind]. destruct (Z.eqb_spec segno R_CS) as [->|]; [|reflexivity].
  unfold vcpu_get_privilege_level. cbn. rewrite geti_seti_eq by lia. cbn. rewrite Hr. reflexivity.
Qed.

(** ** The 16-bit stack *)

Lemma land_16 x : x &! 0xffff = x mod 2 ^ 16.
Proof. change 0xffff with (Z.ones 16). apply Z.land_ones. lia. Qed.

Lemma wrap_mod x : wrap 32 x mod 2 ^ 16 = x mod 2 ^ 16.
Proof.
  unfold wrap. change (2 ^ 32) with (2 ^ 16 * 2 ^ 16).
  rewrite Z.rem_mul_r by lia. rewrite Z.mul_comm, Z.mod_add by lia. apply Z.mod_mod. lia.
Qed.

(** Replacing the low half of a register. *)
Lemma set_low_half esp v :
  (esp &~ 0xffff) |! (v &! 0xffff) = esp / 2 ^ 16 * 2 ^ 16 + v mod 2 ^ 16.
Proof.
  rewrite land_16. change 0xffff with (Z.ones 16). rewrite ldiff_ones by lia.
  rewrite lor_mult_low; [lia| |lia]. apply Z.mod_pos_bound. lia.
Qed.

(** The address of [sp] in the segment at [ssp]. *)
Definition at16 (ssp sp : Z) : Z := ssp + sp mod 2 ^ 16.

(** A stack segment below the monitor. *)
Definition stack_fits (ssp : Z) : Prop := 0 <= ssp /\ ssp + 2 ^ 16 + 4 <= LOADER_MONITOR_VIRT_BASE.

Lemma stack_addr ssp sp : stack_fits ssp -> wrap 32 (ssp + (sp &! 0xffff)) = at16 ssp sp.
Proof.
  intros [H1 H2]. rewrite land_16. pose proof (Z.mod_pos_bound sp (2 ^ 16) ltac:(lia)).
  apply wrap_id. unfold inU, at16. change LOADER_MONITOR_VIRT_BASE with 0xff800000 in H2. lia.
Qed.

Lemma at16_eq ssp x y : x mod 2 ^ 16 = y mod 2 ^ 16 -> at16 ssp x = at16 ssp y.
Proof. unfold at16. intros ->. reflexivity. Qed.

(** Words at different distances below the stack pointer do not overlap. *)
Lemma at16_apart ssp x y n :
  n <= y - x -> y - x + n <= 2 ^ 16 ->
  at16 ssp x + n <= at16 ssp y \/ at16 ssp y + n <= at16 ssp x.
Proof. unfold at16. intros H1 H2. Z.div_mod_to_equations. lia. Qed.

(** Memory with [vs] pushed below [sp], [n] bytes each. *)
Fixpoint frame_mem (n : nat) (ssp sp : Z) (vs : list Z) (m : Z -> Z) : Z -> Z :=
  match vs with
  | [] => m
  | v :: vs => frame_mem n ssp (sp - Z.of_nat n) vs (save n m (at16 ssp (sp - Z.of_nat n)) v)
  end.

Lemma mod_sub_l x y k : x mod 2 ^ 16 = y mod 2 ^ 16 -> (x - k) mod 2 ^ 16 = (y - k) mod 2 ^ 16.
Proof. intros H. rewrite <- (Zminus_mod_idemp_l x), H, Zminus_mod_idemp_l. reflexivity. Qed.

Lemma wrap_add_mod x y k : x mod 2 ^ 16 = y mod 2 ^ 16 -> wrap 32 (x + k) mod 2 ^ 16 = (y + k) mod 2 ^ 16.
Proof. intros H. rewrite wrap_mod, <- Zplus_mod_idemp_l, H, Zplus_mod_idemp_l. reflexivity. Qed.

Lemma frame_mem_mod n ssp x y vs m :
  x mod 2 ^ 16 = y mod 2 ^ 16 -> frame_mem n ssp x vs m = frame_mem n ssp y vs m.
Proof.
  revert x y m. induction vs as [|v vs IH]; intros x y m H; [reflexivity|]. cbn [frame_mem].
  rewrite (at16_eq ssp _ (y - Z.of_nat n)) by (apply mod_sub_l, H). apply IH, mod_sub_l, H.
Qed.

(** A word above the frame is not touched by it. *)
Lemma load_frame_above n ssp sp vs m x :
  sp <= x -> x - sp + Z.of_nat n * lenZ vs + Z.of_nat n <= 2 ^ 16 ->
  load n (frame_mem n ssp sp vs m) (at16 ssp x) = load n m (at16 ssp x).
Proof.
  revert sp m. induction vs as [|v vs IH]; intros sp m H1 H2; [reflexivity|]. cbn [frame_mem].
  unfold lenZ in *. cbn [length] in H2. rewrite IH by lia.
  apply load_save_other.
  destruct (at16_apart ssp (sp - Z.of_nat n) x (Z.of_nat n)); lia.
Qed.

Lemma load_frame n ssp sp vs m i v :
  vs !! i = Some v -> Z.of_nat n * lenZ vs <= 2 ^ 16 ->
  load n (frame_mem n ssp sp vs m) (at16 ssp (sp - Z.of_nat n * (Z.of_nat i + 1)))
  = wrap (8 * Z.of_nat n) v.
Proof.
  revert sp m i. induction vs as [|v' vs IH]; intros sp m i H Hl; [discriminate|]. cbn [frame_mem].
  unfold lenZ in *. cbn [length] in Hl. destruct i as [|i]; cbn in H.
  - injection H as ->. replace (sp - Z.of_nat n * (Z.of_nat 0 + 1)) with (sp - Z.of_nat n) by lia.
    rewrite load_frame_above by (unfold lenZ; lia). apply load_save.
  - rewrite <- (IH (sp - Z.of_nat n) (save n m (at16 ssp (sp - Z.of_nat n)) v') i H) by lia.
    f_equal. f_equal. lia.
Qed.

Lemma frame_mem_out n ssp sp vs m x :
  (forall i, (i < length vs)%nat ->
     let a := at16 ssp (sp - Z.of_nat n * (Z.of_nat i + 1)) in x < a \/ a + Z.of_nat n <= x) ->
  frame_mem n ssp sp vs m x = m x.
Proof.
  revert sp m. induction vs as [|v vs IH]; intros sp m H; [reflexivity|]. cbn [frame_mem].
  rewrite IH.
  - apply save_out. specialize (H 0%nat ltac:(cbn; lia)). cbn zeta in H.
    replace (sp - Z.of_nat n * (Z.of_nat 0 + 1)) with (sp - Z.of_nat n) in H by lia. exact H.
  - intros i Hi. specialize (H (S i) ltac:(cbn; lia)). cbn zeta in *.
    replace (sp - Z.of_nat n - Z.of_nat n * (Z.of_nat i + 1))
      with (sp - Z.of_nat n * (Z.of_nat (S i) + 1)) by lia. exact H.
Qed.

(** ** The flags image *)

(** Compute the bit operations between numerals. *)
Ltac znum x := lazymatch x with Z0 => idtac | Zpos _ => idtac | Zneg _ => idtac end.
Ltac zconst :=
  repeat match goal with
  | |- context [Z.land ?a ?b] => znum a; znum b; let v := eval vm_compute in (Z.land a b) in change (Z.land a b) with v
  | |- context [Z.lor ?a ?b] => znum a; znum b; let v := eval vm_compute in (Z.lor a b) in change (Z.lor a b) with v
  | |- context [Z.shiftl ?a ?b] => znum a; znum b; let v := eval vm_compute in (Z.shiftl a b) in change (Z.shiftl a b) with v
  | |- context [Z.lnot ?a] => znum a; let v := eval vm_compute in (Z.lnot a) in change (Z.lnot a) with v
  end.

(** The flags in [iret_real]'s reach: all of the low half but [IF] and
    [IOPL]. *)
Definition low_flags : Z := 0xcdff.

Lemma flags_image s :
  0 <= IF_ s <= 1 -> 0 <= IOPL s < 4 ->
  let f := wrap 16 (push_eflags s) in
  f &! low_flags = eflags s &! low_flags /\ nz (f &! IF_MASK) = (IF_ s =? 1)
  /\ (f >> IOPL_SHIFT) &! 3 = IOPL s /\ nz (f &! AC_MASK) = false.
Proof.
  intros Hi Hp. cbv zeta.
  assert (Ei : IF_ s = 0 \/ IF_ s = 1) by lia.
  assert (Ep : IOPL s = 0 \/ IOPL s = 1 \/ IOPL s = 2 \/ IOPL s = 3) by lia.
  replace (wrap 16 (push_eflags s)) with (push_eflags s &! 0xffff)
    by (change 0xffff with (Z.ones 16); apply Z.land_ones; lia).
  replace ((push_eflags s &! 0xffff) >> IOPL_SHIFT &! 3)
    with ((push_eflags s &! 0x3000) >> 12).
  2:{ change 3 with (0x3000 >> 12). unfold IOPL_SHIFT.
      rewrite <- Z.shiftr_land, <- Z.land_assoc. reflexivity. }
  unfold push_eflags, low_flags. rewrite !Z.ldiff_land.
  set (e := eflags s). set (a := if nz (AC s) then AC_MASK else 0).
  assert (Ea : a = 0 \/ a = AC_MASK) by (unfold a; destruct (nz _); auto).
  destruct Ei as [-> | ->], Ep as [-> | [-> | [-> | ->]]], Ea as [-> | ->];
    unfold IF_MASK, IOPL_MASK, AC_MASK; cbn [Z.eqb Pos.eqb];
    rewrite !Z.land_lor_distr_l, <- !Z.land_assoc; zconst;
    rewrite ?Z.land_0_r, ?Z.lor_0_r; auto.
Qed.

(** ** The processor in real mode *)

(** [SS] and [CS] hold the real-mode selectors [ss] and [cs], the stack
    pointer is [esp]. *)
Record in_real (s : vcpu_t) (ss cs esp : Z) : Prop := {
  real_sizes : sizes_ok (sg s);
  real_pe : real_mode (sg s);
  real_ss : geti (segs (sg s)) R_SS = Some (real_seg R_SS ss);
  real_cs : geti (segs (sg s)) R_CS = Some (real_seg R_CS cs);
  real_ocs : geti (orig_segs (sg s)) R_CS = Some cs;
  real_esp : geti (regs s) R_ESP = Some esp;
  real_ssr : 0 <= ss < 2 ^ 16;
  real_csr : 0 <= cs < 2 ^ 16 }.

Lemma real_fits ss : 0 <= ss < 2 ^ 16 -> stack_fits (ss << 4).
Proof.
  intros H. rewrite Z.shiftl_mul_pow2 by lia. unfold stack_fits.
  change LOADER_MONITOR_VIRT_BASE with 0xff800000. lia.
Qed.

Lemma real_orig s ss cs esp i :
  in_real s ss cs esp -> 0 <= i < NUM_SEGS -> exists o, geti (orig_segs (sg s)) i = Some o.
Proof. intros H Hi. destruct (real_sizes _ _ _ _ H) as (_ & E & _). apply geti_lt_Some. lia. Qed.

(** Loading [CS] keeps the stack. *)
Lemma in_real_cs s ss cs esp s' cs' esp' :
  in_real s ss cs esp -> 0 <= cs' < 2 ^ 16 ->
  sg s' = real_load (sg s) R_CS cs' -> regs s' = seti (regs s) R_ESP esp' ->
  in_real s' ss cs' esp'.
Proof.
  intros [H1 H2 H3 H4 H5 H6 H7 H8] Hc Es Er.
  pose proof H1 as (L1 & L2 & _). unfold NUM_SEGS in *.
  split; try assumption; cbn; rewrite ?Es, ?Er; cbn.
  - apply real_load_sizes, H1.
  - exact H2.
  - rewrite geti_seti_ne by discriminate. exact H3.
  - apply geti_seti_eq. unfold R_CS. lia.
  - apply geti_seti_eq. unfold R_CS. lia.
  - apply geti_seti_eq. eapply geti_Some_lt. exact H6.
Qed.

Section Real.
Context (fault : Z -> bool -> option Z).
(** There are no page tables in real mode. *)
Hypothesis no_paging : forall a w, fault a w = None.

Lemma reach_all n a w : a + Z.of_nat n <= LOADER_MONITOR_VIRT_BASE -> reachable fault n a w.
Proof. intros H. split; [exact H|]. rewrite !no_paging. auto. Qed.

Lemma at16_reach n ssp sp w :
  stack_fits ssp -> (n <= 4)%nat -> reachable fault n (at16 ssp sp) w.
Proof.
  intros [H1 H2] Hn. apply reach_all. unfold at16.
  pose proof (Z.mod_pos_bound sp (2 ^ 16) ltac:(lia)). lia.
Qed.

Lemma PUSH_run n ssp sp v s :
  stack_fits ssp -> (0 < n <= 4)%nat ->
  PUSH fault n ssp sp 0xffff v s =
  Next (wrap 32 (sp - Z.of_nat n)) (set_mem (save n (mem s) (at16 ssp (sp - Z.of_nat n)) v) s).
Proof.
  intros Hs Hn. unfold PUSH. rewrite stack_addr by exact Hs.
  rewrite (at16_eq ssp _ (sp - Z.of_nat n)) by apply wrap_mod.
  rewrite (bind_run _ _ _ tt _ (st_kernel_run fault n _ v s ltac:(lia) (at16_reach n _ _ _ Hs ltac:(lia)))).
  reflexivity.
Qed.

Lemma POP_run n ssp sp s :
  stack_fits ssp -> (0 < n <= 4)%nat ->
  POP fault n ssp sp 0xffff s =
  Next (load n (mem s) (at16 ssp sp), wrap 32 (sp + Z.of_nat n)) s.
Proof.
  intros Hs Hn. unfold POP. rewrite stack_addr by exact Hs.
  rewrite (bind_run _ _ _ _ _ (ld_kernel_run fault n _ s ltac:(lia) (at16_reach n _ _ _ Hs ltac:(lia)))).
  reflexivity.
Qed.

Lemma load_seg_run g segno sel s :
  sg s = g -> sizes_ok g -> real_mode g -> 0 <= segno < NUM_SEGS ->
  vcpu_load_seg_cache segno sel (sel << 4) 0xffff 0 s =
  Next tt (set_pt_user (if segno =? R_CS then 0 else pt_user s) (set_sg (real_load g segno sel) s)).
Proof.
  intros <- H1 H2 H3. unfold vcpu_load_seg_cache. gpure.
  gstep ltac:(apply lift_run, load_seg_cache_real). gpure.
  destruct (segno =? R_CS); [reflexivity|]. destruct s; reflexivity.
Qed.

Lemma settle_run s : 0 <= IF_ s <= 2 -> settle_IF s = Next tt (set_IF (settled (IF_ s)) s).
Proof.
  intros H. assert (E : IF_ s = 0 \/ IF_ s = 1 \/ IF_ s = 2) by lia.
  unfold settle_IF, settled. destruct s; cbn in *. destruct E as [->|[->| ->]]; reflexivity.
Qed.

Lemma push_all_run n ssp sp vs s :
  stack_fits ssp -> (0 < n <= 4)%nat ->
  exists sp', push_all fault n ssp sp 0xffff vs s = Next sp' (set_mem (frame_mem n ssp sp vs (mem s)) s)
  /\ sp' mod 2 ^ 16 = (sp - Z.of_nat n * lenZ vs) mod 2 ^ 16.
Proof.
  intros Hs Hn. revert sp s. induction vs as [|v vs IH]; intros sp s.
  - exists sp. split; [destruct s; reflexivity|]. unfold lenZ. cbn [length]. f_equal. lia.
  - destruct (IH (wrap 32 (sp - Z.of_nat n)) (set_mem (save n (mem s) (at16 ssp (sp - Z.of_nat n)) v) s))
      as (sp' & E & Em).
    exists sp'. cbn [push_all frame_mem]. split.
    + gstep ltac:(apply PUSH_run). rewrite E.
      rewrite (frame_mem_mod n ssp _ (sp - Z.of_nat n)) by apply wrap_mod. destruct s; reflexivity.
    + rewrite Em. erewrite mod_sub_l by apply wrap_mod. unfold lenZ. cbn [length]. f_equal. lia.
Qed.

Lemma sync_real s ss cs esp :
  in_real s ss cs esp -> vcpu_segcache_sync fault R_SS s = Next tt s.
Proof.
  intros H. destruct (real_orig s ss cs esp R_SS H ltac:(unfold R_SS, NUM_SEGS; lia)) as [o Ho].
  eapply sync_run; [apply (real_ss _ _ _ _ H)|exact Ho|]. vm_compute. discriminate.
Qed.

(** The address of a real-mode vector. *)
Definition vector (s : vcpu_t) (intno : Z) : Z := fst (idt s) + intno * 4.
Definition vector_ok (s : vcpu_t) (intno : Z) : Prop :=
  0 <= intno < 256 /\ intno * 4 + 3 <= snd (idt s) /\ 0 <= fst (idt s)
  /\ fst (idt s) + 2 ^ 10 <= LOADER_MONITOR_VIRT_BASE.

(** The state an interrupt leaves in real mode. *)
Definition in_handler (s : vcpu_t) (intno ret ss cs esp : Z) : vcpu_t :=
  let s0 := set_IF (settled (IF_ s)) s in
  set_IF 0 (set_AC 0 (set_eflags (eflags s &~ (TF_MASK |! AC_MASK |! RF_MASK))
    (set_pt_user 0 (set_sg (real_load (sg s) R_CS (load 2 (mem s) (vector s intno + 2)))
    (set_eip (load 2 (mem s) (vector s intno))
    (set_regs (seti (regs s) R_ESP (esp / 2 ^ 16 * 2 ^ 16 + (esp - 6) mod 2 ^ 16))
    (set_mem (frame_mem 2 (ss << 4) esp [push_eflags s0; cs; ret] (mem s)) s))))))).

Lemma do_interrupt_real_run s intno is_int next ss cs esp :
  in_real s ss cs esp -> 0 <= IF_ s <= 2 -> vector_ok s intno ->
  do_interrupt_real fault intno is_int next s
  = Next tt (in_handler s intno (if is_int then next else eip s) ss cs esp).
Proof.
  intros R HIF (V1 & V2 & V3 & V4). pose proof (real_fits ss (real_ssr _ _ _ _ R)) as F.
  change LOADER_MONITOR_VIRT_BASE with 0xff800000 in V4.
  unfold do_interrupt_real. gstep ltac:(eapply sync_real; exact R). gpure.
  destruct (idt s) as [ib il] eqn:Ei. cbn [fst snd] in *.
  gstep ltac:(apply raise_if_run, Z.ltb_ge; rewrite wrap_id; [lia|unfold inU; lia]).
  rewrite (wrap_id 32 (ib + intno * 4)) by (unfold inU; lia).
  rewrite (wrap_id 32 (ib + intno * 4 + 2)) by (unfold inU; lia).
  gstep ltac:(apply ld_kernel_run; [lia|apply reach_all; change LOADER_MONITOR_VIRT_BASE with 0xff800000; lia]).
  gstep ltac:(apply ld_kernel_run; [lia|apply reach_all; change LOADER_MONITOR_VIRT_BASE with 0xff800000; lia]).
  gstep ltac:(apply get_reg_run, (real_esp _ _ _ _ R)).
  gstep ltac:(apply seg_cache_run, (real_ss _ _ _ _ R)). gpure.
  gstep ltac:(apply seg_cache_run, (real_cs _ _ _ _ R)).
  gstep ltac:(apply settle_run). gpure. cbn [base real_seg].
  destruct (push_all_run 2 (ss << 4) esp [push_eflags (set_IF (settled (IF_ s)) s); cs;
     if is_int then next else eip s] (set_IF (settled (IF_ s)) s) F ltac:(lia)) as (sp' & E & Em).
  rewrite Z.shiftr_shiftl_l, Z.shiftl_0_r by lia.
  gstep ltac:(exact E). gstep ltac:(apply SET_ESP_run, (real_esp _ _ _ _ R)). gpure.
  gstep ltac:(apply load_seg_run; [reflexivity|exact (real_sizes _ _ _ _ R)
                                  |exact (real_pe _ _ _ _ R)|unfold R_CS, NUM_SEGS; lia]).
  gpure. rewrite set_low_half, Em. unfold in_handler, vector. rewrite Ei. reflexivity.
Qed.

(** ** Returning *)

Definition frame_word (m : Z -> Z) (n : nat) (ss esp : Z) (i : Z) : Z :=
  load n m (at16 (ss << 4) (esp - Z.of_nat n * i)).

(** [e0] is [esp] with [k] bytes pushed. *)
Definition pushed (esp k e0 : Z) : Prop := e0 = esp / 2 ^ 16 * 2 ^ 16 + (esp - k) mod 2 ^ 16.

Lemma pushed_mod esp k e0 : pushed esp k e0 -> e0 mod 2 ^ 16 = (esp - k) mod 2 ^ 16.
Proof. intros ->. rewrite Z.add_comm, Z.mod_add by lia. apply Z.mod_mod. lia. Qed.

Lemma popped_esp esp k e0 x :
  pushed esp k e0 -> x mod 2 ^ 16 = esp mod 2 ^ 16 -> (e0 &~ 0xffff) |! (x &! 0xffff) = esp.
Proof.
  intros -> H. rewrite set_low_half, H, Z.div_add_l by lia.
  rewrite (Z.div_small ((esp - k) mod 2 ^ 16)) by (apply Z.mod_pos_bound; lia).
  rewrite Z.add_0_r. pose proof (Z.div_mod esp (2 ^ 16)). lia.
Qed.

Lemma iret_real_run s ss cs esp e0 :
  in_real s ss cs e0 -> pushed esp 6 e0 ->
  nz (eflags s &! VM_MASK) = false ->
  let w := frame_word (mem s) 2 ss esp in
  let new_cs := w 2 &! 0xffff in
  let f := w 1 in
  iret_real fault s = Next tt
    (set_AC (if nz (f &! AC_MASK) then 1 else 0) (set_IF (if nz (f &! IF_MASK) then 1 else 0)
    (set_eflags ((eflags s &~ low_flags) |! (f &! low_flags)) (set_IOPL ((f >> IOPL_SHIFT) &! 3)
    (set_eip (w 3) (set_pt_user 0 (set_sg (real_load (sg s) R_CS new_cs)
    (set_regs (seti (regs s) R_ESP esp) s)))))))).
Proof.
  intros R He VM. pose proof (real_fits ss (real_ssr _ _ _ _ R)) as F. cbv zeta. unfold iret_real.
  assert (M0 := pushed_mod _ _ _ He).
  assert (M1 := wrap_add_mod _ _ 2 M0). assert (M2 := wrap_add_mod _ _ 2 M1).
  assert (M3 := wrap_add_mod _ _ 2 M2).
  replace (esp - 6 + 2 + 2 + 2) with esp in M3 by lia.
  replace (esp - 6 + 2 + 2) with (esp - 2) in M2 by lia.
  replace (esp - 6 + 2) with (esp - 4) in M1 by lia.
  gstep ltac:(eapply sync_real; exact R).
  gstep ltac:(apply seg_cache_run, (real_ss _ _ _ _ R)).
  gstep ltac:(apply get_reg_run, (real_esp _ _ _ _ R)). cbn [base real_seg].
  gstep ltac:(apply POP_run; [exact F|lia]). gstep ltac:(apply POP_run; [exact F|lia]).
  gstep ltac:(apply POP_run; [exact F|lia]). change (Z.of_nat 2) with 2.
  gstep ltac:(apply SET_ESP_run, (real_esp _ _ _ _ R)).
  rewrite (popped_esp _ _ _ _ He M3), (at16_eq _ _ _ M0), (at16_eq _ _ _ M1), (at16_eq _ _ _ M2).
  gstep ltac:(apply load_seg_run; [reflexivity|exact (real_sizes _ _ _ _ R)
                                  |exact (real_pe _ _ _ _ R)|unfold R_CS, NUM_SEGS; lia]).
  gpure. change (eflags (id _)) with (eflags s). rewrite VM. cbn [negb when]. gpure.
  destruct s. reflexivity.
Qed.

(** ** Far calls *)

Definition size_of (n : nat) (size : Z) : Prop := (n = 2%nat /\ size = 2) \/ (n = 4%nat /\ size = 4).

Definition called (s : vcpu_t) (n : nat) (ss cs esp new_cs new_eip ret : Z) : vcpu_t :=
  set_pt_user 0 (set_sg (real_load (sg s) R_CS new_cs) (set_eip new_eip
    (set_regs (seti (regs s) R_ESP (esp / 2 ^ 16 * 2 ^ 16 + (esp - Z.of_nat n * 2) mod 2 ^ 16))
    (set_mem (frame_mem n (ss << 4) esp [cs; ret] (mem s)) s)))).

Lemma not_protected s : real_mode (sg s) -> protected_mode s = Next false s.
Proof. intros H. unfold protected_mode. gpure. rewrite H. reflexivity. Qed.

Lemma callout_lcall_run s n size ss cs esp new_cs new_eip ret :
  in_real s ss cs esp -> 0 <= new_cs < 2 ^ 16 -> size_of n size ->
  callout_lcall fault new_cs new_eip size ret s = Next tt (called s n ss cs esp new_cs new_eip ret).
Proof.
  intros R Hn Hsz. pose proof (real_fits ss (real_ssr _ _ _ _ R)) as F.
  unfold callout_lcall, lcall_real. gstep ltac:(apply not_protected, (real_pe _ _ _ _ R)).
  gstep ltac:(eapply sync_real; exact R).
  gstep ltac:(apply get_reg_run, (real_esp _ _ _ _ R)).
  gstep ltac:(apply seg_cache_run, (real_ss _ _ _ _ R)). cbn [base flags real_seg].
  gstep ltac:(apply orig_seg_run, (real_ocs _ _ _ _ R)).
  change (get_sp_mask 0) with 0xffff.
  destruct (push_all_run n (ss << 4) esp [cs; ret] s F ltac:(destruct Hsz as [[-> _]|[-> _]]; lia))
    as (sp' & E & Em).
  assert (E' : (if size =? 4 then push_all fault 4 (ss << 4) esp 0xffff [cs; ret]
         else ASSERT (size =? 2);; push_all fault 2 (ss << 4) esp 0xffff [cs; ret]) s
     = Next sp' (set_mem (frame_mem n (ss << 4) esp [cs; ret] (mem s)) s))
    by (destruct Hsz as [[-> ->]|[-> ->]]; exact E).
  gstep ltac:(exact E'). gstep ltac:(apply SET_ESP_run, (real_esp _ _ _ _ R)). gpure.
  rewrite (wrap_id 32) by (rewrite Z.shiftl_mul_pow2 by lia; unfold inU; lia).
  rewrite (load_seg_run (sg s)) by first [reflexivity|exact (real_sizes _ _ _ _ R)
    |exact (real_pe _ _ _ _ R)|unfold R_CS, NUM_SEGS; lia].
  rewrite set_low_half, Em. reflexivity.
Qed.

Lemma callout_lret_run s n size popsize ss cs esp e0 :
  in_real s ss cs e0 -> pushed esp (Z.of_nat n * 2) e0 -> size_of n size ->
  let w := frame_word (mem s) n ss esp in
  callout_lret fault size popsize s = Next tt
    (set_eip (w 2) (set_pt_user 0 (set_sg (real_load (sg s) R_CS (w 1 &! 0xffff))
    (set_regs (seti (regs s) R_ESP (esp / 2 ^ 16 * 2 ^ 16 + (esp + popsize) mod 2 ^ 16)) s)))).
Proof.
  intros R He Hsz. pose proof (real_fits ss (real_ssr _ _ _ _ R)) as F. cbv zeta.
  assert (M0 := pushed_mod _ _ _ He).
  assert (M1 := wrap_add_mod _ _ (Z.of_nat n) M0). assert (M2 := wrap_add_mod _ _ (Z.of_nat n) M1).
  assert (M3 := wrap_add_mod _ _ popsize M2).
  replace (esp - Z.of_nat n * 2 + Z.of_nat n + Z.of_nat n + popsize) with (esp + popsize) in M3 by lia.
  replace (esp - Z.of_nat n * 2 + Z.of_nat n) with (esp - Z.of_nat n * 1) in M1 by lia.
  unfold callout_lret, lret_real. gstep ltac:(apply not_protected, (real_pe _ _ _ _ R)).
  gstep ltac:(eapply sync_real; exact R).
  gstep ltac:(apply get_reg_run, (real_esp _ _ _ _ R)).
  gstep ltac:(apply seg_cache_run, (real_ss _ _ _ _ R)). cbn [base flags real_seg].
  change (get_sp_mask 0) with 0xffff.
  assert (En : (if size =? 4 then mret 4%nat else ASSERT (size =? 2);; mret 2%nat) s = Next n s)
    by (destruct Hsz as [[-> ->]|[-> ->]]; reflexivity).
  assert (Hn : (0 < n <= 4)%nat) by (destruct Hsz as [[-> _]|[-> _]]; lia).
  gstep ltac:(exact En). gstep ltac:(apply POP_run; [exact F|exact Hn]).
  gstep ltac:(apply POP_run; [exact F|exact Hn]).
  gstep ltac:(apply SET_ESP_run, (real_esp _ _ _ _ R)).
  rewrite set_low_half, M3, (at16_eq _ _ _ M0), (at16_eq _ _ _ M1).
  gstep ltac:(apply load_seg_run; [reflexivity|exact (real_sizes _ _ _ _ R)
                                  |exact (real_pe _ _ _ _ R)|unfold R_CS, NUM_SEGS; lia]).
  unfold pushed in He.
  replace (e0 / 2 ^ 16) with (esp / 2 ^ 16); [reflexivity|].
  rewrite He, Z.div_add_l by lia. rewrite (Z.div_small (_ mod _)) by (apply Z.mod_pos_bound; lia). lia.
Qed.

End Real.

(** The handler left the frame and the stack alone: [s2] is where it executes
    [iret]. *)
Definition handler_done (s1 s2 : vcpu_t) (ss esp : Z) : Prop :=
  (exists cs2 e0, in_real s2 ss cs2 e0 /\ geti (regs s1) R_ESP = Some e0)
  /\ (forall i, 1 <= i <= 3 -> frame_word (mem s2) 2 ss esp i = frame_word (mem s1) 2 ss esp i)
  /\ nz (eflags s2 &! VM_MASK) = false.

Lemma real_roundtrip_ok fault s intno (is_int : bool) next ss cs esp :
  (forall a w, fault a w = None) -> in_real s ss cs esp -> 0 <= IF_ s <= 2 -> 0 <= IOPL s < 4 ->
  vector_ok s intno -> let ret := if is_int then next else eip s in 0 <= ret < 2 ^ 16 ->
  exists s1, do_interrupt_real fault intno is_int next s = Next tt s1
  /\ eip s1 = load 2 (mem s) (vector s intno)
  /\ geti (orig_segs (sg s1)) R_CS = Some (load 2 (mem s) (vector s intno + 2)) /\ IF_ s1 = 0
  /\ forall s2, handler_done s1 s2 ss esp -> exists s3, iret_real fault s2 = Next tt s3
     /\ eip s3 = ret /\ in_real s3 ss cs esp /\ IF_ s3 = settled (IF_ s) /\ IOPL s3 = IOPL s
     /\ eflags s3 &! low_flags = eflags s &! low_flags
     /\ eflags s3 &~ low_flags = eflags s2 &~ low_flags /\ mem s3 = mem s2.
Proof.
  intros NP R HIF HP V ret Hr. exists (in_handler s intno ret ss cs esp).
  split; [apply do_interrupt_real_run; assumption|]. split; [reflexivity|].
  destruct (real_sizes _ _ _ _ R) as (_ & Hlen & _).
  split; [apply geti_seti_eq; unfold R_CS, NUM_SEGS in *; lia|]. split; [reflexivity|].
  intros s2 ((cs2 & e0 & R2 & E0) & Hw & VM). set (s1 := in_handler _ _ _ _ _ _) in *.
  assert (He : pushed esp 6 e0).
  { change (regs s1) with (seti (regs s) R_ESP (esp / 2 ^ 16 * 2 ^ 16 + (esp - 6) mod 2 ^ 16)) in E0.
    rewrite geti_seti_eq in E0 by (eapply geti_Some_lt, (real_esp _ _ _ _ R)).
    injection E0 as <-. reflexivity. }
  pose proof (flags_image (set_IF (settled (IF_ s)) s)
    ltac:(unfold settled; cbn; destruct (Z.eqb_spec (IF_ s) 2); lia) HP) as FI. cbv zeta in FI.
  assert (W : forall i v, [push_eflags (set_IF (settled (IF_ s)) s); cs; ret] !! i = Some v ->
     (i < 3)%nat -> frame_word (mem s2) 2 ss esp (Z.of_nat i + 1) = wrap 16 v).
  { intros i v Hi Hl. rewrite Hw by lia. apply (load_frame 2 _ _ _ _ _ _ Hi). vm_compute. discriminate. }
  assert (W1 : frame_word (mem s2) 2 ss esp 1 = wrap 16 (push_eflags (set_IF (settled (IF_ s)) s)))
    by (apply (W 0%nat); [reflexivity|lia]).
  assert (W2 : frame_word (mem s2) 2 ss esp 2 = wrap 16 cs) by (apply (W 1%nat); [reflexivity|lia]).
  assert (W3 : frame_word (mem s2) 2 ss esp 3 = wrap 16 ret) by (apply (W 2%nat); [reflexivity|lia]).
  eexists. split; [eapply iret_real_run; eassumption|]. cbv zeta. rewrite W1, W2, W3.
  destruct FI as (F1 & F2 & F3 & F4). rewrite F2, F3, F4, F1, (wrap_id 16 ret) by exact Hr.
  cbn [eip set_AC set_IF set_eflags set_IOPL set_eip IF_ IOPL eflags mem set_pt_user set_sg set_regs].
  split; [reflexivity|]. rewrite (wrap_id 16 cs) by exact (real_csr _ _ _ _ R).
  rewrite land_16, (Z.mod_small cs) by exact (real_csr _ _ _ _ R).
  split; [eapply in_real_cs; [exact R2|exact (real_csr _ _ _ _ R)|reflexivity|reflexivity]|].
  split; [unfold settled; destruct (Z.eqb_spec (IF_ s) 2); [reflexivity|];
          destruct (Z.eqb_spec (IF_ s) 1); lia|].
  split; [reflexivity|].
  split; [|split; [|reflexivity]]; bits_eq; destruct (Z.testbit low_flags i), (Z.testbit (eflags s) i),
    (Z.testbit (eflags s2) i); reflexivity.
Qed.

Lemma far_call_roundtrip_ok fault s n size ss cs esp new_cs new_eip ret popsize :
  (forall a w, fault a w = None) -> in_real s ss cs esp -> 0 <= new_cs < 2 ^ 16 ->
  size_of n size -> inU (8 * Z.of_nat n) ret ->
  exists s1 e0, callout_lcall fault new_cs new_eip size ret s = Next tt s1
  /\ eip s1 = new_eip /\ in_real s1 ss new_cs e0 /\ pushed esp (Z.of_nat n * 2) e0
  /\ forall s2 cs2, in_real s2 ss cs2 e0 ->
     (forall i, 1 <= i <= 2 -> frame_word (mem s2) n ss esp i = frame_word (mem s1) n ss esp i) ->
     exists s3, callout_lret fault size popsize s2 = Next tt s3
     /\ eip s3 = ret /\ in_real s3 ss cs (esp / 2 ^ 16 * 2 ^ 16 + (esp + popsize) mod 2 ^ 16)
     /\ mem s3 = mem s2.
Proof.
  intros NP R Hc Hsz Hr. eexists _, _.
  split; [apply callout_lcall_run; eassumption|]. split; [reflexivity|].
  split; [eapply in_real_cs; [exact R|exact Hc|reflexivity|reflexivity]|]. split; [reflexivity|].
  intros s2 cs2 R2 Hw.
  assert (Hn : (n <= 4)%nat) by (destruct Hsz as [[-> _]|[-> _]]; lia).
  assert (W : forall i v, [cs; ret] !! i = Some v -> (i < 2)%nat ->
     frame_word (mem s2) n ss esp (Z.of_nat i + 1) = wrap (8 * Z.of_nat n) v).
  { intros i v Hi Hl. rewrite Hw by lia. apply (load_frame n _ _ _ _ _ _ Hi).
    change (lenZ [cs; ret]) with 2. lia. }
  assert (W1 : frame_word (mem s2) n ss esp 1 = wrap (8 * Z.of_nat n) cs)
    by (apply (W 0%nat); [reflexivity|lia]).
  assert (W2 : frame_word (mem s2) n ss esp 2 = wrap (8 * Z.of_nat n) ret)
    by (apply (W 1%nat); [reflexivity|lia]).
  eexists. split; [eapply callout_lret_run; [exact NP|exact R2|reflexivity|exact Hsz]|]. cbv zeta.
  pose proof (real_csr _ _ _ _ R) as Hcs.
  rewrite W1, W2, (wrap_id _ ret) by exact Hr.
  rewrite (wrap_id _ cs) by (destruct Hsz as [[-> _]|[-> _]]; unfold inU; simpl; lia).
  rewrite land_16, (Z.mod_small cs) by exact Hcs.
  split; [reflexivity|]. split; [|reflexivity].
  eapply in_real_cs; [exact R2|exact Hcs|reflexivity|reflexivity].
Qed.

(** C20: in real mode an interrupt enters the handler its vector names, with
    interrupts off, and the handler's return resumes the interrupted program:
    whatever the handler did, as long as the stack and the six bytes of the
    frame are as it found them, [iret] restores the instruction pointer, the
    code segment with its cache, the stack pointer (also where it wraps around
    at the end of the segment), [IF], [IOPL] and the low flags, and leaves
    memory as the handler left it. *)
Theorem real_interrupt_roundtrip fault s intno (is_int : bool) next ss cs esp :
  (forall a w, fault a w = None) -> in_real s ss cs esp -> 0 <= IF_ s <= 2 -> 0 <= IOPL s < 4 ->
  vector_ok s intno -> let ret := if is_int then next else eip s in 0 <= ret < 2 ^ 16 ->
  exists s1, do_interrupt_real fault intno is_int next s = Next tt s1
  /\ eip s1 = load 2 (mem s) (vector s intno)
  /\ geti (orig_segs (sg s1)) R_CS = Some (load 2 (mem s) (vector s intno + 2)) /\ IF_ s1 = 0
  /\ forall s2, handler_done s1 s2 ss esp -> exists s3, iret_real fault s2 = Next tt s3
     /\ eip s3 = ret /\ in_real s3 ss cs esp /\ IF_ s3 = settled (IF_ s) /\ IOPL s3 = IOPL s
     /\ eflags s3 &! low_flags = eflags s &! low_flags
     /\ eflags s3 &~ low_flags = eflags s2 &~ low_flags /\ mem s3 = mem s2.
Proof. exact (real_roundtrip_ok fault s intno is_int next ss cs esp). Qed.

(** A guest at F000:1234 whose stack pointer is about to wrap; vector 16 is
    F000:E0F2. *)
Definition real_guest : vcpu_t :=
  mk_vcpu 0x1234 0x1234 [0; 0; 0; 0; 0x70004; 0; 0; 0] 0x246 (mk_segcache 0 0 0 0) (0, 0x3ff)
    (mk_segs [real_seg 0 0; real_seg 1 0xf000; real_seg 2 0x9000; real_seg 3 0; real_seg 4 0;
              real_seg 5 0] [0; 0xf000; 0x9000; 0; 0; 0] (replicate 8192 0) 0xffc20000 0 0 0x10)
    2 1 1 [0] false 0 (mk_exn (-1) 0 false 0) 0 0 (save 4 (fun _ => 0) 0x40 0xf000e0f2).

Lemma real_guest_ok : in_real real_guest 0x9000 0xf000 0x70004.
Proof. split; try reflexivity; try lia. repeat split. Qed.

Lemma real_interrupt_roundtrip_witness :
  exists s1, do_interrupt_real (fun _ _ => None) 16 true 0x1236 real_guest = Next tt s1
  /\ eip s1 = 0xe0f2
  /\ geti (orig_segs (sg s1)) R_CS = Some 0xf000 /\ IF_ s1 = 0
  /\ forall s2, handler_done s1 s2 0x9000 0x70004 ->
     exists s3, iret_real (fun _ _ => None) s2 = Next tt s3
     /\ eip s3 = 0x1236 /\ in_real s3 0x9000 0xf000 0x70004 /\ IF_ s3 = 1 /\ IOPL s3 = 1
     /\ eflags s3 &! low_flags = 0x46
     /\ eflags s3 &~ low_flags = eflags s2 &~ low_flags /\ mem s3 = mem s2.
Proof.
  apply (real_interrupt_roundtrip (fun _ _ => None) real_guest 16 true 0x1236 0x9000 0xf000 0x70004).
  - reflexivity.
  - exact real_guest_ok.
  - vm_compute; split; discriminate.
  - vm_compute; split; [discriminate|reflexivity].
  - unfold vector_ok; vm_compute; repeat split; try discriminate; reflexivity.
  - vm_compute; split; [discriminate|reflexivity].
Defined.

(** A far call and the matching return are a round trip, for 16-bit and 32-bit
    frames and any number of argument bytes. *)
Theorem far_call_roundtrip fault s n size ss cs esp new_cs new_eip ret popsize :
  (forall a w, fault a w = None) -> in_real s ss cs esp -> 0 <= new_cs < 2 ^ 16 ->
  size_of n size -> inU (8 * Z.of_nat n) ret ->
  exists s1 e0, callout_lcall fault new_cs new_eip size ret s = Next tt s1
  /\ eip s1 = new_eip /\ in_real s1 ss new_cs e0 /\ pushed esp (Z.of_nat n * 2) e0
  /\ forall s2 cs2, in_real s2 ss cs2 e0 ->
     (forall i, 1 <= i <= 2 -> frame_word (mem s2) n ss esp i = frame_word (mem s1) n ss esp i) ->
     exists s3, callout_lret fault size popsize s2 = Next tt s3
     /\ eip s3 = ret /\ in_real s3 ss cs (esp / 2 ^ 16 * 2 ^ 16 + (esp + popsize) mod 2 ^ 16)
     /\ mem s3 = mem s2.
Proof. exact (far_call_roundtrip_ok fault s n size ss cs esp new_cs new_eip ret popsize). Qed.

(** The guest with a 32-bit far pointer F000:00002000 at linear address 500h,
    its stack away from the end of the segment. *)
Definition pointing_guest : vcpu_t :=
  set_regs [0; 0x500; 0; 0; 0x8000; 0; 0; 0]
    (set_mem (save 2 (save 4 (fun _ => 0) 0x500 0x2000) 0x504 0xf000) real_guest).

Definition no_fault : Z -> bool -> option Z := fun _ _ => None.

(** An indirect far call with a 32-bit operand pushes the frame of a 16-bit
    one, so the 32-bit return takes the saved code segment for the upper half
    of the instruction pointer and moves the stack pointer past the frame. *)
Theorem far_call_indirect_frame :
  match callout_restore_tr0_and_lcall_indir no_fault R_ECX R_DS 4 0x1236 pointing_guest with
  | Next _ s1 =>
      eip s1 = 0x2000 /\ geti (regs s1) R_ESP = Some (0x8000 - 4)
      /\ match callout_lret no_fault 4 0 s1 with
         | Next _ s3 => eip s3 = 0xf0001236 /\ geti (regs s3) R_ESP = Some (0x8000 + 4)
         | _ => False
         end
  | _ => False
  end.
Proof. vm_compute. repeat split. Qed.

(** ** Pushing and popping segment registers *)

Section PushPop.
Context (fault : Z -> bool -> option Z) (no_paging : forall a w, fault a w = None).

Lemma plain_run n a w s :
  a + Z.of_nat n <= LOADER_MONITOR_VIRT_BASE -> plain_access fault n a w s = Next tt s.
Proof.
  intros H. unfold plain_access. rewrite (proj2 (Z.ltb_ge _ _) H), !no_paging. reflexivity.
Qed.

Lemma at16_below ssp sp : stack_fits ssp -> at16 ssp sp + Z.of_nat 2 <= LOADER_MONITOR_VIRT_BASE.
Proof. intros [H1 H2]. unfold at16. pose proof (Z.mod_pos_bound sp (2 ^ 16) ltac:(lia)). lia. Qed.

Lemma is_seg_true i : 0 <= i < NUM_SEGS -> is_seg i = true.
Proof. intros H. unfold is_seg. rewrite (proj2 (Z.leb_le 0 i)), (proj2 (Z.ltb_lt i _)) by lia. reflexivity. Qed.

Lemma high_half esp v : inU 32 esp -> (esp &! 0xffff0000) |! wrap 16 v = esp / 2 ^ 16 * 2 ^ 16 + v mod 2 ^ 16.
Proof.
  intros H. change 0xffff0000 with (Z.ones 16 << 16). rewrite land_field_at, Z.lor_comm, lor_shiftl_low by
    (lia || apply wrap_inU; lia). unfold inU, wrap in *.
  rewrite (Z.mod_small (esp / 2 ^ 16)) by (Z.div_mod_to_equations; lia). lia.
Qed.

Lemma push_seg_run s ss cs esp i sel :
  in_real s ss cs esp -> inU 32 esp -> 0 <= i < NUM_SEGS ->
  geti (segs (sg s)) i = Some (real_seg i sel) -> 0 <= sel < 2 ^ 16 ->
  callout_real_push_seg fault i s = Next tt
    (set_mem (frame_mem 2 (ss << 4) esp [sel] (mem s))
    (set_regs (seti (regs s) R_ESP (esp / 2 ^ 16 * 2 ^ 16 + (esp - 2) mod 2 ^ 16)) s)).
Proof.
  intros R He Hi Hs Hsel. pose proof (real_fits ss (real_ssr _ _ _ _ R)) as F.
  unfold callout_real_push_seg. gstep ltac:(apply ASSERT_run, is_seg_true, Hi).
  gstep ltac:(eapply sync_real; exact R).
  gstep ltac:(apply seg_cache_run, (real_ss _ _ _ _ R)). cbn [base real_seg].
  gstep ltac:(apply get_reg_run, (real_esp _ _ _ _ R)).
  gstep ltac:(eapply set_reg_run, (real_esp _ _ _ _ R)).
  gstep ltac:(apply seg_cache_run; exact Hs). cbn [base real_seg].
  assert (Em : (wrap 16 esp - 2) mod 2 ^ 16 = (esp - 2) mod 2 ^ 16) by apply Zminus_mod_idemp_l.
  rewrite high_half, Em, Z.shiftr_shiftl_l, Z.shiftl_0_r by (lia || exact He).
  rewrite !(wrap_id 16 sel) by exact Hsel.
  replace (wrap 16 (wrap 16 esp - 2)) with ((esp - 2) &! 0xffff) by (rewrite land_16; symmetry; exact Em).
  rewrite stack_addr by exact F. unfold st_plain.
  gstep ltac:(apply plain_run, at16_below, F). reflexivity.
Qed.

Lemma pop_seg_run s ss cs esp e0 i :
  in_real s ss cs e0 -> pushed esp 2 e0 -> inU 32 e0 -> 0 <= i < NUM_SEGS ->
  callout_real_pop_seg fault i s = Next tt
    (set_pt_user (if i =? R_CS then 0 else pt_user s)
    (set_sg (real_load (sg s) i (frame_word (mem s) 2 ss esp 1)) (set_regs (seti (regs s) R_ESP esp) s))).
Proof.
  intros R He Hu Hi. pose proof (real_fits ss (real_ssr _ _ _ _ R)) as F.
  assert (M0 := pushed_mod _ _ _ He).
  unfold callout_real_pop_seg. gstep ltac:(apply ASSERT_run, is_seg_true, Hi).
  gstep ltac:(eapply sync_real; exact R).
  gstep ltac:(apply seg_cache_run, (real_ss _ _ _ _ R)). cbn [base real_seg].
  gstep ltac:(apply get_reg_run, (real_esp _ _ _ _ R)).
  replace (wrap 16 e0) with (e0 &! 0xffff) by apply land_16. rewrite stack_addr by exact F.
  assert (El : ld_plain fault 2 (at16 (ss << 4) e0) s = Next (load 2 (mem s) (at16 (ss << 4) e0)) s)
    by (unfold ld_plain; gstep ltac:(apply plain_run, at16_below, F); reflexivity).
  gstep ltac:(exact El). gstep ltac:(eapply set_reg_run, (real_esp _ _ _ _ R)).
  rewrite high_half, land_16, Zplus_mod_idemp_l by exact Hu.
  replace (e0 / 2 ^ 16 * 2 ^ 16 + (e0 + 2) mod 2 ^ 16) with esp.
  2:{ rewrite <- set_low_half, (popped_esp esp 2); [reflexivity|exact He|].
      rewrite <- Zplus_mod_idemp_l, M0, Zplus_mod_idemp_l. f_equal. lia. }
  unfold load_real. rewrite (load_seg_run (sg s)) by first [reflexivity|exact (real_sizes _ _ _ _ R)
    |exact (real_pe _ _ _ _ R)|exact Hi].
  unfold frame_word. rewrite (at16_eq _ _ _ M0). reflexivity.
Qed.

(** Pushing one segment register and popping another copies it. *)
Theorem push_pop_segment s ss cs esp i j sel :
  in_real s ss cs esp -> inU 32 esp -> 0 <= i < NUM_SEGS -> 0 <= j < NUM_SEGS ->
  geti (segs (sg s)) i = Some (real_seg i sel) -> 0 <= sel < 2 ^ 16 ->
  exists s1 s2, callout_real_push_seg fault i s = Next tt s1
  /\ callout_real_pop_seg fault j s1 = Next tt s2
  /\ sg s2 = real_load (sg s) j sel /\ geti (regs s2) R_ESP = Some esp.
Proof.
  intros R He Hi Hj Hs Hsel. eexists _, _.
  split; [apply push_seg_run with (cs := cs) (sel := sel); eassumption|].
  pose proof R as [H1 H2 H3 H4 H5 H6 H7 H8]. pose proof (geti_Some_lt _ _ _ H6) as Hl.
  set (e0 := esp / 2 ^ 16 * 2 ^ 16 + (esp - 2) mod 2 ^ 16).
  split.
  - apply (pop_seg_run _ ss cs esp e0); [|reflexivity| |exact Hj].
    + split; try assumption. apply geti_seti_eq, Hl.
    + unfold e0, inU in *. Z.div_mod_to_equations. lia.
  - cbn. split; [|apply geti_seti_eq; rewrite lenZ_seti; exact Hl]. f_equal.
    assert (E : frame_word (frame_mem 2 (ss << 4) esp [sel] (mem s)) 2 ss esp 1 = wrap 16 sel)
      by (apply (load_frame 2 (ss << 4) esp [sel] (mem s) 0 sel); [reflexivity|vm_compute; discriminate]).
    etransitivity; [exact E|]. apply wrap_id, Hsel.
Qed.

End PushPop.
