(* ===== verification/Protected.v ===== *)
(** * Protection in the guest

    What the delivery of interrupts and the return from them guarantee in
    protected mode: privilege levels, exceptions raised on the way, and where
    they part from the processor. *)

From Stdlib Require Import ZArith Lia Bool.
From stdpp Require Import base list numbers.
From S2P Require Import Prelude Vaddr Gdt Vcpu Interrupt.

#[local] Arguments geti : simpl never.
#[local] Arguments seti : simpl never.

(** ** Exceptions leave the program restartable *)

(** [s'] differs from [s] in memory, the hidden parts of segment registers,
    and [eip], which may be back at the start of the block being run. *)
Record stable (s s' : vcpu_t) : Prop := {
  st_regs : regs s' = regs s;
  st_eflags : eflags s' = eflags s;
  st_IOPL : IOPL s' = IOPL s;
  st_AC : AC s' = AC s;
  st_IF : settled (IF_ s') = settled (IF_ s);
  st_tr : tr s' = tr s;
  st_idt : idt s' = idt s;
  st_orig : orig_segs (sg s') = orig_segs (sg s);
  st_tables : same_tables (sg s) (sg s');
  st_executing : eip_executing s' = eip_executing s;
  st_eip : eip s' = eip s \/ eip s' = eip_executing s }.

#[global] Instance stable_refl : Reflexive stable.
Proof. intros s. split; auto. repeat split. Qed.

#[global] Instance stable_trans : Transitive stable.
Proof.
  intros s1 s2 s3 [A1 A2 A3 A4 A5 A6 A7 A8 (A9 & A10 & A11 & A12) A13 A14]
    [B1 B2 B3 B4 B5 B6 B7 B8 (B9 & B10 & B11 & B12) B13 B14].
  split; try congruence; [repeat split; congruence|]. destruct B14, A14; [left|right..]; congruence.
Qed.

(** The exceptions of delivery and return. *)
Definition delivery_fault (e : exception) : Prop :=
  In (exception_index e) [EXCP0A_TSS; EXCP0B_NOSEG; EXCP0D_GPF; EXCP0E_PAGE]
  /\ exception_is_int e = false.

Definition raised (s s' : vcpu_t) : Prop := stable s s' /\ delivery_fault (exn s').

(** A computation that keeps the program restartable however it ends. *)
Definition keeps {A} (m : guest A) : Prop := forall s,
  match m s with Next _ s' => stable s s' | Raise s' => raised s s' | Halt _ => True end.
(** One that may change it once nothing can be raised any more. *)
Definition commits {A} (m : guest A) : Prop := forall s s', m s = Raise s' -> raised s s'.

Create HintDb keeps discriminated.

Lemma keeps_bind {A B} (m : guest A) (f : A -> guest B) :
  keeps m -> (forall a, keeps (f a)) -> keeps (m ≫= f).
Proof.
  intros Hm Hf s. specialize (Hm s). unfold mbind, guest_bind.
  destruct (m s) as [a s1|s1|e]; auto. specialize (Hf a s1). destruct (f a s1) as [b s2|s2|e]; auto.
  - etransitivity; eassumption.
  - destruct Hf. split; [etransitivity|]; eassumption.
Qed.

Lemma commits_bind {A B} (m : guest A) (f : A -> guest B) :
  keeps m -> (forall a, commits (f a)) -> commits (m ≫= f).
Proof.
  intros Hm Hf s s'. specialize (Hm s). unfold mbind, guest_bind.
  destruct (m s) as [a s1|s1|e]; [|intros [= <-]; exact Hm|discriminate].
  intros E. apply Hf in E as [E1 E2]. split; [etransitivity|]; eassumption.
Qed.

Lemma keeps_ret {A} (a : A) : keeps (mret a : guest A).
Proof. intros s. cbn. reflexivity. Qed.
Lemma keeps_gets {A} (f : vcpu_t -> A) : keeps (gets f).
Proof. intros s. cbn. reflexivity. Qed.
Lemma keeps_lift {A} (m : res A) : keeps (lift m).
Proof. intros s. destruct m; cbn; [reflexivity|exact I]. Qed.
Lemma keeps_ASSERT b : keeps (ASSERT b).
Proof. apply keeps_lift. Qed.
Lemma keeps_NOT_IMPLEMENTED {A} : keeps (@NOT_IMPLEMENTED A).
Proof. intros s. exact I. Qed.
Lemma keeps_when b m : keeps m -> keeps (when b m).
Proof. intros H. destruct b; [exact H|apply keeps_ret]. Qed.

Lemma keeps_raise {A} i e :
  In i [EXCP0A_TSS; EXCP0B_NOSEG; EXCP0D_GPF; EXCP0E_PAGE] -> keeps (raise_exception_err i e : guest A).
Proof. intros Hi s. cbn. split; [split; auto; repeat split|]. split; [exact Hi|reflexivity]. Qed.

#[export] Hint Resolve keeps_ret keeps_gets keeps_lift keeps_ASSERT
  keeps_NOT_IMPLEMENTED keeps_when : keeps.

(** Go through a computation by its syntax. *)
Ltac keeps :=
  repeat first
  [ match goal with
    | |- forall _, _ => intro
    | |- keeps (_ ≫= _) => apply keeps_bind
    | |- keeps (match ?x with _ => _ end) => destruct x
    end
  | solve [auto 3 with keeps nocore]
  | solve [apply keeps_raise; cbn; tauto] ].

Lemma keeps_raise_if b i e :
  In i [EXCP0A_TSS; EXCP0B_NOSEG; EXCP0D_GPF; EXCP0E_PAGE] -> keeps (raise_if b i e).
Proof. intros H. apply keeps_when, keeps_raise, H. Qed.
#[export] Hint Extern 1 (keeps (raise_if _ _ _)) => apply keeps_raise_if; cbn; tauto : keeps.

Section Keeps.
Context (fault : Z -> bool -> option Z).

Lemma keeps_cpl : keeps vcpu_cpl.
Proof. unfold vcpu_cpl. keeps. Qed.
Lemma keeps_seg_cache i : keeps (seg_cache i).
Proof. unfold seg_cache. keeps. Qed.
Lemma keeps_orig_seg i : keeps (orig_seg i).
Proof. unfold orig_seg. keeps. Qed.
Lemma keeps_get_reg i : keeps (get_reg i).
Proof. unfold get_reg. keeps. Qed.

Hint Resolve keeps_cpl keeps_seg_cache keeps_orig_seg keeps_get_reg : keeps.

Lemma keeps_guest_fault {A} a e : keeps (guest_fault a e : guest A).
Proof.
  unfold guest_fault. apply keeps_bind; [apply keeps_cpl|]. intros cpl s. cbn.
  split; [split; auto; repeat split|]. split; [cbn; tauto|reflexivity].
Qed.

Lemma keeps_touch n a w : keeps (touch fault n a w).
Proof. unfold touch. keeps; apply keeps_guest_fault. Qed.

Lemma keeps_ld n a : keeps (ld_kernel fault n a).
Proof. unfold ld_kernel. apply keeps_bind; [apply keeps_touch|keeps]. Qed.

Lemma keeps_set_mem m : keeps (upd (fun s => set_mem (m s) s)).
Proof. intros s. split; auto; repeat split. Qed.

Lemma keeps_st n a v : keeps (st_kernel fault n a v).
Proof. unfold st_kernel. apply keeps_bind; [apply keeps_touch|]. intros _. apply keeps_set_mem. Qed.

Hint Resolve keeps_ld keeps_st : keeps.

Lemma keeps_PUSH n ssp sp m v : keeps (PUSH fault n ssp sp m v).
Proof. unfold PUSH. keeps. Qed.
Lemma keeps_POP n ssp sp m : keeps (POP fault n ssp sp m).
Proof. unfold POP. keeps. Qed.
Hint Resolve keeps_PUSH keeps_POP : keeps.

Lemma keeps_push_all n ssp m vs : forall sp, keeps (push_all fault n ssp sp m vs).
Proof. induction vs as [|v vs IH]; intros sp; cbn [push_all]; keeps. Qed.

Lemma keeps_sync i : keeps (vcpu_segcache_sync fault i).
Proof.
  intros s. destruct (vcpu_segcache_sync fault i s) as [[] s'|s'|] eqn:E; [| |exact I].
  - apply vcpu_segcache_sync_Next in E as (g & -> & T & O). split; auto.
  - exfalso. revert E. unfold vcpu_segcache_sync, seg_cache, orig_seg, mbind, guest_bind, gets, lift.
    repeat (case_match; try discriminate).
Qed.

Lemma keeps_read_segment sel : keeps (vcpu_read_segment fault sel).
Proof. unfold vcpu_read_segment. keeps. Qed.
Hint Resolve keeps_push_all keeps_sync keeps_read_segment : keeps.

Lemma keeps_tss dpl : keeps (get_ss_esp_from_tss fault dpl).
Proof. unfold get_ss_esp_from_tss. keeps. Qed.
Lemma keeps_inner ss dpl : keeps (inner_stack fault ss dpl).
Proof. unfold inner_stack. keeps. Qed.
Hint Resolve keeps_tss keeps_inner : keeps.

Lemma keeps_interrupt_stack sel e2 cpl : keeps (interrupt_stack fault sel e2 cpl).
Proof. unfold interrupt_stack. keeps. Qed.
Lemma keeps_frame_words ns ret err : keeps (frame_words ns ret err).
Proof. unfold frame_words. keeps. Qed.
Lemma keeps_read_gate intno is_int cpl : keeps (read_gate fault intno is_int cpl).
Proof. unfold read_gate. keeps. Qed.
Lemma keeps_handler_segment sel cpl : keeps (handler_segment fault sel cpl).
Proof. unfold handler_segment. keeps. Qed.
Lemma keeps_return_segment sel cpl : keeps (return_segment fault sel cpl).
Proof. unfold return_segment. keeps. Qed.
Lemma keeps_outer sel rpl : keeps (outer_stack fault sel rpl).
Proof. unfold outer_stack. keeps. Qed.

Lemma keeps_settle : keeps settle_IF.
Proof.
  intros s. destruct (settle_IF s) as [[] s'|s'|] eqn:E; [| |exact I].
  - apply settle_IF_Next in E as [-> H]. split; auto; [|repeat split].
    cbn. unfold settled in *. destruct (Z.eqb_spec (IF_ s) 2) as [E|E]; [reflexivity|].
    rewrite (proj2 (Z.eqb_neq _ _) E). reflexivity.
  - exfalso. revert E. unfold settle_IF, when, ASSERT, lift, mbind, guest_bind, gets, upd.
    repeat (case_match; try discriminate).
Qed.
Hint Resolve keeps_interrupt_stack keeps_frame_words keeps_read_gate keeps_handler_segment
  keeps_return_segment keeps_outer keeps_settle : keeps.

(** Computations that never raise. *)
Definition quiet {A} (m : guest A) : Prop := forall s s', m s <> Raise s'.

Lemma quiet_bind {A B} (m : guest A) (f : A -> guest B) :
  quiet m -> (forall a, quiet (f a)) -> quiet (m ≫= f).
Proof.
  intros Hm Hf s s'. unfold mbind, guest_bind. destruct (m s) eqn:E; [apply Hf| |discriminate].
  exfalso. exact (Hm _ _ E).
Qed.
Lemma quiet_commits {A} (m : guest A) : quiet m -> commits m.
Proof. intros H s s' E. exfalso. exact (H _ _ E). Qed.
Lemma quiet_upd f : quiet (upd f).
Proof. discriminate. Qed.
Lemma quiet_ret {A} (a : A) : quiet (mret a : guest A).
Proof. discriminate. Qed.
Lemma quiet_gets {A} (f : vcpu_t -> A) : quiet (gets f).
Proof. discriminate. Qed.
Lemma quiet_lift {A} (m : res A) : quiet (lift m).
Proof. intros s s'. destruct m; discriminate. Qed.
Lemma quiet_NOT_IMPLEMENTED {A} : quiet (@NOT_IMPLEMENTED A).
Proof. discriminate. Qed.
Lemma quiet_when b m : quiet m -> quiet (when b m).
Proof. intros H. destruct b; [exact H|apply quiet_ret]. Qed.
Hint Resolve quiet_upd quiet_ret quiet_gets quiet_lift quiet_NOT_IMPLEMENTED quiet_when : keeps.

Ltac quiet :=
  repeat first
  [ match goal with
    | |- forall _, _ => intro
    | |- quiet (_ ≫= _) => apply quiet_bind
    | |- quiet (match ?x with _ => _ end) => destruct x
    | |- quiet (when _ _) => apply quiet_when
    | |- quiet (ASSERT _) => apply quiet_lift
    end
  | solve [auto 3 with keeps nocore] ].

Lemma quiet_load i sel b l f : quiet (vcpu_load_seg_cache i sel b l f).
Proof. unfold vcpu_load_seg_cache. quiet. Qed.
Lemma quiet_SET_ESP v m : quiet (SET_ESP v m).
Proof. unfold SET_ESP, get_reg, set_reg. quiet. Qed.
Lemma quiet_sync i : quiet (vcpu_segcache_sync fault i).
Proof. unfold vcpu_segcache_sync, seg_cache, orig_seg. quiet. Qed.
Hint Resolve quiet_load quiet_SET_ESP quiet_sync : keeps.
Lemma quiet_validate i cpl : quiet (validate_seg fault i cpl).
Proof. unfold validate_seg, seg_cache, orig_seg. quiet. Qed.
Lemma quiet_flags fl cpl : quiet (return_flags fl cpl).
Proof. unfold return_flags, load_eflags. quiet. Qed.
Lemma quiet_check_eip e : quiet (check_eip e).
Proof. unfold check_eip, orig_seg. quiet. Qed.
Hint Resolve quiet_validate quiet_flags quiet_check_eip : keeps.

Lemma commits_quiet {A B} (m : guest A) (f : A -> guest B) :
  commits m -> (forall a, quiet (f a)) -> commits (m ≫= f).
Proof.
  intros Hm Hf s s'. specialize (Hm s). unfold mbind, guest_bind.
  destruct (m s) as [a s1|s1|e]; [intros E; destruct (Hf _ _ _ E)|intros [= <-]; auto|discriminate].
Qed.

(** Up to the point after which nothing raises. *)
Ltac commits :=
  repeat first
  [ match goal with
    | |- forall _, _ => intro
    | |- commits _ => apply quiet_commits; solve [quiet]
    | |- commits (_ ≫= _) => apply commits_quiet; [solve [auto 2 with keeps nocore]|solve [quiet]]
    | |- commits (_ ≫= _) => apply commits_bind
    | |- commits (match ?x with _ => _ end) => destruct x
    end
  | solve [keeps] ].

Lemma do_interrupt_commits intno is_int err next is_hw :
  commits (do_interrupt_protected fault intno is_int err next is_hw).
Proof. unfold do_interrupt_protected. commits. Qed.

Lemma switch_level_commits new_cs e1 e2 cpl ssp sp mask addend :
  commits (switch_level fault new_cs e1 e2 cpl ssp sp mask addend).
Proof. unfold switch_level. commits. Qed.
Hint Resolve switch_level_commits : keeps.

Lemma ret_protected_commits is_iret addend : commits (ret_protected fault is_iret addend).
Proof. unfold ret_protected. commits. Qed.

End Keeps.

(** ** Privilege *)

(** C18: an interrupt or exception that is delivered in protected mode goes
    through a present interrupt or trap gate to a present code segment that is
    no less privileged than the interrupted program; a software interrupt
    needs a gate open to its level.  The handler starts at the gate's offset,
    at the level of its segment (or the program's, for a conforming one), with
    [TF], [VM], [RF] and [NT] clear and, through an interrupt gate, with
    interrupts off; [IOPL] and [AC] are kept. *)
Theorem interrupt_privilege fault intno is_int err next is_hw s s' :
  do_interrupt_protected fault intno is_int err next is_hw s = Next tt s' ->
  exists e2 cpl, entered s intno cpl s' /\ cpl = handler_level e2 (level s)
  /\ cpl <= level s
  /\ (let w := load 4 (mem s) (wrap 32 (desc_ptr (sg s) (gate1 s intno >> 16) + 4)) in
     e2 = if nz (w &! DESC_A_MASK) then w else w |! DESC_A_MASK)
  /\ nz (e2 &! DESC_P_MASK) = true /\ nz (e2 &! DESC_CS_MASK) = true
  /\ In (gate_type (gate2 s intno)) [6; 7; 14; 15]
  /\ nz (gate2 s intno &! DESC_P_MASK) = true
  /\ (is_int = true -> level s <= desc_dpl (gate2 s intno)).
Proof. apply do_interrupt_protected_Next. Qed.

(** C19: a protected-mode [iret] never raises the guest's privilege, and a
    program below level 0 cannot change [IOPL] or [AC] with it: the frame
    gives the instruction pointer and the code segment, whose level is at
    least the one left, and of the flags only the arithmetic ones, [TF],
    [ID], [RF] and [NT]. *)
Theorem iret_privilege fault s s' :
  iret_protected fault s = Next tt s' ->
  level s <= level s'
  /\ exists ss esp sc, geti (regs s) R_ESP = Some esp
  /\ vcpu_segcache_sync fault R_SS s = Next tt (set_sg ss s) /\ geti (segs ss) R_SS = Some sc
  /\ let w := stack_word s (base sc) (get_sp_mask (flags sc)) in
     returned s (w esp) (w (next_sp esp)) (w (next_sp (next_sp esp))) s'.
Proof.
  unfold iret_protected. intros H. ginv H. destruct (nz _); [discriminate|].
  apply ret_protected_Next in H as (ss & esp & E1 & E2 & sc & E3 & R & L). split; [exact L|].
  exists ss, esp, sc. auto.
Qed.

(** [iret] from a level that may change [IF] always turns interrupts on,
    whatever the flags in the frame say, and never restores the direction
    flag; the processor takes both from the frame. *)
Theorem iret_ignores_saved_IF fault s s' :
  iret_protected fault s = Next tt s' -> level s <= IOPL s ->
  IF_ s' = 1 /\ eflags s' &! DF_MASK = eflags s &! DF_MASK.
Proof.
  unfold iret_protected. intros H HL. ginv H. destruct (nz _); [discriminate|].
  apply ret_protected_Next in H as (ss & esp & _ & _ & sc & _ & R & _).
  destruct R as (_ & _ & RI & RF & _). rewrite RI, RF, (proj2 (Z.leb_le _ _) HL).
  split; [reflexivity|]. rewrite Z.land_lor_distr_l, Z.ldiff_land, <- !Z.land_assoc.
  change (iret_mask &! DF_MASK) with 0. change (Z.lnot iret_mask &! DF_MASK) with DF_MASK.
  rewrite Z.land_0_r. apply Z.lor_0_r.
Qed.

(** C21: an exception raised while an interrupt is delivered, or while a
    handler returns, is an invalid-TSS, segment-not-present,
    general-protection or page-fault exception and leaves the program as it
    was: its registers, flags, segment selectors and tables are those before,
    and its instruction pointer too, or the start of the block being run. *)
Theorem delivery_restartable fault intno is_int err next is_hw s s' :
  do_interrupt_protected fault intno is_int err next is_hw s = Raise s'
  \/ iret_protected fault s = Raise s' ->
  stable s s' /\ delivery_fault (exn s').
Proof.
  intros [H|H]; [exact (do_interrupt_commits _ _ _ _ _ _ _ _ H)|].
  unfold iret_protected, mbind, guest_bind, gets in H. destruct (nz _); [discriminate|].
  exact (ret_protected_commits _ _ _ _ _ H).
Qed.

(** ** A table of gates that is too short *)

(** The stack segment is cached, or its descriptor is in the guest's table
    and can be read there. *)
Definition stack_known (fault : Z -> bool -> option Z) (g : seg_state) : Prop :=
  exists sc o, geti (segs g) R_SS = Some sc /\ geti (orig_segs g) R_SS = Some o /\
  (SEL_BASE <= selector sc \/
   nz (o &! 0x4) = false /\ (o &~ 7) + 7 <= wrap 16 (guest_gdt_limit g) /\
   fault (desc_ptr g o) false = None /\ fault (wrap 32 (desc_ptr g o + 4)) false = None).

(** The guest is in protected mode and its interrupt table has no room for a
    gate. *)
Definition no_gates (fault : Z -> bool -> option Z) (s : vcpu_t) : Prop :=
  nz (cr0 (sg s) &! CR0_PE_MASK) = true /\ snd (idt s) < 7
  /\ 0 <= exception_index (exn s) < 256 /\ stack_known fault (sg s)
  /\ (exists cs, geti (orig_segs (sg s)) R_CS = Some cs).

Lemma known_sync fault s :
  nz (cr0 (sg s) &! CR0_PE_MASK) = true -> stack_known fault (sg s) ->
  exists g, vcpu_segcache_sync fault R_SS s = Next tt (set_sg g s) /\ stack_known fault g
  /\ cr0 g = cr0 (sg s) /\ orig_segs g = orig_segs (sg s).
Proof.
  intros PE (sc & o & Hsc & Ho & [Hsel|(Hldt & Hlim & F1 & F2)]).
  { exists (sg s). rewrite (sync_run fault R_SS s sc o Hsc Ho Hsel). split; [by destruct s|].
    split; [|auto]. exists sc, o. auto. }
  destruct (Z.le_gt_cases SEL_BASE (selector sc)) as [Hsel|Hsel].
  { exists (sg s). rewrite (sync_run fault R_SS s sc o Hsc Ho Hsel). split; [by destruct s|].
    split; [|auto]. exists sc, o. auto. }
  set (e1 := load 4 (mem s) (desc_ptr (sg s) o)). set (e2 := load 4 (mem s) (wrap 32 (desc_ptr (sg s) o + 4))).
  set (l := seti (segs (sg s)) R_SS (mk_segcache (selector sc) (get_seg_base e1 e2) (get_seg_limit e1 e2) e2)).
  pose proof (geti_Some_lt _ _ _ Hsc) as Hr.
  assert (Eg : segcache_sync (load 4 (mem s)) (sg s) R_SS = Ret (upd_segs (sg s) l)).
  { unfold segcache_sync. rewrite Hsc. cbn [the mbind res_bind]. rewrite (proj2 (Z.ltb_lt _ _) Hsel), Ho.
    cbn [the mbind res_bind]. unfold read_segment. rewrite PE, Hldt. cbn [negb assert mbind res_bind].
    rewrite (proj2 (Z.ltb_ge _ _) Hlim). fold (desc_ptr (sg s) o). cbn [andb mbind res_bind the mret res_ret].
    rewrite store_ok by exact Hr. reflexivity. }
  exists (upd_segs (sg s) l). split; [|split; [|auto]].
  - unfold vcpu_segcache_sync. gpure. gstep ltac:(apply seg_cache_run). gstep ltac:(apply orig_seg_run).
    change (id s) with s. fold (desc_ptr (sg s) o). rewrite F1, F2, !bool_decide_true by done. cbn [negb orb].
    rewrite andb_false_r. gstep ltac:(apply lift_run; exact Eg). reflexivity.
  - eexists _, o. split; [apply geti_seti_eq, Hr|]. split; [exact Ho|]. right. auto.
Qed.

Lemma no_gates_raise fault s :
  no_gates fault s -> exists s', deliver_exception fault s = Raise s' /\ no_gates fault s'.
Proof.
  intros (PE & HI & HX & Hss & (cs & Hcs)).
  set (i := exception_index (exn s)) in *.
  set (s1 := if i =? EXCP0E_PAGE then set_cr2 (exception_cr2 s) s else s).
  assert (F1 : sg s1 = sg s /\ idt s1 = idt s) by (unfold s1; destruct (i =? EXCP0E_PAGE); auto).
  destruct F1 as [Fs Fi].
  destruct (known_sync fault s1) as (g & Es & Hg & Ec & Eo); [by rewrite Fs..|]. rewrite Fs in Ec, Eo.
  exists (set_exn (mk_exn EXCP0D_GPF (sgn 32 (i * 8 + 2)) false 0) (set_sg g s1)).
  split.
  2:{ unfold no_gates. cbn [sg set_exn set_sg idt exn exception_index]. rewrite Fi, Ec, Eo.
      split; [exact PE|]. split; [exact HI|]. split; [unfold EXCP0D_GPF; lia|].
      split; [exact Hg|]. exists cs. assumption. }
  unfold deliver_exception. gpure. change (id s) with s. fold i.
  gstep ltac:(apply ASSERT_run, Z.leb_le; lia).
  rewrite (bind_run _ _ s tt s1) by (unfold when, s1; destruct (i =? EXCP0E_PAGE); reflexivity).
  unfold do_interrupt. apply bind_Raise. gpure. rewrite Fs, PE. unfold do_interrupt_protected.
  gstep ltac:(exact Es). gpure.
  gstep ltac:(apply (vcpu_cpl_run _ cs); cbn [sg set_sg]; rewrite Eo). apply bind_Raise. unfold read_gate. gpure.
  cbn [idt set_sg]. destruct (idt s1) as [ib il] eqn:Ei. rewrite <- Fi in HI. cbn [snd] in HI.
  apply bind_Raise. unfold raise_if.
  rewrite (proj2 (Z.ltb_lt il _)); [reflexivity|]. rewrite wrap_id by (unfold inU; lia). lia.
Qed.

(** C40: a guest in protected mode whose interrupt table has no room for a
    single gate, the usual way to reset a machine by a triple fault, hangs the
    monitor: the exception that reports the missing gate is raised for it
    again and again, and no bound on the number of deliveries is enough.  The
    descriptor of the guest's stack segment has to be cached or readable in
    the guest's table. *)
Theorem triple_fault_hangs fault s fuel :
  no_gates fault s -> exception_loop fault fuel s = Stop NoFuel.
Proof.
  revert s. induction fuel as [|fuel IH]; intros s H; [reflexivity|]. cbn [exception_loop].
  destruct (no_gates_raise fault s H) as (s' & -> & H'). apply IH, H'.
Qed.

(** ** A guest with a kernel and a program

    Flat segments at levels 0 and 3 in the table at 1000h, a trap gate 80h
    open to level 3 and an interrupt gate 14 in the table at 2000h, a task
    state segment at 3000h with the kernel stack at C0008000h. *)

Fixpoint words (m : Z -> Z) (a : Z) (ws : list Z) : Z -> Z :=
  match ws with [] => m | w :: ws => words (save 4 m a w) (a + 4) ws end.

Definition guest_tables : Z -> Z :=
  let m := words (fun _ => 0) 0x1000
    [0; 0; 0xffff; 0xcf9b00; 0xffff; 0xcf9300; 0xffff; 0xcffb00; 0xffff; 0xcff300] in
  let m := words m (0x2000 + 0x80 * 8) [0x81000; 0xc000ef00] in
  let m := words m (0x2000 + 14 * 8) [0x82000; 0xc0008e00] in
  words m 0x3000 [0; 0xc0008000; 0x10].

Definition flat (sel fl : Z) : segcache := mk_segcache sel 0 0xffffffff fl.

(** The program at 08048000h, interrupts off. *)
Definition user_guest : vcpu_t :=
  mk_vcpu 0x8048000 0x8048000 [0; 0; 0; 0; 0xbffff000; 0; 0; 0] 0x46
    (mk_segcache 0x28 0x3000 0x67 0x8900) (0x2000, 0x7ff)
    (mk_segs [flat 0x23 0xcff300; flat 0x1b 0xcffb00; flat 0x23 0xcff300; flat 0x23 0xcff300;
              flat 0x3 0; flat 0x3 0] [0x23; 0x1b; 0x23; 0x23; 0; 0]
       (replicate 8192 0) 0xffc20000 0x1000 0x2f 0x80000011)
    0 0 0 [0] false 0 (mk_exn (-1) 0 false 0) 0 1 guest_tables.

Definition mapped : Z -> bool -> option Z := fun _ _ => None.

Definition final {A} (o : outcome A) : vcpu_t :=
  match o with Next _ s => s | Raise s => s | Halt _ => user_guest end.

(** The same in the kernel, after a system call. *)
Definition kernel_guest : vcpu_t :=
  final (do_interrupt_protected mapped 0x80 true 0 0x8048002 false user_guest).

Lemma interrupt_privilege_witness :
  exists e2 cpl, entered user_guest 0x80 cpl kernel_guest /\ cpl = handler_level e2 (level user_guest)
  /\ cpl <= level user_guest
  /\ (let w := load 4 (mem user_guest) (wrap 32 (desc_ptr (sg user_guest) (gate1 user_guest 0x80 >> 16) + 4)) in
     e2 = if nz (w &! DESC_A_MASK) then w else w |! DESC_A_MASK)
  /\ nz (e2 &! DESC_P_MASK) = true /\ nz (e2 &! DESC_CS_MASK) = true
  /\ In (gate_type (gate2 user_guest 0x80)) [6; 7; 14; 15]
  /\ nz (gate2 user_guest 0x80 &! DESC_P_MASK) = true
  /\ (true = true -> level user_guest <= desc_dpl (gate2 user_guest 0x80)).
Proof.
  apply (interrupt_privilege mapped 0x80 true 0 0x8048002 false user_guest kernel_guest).
  vm_compute. reflexivity.
Defined.

Lemma iret_privilege_witness :
  level kernel_guest <= level (final (iret_protected mapped kernel_guest))
  /\ exists ss esp sc, geti (regs kernel_guest) R_ESP = Some esp
  /\ vcpu_segcache_sync mapped R_SS kernel_guest = Next tt (set_sg ss kernel_guest)
  /\ geti (segs ss) R_SS = Some sc
  /\ let w := stack_word kernel_guest (base sc) (get_sp_mask (flags sc)) in
     returned kernel_guest (w esp) (w (next_sp esp)) (w (next_sp (next_sp esp)))
       (final (iret_protected mapped kernel_guest)).
Proof. apply (iret_privilege mapped kernel_guest). vm_compute. reflexivity. Defined.

Lemma iret_ignores_saved_IF_witness :
  IF_ user_guest = 0 /\ IF_ (final (iret_protected mapped kernel_guest)) = 1
  /\ eflags (final (iret_protected mapped kernel_guest)) &! DF_MASK = eflags kernel_guest &! DF_MASK.
Proof.
  split; [reflexivity|].
  apply (iret_ignores_saved_IF mapped kernel_guest); [vm_compute; reflexivity|vm_compute; discriminate].
Defined.

(** The program may not call the page-fault gate. *)
Lemma delivery_restartable_witness :
  let s' := final (do_interrupt_protected mapped 14 true 0 0x8048002 false user_guest) in
  stable user_guest s' /\ delivery_fault (exn s').
Proof.
  apply (delivery_restartable mapped 14 true 0 0x8048002 false user_guest). left.
  vm_compute. reflexivity.
Defined.

(** The program resets the machine: its table emptied, it executes a
    breakpoint. *)
Definition resetting_guest : vcpu_t :=
  set_idt (0, 0) (set_exn (mk_exn 3 (-1) true 0x8048001) user_guest).

Lemma triple_fault_hangs_witness : exception_loop mapped 1000 resetting_guest = Stop NoFuel.
Proof.
  apply (triple_fault_hangs mapped resetting_guest 1000). unfold no_gates.
  split; [reflexivity|]. split; [reflexivity|]. split; [vm_compute; split; [discriminate|reflexivity]|].
  split; [|eexists; reflexivity].
  eexists _, _. split; [reflexivity|]. split; [reflexivity|]. right.
  split_and!; try reflexivity. vm_compute. discriminate.
Defined.
