(* ===== verification/Paging.v ===== *)
(** * Page-table walks and shadow entries

    [mem/paging.c]: the walk of a guest or shadow page table, the tests that
    classify its failures, and what a page fault installs in the shadow
    tables.  Physical memory and the monitor's own memory are functions from
    the address of an aligned word to its value; [ldl_phys] and [stl_phys]
    read and write the former.  An out-parameter of the walk is the address it
    points to with the value held there; the new values are returned. *)

From Stdlib Require Import ZArith Lia Bool.
From stdpp Require Import base.
From S2P Require Import Prelude Vaddr.

Definition PTE_ERR : Z := 0xffffffff.
Definition PDE_ERR : Z := 0xfffffffe.
Definition PTWALK_ASSERT : Z := 0x1.
Definition PTWALK_SHADOW : Z := 0x2.
Definition PTWALK_SET_A : Z := 0x4.
Definition PTWALK_SET_D : Z := 0x8.
Definition PTWALK_U : Z := 0x10.
Definition NULLP : Z := 0.

Definition mem := Z -> Z.
Definition stl (m : mem) (a v : Z) : mem := fun a' => if a' =? a then v else m a'.

(** [&pd[i]]. *)
Definition entry (table i : Z) : Z := wrap 32 (table + 4 * i).

(** An argument of type [uint32_t **]: null, or the address of a variable. *)
Record out := mk_out { o_addr : Z; o_val : Z }.
Definition out_ok (o : out) : bool := (o_addr o =? NULLP) || is_monitor_vaddr (o_addr o).

(** The address walked to, what is stored through the out-parameters that are
    not null, and memory. *)
Record walk := mk_walk { paddr : Z; pde_ptr : Z; pte_ptr : Z; phys_mem : mem }.

Definition has (flags f : Z) : bool := nz (flags &! f).

(** The failure of a level: panic with [PTWALK_ASSERT], an error code without. *)
Definition walk_fail (flags : Z) (w : walk) : res walk :=
  if has flags PTWALK_ASSERT then Stop Panic else mret w.

(** The access the flags ask for is refused by the entry [e]. *)
Definition refused (flags e : Z) : bool :=
  negb (has e PTE_P) || (negb (has e PTE_W) && has flags PTWALK_SET_D)
  || (negb (has e PTE_U) && has flags PTWALK_U).

Definition pt_walk (using_cr3_page_table : bool) (pm mm : mem) (pd vaddr : Z)
  (pde_out pte_out : out) (flags : Z) : res walk :=
  let shadow := has flags PTWALK_SHADOW in
  assert (out_ok pde_out);;
  assert (out_ok pte_out);;
  assert (negb shadow || is_monitor_vaddr pd);;
  if negb using_cr3_page_table && negb shadow then mret (mk_walk vaddr NULLP NULLP pm)
  else
    let pd_num := pd_no vaddr in
    let pde_p := entry pd pd_num in
    let pde := if shadow then mm pde_p else pm pde_p in
    if refused flags pde then walk_fail flags (mk_walk PDE_ERR pde_p (o_val pte_out) pm)
    else
      let set_a := negb shadow && has flags PTWALK_SET_A in
      let pde := if set_a then pde |! PTE_A else pde in
      let pm := if set_a then stl pm pde_p pde else pm in
      if has pde PTE_PS then
        assert (negb shadow);;
        mret (mk_walk (wrap 32 ((pde &! LPTE_ADDR) + lpg_ofs vaddr)) pde_p NULLP pm)
      else
        pt ← (if shadow then ptov_mon (pde &! PTE_ADDR) else mret (pde &! PTE_ADDR));
        let pte_p := entry pt (pt_no vaddr) in
        let pte := if shadow then mm pte_p else pm pte_p in
        if refused flags pte then walk_fail flags (mk_walk PTE_ERR pde_p pte_p pm)
        else
          let pte := if set_a then pte |! PTE_A else pte in
          let pm := if set_a then stl pm pte_p pte else pm in
          _ ← (if set_a then assert (has (pm pte_p) PTE_A) else mret tt);
          let set_d := negb shadow && has flags PTWALK_SET_D in
          let pte := if set_d then pte |! PTE_D else pte in
          let pm := if set_d then stl pm pte_p pte else pm in
          mret (mk_walk (wrap 32 ((pte &! PTE_ADDR) + pg_ofs vaddr)) pde_p pte_p pm).

(** [pt_mark_accessed_dirty], on the table directly. *)
Definition pt_mark_accessed_dirty (using_cr3_page_table : bool) (pm : mem) (pd vaddr : Z)
  (dirty : bool) : mem :=
  if negb using_cr3_page_table then pm
  else
    let pde_p := entry pd (pd_no vaddr) in
    let pde := pm pde_p in
    if negb (has pde PTE_P) then pm
    else if has pde PTE_PS then pm
    else
      let pm := stl pm pde_p (pde |! PTE_A) in
      let pte_p := entry (pde &! PTE_ADDR) (pt_no vaddr) in
      if negb (has (pm pte_p) PTE_P) then pm
      else
        let pm := stl pm pte_p (pm pte_p |! PTE_A) in
        if dirty then stl pm pte_p (pm pte_p |! PTE_D) else pm.

Definition pt_mark_accessed (c : bool) (pm : mem) (pd vaddr : Z) : mem :=
  pt_mark_accessed_dirty c pm pd vaddr false.
Definition pt_mark_dirty (c : bool) (pm : mem) (pd vaddr : Z) : mem :=
  pt_mark_accessed_dirty c pm pd vaddr true.

Definition pde_pte_error (pm mm : mem) (pa pte_entry flags errno : Z) : res bool :=
  if (pa =? errno) && negb (pte_entry =? NULLP) then
    if has flags PTWALK_SET_A || has flags PTWALK_SET_D || has flags PTWALK_U then
      pte ← (if is_monitor_vaddr pte_entry then
               assert (has flags PTWALK_SHADOW);; mret (mm pte_entry)
             else mret (pm pte_entry));
      mret ((has flags PTWALK_SET_A && negb (has pte PTE_P))
            || (has flags PTWALK_SET_D && negb (has pte PTE_W))
            || (has flags PTWALK_U && negb (has pte PTE_U)))
    else mret false
  else mret false.

Definition pde_error (pm mm : mem) (pa pde_entry flags : Z) : res bool :=
  pde_pte_error pm mm pa pde_entry flags PDE_ERR.
Definition pte_error (pm mm : mem) (pa pte_entry flags : Z) : res bool :=
  pde_pte_error pm mm pa pte_entry flags PTE_ERR.

(** [shadow_pte_flags] of [mem/swap.c]. *)
Definition shadow_pte_flags (pte : Z) : res Z :=
  assert (pte &! PTE_ADDR =? 0);;
  if negb (has pte PTE_A) then mret 0
  else if has pte PTE_W && negb (has pte PTE_D) then
    mret (((pte &! PTE_FLAGS) &~ PTE_W) |! PTE_U)
  else mret ((pte &! PTE_FLAGS) |! PTE_U).

(** What a fault installs: a page table page for the shadow directory entry
    ([swap_get_page]'s arguments), a swapped page, or a shadow entry. *)
Inductive install :=
| Install_pt (pde_shadow pt_paddr : Z) (user : bool) (flags : Z)
| Install_swap_page (pte_shadow pg : Z) (flags : Z)
| Install_pte (pte_shadow value : Z)
| Nothing.

Definition pd_install_shadow_pt (pde pde_shadow : Z) (user : bool) : install :=
  let pt := if has pde PTE_PS then NULLP else pde &! PTE_ADDR in
  Install_pt pde_shadow pt user (((pde &! PTE_FLAGS) &~ PTE_PS) |! PTE_U).

Definition pd_install_shadow_page (pte pte_shadow : Z) : res install :=
  let pg := pte &! PTE_ADDR in
  f ← shadow_pte_flags (pte &! PTE_FLAGS);
  if (LOADER_MONITOR_BASE <=? pg) && (pg <? LOADER_MONITOR_END)
  then mret (Install_swap_page pte_shadow pg f)
  else mret (Install_pte pte_shadow ((pg &! PTE_ADDR) |! f)).

(** Real-mode faults are treated as if the address were mapped to itself. *)
Definition shadow_handle_page_fault (pm mm : mem)
  (fault_addr pde_entry pte_entry shadow_paddr pde_shadow pte_shadow shadow_flags : Z)
  (guest_cr3 guest_user : bool) : res install :=
  let pde := if guest_cr3 then pm pde_entry else 0 in
  let large_page := guest_cr3 && has pde PTE_PS in
  _ ← (if guest_cr3 then assert (negb (pde =? 0)) else mret tt);
  is_pde ← pde_error pm mm shadow_paddr pde_shadow shadow_flags;
  if (is_pde : bool) then
    if guest_cr3 then mret (pd_install_shadow_pt pde pde_shadow guest_user)
    else
      assert (pde_entry =? NULLP);;
      mret (pd_install_shadow_pt
        ((fault_addr &! LPTE_ADDR) |! PTE_PS |! PTE_P |! PTE_W |! PTE_A |! PTE_D)
        pde_shadow guest_user)
  else
    is_pte ← pte_error pm mm shadow_paddr pte_shadow shadow_flags;
    if (is_pte : bool) then
      if guest_cr3 then
        if large_page then
          assert (pte_entry =? NULLP);;
          pd_install_shadow_page
            ((fault_addr &! PTE_ADDR) |! (((pde &! PTE_FLAGS) &~ PTE_PS) &~ PTE_G)) pte_shadow
        else pd_install_shadow_page (pm pte_entry) pte_shadow
      else
        assert (pte_entry =? NULLP);;
        pd_install_shadow_page
          ((fault_addr &! PTE_ADDR) |! PTE_P |! PTE_W |! PTE_A |! PTE_D) pte_shadow
    else mret Nothing.

(** ** The architecture's translation *)

Inductive xlate := Pde_fault | Pte_fault | Phys (pa : Z).

Definition denied (write user : bool) (e : Z) : bool :=
  negb (Z.testbit e 0) || (write && negb (Z.testbit e 1)) || (user && negb (Z.testbit e 2)).

(** Two-level translation of 4-kB and 4-MB pages, without side effects. *)
Definition translate (m : mem) (pd vaddr : Z) (write user : bool) : xlate :=
  let pde := m (entry pd (pd_no vaddr)) in
  if denied write user pde then Pde_fault
  else if Z.testbit pde 7 then Phys (wrap 32 (2 ^ 22 * (pde / 2 ^ 22) + vaddr mod 2 ^ 22))
  else
    let pte := m (entry (2 ^ 12 * (pde / 2 ^ 12)) (pt_no vaddr)) in
    if denied write user pte then Pte_fault
    else Phys (wrap 32 (2 ^ 12 * (pte / 2 ^ 12) + vaddr mod 2 ^ 12)).

(** The table entry a translation goes through, null for a 4-MB page. *)
Definition pte_of (m : mem) (pd vaddr : Z) : Z :=
  let pde := m (entry pd (pd_no vaddr)) in
  if Z.testbit pde 7 then NULLP else entry (2 ^ 12 * (pde / 2 ^ 12)) (pt_no vaddr).

(** Entries, and memories, that differ only in accessed and dirty bits. *)
Definition same_ad (x y : Z) : Prop :=
  forall i, 0 <= i -> i <> 5 -> i <> 6 -> Z.testbit x i = Z.testbit y i.
Definition mem_ad (m m' : mem) : Prop := forall a, same_ad (m a) (m' a).

#[global] Instance same_ad_equiv : Equivalence same_ad.
Proof.
  split; intros ?; unfold same_ad; [auto|intros; symmetry; auto|].
  intros y z H1 H2 i Hi H5 H6. rewrite H1, H2; auto.
Qed.

#[global] Instance mem_ad_equiv : Equivalence mem_ad.
Proof.
  split; intros ?; unfold mem_ad.
  - intros a. reflexivity.
  - intros y H a. symmetry. apply H.
  - intros y z H1 H2 a. etransitivity; [apply H1|apply H2].
Qed.

Lemma has_P e : has e PTE_P = Z.testbit e 0.
Proof. apply (land_bit_nz e 0). lia. Qed.
Lemma has_W e : has e PTE_W = Z.testbit e 1.
Proof. apply (land_bit_nz e 1). lia. Qed.
Lemma has_U e : has e PTE_U = Z.testbit e 2.
Proof. apply (land_bit_nz e 2). lia. Qed.
Lemma has_A e : has e PTE_A = Z.testbit e 5.
Proof. apply (land_bit_nz e 5). lia. Qed.
Lemma has_D e : has e PTE_D = Z.testbit e 6.
Proof. apply (land_bit_nz e 6). lia. Qed.
Lemma has_PS e : has e PTE_PS = Z.testbit e 7.
Proof. apply (land_bit_nz e 7). lia. Qed.

Create Rewrite HintDb ptebits.
#[export] Hint Rewrite has_P has_W has_U has_A has_D has_PS : ptebits.

Lemma refused_denied flags e :
  refused flags e = denied (has flags PTWALK_SET_D) (has flags PTWALK_U) e.
Proof.
  unfold refused, denied. autorewrite with ptebits.
  rewrite (andb_comm (has flags PTWALK_SET_D)), (andb_comm (has flags PTWALK_U)). reflexivity.
Qed.

Lemma denied_same_ad w u x y : same_ad x y -> denied w u x = denied w u y.
Proof. intros H. unfold denied. rewrite !H by lia. reflexivity. Qed.

Lemma same_ad_div x y n : 7 <= n -> same_ad x y -> x / 2 ^ n = y / 2 ^ n.
Proof.
  intros Hn H. rewrite <- !Z.shiftr_div_pow2 by lia. apply Z.bits_inj'. intros i Hi.
  rewrite !Z.shiftr_spec by lia. apply H; lia.
Qed.

Lemma same_ad_lor x f : f = PTE_A \/ f = PTE_D -> same_ad x (x |! f).
Proof.
  intros Hf i Hi H5 H6. rewrite Z.lor_spec.
  assert (Z.testbit f i = false) as ->; [|rewrite orb_false_r; reflexivity].
  destruct Hf as [-> | ->].
  - change PTE_A with (1 << 5). rewrite testbit_bit by lia. apply Z.eqb_neq. exact H5.
  - change PTE_D with (1 << 6). rewrite testbit_bit by lia. apply Z.eqb_neq. exact H6.
Qed.

Lemma mem_ad_stl m a v : same_ad (m a) v -> mem_ad m (stl m a v).
Proof.
  intros H a'. unfold stl. destruct (Z.eqb_spec a' a) as [->|]; [exact H|reflexivity].
Qed.

Lemma stl_eq m a v : stl m a v a = v.
Proof. unfold stl. rewrite Z.eqb_refl. reflexivity. Qed.

Lemma stl_if_ne m a v a' (b : bool) : a' <> a -> (if b then stl m a v else m) a' = m a'.
Proof. intros H. destruct b; [|reflexivity]. unfold stl. rewrite (proj2 (Z.eqb_neq _ _) H). reflexivity. Qed.

Lemma inU_lor_flag x f : f = PTE_A \/ f = PTE_D -> inU 32 x -> inU 32 (x |! f).
Proof. intros [-> | ->] H; apply inU_lor; try lia; try exact H; inU_num. Qed.

Definition words (m : mem) : Prop := forall a, inU 32 (m a).

Lemma words_stl m a v : words m -> inU 32 v -> words (stl m a v).
Proof. intros H Hv a'. unfold stl. destruct (_ =? _); auto. Qed.

(** What the walk leaves in memory: only accessed and dirty bits change, the
    entries of a 4-kB page are marked as asked.  The directory entry of a 4-MB
    page is marked accessed, but its dirty bit is left as it was, also by a
    write. *)
Record walk_marks (m m' : mem) (pde_p pte_p : Z) (set_a set_d : bool) : Prop := {
  marks_ad : mem_ad m m';
  marks_only : forall a, a <> pde_p -> a <> pte_p -> m' a = m a;
  marks_pde : set_a = true -> Z.testbit (m' pde_p) 5 = true;
  marks_pte_a : Z.testbit (m pde_p) 7 = false -> set_a = true -> Z.testbit (m' pte_p) 5 = true;
  marks_pte_d : Z.testbit (m pde_p) 7 = false -> set_d = true -> Z.testbit (m' pte_p) 6 = true;
  marks_large : Z.testbit (m pde_p) 7 = true -> Z.testbit (m' pde_p) 6 = Z.testbit (m pde_p) 6 }.

Lemma testbit_lor_A x : Z.testbit (x |! PTE_A) 5 = true.
Proof. rewrite Z.lor_spec. apply orb_true_r. Qed.
Lemma testbit_lor_D x : Z.testbit (x |! PTE_D) 6 = true.
Proof. rewrite Z.lor_spec. apply orb_true_r. Qed.
Lemma testbit_lor_D_A x : Z.testbit x 5 = true -> Z.testbit (x |! PTE_D) 5 = true.
Proof. intros H. rewrite Z.lor_spec, H. reflexivity. Qed.

(** Adding a bit at one address keeps it set everywhere it was. *)
Lemma stl_keeps m a v b i :
  Z.testbit (m b) i = true -> (Z.testbit (m a) i = true -> Z.testbit v i = true) ->
  Z.testbit (stl m a v b) i = true.
Proof. intros H Hv. unfold stl. destruct (Z.eqb_spec b a) as [->|]; auto. Qed.

(** The second level of the walk, after the directory entry was accepted. *)
Lemma mark_pte m pte_p (sa sd : bool) :
  words m ->
  let pte1 := if sa then m pte_p |! PTE_A else m pte_p in
  let m1 := if sa then stl m pte_p pte1 else m in
  let pte2 := if sd then pte1 |! PTE_D else pte1 in
  let m2 := if sd then stl m1 pte_p pte2 else m1 in
  words m2 /\ mem_ad m m2 /\ same_ad (m pte_p) pte2 /\ inU 32 pte2
  /\ (sa = true -> Z.testbit (m2 pte_p) 5 = true)
  /\ (sd = true -> Z.testbit (m2 pte_p) 6 = true)
  /\ (forall a, Z.testbit (m a) 5 = true -> Z.testbit (m2 a) 5 = true)
  /\ (sa = true -> has (m1 pte_p) PTE_A = true).
Proof.
  intros Hw pte1 m1 pte2 m2.
  assert (Hp1 : inU 32 pte1 /\ same_ad (m pte_p) pte1).
  { unfold pte1. destruct sa; split; auto using inU_lor_flag, same_ad_lor; reflexivity. }
  assert (Hm1 : words m1 /\ mem_ad m m1 /\ m1 pte_p = pte1).
  { unfold m1, pte1 in *. destruct sa; [|split; [exact Hw|split; reflexivity]].
    split; [apply words_stl; auto; apply Hp1|]. split; [apply mem_ad_stl, Hp1|apply stl_eq]. }
  assert (Hp2 : inU 32 pte2 /\ same_ad pte1 pte2).
  { unfold pte2. destruct sd; split; try apply inU_lor_flag; try apply same_ad_lor; auto;
      try apply Hp1; reflexivity. }
  assert (Hm2 : words m2 /\ mem_ad m1 m2 /\ m2 pte_p = pte2).
  { unfold m2. destruct sd; [|split; [apply Hm1|split; [reflexivity|apply Hm1]]].
    split; [apply words_stl; [apply Hm1|apply Hp2]|].
    split; [apply mem_ad_stl; destruct Hm1 as (_ & _ & ->); apply Hp2|apply stl_eq]. }
  destruct Hm1 as (W1 & A1 & E1), Hm2 as (W2 & A2 & E2).
  split; [exact W2|]. split; [etransitivity; eassumption|].
  split; [etransitivity; [apply Hp1|apply Hp2]|]. split; [apply Hp2|].
  assert (H5 : Z.testbit pte1 5 = true -> Z.testbit pte2 5 = true)
    by (unfold pte2; destruct sd; auto using testbit_lor_D_A).
  split; [|split; [|split]].
  - intros ->. rewrite E2. apply H5, testbit_lor_A.
  - intros ->. rewrite E2. apply testbit_lor_D.
  - intros a Ha. unfold m2. assert (Z.testbit (m1 a) 5 = true).
    { unfold m1. destruct sa; [|exact Ha]. apply stl_keeps; [exact Ha|].
      intros _. apply testbit_lor_A. }
    destruct sd; [|assumption]. apply stl_keeps; [assumption|]. rewrite E1. exact H5.
  - intros ->. rewrite E1, has_A. apply testbit_lor_A.
Qed.

Lemma pt_walk_correct pm mm pd vaddr pde_p pte_p flags :
  words pm -> inU 32 vaddr ->
  has flags PTWALK_SHADOW = false -> has flags PTWALK_ASSERT = false ->
  out_ok pde_p = true -> out_ok pte_p = true ->
  let set_a := has flags PTWALK_SET_A in
  let set_d := has flags PTWALK_SET_D in
  exists w, pt_walk true pm mm pd vaddr pde_p pte_p flags = Ret w
  /\ pde_ptr w = entry pd (pd_no vaddr)
  /\ match translate pm pd vaddr set_d (has flags PTWALK_U) with
     | Pde_fault => paddr w = PDE_ERR /\ pte_ptr w = o_val pte_p /\ phys_mem w = pm
     | Pte_fault => paddr w = PTE_ERR /\ pte_ptr w = pte_of pm pd vaddr
         /\ mem_ad pm (phys_mem w)
         /\ denied set_d (has flags PTWALK_U) (phys_mem w (pte_ptr w)) = true
     | Phys pa => paddr w = pa /\ pte_ptr w = pte_of pm pd vaddr
         /\ walk_marks pm (phys_mem w) (pde_ptr w) (pte_ptr w) set_a set_d
     end.
Proof.
  intros Hw Hv Hs Ha O1 O2 set_a set_d. unfold pt_walk, walk_fail. rewrite Hs, Ha, O1, O2.
  cbn [negb orb andb assert mbind res_bind]. fold set_a.
  unfold translate, pte_of. set (pp := entry pd (pd_no vaddr)). rewrite refused_denied. fold set_d.
  destruct (denied set_d (has flags PTWALK_U) (pm pp)) eqn:D1; [eexists; split; [reflexivity|auto]|].
  set (pde := if set_a then pm pp |! PTE_A else pm pp).
  set (pm1 := if set_a then stl pm pp pde else pm).
  assert (Hpde : same_ad (pm pp) pde /\ inU 32 pde).
  { unfold pde. destruct set_a; split; auto using same_ad_lor, inU_lor_flag; reflexivity. }
  assert (Ho1 : forall a, a <> pp -> pm1 a = pm a) by (intros; apply stl_if_ne; assumption).
  assert (Hm1 : words pm1 /\ mem_ad pm pm1 /\ (set_a = true -> Z.testbit (pm1 pp) 5 = true)).
  { unfold pm1. destruct set_a eqn:Ea; [|split; [exact Hw|split; [reflexivity|discriminate]]].
    split; [apply words_stl; [exact Hw|apply Hpde]|]. split; [apply mem_ad_stl, Hpde|].
    intros _. rewrite stl_eq. apply testbit_lor_A. }
  rewrite has_PS, <- (proj1 Hpde) by lia.
  destruct (Z.testbit (pm pp) 7) eqn:D7.
  { eexists. split; [reflexivity|]. cbn [pde_ptr paddr pte_ptr phys_mem]. split; [reflexivity|].
    rewrite land_LPTE_ADDR, lpg_ofs_mod, (same_ad_div (pm pp) pde 22) by (try apply Hpde; lia).
    split; [reflexivity|]. split; [reflexivity|]. split; try apply Hm1; auto; try (rewrite D7; discriminate).
    intros _. unfold pm1, pde. destruct set_a; [|reflexivity].
    rewrite stl_eq, Z.lor_spec. apply orb_false_r. }
  cbn [mbind res_bind mret res_ret]. rewrite land_PTE_ADDR by apply Hpde.
  rewrite (same_ad_div (pm pp) pde 12) by (try apply Hpde; lia).
  set (tp := entry (2 ^ 12 * (pde / 2 ^ 12)) (pt_no vaddr)). rewrite refused_denied. fold set_d.
  assert (Htp : same_ad (pm tp) (pm1 tp)) by apply Hm1.
  rewrite <- (denied_same_ad _ _ _ _ Htp).
  destruct (denied set_d (has flags PTWALK_U) (pm tp)) eqn:D2.
  { eexists. split; [reflexivity|]. cbn [pde_ptr paddr pte_ptr phys_mem].
    rewrite <- (denied_same_ad _ _ _ _ Htp). split; [reflexivity|]. split; [reflexivity|].
    split; [reflexivity|]. split; [apply Hm1|exact D2]. }
  destruct (mark_pte pm1 tp set_a set_d (proj1 Hm1)) as (W2 & A2 & S2 & U2 & H5 & H6 & K & HA).
  set (m1' := if set_a then stl pm1 tp _ else pm1) in *.
  assert ((if set_a then assert (has (m1' tp) PTE_A) else mret tt) = Ret tt) as ->.
  { destruct set_a; [rewrite HA by reflexivity|]; reflexivity. }
  cbn [mbind res_bind]. eexists. split; [reflexivity|]. cbn [pde_ptr paddr pte_ptr phys_mem].
  split; [reflexivity|]. split.
  - rewrite land_PTE_ADDR by exact U2. rewrite pg_ofs_mod.
    rewrite (same_ad_div (pm tp) _ 12) by (try (etransitivity; [exact Htp|exact S2]); lia).
    reflexivity.
  - split; [reflexivity|]. split; auto.
    + etransitivity; [apply Hm1|exact A2].
    + intros a N1 N2. rewrite stl_if_ne by exact N2. unfold m1'.
      rewrite stl_if_ne by exact N2. apply Ho1, N1.
    + intros E. apply K, Hm1, E.
    + fold pp. rewrite D7. discriminate.
Qed.

(** ** Properties *)


(** A page directory at 0x1000 whose entry 1 leads to the table at 0x2000,
    whose entry 5 maps frame 0x77. *)
Definition small_tables : mem := fun a =>
  if a =? 0x1004 then 0x2007 else if a =? 0x2014 then 0x77007 else 0.

Definition no_out : out := mk_out NULLP 0.

Lemma small_tables_words : words small_tables.
Proof. intros a. unfold small_tables. destruct (a =? 0x1004), (a =? 0x2014); inU_num. Qed.


(** The test of a walk's result against [errno] at the guest entry [e]: an
    entry at address 0 is taken for none, one at an address of the monitor
    fails the assertion. *)
Definition tested (hit : bool) (e : Z) (d : bool) : res bool :=
  if negb hit || (e =? NULLP) then Ret false
  else if is_monitor_vaddr e then Stop Panic else Ret d.

Lemma pde_pte_error_guest pm mm pa e flags errno :
  has flags PTWALK_SHADOW = false -> has flags PTWALK_SET_A = true ->
  pde_pte_error pm mm pa e flags errno =
  tested (pa =? errno) e (denied (has flags PTWALK_SET_D) (has flags PTWALK_U) (pm e)).
Proof.
  intros Hs Ha. unfold pde_pte_error, tested. rewrite Ha, Hs.
  destruct (pa =? errno), (e =? NULLP); try reflexivity. cbn [negb andb orb].
  destruct (is_monitor_vaddr e); [reflexivity|]. cbn. unfold denied.
  autorewrite with ptebits. reflexivity.
Qed.

Lemma translate_inv m pd vaddr wr u t :
  translate m pd vaddr wr u = t ->
  match t with
  | Pde_fault => denied wr u (m (entry pd (pd_no vaddr))) = true
  | Pte_fault => True
  | Phys _ => denied wr u (m (entry pd (pd_no vaddr))) = false
              /\ (pte_of m pd vaddr <> NULLP -> denied wr u (m (pte_of m pd vaddr)) = false)
  end.
Proof.
  unfold translate, pte_of. intros <-.
  destruct (denied _ _ (m (entry pd (pd_no vaddr)))); [reflexivity|].
  destruct (Z.testbit (m (entry pd (pd_no vaddr))) 7); [split; [reflexivity|contradiction]|].
  destruct (denied _ _ (m (entry _ (pt_no vaddr)))) eqn:D2; [exact I|split; auto].
Qed.

(** For walks that ask for the accessed bit, [pde_error] and [pte_error] tell
    the outcomes of [pt_walk] apart, whatever the out-parameters held before:
    each is true exactly when the walk was refused at its level, by an entry
    that is neither at address 0 nor at an address of the monitor. *)
Theorem pt_walk_errors_classified pm mm pd vaddr pde_p pte_p flags :
  words pm -> inU 32 vaddr -> has flags PTWALK_SHADOW = false ->
  has flags PTWALK_ASSERT = false -> has flags PTWALK_SET_A = true ->
  out_ok pde_p = true -> out_ok pte_p = true ->
  let t := translate pm pd vaddr (has flags PTWALK_SET_D) (has flags PTWALK_U) in
  let de := entry pd (pd_no vaddr) in
  let te := pte_of pm pd vaddr in
  exists w, pt_walk true pm mm pd vaddr pde_p pte_p flags = Ret w
  /\ pde_error (phys_mem w) mm (paddr w) (pde_ptr w) flags
     = match t with
       | Pde_fault => tested true de true
       | Pte_fault => Ret false
       | Phys pa => tested (pa =? PDE_ERR) de false
       end
  /\ pte_error (phys_mem w) mm (paddr w) (pte_ptr w) flags
     = match t with
       | Pde_fault => Ret false
       | Pte_fault => tested true te true
       | Phys pa => tested (pa =? PTE_ERR) te false
       end.
Proof.
  intros Hw Hv Hs Has Ha O1 O2 t de te.
  destruct (pt_walk_correct pm mm pd vaddr pde_p pte_p flags Hw Hv Hs Has O1 O2)
    as (w & E & Ep & P).
  exists w. split; [exact E|]. fold t in P. unfold pde_error, pte_error. rewrite Ep.
  rewrite !pde_pte_error_guest by assumption. fold de.
  destruct t as [| |pa] eqn:Et; unfold t in Et; apply translate_inv in Et.
  - destruct P as (Pa & _ & Pm). fold de in Et. rewrite Pa, Pm, Et. split; reflexivity.
  - destruct P as (Pa & Pp & _ & Pd). rewrite Pa, Pd, Pp. split; reflexivity.
  - destruct P as (Pa & Pp & Pm). pose proof (marks_ad _ _ _ _ _ _ Pm) as Had.
    destruct Et as (D1 & D2). fold de in D1. fold te in D2, Pp.
    rewrite Pa, Pp, <- !(denied_same_ad _ _ _ _ (Had _)), D1. split; [reflexivity|].
    unfold tested. destruct (Z.eqb_spec te NULLP) as [->|N]; [rewrite orb_true_r; reflexivity|].
    rewrite D2 by exact N. reflexivity.
Qed.

Lemma pt_walk_errors_classified_witness :
  exists w, pt_walk true small_tables small_tables 0x1000 0x406123 no_out no_out PTWALK_SET_A = Ret w
  /\ pde_error (phys_mem w) small_tables (paddr w) (pde_ptr w) PTWALK_SET_A = Ret false
  /\ pte_error (phys_mem w) small_tables (paddr w) (pte_ptr w) PTWALK_SET_A = Ret true.
Proof.
  apply (pt_walk_errors_classified small_tables small_tables 0x1000 0x406123 no_out no_out
    PTWALK_SET_A); [exact small_tables_words|inU_num|reflexivity..].
Defined.
