(* ===== verification/Shadow.v ===== *)
(** * Page faults and the shadow tables

    [page_fault] of [sys/exception.c], which decides whether a fault is the
    guest's own or an artefact of the shadow tables, and the theorems on what
    [shadow_handle_page_fault] of [mem/paging.c] installs. *)

From Stdlib Require Import ZArith Lia Bool.
From stdpp Require Import base list.
From S2P Require Import Prelude Vaddr Paging.

Definition PF_P : Z := 0x1.
Definition PF_W : Z := 0x2.
Definition PF_U : Z := 0x4.

(** What [page_fault] ends in: a page for the physical map, an exception for
    the guest, or a change of the shadow tables; a trapped write is offered to
    the memory traces first. *)
Inductive fault_result :=
| Phys_map_fault (page : Z)
| True_fault (exception_cr2 : Z)
| Shadow_fault (offer_mtraces : bool) (next : res install).

(** The part of the handler after the guest's own tables allowed the access. *)
Definition hidden_fault (mm : mem) (cr3 fault_addr : Z) (write_fault guest_cr3 guest_user : bool)
  (flags : Z) (pde_shadow pte_shadow : out) (w : walk) : res fault_result :=
  let sflags := (flags |! PTWALK_SHADOW) &~ PTWALK_U in
  s ← pt_walk guest_cr3 (phys_mem w) mm cr3 fault_addr pde_shadow pte_shadow sflags;
  e1 ← pde_error (phys_mem w) mm (paddr s) (pde_ptr s) sflags;
  e2 ← pte_error (phys_mem w) mm (paddr s) (pte_ptr s) sflags;
  assert (e1 || e2);;
  mret (Shadow_fault (write_fault && e2)
    (shadow_handle_page_fault (phys_mem w) mm fault_addr (pde_ptr w) (pte_ptr w)
       (paddr s) (pde_ptr s) (pte_ptr s) sflags guest_cr3 guest_user)).

(** The last four arguments are the pointers the handler declares without a
    value: where they are on the stack, and what they hold. *)
Definition page_fault (using_cr3_page_table : bool) (pm mm : mem)
  (hw_cr3 vcpu_cr3 shadow_dir0 shadow_dir1 phys_map fault_addr error_code : Z)
  (pde_entry pte_entry pde_shadow pte_shadow : out) : res (fault_result * mem) :=
  cr3 ← ptov_mon hw_cr3;
  assert (fault_addr <? LOADER_MONITOR_VIRT_BASE);;
  let write_fault := has error_code PF_P && has error_code PF_W in
  let user_fault := has error_code PF_P && negb (has error_code PF_W) && has error_code PF_U in
  let guest_user := negb (shadow_dir1 =? NULLP) && (cr3 =? shadow_dir1) in
  assert (negb user_fault);;
  if cr3 =? phys_map then mret (Phys_map_fault (fault_addr &~ PGMASK), pm)
  else
    let flags := PTWALK_SET_A |! (if write_fault then PTWALK_SET_D else 0)
                 |! (if guest_user then PTWALK_U else 0) in
    assert ((cr3 =? shadow_dir0) || (cr3 =? shadow_dir1));;
    w ← pt_walk using_cr3_page_table pm mm vcpu_cr3 fault_addr pde_entry pte_entry flags;
    e1 ← pde_error (phys_mem w) mm (paddr w) (pde_ptr w) flags;
    e2 ← (if (e1 : bool) then mret true
          else pte_error (phys_mem w) mm (paddr w) (pte_ptr w) flags);
    if (e2 : bool) then mret (True_fault fault_addr, phys_mem w)
    else
      r ← hidden_fault mm cr3 fault_addr write_fault using_cr3_page_table guest_user
            flags pde_shadow pte_shadow w;
      mret (r, phys_mem w).

(** ** What a shadow entry is made of *)

Definition in_monitor (pg : Z) : bool := (LOADER_MONITOR_BASE <=? pg) && (pg <? LOADER_MONITOR_END).

Lemma testbit_PTE_FLAGS x i : 0 <= i < 12 -> Z.testbit (x &! PTE_FLAGS) i = Z.testbit x i.
Proof.
  intros Hi. change PTE_FLAGS with (Z.ones 12).
  rewrite Z.land_spec, Z.ones_spec_low by lia. apply andb_true_r.
Qed.

Lemma inU_flags x : 0 <= x -> inU 12 (x &! PTE_FLAGS).
Proof. intros H. apply inU_land_r; [lia|exact H|inU_num]. Qed.

(** The flags of a shadow entry for a guest entry whose accessed bit is set. *)
Lemma shadow_pte_flags_accessed x :
  inU 32 x -> Z.testbit x 5 = true ->
  exists f, shadow_pte_flags (x &! PTE_FLAGS) = Ret f /\ inU 12 f
  /\ Z.testbit f 0 = Z.testbit x 0 /\ Z.testbit f 2 = true
  /\ Z.testbit f 1 = Z.testbit x 1 && Z.testbit x 6.
Proof.
  intros Hx HA. pose proof (inU_flags x (proj1 Hx)) as Hf. unfold shadow_pte_flags.
  assert ((x &! PTE_FLAGS) &! PTE_ADDR = 0) as ->
    by (rewrite <- Z.land_assoc; apply Z.land_0_r).
  cbn [assert Z.eqb mbind res_bind]. autorewrite with ptebits.
  rewrite !testbit_PTE_FLAGS, HA by lia. cbn [negb].
  assert (H12 : forall y, inU 12 y -> inU 12 (y |! PTE_U))
    by (intros y Hy; apply inU_lor; [lia|exact Hy|inU_num]).
  assert (Hff : (x &! PTE_FLAGS) &! PTE_FLAGS = x &! PTE_FLAGS)
    by (rewrite <- Z.land_assoc; reflexivity).
  rewrite Hff. destruct (Z.testbit x 1) eqn:HW, (Z.testbit x 6) eqn:HD;
    cbn [negb andb]; (eexists; split; [reflexivity|]);
    (split; [apply H12; auto with width; try (apply inU_ldiff; [lia|exact Hf])|]);
    rewrite !Z.lor_spec, ?Z.ldiff_spec, !testbit_PTE_FLAGS, ?HW by lia; cbn;
    rewrite ?andb_true_r, ?andb_false_r, ?orb_false_r, ?orb_true_r; auto.
Qed.

(** A frame of the monitor's own memory is given a page of the swap cache. *)
Definition install_frame (ps pg f : Z) : install :=
  if in_monitor pg then Install_swap_page ps pg f else Install_pte ps (pg |! f).

Lemma install_page_flags x ps :
  inU 32 x -> Z.testbit x 5 = true ->
  exists f, pd_install_shadow_page x ps = Ret (install_frame ps (2 ^ 12 * (x / 2 ^ 12)) f)
  /\ inU 12 f /\ Z.testbit f 0 = Z.testbit x 0 /\ Z.testbit f 2 = true
  /\ Z.testbit f 1 = Z.testbit x 1 && Z.testbit x 6.
Proof.
  intros Hx HA. destruct (shadow_pte_flags_accessed x Hx HA) as (f & E & Hf & H0 & H2 & H1).
  exists f. unfold pd_install_shadow_page, install_frame, in_monitor. rewrite E. cbn [mbind res_bind].
  rewrite <- Z.land_assoc, Z.land_diag, land_PTE_ADDR by exact Hx.
  split; [destruct ((LOADER_MONITOR_BASE <=? _) && _); reflexivity|]. auto.
Qed.

Lemma install_page_accessed x ps :
  inU 32 x -> Z.testbit x 5 = true -> in_monitor (x &! PTE_ADDR) = false ->
  exists v, pd_install_shadow_page x ps = Ret (Install_pte ps v)
  /\ v / 2 ^ 12 = x / 2 ^ 12
  /\ Z.testbit v 0 = Z.testbit x 0 /\ Z.testbit v 2 = true
  /\ Z.testbit v 1 = Z.testbit x 1 && Z.testbit x 6.
Proof.
  intros Hx HA Hm. destruct (install_page_flags x ps Hx HA) as (f & E & Hf & H0 & H2 & H1).
  rewrite land_PTE_ADDR in Hm by exact Hx. unfold install_frame in E. rewrite Hm in E.
  eexists. split; [exact E|].
  assert (Hlow : forall i, 0 <= i < 12 ->
    Z.testbit (2 ^ 12 * (x / 2 ^ 12) |! f) i = Z.testbit f i).
  { intros i Hi. rewrite Z.lor_spec, Z.mul_comm, Z.mul_pow2_bits_low by lia. reflexivity. }
  rewrite !Hlow by lia. split; [|auto].
  rewrite lor_mult_low by (exact Hf || lia). unfold inU in Hf.
  rewrite Z.mul_comm, Z.div_add_l, (Z.div_small f) by lia. lia.
Qed.

Lemma pte_error_PTE_ERR_only pm mm e flags : pde_error pm mm PTE_ERR e flags = Ret false.
Proof. reflexivity. Qed.

Lemma handle_pte_fault pm mm fault pde_p pte_p pde_s pte_s sflags user :
  pm pde_p <> 0 -> pte_error pm mm PTE_ERR pte_s sflags = Ret true ->
  shadow_handle_page_fault pm mm fault pde_p pte_p PTE_ERR pde_s pte_s sflags true user =
  if Z.testbit (pm pde_p) 7 then
    assert (pte_p =? NULLP);;
    pd_install_shadow_page
      ((fault &! PTE_ADDR) |! (((pm pde_p &! PTE_FLAGS) &~ PTE_PS) &~ PTE_G)) pte_s
  else pd_install_shadow_page (pm pte_p) pte_s.
Proof.
  intros Hp He. unfold shadow_handle_page_fault.
  rewrite (proj2 (Z.eqb_neq _ _) Hp), pte_error_PTE_ERR_only, He, has_PS. reflexivity.
Qed.

Lemma denied_present w u e : denied w u e = false -> Z.testbit e 0 = true /\ e <> 0.
Proof.
  unfold denied. destruct (Z.testbit e 0) eqn:E; [|discriminate]. split; [reflexivity|].
  intros ->. discriminate.
Qed.

Lemma same_ad_nonzero x y : same_ad x y -> Z.testbit x 0 = true -> y <> 0.
Proof. intros H E ->. rewrite H in E by lia. discriminate. Qed.

Lemma words_ad m m' : words m -> mem_ad m m' -> words m'.
Proof.
  intros Hw Had a.
  assert (Hhi : forall i, 32 <= i -> Z.testbit (m' a) i = false).
  { intros i Hi. rewrite <- (Had a) by lia. apply (inU_testbit 32); [lia|apply Hw|exact Hi]. }
  apply testbit_inU; [lia| |exact Hhi].
  apply Z.bits_iff_nonneg_ex. exists 31. intros i Hi. apply Hhi. lia.
Qed.

Lemma frame_wrap x n y : inU 32 x -> 0 <= n <= 32 -> 0 <= y < 2 ^ n ->
  wrap 32 (2 ^ n * (x / 2 ^ n) + y) = 2 ^ n * (x / 2 ^ n) + y.
Proof.
  intros Hx Hn Hy. apply wrap_id. unfold inU in *.
  assert (2 ^ 32 = 2 ^ n * 2 ^ (32 - n)) as E by (rewrite <- Z.pow_add_r; [f_equal|..]; lia).
  assert (x / 2 ^ n < 2 ^ (32 - n)) by (apply Z.div_lt_upper_bound; lia).
  pose proof (Z.div_pos x (2 ^ n)). nia.
Qed.

Lemma translate_small_frame m pd fault wr u pa :
  words m -> inU 32 fault -> Z.testbit (m (entry pd (pd_no fault))) 7 = false ->
  translate m pd fault wr u = Phys pa -> pa / 2 ^ 12 = m (pte_of m pd fault) / 2 ^ 12.
Proof.
  intros Hw Hf H7. unfold translate, pte_of. rewrite H7.
  destruct (denied _ _ _); [discriminate|]. destruct (denied _ _ _); [discriminate|].
  injection 1 as <-. pose proof (Z.mod_pos_bound fault (2 ^ 12) ltac:(lia)).
  rewrite frame_wrap by (apply Hw || lia). rewrite Z.mul_comm, Z.div_add_l by lia.
  rewrite (Z.div_small (fault mod 2 ^ 12)) by lia. lia.
Qed.

Lemma translate_large_frame m pd fault wr u pa :
  words m -> inU 32 fault -> Z.testbit (m (entry pd (pd_no fault))) 7 = true ->
  translate m pd fault wr u = Phys pa ->
  pa = 2 ^ 22 * (m (entry pd (pd_no fault)) / 2 ^ 22) + fault mod 2 ^ 22.
Proof.
  intros Hw Hf H7. unfold translate. rewrite H7. destruct (denied _ _ _); [discriminate|].
  injection 1 as <-. pose proof (Z.mod_pos_bound fault (2 ^ 22) ltac:(lia)).
  apply frame_wrap; [apply Hw|lia|lia].
Qed.

(** ** Whose fault it is *)

(** How the handler sees a fault: as the guest's, as one of the shadow tables,
    or it fails an assertion. *)
Inductive verdict := Guests | Hidden | Unreadable.

(** A refusal by the guest entry at [e]. *)
Definition refusal (e : Z) : verdict :=
  if e =? NULLP then Hidden else if is_monitor_vaddr e then Unreadable else Guests.

(** By the guest's translation and the addresses of its two entries.  A
    translation may give one of the two addresses used as error codes. *)
Definition judge (t : xlate) (de te : Z) : verdict :=
  match t with
  | Pde_fault => refusal de
  | Pte_fault => refusal te
  | Phys pa => if (pa =? PDE_ERR) && is_monitor_vaddr de || (pa =? PTE_ERR) && is_monitor_vaddr te
               then Unreadable else Hidden
  end.

Definition write_bit (err : Z) : bool := has err PF_P && has err PF_W.
Definition user_dir (cr3 dir1 : Z) : bool := negb (dir1 =? NULLP) && (cr3 =? dir1).
Definition walk_flags (wr user : bool) : Z :=
  PTWALK_SET_A |! (if wr then PTWALK_SET_D else 0) |! (if user then PTWALK_U else 0).

(** What the handler asserts before it looks at the tables, for a fault that
    is not on the map of physical memory. *)
Record entered (hw_cr3 cr3 dir0 dir1 pmap fault err : Z) : Prop := {
  en_fault : inU 32 fault /\ fault < LOADER_MONITOR_VIRT_BASE;
  en_cr3 : ptov_mon hw_cr3 = Ret cr3;
  en_map : cr3 <> pmap;
  en_dir : cr3 = dir0 \/ cr3 = dir1;
  en_user : has err PF_P && negb (has err PF_W) && has err PF_U = false }.

Lemma walk_flags_spec wr user :
  has (walk_flags wr user) PTWALK_SHADOW = false /\ has (walk_flags wr user) PTWALK_ASSERT = false
  /\ has (walk_flags wr user) PTWALK_SET_A = true /\ has (walk_flags wr user) PTWALK_SET_D = wr
  /\ has (walk_flags wr user) PTWALK_U = user.
Proof. destruct wr, user; repeat (split; [reflexivity|]); reflexivity. Qed.

(** The handler after its assertions. *)
Lemma page_fault_entered g pm mm hw_cr3 cr3 vcpu_cr3 dir0 dir1 pmap fault err o1 o2 o3 o4 :
  entered hw_cr3 cr3 dir0 dir1 pmap fault err ->
  let wr := write_bit err in
  let user := user_dir cr3 dir1 in
  let flags := walk_flags wr user in
  page_fault g pm mm hw_cr3 vcpu_cr3 dir0 dir1 pmap fault err o1 o2 o3 o4 =
  (w ← pt_walk g pm mm vcpu_cr3 fault o1 o2 flags;
   e1 ← pde_error (phys_mem w) mm (paddr w) (pde_ptr w) flags;
   e2 ← (if (e1 : bool) then mret true else pte_error (phys_mem w) mm (paddr w) (pte_ptr w) flags);
   if (e2 : bool) then mret (True_fault fault, phys_mem w)
   else r ← hidden_fault mm cr3 fault wr g user flags o3 o4 w; mret (r, phys_mem w)).
Proof.
  intros [[_ Hlt] Hcr Hpm Hdir Hu] wr user flags. unfold page_fault. rewrite Hcr.
  cbn [mbind res_bind]. rewrite (proj2 (Z.ltb_lt _ _) Hlt). cbn [assert mbind res_bind]. rewrite Hu.
  cbn [negb assert mbind res_bind]. rewrite (proj2 (Z.eqb_neq _ _) Hpm).
  assert ((cr3 =? dir0) || (cr3 =? dir1) = true) as ->
    by (destruct Hdir as [-> | ->]; rewrite Z.eqb_refl, ?orb_true_r; reflexivity).
  reflexivity.
Qed.

(** The guest's walk as the handler sees it. *)
Lemma page_fault_judged g pm mm hw_cr3 cr3 vcpu_cr3 dir0 dir1 pmap fault err o1 o2 o3 o4 :
  words pm -> entered hw_cr3 cr3 dir0 dir1 pmap fault err ->
  out_ok o1 = true -> out_ok o2 = true ->
  let wr := write_bit err in
  let user := user_dir cr3 dir1 in
  let flags := walk_flags wr user in
  exists w, pt_walk g pm mm vcpu_cr3 fault o1 o2 flags = Ret w
  /\ page_fault g pm mm hw_cr3 vcpu_cr3 dir0 dir1 pmap fault err o1 o2 o3 o4 =
     match (if g then judge (translate pm vcpu_cr3 fault wr user)
                        (entry vcpu_cr3 (pd_no fault)) (pte_of pm vcpu_cr3 fault)
            else Hidden) with
     | Guests => Ret (True_fault fault, phys_mem w)
     | Hidden => r ← hidden_fault mm cr3 fault wr g user flags o3 o4 w; mret (r, phys_mem w)
     | Unreadable => Stop Panic
     end.
Proof.
  intros Hw En O1 O2 wr user flags.
  destruct (walk_flags_spec wr user) as (F1 & F2 & F3 & F4 & F5). fold flags in F1, F2, F3, F4, F5.
  rewrite (page_fault_entered _ _ _ _ _ _ _ _ _ _ _ _ _ _ _ En). fold wr user flags.
  destruct g.
  - destruct (pt_walk_errors_classified pm mm vcpu_cr3 fault o1 o2 flags Hw (proj1 (en_fault _ _ _ _ _ _ _ En)))
      as (w & E & E1 & E2); try assumption.
    exists w. split; [exact E|]. rewrite E. cbn [mbind res_bind]. rewrite E1, E2, F4, F5.
    clear E E1 E2. unfold judge, refusal, tested.
    destruct (translate pm vcpu_cr3 fault wr user) as [| |pa]; cbn [negb orb mbind res_bind].
    + destruct (_ =? _); [reflexivity|]. destruct (is_monitor_vaddr _); reflexivity.
    + destruct (_ =? _); [reflexivity|]. destruct (is_monitor_vaddr _); reflexivity.
    + destruct (Z.eqb_spec (entry vcpu_cr3 (pd_no fault)) NULLP) as [->|];
        destruct (Z.eqb_spec (pte_of pm vcpu_cr3 fault) NULLP) as [->|];
        destruct (pa =? PDE_ERR), (pa =? PTE_ERR); cbn [negb orb andb mbind res_bind];
        try reflexivity; repeat (destruct (is_monitor_vaddr _); cbn; try reflexivity).
  - unfold pt_walk. rewrite O1, O2, F1. eexists. split; [reflexivity|].
    cbn [negb orb andb assert mbind res_bind mret res_ret paddr pde_ptr pte_ptr].
    unfold pde_error, pte_error, pde_pte_error. cbn [Z.eqb NULLP negb]. rewrite !andb_false_r.
    reflexivity.
Qed.

(** ** Properties *)


Definition demo_out : out := mk_out MONITOR_BASE 7.

Lemma demo_entered fault : inU 32 fault -> fault < LOADER_MONITOR_VIRT_BASE ->
  entered LOADER_MONITOR_BASE MONITOR_BASE MONITOR_BASE NULLP 0 fault 0.
Proof. intros H1 H2. split; auto; discriminate. Qed.


(** *** The shadow tables *)

Definition shadow_flags (wr user : bool) : Z := (walk_flags wr user |! PTWALK_SHADOW) &~ PTWALK_U.

Lemma shadow_flags_spec wr user :
  has (shadow_flags wr user) PTWALK_SHADOW = true /\ has (shadow_flags wr user) PTWALK_ASSERT = false
  /\ has (shadow_flags wr user) PTWALK_SET_A = true /\ has (shadow_flags wr user) PTWALK_SET_D = wr
  /\ has (shadow_flags wr user) PTWALK_U = false.
Proof. destruct wr, user; repeat (split; [reflexivity|]); reflexivity. Qed.

Lemma pd_no_range va : inU 32 va -> 0 <= pd_no va < 1024.
Proof.
  intros [H1 H2]. rewrite pd_no_div. split; [apply Z.div_pos; lia|].
  apply Z.div_lt_upper_bound; [lia|]. change (2 ^ 22 * 1024) with (2 ^ 32). exact H2.
Qed.

Lemma pt_no_range va : 0 <= pt_no va < 1024.
Proof. rewrite pt_no_field. apply Z.mod_pos_bound. lia. Qed.

(** The entries of a table in the monitor's memory are there too. *)
Lemma monitor_entry x y i :
  ptov_mon x = Ret y -> x mod 2 ^ 12 = 0 -> 0 <= i < 1024 ->
  is_monitor_vaddr y = true /\ is_monitor_vaddr (entry y i) = true /\ entry y i <> NULLP.
Proof.
  unfold ptov_mon. intros E Hx Hi. destruct (_ && _) eqn:C; [|discriminate]. injection E as <-.
  apply andb_true_iff in C as [C1%Z.leb_le C2%Z.ltb_lt].
  assert (Hb : x <= LOADER_MONITOR_BASE + MONITOR_SIZE - 2 ^ 12).
  { loader_consts. pose proof (Z.div_mod x (2 ^ 12) ltac:(lia)) as D. rewrite Hx in D.
    assert (x / 2 ^ 12 < 3072) by (apply Z.div_lt_upper_bound; lia). lia. }
  unfold is_monitor_vaddr, entry, NULLP. loader_consts.
  rewrite (wrap_id 32 (x + _)) by (unfold inU; lia). rewrite wrap_id by (unfold inU; lia).
  split; [apply Z.leb_le; lia|]. split; [apply Z.leb_le; lia|lia].
Qed.

Section ShadowWalk.
Context (g : bool) (pm mm : mem) (cr3 fault : Z) (o3 o4 : out) (wr user : bool).
Let sde := entry cr3 (pd_no fault).
Hypotheses (O3 : out_ok o3 = true) (O4 : out_ok o4 = true) (Hcr : is_monitor_vaddr cr3 = true).

Lemma shadow_walk_pde :
  denied wr false (mm sde) = true ->
  pt_walk g pm mm cr3 fault o3 o4 (shadow_flags wr user) = Ret (mk_walk PDE_ERR sde (o_val o4) pm).
Proof using O3 O4 Hcr.
  intros D. destruct (shadow_flags_spec wr user) as (F1 & F2 & F3 & F4 & F5).
  unfold pt_walk, walk_fail. rewrite O3, O4, F1, F2, Hcr. cbn [negb orb andb assert mbind res_bind].
  rewrite andb_false_r. fold sde. rewrite refused_denied, F4, F5, D. reflexivity.
Qed.

Lemma shadow_walk_pte pt :
  words mm -> denied wr false (mm sde) = false -> Z.testbit (mm sde) 7 = false ->
  ptov_mon (2 ^ 12 * (mm sde / 2 ^ 12)) = Ret pt ->
  denied wr false (mm (entry pt (pt_no fault))) = true ->
  pt_walk g pm mm cr3 fault o3 o4 (shadow_flags wr user) = Ret (mk_walk PTE_ERR sde (entry pt (pt_no fault)) pm).
Proof using O3 O4 Hcr.
  intros Hw D H7 Hpt D2. destruct (shadow_flags_spec wr user) as (F1 & F2 & F3 & F4 & F5).
  unfold pt_walk, walk_fail. rewrite O3, O4, F1, F2, Hcr.
  cbn [negb orb andb assert mbind res_bind]. rewrite andb_false_r. fold sde.
  rewrite refused_denied, F4, F5, D. rewrite has_PS, H7. rewrite land_PTE_ADDR by apply Hw.
  rewrite Hpt. cbn [mbind res_bind]. rewrite refused_denied, F4, F5, D2. reflexivity.
Qed.

Lemma shadow_error pa e errno :
  is_monitor_vaddr e = true -> e <> NULLP ->
  pde_pte_error pm mm pa e (shadow_flags wr user) errno = Ret ((pa =? errno) && denied wr false (mm e)).
Proof using Type.
  intros Hm He. destruct (shadow_flags_spec wr user) as (F1 & F2 & F3 & F4 & F5).
  unfold pde_pte_error. rewrite (proj2 (Z.eqb_neq _ _) He), F1, F3, F4, F5, Hm.
  destruct (pa =? errno); [|reflexivity]. cbn. unfold denied. autorewrite with ptebits. reflexivity.
Qed.

End ShadowWalk.

(** The guest's side of a hidden fault on a 4-kB page. *)
Lemma small_page_walk pm mm pd fault o1 o2 wr user pa :
  words pm -> inU 32 fault -> out_ok o1 = true -> out_ok o2 = true ->
  translate pm pd fault wr user = Phys pa -> Z.testbit (pm (entry pd (pd_no fault))) 7 = false ->
  exists w, pt_walk true pm mm pd fault o1 o2 (walk_flags wr user) = Ret w
  /\ pde_ptr w = entry pd (pd_no fault) /\ pte_ptr w = pte_of pm pd fault
  /\ words (phys_mem w)
  /\ same_ad (pm (pde_ptr w)) (phys_mem w (pde_ptr w))
  /\ denied wr user (phys_mem w (pde_ptr w)) = false
  /\ Z.testbit (phys_mem w (pde_ptr w)) 7 = false
  /\ denied wr user (phys_mem w (pte_ptr w)) = false
  /\ Z.testbit (phys_mem w (pte_ptr w)) 5 = true
  /\ (wr = true -> Z.testbit (phys_mem w (pte_ptr w)) 6 = true)
  /\ phys_mem w (pte_ptr w) / 2 ^ 12 = pa / 2 ^ 12
  /\ Z.testbit (phys_mem w (pte_ptr w)) 1 = Z.testbit (pm (pte_ptr w)) 1.
Proof.
  intros Hw Hf O1 O2 Et H7. destruct (walk_flags_spec wr user) as (F1 & F2 & F3 & F4 & F5).
  destruct (pt_walk_correct pm mm pd fault o1 o2 (walk_flags wr user) Hw Hf F1 F2 O1 O2)
    as (w & E & Ep & P).
  rewrite F4, F5, Et in P. destruct P as (_ & Pp & Pm). exists w. split; [exact E|].
  split; [exact Ep|]. split; [exact Pp|]. pose proof (marks_ad _ _ _ _ _ _ Pm) as Had.
  assert (D : denied wr user (pm (pde_ptr w)) = false /\ denied wr user (pm (pte_ptr w)) = false).
  { revert Et. rewrite Ep, Pp. unfold translate, pte_of. rewrite H7.
    destruct (denied _ _ (pm (entry pd _))); [discriminate|].
    destruct (denied _ _ (pm (entry (2 ^ 12 * _) _))); [discriminate|auto]. }
  rewrite <- Ep in H7. split; [apply (words_ad _ _ Hw Had)|]. split; [apply Had|].
  rewrite <- !(denied_same_ad _ _ _ _ (Had _)). split; [apply D|].
  split; [rewrite <- (Had _) by lia; exact H7|]. split; [apply D|].
  split; [apply (marks_pte_a _ _ _ _ _ _ Pm H7 F3)|].
  split; [intros ->; apply (marks_pte_d _ _ _ _ _ _ Pm H7); reflexivity|].
  rewrite <- (same_ad_div _ _ 12 ltac:(lia) (Had _)), <- (Had _) by lia. split; [|reflexivity].
  rewrite Ep in H7. rewrite Pp. symmetry. apply (translate_small_frame _ _ _ _ _ _ Hw Hf H7 Et).
Qed.

Lemma install_pt_flags wr user x :
  0 <= x -> denied wr user x = false -> denied wr true (((x &! PTE_FLAGS) &~ PTE_PS) |! PTE_U) = false.
Proof.
  intros Hx. unfold denied. rewrite !Z.lor_spec, !Z.ldiff_spec, !testbit_PTE_FLAGS by lia.
  destruct (Z.testbit x 0), (Z.testbit x 1), (Z.testbit x 2), wr, user; intros D;
    discriminate D || reflexivity.
Qed.


(** A shadow directory at the start of the monitor's memory that leads to an
    empty table in the next page. *)
Definition shadow_tables : mem := fun a =>
  if a =? MONITOR_BASE + 4 then LOADER_MONITOR_BASE + 0x1007 else 0.

Lemma shadow_tables_words : words shadow_tables.
Proof. intros a. unfold shadow_tables. destruct (a =? _); inU_num. Qed.


(** The entry [shadow_handle_page_fault] makes up for a page of a 4-MB page. *)
Definition large_pte (fault pde : Z) : Z :=
  (fault &! PTE_ADDR) |! (((pde &! PTE_FLAGS) &~ PTE_PS) &~ PTE_G).

Lemma large_pte_spec fault pde :
  inU 32 fault -> 0 <= pde ->
  inU 32 (large_pte fault pde) /\ large_pte fault pde / 2 ^ 12 = fault / 2 ^ 12
  /\ (forall i, 0 <= i < 7 -> Z.testbit (large_pte fault pde) i = Z.testbit pde i).
Proof.
  intros Hf Hp. unfold large_pte. set (f := (_ &~ PTE_PS) &~ PTE_G).
  assert (Hf12 : inU 12 f) by (unfold f; do 2 (apply inU_ldiff; [lia|]); apply inU_flags, Hp).
  rewrite land_PTE_ADDR by exact Hf. split; [|split].
  - apply inU_lor; [lia| |apply (inU_weaken 12); [lia|exact Hf12]]. unfold inU in *.
    pose proof (Z.div_pos fault (2 ^ 12)). pose proof (Z.mul_div_le fault (2 ^ 12)). lia.
  - rewrite lor_mult_low by (exact Hf12 || lia). unfold inU in Hf12.
    rewrite Z.mul_comm, Z.div_add_l, (Z.div_small f) by lia. lia.
  - intros i Hi. rewrite Z.lor_spec, Z.mul_comm, Z.mul_pow2_bits_low by lia. unfold f.
    rewrite !Z.ldiff_spec, testbit_PTE_FLAGS by lia.
    change PTE_PS with (1 << 7). change PTE_G with (1 << 8). rewrite !testbit_bit by lia.
    rewrite (proj2 (Z.eqb_neq i 7)), (proj2 (Z.eqb_neq i 8)) by lia.
    cbn. rewrite !andb_true_r. reflexivity.
Qed.

(** The walk of a 4-MB page marks its directory entry accessed, nothing else. *)
Lemma pt_walk_large pm mm pd fault pde0 pte0 flags pa :
  out_ok pde0 = true -> out_ok pte0 = true ->
  has flags PTWALK_SHADOW = false -> has flags PTWALK_SET_A = true ->
  translate pm pd fault (has flags PTWALK_SET_D) (has flags PTWALK_U) = Phys pa ->
  let pp := entry pd (pd_no fault) in
  Z.testbit (pm pp) 7 = true ->
  exists pa', pt_walk true pm mm pd fault pde0 pte0 flags
              = Ret (mk_walk pa' pp NULLP (stl pm pp (pm pp |! PTE_A))).
Proof.
  intros O1 O2 F1 F3 Et pp H7. pose proof (translate_inv _ _ _ _ _ _ Et) as (D1 & _). fold pp in D1.
  unfold pt_walk. rewrite O1, O2, F1, F3. cbn [negb orb andb assert mbind res_bind]. fold pp.
  rewrite refused_denied, D1, has_PS, <- (same_ad_lor (pm pp) PTE_A) by (auto; lia).
  rewrite H7. eexists. reflexivity.
Qed.

(** The shadow fault on a page of an accessed 4-MB page. *)
Lemma large_page_install pm mm fault pp pde_s pte_s sflags user :
  words pm -> inU 32 fault -> Z.testbit (pm pp) 7 = true -> Z.testbit (pm pp) 5 = true ->
  in_monitor (fault &! PTE_ADDR) = false ->
  pte_error pm mm PTE_ERR pte_s sflags = Ret true ->
  exists v, shadow_handle_page_fault pm mm fault pp NULLP PTE_ERR pde_s pte_s sflags true user
            = Ret (Install_pte pte_s v)
  /\ v / 2 ^ 12 = fault / 2 ^ 12
  /\ Z.testbit v 1 = Z.testbit (pm pp) 1 && Z.testbit (pm pp) 6.
Proof.
  intros Hw Hf H7 H5 Hmon He.
  destruct (large_pte_spec fault (pm pp) Hf (proj1 (Hw pp))) as (Hl & Lf & Lb).
  rewrite handle_pte_fault, H7 by (try exact He; intros E; rewrite E in H7; discriminate).
  fold (large_pte fault (pm pp)).
  destruct (install_page_accessed (large_pte fault (pm pp)) pte_s Hl) as (v & Ev & Vf & _ & _ & V1).
  - rewrite Lb by lia. exact H5.
  - rewrite land_PTE_ADDR in * by assumption. rewrite Lf. exact Hmon.
  - exists v. rewrite !Lb in V1 by lia. rewrite Lf in Vf. auto.
Qed.

Lemma page_of_large pde fault :
  (2 ^ 22 * (pde / 2 ^ 22) + fault mod 2 ^ 22) / 2 ^ 12 = fault / 2 ^ 12
  <-> pde / 2 ^ 22 = fault / 2 ^ 22.
Proof.
  pose proof (Z.mod_pos_bound fault (2 ^ 22) ltac:(lia)).
  pose proof (Z.div_mod fault (2 ^ 22) ltac:(lia)) as Hd.
  set (q := fault / 2 ^ 22) in *. set (r := fault mod 2 ^ 22) in *. clearbody q r. subst fault.
  replace (2 ^ 22 * (pde / 2 ^ 22) + r) with ((2 ^ 10 * (pde / 2 ^ 22)) * 2 ^ 12 + r) by lia.
  replace (2 ^ 22 * q + r) with ((2 ^ 10 * q) * 2 ^ 12 + r) by lia.
  rewrite !Z.div_add_l by lia. lia.
Qed.


(** A write to a clean, writable 4-MB page of the guest never gets through:
    the walk does not set the page's dirty bit, so the shadow entry installed
    for the write is again read-only and refuses the same write. *)
Theorem shadow_large_page_write_refused pm mm pd fault pde0 pte0 flags pa pde_s pte_s sflags user :
  out_ok pde0 = true -> out_ok pte0 = true ->
  words pm -> inU 32 fault -> has flags PTWALK_SHADOW = false -> has flags PTWALK_SET_A = true ->
  has flags PTWALK_SET_D = true -> translate pm pd fault true (has flags PTWALK_U) = Phys pa ->
  let pp := entry pd (pd_no fault) in
  Z.testbit (pm pp) 7 = true -> Z.testbit (pm pp) 6 = false ->
  in_monitor (fault &! PTE_ADDR) = false ->
  exists w, pt_walk true pm mm pd fault pde0 pte0 flags = Ret w
  /\ Z.testbit (phys_mem w pp) 6 = false
  /\ (pte_error (phys_mem w) mm PTE_ERR pte_s sflags = Ret true ->
      exists v, shadow_handle_page_fault (phys_mem w) mm fault (pde_ptr w) (pte_ptr w) PTE_ERR
                  pde_s pte_s sflags true user = Ret (Install_pte pte_s v)
      /\ denied true false v = true).
Proof.
  intros O1 O2 Hw Hf F1 F3 F4 Et pp H7 H6 Hmon. rewrite <- F4 in Et.
  destruct (pt_walk_large pm mm pd fault pde0 pte0 flags pa O1 O2 F1 F3 Et H7) as (pa' & E).
  eexists. split; [exact E|]. cbn [phys_mem pde_ptr pte_ptr]. fold pp.
  assert (H6' : Z.testbit (stl pm pp (pm pp |! PTE_A) pp) 6 = false)
    by (rewrite stl_eq, Z.lor_spec, H6; reflexivity).
  split; [exact H6'|]. intros He.
  destruct (large_page_install (stl pm pp (pm pp |! PTE_A)) mm fault pp pde_s pte_s sflags user)
    as (v & Ev & _ & V1); try assumption.
  - apply words_stl; [exact Hw|]. apply inU_lor_flag; auto.
  - rewrite stl_eq, <- (same_ad_lor (pm pp) PTE_A) by (auto; lia). exact H7.
  - rewrite stl_eq. apply testbit_lor_A.
  - exists v. split; [exact Ev|]. rewrite H6', andb_false_r in V1. unfold denied. rewrite V1.
    destruct (Z.testbit v 0); reflexivity.
Qed.

(** A directory at 0x1000 whose entry 4 maps a clean, writable 4-MB page. *)
Definition large_tables : mem := fun a => if a =? 0x1010 then 0x3400087 else 0.

Lemma large_tables_words : words large_tables.
Proof. intros a. unfold large_tables. destruct (a =? 0x1010); inU_num. Qed.


Lemma shadow_large_page_write_refused_witness :
  exists w, pt_walk true large_tables large_tables 0x1000 0x1002123 no_out no_out
              (PTWALK_SET_A |! PTWALK_SET_D) = Ret w
  /\ Z.testbit (phys_mem w 0x1010) 6 = false
  /\ (pte_error (phys_mem w) large_tables PTE_ERR MONITOR_BASE
        (PTWALK_SET_A |! PTWALK_SHADOW) = Ret true ->
      exists v, shadow_handle_page_fault (phys_mem w) large_tables 0x1002123 (pde_ptr w) (pte_ptr w)
                  PTE_ERR 0 MONITOR_BASE (PTWALK_SET_A |! PTWALK_SHADOW) true false
                = Ret (Install_pte MONITOR_BASE v)
      /\ denied true false v = true).
Proof.
  apply (shadow_large_page_write_refused large_tables large_tables 0x1000 0x1002123 no_out no_out
    (PTWALK_SET_A |! PTWALK_SET_D) 0x3402123 0 MONITOR_BASE (PTWALK_SET_A |! PTWALK_SHADOW) false);
    [reflexivity|reflexivity|exact large_tables_words|inU_num| | | | | | |]; reflexivity.
Defined.
