(* ===== verification/Sort.v ===== *)
(** * Heap sort and binary search

    [sort], [qsort]'s worker, and [binary_search] of [lib/stdlib.c].  The code
    works on a byte array holding [cnt] elements of [size] bytes; the proof
    goes through the same algorithm on the list of elements, which the byte
    version simulates. *)

From Stdlib Require Import ZArith Lia Bool.
From stdpp Require Import base list.
From S2P Require Import Prelude.

(** ** The algorithm, over the two element accesses it makes *)

Section Heapsort.
Context {T : Type} (cmp_at : T -> Z -> Z -> res Z) (swap : T -> Z -> Z -> res T).

(** The 1-based index among [max] and [k], if [k] is inside the heap, with the
    larger element. *)
Definition larger (array : T) (cnt k max : Z) : res Z :=
  if k <=? cnt then
    c ← cmp_at array k max;
    mret (if 0 <? c then k else max)
  else mret max.

Fixpoint heapify (fuel : nat) (array : T) (i cnt : Z) : res T :=
  match fuel with
  | O => Stop NoFuel
  | S fuel =>
      let left := wrap 32 (2 * i) in
      let right := wrap 32 (2 * i + 1) in
      max ← larger array cnt left i;
      max ← larger array cnt right max;
      if max =? i then mret array
      else
        array ← swap array i max;
        heapify fuel array max cnt
  end.

Definition heapify_fuel (cnt : Z) : nat := S (Z.to_nat cnt).

Fixpoint build_heap (i : nat) (array : T) (cnt : Z) : res T :=
  match i with
  | O => mret array
  | S i' =>
      array ← heapify (heapify_fuel cnt) array (Z.of_nat i) cnt;
      build_heap i' array cnt
  end.

Fixpoint drain_heap (i : nat) (array : T) : res T :=
  match i with
  | O | S O => mret array
  | S i' =>
      array ← swap array 1 (Z.of_nat i);
      array ← heapify (heapify_fuel (Z.of_nat i')) array 1 (Z.of_nat i');
      drain_heap i' array
  end.

Definition heap_sort (array : T) (cnt : Z) : res T :=
  array ← build_heap (Z.to_nat (cnt / 2)) array cnt;
  drain_heap (Z.to_nat cnt) array.
End Heapsort.

(** ** On bytes, as in the source *)

(** The [size] bytes at [ofs]. *)
Definition bytes_at (array : list Z) (ofs size : Z) : option (list Z) :=
  if (0 <=? ofs) && (ofs + size <=? lenZ array)
  then Some (take (Z.to_nat size) (drop (Z.to_nat ofs) array)) else None.

Fixpoint swap_loop (n : nat) (array : list Z) (a b i : Z) : res (list Z) :=
  match n with
  | O => mret array
  | S n =>
      array ← the (swapi array (a + i) (b + i));
      swap_loop n array a b (i + 1)
  end.

Definition ofs_of (size idx : Z) : Z := wrap 32 ((idx - 1) * size).

Definition do_swap (size : Z) (array : list Z) (a_idx b_idx : Z) : res (list Z) :=
  swap_loop (Z.to_nat size) array (ofs_of size a_idx) (ofs_of size b_idx) 0.

Definition do_compare (compare : list Z -> list Z -> Z) (size : Z) (array : list Z)
  (a_idx b_idx : Z) : res Z :=
  a ← the (bytes_at array (ofs_of size a_idx) size);
  b ← the (bytes_at array (ofs_of size b_idx) size);
  mret (compare a b).

Definition sort (array : list Z) (cnt size : Z) (compare : list Z -> list Z -> Z) : res (list Z) :=
  assert (0 <? size);;
  heap_sort (do_compare compare size) (do_swap size) array cnt.

(** [first] and [last] are offsets from the start of the array. *)
Fixpoint search_loop (fuel : nat) (key : list Z) (array : list Z) (size first last : Z)
  (compare : list Z -> list Z -> Z) : res (option Z) :=
  match fuel with
  | O => Stop NoFuel
  | S fuel =>
      if first <? last then
        let range := (last - first) / size in
        let middle := first + (range / 2) * size in
        m ← the (bytes_at array middle size);
        let cmp := compare key m in
        if cmp <? 0 then search_loop fuel key array size first middle compare
        else if 0 <? cmp then search_loop fuel key array size (middle + size) last compare
        else mret (Some middle)
      else mret None
  end.

Definition binary_search (key array : list Z) (cnt size : Z) (compare : list Z -> list Z -> Z)
  : res (option Z) :=
  search_loop (S (Z.to_nat cnt)) key array size 0 (wrap 32 (size * cnt)) compare.

(** ** On elements *)

Section Elements.
Context {A : Type} (cmp : A -> A -> Z).

Definition el_cmp (l : list A) (a b : Z) : res Z :=
  x ← the (geti l (a - 1)); y ← the (geti l (b - 1)); mret (cmp x y).
Definition el_swap (l : list A) (a b : Z) : res (list A) := the (swapi l (a - 1) (b - 1)).

(** A [strcmp]-type comparison. *)
Record comparison : Prop := {
  cmp_anti : forall x y, 0 < cmp x y <-> cmp y x < 0;
  cmp_trans : forall x y z, cmp x y <= 0 -> cmp y z <= 0 -> cmp x z <= 0 }.
Context (Hcmp : comparison).

Lemma cmp_flip x y : 0 < cmp x y -> cmp y x <= 0.
Proof using Hcmp. intros H%(cmp_anti Hcmp). lia. Qed.

Lemma cmp_refl x : cmp x x <= 0.
Proof using Hcmp. destruct (Z_lt_le_dec 0 (cmp x x)) as [H|H]; [apply cmp_flip, H|exact H]. Qed.

(** Element [p] is at least element [c], 1-based. *)
Definition ge_at (l : list A) (p c : Z) : Prop :=
  forall x y, geti l (p - 1) = Some x -> geti l (c - 1) = Some y -> cmp y x <= 0.
Definition child (p c : Z) : Prop := c = 2 * p \/ c = 2 * p + 1.

(** The heap order from node [k] on; and the same with node [i] excepted. *)
Definition heap (k cnt : Z) (l : list A) : Prop :=
  forall p c, k <= p -> child p c -> c <= cnt -> ge_at l p c.
Record hole (k i cnt : Z) (l : list A) : Prop := {
  hole_rest : forall p c, k <= p -> p <> i -> child p c -> c <= cnt -> ge_at l p c;
  hole_up : forall p c, k <= p -> child p i -> child i c -> c <= cnt -> ge_at l p c }.

(** What [heapify] may do to the array: move elements of the first [cnt]. *)
Record moved (cnt : Z) (l l' : list A) : Prop := {
  moved_perm : l' ≡ₚ l;
  moved_rest : forall j, cnt < j -> geti l' (j - 1) = geti l (j - 1);
  moved_from : forall j, 1 <= j <= cnt ->
    exists j0, 1 <= j0 <= cnt /\ geti l' (j - 1) = geti l (j0 - 1) }.

Lemma moved_refl cnt l : moved cnt l l.
Proof using Type. split; eauto. Qed.

Lemma moved_trans cnt l1 l2 l3 : moved cnt l1 l2 -> moved cnt l2 l3 -> moved cnt l1 l3.
Proof using Type.
  intros [P1 R1 F1] [P2 R2 F2]. split; [etransitivity; eassumption| |].
  - intros j Hj. rewrite R2, R1 by exact Hj. reflexivity.
  - intros j Hj. destruct (F2 j Hj) as (j0 & H0 & E0), (F1 j0 H0) as (j1 & H1 & E1).
    exists j1. split; [exact H1|congruence].
Qed.

Lemma moved_len cnt l l' : moved cnt l l' -> lenZ l' = lenZ l.
Proof using Type. intros H. unfold lenZ. rewrite (moved_perm _ _ _ H). reflexivity. Qed.

Lemma swap_moved cnt l a b l' :
  1 <= a <= cnt -> 1 <= b <= cnt -> swapi l (a - 1) (b - 1) = Some l' -> moved cnt l l'.
Proof using Type.
  intros Ha Hb E. split; [apply (swapi_perm _ _ _ _ E)| |].
  - intros j Hj. rewrite (geti_swapi _ _ _ _ _ E).
    rewrite (proj2 (Z.eqb_neq _ _)), (proj2 (Z.eqb_neq _ _)) by lia. reflexivity.
  - intros j Hj. rewrite (geti_swapi _ _ _ _ _ E).
    destruct (Z.eqb_spec (j - 1) (b - 1)); [exists a; auto|].
    destruct (Z.eqb_spec (j - 1) (a - 1)); [exists b; auto|exists j; auto].
Qed.

Lemma ge_at_refl l a : ge_at l a a.
Proof using Hcmp. intros x y Ex Ey. rewrite Ex in Ey. injection Ey as <-. apply cmp_refl. Qed.

Lemma ge_at_trans l a b c : 1 <= b <= lenZ l -> ge_at l a b -> ge_at l b c -> ge_at l a c.
Proof using Hcmp.
  intros Hb H1 H2 x z Ex Ez. destruct (geti_lt_Some l (b - 1) ltac:(lia)) as (y & Ey).
  apply (cmp_trans Hcmp _ y); [apply H2|apply H1]; assumption.
Qed.

Lemma larger_ok l cnt k max :
  1 <= max <= lenZ l -> 1 <= k -> cnt <= lenZ l ->
  exists m, larger el_cmp l cnt k max = Ret m /\ (m = max \/ m = k /\ k <= cnt)
  /\ ge_at l m max /\ (k <= cnt -> ge_at l m k).
Proof using Hcmp.
  intros Hm Hk Hc. unfold larger. destruct (Z.leb_spec k cnt) as [Hl|Hl].
  2: { exists max. split; [reflexivity|]. split; [auto|]. split; [apply ge_at_refl|lia]. }
  destruct (geti_lt_Some l (k - 1) ltac:(lia)) as (x & Ex).
  destruct (geti_lt_Some l (max - 1) ltac:(lia)) as (y & Ey).
  unfold el_cmp. rewrite Ex, Ey. cbn [the mbind res_bind mret res_ret].
  eexists. split; [reflexivity|]. destruct (Z.ltb_spec 0 (cmp x y)) as [Hp|Hp].
  - split; [auto|]. split; [|intros _; apply ge_at_refl].
    intros x' y' Ex' Ey'. rewrite Ex in Ex'. rewrite Ey in Ey'. injection Ex' as <-.
    injection Ey' as <-. apply cmp_flip, Hp.
  - split; [auto|]. split; [apply ge_at_refl|].
    intros _ x' y' Ex' Ey'. rewrite Ey in Ex'. rewrite Ex in Ey'. injection Ex' as <-.
    injection Ey' as <-. exact Hp.
Qed.

(** Choosing among a node and its children. *)
Lemma pick_max l cnt i :
  1 <= i <= cnt -> cnt <= lenZ l -> cnt < 2 ^ 31 ->
  exists m, (max ← larger el_cmp l cnt (wrap 32 (2 * i)) i;
             larger el_cmp l cnt (wrap 32 (2 * i + 1)) max) = Ret m
  /\ (m = i \/ child i m /\ m <= cnt) /\ ge_at l m i
  /\ (forall c, child i c -> c <= cnt -> ge_at l m c).
Proof using Hcmp.
  intros Hi Hc H31. rewrite !wrap_id by (unfold inU; lia).
  destruct (larger_ok l cnt (2 * i) i) as (m1 & E1 & C1 & G1 & K1); [lia..|].
  rewrite E1. cbn [mbind res_bind].
  destruct (larger_ok l cnt (2 * i + 1) m1) as (m & E & C & G & K); [lia..|].
  exists m. split; [exact E|]. unfold child. split; [lia|].
  assert (1 <= m1 <= lenZ l) by lia. split; [eapply ge_at_trans; eassumption|].
  intros c [-> | ->] Hle; [|auto]. eapply ge_at_trans; [|exact G|]; auto.
Qed.

(** One exchange moves the hole to the child [m]. *)
Lemma hole_down k i m cnt l l' :
  1 <= k <= i -> hole k i cnt l -> child i m -> m <= cnt -> cnt <= lenZ l ->
  ge_at l m i -> (forall c, child i c -> c <= cnt -> ge_at l m c) ->
  swapi l (i - 1) (m - 1) = Some l' -> hole k m cnt l'.
Proof using Hcmp.
  intros Hk [Hr Hu] Him Hm Hlen Gi Gc E.
  assert (Hne : i <> m) by (unfold child in Him; lia).
  assert (Hat : forall j, geti l' (j - 1) = geti l ((if j =? m then i else if j =? i then m else j) - 1)).
  { intros j. rewrite (geti_swapi _ _ _ _ _ E).
    destruct (Z.eqb_spec (j - 1) (m - 1)), (Z.eqb_spec j m); try lia; [reflexivity|].
    destruct (Z.eqb_spec (j - 1) (i - 1)), (Z.eqb_spec j i); try lia; reflexivity. }
  assert (Hge : forall p c, ge_at l (if p =? m then i else if p =? i then m else p)
                              (if c =? m then i else if c =? i then m else c) -> ge_at l' p c).
  { intros p c H x y. rewrite !Hat. apply H. }
  split; intros p c Hp.
  - intros Hpm Hch Hc. apply Hge. unfold child in *. cmp_cases; subst; try lia.
    + exact Gi.
    + apply Gc; auto.
    + apply Hu; auto.
    + apply Hr; auto.
  - intros Hpm Hmc Hc. apply Hge. unfold child in *. cmp_cases; subst; try lia.
    apply Hr; auto; lia.
Qed.

Lemma heapify_ok fuel l k i cnt :
  1 <= k <= i -> i <= cnt -> cnt <= lenZ l -> cnt < 2 ^ 31 -> cnt - i < Z.of_nat fuel ->
  hole k i cnt l ->
  exists l', heapify el_cmp el_swap fuel l i cnt = Ret l' /\ moved cnt l l' /\ heap k cnt l'.
Proof using Hcmp.
  revert l i. induction fuel as [|fuel IH]; intros l i Hk Hi Hc H31 Hf Hh; [lia|].
  cbn [heapify]. destruct (pick_max l cnt i) as (m & E & C & G & K); [lia..|].
  apply bind_Ret in E as (m1 & E1 & E). rewrite E1. cbn [mbind res_bind].
  rewrite E. cbn [mbind res_bind]. destruct (Z.eqb_spec m i) as [->|Hne].
  - exists l. split; [reflexivity|]. split; [apply moved_refl|].
    intros p c Hp Hch Hle. destruct (Z.eq_dec p i) as [->|Hpi]; [apply K; auto|].
    apply (hole_rest _ _ _ _ Hh); auto.
  - destruct C as [|[Hm Hmc]]; [contradiction|].
    assert (1 <= m) by (unfold child in Hm; lia).
    destruct (swapi_Some l (i - 1) (m - 1)) as (l1 & El1); [lia..|].
    unfold el_swap at 2. rewrite El1. cbn [the mbind res_bind].
    assert (M1 : moved cnt l l1) by (apply (swap_moved cnt l i m l1); auto; lia).
    destruct (IH l1 m) as (l' & E' & M' & H'); try (unfold child in Hm; lia);
      [rewrite (moved_len _ _ _ M1); lia|eapply hole_down; eauto|].
    exists l'. split; [exact E'|]. split; [eapply moved_trans; eauto|exact H'].
Qed.

Lemma build_ok n l cnt :
  Z.of_nat n <= cnt -> cnt <= lenZ l -> cnt < 2 ^ 31 -> heap (Z.of_nat n + 1) cnt l ->
  exists l', build_heap el_cmp el_swap n l cnt = Ret l' /\ moved cnt l l' /\ heap 1 cnt l'.
Proof using Hcmp.
  revert l. induction n as [|n IH]; intros l Hn Hc H31 Hh.
  { exists l. split; [reflexivity|]. split; [apply moved_refl|exact Hh]. }
  cbn [build_heap].
  destruct (heapify_ok (heapify_fuel cnt) l (Z.of_nat (S n)) (Z.of_nat (S n)) cnt)
    as (l1 & E1 & M1 & H1); [lia..|unfold heapify_fuel; lia| |].
  { split; intros p c Hp; [intros Hne Hch Hle; apply Hh; auto; lia|].
    intros Hch. unfold child in Hch. lia. }
  rewrite E1. cbn [mbind res_bind].
  destruct (IH l1) as (l' & E' & M' & H'); [lia|rewrite (moved_len _ _ _ M1); lia|lia| |].
  { replace (Z.of_nat n + 1) with (Z.of_nat (S n)) by lia. exact H1. }
  exists l'. split; [exact E'|]. split; [eapply moved_trans; eauto|exact H'].
Qed.

(** The root of a heap is a maximum. *)
Lemma heap_root n cnt l : cnt <= lenZ l -> heap 1 cnt l ->
  forall j, 1 <= j <= cnt -> j < Z.of_nat n -> ge_at l 1 j.
Proof using Hcmp.
  intros Hc Hh. induction n as [|n IH]; intros j Hj Hn; [lia|].
  destruct (Z.eq_dec j 1) as [->|Hne]; [apply ge_at_refl|].
  assert (Hd : child (j / 2) j) by (unfold child; pose proof (Z.div_mod j 2); pose proof (Z.mod_pos_bound j 2); lia).
  assert (1 <= j / 2) by (apply Z.div_le_lower_bound; lia).
  assert (j / 2 < j) by (apply Z.div_lt; lia).
  apply (ge_at_trans l 1 (j / 2) j); [lia|apply IH; lia|apply Hh; auto; lia].
Qed.

(** The part above [i] is in place: nothing before an index above [i] exceeds it. *)
Definition placed (i : Z) (l : list A) : Prop :=
  forall a b, 1 <= a < b -> b <= lenZ l -> i < b -> ge_at l b a.

Lemma drain_step i l l1 l' :
  2 <= i <= lenZ l -> heap 1 i l -> placed i l ->
  swapi l 0 (i - 1) = Some l1 -> moved (i - 1) l1 l' -> placed (i - 1) l'.
Proof using Hcmp.
  intros Hi Hh Hp E M a b Hab Hb Hib.
  assert (M1 : moved i l l1) by (apply (swap_moved i l 1 i l1); auto; lia).
  assert (Hlen : lenZ l' = lenZ l) by (rewrite (moved_len _ _ _ M); apply (moved_len _ _ _ M1)).
  assert (Hfrom : forall j, 1 <= j <= i -> exists j0, 1 <= j0 <= i /\ geti l' (j - 1) = geti l (j0 - 1)).
  { intros j Hj. destruct (moved_from _ _ _ M1 j Hj) as (j1 & H1 & E1).
    destruct (Z.eq_dec j i) as [->|Hne].
    - rewrite (moved_rest _ _ _ M) by lia. eauto.
    - destruct (moved_from _ _ _ M j ltac:(lia)) as (j2 & H2 & ->).
      destruct (moved_from _ _ _ M1 j2 ltac:(lia)) as (j3 & H3 & E3). eauto. }
  assert (Hsrc : exists a0, geti l' (a - 1) = geti l (a0 - 1) /\ 1 <= a0
                 /\ (a0 <= i \/ a0 = a)).
  { destruct (Z_le_gt_dec a i) as [Ha|Ha].
    - destruct (Hfrom a ltac:(lia)) as (a0 & H0 & ->). exists a0. split; [reflexivity|lia].
    - exists a. rewrite (moved_rest _ _ _ M), (moved_rest _ _ _ M1) by lia. split; [reflexivity|lia]. }
  destruct Hsrc as (a0 & Ea & Ha1 & Ha0). intros x y Ex Ey. rewrite Ea in Ey.
  destruct (Z.eq_dec b i) as [->|Hbi].
  - rewrite (moved_rest _ _ _ M), (geti_swapi _ _ _ _ _ E), Z.eqb_refl in Ex by lia.
    apply (heap_root (S (Z.to_nat i)) i l ltac:(lia) Hh a0); [lia..|exact Ex|exact Ey].
  - rewrite (moved_rest _ _ _ M), (moved_rest _ _ _ M1) in Ex by lia.
    apply (Hp a0 b); auto; lia.
Qed.

Lemma drain_ok n l :
  Z.of_nat n <= lenZ l -> Z.of_nat n < 2 ^ 31 -> heap 1 (Z.of_nat n) l -> placed (Z.of_nat n) l ->
  exists l', drain_heap el_cmp el_swap n l = Ret l' /\ l' ≡ₚ l /\ placed 1 l'.
Proof using Hcmp.
  revert l. induction n as [|n IH]; intros l Hn H31 Hh Hp; [|destruct n as [|n]].
  - exists l. split; [reflexivity|]. split; [reflexivity|].
    intros a b Hab Hb _. apply Hp; lia.
  - exists l. split; [reflexivity|]. split; [reflexivity|exact Hp].
  - set (m := S n) in *. cbn [drain_heap]. fold m.
    destruct (swapi_Some l 0 (Z.of_nat (S m) - 1)) as (l1 & E1); [lia..|].
    change (el_swap l 1 (Z.of_nat (S m))) with (the (swapi l 0 (Z.of_nat (S m) - 1))).
    rewrite E1. cbn [the mbind res_bind].
    assert (M1 : moved (Z.of_nat (S m)) l l1) by (apply (swap_moved _ l 1 (Z.of_nat (S m))); auto; lia).
    destruct (heapify_ok (heapify_fuel (Z.of_nat m)) l1 1 1 (Z.of_nat m)) as (l2 & E2 & M2 & H2);
      [lia|lia|rewrite (moved_len _ _ _ M1); lia|lia|unfold heapify_fuel; lia| |].
    { split; intros p c Hpc; [|unfold child; lia]. intros Hne Hch Hle x y.
      unfold child in Hch. rewrite !(geti_swapi _ _ _ _ _ E1).
      rewrite !(proj2 (Z.eqb_neq _ _)) by lia. apply Hh; auto; lia. }
    rewrite E2. cbn [mbind res_bind].
    assert (P2 : placed (Z.of_nat m) l2).
    { replace (Z.of_nat m) with (Z.of_nat (S m) - 1) in * by lia.
      eapply drain_step; eauto. lia. }
    destruct (IH l2) as (l' & E' & M' & P'); auto;
      [rewrite (moved_len _ _ _ M2), (moved_len _ _ _ M1); lia|lia|].
    exists l'. split; [exact E'|]. split; [|exact P'].
    rewrite M', (moved_perm _ _ _ M2). apply (moved_perm _ _ _ M1).
Qed.

Lemma heap_sort_ok l :
  lenZ l < 2 ^ 31 ->
  exists l', heap_sort el_cmp el_swap l (lenZ l) = Ret l' /\ l' ≡ₚ l
  /\ forall a b, 0 <= a < b -> b < lenZ l -> ge_at l' (b + 1) (a + 1).
Proof using Hcmp.
  intros H31. unfold heap_sort. assert (0 <= lenZ l) by (unfold lenZ; lia).
  destruct (build_ok (Z.to_nat (lenZ l / 2)) l (lenZ l)) as (l1 & E1 & M1 & H1); try lia.
  { rewrite Z2Nat.id by (apply Z.div_pos; lia). apply Z.div_le_upper_bound; lia. }
  { rewrite Z2Nat.id by (apply Z.div_pos; lia). intros p c Hp Hch Hle. unfold child in Hch.
    pose proof (Z.mul_succ_div_gt (lenZ l) 2). lia. }
  rewrite E1. cbn [mbind res_bind]. pose proof (moved_len _ _ _ M1) as Hl1.
  destruct (drain_ok (Z.to_nat (lenZ l)) l1) as (l' & E' & P' & O'); rewrite ?Z2Nat.id; try lia.
  { exact H1. }
  { intros a b Hab Hb Hib. lia. }
  exists l'. split; [exact E'|]. split; [rewrite P'; apply (moved_perm _ _ _ M1)|].
  assert (lenZ l' = lenZ l) as Hl' by (unfold lenZ in *; rewrite P'; lia).
  intros a b Hab Hb. apply O'; lia.
Qed.
End Elements.

(** ** Simulation between two arrays with the same algorithm *)

Section Simulation.
Context {T U : Type} (R : T -> U -> Prop) (valid : Z -> Prop).
Context (cmp1 : T -> Z -> Z -> res Z) (swap1 : T -> Z -> Z -> res T).
Context (cmp2 : U -> Z -> Z -> res Z) (swap2 : U -> Z -> Z -> res U).
Hypothesis cmp_sim : forall t u a b c, R t u -> cmp2 u a b = Ret c -> cmp1 t a b = Ret c.
Hypothesis swap_sim : forall t u a b u', R t u -> swap2 u a b = Ret u' ->
  exists t', swap1 t a b = Ret t' /\ R t' u'.

Lemma larger_sim t u cnt k max m :
  R t u -> larger cmp2 u cnt k max = Ret m -> larger cmp1 t cnt k max = Ret m.
Proof using cmp_sim.
  intros Hr. unfold larger. destruct (k <=? cnt); [|auto].
  intros (c & Ec & E)%bind_Ret. rewrite (cmp_sim _ _ _ _ _ Hr Ec). exact E.
Qed.

Lemma heapify_sim fuel t u i cnt u' :
  R t u -> heapify cmp2 swap2 fuel u i cnt = Ret u' ->
  exists t', heapify cmp1 swap1 fuel t i cnt = Ret t' /\ R t' u'.
Proof using cmp_sim swap_sim.
  revert t u i. induction fuel as [|fuel IH]; intros t u i Hr; [discriminate|].
  cbn [heapify]. intros (m1 & E1 & (m & E2 & E)%bind_Ret)%bind_Ret.
  rewrite (larger_sim _ _ _ _ _ _ Hr E1). cbn [mbind res_bind].
  rewrite (larger_sim _ _ _ _ _ _ Hr E2). cbn [mbind res_bind].
  destruct (m =? i); [injection E as <-; eauto|].
  apply bind_Ret in E as (u1 & Es & E). destruct (swap_sim _ _ _ _ _ Hr Es) as (t1 & -> & Hr1).
  cbn [mbind res_bind]. eauto.
Qed.

Lemma build_sim n t u cnt u' :
  R t u -> build_heap cmp2 swap2 n u cnt = Ret u' ->
  exists t', build_heap cmp1 swap1 n t cnt = Ret t' /\ R t' u'.
Proof using cmp_sim swap_sim.
  revert t u. induction n as [|n IH]; intros t u Hr; cbn [build_heap].
  - intros [= <-]. eauto.
  - intros (u1 & E1 & E)%bind_Ret. destruct (heapify_sim _ _ _ _ _ _ Hr E1) as (t1 & -> & Hr1).
    cbn [mbind res_bind]. eauto.
Qed.

Lemma drain_sim n t u u' :
  R t u -> drain_heap cmp2 swap2 n u = Ret u' ->
  exists t', drain_heap cmp1 swap1 n t = Ret t' /\ R t' u'.
Proof using cmp_sim swap_sim.
  revert t u. induction n as [|[|n] IH]; intros t u Hr; [intros [= <-]; eauto..|].
  set (m := S n) in *. cbn [drain_heap]. fold m.
  intros (u1 & E1 & (u2 & E2 & E)%bind_Ret)%bind_Ret.
  destruct (swap_sim _ _ _ _ _ Hr E1) as (t1 & -> & Hr1). cbn [mbind res_bind].
  destruct (heapify_sim _ _ _ _ _ _ Hr1 E2) as (t2 & -> & Hr2). cbn [mbind res_bind].
  apply (IH _ _ Hr2 E).
Qed.

Lemma heap_sort_sim t u cnt u' :
  R t u -> heap_sort cmp2 swap2 u cnt = Ret u' ->
  exists t', heap_sort cmp1 swap1 t cnt = Ret t' /\ R t' u'.
Proof using cmp_sim swap_sim.
  intros Hr. unfold heap_sort. intros (u1 & E1 & E)%bind_Ret.
  destruct (build_sim _ _ _ _ _ Hr E1) as (t1 & -> & Hr1). cbn [mbind res_bind].
  apply (drain_sim _ _ _ _ Hr1 E).
Qed.
End Simulation.

(** ** Bytes represent elements *)

(** The byte array is the concatenation of the elements of [l]. *)
Record represents (size : Z) (array : list Z) (l : list (list Z)) : Prop := {
  rep_len : lenZ array = lenZ l * size;
  rep_el : forall k x, geti l k = Some x ->
    lenZ x = size /\ forall t, 0 <= t < size -> geti array (k * size + t) = geti x t }.

Lemma geti_take_drop (l : list Z) o n t :
  0 <= o -> 0 <= t < n -> geti (take (Z.to_nat n) (drop (Z.to_nat o) l)) t = geti l (o + t).
Proof.
  intros Ho Ht. unfold geti. rewrite !(proj2 (Z.ltb_ge _ _)) by lia.
  rewrite lookup_take_lt by lia. rewrite lookup_drop. f_equal. lia.
Qed.

Lemma bytes_at_represents size array l k x :
  0 < size -> represents size array l -> geti l k = Some x ->
  bytes_at array (k * size) size = Some x.
Proof.
  intros Hs [Hl He] Ek. pose proof (geti_Some_lt _ _ _ Ek) as Hk.
  destruct (He k x Ek) as (Hx & Hb). unfold bytes_at.
  rewrite (proj2 (Z.leb_le _ _)), (proj2 (Z.leb_le _ _)) by nia. cbn [andb]. f_equal.
  apply geti_ext. intros t. destruct (Z_le_gt_dec 0 t) as [H0|H0].
  2: { unfold geti. rewrite !(proj2 (Z.ltb_lt _ _)) by lia. reflexivity. }
  destruct (Z_lt_le_dec t size) as [H1|H1].
  - rewrite geti_take_drop by nia. apply Hb. lia.
  - unfold geti. rewrite !(proj2 (Z.ltb_ge _ _)) by lia.
    rewrite (proj2 (lookup_ge_None _ _)), (proj2 (lookup_ge_None _ _));
      [reflexivity|unfold lenZ in Hx; lia|rewrite length_take; lia].
Qed.

(** The byte loop of [do_swap] exchanges two ranges that are equal or apart. *)
Lemma swap_loop_spec n array a b i size :
  0 <= a -> 0 <= b -> 0 <= i -> i + Z.of_nat n <= size ->
  a + size <= lenZ array -> b + size <= lenZ array ->
  a = b \/ a + size <= b \/ b + size <= a ->
  exists array', swap_loop n array a b i = Ret array' /\ lenZ array' = lenZ array
  /\ forall x, geti array' x =
       if (b + i <=? x) && (x <? b + i + Z.of_nat n) then geti array (x - b + a)
       else if (a + i <=? x) && (x <? a + i + Z.of_nat n) then geti array (x - a + b)
       else geti array x.
Proof.
  revert array i. induction n as [|n IH]; intros array i Ha Hb Hi Hn La Lb Hab.
  - exists array. split; [reflexivity|]. split; [reflexivity|]. intros x.
    cmp_cases; cbn [andb]; try reflexivity; lia.
  - cbn [swap_loop]. destruct (swapi_Some array (a + i) (b + i)) as (a1 & E1); [lia..|].
    rewrite E1. cbn [the mbind res_bind]. pose proof (lenZ_swapi _ _ _ _ E1) as L1.
    destruct (IH a1 (i + 1)) as (a2 & E2 & L2 & G2); try lia.
    exists a2. split; [exact E2|]. split; [lia|]. intros x. rewrite G2.
    rewrite !(geti_swapi _ _ _ _ _ E1).
    destruct (Z.leb_spec (b + i) x), (Z.ltb_spec x (b + i + Z.of_nat (S n)));
      destruct (Z.leb_spec (a + i) x), (Z.ltb_spec x (a + i + Z.of_nat (S n)));
      destruct (Z.leb_spec (b + (i + 1)) x), (Z.ltb_spec x (b + (i + 1) + Z.of_nat n)); try lia;
      destruct (Z.leb_spec (a + (i + 1)) x), (Z.ltb_spec x (a + (i + 1) + Z.of_nat n)); try lia;
      cbn [andb]; cmp_cases; try lia; f_equal; lia.
Qed.

(** Byte [t] of element [k] lies in element [j] only if they are the same. *)
Lemma in_block size j k t :
  0 <= t < size ->
  (j * size <=? k * size + t) && (k * size + t <? j * size + size) = (k =? j).
Proof.
  intros Ht. destruct (Z.eqb_spec k j) as [->|Hne].
  - rewrite (proj2 (Z.leb_le _ _)), (proj2 (Z.ltb_lt _ _)) by lia. reflexivity.
  - destruct (Z.leb_spec (j * size) (k * size + t)); [|reflexivity].
    apply Z.ltb_ge. assert (j < k) by nia. nia.
Qed.

Definition fits (size : Z) (l : list (list Z)) : Prop := 0 < size /\ lenZ l * size < 2 ^ 32.

Lemma ofs_of_idx size l a : fits size l -> 0 <= a - 1 < lenZ l -> ofs_of size a = (a - 1) * size.
Proof. intros (Hs & Hf) Ha. apply wrap_id. unfold inU. nia. Qed.

Lemma do_swap_sim size array l a b l' :
  represents size array l /\ fits size l -> el_swap l a b = Ret l' ->
  exists array', do_swap size array a b = Ret array' /\ represents size array' l' /\ fits size l'.
Proof.
  intros ((Hl & He) & Hf). unfold el_swap. rewrite the_Ret. intros E.
  assert (Hab : 0 <= a - 1 < lenZ l /\ 0 <= b - 1 < lenZ l).
  { pose proof E as E'. unfold swapi in E'. apply bind_Some in E' as (x & Ex & (y & Ey & _)%bind_Some).
    apply geti_Some_lt in Ex, Ey. auto. }
  destruct Hab as (Ha & Hb). pose proof (lenZ_swapi _ _ _ _ E) as Hl'.
  pose proof Hf as (Hs & _). unfold do_swap. rewrite !(ofs_of_idx size l) by assumption.
  destruct (swap_loop_spec (Z.to_nat size) array ((a - 1) * size) ((b - 1) * size) 0 size)
    as (array' & Ea & La & Ga); try nia.
  { destruct (Z.lt_total (a - 1) (b - 1)) as [H|[H|H]]; [right; left; nia|left; congruence|].
    right; right; nia. }
  exists array'. split; [exact Ea|]. split; [|unfold fits in *; rewrite Hl'; exact Hf].
  split; [rewrite La, Hl'; exact Hl|]. intros k x Ek. rewrite (geti_swapi _ _ _ _ _ E) in Ek.
  assert (Hx : exists k0, geti l k0 = Some x
                /\ k0 = (if k =? b - 1 then a - 1 else if k =? a - 1 then b - 1 else k))
    by (destruct (k =? b - 1); [|destruct (k =? a - 1)]; eauto).
  destruct Hx as (k0 & Ek0 & Hk0). destruct (He k0 x Ek0) as (Hx & Hb0). split; [exact Hx|].
  intros t Ht. rewrite Ga, !Z.add_0_r, Z2Nat.id, !in_block by lia. rewrite <- Hb0 by exact Ht.
  rewrite Hk0. destruct (Z.eqb_spec k (b - 1)); [f_equal; nia|].
  destruct (Z.eqb_spec k (a - 1)); [f_equal; nia|reflexivity].
Qed.

Lemma do_compare_sim compare size array l a b c :
  represents size array l /\ fits size l -> el_cmp compare l a b = Ret c ->
  do_compare compare size array a b = Ret c.
Proof.
  intros (Hr & Hf). unfold el_cmp. intros (x & Ex & (y & Ey & E)%bind_Ret)%bind_Ret.
  rewrite the_Ret in Ex, Ey. unfold do_compare.
  rewrite !(ofs_of_idx size l) by (try assumption; eapply geti_Some_lt; eassumption).
  rewrite (bytes_at_represents size array l (a - 1) x), (bytes_at_represents size array l (b - 1) y)
    by (assumption || exact (proj1 Hf)). exact E.
Qed.

(** The elements of an array of [cnt] elements. *)
Definition elements (size cnt : Z) (array : list Z) : list (list Z) :=
  (fun k => take (Z.to_nat size) (drop (k * Z.to_nat size) array)) <$> seq 0 (Z.to_nat cnt).

Lemma lenZ_elements size cnt array : 0 <= cnt -> lenZ (elements size cnt array) = cnt.
Proof. intros H. unfold lenZ, elements. rewrite length_fmap, length_seq. lia. Qed.

Lemma geti_elements size cnt array k :
  0 < size -> 0 <= k < cnt ->
  geti (elements size cnt array) k
  = Some (take (Z.to_nat size) (drop (Z.to_nat (k * size)) array)).
Proof.
  intros Hs Hk. unfold geti, elements. rewrite (proj2 (Z.ltb_ge _ _)) by lia.
  rewrite list_lookup_fmap, lookup_seq_lt by lia. cbn. do 3 f_equal. nia.
Qed.

Lemma elements_represents size cnt array :
  0 < size -> 0 <= cnt -> lenZ array = cnt * size ->
  represents size array (elements size cnt array).
Proof.
  intros Hs Hc Hl. split; [rewrite lenZ_elements by lia; exact Hl|]. intros k x Ek.
  pose proof (geti_Some_lt _ _ _ Ek) as Hk. rewrite lenZ_elements in Hk by lia.
  rewrite geti_elements in Ek by lia. injection Ek as <-. split.
  - unfold lenZ in *. rewrite length_take, length_drop. nia.
  - intros t Ht. rewrite geti_take_drop by nia. reflexivity.
Qed.

Lemma represents_elements size array l :
  0 < size -> represents size array l -> elements size (lenZ l) array = l.
Proof.
  intros Hs Hr. assert (0 <= lenZ l) by (unfold lenZ; lia). apply geti_ext. intros k.
  destruct (decide (0 <= k < lenZ l)) as [Hk|Hk].
  - rewrite geti_elements by lia. destruct (geti_lt_Some l k Hk) as (x & Ex). rewrite Ex.
    pose proof (bytes_at_represents _ _ _ _ _ Hs Hr Ex) as E. unfold bytes_at in E.
    destruct (_ && _) in E; [exact E|discriminate].
  - destruct (geti l k) as [x|] eqn:E1; [apply geti_Some_lt in E1; lia|].
    destruct (geti (elements size (lenZ l) array) k) as [x|] eqn:E2; [|reflexivity].
    apply geti_Some_lt in E2. rewrite lenZ_elements in E2 by lia. lia.
Qed.

(** Elements in the order of [compare]. *)
Definition ascending (compare : list Z -> list Z -> Z) (l : list (list Z)) : Prop :=
  forall i j x y, i < j -> geti l i = Some x -> geti l j = Some y -> compare x y <= 0.

(** ** Properties *)

(** C24: for a total order given as a [strcmp]-type function, [sort] returns,
    keeps the array's size, permutes its elements as blocks of [size] bytes and
    leaves them in ascending order. *)
Theorem sort_sorts array cnt size compare :
  comparison compare -> 0 < size -> 0 <= cnt < 2 ^ 31 -> cnt * size < 2 ^ 32 ->
  lenZ array = cnt * size ->
  exists array', sort array cnt size compare = Ret array' /\ lenZ array' = lenZ array
  /\ elements size cnt array' ≡ₚ elements size cnt array
  /\ ascending compare (elements size cnt array').
Proof.
  intros Hc Hs Hn Hf Hl. set (l := elements size cnt array).
  assert (Ll : lenZ l = cnt) by (apply lenZ_elements; lia).
  destruct (heap_sort_ok compare Hc l) as (l' & E & P & O); [lia|]. rewrite Ll in E, O.
  assert (Ll' : lenZ l' = cnt) by (unfold lenZ in *; rewrite P; exact Ll).
  destruct (heap_sort_sim (fun t u => represents size t u /\ fits size u)
    (do_compare compare size) (do_swap size) (el_cmp compare) el_swap) with (t := array) (u := l)
    (cnt := cnt) (u' := l') as (array' & E' & Hr & _); try exact E.
  - intros. eapply do_compare_sim; eassumption.
  - intros. eapply do_swap_sim; eassumption.
  - split; [apply elements_represents; lia|unfold fits; lia].
  - exists array'. unfold sort. rewrite (proj2 (Z.ltb_lt _ _) Hs). split; [exact E'|].
    split; [rewrite (rep_len _ _ _ Hr), Ll', Hl; reflexivity|].
    pose proof (represents_elements _ _ _ Hs Hr) as Hel. rewrite Ll' in Hel. rewrite Hel.
    split; [exact P|]. intros i j x y Hij Ex Ey.
    pose proof (geti_Some_lt _ _ _ Ex). pose proof (geti_Some_lt _ _ _ Ey).
    apply (O i j); [lia|lia| |]; rewrite Z.add_simpl_r; assumption.
Qed.

(** A comparison of one-byte elements. *)
Definition cmp_first (x y : list Z) : Z := default 0 (head x) - default 0 (head y).

Lemma cmp_first_comparison : comparison cmp_first.
Proof. split; unfold cmp_first; intros; lia. Qed.

Lemma sort_sorts_witness :
  exists array', sort [7; 1; 9; 1; 3] 5 1 cmp_first = Ret array' /\ lenZ array' = 5
  /\ elements 1 5 array' ≡ₚ elements 1 5 [7; 1; 9; 1; 3]
  /\ ascending cmp_first (elements 1 5 array').
Proof.
  apply (sort_sorts [7; 1; 9; 1; 3] 5 1 cmp_first);
    [exact cmp_first_comparison|reflexivity|lia|reflexivity|reflexivity].
Defined.

Lemma search_loop_ok key array l size compare fuel f g :
  comparison compare -> 0 < size -> represents size array l -> ascending compare l ->
  0 <= f <= g -> g <= lenZ l -> g - f < Z.of_nat fuel ->
  (forall k x, geti l k = Some x -> compare key x = 0 -> f <= k < g) ->
  exists r, search_loop fuel key array size (f * size) (g * size) compare = Ret r
  /\ match r with
     | Some ofs => exists k x, ofs = k * size /\ geti l k = Some x /\ compare key x = 0
     | None => forall k x, geti l k = Some x -> compare key x <> 0
     end.
Proof.
  intros Hc Hs Hr Ho. revert f g. induction fuel as [|fuel IH]; intros f g Hfg Hg Hf Hin; [lia|].
  cbn [search_loop]. destruct (Z.ltb_spec (f * size) (g * size)) as [Hlt|Hge].
  2: { exists None. split; [reflexivity|]. intros k x Ek E0. specialize (Hin k x Ek E0). nia. }
  replace ((g * size - f * size) / size) with (g - f)
    by (rewrite <- Z.mul_sub_distr_r, Z.div_mul by lia; reflexivity).
  set (m := f + (g - f) / 2).
  assert (Hm : f <= m < g).
  { unfold m. pose proof (Z.div_pos (g - f) 2). pose proof (Z.div_lt (g - f) 2). nia. }
  replace (f * size + (g - f) / 2 * size) with (m * size) by (unfold m; lia).
  destruct (geti_lt_Some l m ltac:(lia)) as (x & Ex).
  rewrite (bytes_at_represents size array l m x Hs Hr Ex). cbn [the mbind res_bind].
  destruct (Z.ltb_spec (compare key x) 0) as [Hneg|Hpos0].
  - apply IH; try lia. intros k y Ek E0. specialize (Hin k y Ek E0). split; [lia|].
    destruct (Z.lt_ge_cases k m) as [|Hkm]; [assumption|exfalso].
    assert (compare x y <= 0).
    { destruct (Z.eq_dec k m) as [->|]; [|apply (Ho m k); auto; lia].
      rewrite Ex in Ek. injection Ek as <-. apply cmp_refl, Hc. }
    assert (compare y key <= 0) by (pose proof (cmp_anti _ Hc y key); lia).
    pose proof (cmp_trans _ Hc x y key). pose proof (cmp_anti _ Hc x key). lia.
  - destruct (Z.ltb_spec 0 (compare key x)) as [Hpos|H0].
    + replace (m * size + size) with ((m + 1) * size) by lia.
      apply IH; try lia. intros k y Ek E0. specialize (Hin k y Ek E0). split; [|lia].
      destruct (Z.lt_ge_cases m k) as [|Hkm]; [lia|exfalso].
      assert (compare y x <= 0).
      { destruct (Z.eq_dec k m) as [->|]; [|apply (Ho k m); auto; lia].
        rewrite Ex in Ek. injection Ek as <-. apply cmp_refl, Hc. }
      pose proof (cmp_trans _ Hc key y x). lia.
    + eexists. split; [reflexivity|]. exists m, x. split; [reflexivity|]. split; [exact Ex|lia].
Qed.

(** On an array in ascending order, [binary_search] returns, and finds an
    element equal to the key if and only if there is one. *)
Theorem binary_search_finds key array cnt size compare :
  comparison compare -> 0 < size -> 0 <= cnt -> cnt * size < 2 ^ 32 ->
  lenZ array = cnt * size -> ascending compare (elements size cnt array) ->
  exists r, binary_search key array cnt size compare = Ret r
  /\ match r with
     | Some ofs => exists k x, ofs = k * size /\ geti (elements size cnt array) k = Some x
                               /\ compare key x = 0
     | None => forall k x, geti (elements size cnt array) k = Some x -> compare key x <> 0
     end.
Proof.
  intros Hc Hs Hn Hf Hl Ho. unfold binary_search.
  rewrite wrap_id by (unfold inU; nia). rewrite (Z.mul_comm size cnt).
  apply (search_loop_ok key array (elements size cnt array) size compare _ 0 cnt); auto; try lia.
  - apply elements_represents; auto.
  - rewrite lenZ_elements; lia.
  - intros k x Ek _. apply geti_Some_lt in Ek. rewrite lenZ_elements in Ek; lia.
Qed.

Lemma binary_search_finds_witness :
  exists r, binary_search [4] [1; 3; 4; 8] 4 1 cmp_first = Ret r
  /\ match r with
     | Some ofs => exists k x, ofs = k * 1 /\ geti (elements 1 4 [1; 3; 4; 8]) k = Some x
                               /\ cmp_first [4] x = 0
     | None => forall k x, geti (elements 1 4 [1; 3; 4; 8]) k = Some x -> cmp_first [4] x <> 0
     end.
Proof.
  apply (binary_search_finds [4] [1; 3; 4; 8] 4 1 cmp_first);
    [exact cmp_first_comparison|lia|lia|lia|reflexivity|].
  change (elements 1 4 [1; 3; 4; 8]) with [[1]; [3]; [4]; [8]].
  intros i j x y Hij Ex Ey.
  pose proof (geti_Some_lt _ _ _ Ex) as Hi. pose proof (geti_Some_lt _ _ _ Ey) as Hj.
  change (lenZ [[1]; [3]; [4]; [8]]) with 4 in Hi, Hj.
  assert (i = 0 \/ i = 1 \/ i = 2) as [-> | [-> | ->]] by lia;
    (assert (j = 1 \/ j = 2 \/ j = 3) as [-> | [-> | ->]] by lia); try lia;
    cbv in Ex, Ey; injection Ex as <-; injection Ey as <-; cbv; discriminate.
Defined.
