(* ===== verification/Dlist.v ===== *)
(** * Doubly linked lists

    [lib/list.c]: lists threaded through their elements.  The memory is the
    [prev] and [next] fields of every list element, by address; a list at
    address [l] has its head element at [l] and its tail element at [l + 8].
    Reading or writing through a pointer that is not an element is a fault. *)

From Stdlib Require Import ZArith Lia Bool Sorting.Sorted.
From stdpp Require Import base list gmap.
From S2P Require Import Prelude.

Definition NULL : Z := 0.

Record heap := mk_heap { prevs : gmap Z Z; nexts : gmap Z Z }.

Definition get_prev (e : Z) : st heap Z := fun h =>
  match prevs h !! e with Some p => Ret (p, h) | None => Stop Fault end.
Definition get_next (e : Z) : st heap Z := fun h =>
  match nexts h !! e with Some p => Ret (p, h) | None => Stop Fault end.
Definition set_prev (e p : Z) : st heap unit := fun h =>
  match prevs h !! e with
  | Some _ => Ret (tt, mk_heap (<[e := p]> (prevs h)) (nexts h))
  | None => Stop Fault
  end.
Definition set_next (e p : Z) : st heap unit := fun h =>
  match nexts h !! e with
  | Some _ => Ret (tt, mk_heap (prevs h) (<[e := p]> (nexts h)))
  | None => Stop Fault
  end.

Definition head_of (l : Z) : Z := l.
Definition tail_of (l : Z) : Z := l + 8.

Definition is_null (p : Z) : bool := p =? NULL.

Definition is_head (e : Z) : st heap bool :=
  if is_null e then mret false
  else p ← get_prev e; if is_null p then n ← get_next e; mret (negb (is_null n)) else mret false.
Definition is_interior (e : Z) : st heap bool :=
  if is_null e then mret false
  else p ← get_prev e; if is_null p then mret false else n ← get_next e; mret (negb (is_null n)).
Definition is_tail (e : Z) : st heap bool :=
  if is_null e then mret false
  else p ← get_prev e; if is_null p then mret false else n ← get_next e; mret (is_null n).

(** [ASSERT (a || b)], evaluated lazily. *)
Definition assert_or (a b : st heap bool) : st heap unit :=
  x ← a;
  if (x : bool) then mret tt else y ← b; lift (assert y).

Definition list_init (l : Z) : st heap unit :=
  lift (assert (negb (is_null l)));;
  set_prev (head_of l) NULL;;
  set_next (head_of l) (tail_of l);;
  set_prev (tail_of l) (head_of l);;
  set_next (tail_of l) NULL.

Definition list_begin (l : Z) : st heap Z :=
  lift (assert (negb (is_null l)));; get_next (head_of l).
Definition list_end (l : Z) : st heap Z :=
  lift (assert (negb (is_null l)));; mret (tail_of l).
Definition list_rbegin (l : Z) : st heap Z :=
  lift (assert (negb (is_null l)));; get_prev (tail_of l).
Definition list_rend (l : Z) : st heap Z :=
  lift (assert (negb (is_null l)));; mret (head_of l).
Definition list_head (l : Z) : st heap Z := list_rend l.
Definition list_tail (l : Z) : st heap Z := list_end l.

Definition list_next (e : Z) : st heap Z := assert_or (is_head e) (is_interior e);; get_next e.
Definition list_prev (e : Z) : st heap Z := assert_or (is_interior e) (is_tail e);; get_prev e.

Definition list_insert (before elem : Z) : st heap unit :=
  assert_or (is_interior before) (is_tail before);;
  lift (assert (negb (is_null elem)));;
  p ← get_prev before;
  set_prev elem p;;
  set_next elem before;;
  p ← get_prev before;
  set_next p elem;;
  set_prev before elem.

Definition list_splice (before first last : Z) : st heap unit :=
  assert_or (is_interior before) (is_tail before);;
  if first =? last then mret tt
  else
    last ← list_prev last;
    i ← is_interior first; lift (assert i);;
    i ← is_interior last; lift (assert i);;
    fp ← get_prev first;
    ln ← get_next last;
    set_next fp ln;;
    ln ← get_next last;
    fp ← get_prev first;
    set_prev ln fp;;
    bp ← get_prev before;
    set_prev first bp;;
    set_next last before;;
    bp ← get_prev before;
    set_next bp first;;
    set_prev before last.

Definition list_push_front (l elem : Z) : st heap unit := b ← list_begin l; list_insert b elem.
Definition list_push_back (l elem : Z) : st heap unit := e ← list_end l; list_insert e elem.

Definition list_remove (elem : Z) : st heap Z :=
  i ← is_interior elem; lift (assert i);;
  p ← get_prev elem;
  n ← get_next elem;
  set_next p n;;
  n ← get_next elem;
  p ← get_prev elem;
  set_prev n p;;
  get_next elem.

Definition list_empty (l : Z) : st heap bool :=
  b ← list_begin l; e ← list_end l; mret (b =? e).
Definition list_front (l : Z) : st heap Z :=
  e ← list_empty l; lift (assert (negb e));; get_next (head_of l).
Definition list_back (l : Z) : st heap Z :=
  e ← list_empty l; lift (assert (negb e));; get_prev (tail_of l).
Definition list_pop_front (l : Z) : st heap Z :=
  front ← list_front l;
  lift (assert (negb (is_null front)));;
  list_remove front;;
  mret front.
Definition list_pop_back (l : Z) : st heap Z :=
  back ← list_back l; list_remove back;; mret back.

(** Loops follow at most [fuel] links. *)
Fixpoint size_loop (fuel : nat) (l e cnt : Z) : st heap Z :=
  match fuel with
  | O => stop_with NoFuel
  | S fuel =>
      t ← list_end l;
      if e =? t then mret cnt
      else e ← list_next e; size_loop fuel l e (wrap 32 (cnt + 1))
  end.
Definition list_size (fuel : nat) (l : Z) : st heap Z := e ← list_begin l; size_loop fuel l e 0.

(** ** Ordered operations; [less] compares two elements *)

Section Ordered.
Context (less : Z -> Z -> bool).

Fixpoint ordered_loop (fuel : nat) (l e elem : Z) : st heap Z :=
  match fuel with
  | O => stop_with NoFuel
  | S fuel =>
      t ← list_end l;
      if e =? t then mret e
      else if less elem e then mret e
      else e ← list_next e; ordered_loop fuel l e elem
  end.
Definition list_insert_ordered (fuel : nat) (l elem : Z) : st heap unit :=
  lift (assert (negb (is_null l)));;
  lift (assert (negb (is_null elem)));;
  e ← list_begin l;
  e ← ordered_loop fuel l e elem;
  list_insert e elem.

(** [list_max] and [list_min] keep [best] and replace it when [better]. *)
Fixpoint best_loop (fuel : nat) (better : Z -> Z -> bool) (l e best : Z) : st heap Z :=
  match fuel with
  | O => stop_with NoFuel
  | S fuel =>
      t ← list_end l;
      if e =? t then mret best
      else
        let best := if better best e then e else best in
        e ← list_next e; best_loop fuel better l e best
  end.
Definition list_best (fuel : nat) (better : Z -> Z -> bool) (l : Z) : st heap Z :=
  max ← list_begin l;
  t ← list_end l;
  if max =? t then mret max else e ← list_next max; best_loop fuel better l e max.
Definition list_max (fuel : nat) (l : Z) : st heap Z := list_best fuel (fun m e => less m e) l.
Definition list_min (fuel : nat) (l : Z) : st heap Z := list_best fuel (fun m e => less e m) l.

Fixpoint unique_loop (fuel : nat) (l dups elem : Z) : st heap unit :=
  match fuel with
  | O => stop_with NoFuel
  | S fuel =>
      next ← list_next elem;
      t ← list_end l;
      if next =? t then mret tt
      else if negb (less elem next) && negb (less next elem) then
        list_remove next;;
        (if is_null dups then mret tt else list_push_back dups next);;
        unique_loop fuel l dups elem
      else unique_loop fuel l dups next
  end.
Definition list_unique (fuel : nat) (l dups : Z) : st heap unit :=
  e ← list_empty l;
  if (e : bool) then mret tt else elem ← list_begin l; unique_loop fuel l dups elem.
(** [is_sorted] looks at each element after the first and its predecessor. *)
Fixpoint is_sorted_loop (fuel : nat) (a b : Z) : st heap bool :=
  match fuel with
  | O => stop_with NoFuel
  | S fuel =>
      a ← list_next a;
      if a =? b then mret true
      else p ← list_prev a; if less a p then mret false else is_sorted_loop fuel a b
  end.
Definition is_sorted (fuel : nat) (a b : Z) : st heap bool :=
  if a =? b then mret true else is_sorted_loop fuel a b.

Fixpoint run_loop (fuel : nat) (a b : Z) : st heap Z :=
  match fuel with
  | O => stop_with NoFuel
  | S fuel =>
      a ← list_next a;
      if a =? b then mret a
      else p ← list_prev a; if less a p then mret a else run_loop fuel a b
  end.
Definition find_end_of_run (fuel : nat) (a b : Z) : st heap Z :=
  lift (assert (negb (is_null a)));;
  lift (assert (negb (is_null b)));;
  lift (assert (negb (a =? b)));;
  run_loop fuel a b.

Fixpoint merge_loop (fuel : nat) (a0 a1b0 b1 : Z) : st heap unit :=
  match fuel with
  | O => stop_with NoFuel
  | S fuel =>
      if (a0 =? a1b0) || (a1b0 =? b1) then mret tt
      else if negb (less a1b0 a0) then
        a0 ← list_next a0; merge_loop fuel a0 a1b0 b1
      else
        a1b0 ← list_next a1b0;
        p ← list_prev a1b0;
        list_splice a0 p a1b0;;
        merge_loop fuel a0 a1b0 b1
  end.
Definition inplace_merge (fuel : nat) (a0 a1b0 b1 : Z) : st heap unit :=
  lift (assert (negb (is_null a0)));;
  lift (assert (negb (is_null a1b0)));;
  lift (assert (negb (is_null b1)));;
  s ← is_sorted fuel a0 a1b0; lift (assert s);;
  s ← is_sorted fuel a1b0 b1; lift (assert s);;
  merge_loop fuel a0 a1b0 b1.

(** One pass over the list from [a0]; returns the number of runs output. *)
Fixpoint pass_loop (fuel : nat) (l a0 output_run_cnt : Z) : st heap Z :=
  match fuel with
  | O => stop_with NoFuel
  | S f =>
      t ← list_end l;
      if a0 =? t then mret output_run_cnt
      else
        let output_run_cnt := wrap 32 (output_run_cnt + 1) in
        a1b0 ← find_end_of_run fuel a0 t;
        if a1b0 =? t then mret output_run_cnt
        else
          b1 ← find_end_of_run fuel a1b0 t;
          inplace_merge fuel a0 a1b0 b1;;
          pass_loop f l b1 output_run_cnt
  end.
Fixpoint sort_loop (passes fuel : nat) (l : Z) : st heap unit :=
  match passes with
  | O => stop_with NoFuel
  | S passes =>
      a0 ← list_begin l;
      output_run_cnt ← pass_loop fuel l a0 0;
      if output_run_cnt >? 1 then sort_loop passes fuel l else mret tt
  end.
Definition list_sort (fuel : nat) (l : Z) : st heap unit :=
  lift (assert (negb (is_null l)));;
  sort_loop fuel fuel l;;
  b ← list_begin l;
  t ← list_end l;
  s ← is_sorted fuel b t;
  lift (assert s).
End Ordered.

(** ** Representation *)

(** From [a] on, the elements [l] follow, linked both ways. *)
Fixpoint links (h : heap) (a : Z) (l : list Z) : Prop :=
  match l with
  | [] => True
  | b :: l => nexts h !! a = Some b /\ prevs h !! b = Some a /\ links h b l
  end.

(** The list at [l] holds the elements [xs]. *)
Record dlist (h : heap) (l : Z) (xs : list Z) : Prop := {
  dl_links : links h (head_of l) (xs ++ [tail_of l]);
  dl_nodup : NoDup (head_of l :: xs ++ [tail_of l]);
  dl_null : NULL ∉ head_of l :: xs ++ [tail_of l];
  dl_first : prevs h !! head_of l = Some NULL;
  dl_last : nexts h !! tail_of l = Some NULL }.

(** The addresses of a list, sentinels included. *)
Definition span (l : Z) (xs : list Z) : list Z := head_of l :: xs ++ [tail_of l].

Definition same_at (h h' : heap) (a : Z) : Prop :=
  prevs h' !! a = prevs h !! a /\ nexts h' !! a = nexts h !! a.

Definition allocated (h : heap) (e : Z) : Prop := is_Some (prevs h !! e) /\ is_Some (nexts h !! e).

(** The last element of [a :: l]. *)
Fixpoint lst (a : Z) (l : list Z) : Z := match l with [] => a | b :: l => lst b l end.

(** The element at the start of the suffix [S] of the list at [l], or its tail. *)
Definition at_pos (l : Z) (S : list Z) : Z := hd (tail_of l) S.

Lemma lst_in a l : lst a l ∈ a :: l.
Proof.
  revert a. induction l as [|b l IH]; intros a; cbn [lst]; [constructor|]. constructor. apply IH.
Qed.

Lemma lst_app a l1 l2 : lst a (l1 ++ l2) = lst (lst a l1) l2.
Proof. revert a. induction l1 as [|b l1 IH]; intros a; cbn [lst app]; auto. Qed.

Lemma at_pos_in l S : at_pos l S ∈ S ++ [tail_of l].
Proof. destruct S; cbn; constructor. Qed.

Lemma suffix_cons l S : exists R, S ++ [tail_of l] = at_pos l S :: R.
Proof. destruct S; cbn; eexists; reflexivity. Qed.

Lemma links_app h a l1 l2 : links h a (l1 ++ l2) <-> links h a l1 /\ links h (lst a l1) l2.
Proof.
  revert a. induction l1 as [|b l1 IH]; intros a; cbn [app links lst]; [tauto|]. rewrite IH. tauto.
Qed.

Lemma links_frame h h' a l :
  links h a l -> NoDup (a :: l) ->
  (forall x, x ∈ a :: l -> x <> lst a l -> nexts h' !! x = nexts h !! x) ->
  (forall y, y ∈ l -> prevs h' !! y = prevs h !! y) -> links h' a l.
Proof.
  revert a. induction l as [|b l IH]; intros a; cbn [links lst]; [easy|].
  intros (H1 & H2 & H3) [Ha Hl]%NoDup_cons Hn Hp.
  rewrite Hn, Hp by (try constructor; intros ->; apply Ha, lst_in).
  split; [exact H1|]. split; [exact H2|].
  apply IH; [exact H3|exact Hl| |]; intros x Hx; [intros Hne; apply Hn|apply Hp]; try assumption;
    constructor; exact Hx.
Qed.

(** A list is not affected by changes elsewhere. *)
Lemma dlist_frame h h' l xs :
  dlist h l xs -> (forall a, a ∈ span l xs -> same_at h h' a) -> dlist h' l xs.
Proof.
  intros [Hl Hn H0 Hf Hla] Hs. unfold span, same_at in Hs. split; auto.
  - apply (links_frame h); [exact Hl|exact Hn| |]; intros x Hx; [intros _|]; apply Hs; [|constructor];
      exact Hx.
  - rewrite <- Hf. apply Hs. constructor.
  - rewrite <- Hla. apply Hs. constructor. apply elem_of_app. right. constructor.
Qed.

(** ** Elementary steps *)

Lemma get_prev_run h e p : prevs h !! e = Some p -> get_prev e h = Ret (p, h).
Proof. unfold get_prev. intros ->. reflexivity. Qed.
Lemma get_next_run h e n : nexts h !! e = Some n -> get_next e h = Ret (n, h).
Proof. unfold get_next. intros ->. reflexivity. Qed.
Lemma set_prev_run h e p : is_Some (prevs h !! e) ->
  set_prev e p h = Ret (tt, mk_heap (<[e := p]> (prevs h)) (nexts h)).
Proof. unfold set_prev. intros (q & ->). reflexivity. Qed.
Lemma set_next_run h e n : is_Some (nexts h !! e) ->
  set_next e n h = Ret (tt, mk_heap (prevs h) (<[e := n]> (nexts h))).
Proof. unfold set_next. intros (q & ->). reflexivity. Qed.

Lemma st_bind_run {S A B} (m : st S A) (f : A -> st S B) s a s' :
  m s = Ret (a, s') -> (m ≫= f) s = f a s'.
Proof. unfold mbind, st_bind. intros ->. reflexivity. Qed.

Lemma st_bind_stop {S A B} (m : st S A) (f : A -> st S B) s e :
  m s = Stop e -> (m ≫= f) s = Stop e.
Proof. unfold mbind, st_bind. intros ->. reflexivity. Qed.

Lemma null_false p : p <> NULL -> is_null p = false.
Proof. apply Z.eqb_neq. Qed.

Lemma is_interior_run h e p n :
  e <> NULL -> prevs h !! e = Some p -> nexts h !! e = Some n ->
  is_interior e h = Ret (negb (is_null p) && negb (is_null n), h).
Proof.
  intros He Hp Hn. unfold is_interior. rewrite (null_false e He).
  rewrite (st_bind_run _ _ _ _ _ (get_prev_run _ _ _ Hp)).
  destruct (is_null p); [reflexivity|]. rewrite (st_bind_run _ _ _ _ _ (get_next_run _ _ _ Hn)).
  reflexivity.
Qed.

Lemma is_tail_run h e p n :
  e <> NULL -> prevs h !! e = Some p -> nexts h !! e = Some n ->
  is_tail e h = Ret (negb (is_null p) && is_null n, h).
Proof.
  intros He Hp Hn. unfold is_tail. rewrite (null_false e He).
  rewrite (st_bind_run _ _ _ _ _ (get_prev_run _ _ _ Hp)).
  destruct (is_null p); [reflexivity|]. rewrite (st_bind_run _ _ _ _ _ (get_next_run _ _ _ Hn)).
  reflexivity.
Qed.

Lemma is_head_run h e p n :
  e <> NULL -> prevs h !! e = Some p -> nexts h !! e = Some n ->
  is_head e h = Ret (is_null p && negb (is_null n), h).
Proof.
  intros He Hp Hn. unfold is_head. rewrite (null_false e He).
  rewrite (st_bind_run _ _ _ _ _ (get_prev_run _ _ _ Hp)).
  destruct (is_null p); [|reflexivity]. rewrite (st_bind_run _ _ _ _ _ (get_next_run _ _ _ Hn)).
  reflexivity.
Qed.

(** Interior or tail: any element with a predecessor. *)
Lemma assert_interior_or_tail h e p n :
  e <> NULL -> p <> NULL -> prevs h !! e = Some p -> nexts h !! e = Some n ->
  assert_or (is_interior e) (is_tail e) h = Ret (tt, h).
Proof.
  intros He Hp0 Hp Hn. unfold assert_or.
  rewrite (st_bind_run _ _ _ _ _ (is_interior_run _ _ _ _ He Hp Hn)), (null_false p Hp0).
  cbn [negb andb]. destruct (is_null n) eqn:En; cbn [negb]; [|reflexivity].
  rewrite (st_bind_run _ _ _ _ _ (is_tail_run _ _ _ _ He Hp Hn)), (null_false p Hp0), En. reflexivity.
Qed.

(** Head or interior: any element with a successor. *)
Lemma assert_head_or_interior h e p n :
  e <> NULL -> n <> NULL -> prevs h !! e = Some p -> nexts h !! e = Some n ->
  assert_or (is_head e) (is_interior e) h = Ret (tt, h).
Proof.
  intros He Hn0 Hp Hn. unfold assert_or.
  rewrite (st_bind_run _ _ _ _ _ (is_head_run _ _ _ _ He Hp Hn)), (null_false n Hn0).
  destruct (is_null p) eqn:Ep; cbn [negb andb]; [reflexivity|].
  rewrite (st_bind_run _ _ _ _ _ (is_interior_run _ _ _ _ He Hp Hn)), (null_false n Hn0), Ep.
  reflexivity.
Qed.

Lemma list_next_run h e p n :
  e <> NULL -> n <> NULL -> prevs h !! e = Some p -> nexts h !! e = Some n ->
  list_next e h = Ret (n, h).
Proof.
  intros He Hn0 Hp Hn. unfold list_next.
  rewrite (st_bind_run _ _ _ _ _ (assert_head_or_interior _ _ _ _ He Hn0 Hp Hn)).
  apply get_next_run, Hn.
Qed.

Lemma list_prev_run h e p n :
  e <> NULL -> p <> NULL -> prevs h !! e = Some p -> nexts h !! e = Some n ->
  list_prev e h = Ret (p, h).
Proof.
  intros He Hp0 Hp Hn. unfold list_prev.
  rewrite (st_bind_run _ _ _ _ _ (assert_interior_or_tail _ _ _ _ He Hp0 Hp Hn)).
  apply get_prev_run, Hp.
Qed.

(** ** Iteration *)

Lemma dlist_nonnull h l xs : dlist h l xs -> is_null l = false.
Proof. intros [_ _ H _ _]. apply null_false. intros ->. apply H. constructor. Qed.

(** What the fields around a position hold. *)
Lemma dlist_at h l P S :
  dlist h l (P ++ S) ->
  nexts h !! lst (head_of l) P = Some (at_pos l S) /\ prevs h !! at_pos l S = Some (lst (head_of l) P) /\
  lst (head_of l) P <> NULL /\ at_pos l S <> NULL /\ is_Some (nexts h !! at_pos l S).
Proof.
  intros [Hl Hn H0 Hf Hla]. rewrite <- app_assoc in Hl, H0.
  apply links_app in Hl as (_ & Hl).
  assert (lst (head_of l) P <> NULL) by (intros E; apply H0; rewrite app_comm_cons, elem_of_app, <- E;
    left; apply lst_in).
  assert (at_pos l S <> NULL) by (intros E; apply H0; rewrite app_comm_cons, elem_of_app, <- E;
    right; apply at_pos_in).
  destruct S as [|x S]; cbn [at_pos hd] in *; [|destruct (suffix_cons l S) as [R HR]].
  - destruct Hl as (Hx & Hy & _). eauto 10.
  - cbn [app] in Hl. rewrite HR in Hl. destruct Hl as (Hx & Hy & Hz & _). eauto 10.
Qed.

Lemma list_begin_at h l xs : dlist h l xs -> list_begin l h = Ret (at_pos l xs, h).
Proof.
  intros H. unfold list_begin. rewrite (dlist_nonnull _ _ _ H).
  destruct (dlist_at h l [] xs H) as (H1 & _). apply get_next_run, H1.
Qed.

Lemma list_end_at h l xs : dlist h l xs -> list_end l h = Ret (tail_of l, h).
Proof. intros H. unfold list_end. rewrite (dlist_nonnull _ _ _ H). reflexivity. Qed.

Lemma list_next_at h l P x S : dlist h l (P ++ x :: S) -> list_next x h = Ret (at_pos l S, h).
Proof.
  intros H. destruct (dlist_at _ _ _ _ H) as (_ & Hp & _ & Hx & _). cbn [at_pos hd] in *.
  rewrite cons_middle, app_assoc in H. destruct (dlist_at _ _ _ _ H) as (Hn & _ & _ & Hs & _).
  rewrite lst_app in Hn. exact (list_next_run _ _ _ _ Hx Hs Hp Hn).
Qed.

Lemma list_prev_at h l P x S : dlist h l (P ++ x :: S) -> list_prev (at_pos l S) h = Ret (x, h).
Proof.
  intros H. rewrite cons_middle, app_assoc in H.
  destruct (dlist_at _ _ _ _ H) as (_ & Hp & Hx & Hs & [n Hn]). rewrite lst_app in Hp, Hx. cbn [lst] in *.
  exact (list_prev_run _ _ _ _ Hs Hx Hp Hn).
Qed.

(** Positions of a list are told apart by their addresses. *)
Lemma dlist_pos_ne h l P x M S : dlist h l (P ++ x :: M ++ S) -> (x =? at_pos l S) = false.
Proof.
  intros [_ Hn _ _ _]. apply Z.eqb_neq. rewrite <- app_assoc in Hn.
  apply NoDup_cons_1_2, NoDup_app in Hn as (_ & _ & Hn). cbn [app] in Hn.
  apply NoDup_cons in Hn as [Hn _]. intros E. apply Hn. rewrite E, <- app_assoc, elem_of_app.
  right. apply at_pos_in.
Qed.

Lemma dlist_at_end h l P x S : dlist h l (P ++ x :: S) -> (x =? tail_of l) = false.
Proof. intros H. rewrite <- (app_nil_r S) in H. exact (dlist_pos_ne h l P x S [] H). Qed.

(** ** Surgery on the links *)

Lemma lookup_insert_other (m : gmap Z Z) i j x : j <> i -> <[i := x]> m !! j = m !! j.
Proof. intros H. apply lookup_insert_ne. auto. Qed.

Ltac upd :=
  repeat first [rewrite lookup_insert_eq | rewrite lookup_insert_other by (intros ->; set_solver)].

Definition inserted (h : heap) (p e b : Z) : heap :=
  mk_heap (<[b := e]> (<[e := p]> (prevs h))) (<[p := e]> (<[e := b]> (nexts h))).

Lemma list_insert_run h p e b :
  prevs h !! b = Some p -> nexts h !! p = Some b -> is_Some (nexts h !! b) ->
  p <> NULL -> b <> NULL -> e <> NULL -> e <> b -> allocated h e ->
  list_insert b e h = Ret (tt, inserted h p e b).
Proof.
  intros Hb Hp [n Hn] Hp0 Hb0 He0 Heb [Ha1 Ha2]. unfold list_insert.
  rewrite (st_bind_run _ _ _ _ _ (assert_interior_or_tail _ _ _ _ Hb0 Hp0 Hb Hn)).
  rewrite (null_false e He0). cbn [negb assert lift]. 
  rewrite (st_bind_run _ _ h tt h) by reflexivity.
  rewrite (st_bind_run _ _ _ _ _ (get_prev_run _ _ _ Hb)).
  rewrite (st_bind_run _ _ _ _ _ (set_prev_run _ _ _ Ha1)).
  rewrite (st_bind_run _ _ _ _ _ (set_next_run (mk_heap _ (nexts h)) _ _ Ha2)).
  erewrite st_bind_run; [|apply get_prev_run; cbn; rewrite lookup_insert_other by auto; exact Hb].
  erewrite st_bind_run; [|apply set_next_run; cbn; apply lookup_insert_is_Some'; right; eauto].
  apply (set_prev_run (mk_heap _ _) b e). cbn. apply lookup_insert_is_Some'. right. eauto.
Qed.

Definition removed (h : heap) (p n : Z) : heap :=
  mk_heap (<[n := p]> (prevs h)) (<[p := n]> (nexts h)).

Lemma list_remove_run h p e n :
  prevs h !! e = Some p -> nexts h !! e = Some n -> is_Some (nexts h !! p) -> is_Some (prevs h !! n) ->
  p <> NULL -> n <> NULL -> e <> NULL -> p <> e -> n <> e ->
  list_remove e h = Ret (n, removed h p n).
Proof.
  intros Hp Hn Hpn Hnp Hp0 Hn0 He0 Hpe Hne. unfold list_remove.
  rewrite (st_bind_run _ _ _ _ _ (is_interior_run _ _ _ _ He0 Hp Hn)).
  rewrite (null_false p Hp0), (null_false n Hn0). cbn [negb andb assert lift].
  rewrite (st_bind_run _ _ h tt h) by reflexivity.
  rewrite (st_bind_run _ _ _ _ _ (get_prev_run _ _ _ Hp)).
  rewrite (st_bind_run _ _ _ _ _ (get_next_run _ _ _ Hn)).
  rewrite (st_bind_run _ _ _ _ _ (set_next_run _ _ _ Hpn)).
  erewrite st_bind_run; [|apply get_next_run; cbn; rewrite lookup_insert_other by auto; exact Hn].
  rewrite (st_bind_run _ _ _ p _ (get_prev_run (mk_heap _ _) _ _ Hp)).
  rewrite (st_bind_run _ _ _ _ _ (set_prev_run (mk_heap _ _) _ _ Hnp)).
  apply get_next_run. cbn. rewrite lookup_insert_other; auto.
Qed.

Lemma NoDup_split {A} (l1 l2 : list A) :
  NoDup (l1 ++ l2) -> NoDup l1 /\ NoDup l2 /\ (forall x y, x ∈ l1 -> y ∈ l2 -> x <> y).
Proof. rewrite NoDup_app. intros (H1 & H2 & H3). split; [exact H1|]. split; [exact H3|]. intros x y Hx Hy ->. exact (H2 y Hx Hy). Qed.

Lemma links_inserted h a P b R e :
  links h a (P ++ b :: R) -> NoDup (a :: P ++ b :: R) -> e ∉ a :: P ++ b :: R ->
  links (inserted h (lst a P) e b) a (P ++ e :: b :: R).
Proof.
  intros Hl Hd He. apply links_app in Hl as (H1 & H2 & H3 & H4).
  rewrite app_comm_cons in Hd, He. apply NoDup_split in Hd as (D1 & D2 & D3).
  assert (E1 : forall x, x ∈ a :: P -> x <> e) by (intros x Hx ->; set_solver).
  assert (E2 : forall x, x ∈ b :: R -> x <> e) by (intros x Hx ->; set_solver).
  pose proof (lst_in a P) as Hp. assert (Hb : b ∈ b :: R) by constructor.
  apply links_app. split; [|cbn [links]; split; [|split; [|split; [|split]]]]; cbn [inserted nexts prevs].
  - apply (links_frame h); [exact H1|exact D1| |]; intros x Hx; [intros Hne|]; cbn [inserted nexts prevs].
    + rewrite !lookup_insert_other; auto.
    + rewrite !lookup_insert_other; auto; [|apply D3]; auto using list_elem_of_further.
  - apply lookup_insert_eq.
  - rewrite lookup_insert_other, lookup_insert_eq; auto. apply not_eq_sym. auto.
  - rewrite lookup_insert_other, lookup_insert_eq; auto. apply not_eq_sym. auto.
  - apply lookup_insert_eq.
  - apply (links_frame h); [exact H4|exact D2| |]; intros x Hx; [intros Hne|]; cbn [inserted nexts prevs].
    + rewrite !lookup_insert_other; auto. apply not_eq_sym. auto.
    + rewrite !lookup_insert_other; auto using list_elem_of_further.
      intros ->. apply NoDup_cons in D2 as [? _]. auto.
Qed.

Lemma links_removed h a P x b R :
  links h a (P ++ x :: b :: R) -> NoDup (a :: P ++ x :: b :: R) ->
  links (removed h (lst a P) b) a (P ++ b :: R).
Proof.
  intros Hl Hd. apply links_app in Hl as (H1 & H2 & H3 & H4 & H5 & H6).
  rewrite app_comm_cons in Hd. apply NoDup_split in Hd as (D1 & D2 & D3).
  apply NoDup_cons in D2 as [_ D2].
  pose proof (lst_in a P) as Hp.
  assert (D4 : forall u v, u ∈ a :: P -> v ∈ b :: R -> u <> v) by (intros u v Hu Hv; apply D3; [exact Hu|constructor; exact Hv]).
  assert (Hb : b ∈ b :: R) by constructor.
  apply links_app. split; [|cbn [links]; split; [|split]]; cbn [removed nexts prevs].
  - apply (links_frame h); [exact H1|exact D1| |]; intros y Hy; [intros Hne|]; cbn [removed nexts prevs].
    + rewrite lookup_insert_other; auto.
    + rewrite lookup_insert_other; auto using list_elem_of_further.
  - apply lookup_insert_eq.
  - apply lookup_insert_eq.
  - apply (links_frame h); [exact H6|exact D2| |]; intros y Hy; [intros Hne|]; cbn [removed nexts prevs].
    + rewrite lookup_insert_other; auto. apply not_eq_sym. auto.
    + rewrite lookup_insert_other; auto. intros ->. apply NoDup_cons in D2 as [? _]. auto.
Qed.

(** ** Insertion and removal at a position *)

Definition fresh (h : heap) (l : Z) (xs : list Z) (e : Z) : Prop :=
  e <> NULL /\ allocated h e /\ e ∉ span l xs.

Lemma list_insert_at h l P S e :
  dlist h l (P ++ S) -> fresh h l (P ++ S) e ->
  exists h', list_insert (at_pos l S) e h = Ret (tt, h') /\ dlist h' l (P ++ e :: S) /\
    (forall a, a ∉ span l (P ++ e :: S) -> same_at h h' a) /\ (forall a, allocated h a -> allocated h' a).
Proof.
  intros H (He0 & Ha & He). destruct (dlist_at _ _ _ _ H) as (Hn & Hp & Hp0 & Hb0 & Hb).
  destruct H as [Hl Hd H0 Hf Hla]. unfold span in *.
  rewrite <- app_assoc in Hl, Hd, He, H0. destruct (suffix_cons l S) as [R HR].
  rewrite HR in Hl, Hd, He, H0. set (b := at_pos l S) in *.
  pose proof (lst_in (head_of l) P) as Hlst.
  assert (Eeb : e <> b) by (intros ->; apply He; set_solver).
  eexists. split; [apply (list_insert_run h (lst (head_of l) P)); auto|].
  assert (Es : (P ++ e :: S) ++ [tail_of l] = P ++ e :: b :: R) by (rewrite <- HR, <- app_assoc; reflexivity).
  split; [|split].
  - split; rewrite ?Es.
    + apply links_inserted; auto.
    + rewrite cons_middle. rewrite app_comm_cons in Hd |- *.
      apply NoDup_app in Hd as (D1 & D2 & D3). apply NoDup_app. split; [exact D1|].
      split; [set_solver|]. cbn [app]. apply NoDup_cons. split; [set_solver|exact D3].
    + set_solver.
    + cbn [inserted prevs]. rewrite !lookup_insert_other; [exact Hf|set_solver|].
      apply NoDup_cons in Hd as [Hd _]. set_solver.
    + assert (Ht : tail_of l ∈ b :: R) by (rewrite <- HR; set_solver).
      rewrite app_comm_cons in Hd. apply NoDup_split in Hd as (_ & _ & D3).
      cbn [inserted nexts]. rewrite !lookup_insert_other; [exact Hla|set_solver|].
      apply not_eq_sym. auto.
  - intros a Hna. rewrite Es in Hna. split; cbn [inserted nexts prevs]; rewrite !lookup_insert_other; try reflexivity; set_solver.
  - intros a [A1 A2]. split; cbn [inserted nexts prevs]; rewrite !lookup_insert_is_Some'; auto.
Qed.

Lemma list_remove_at h l P x S :
  dlist h l (P ++ x :: S) ->
  exists h', list_remove x h = Ret (at_pos l S, h') /\ dlist h' l (P ++ S) /\
    (forall a, a ∉ span l (P ++ S) -> same_at h h' a) /\ (forall a, allocated h a -> allocated h' a) /\
    fresh h' l (P ++ S) x.
Proof.
  intros H. destruct (dlist_at _ _ _ _ H) as (Hn & Hp & Hp0 & Hx0 & Hx). cbn [at_pos hd] in Hn, Hp, Hx0, Hx.
  pose proof H as H'. rewrite cons_middle, app_assoc in H'.
  destruct (dlist_at _ _ _ _ H') as (Hn' & Hp' & _ & Hs0 & Hs). rewrite lst_app in Hn', Hp'. cbn [lst] in Hn', Hp'.
  destruct H as [Hl Hd H0 Hf Hla]. unfold span in *. rewrite <- app_assoc in Hl, Hd, H0. cbn [app] in Hl, Hd, H0.
  destruct (suffix_cons l S) as [R HR]. rewrite HR in Hl, Hd, H0. set (b := at_pos l S) in *.
  pose proof (lst_in (head_of l) P) as Hlst.
  assert (Es : (P ++ S) ++ [tail_of l] = P ++ b :: R) by (rewrite <- HR, app_assoc; reflexivity).
  pose proof Hd as D. rewrite app_comm_cons in D. apply NoDup_split in D as (D1 & [D2 D3]%NoDup_cons & D4).
  assert (Hnot : x ∉ head_of l :: P ++ b :: R).
  { rewrite app_comm_cons, elem_of_app. intros [HH|HH]; [|exact (D2 HH)].
    apply (D4 x x HH); [constructor|reflexivity]. }
  assert (Ex1 : lst (head_of l) P <> x) by (apply D4; [exact Hlst|constructor]).
  assert (Ex2 : b <> x) by (intros ->; apply D2; constructor).
  exists (removed h (lst (head_of l) P) b).
  split; [apply list_remove_run; eauto|]. rewrite Es. split; [|split; [|split]].
  - split; rewrite ?Es.
    + apply (links_removed _ _ _ x); auto.
    + rewrite app_comm_cons. apply NoDup_app. split; [exact D1|]. split; [|exact D3].
      intros y Hy Hy'. apply (D4 y y Hy); [constructor; exact Hy'|reflexivity].
    + set_solver.
    + cbn [removed prevs]. rewrite lookup_insert_other; [exact Hf|].
      apply D4; [constructor|]. constructor. constructor.
    + cbn [removed nexts]. rewrite lookup_insert_other; [exact Hla|]. apply not_eq_sym, D4; [exact Hlst|].
      constructor. rewrite <- HR. set_solver.
  - intros a Hna. split; cbn [removed nexts prevs]; rewrite lookup_insert_other; try reflexivity; set_solver.
  - intros a [A1 A2]. split; cbn [removed nexts prevs]; rewrite lookup_insert_is_Some'; auto.
  - split; [exact Hx0|]. split; [|unfold span; rewrite Es; exact Hnot].
    split; cbn [removed nexts prevs]; rewrite lookup_insert_is_Some'; eauto.
Qed.

Lemma at_pos_tail l S : NoDup (S ++ [tail_of l]) -> (at_pos l S =? tail_of l) = bool_decide (S = []).
Proof.
  destruct S as [|x S]; cbn [at_pos hd]; intros H; [apply Z.eqb_refl|].
  apply Z.eqb_neq. intros ->. cbn in H. apply NoDup_cons in H as [H _]. apply H. set_solver.
Qed.

Lemma list_empty_at h l xs : dlist h l xs -> list_empty l h = Ret (bool_decide (xs = []), h).
Proof.
  intros H. unfold list_empty. rewrite (st_bind_run _ _ _ _ _ (list_begin_at _ _ _ H)).
  rewrite (st_bind_run _ _ _ _ _ (list_end_at _ _ _ H)). rewrite at_pos_tail; [reflexivity|].
  destruct H as [_ [_ H]%NoDup_cons _ _ _]. exact H.
Qed.

Lemma list_front_at h l x S : dlist h l (x :: S) -> list_front l h = Ret (x, h).
Proof.
  intros H. unfold list_front. rewrite (st_bind_run _ _ _ _ _ (list_empty_at _ _ _ H)).
  apply get_next_run. apply (dlist_at h l [] (x :: S) H).
Qed.

(** An empty list has neither a first nor a last element. *)
Lemma list_front_back_empty h l :
  dlist h l [] -> list_front l h = Stop Panic /\ list_back l h = Stop Panic.
Proof.
  intros H. unfold list_front, list_back. rewrite !(st_bind_run _ _ _ _ _ (list_empty_at _ _ _ H)). auto.
Qed.

Lemma list_back_at h l P x : dlist h l (P ++ [x]) -> list_back l h = Ret (x, h).
Proof.
  intros H. unfold list_back. rewrite (st_bind_run _ _ _ _ _ (list_empty_at _ _ _ H)).
  rewrite bool_decide_eq_false_2 by (destruct P; discriminate).
  apply get_prev_run. rewrite <- (app_nil_r (P ++ [x])) in H.
  destruct (dlist_at _ _ _ _ H) as (_ & Hp & _). rewrite lst_app in Hp. exact Hp.
Qed.

Lemma size_loop_at h l P S fuel cnt :
  dlist h l (P ++ S) -> (length S < fuel)%nat -> inU 32 (cnt + Z.of_nat (length S)) -> 0 <= cnt ->
  size_loop fuel l (at_pos l S) cnt h = Ret (cnt + Z.of_nat (length S), h).
Proof.
  revert P fuel cnt. induction S as [|x S IH]; intros P [|fuel] cnt H Hf Hc H0; cbn [length] in *; try lia;
    cbn [size_loop]; rewrite (st_bind_run _ _ _ _ _ (list_end_at _ _ _ H)); cbn [at_pos hd].
  - rewrite Z.eqb_refl, Z.add_0_r. reflexivity.
  - rewrite (dlist_at_end _ _ _ _ _ H), (st_bind_run _ _ _ _ _ (list_next_at _ _ _ _ _ H)).
    rewrite wrap_id by (unfold inU in *; lia).
    rewrite (IH (P ++ [x])); [do 2 f_equal; lia| |lia| |lia].
    + rewrite <- app_assoc. exact H.
    + unfold inU in *. lia.
Qed.

(** ** Splicing *)

(** The fields [list_splice] changes when it moves the elements from [m] to
    [r], found between [q] and [s], in front of [x], which follows [p]. *)
Definition spliced (h : heap) (p x q m r s : Z) : heap :=
  mk_heap (<[x := r]> (<[m := p]> (<[s := q]> (prevs h))))
          (<[p := m]> (<[r := x]> (<[q := s]> (nexts h)))).

Lemma list_splice_run h p x q m r s :
  prevs h !! x = Some p -> is_Some (nexts h !! x) -> is_Some (nexts h !! p) -> is_Some (nexts h !! q) ->
  prevs h !! m = Some q -> is_Some (nexts h !! m) -> nexts h !! r = Some s -> prevs h !! s = Some r ->
  is_Some (nexts h !! s) -> is_Some (prevs h !! r) ->
  NULL ∉ [p; x; q; m; r; s] -> (forall y, prevs h !! r = Some y -> y <> NULL) ->
  (forall y, nexts h !! m = Some y -> y <> NULL) ->
  m <> s -> r <> q -> x <> s -> x <> m -> s <> m ->
  list_splice x m s h = Ret (tt, spliced h p x q m r s).
Proof.
  intros Hx [nx Hnx] Hp Hq Hm [nm Hnm] Hr Hs [ns Hns] [pr Hpr] Hnull Hpr0 Hnm0 Ems Erq Exs Exm Esm.
  specialize (Hpr0 _ Hpr). specialize (Hnm0 _ Hnm).
  rewrite !not_elem_of_cons in Hnull. destruct Hnull as (N1 & N2 & N3 & N4 & N5 & N6 & _).
  unfold list_splice.
  rewrite (st_bind_run _ _ _ _ _ (assert_interior_or_tail h x p nx ltac:(auto) ltac:(auto) Hx Hnx)).
  rewrite (proj2 (Z.eqb_neq m s) Ems).
  rewrite (st_bind_run _ _ _ _ _ (list_prev_run h s r ns ltac:(auto) ltac:(auto) Hs Hns)).
  rewrite (st_bind_run _ _ _ _ _ (is_interior_run h m q nm ltac:(auto) Hm Hnm)).
  rewrite (null_false q), (null_false nm) by auto. cbn [negb andb assert lift].
  rewrite (st_bind_run _ _ h tt h) by reflexivity.
  rewrite (st_bind_run _ _ _ _ _ (is_interior_run h r pr s ltac:(auto) Hpr Hr)).
  rewrite (null_false pr), (null_false s) by auto. cbn [negb andb assert lift].
  rewrite (st_bind_run _ _ h tt h) by reflexivity.
  rewrite (st_bind_run _ _ _ _ _ (get_prev_run _ _ _ Hm)), (st_bind_run _ _ _ _ _ (get_next_run _ _ _ Hr)).
  rewrite (st_bind_run _ _ _ _ _ (set_next_run _ _ _ Hq)).
  erewrite st_bind_run; [|apply get_next_run; cbn; rewrite lookup_insert_other by auto; exact Hr].
  erewrite st_bind_run; [|apply get_prev_run; exact Hm].
  erewrite st_bind_run; [|apply set_prev_run; cbn; eauto].
  erewrite st_bind_run; [|apply get_prev_run; cbn; rewrite lookup_insert_other by auto; exact Hx].
  erewrite st_bind_run; [|apply set_prev_run; cbn; rewrite lookup_insert_is_Some'; eauto].
  erewrite st_bind_run; [|apply set_next_run; cbn; rewrite lookup_insert_is_Some'; eauto].
  erewrite st_bind_run; [|apply get_prev_run; cbn; rewrite !lookup_insert_other by auto; exact Hx].
  erewrite st_bind_run; [|apply set_next_run; cbn; rewrite !lookup_insert_is_Some'; eauto].
  apply (set_prev_run (mk_heap _ _)). cbn. rewrite !lookup_insert_is_Some'. eauto.
Qed.

Lemma seg_spliced h p x q m r s c C :
  links h c C -> NoDup (c :: C) ->
  (forall y, y ∈ c :: C -> y <> lst c C -> y <> p /\ y <> r /\ y <> q) ->
  (forall y, y ∈ C -> y <> x /\ y <> m /\ y <> s) ->
  links (spliced h p x q m r s) c C.
Proof.
  intros H D Hn Hp. apply (links_frame h); [exact H|exact D| |]; intros y Hy; [intros Hne|];
    cbn [spliced nexts prevs].
  - destruct (Hn y Hy Hne) as (? & ? & ?). rewrite !lookup_insert_other; auto.
  - destruct (Hp y Hy) as (? & ? & ?). rewrite !lookup_insert_other; auto.
Qed.

Definition apart (l1 l2 : list Z) : Prop := forall x y, x ∈ l1 -> y ∈ l2 -> x <> y /\ y <> x.

Lemma NoDup_apart l1 l2 : NoDup (l1 ++ l2) -> NoDup l1 /\ NoDup l2 /\ apart l1 l2.
Proof. intros (H1 & H2 & H3)%NoDup_split. do 2 (split; [assumption|]). intros x y Hx Hy. auto using not_eq_sym. Qed.

Lemma apart_app l l1 l2 : apart l (l1 ++ l2) <-> apart l l1 /\ apart l l2.
Proof. unfold apart. setoid_rewrite elem_of_app. firstorder. Qed.

Lemma apart_cons (c : Z) (C : list Z) : NoDup (c :: C) -> forall y, y ∈ C -> y <> c.
Proof. intros [H _]%NoDup_cons y Hy ->. auto. Qed.

Ltac sep A :=
  first [solve [refine (proj1 (A _ _ _ _)); auto] | solve [refine (proj2 (A _ _ _ _)); auto]].

(** Four segments in a row, the third moved in front of the second. *)
Lemma links_spliced h a P x X m M s R :
  links h a (P ++ (x :: X) ++ (m :: M) ++ s :: R) -> NoDup ((a :: P) ++ (x :: X) ++ (m :: M) ++ s :: R) ->
  links (spliced h (lst a P) x (lst x X) m (lst m M) s) a (P ++ (m :: M) ++ (x :: X) ++ s :: R).
Proof.
  intros H D. apply links_app in H as (H1 & H). cbn [app] in H. destruct H as (_ & _ & H).
  apply links_app in H as (H2 & _ & _ & H). apply links_app in H as (H3 & _ & _ & H4).
  apply NoDup_apart in D as (D1 & D & A1). apply NoDup_apart in D as (D2 & D & A2).
  apply NoDup_apart in D as (D3 & D4 & A3).
  apply apart_app in A1 as (A11 & [A12 A13]%apart_app), A2 as (A21 & A22).
  pose proof (lst_in a P) as Lp. pose proof (lst_in x X) as Lq. pose proof (lst_in m M) as Lr.
  assert (Ex : x ∈ x :: X) by constructor. assert (Em : m ∈ m :: M) by constructor.
  assert (Es : s ∈ s :: R) by constructor.
  assert (T : forall (c : Z) (C : list Z) (y : Z), y ∈ C -> y ∈ c :: C) by (intros; constructor; assumption).
  apply links_app. split; [|cbn [app links]; split; [|split]].
  1: { apply seg_spliced; auto; intros y Hy; [intros Hne; split; [exact Hne|]; split|split; [|split]];
       [sep A12|sep A11|sep A11|sep A12|sep A13]. }
  1: apply lookup_insert_eq.
  1: { cbn [spliced prevs]. rewrite lookup_insert_other, lookup_insert_eq; [reflexivity|]. sep A21. }
  apply links_app. split; [|cbn [links]; split; [|split]].
  1: { apply seg_spliced; auto; intros y Hy; [intros Hne; split; [|split; [exact Hne|]]|split; [|split]];
       [sep A12|sep A21|sep A21|solve [eapply apart_cons; eauto]|sep A3]. }
  1: { cbn [spliced nexts]. rewrite lookup_insert_other, lookup_insert_eq; [reflexivity|]. sep A12. }
  1: apply lookup_insert_eq.
  apply links_app. split; [|cbn [links]; split; [|split]].
  1: { apply seg_spliced; auto; intros y Hy; [intros Hne; split; [|split; [|exact Hne]]|split; [|split]];
       [sep A11|sep A21|solve [eapply apart_cons; eauto]|sep A21|sep A22]. }
  1: { cbn [spliced nexts]. rewrite lookup_insert_other, lookup_insert_other, lookup_insert_eq; [reflexivity| |];
       [sep A21|sep A11]. }
  1: { cbn [spliced prevs]. rewrite lookup_insert_other, lookup_insert_other, lookup_insert_eq; [reflexivity| |];
       [sep A3|sep A22]. }
  apply seg_spliced; auto; intros y Hy; [intros Hne; split; [|split]|split; [|split]];
    [sep A13|sep A3|sep A22|sep A22|sep A3|solve [eapply apart_cons; eauto]].
Qed.

Lemma dlist_elem h l xs z :
  dlist h l xs -> z ∈ xs ->
  exists p n, prevs h !! z = Some p /\ nexts h !! z = Some n /\ p <> NULL /\ n <> NULL /\ z <> NULL.
Proof.
  intros H (P & S & ->)%list_elem_of_split.
  destruct (dlist_at _ _ _ _ H) as (_ & Hp & Hp0 & Hz & _). cbn [at_pos hd] in Hp, Hz.
  rewrite cons_middle, app_assoc in H. destruct (dlist_at _ _ _ _ H) as (Hn & _ & _ & Hn0 & _).
  rewrite lst_app in Hn. cbn [lst] in Hn. eauto 10.
Qed.

Lemma NoDup_swap_mid {A} (l1 l2 l3 l4 : list A) :
  NoDup (l1 ++ l2 ++ l3 ++ l4) -> NoDup (l1 ++ l3 ++ l2 ++ l4).
Proof. apply NoDup_Permutation_proper. apply Permutation_app_head. rewrite !app_assoc. apply Permutation_app_tail, Permutation_app_comm. Qed.

(** Moving a range of a list towards its front. *)
Lemma list_splice_at h l P x X m M S :
  dlist h l (P ++ (x :: X) ++ (m :: M) ++ S) ->
  exists h', list_splice x m (at_pos l S) h = Ret (tt, h') /\
    dlist h' l (P ++ (m :: M) ++ (x :: X) ++ S) /\
    (forall a, a ∉ span l (P ++ (x :: X) ++ (m :: M) ++ S) -> same_at h h' a).
Proof.
  intros H. destruct (dlist_at _ _ _ _ H) as (Np & Px & Np0 & Nx0 & Nx).
  assert (H2 := H). rewrite app_assoc in H2. destruct (dlist_at _ _ _ _ H2) as (Nq & Pm & Nq0 & Nm0 & Nm).
  assert (H3 := H2). rewrite app_assoc in H3. destruct (dlist_at _ _ _ _ H3) as (Nr & Ps & Nr0 & Ns0 & Ns).
  rewrite !lst_app in Nq, Pm, Nq0, Nr, Ps, Nr0. cbn [lst at_pos hd app] in Np, Px, Nx0, Nx, Nq, Pm, Nq0, Nm0, Nm, Nr, Ps, Nr0.
  destruct (suffix_cons l S) as [R HR].
  assert (Es : span l (P ++ (x :: X) ++ (m :: M) ++ S) =
               (head_of l :: P) ++ (x :: X) ++ (m :: M) ++ at_pos l S :: R)
    by (unfold span; rewrite <- HR, <- !app_assoc; reflexivity).
  destruct (dlist_elem h l _ (lst m M) H) as (pr & nr & Hpr & _ & Hpr0 & _).
  { pose proof (lst_in m M). rewrite !elem_of_app. auto. }
  destruct (dlist_elem h l _ m H) as (pm & nm & _ & Hnm & _ & Hnm0 & _).
  { rewrite !elem_of_app. right. right. left. constructor. }
  destruct H as [Hl Hd H0 Hf Hla]. fold (span l (P ++ (x :: X) ++ (m :: M) ++ S)) in Hd, H0.
  rewrite Es in Hd, H0 |- *. set (s := at_pos l S) in *.
  assert (D := Hd). apply NoDup_apart in D as (D1 & D & A1). apply NoDup_apart in D as (D2 & D & A2).
  apply NoDup_apart in D as (D3 & D4 & A3).
  apply apart_app in A1 as (A11 & [A12 A13]%apart_app), A2 as (A21 & A22).
  pose proof (lst_in (head_of l) P) as Lp. pose proof (lst_in x X) as Lq. pose proof (lst_in m M) as Lr.
  assert (Ex : x ∈ x :: X) by constructor. assert (Em : m ∈ m :: M) by constructor.
  assert (Ess : s ∈ s :: R) by constructor.
  exists (spliced h (lst (head_of l) P) x (lst x X) m (lst m M) s). split; [|split].
  - apply list_splice_run; eauto; try (intros y; congruence);
      [|sep A3|sep A21|sep A22|sep A21|sep A3].
    rewrite !not_elem_of_cons. auto 10 using not_elem_of_nil.
  - assert (Et : (P ++ (m :: M) ++ (x :: X) ++ S) ++ [tail_of l] = P ++ (m :: M) ++ (x :: X) ++ s :: R)
      by (rewrite <- HR, <- !app_assoc; reflexivity).
    split; rewrite ?Et; [apply links_spliced; [|exact Hd]| | | |].
    + rewrite <- HR. rewrite <- !app_assoc in Hl. exact Hl.
    + rewrite app_comm_cons. apply NoDup_swap_mid, Hd.
    + intros Hin. apply H0. rewrite app_comm_cons, !elem_of_app in Hin. rewrite !elem_of_app. tauto.
    + cbn [spliced prevs]. assert (Hh : head_of l ∈ head_of l :: P) by constructor.
      rewrite !lookup_insert_other; [exact Hf|sep A13|sep A12|sep A11].
    + assert (Ht : tail_of l ∈ s :: R) by (rewrite <- HR; apply elem_of_app; right; constructor).
      cbn [spliced nexts]. rewrite !lookup_insert_other; [exact Hla|sep A22|sep A3|sep A13].
  - intros a Ha. rewrite !elem_of_app in Ha. split; cbn [spliced prevs nexts];
      rewrite !lookup_insert_other; try reflexivity; intros ->; tauto.
Qed.

(** ** Sorting *)

Section SortProof.
Context (less : Z -> Z -> bool).

(** Adjacent pairs out of order; a list with none is sorted. *)
Fixpoint descents (l : list Z) : nat :=
  match l with
  | [] => 0
  | x :: l => match l with [] => 0 | y :: _ => (if less y x then 1 else 0) + descents l end
  end%nat.

Inductive merged : list Z -> list Z -> list Z -> Prop :=
| merged_nil_l Y : merged [] Y Y
| merged_nil_r X : merged X [] X
| merged_keep x X y Y Z : less y x = false -> merged X (y :: Y) Z -> merged (x :: X) (y :: Y) (x :: Z)
| merged_take x X y Y Z : less y x = true -> merged (x :: X) Y Z -> merged (x :: X) (y :: Y) (y :: Z).

Lemma merged_perm X Y Z : merged X Y Z -> Z ≡ₚ X ++ Y.
Proof.
  induction 1 as [Y|X|x X y Y Z _ _ IH|x X y Y Z _ _ IH]; cbn [app]; rewrite ?app_nil_r; auto.
  rewrite IH. cbn [app]. rewrite <- Permutation_middle. apply perm_swap.
Qed.

Lemma descents_cons x y l : descents (x :: y :: l) = ((if less y x then 1 else 0) + descents (y :: l))%nat.
Proof. reflexivity. Qed.

(** The merge of two sorted lists starts with the first element of one of them. *)
Lemma merged_sorted (Hasym : forall u v, less u v = true -> less v u = false) X Y Z :
  merged X Y Z -> descents X = 0%nat -> descents Y = 0%nat -> descents Z = 0%nat.
Proof.
  induction 1 as [Y|X|x X y Y Z Hl Hm IH|x X y Y Z Hl Hm IH]; auto; intros HX HY.
  - assert (HZ : descents Z = 0%nat).
    { apply IH; [|exact HY]. destruct X; [reflexivity|]. rewrite descents_cons in HX. lia. }
    destruct Z as [|z Z]; [reflexivity|]. rewrite descents_cons, HZ.
    enough (less z x = false) as -> by reflexivity.
    inversion Hm; subst; auto; rewrite descents_cons in HX; destruct (less z x); auto; lia.
  - assert (HZ : descents Z = 0%nat).
    { apply IH; [exact HX|]. destruct Y; [reflexivity|]. rewrite descents_cons in HY. lia. }
    destruct Z as [|z Z]; [reflexivity|]. rewrite descents_cons, HZ.
    enough (less z y = false) as -> by reflexivity.
    inversion Hm; subst; auto; rewrite descents_cons in HY; destruct (less z y); auto; lia.
Qed.

Lemma descents_app l1 l2 : (descents (l1 ++ l2) <= descents l1 + descents l2 + 1)%nat.
Proof.
  induction l1 as [|x l1 IH]; [cbn; lia|]. destruct l1 as [|y l1].
  - cbn [app]. destruct l2 as [|y l2]; [cbn; lia|]. rewrite descents_cons. destruct (less y x); cbn; lia.
  - cbn [app] in *. rewrite !descents_cons. lia.
Qed.

Lemma descents_Sorted l : descents l = 0%nat <-> Sorted (fun x y => less y x = false) l.
Proof.
  induction l as [|x [|y l] IH]; [split; auto; constructor..|rewrite descents_cons].
  split; intros H.
  - destruct (less y x) eqn:E; [lia|]. constructor; [apply IH; lia|]. constructor. exact E.
  - apply Sorted_inv in H as [H1 H2]. inversion H2 as [|? ? E]. rewrite E. apply IH in H1. lia.
Qed.

Lemma is_sorted_loop_at h l P x S T fuel :
  dlist h l (P ++ x :: S ++ T) -> (length S < fuel)%nat ->
  is_sorted_loop less fuel x (at_pos l T) h = Ret (bool_decide (descents (x :: S) = 0%nat), h).
Proof.
  revert P x fuel. induction S as [|y S IH]; intros P x [|fuel] H Hf; cbn [length] in Hf; try lia;
    cbn [is_sorted_loop]; rewrite (st_bind_run _ _ _ _ _ (list_next_at _ _ _ _ _ H)); cbn [app at_pos hd].
  - rewrite Z.eqb_refl. reflexivity.
  - pose proof (list_prev_at _ _ _ _ _ H) as Hp. cbn [app at_pos hd] in Hp.
    rewrite cons_middle, app_assoc in H. cbn [app] in H.
    fold (at_pos l T). rewrite (dlist_pos_ne _ _ _ _ _ _ H), (st_bind_run _ _ _ _ _ Hp), descents_cons.
    destruct (less y x); [reflexivity|]. rewrite (IH _ _ _ H) by lia. reflexivity.
Qed.

Lemma is_sorted_at h l P S T fuel :
  dlist h l (P ++ S ++ T) -> (length S <= fuel)%nat ->
  is_sorted less fuel (at_pos l (S ++ T)) (at_pos l T) h = Ret (bool_decide (descents S = 0%nat), h).
Proof.
  intros H Hf. unfold is_sorted. destruct S as [|x S]; cbn [app length] in *.
  - rewrite Z.eqb_refl. reflexivity.
  - cbn [at_pos hd]. fold (at_pos l T). rewrite (dlist_pos_ne _ _ _ _ _ _ H).
    apply (is_sorted_loop_at _ _ _ _ _ _ _ H). lia.
Qed.

Lemma run_loop_at h l P x S fuel :
  dlist h l (P ++ x :: S) -> (length S < fuel)%nat ->
  exists r T, S = r ++ T /\ run_loop less fuel x (tail_of l) h = Ret (at_pos l T, h) /\
    descents (x :: r) = 0%nat /\ (T = [] \/ descents (x :: S) = Datatypes.S (descents T)).
Proof.
  revert P x fuel. induction S as [|y S IH]; intros P x [|fuel] H Hf; cbn [length] in Hf; try lia;
    cbn [run_loop]; rewrite (st_bind_run _ _ _ _ _ (list_next_at _ _ _ _ _ H)); cbn [at_pos hd].
  - exists [], []. rewrite Z.eqb_refl. auto.
  - pose proof (list_prev_at _ _ _ _ _ H) as Hp. cbn [at_pos hd] in Hp.
    rewrite cons_middle, app_assoc in H.
    rewrite (dlist_at_end _ _ _ _ _ H), (st_bind_run _ _ _ _ _ Hp), descents_cons.
    destruct (less y x) eqn:E; [exists [], (y :: S); auto|].
    destruct (IH _ _ fuel H) as (r & T & -> & -> & Hr & HT); [lia|].
    exists (y :: r), T. rewrite descents_cons, E. auto.
Qed.

Definition same_outside (h h' : heap) (l : Z) (xs : list Z) : Prop :=
  forall a, a ∉ span l xs -> same_at h h' a.

Lemma span_perm l xs ys a : xs ≡ₚ ys -> a ∈ span l xs <-> a ∈ span l ys.
Proof. unfold span. intros H. rewrite !elem_of_cons, !elem_of_app, H. reflexivity. Qed.

Lemma same_outside_trans h1 h2 h3 l xs ys :
  xs ≡ₚ ys -> same_outside h1 h2 l xs -> same_outside h2 h3 l ys -> same_outside h1 h3 l xs.
Proof.
  intros Hp H1 H2 a Ha. destruct (H1 a Ha) as [A1 A2].
  destruct (H2 a) as [B1 B2]; [rewrite <- (span_perm l xs ys a Hp); exact Ha|].
  split; congruence.
Qed.

Lemma merge_loop_at fuel h l P X Y T :
  dlist h l (P ++ X ++ Y ++ T) -> (length X + length Y < fuel)%nat ->
  exists h' Z, merge_loop less fuel (at_pos l (X ++ Y ++ T)) (at_pos l (Y ++ T)) (at_pos l T) h = Ret (tt, h') /\
    merged X Y Z /\ dlist h' l (P ++ Z ++ T) /\ same_outside h h' l (P ++ X ++ Y ++ T).
Proof.
  revert h P X Y. induction fuel as [|fuel IH]; intros h P X Y H Hf; [lia|]. cbn [merge_loop].
  destruct X as [|x X].
  { cbn [app]. rewrite Z.eqb_refl. exists h, Y.
    split; [reflexivity|]. split; [constructor|]. split; [exact H|]. intros a _; split; reflexivity. }
  destruct Y as [|y Y].
  { cbn [app]. rewrite (Z.eqb_refl (at_pos l T)), orb_true_r. exists h, (x :: X).
    split; [reflexivity|]. split; [constructor|]. split; [exact H|]. intros a _; split; reflexivity. }
  change (at_pos l ((x :: X) ++ (y :: Y) ++ T)) with x. change (at_pos l ((y :: Y) ++ T)) with y.
  assert (H2 := H). rewrite app_assoc in H2. cbn [length] in Hf.
  rewrite (dlist_pos_ne _ _ _ _ _ _ H : (x =? y) = false), (dlist_pos_ne _ _ _ _ _ _ H2). cbn [orb].
  destruct (less y x) eqn:E; cbn [negb].
  - rewrite (st_bind_run _ _ _ _ _ (list_next_at _ _ _ _ _ H2)).
    rewrite (st_bind_run _ _ _ _ _ (list_prev_at _ _ _ _ _ H2)).
    destruct (list_splice_at h l P x X y [] (Y ++ T) H) as (h1 & R1 & H1 & F1).
    rewrite (st_bind_run _ _ _ _ _ R1). rewrite app_assoc in H1.
    destruct (IH h1 (P ++ [y]) (x :: X) Y H1) as (h' & Z & R & HZ & H' & F); [cbn [length]; lia|].
    exists h', (y :: Z). split; [exact R|]. split; [constructor; assumption|].
    split; [rewrite <- app_assoc in H'; exact H'|].
    eapply same_outside_trans; [|exact F1|exact F].
    rewrite <- !app_assoc. apply Permutation_app_head. cbn [app]. rewrite <- Permutation_middle. apply perm_swap.
  - rewrite (st_bind_run _ _ _ _ _ (list_next_at _ _ _ _ _ H)).
    assert (Eq : P ++ (x :: X) ++ (y :: Y) ++ T = (P ++ [x]) ++ X ++ (y :: Y) ++ T)
      by (rewrite <- app_assoc; reflexivity).
    rewrite Eq in H |- *. destruct (IH h (P ++ [x]) X (y :: Y) H) as (h' & Z & R & HZ & H' & F); [cbn [length]; lia|].
    exists h', (x :: Z). split; [exact R|]. split; [constructor; assumption|].
    split; [rewrite <- app_assoc in H'; exact H'|exact F].
Qed.

Lemma at_pos_nonnull h l P S : dlist h l (P ++ S) -> is_null (at_pos l S) = false.
Proof. intros H. apply null_false. apply (dlist_at _ _ _ _ H). Qed.

Lemma inplace_merge_at fuel h l P X Y T :
  dlist h l (P ++ X ++ Y ++ T) -> (length X + length Y < fuel)%nat ->
  descents X = 0%nat -> descents Y = 0%nat ->
  exists h' Z, inplace_merge less fuel (at_pos l (X ++ Y ++ T)) (at_pos l (Y ++ T)) (at_pos l T) h = Ret (tt, h') /\
    merged X Y Z /\ dlist h' l (P ++ Z ++ T) /\ same_outside h h' l (P ++ X ++ Y ++ T).
Proof.
  intros H Hf HX HY. assert (H2 := H). rewrite app_assoc in H2. assert (H3 := H2). rewrite app_assoc in H3.
  unfold inplace_merge.
  rewrite (at_pos_nonnull _ _ _ _ H), (at_pos_nonnull _ _ _ _ H2), (at_pos_nonnull _ _ _ _ H3).
  do 3 (rewrite (st_bind_run _ _ h tt h) by reflexivity).
  rewrite (st_bind_run _ _ _ _ _ (is_sorted_at _ _ _ _ _ fuel H ltac:(lia))), HX.
  rewrite (st_bind_run _ _ h tt h) by reflexivity.
  rewrite (st_bind_run _ _ _ _ _ (is_sorted_at _ _ _ _ _ fuel H2 ltac:(lia))), HY.
  rewrite (st_bind_run _ _ h tt h) by reflexivity. apply merge_loop_at; assumption.
Qed.

Lemma find_end_of_run_at h l P x S fuel :
  dlist h l (P ++ x :: S) -> (length S < fuel)%nat ->
  exists r T, S = r ++ T /\ find_end_of_run less fuel x (tail_of l) h = Ret (at_pos l T, h) /\
    descents (x :: r) = 0%nat /\ (T = [] \/ descents (x :: S) = Datatypes.S (descents T)).
Proof.
  intros H Hf. unfold find_end_of_run. pose proof (at_pos_nonnull _ _ _ _ H) as Hx. cbn in Hx.
  assert (H' := H). rewrite <- (app_nil_r (P ++ x :: S)) in H'. pose proof (at_pos_nonnull _ _ _ _ H') as Ht.
  cbn [at_pos hd] in Ht. rewrite Hx, Ht, (dlist_at_end _ _ _ _ _ H).
  do 3 (rewrite (st_bind_run _ _ h tt h) by reflexivity). apply (run_loop_at h l P); assumption.
Qed.

Hypothesis Hasym : forall u v, less u v = true -> less v u = false.

(** A pass turns the rest of the list into [c] sorted runs, at most half as
    many as there were, rounded up. *)
Lemma pass_loop_at fuel h l P S cnt :
  dlist h l (P ++ S) -> (length S < fuel)%nat -> 0 <= cnt -> inU 32 (cnt + Z.of_nat (length S)) ->
  exists h' S' (c : nat), pass_loop less fuel l (at_pos l S) cnt h = Ret (cnt + Z.of_nat c, h') /\
    dlist h' l (P ++ S') /\ S' ≡ₚ S /\ same_outside h h' l (P ++ S) /\
    (S = [] \/ (descents S' + 1 <= c)%nat /\ (2 * c <= descents S + 2)%nat).
Proof.
  revert h P S cnt. induction fuel as [|fuel IH]; intros h P S cnt H Hf H0 Hc; [lia|]. cbn [pass_loop].
  rewrite (st_bind_run _ _ _ _ _ (list_end_at _ _ _ H)). destruct S as [|x S].
  { cbn [at_pos hd]. rewrite Z.eqb_refl. exists h, [], 0%nat. rewrite Z.add_0_r.
    split; [reflexivity|]. split; [exact H|]. split; [auto|]. split; [intros a _; split; reflexivity|]. auto. }
  change (at_pos l (x :: S)) with x. rewrite (dlist_at_end _ _ _ _ _ H). cbn [length] in *.
  rewrite wrap_id by (unfold inU in *; lia).
  destruct (find_end_of_run_at h l P x S (Datatypes.S fuel) H) as (r1 & T & -> & R1 & D1 & E1); [lia|].
  rewrite (st_bind_run _ _ _ _ _ R1). destruct T as [|y T].
  { cbn [at_pos hd]. rewrite Z.eqb_refl. exists h, (x :: r1), 1%nat. rewrite app_nil_r in *.
    split; [reflexivity|]. split; [exact H|]. split; [auto|]. split; [intros a _; split; reflexivity|].
    right. lia. }
  change (at_pos l (y :: T)) with y.
  assert (H2 : dlist h l ((P ++ x :: r1) ++ y :: T)) by (rewrite <- app_assoc; exact H).
  rewrite (dlist_at_end _ _ _ _ _ H2).
  destruct E1 as [E1|E1]; [discriminate|]. rewrite length_app in *. cbn [length] in *.
  destruct (find_end_of_run_at h l _ y T (Datatypes.S fuel) H2) as (r2 & U & -> & R2 & D2 & E2); [lia|].
  rewrite (st_bind_run _ _ _ _ _ R2). rewrite length_app in *.
  destruct (inplace_merge_at (Datatypes.S fuel) h l P (x :: r1) (y :: r2) U) as (h1 & Z & R3 & HZ & H3 & F3);
    [exact H|cbn [length]; lia|exact D1|exact D2|].
  change (x :: r1 ++ y :: r2 ++ U) with ((x :: r1) ++ (y :: r2) ++ U).
  change (at_pos l ((x :: r1) ++ (y :: r2) ++ U)) with x in R3.
  change (at_pos l ((y :: r2) ++ U)) with y in R3.
  rewrite (st_bind_run _ _ _ _ _ R3). rewrite app_assoc in H3.
  pose proof (merged_perm _ _ _ HZ) as PZ. pose proof (merged_sorted Hasym _ _ _ HZ D1 D2) as DZ.
  destruct (IH h1 (P ++ Z) U (cnt + 1) H3) as (h' & U' & c & R4 & H4 & P4 & F4 & E4);
    [lia|lia|unfold inU in *; lia|].
  exists h', (Z ++ U'), (Datatypes.S c). rewrite R4, app_assoc.
  split; [do 2 f_equal; lia|]. split; [exact H4|].
  split; [rewrite P4, PZ, <- app_assoc; reflexivity|].
  split; [eapply same_outside_trans; [|exact F3|exact F4];
          rewrite PZ, <- !app_assoc; reflexivity|]. right.
  change ((x :: r1) ++ (y :: r2) ++ U) with (x :: r1 ++ y :: r2 ++ U). rewrite E1.
  destruct U as [|u U].
  - apply Permutation_nil_r in P4 as ->. rewrite app_nil_r, DZ.
    assert (c = 0%nat) as ->; [|lia].
    destruct fuel; [discriminate R4|]. cbn [pass_loop] in R4.
    rewrite (st_bind_run _ _ _ _ _ (list_end_at _ _ _ H3)) in R4. cbn [at_pos hd] in R4.
    rewrite Z.eqb_refl in R4. injection R4. lia.
  - destruct E4 as [E4|E4]; [discriminate|]. destruct E2 as [E2|E2]; [discriminate|].
    pose proof (descents_app Z U'). lia.
Qed.

Lemma empty_pass fuel h h1 l c :
  dlist h l [] -> pass_loop less fuel l (at_pos l []) 0 h = Ret (0 + Z.of_nat c, h1) -> c = 0%nat.
Proof.
  intros H R. destruct fuel; [discriminate R|]. cbn [pass_loop] in R.
  rewrite (st_bind_run _ _ _ _ _ (list_end_at _ _ _ H)) in R. cbn [at_pos hd] in R.
  rewrite Z.eqb_refl in R. injection R. lia.
Qed.

(** Each pass at least halves the descents. *)
Lemma sort_loop_at p fuel h l S :
  dlist h l S -> (length S < fuel)%nat -> inU 32 (Z.of_nat (length S)) -> (descents S < 2 ^ p)%nat ->
  exists h' S', sort_loop less (Datatypes.S p) fuel l h = Ret (tt, h') /\ dlist h' l S' /\ S' ≡ₚ S /\
    descents S' = 0%nat /\ same_outside h h' l S.
Proof.
  revert h S. induction p as [|p IH]; intros h S H Hf Hc Hp; cbn [sort_loop];
    rewrite (st_bind_run _ _ _ _ _ (list_begin_at _ _ _ H));
    (destruct (pass_loop_at fuel h l [] S 0 H Hf) as (h1 & S1 & c & R & H1 & P1 & F1 & E1); [lia|exact Hc|]);
    rewrite (st_bind_run _ _ _ _ _ R); cbn [app] in *;
    (assert (E2 : (descents S1 <= c - 1)%nat /\ (2 * c <= descents S + 2)%nat /\ (c <= 1 -> descents S1 = 0)%nat);
     [destruct E1 as [->|E1]; [|lia]; apply Permutation_nil_r in P1 as ->; rewrite (empty_pass _ _ _ _ _ H R); cbn; lia|]);
    destruct E2 as (E2 & E3 & E4).
  - cbn in Hp. assert ((0 + Z.of_nat c >? 1) = false) as -> by (rewrite Z.gtb_ltb; apply Z.ltb_ge; lia).
    exists h1, S1. split_and!; try done. apply E4. lia.
  - destruct (0 + Z.of_nat c >? 1) eqn:Ec.
    + cbn [Nat.pow] in Hp. destruct (IH h1 S1) as (h' & S' & R' & H' & P' & D' & F');
        [exact H1|by rewrite P1|by rewrite P1|lia|].
      exists h', S'. split; [exact R'|]. split; [exact H'|]. split; [rewrite P'; exact P1|].
      split; [exact D'|]. eapply same_outside_trans; [|exact F1|exact F']. symmetry. exact P1.
    + exists h1, S1. split_and!; try done. apply E4. rewrite Z.gtb_ltb in Ec. apply Z.ltb_ge in Ec. lia.
Qed.

Lemma descents_length S : (descents S <= length S)%nat.
Proof.
  induction S as [|x [|y S] IH]; [cbn; lia..|]. rewrite descents_cons. cbn [length] in *. destruct (less y x); lia.
Qed.

Lemma list_sort_at fuel h l S :
  dlist h l S -> (length S < fuel)%nat -> inU 32 (Z.of_nat (length S)) ->
  exists h' S', list_sort less fuel l h = Ret (tt, h') /\ dlist h' l S' /\ S' ≡ₚ S /\
    Sorted (fun x y => less y x = false) S' /\ same_outside h h' l S.
Proof.
  intros H Hf Hc. unfold list_sort. rewrite (dlist_nonnull _ _ _ H).
  rewrite (st_bind_run _ _ h tt h) by reflexivity. pose proof (descents_length S).
  destruct fuel as [|p]; [lia|]. pose proof (Nat.pow_gt_lin_r 2 p).
  destruct (sort_loop_at p (Datatypes.S p) h l S H Hf Hc) as (h' & S' & R & H' & P' & D' & F'); [lia|].
  rewrite (st_bind_run _ _ _ _ _ R), (st_bind_run _ _ _ _ _ (list_begin_at _ _ _ H')).
  rewrite (st_bind_run _ _ _ _ _ (list_end_at _ _ _ H')).
  assert (H2 : dlist h' l ([] ++ S' ++ [])) by (rewrite app_nil_r; exact H').
  assert (Hl : (length S' <= Datatypes.S p)%nat) by (rewrite P'; lia).
  pose proof (is_sorted_at _ _ _ _ _ (Datatypes.S p) H2 Hl) as Hs. rewrite app_nil_r in Hs.
  change (at_pos l []) with (tail_of l) in Hs. rewrite (st_bind_run _ _ _ _ _ Hs), D'.
  exists h', S'. split; [reflexivity|]. split; [exact H'|]. split; [exact P'|].
  split; [apply descents_Sorted, D'|exact F'].
Qed.
End SortProof.

(** ** The list as an abstract sequence *)

(** A sequence of elements and the elements not in the list. *)
Record sequence := mk_seq { elems : list Z; unlinked : gset Z }.

Inductive op :=
| Push_front (e : Z) | Push_back (e : Z) | Insert_ordered (e : Z) | Remove (e : Z)
| Pop_front | Pop_back | Front | Back | Size | Empty | Max | Min | Unique.

Section Refine.
Context (less : Z -> Z -> bool) (fuel : nat) (l : Z).

(** What each call returns, [0] for a function without result. *)
Definition run_op (o : op) : st heap Z :=
  match o with
  | Push_front e => list_push_front l e;; mret 0
  | Push_back e => list_push_back l e;; mret 0
  | Insert_ordered e => list_insert_ordered less fuel l e;; mret 0
  | Remove e => list_remove e
  | Pop_front => list_pop_front l
  | Pop_back => list_pop_back l
  | Front => list_front l
  | Back => list_back l
  | Size => list_size fuel l
  | Empty => b ← list_empty l; mret (b2z b)
  | Max => list_max less fuel l
  | Min => list_min less fuel l
  | Unique => list_unique less fuel l NULL;; mret 0
  end.

Fixpoint seq_insert_ordered (e : Z) (xs : list Z) : list Z :=
  match xs with
  | [] => [e]
  | x :: xs => if less e x then e :: x :: xs else x :: seq_insert_ordered e xs
  end.

Definition seq_best (better : Z -> Z -> bool) (xs : list Z) : Z :=
  match xs with
  | [] => tail_of l
  | x :: xs => foldl (fun m e => if better m e then e else m) x xs
  end.

Definition equiv (x y : Z) : bool := negb (less x y) && negb (less y x).

(** The first element of each group of adjacent equivalent elements, and the others. *)
Fixpoint seq_unique (x : Z) (xs : list Z) : list Z * list Z :=
  match xs with
  | [] => ([x], [])
  | y :: xs =>
      if equiv x y then let '(k, d) := seq_unique x xs in (k, y :: d)
      else let '(k, d) := seq_unique y xs in (x :: k, d)
  end.

(** The element after [e]. *)
Fixpoint seq_after (e : Z) (xs : list Z) : Z :=
  match xs with
  | [] => tail_of l
  | x :: xs => if e =? x then at_pos l xs else seq_after e xs
  end.

Fixpoint seq_remove (e : Z) (xs : list Z) : list Z :=
  match xs with [] => [] | x :: xs => if e =? x then xs else x :: seq_remove e xs end.

Definition seq_op (o : op) (s : sequence) : res (Z * sequence) :=
  let '(mk_seq xs free) := s in
  match o with
  | Push_front e => Ret (0, mk_seq (e :: xs) (free ∖ {[e]}))
  | Push_back e => Ret (0, mk_seq (xs ++ [e]) (free ∖ {[e]}))
  | Insert_ordered e => Ret (0, mk_seq (seq_insert_ordered e xs) (free ∖ {[e]}))
  | Remove e => Ret (seq_after e xs, mk_seq (seq_remove e xs) ({[e]} ∪ free))
  | Pop_front => match xs with [] => Stop Panic | x :: xs => Ret (x, mk_seq xs ({[x]} ∪ free)) end
  | Pop_back =>
      match last xs with
      | None => Stop Panic
      | Some x => Ret (x, mk_seq (removelast xs) ({[x]} ∪ free))
      end
  | Front => match xs with [] => Stop Panic | x :: _ => Ret (x, s) end
  | Back => match last xs with None => Stop Panic | Some x => Ret (x, s) end
  | Size => Ret (lenZ xs, s)
  | Empty => Ret (b2z (bool_decide (xs = [])), s)
  | Max => Ret (seq_best (fun m e => less m e) xs, s)
  | Min => Ret (seq_best (fun m e => less e m) xs, s)
  | Unique =>
      match xs with
      | [] => Ret (0, s)
      | x :: xs => let '(k, d) := seq_unique x xs in Ret (0, mk_seq k (list_to_set d ∪ free))
      end
  end.

(** What a caller must guarantee: an element is inserted only while it is in
    no list, and removed only from the list it is in. *)
Definition op_pre (o : op) (s : sequence) : Prop :=
  match o with
  | Push_front e | Push_back e | Insert_ordered e => e ∈ unlinked s
  | Remove e => e ∈ elems s
  | _ => True
  end.

#[global] Instance op_pre_dec o s : Decision (op_pre o s).
Proof. destruct o; cbn; apply _. Defined.

(** A heap represents a sequence. *)
Definition represents (h : heap) (s : sequence) : Prop :=
  dlist h l (elems s) /\ forall e, e ∈ unlinked s -> fresh h l (elems s) e.

Lemma insert_represents h P S free e :
  represents h (mk_seq (P ++ S) free) -> e ∈ free ->
  exists h', list_insert (at_pos l S) e h = Ret (tt, h') /\ represents h' (mk_seq (P ++ e :: S) (free ∖ {[e]})).
Proof.
  intros [H Hfr] He. destruct (list_insert_at _ _ _ _ _ H (Hfr e He)) as (h' & R & H' & _ & A).
  exists h'. split; [exact R|]. split; [exact H'|]. cbn [elems unlinked] in *. intros a Ha.
  destruct (Hfr a) as (N & Al & Hn); [set_solver|]. split; [exact N|]. split; [auto|].
  unfold span in *. rewrite <- app_assoc in *. set_solver.
Qed.

Lemma remove_represents h P x S free :
  represents h (mk_seq (P ++ x :: S) free) ->
  exists h', list_remove x h = Ret (at_pos l S, h') /\ represents h' (mk_seq (P ++ S) ({[x]} ∪ free)).
Proof.
  intros [H Hfr]. destruct (list_remove_at _ _ _ _ _ H) as (h' & R & H' & _ & A & Fx).
  exists h'. split; [exact R|]. split; [exact H'|]. cbn [elems unlinked] in *. intros a Ha.
  apply elem_of_union in Ha as [->%elem_of_singleton|Ha]; [exact Fx|].
  destruct (Hfr a Ha) as (N & Al & Hn). split; [exact N|]. split; [auto|].
  unfold span in *. rewrite <- app_assoc in *. set_solver.
Qed.

Lemma ordered_loop_at h P S e n :
  dlist h l (P ++ S) -> (length S < n)%nat ->
  exists P' S', S = P' ++ S' /\ ordered_loop less n l (at_pos l S) e h = Ret (at_pos l S', h) /\
    seq_insert_ordered e S = P' ++ e :: S'.
Proof.
  revert P n. induction S as [|x S IH]; intros P [|n] H Hn; cbn [length] in Hn; try lia;
    cbn [ordered_loop]; rewrite (st_bind_run _ _ _ _ _ (list_end_at _ _ _ H)); cbn [at_pos hd].
  - exists [], []. rewrite Z.eqb_refl. auto.
  - rewrite (dlist_at_end _ _ _ _ _ H). cbn [seq_insert_ordered]. destruct (less e x).
    + exists [], (x :: S). auto.
    + rewrite (st_bind_run _ _ _ _ _ (list_next_at _ _ _ _ _ H)). rewrite cons_middle, app_assoc in H.
      destruct (IH _ n H) as (P' & S' & -> & -> & ->); [lia|]. exists (x :: P'), S'. auto.
Qed.

Lemma best_loop_at h better P S best n :
  dlist h l (P ++ S) -> (length S < n)%nat ->
  best_loop n better l (at_pos l S) best h =
  Ret (foldl (fun m e => if better m e then e else m) best S, h).
Proof.
  revert P best n. induction S as [|x S IH]; intros P best [|n] H Hn; cbn [length] in Hn; try lia;
    cbn [best_loop]; rewrite (st_bind_run _ _ _ _ _ (list_end_at _ _ _ H)); cbn [at_pos hd foldl].
  - rewrite Z.eqb_refl. reflexivity.
  - rewrite (dlist_at_end _ _ _ _ _ H), (st_bind_run _ _ _ _ _ (list_next_at _ _ _ _ _ H)).
    rewrite cons_middle, app_assoc in H. apply (IH _ _ n H). lia.
Qed.

Lemma list_best_at h better S :
  dlist h l S -> (length S < fuel)%nat -> list_best fuel better l h = Ret (seq_best better S, h).
Proof.
  intros H Hf. unfold list_best. rewrite (st_bind_run _ _ _ _ _ (list_begin_at _ _ _ H)).
  rewrite (st_bind_run _ _ _ _ _ (list_end_at _ _ _ H)). destruct S as [|x S]; cbn [at_pos hd seq_best].
  - rewrite Z.eqb_refl. reflexivity.
  - rewrite (dlist_at_end h l [] x S H), (st_bind_run _ _ _ _ _ (list_next_at h l [] x S H)).
    apply (best_loop_at h better [x] S x fuel H). cbn [length] in Hf. lia.
Qed.

Lemma unique_loop_at h P x S free n :
  represents h (mk_seq (P ++ x :: S) free) -> (length S < n)%nat ->
  exists h', unique_loop less n l NULL x h = Ret (tt, h') /\
    represents h' (mk_seq (P ++ (seq_unique x S).1) (list_to_set (seq_unique x S).2 ∪ free)).
Proof.
  revert h P x free n. induction S as [|y S IH]; intros h P x free [|n] H Hn; cbn [length] in Hn; try lia;
    cbn [unique_loop seq_unique]; rewrite (st_bind_run _ _ _ _ _ (list_next_at _ _ _ _ _ (proj1 H)));
    rewrite (st_bind_run _ _ _ _ _ (list_end_at _ _ _ (proj1 H))); cbn [at_pos hd].
  - exists h. rewrite Z.eqb_refl. cbn [fst snd]. rewrite list_to_set_nil, union_empty_l_L. auto.
  - assert (H2 := H). rewrite cons_middle, app_assoc in H2.
    rewrite (dlist_at_end _ _ _ _ _ (proj1 H2)). fold (equiv x y). destruct (equiv x y).
    + destruct (remove_represents _ _ _ _ _ H2) as (h1 & R1 & H1).
      rewrite (st_bind_run _ _ _ _ _ R1). rewrite (st_bind_run _ _ h1 tt h1) by reflexivity.
      rewrite <- app_assoc in H1. destruct (IH _ _ _ _ n H1) as (h' & R & H'); [lia|].
      destruct (seq_unique x S) as [k d]. cbn [fst snd] in *.
      exists h'. split; [exact R|]. rewrite list_to_set_cons, (union_comm_L {[y]}), <- union_assoc_L. exact H'.
    + destruct (IH _ _ _ _ n H2) as (h' & R & H'); [lia|]. destruct (seq_unique y S) as [k d].
      exists h'. split; [exact R|]. cbn [fst snd] in *. rewrite <- app_assoc in H'. exact H'.
Qed.

Lemma seq_remove_split e xs :
  e ∈ xs -> exists P S, xs = P ++ e :: S /\ seq_remove e xs = P ++ S /\ seq_after e xs = at_pos l S.
Proof.
  induction xs as [|x xs IH]; intros He; [apply elem_of_nil in He; easy|]. cbn [seq_remove seq_after].
  destruct (Z.eqb_spec e x) as [->|Hne]; [exists [], xs; auto|].
  apply elem_of_cons in He as [He|He]; [easy|].
  destruct (IH He) as (P & S & -> & -> & ->). exists (x :: P), S. auto.
Qed.

(** How a call relates to the operation it implements. *)
Definition simulates (r : res (Z * heap)) (a : res (Z * sequence)) : Prop :=
  match a with
  | Ret (v, s') => exists h', r = Ret (v, h') /\ represents h' s'
  | Stop e => r = Stop e
  end.

Lemma last_removelast (xs : list Z) x : last xs = Some x -> xs = removelast xs ++ [x].
Proof.
  destruct xs as [|y xs _] using rev_ind; [discriminate|]. rewrite last_snoc. intros [= ->].
  rewrite removelast_last. reflexivity.
Qed.

Lemma list_push_front_sim h xs free e :
  represents h (mk_seq xs free) -> e ∈ free ->
  simulates (run_op (Push_front e) h) (seq_op (Push_front e) (mk_seq xs free)).
Proof.
  intros H He. destruct (insert_represents h [] xs free e H He) as (h' & R & H'). exists h'.
  split; [|exact H']. cbn [run_op]. unfold list_push_front.
  erewrite st_bind_run; [reflexivity|]. rewrite (st_bind_run _ _ _ _ _ (list_begin_at _ _ _ (proj1 H))). exact R.
Qed.

Lemma list_push_back_sim h xs free e :
  represents h (mk_seq xs free) -> e ∈ free ->
  simulates (run_op (Push_back e) h) (seq_op (Push_back e) (mk_seq xs free)).
Proof.
  intros H He. assert (H2 := H). rewrite <- (app_nil_r xs) in H2.
  destruct (insert_represents h xs [] free e H2 He) as (h' & R & H'). exists h'.
  split; [|exact H']. cbn [run_op]. unfold list_push_back.
  erewrite st_bind_run; [reflexivity|]. rewrite (st_bind_run _ _ _ _ _ (list_end_at _ _ _ (proj1 H))). exact R.
Qed.

Lemma list_insert_ordered_sim h xs free e :
  represents h (mk_seq xs free) -> e ∈ free -> (length xs < fuel)%nat ->
  simulates (run_op (Insert_ordered e) h) (seq_op (Insert_ordered e) (mk_seq xs free)).
Proof.
  intros H He Hf. destruct (ordered_loop_at h [] xs e fuel (proj1 H) Hf) as (P & S & E & R & E').
  cbn [seq_op simulates]. rewrite E'. rewrite E in H.
  destruct (insert_represents h P S free e H He) as (h' & R' & H'). exists h'. split; [|exact H'].
  cbn [run_op]. erewrite st_bind_run; [reflexivity|]. unfold list_insert_ordered.
  rewrite (dlist_nonnull _ _ _ (proj1 H)), (null_false e) by apply (proj2 H e He).
  do 2 (rewrite (st_bind_run _ _ h tt h) by reflexivity).
  rewrite (st_bind_run _ _ _ _ _ (list_begin_at _ _ _ (proj1 H))). cbn [elems]. rewrite <- E.
  rewrite (st_bind_run _ _ _ _ _ R). exact R'.
Qed.

Lemma list_pop_front_sim h xs free :
  represents h (mk_seq xs free) ->
  simulates (run_op Pop_front h) (seq_op Pop_front (mk_seq xs free)).
Proof.
  intros H. cbn [run_op]. unfold list_pop_front. destruct xs as [|x xs]; cbn [seq_op simulates].
  - apply st_bind_stop, list_front_back_empty, H.
  - rewrite (st_bind_run _ _ _ _ _ (list_front_at _ _ _ _ (proj1 H))).
    destruct (remove_represents h [] x xs free H) as (h' & R & H'). exists h'. split; [|exact H'].
    rewrite (null_false x) by (apply (dlist_at h l [] (x :: xs) (proj1 H))).
    rewrite (st_bind_run _ _ h tt h) by reflexivity. rewrite (st_bind_run _ _ _ _ _ R). reflexivity.
Qed.

Lemma list_pop_back_sim h xs free :
  represents h (mk_seq xs free) ->
  simulates (run_op Pop_back h) (seq_op Pop_back (mk_seq xs free)).
Proof.
  intros H. cbn [run_op seq_op]. unfold list_pop_back. destruct (last xs) as [x|] eqn:E; cbn [simulates].
  - apply last_removelast in E. rewrite E in H.
    destruct (remove_represents h _ x [] free H) as (h' & R & H'). rewrite app_nil_r in H'.
    exists h'. split; [|exact H'].
    rewrite (st_bind_run _ _ _ _ _ (list_back_at _ _ _ _ (proj1 H))), (st_bind_run _ _ _ _ _ R). reflexivity.
  - apply last_None in E as ->. apply st_bind_stop, list_front_back_empty, H.
Qed.

Lemma list_front_back_sim h xs free o :
  represents h (mk_seq xs free) -> o = Front \/ o = Back ->
  simulates (run_op o h) (seq_op o (mk_seq xs free)).
Proof.
  intros H [->| ->]; cbn [run_op seq_op].
  - destruct xs as [|x xs]; cbn [simulates].
    + apply list_front_back_empty, H.
    + rewrite (list_front_at _ _ _ _ (proj1 H)). eauto.
  - destruct (last xs) as [x|] eqn:E; cbn [simulates].
    + pose proof (last_removelast _ _ E) as E'. assert (H2 := H). rewrite E' in H2.
      rewrite (list_back_at _ _ _ _ (proj1 H2)). eauto.
    + apply last_None in E as ->. apply list_front_back_empty, H.
Qed.

Lemma list_unique_sim h xs free :
  represents h (mk_seq xs free) -> (length xs < fuel)%nat ->
  simulates (run_op Unique h) (seq_op Unique (mk_seq xs free)).
Proof.
  intros H Hf. cbn [run_op seq_op]. unfold list_unique.
  destruct xs as [|x xs]; [|destruct (seq_unique x xs) as [k d] eqn:E]; cbn [simulates].
  - exists h. split; [|exact H]. erewrite st_bind_run; [reflexivity|].
    rewrite (st_bind_run _ _ _ _ _ (list_empty_at _ _ _ (proj1 H))). reflexivity.
  - destruct (unique_loop_at h [] x xs free fuel H) as (h' & R & H'); [cbn in Hf; lia|].
    rewrite E in H'. exists h'. split; [|exact H']. erewrite st_bind_run; [reflexivity|].
    rewrite (st_bind_run _ _ _ _ _ (list_empty_at _ _ _ (proj1 H))).
    cbn [elems]. rewrite bool_decide_eq_false_2 by discriminate.
    rewrite (st_bind_run _ _ _ _ _ (list_begin_at _ _ _ (proj1 H))). exact R.
Qed.

Lemma op_sim h s o :
  represents h s -> op_pre o s -> (length (elems s) < fuel)%nat -> inU 32 (lenZ (elems s)) ->
  simulates (run_op o h) (seq_op o s).
Proof.
  destruct s as [xs free]. cbn [elems]. intros H Hp Hf Hw.
  destruct o; auto using list_push_front_sim, list_push_back_sim, list_insert_ordered_sim,
    list_pop_front_sim, list_pop_back_sim, list_front_back_sim, list_unique_sim; cbn [run_op seq_op simulates].
  - destruct (seq_remove_split e xs Hp) as (P & S & -> & -> & ->).
    destruct (remove_represents h P e S free H) as (h' & R & H'). eauto.
  - exists h. split; [|exact H]. unfold list_size.
    rewrite (st_bind_run _ _ _ _ _ (list_begin_at _ _ _ (proj1 H))).
    apply (size_loop_at h l [] xs fuel 0 (proj1 H) Hf); [exact Hw|lia].
  - exists h. split; [|exact H].
    rewrite (st_bind_run _ _ _ _ _ (list_empty_at _ _ _ (proj1 H))). reflexivity.
  - exists h. split; [|exact H]. apply (list_best_at h _ xs (proj1 H) Hf).
  - exists h. split; [|exact H]. apply (list_best_at h _ xs (proj1 H) Hf).
Qed.

(** A sequence of calls, with the results in order. *)
Fixpoint run_ops (os : list op) : st heap (list Z) :=
  match os with
  | [] => mret []
  | o :: os => v ← run_op o; vs ← run_ops os; mret (v :: vs)
  end.
Fixpoint seq_ops (os : list op) (s : sequence) : res (list Z * sequence) :=
  match os with
  | [] => Ret ([], s)
  | o :: os => '(v, s) ← seq_op o s; '(vs, s) ← seq_ops os s; Ret (v :: vs, s)
  end.

(** Every call is made within its contract, and the list never gets too long
    for the loops. *)
Fixpoint ops_pre (os : list op) (s : sequence) : Prop :=
  match os with
  | [] => True
  | o :: os =>
      op_pre o s /\ (length (elems s) < fuel)%nat /\ inU 32 (lenZ (elems s)) /\
      match seq_op o s with Ret (_, s) => ops_pre os s | Stop _ => True end
  end.

Lemma ops_sim os h s :
  represents h s -> ops_pre os s ->
  match seq_ops os s with
  | Ret (vs, s') => exists h', run_ops os h = Ret (vs, h') /\ represents h' s'
  | Stop e => run_ops os h = Stop e
  end.
Proof.
  revert h s. induction os as [|o os IH]; intros h s H Hp; cbn [seq_ops run_ops]; [exists h; auto|].
  destruct Hp as (H1 & H2 & H3 & H4). pose proof (op_sim h s o H H1 H2 H3) as Hs.
  destruct (seq_op o s) as [[v s1]|e]; cbn [simulates mbind res_bind] in *; [|apply st_bind_stop, Hs].
  destruct Hs as (h1 & R1 & Hr). rewrite (st_bind_run _ _ _ _ _ R1). specialize (IH h1 s1 Hr H4).
  destruct (seq_ops os s1) as [[vs s2]|e]; cbn [mbind res_bind]; [|apply st_bind_stop, IH].
  destruct IH as (h2 & R2 & Hr2). exists h2. split; [|exact Hr2].
  rewrite (st_bind_run _ _ _ _ _ R2). reflexivity.
Qed.

(** A freshly initialised list is the empty sequence. *)
Lemma list_init_sim h free :
  l <> NULL -> tail_of l <> NULL -> allocated h (head_of l) -> allocated h (tail_of l) ->
  (forall e, e ∈ free -> fresh h l [] e) ->
  exists h', list_init l h = Ret (tt, h') /\ represents h' (mk_seq [] free).
Proof.
  intros Hl Ht [A1 A2] [B1 B2] Hf. unfold list_init. rewrite (null_false l Hl).
  assert (Hne : tail_of l <> head_of l) by (unfold tail_of, head_of; lia).
  rewrite (st_bind_run _ _ h tt h) by reflexivity.
  rewrite (st_bind_run _ _ _ _ _ (set_prev_run _ _ _ A1)).
  erewrite st_bind_run; [|apply set_next_run; exact A2].
  erewrite st_bind_run; [|apply set_prev_run; cbn; rewrite lookup_insert_is_Some'; auto].
  rewrite set_next_run by (cbn; rewrite lookup_insert_is_Some'; auto).
  eexists. split; [reflexivity|]. split.
  - split; cbn [elems app links prevs nexts].
    + rewrite lookup_insert_other, !lookup_insert_eq by auto. auto.
    + apply NoDup_cons. split; [|apply NoDup_singleton]. rewrite list_elem_of_singleton. auto.
    + rewrite elem_of_cons, list_elem_of_singleton. intros [E|E]; [apply Hl|apply Ht]; rewrite E; reflexivity.
    + rewrite lookup_insert_other, lookup_insert_eq by auto. reflexivity.
    + apply lookup_insert_eq.
  - intros e He. destruct (Hf e He) as (N & [C1 C2] & Hn). split; [exact N|]. split; [|exact Hn].
    split; cbn [prevs nexts]; rewrite !lookup_insert_is_Some'; auto.
Qed.
End Refine.

(** C25: a list behaves as a finite sequence.  Starting from [list_init], any
    series of insertions, removals, queries, ordered insertions, extremum
    searches and [list_unique] that respects the caller's contract returns
    exactly what the same series returns on an abstract sequence, including
    the assertion failure of taking an element from an empty list; the loops
    end within a number of links above the longest length reached. *)
Theorem list_refines_sequence less fuel l h free os :
  l <> NULL -> tail_of l <> NULL -> allocated h (head_of l) -> allocated h (tail_of l) ->
  (forall e, e ∈ free -> fresh h l [] e) -> ops_pre less fuel l os (mk_seq [] free) ->
  exists h0, list_init l h = Ret (tt, h0) /\
  match seq_ops less l os (mk_seq [] free) with
  | Ret (vs, s) => exists h', run_ops less fuel l os h0 = Ret (vs, h') /\ represents l h' s
  | Stop e => run_ops less fuel l os h0 = Stop e
  end.
Proof.
  intros Hl Ht Ha Hb Hf Hp. destruct (list_init_sim l h free Hl Ht Ha Hb Hf) as (h0 & R & H).
  exists h0. split; [exact R|]. exact (ops_sim less fuel l os h0 _ H Hp).
Qed.

(** Elements at the addresses of [l], with null links. *)
Definition blank (l : list Z) : heap :=
  let m := list_to_map (map (fun a => (a, NULL)) l) in mk_heap m m.

Lemma blank_allocated l e : e ∈ l -> allocated (blank l) e.
Proof.
  intros He. assert (is_Some ((list_to_map (map (fun a => (a, NULL)) l) : gmap Z Z) !! e)); [|split; assumption].
  induction l as [|x l IH]; [apply elem_of_nil in He; easy|]. cbn.
  apply lookup_insert_is_Some'. apply elem_of_cons in He as [->|He]; auto.
Qed.

Lemma list_refines_sequence_witness :
  exists h', (list_init 16;; run_ops Z.ltb 8 16 [Push_back 40; Push_front 32; Insert_ordered 36; Max; Size;
                                                Remove 36; Pop_back; Pop_front]) (blank [16; 24; 32; 36; 40])
             = Ret ([0; 0; 0; 40; 3; 40; 40; 32], h').
Proof.
  destruct (list_refines_sequence Z.ltb 8 16 (blank [16; 24; 32; 36; 40]) (list_to_set [32; 36; 40])
    [Push_back 40; Push_front 32; Insert_ordered 36; Max; Size; Remove 36; Pop_back; Pop_front])
    as (h0 & R & Hs).
  - discriminate.
  - discriminate.
  - apply blank_allocated. constructor.
  - apply blank_allocated. do 2 constructor.
  - intros e He. apply elem_of_list_to_set in He.
    split; [intros ->; revert He; apply (bool_decide_unpack (NULL ∉ [32; 36; 40])); exact I|].
    split; [apply blank_allocated; do 2 constructor; exact He|].
    intros Hs. revert He. revert e Hs.
    refine (proj1 (Forall_forall (fun e => e ∉ [32; 36; 40]) (span 16 [])) _).
    apply (bool_decide_unpack _). vm_compute. exact I.
  - cbn [ops_pre]. repeat split; try (vm_compute; reflexivity);
      try (apply (bool_decide_unpack _); vm_compute; exact I); cbn; try lia.
  - destruct Hs as (h' & R' & _). exists h'. rewrite (st_bind_run _ _ _ _ _ R). exact R'.
Defined.

(** C26: [list_sort] terminates without a failed assertion and leaves in the
    list the same elements in nondecreasing order, for any comparison that is
    asymmetric and any list of fewer than 2^32 elements; nothing outside the
    list changes.  Following a number of links above the length of the list
    is enough for each loop.  If fewer than 2^p elements are directly followed
    by a smaller one, at most p + 1 passes over the list are made. *)
Theorem list_sort_sorts less fuel h l xs :
  (forall u v, less u v = true -> less v u = false) ->
  dlist h l xs -> (length xs < fuel)%nat -> inU 32 (lenZ xs) ->
  (exists h' ys, list_sort less fuel l h = Ret (tt, h') /\ dlist h' l ys /\ ys ≡ₚ xs /\
    Sorted (fun x y => less y x = false) ys /\ (forall a, a ∉ span l xs -> same_at h h' a)) /\
  (forall p, (descents less xs < 2 ^ p)%nat ->
    exists h', sort_loop less (S p) fuel l h = Ret (tt, h')).
Proof.
  intros Ha H Hf Hw. split; [exact (list_sort_at less Ha fuel h l xs H Hf Hw)|]. intros p Hp.
  destruct (sort_loop_at less Ha p fuel h l xs H Hf Hw Hp) as (h' & _ & R & _). by exists h'.
Qed.

(** Three elements out of order, of sizes [40], [32] and [36]. *)
Definition three : heap :=
  mk_heap (list_to_map [(16, 0); (40, 16); (32, 40); (36, 32); (24, 36)])
          (list_to_map [(16, 40); (40, 32); (32, 36); (36, 24); (24, 0)]).

Lemma list_sort_sorts_witness :
  exists h' ys, list_sort Z.ltb 4 16 three = Ret (tt, h') /\ dlist h' 16 ys /\ ys ≡ₚ [40; 32; 36] /\
    Sorted (fun x y => (y <? x) = false) ys.
Proof.
  destruct (list_sort_sorts Z.ltb 4 three 16 [40; 32; 36]) as [(h' & ys & H1 & H2 & H3 & H4 & _) _].
  - intros u v Hu. apply Z.ltb_lt in Hu. apply Z.ltb_ge. lia.
  - split; [repeat split| | | |]; try reflexivity; apply (bool_decide_unpack _); vm_compute; exact I.
  - cbn. lia.
  - unfold lenZ, inU. cbn. lia.
  - exists h', ys. auto.
Defined.
