(* ===== verification/Malloc.v ===== *)
(** * The heap allocator

    [mem/malloc.c] on top of the page allocator: requests up to 1 kB are
    served from arenas of one page divided into blocks of a power of two, the
    others get pages of their own.  The state is the page allocator's, the
    header of every arena by address, and the descriptors of the three pools.
    A page that holds no arena reads as a header with another magic number.
    The free lists are sequences, as [Dlist] shows lists to be; their links,
    kept in the free blocks themselves, are not part of [memory].  A call runs
    without interleaving with others, so a lock is only held or not. *)

From Stdlib Require Import ZArith Lia Bool.
From stdpp Require Import base list numbers gmap.
From S2P Require Import Prelude Vaddr Bitmap Dlist Palloc.

Definition ARENA_MAGIC : Z := 0x9a548eed.
(** [sizeof (struct arena)]. *)
Definition ARENA_SIZE : Z := 12.
Definition POOL_KERNEL : Z := 0.
Definition POOL_TC : Z := 1.
Definition POOL_SWAP : Z := 2.

Definition pool_flags (pool_id : Z) : Z :=
  if pool_id =? POOL_TC then PAL_TC else if pool_id =? POOL_SWAP then PAL_SWAP else 0.

Record desc := mk_desc {
  d_block_size : Z; blocks_per_arena : Z; free_list : list Z; locked : bool }.

(** [a_desc] is the owning descriptor: its pool and its index there. *)
Record arena := mk_arena { magic : Z; a_desc : option (Z * Z); free_cnt : Z }.

Section Malloc.
Context {B : Type} {BA : BitArray B}.

Record hstate := mk_hstate {
  pal : palloc_state B;
  arenas : gmap Z arena;
  descs : gmap (Z * Z) desc;
  desc_cnt : gmap Z Z }.

Definition set_pal (s : hstate) (p : palloc_state B) : hstate :=
  mk_hstate p (arenas s) (descs s) (desc_cnt s).
Definition set_arenas (s : hstate) (m : gmap Z arena) : hstate :=
  mk_hstate (pal s) m (descs s) (desc_cnt s).
Definition set_descs (s : hstate) (m : gmap (Z * Z) desc) : hstate :=
  mk_hstate (pal s) (arenas s) m (desc_cnt s).

Definition get_desc (d : Z * Z) : st hstate desc := fun s =>
  match descs s !! d with Some x => Ret (x, s) | None => Stop Fault end.
Definition put_desc (d : Z * Z) (x : desc) : st hstate unit := fun s =>
  match descs s !! d with
  | Some _ => Ret (tt, set_descs s (<[d := x]> (descs s)))
  | None => Stop Fault
  end.
Definition header (a : Z) : st hstate arena := fun s =>
  Ret (default (mk_arena 0 None 0) (arenas s !! a), s).
Definition put_header (a : Z) (x : arena) : st hstate unit := fun s =>
  Ret (tt, set_arenas s (<[a := x]> (arenas s))).

Definition lock_acquire (d : Z * Z) : st hstate unit :=
  x ← get_desc d;
  lift (assert (negb (locked x)));;
  put_desc d (mk_desc (d_block_size x) (blocks_per_arena x) (free_list x) true).
Definition lock_release (d : Z * Z) : st hstate unit :=
  x ← get_desc d;
  lift (assert (locked x));;
  put_desc d (mk_desc (d_block_size x) (blocks_per_arena x) (free_list x) false).
Definition put_free_list (d : Z * Z) (l : list Z) : st hstate unit :=
  x ← get_desc d;
  put_desc d (mk_desc (d_block_size x) (blocks_per_arena x) l (locked x)).

(** The page allocator's functions on the larger state.  [palloc_free_multiple]
    fills the pages given back with 0xcc, so that they no longer hold a
    header. *)
Definition get_pages (flags page_cnt : Z) : st hstate Z := fun s =>
  match palloc_get_multiple (pal s) flags page_cnt with
  | Ret (r, p) => Ret (r, set_pal s p)
  | Stop e => Stop e
  end.
Definition free_pages (pages page_cnt : Z) : st hstate unit := fun s =>
  match palloc_free_multiple (pal s) pages page_cnt with
  | Ret p => Ret (tt, set_arenas (set_pal s p) (delete pages (arenas s)))
  | Stop e => Stop e
  end.
Definition write (f : (Z -> Z) -> Z -> Z) : st hstate unit := fun s =>
  Ret (tt, set_pal s (set_memory (pal s) (f (memory (pal s))))).

(** ** Initialisation *)

Fixpoint init_loop (fuel : nat) (pool block_size : Z) : st hstate unit :=
  match fuel with
  | O => stop_with NoFuel
  | S fuel =>
      if block_size <? PGSIZE / 2 then
        s ← get;
        let i := default 0 (desc_cnt s !! pool) in
        put (mk_hstate (pal s) (arenas s) (descs s) (<[pool := i + 1]> (desc_cnt s)));;
        lift (assert (i + 1 <=? 10));;
        put_desc (pool, i) (mk_desc block_size ((PGSIZE - ARENA_SIZE) / block_size) [] false);;
        init_loop fuel pool (wrap 32 (block_size * 2))
      else mret tt
  end.
Definition pool_malloc_init (pool : Z) : st hstate unit := init_loop 32 pool 16.
Definition malloc_init : st hstate unit :=
  pool_malloc_init POOL_KERNEL;; pool_malloc_init POOL_TC;; pool_malloc_init POOL_SWAP.

(** The static variables before [malloc_init]. *)
Definition blank_descs : gmap (Z * Z) desc :=
  list_to_map (map (fun k => ((Z.of_nat k / 10, Z.of_nat k mod 10), mk_desc 0 0 [] false)) (seq 0%nat 30%nat)).
Definition before_init (p : palloc_state B) : hstate := mk_hstate p ∅ blank_descs ∅.

(** ** Blocks and arenas *)

Definition block_to_arena (b : Z) : st hstate (Z * arena) :=
  let a := pg_round_down b in
  lift (assert (negb (a =? NULL)));;
  h ← header a;
  lift (assert (magic h =? ARENA_MAGIC));;
  match a_desc h with
  | Some d =>
      x ← get_desc d;
      lift (assert (wrap 32 (pg_ofs b - ARENA_SIZE) mod d_block_size x =? 0))
  | None => mret tt
  end;;
  lift (assert (match a_desc h with Some _ => true | None => pg_ofs b =? ARENA_SIZE end));;
  mret (a, h).

Definition arena_to_block (a idx : Z) : st hstate Z :=
  lift (assert (negb (a =? NULL)));;
  h ← header a;
  lift (assert (magic h =? ARENA_MAGIC));;
  d ← lift (the (a_desc h));
  x ← get_desc d;
  lift (assert (idx <? blocks_per_arena x));;
  mret (wrap 32 (a + ARENA_SIZE + idx * d_block_size x)).

(** ** Allocation *)

(** The index of the first of [n] descriptors that is large enough, or [i + n]. *)
Fixpoint find_desc (n : nat) (pool i size : Z) : st hstate Z :=
  match n with
  | O => mret i
  | S n =>
      d ← get_desc (pool, i);
      if size <=? d_block_size d then mret i else find_desc n pool (i + 1) size
  end.

(** The blocks [i] to [i + n - 1] of arena [a], added to the free list of [d]. *)
Fixpoint push_blocks (n : nat) (d : Z * Z) (a i : Z) : st hstate unit :=
  match n with
  | O => mret tt
  | S n =>
      b ← arena_to_block a i;
      x ← get_desc d;
      put_free_list d (free_list x ++ [b]);;
      push_blocks n d a (i + 1)
  end.

Definition DIV_ROUND_UP (x step : Z) : Z := wrap 32 (x + step - 1) / step.

Definition malloc_big (pool_id size : Z) : st hstate Z :=
  let page_cnt := DIV_ROUND_UP (wrap 32 (size + ARENA_SIZE)) PGSIZE in
  a ← get_pages (pool_flags pool_id) page_cnt;
  if a =? NULL then mret NULL
  else
    put_header a (mk_arena ARENA_MAGIC None page_cnt);;
    mret (wrap 32 (a + ARENA_SIZE)).

(** A block from the free list of [d], which is not empty. *)
Definition pop_block (d : Z * Z) : st hstate Z :=
  x ← get_desc d;
  match free_list x with
  | [] => stop_with Panic
  | b :: l =>
      lift (assert (negb (b =? NULL)));;
      put_free_list d l;;
      '(a, h) ← block_to_arena b;
      put_header a (mk_arena (magic h) (a_desc h) (wrap 32 (free_cnt h - 1)));;
      lock_release d;;
      mret b
  end.

Definition malloc_from_pool (pool_id size : Z) : st hstate Z :=
  if size =? 0 then mret NULL
  else
    s ← get;
    let n := default 0 (desc_cnt s !! pool_id) in
    i ← find_desc (Z.to_nat n) pool_id 0 size;
    if i =? n then malloc_big pool_id size
    else
      let d := (pool_id, i) in
      lock_acquire d;;
      x ← get_desc d;
      match free_list x with
      | [] =>
          a ← get_pages (pool_flags pool_id) 1;
          if a =? NULL then lock_release d;; mret NULL
          else
            put_header a (mk_arena ARENA_MAGIC (Some d) (blocks_per_arena x));;
            push_blocks (Z.to_nat (blocks_per_arena x)) d a 0;;
            pop_block d
      | _ => pop_block d
      end.

Definition malloc (size : Z) : st hstate Z := malloc_from_pool POOL_KERNEL size.

Definition calloc (a b : Z) : st hstate Z :=
  let size := wrap 32 (a * b) in
  if (size <? a) || (size <? b) then mret NULL
  else
    p ← malloc size;
    (if negb (p =? NULL) then write (fun m => memset_mem m p 0 size) else mret tt);;
    mret p.

Definition block_size (block : Z) : st hstate Z :=
  '(_, h) ← block_to_arena block;
  match a_desc h with
  | Some d => x ← get_desc d; mret (d_block_size x)
  | None => mret (wrap 32 (PGSIZE * free_cnt h - pg_ofs block))
  end.

(** ** Release *)

(** [list_remove] of the blocks [i] to [i + n - 1] of arena [a]. *)
Fixpoint remove_blocks (n : nat) (d : Z * Z) (a i : Z) : st hstate unit :=
  match n with
  | O => mret tt
  | S n =>
      b ← arena_to_block a i;
      x ← get_desc d;
      (if decide (b ∈ free_list x) then put_free_list d (seq_remove b (free_list x))
       else stop_with Fault);;
      remove_blocks n d a (i + 1)
  end.

Definition free (p : Z) : st hstate unit :=
  if p =? NULL then mret tt
  else
    '(a, h) ← block_to_arena p;
    match a_desc h with
    | Some d =>
        x ← get_desc d;
        write (fun m => memset_mem m p 0xcc (d_block_size x));;
        lock_acquire d;;
        x ← get_desc d;
        put_free_list d (p :: free_list x);;
        let c := wrap 32 (free_cnt h + 1) in
        put_header a (mk_arena (magic h) (a_desc h) c);;
        (if blocks_per_arena x <=? c then
           lift (assert (c =? blocks_per_arena x));;
           remove_blocks (Z.to_nat (blocks_per_arena x)) d a 0;;
           free_pages a 1
         else mret tt);;
        lock_release d
    | None => free_pages a (free_cnt h)
    end.

(** [memcpy (dst, src, size)]. *)
Definition memcpy_mem (m : Z -> Z) (dst src size : Z) : Z -> Z := fun a =>
  if (dst <=? a) && (a <? dst + size) then m (a - dst + src) else m a.

Definition realloc (old_block new_size : Z) : st hstate Z :=
  if new_size =? 0 then free old_block;; mret NULL
  else
    new_block ← malloc new_size;
    (if negb (old_block =? NULL) && negb (new_block =? NULL) then
       old_size ← block_size old_block;
       let min_size := if new_size <? old_size then new_size else old_size in
       write (fun m => memcpy_mem m new_block old_block min_size);;
       free old_block
     else mret tt);;
    mret new_block.

(** ** Invariant *)

(** Sizes of the descriptor of index [i]. *)
Definition size_of (i : Z) : Z := 16 * 2 ^ i.
Definition per_arena (i : Z) : Z := (PGSIZE - ARENA_SIZE) / size_of i.

Lemma sizes_range i :
  0 <= i < 7 -> 16 <= size_of i <= 1024 /\ 3 <= per_arena i <= 255
  /\ ARENA_SIZE + per_arena i * size_of i <= PGSIZE.
Proof using Type.
  intros H. assert (i = 0 \/ i = 1 \/ i = 2 \/ i = 3 \/ i = 4 \/ i = 5 \/ i = 6) by lia.
  destruct_or!; subst; vm_compute; intuition discriminate.
Qed.

Definition block_at_idx (a i k : Z) : Z := a + ARENA_SIZE + k * size_of i.

(** The pages of an arena. *)
Definition pages_of (ar : arena) : Z := match a_desc ar with Some _ => 1 | None => free_cnt ar end.

(** Blocks of [l] in the page at [a]. *)
Definition in_page (a b : Z) : bool := (a <=? b) && (b <? a + PGSIZE).
Definition free_in (a : Z) (l : list Z) : Z := lenZ (filter (fun b => in_page a b = true) l).

Record arena_ok (s : hstate) (a : Z) (ar : arena) : Prop := {
  ok_magic : magic ar = ARENA_MAGIC;
  ok_pages : 0 < pages_of ar;
  ok_place : exists idx o, a = base (mem_pool (pal s)) + PGSIZE * idx /\ 0 <= idx /\
    idx + pages_of ar <= ba_size (used_map (mem_pool (pal s))) /\ owned (pal s) o idx (pages_of ar);
  ok_desc : forall p i, a_desc ar = Some (p, i) -> exists d, descs s !! (p, i) = Some d /\
    0 <= p < 3 /\ 0 <= i < 7 /\ free_cnt ar = free_in a (free_list d) }.

Record hinv0 (s : hstate) : Prop := {
  h_pal : inv (pal s);
  h_cnt : forall p, 0 <= p < 3 -> desc_cnt s !! p = Some 7;
  h_desc : forall p i, 0 <= p < 3 -> 0 <= i < 7 -> exists d, descs s !! (p, i) = Some d /\
    d_block_size d = size_of i /\ blocks_per_arena d = per_arena i /\ NoDup (free_list d) /\
    forall b, b ∈ free_list d -> exists a ar k, arenas s !! a = Some ar /\ a_desc ar = Some (p, i)
      /\ 0 <= k < per_arena i /\ b = block_at_idx a i k;
  h_arena : forall a ar, arenas s !! a = Some ar -> arena_ok s a ar;
  h_apart : forall a ar a' ar', arenas s !! a = Some ar -> arenas s !! a' = Some ar' -> a <> a' ->
    a + PGSIZE * pages_of ar <= a' \/ a' + PGSIZE * pages_of ar' <= a }.

Definition unlocked (s : hstate) : Prop :=
  forall p i d, 0 <= p < 3 -> 0 <= i < 7 -> descs s !! (p, i) = Some d -> locked d = false.
Definition some_used (s : hstate) : Prop :=
  forall a ar p i, arenas s !! a = Some ar -> a_desc ar = Some (p, i) -> free_cnt ar < per_arena i.

Definition hinv (s : hstate) : Prop := hinv0 s /\ unlocked s /\ some_used s.

(** The block at [b] of capacity [n] is allocated. *)
Definition live (s : hstate) (b n : Z) : Prop :=
  exists a ar, arenas s !! a = Some ar /\
  match a_desc ar with
  | Some (p, i) => exists k d, 0 <= k < per_arena i /\ b = block_at_idx a i k /\ n = size_of i /\
      descs s !! (p, i) = Some d /\ b ∉ free_list d
  | None => b = a + ARENA_SIZE /\ n = PGSIZE * free_cnt ar - ARENA_SIZE
  end.

(** ** Addresses *)

Lemma arena_addr s a ar :
  hinv0 s -> arenas s !! a = Some ar ->
  0 < a /\ a mod 2 ^ 12 = 0 /\ a + PGSIZE * pages_of ar <= 2 ^ 32 /\ 0 < pages_of ar.
Proof using Type.
  intros H Ha. destruct (h_arena s H a ar Ha) as [_ Hp (idx & o & -> & Hi & Hn & _) _].
  destruct (inv_base (pal s) (h_pal s H)) as (Hb & Hm & Hl). change PGSIZE with 4096 in *.
  split; [lia|]. split; [|lia]. replace (4096 * idx) with (idx * 2 ^ 12) by lia.
  rewrite Z.mod_add by lia. exact Hm.
Qed.

Lemma block_range a i k :
  0 <= i < 7 -> 0 <= k < per_arena i ->
  a + ARENA_SIZE <= block_at_idx a i k /\ block_at_idx a i k + size_of i <= a + PGSIZE.
Proof using Type.
  intros Hi Hk. destruct (sizes_range i Hi) as (? & ? & ?). unfold block_at_idx. nia.
Qed.

Lemma block_inj a i k k' : 0 <= i < 7 -> block_at_idx a i k = block_at_idx a i k' -> k = k'.
Proof using Type. intros Hi H. destruct (sizes_range i Hi). unfold block_at_idx in H. nia. Qed.

Lemma page_of_block a ofs :
  0 < a -> a mod 2 ^ 12 = 0 -> a + PGSIZE <= 2 ^ 32 -> 0 <= ofs < PGSIZE ->
  pg_round_down (a + ofs) = a /\ pg_ofs (a + ofs) = ofs.
Proof using Type.
  intros Ha Hm Hl Ho. change PGSIZE with (2 ^ 12) in *.
  rewrite pg_round_down_div by (unfold inU; lia). rewrite pg_ofs_mod.
  apply Z.mod_divide in Hm as [q ->]; [|lia].
  rewrite (Z.add_comm (q * _)), Z.div_add, Z.mod_add, Z.div_small, Z.mod_small by lia. lia.
Qed.

(** A header that passes the checks. *)
Definition arena_at (s : hstate) (a : Z) (ar : arena) : Prop :=
  arenas s !! a = Some ar /\ magic ar = ARENA_MAGIC /\ 0 < a /\ a mod 2 ^ 12 = 0 /\ a + PGSIZE <= 2 ^ 32.

Lemma arena_at_inv s a ar : hinv0 s -> arenas s !! a = Some ar -> arena_at s a ar.
Proof using Type.
  intros H Ha. destruct (arena_addr s a ar H Ha) as (A1 & A2 & A3 & A4).
  pose proof (ok_magic _ _ _ (h_arena s H a ar Ha)).
  split; [exact Ha|]. do 3 (split; [assumption|]). change PGSIZE with 4096 in *. lia.
Qed.

Lemma block_to_arena_small s a ar p i d k :
  arena_at s a ar -> a_desc ar = Some (p, i) -> descs s !! (p, i) = Some d ->
  0 <= i < 7 -> d_block_size d = size_of i -> 0 <= k < per_arena i ->
  block_to_arena (block_at_idx a i k) s = Ret ((a, ar), s).
Proof using Type.
  intros (Ha & Hm & A1 & A2 & A3) Hd Hs Hi Hz Hk.
  destruct (block_range a i k Hi Hk) as [R1 R2]. destruct (sizes_range i Hi) as (S1 & S2 & S3).
  destruct (page_of_block a (block_at_idx a i k - a)) as [E1 E2]; [lia..|unfold ARENA_SIZE in *; lia|].
  replace (a + (block_at_idx a i k - a)) with (block_at_idx a i k) in E1, E2 by lia.
  unfold block_to_arena. rewrite E1, E2. rewrite (proj2 (Z.eqb_neq a NULL)) by (unfold NULL; lia).
  cbn [negb]. rewrite (st_bind_run _ _ s tt s) by reflexivity.
  rewrite (st_bind_run _ _ s ar s) by (unfold header; rewrite Ha; reflexivity).
  rewrite Hm, Z.eqb_refl.
  rewrite (st_bind_run _ _ s tt s) by reflexivity. rewrite Hd.
  assert (Em : wrap 32 (block_at_idx a i k - a - ARENA_SIZE) mod d_block_size d = 0).
  { rewrite Hz. unfold block_at_idx.
    replace (a + ARENA_SIZE + k * size_of i - a - ARENA_SIZE) with (k * size_of i) by lia.
    rewrite wrap_id by (change PGSIZE with 4096 in *; unfold inU, ARENA_SIZE, block_at_idx in *; nia).
    apply Z.mod_mul. lia. }
  rewrite (st_bind_run _ _ s tt s); [reflexivity|].
  rewrite (st_bind_run _ _ s d s) by (unfold get_desc; rewrite Hs; reflexivity).
  rewrite Em. reflexivity.
Qed.

Lemma block_to_arena_big s a ar :
  arena_at s a ar -> a_desc ar = None -> block_to_arena (a + ARENA_SIZE) s = Ret ((a, ar), s).
Proof using Type.
  intros (Ha & Hm & A1 & A2 & A3) Hd. change PGSIZE with 4096 in A3.
  destruct (page_of_block a ARENA_SIZE) as [E1 E2]; [auto; change PGSIZE with 4096; unfold ARENA_SIZE; lia..|].
  unfold block_to_arena. rewrite E1, E2. rewrite (proj2 (Z.eqb_neq a NULL)) by (unfold NULL; lia).
  rewrite (st_bind_run _ _ s tt s) by reflexivity.
  rewrite (st_bind_run _ _ s ar s) by (unfold header; rewrite Ha; reflexivity).
  rewrite Hm, Hd. reflexivity.
Qed.

Lemma arena_to_block_run s a ar p i d k :
  arena_at s a ar -> a_desc ar = Some (p, i) -> descs s !! (p, i) = Some d ->
  0 <= i < 7 -> d_block_size d = size_of i -> blocks_per_arena d = per_arena i -> 0 <= k < per_arena i ->
  arena_to_block a k s = Ret (block_at_idx a i k, s).
Proof using Type.
  intros (Ha & Hm & A1 & A2 & A3) Hd Hs Hi Hz Hp Hk. unfold arena_to_block.
  rewrite (proj2 (Z.eqb_neq a NULL)) by (unfold NULL; lia).
  rewrite (st_bind_run _ _ s tt s) by reflexivity.
  rewrite (st_bind_run _ _ s ar s) by (unfold header; rewrite Ha; reflexivity).
  rewrite Hm, Z.eqb_refl. rewrite (st_bind_run _ _ s tt s) by reflexivity. rewrite Hd.
  rewrite (st_bind_run _ _ s (p, i) s) by reflexivity.
  rewrite (st_bind_run _ _ s d s) by (unfold get_desc; rewrite Hs; reflexivity).
  rewrite Hp, Hz, (proj2 (Z.ltb_lt k _)) by lia. rewrite (st_bind_run _ _ s tt s) by reflexivity.
  destruct (block_range a i k Hi Hk), (sizes_range i Hi) as (? & _). unfold block_at_idx, ARENA_SIZE in *.
  rewrite wrap_id by (unfold inU; lia). reflexivity.
Qed.

(** ** States that differ in locks and memory only *)

Definition shape (d : desc) : Z * Z * list Z := (d_block_size d, blocks_per_arena d, free_list d).

Record similar (s s' : hstate) : Prop := {
  sim_pal : exists m, pal s' = set_memory (pal s) m;
  sim_arenas : arenas s' = arenas s;
  sim_cnt : desc_cnt s' = desc_cnt s;
  sim_descs : forall k, shape <$> descs s' !! k = shape <$> descs s !! k }.

Lemma similar_desc s s' k d :
  similar s s' -> descs s !! k = Some d -> exists d', descs s' !! k = Some d' /\ shape d' = shape d.
Proof using Type.
  intros H Hd. pose proof (sim_descs _ _ H k) as E. rewrite Hd in E. cbn in E.
  destruct (descs s' !! k) as [d'|]; [|discriminate]. injection E as E1 E2 E3. exists d'.
  unfold shape. split; [reflexivity|congruence].
Qed.

Lemma set_memory_id (p : palloc_state B) : set_memory p (memory p) = p.
Proof using Type. destruct p. reflexivity. Qed.

Lemma similar_refl s : similar s s.
Proof using Type. split; auto. exists (memory (pal s)). symmetry. apply set_memory_id. Qed.

Lemma similar_trans s1 s2 s3 : similar s1 s2 -> similar s2 s3 -> similar s1 s3.
Proof using Type.
  intros [[m A] B1 C D] [[m' A'] B' C' D']. split; [|congruence|congruence|].
  - exists m'. rewrite A', A. reflexivity.
  - intros k. rewrite D'. apply D.
Qed.

Lemma similar_sym s1 s2 : similar s1 s2 -> similar s2 s1.
Proof using Type.
  intros [[m A] B1 C D]. split; [|congruence|congruence|auto].
  exists (memory (pal s1)). rewrite A. destruct (pal s1). reflexivity.
Qed.

Lemma inv_memory (p : palloc_state B) m : inv p -> inv (set_memory p m).
Proof using Type. intros [H1 H2 H3 H4 H5 H6 H7]. split; assumption. Qed.

Lemma similar_hinv0 s s' : similar s s' -> hinv0 s -> hinv0 s'.
Proof using Type.
  intros Hs [H1 H2 H3 H4 H5]. destruct (sim_pal _ _ Hs) as [m Ep].
  pose proof (sim_arenas _ _ Hs) as Ea. split; rewrite ?Ea, ?(sim_cnt _ _ Hs), ?Ep; auto.
  - apply inv_memory, H1.
  - intros p i Hp Hi. destruct (H3 p i Hp Hi) as (d & Hd & D).
    destruct (similar_desc _ _ _ _ Hs Hd) as (d' & Hd' & E). exists d'. split; [exact Hd'|].
    injection E as -> -> ->. exact D.
  - intros a ar Ha. destruct (H4 a ar Ha) as [M P (idx & o & L) D]. split; auto.
    + exists idx, o. rewrite Ep. exact L.
    + intros p i Hpi. destruct (D p i Hpi) as (d & Hd & R).
      destruct (similar_desc _ _ _ _ Hs Hd) as (d' & Hd' & E). exists d'. split; [exact Hd'|].
      injection E as _ _ ->. exact R.
Qed.

Lemma similar_live s s' b n : similar s s' -> live s b n -> live s' b n.
Proof using Type.
  intros Hs (a & ar & Ha & H). exists a, ar. rewrite (sim_arenas _ _ Hs). split; [exact Ha|].
  destruct (a_desc ar) as [[p i]|]; [|exact H]. destruct H as (k & d & Hk & Hb & Hn & Hd & Hf).
  destruct (similar_desc _ _ _ _ Hs Hd) as (d' & Hd' & E). exists k, d'.
  injection E as _ _ ->. auto.
Qed.

Lemma similar_used s s' : similar s s' -> some_used s -> some_used s'.
Proof using Type. intros Hs H a ar p i. rewrite (sim_arenas _ _ Hs). apply H. Qed.

(** ** Changing a free list *)

Definition with_free (s : hstate) (p i : Z) (d : desc) (l : list Z) (lk : bool) (a : Z) (ar : arena) (c : Z)
  : hstate :=
  mk_hstate (pal s) (<[a := mk_arena (magic ar) (a_desc ar) c]> (arenas s))
    (<[(p, i) := mk_desc (d_block_size d) (blocks_per_arena d) l lk]> (descs s)) (desc_cnt s).

Lemma with_free_hinv0 s p i d l lk a ar :
  hinv0 s -> 0 <= p < 3 -> 0 <= i < 7 -> descs s !! (p, i) = Some d -> arenas s !! a = Some ar ->
  a_desc ar = Some (p, i) -> NoDup l ->
  (forall b, b ∈ l -> exists a ar k, arenas s !! a = Some ar /\ a_desc ar = Some (p, i)
      /\ 0 <= k < per_arena i /\ b = block_at_idx a i k) ->
  (forall a' ar', arenas s !! a' = Some ar' -> a' <> a -> free_in a' l = free_in a' (free_list d)) ->
  hinv0 (with_free s p i d l lk a ar (free_in a l)).
Proof using Type.
  intros H Hp Hi Hd Ha Had Hnd Hin Hfr. set (ar1 := mk_arena (magic ar) (a_desc ar) (free_in a l)).
  assert (Hpg : pages_of ar1 = pages_of ar) by (unfold pages_of; cbn; rewrite Had; reflexivity).
  assert (Hlook : forall a' ar', <[a := ar1]> (arenas s) !! a' = Some ar' ->
    exists ar0, arenas s !! a' = Some ar0 /\ pages_of ar' = pages_of ar0 /\ a_desc ar' = a_desc ar0
      /\ magic ar' = magic ar0).
  { intros a' ar'. rewrite lookup_insert_Some. intros [[<- <-]|[_ E]]; eauto. }
  assert (Hback : forall a' ar', arenas s !! a' = Some ar' ->
    exists ar0, <[a := ar1]> (arenas s) !! a' = Some ar0 /\ a_desc ar0 = a_desc ar').
  { intros a' ar' E. destruct (decide (a = a')) as [<-|Hne]; [|rewrite lookup_insert_ne by exact Hne; eauto].
    exists ar1. rewrite lookup_insert_eq. rewrite Ha in E. injection E as <-. auto. }
  destruct H as [H1 H2 H3 H4 H5]. split; cbn [with_free pal arenas descs desc_cnt]; auto.
  - intros p' i' Hp' Hi'. destruct (decide ((p, i) = (p', i'))) as [E|E].
    + injection E as <- <-. rewrite lookup_insert_eq. eexists. split; [reflexivity|]. cbn.
      destruct (H3 p i Hp Hi) as (d0 & Hd0 & Z1 & Z2 & _). rewrite Hd in Hd0. injection Hd0 as <-.
      repeat (split; [assumption|]). intros b Hb. destruct (Hin b Hb) as (a' & ar' & k & E1 & E2 & E3 & E4).
      destruct (Hback _ _ E1) as (ar0 & B1 & B2). exists a', ar0, k. rewrite B2. auto.
    + rewrite lookup_insert_ne by exact E. destruct (H3 p' i' Hp' Hi') as (d0 & Hd0 & Z1 & Z2 & Z3 & Z4).
      exists d0. repeat (split; [assumption|]). intros b Hb. destruct (Z4 b Hb) as (a' & ar' & k & E1 & E2 & E3 & E4).
      destruct (Hback _ _ E1) as (ar0 & B1 & B2). exists a', ar0, k. rewrite B2. auto.
  - intros a' ar' Ha'. destruct (Hlook _ _ Ha') as (ar0 & L1 & L2 & L3 & L4).
    destruct (H4 a' ar0 L1) as [M P L D]. split; cbn [with_free pal descs]; rewrite ?L2, ?L3, ?L4; auto.
    intros p' i' Hpi. destruct (D p' i' Hpi) as (d0 & Hd0 & R1 & R2 & R3).
    apply lookup_insert_Some in Ha' as [[<- <-]|[Hne Ha']].
    + rewrite Ha in L1. injection L1 as <-. rewrite Had in Hpi. injection Hpi as <- <-.
      rewrite lookup_insert_eq. eexists. split; [reflexivity|]. auto.
    + rewrite Ha' in L1. injection L1 as <-. destruct (decide ((p, i) = (p', i'))) as [E|E].
      * injection E as <- <-. rewrite lookup_insert_eq. eexists. split; [reflexivity|].
        rewrite Hd in Hd0. injection Hd0 as <-. cbn. rewrite (Hfr a' ar' Ha') by auto. auto.
      * rewrite lookup_insert_ne by exact E. eauto.
  - intros a1 ar1' a2 ar2' E1 E2 Hne. destruct (Hlook _ _ E1) as (b1 & L1 & L2 & _).
    destruct (Hlook _ _ E2) as (b2 & M1 & M2 & _). rewrite L2, M2. eauto.
Qed.

(** ** Live blocks *)

Lemma arena_unique s a ar a' ar' x :
  hinv0 s -> arenas s !! a = Some ar -> arenas s !! a' = Some ar' ->
  a <= x < a + PGSIZE * pages_of ar -> a' <= x < a' + PGSIZE * pages_of ar' -> a = a'.
Proof using Type.
  intros H Ha Ha' Hx Hx'. destruct (decide (a = a')) as [|Hne]; [assumption|].
  destruct (h_apart s H a ar a' ar' Ha Ha' Hne); lia.
Qed.

Lemma small_index s a ar p i :
  hinv0 s -> arenas s !! a = Some ar -> a_desc ar = Some (p, i) -> 0 <= p < 3 /\ 0 <= i < 7.
Proof using Type.
  intros H Ha Hd. destruct (ok_desc _ _ _ (h_arena s H a ar Ha) p i Hd) as (d & _ & Hp & Hi & _). auto.
Qed.

(** The arena of a live block. *)
Definition live_in (s : hstate) (b n a : Z) (ar : arena) : Prop :=
  arenas s !! a = Some ar /\
  match a_desc ar with
  | Some (p, i) => exists k d, 0 <= k < per_arena i /\ b = block_at_idx a i k /\ n = size_of i /\
      descs s !! (p, i) = Some d /\ b ∉ free_list d
  | None => b = a + ARENA_SIZE /\ n = PGSIZE * free_cnt ar - ARENA_SIZE
  end.

Lemma live_in_range s b n a ar :
  hinv0 s -> live_in s b n a ar -> a + ARENA_SIZE <= b /\ b + n <= a + PGSIZE * pages_of ar /\ 0 < n.
Proof using Type.
  intros H [Ha Hl]. pose proof (ok_pages _ _ _ (h_arena s H a ar Ha)) as Hp.
  unfold pages_of in *. destruct (a_desc ar) as [[p i]|] eqn:Ed.
  - destruct Hl as (k & d & Hk & -> & -> & _). destruct (small_index s a ar p i H Ha Ed) as [_ Hi].
    destruct (block_range a i k Hi Hk), (sizes_range i Hi) as (? & _). lia.
  - destruct Hl as [-> ->]. change PGSIZE with 4096. unfold ARENA_SIZE. lia.
Qed.

Lemma live_in_same s b n a ar b' n' ar' :
  hinv0 s -> live_in s b n a ar -> live_in s b' n' a ar' -> n = n' /\ (b <> b' -> b + n <= b' \/ b' + n' <= b).
Proof using Type.
  intros H [Ha Hl] [Ha' Hl']. rewrite Ha in Ha'. injection Ha' as <-.
  destruct (a_desc ar) as [[p i]|] eqn:Ed; [|lia].
  destruct Hl as (k & d & Hk & -> & -> & _), Hl' as (k' & d' & Hk' & -> & -> & _).
  destruct (small_index s a ar p i H Ha Ed) as [_ Hi]. destruct (sizes_range i Hi) as (Hsz & _).
  split; [reflexivity|]. unfold block_at_idx. intros Hne.
  assert (k <> k') by congruence. nia.
Qed.

(** Live blocks are known by their addresses and do not overlap. *)
Lemma live_disjoint s b n b' n' :
  hinv0 s -> live s b n -> live s b' n' -> b + n <= b' \/ b' + n' <= b \/ b = b' /\ n = n'.
Proof using Type.
  intros H (a & ar & L) (a' & ar' & L').
  destruct (live_in_range s b n a ar H L) as (R1 & R2 & R3).
  destruct (live_in_range s b' n' a' ar' H L') as (R1' & R2' & R3'). unfold ARENA_SIZE in *.
  destruct (decide (a = a')) as [<-|Hne].
  - destruct (live_in_same s b n a ar b' n' ar' H L L') as [-> Hd].
    destruct (decide (b = b')) as [->|Hb]; [auto|]. specialize (Hd Hb). lia.
  - destruct (h_apart s H a ar a' ar' (proj1 L) (proj1 L') Hne); lia.
Qed.

Lemma with_free_live_iff s p i d l lk a ar c b n :
  arenas s !! a = Some ar -> a_desc ar = Some (p, i) ->
  live (with_free s p i d l lk a ar c) b n <->
  exists a' ar', arenas s !! a' = Some ar' /\
  match a_desc ar' with
  | Some (p', i') => exists k d', 0 <= k < per_arena i' /\ b = block_at_idx a' i' k /\ n = size_of i' /\
      (if decide ((p, i) = (p', i')) then b ∉ l else descs s !! (p', i') = Some d' /\ b ∉ free_list d')
  | None => b = a' + ARENA_SIZE /\ n = PGSIZE * free_cnt ar' - ARENA_SIZE
  end.
Proof using Type.
  intros Ha Hd. unfold live, with_free. cbn [arenas descs].
  split; intros (a' & ar' & Ha' & H).
  - apply lookup_insert_Some in Ha' as [[<- <-]|[Hne Ha']]; cbn [a_desc free_cnt] in H.
    + exists a, ar. split; [exact Ha|]. rewrite Hd in H |- *. destruct H as (k & d' & Hk & Hb & Hn & Hl & Hf).
      exists k, d'. rewrite decide_True by reflexivity. rewrite lookup_insert_eq in Hl. injection Hl as <-. auto.
    + exists a', ar'. split; [exact Ha'|]. destruct (a_desc ar') as [[p' i']|]; [|exact H].
      destruct H as (k & d' & Hk & Hb & Hn & Hl & Hf). exists k, d'.
      destruct (decide ((p, i) = (p', i'))) as [E|E].
      * rewrite E, lookup_insert_eq in Hl. injection Hl as <-. auto.
      * rewrite lookup_insert_ne in Hl by exact E. auto 10.
  - destruct (decide (a = a')) as [<-|Hne].
    + rewrite Ha in Ha'. injection Ha' as <-. exists a. eexists. split; [apply lookup_insert_eq|].
      cbn [a_desc]. rewrite Hd in H |- *.
      destruct H as (k & d' & Hk & Hb & Hn & Hf). rewrite decide_True in Hf by reflexivity. exists k. eexists. split; [exact Hk|].
      split; [exact Hb|]. split; [exact Hn|]. split; [apply lookup_insert_eq|]. exact Hf.
    + exists a', ar'. rewrite lookup_insert_ne by exact Hne. split; [exact Ha'|].
      destruct (a_desc ar') as [[p' i']|]; [|exact H]. destruct H as (k & d' & Hk & Hb & Hn & Hl).
      exists k. destruct (decide ((p, i) = (p', i'))) as [E|E].
      * eexists. rewrite E, lookup_insert_eq. do 3 (split; [eassumption|]). split; [reflexivity|]. exact Hl.
      * exists d'. rewrite lookup_insert_ne by exact E. destruct Hl. auto 10.
Qed.

(** A block in a free list, with its arena. *)
Lemma free_block s p i d b :
  hinv0 s -> 0 <= p < 3 -> 0 <= i < 7 -> descs s !! (p, i) = Some d -> b ∈ free_list d ->
  exists a ar k, arenas s !! a = Some ar /\ a_desc ar = Some (p, i) /\ 0 <= k < per_arena i
    /\ b = block_at_idx a i k /\ free_cnt ar = free_in a (free_list d).
Proof using Type.
  intros H Hp Hi Hd Hb. destruct (h_desc s H p i Hp Hi) as (d0 & Hd0 & _ & _ & _ & Hf).
  rewrite Hd in Hd0. injection Hd0 as <-. destruct (Hf b Hb) as (a & ar & k & Ha & Had & Hk & E).
  destruct (ok_desc _ _ _ (h_arena s H a ar Ha) p i Had) as (d1 & Hd1 & _ & _ & Hc).
  rewrite Hd in Hd1. injection Hd1 as <-. eauto 10.
Qed.

Lemma in_page_block s a ar p i k a' ar' :
  hinv0 s -> arenas s !! a = Some ar -> a_desc ar = Some (p, i) -> 0 <= k < per_arena i ->
  arenas s !! a' = Some ar' -> in_page a' (block_at_idx a i k) = bool_decide (a' = a).
Proof using Type.
  intros H Ha Had Hk Ha'. destruct (small_index s a ar p i H Ha Had) as [_ Hi].
  destruct (block_range a i k Hi Hk) as [R1 R2]. destruct (sizes_range i Hi) as (Hsz & _).
  unfold in_page. case_bool_decide as E.
  - subst. unfold ARENA_SIZE in *. apply andb_true_intro. split; [apply Z.leb_le|apply Z.ltb_lt]; lia.
  - pose proof (ok_pages _ _ _ (h_arena s H a' ar' Ha')) as Hp'.
    pose proof (ok_pages _ _ _ (h_arena s H a ar Ha)) as Hp.
    assert (pages_of ar = 1) by (unfold pages_of; rewrite Had; reflexivity).
    change PGSIZE with 4096 in *. unfold ARENA_SIZE in *. apply andb_false_iff.
    rewrite Z.leb_gt, Z.ltb_ge.
    destruct (h_apart s H a ar a' ar' Ha Ha' ltac:(auto)); change PGSIZE with 4096 in *; lia.
Qed.

Lemma free_in_cons a b l : free_in a (b :: l) = b2z (in_page a b) + free_in a l.
Proof using Type.
  unfold free_in, lenZ. rewrite filter_cons. destruct (in_page a b); cbn [b2z].
  - rewrite decide_True by reflexivity. cbn [length]. lia.
  - rewrite decide_False by discriminate. lia.
Qed.

Lemma free_in_nonneg a l : 0 <= free_in a l.
Proof using Type. unfold free_in, lenZ. lia. Qed.

Lemma get_desc_run s q d : descs s !! q = Some d -> get_desc q s = Ret (d, s).
Proof using Type. unfold get_desc. intros ->. reflexivity. Qed.

Lemma put_desc_run s q d d' : descs s !! q = Some d -> put_desc q d' s = Ret (tt, set_descs s (<[q := d']> (descs s))).
Proof using Type. unfold put_desc. intros ->. reflexivity. Qed.

Lemma put_free_list_run s q d l :
  descs s !! q = Some d ->
  put_free_list q l s = Ret (tt, set_descs s
    (<[q := mk_desc (d_block_size d) (blocks_per_arena d) l (locked d)]> (descs s))).
Proof using Type.
  intros H. unfold put_free_list. rewrite (st_bind_run _ _ _ _ _ (get_desc_run _ _ _ H)).
  apply (put_desc_run _ _ _ _ H).
Qed.

Lemma lock_acquire_run s q d :
  descs s !! q = Some d -> locked d = false ->
  lock_acquire q s = Ret (tt, set_descs s
    (<[q := mk_desc (d_block_size d) (blocks_per_arena d) (free_list d) true]> (descs s))).
Proof using Type.
  intros H Hl. unfold lock_acquire. rewrite (st_bind_run _ _ _ _ _ (get_desc_run _ _ _ H)), Hl.
  rewrite (st_bind_run _ _ s tt s) by reflexivity. apply (put_desc_run _ _ _ _ H).
Qed.

Lemma lock_release_run s q d :
  descs s !! q = Some d -> locked d = true ->
  lock_release q s = Ret (tt, set_descs s
    (<[q := mk_desc (d_block_size d) (blocks_per_arena d) (free_list d) false]> (descs s))).
Proof using Type.
  intros H Hl. unfold lock_release. rewrite (st_bind_run _ _ _ _ _ (get_desc_run _ _ _ H)), Hl.
  rewrite (st_bind_run _ _ s tt s) by reflexivity. apply (put_desc_run _ _ _ _ H).
Qed.

(** ** Taking a block *)

Section Pop.
Context (s : hstate) (p i : Z) (d : desc) (b : Z) (l : list Z).
Hypothesis (H : hinv0 s) (Hp : 0 <= p < 3) (Hi : 0 <= i < 7)
  (Hd : descs s !! (p, i) = Some d) (Hl : free_list d = b :: l).

Lemma pop_facts :
  exists a ar k, arenas s !! a = Some ar /\ a_desc ar = Some (p, i) /\ 0 <= k < per_arena i
    /\ b = block_at_idx a i k /\ free_cnt ar = 1 + free_in a l /\ in_page a b = true /\
    hinv0 (with_free s p i d l false a ar (free_in a l)).
Proof using H Hp Hi Hd Hl.
  destruct (free_block s p i d b H Hp Hi Hd) as (a & ar & k & Ha & Had & Hk & E & Hc);
    [rewrite Hl; constructor|].
  pose proof (in_page_block s a ar p i k a ar H Ha Had Hk Ha) as Hpg.
  rewrite bool_decide_eq_true_2 in Hpg by reflexivity.
  exists a, ar, k. rewrite Hl, free_in_cons, E, Hpg in Hc. rewrite E.
  do 6 (split; [assumption || reflexivity|]).
  destruct (h_desc s H p i Hp Hi) as (d0 & Hd0 & _ & _ & Hnd & Hb).
  rewrite Hd in Hd0. injection Hd0 as <-. rewrite Hl in Hnd, Hb. apply NoDup_cons in Hnd as [_ Hnd].
  apply with_free_hinv0; auto.
  - intros b' Hb'. apply Hb. constructor. exact Hb'.
  - intros a' ar' Ha' Hne. rewrite Hl, free_in_cons, E.
    rewrite (in_page_block s a ar p i k a' ar') by assumption.
    rewrite bool_decide_eq_false_2 by exact Hne. reflexivity.
Qed.

Lemma pop_live a ar k c b' n :
  arenas s !! a = Some ar -> a_desc ar = Some (p, i) -> 0 <= k < per_arena i -> b = block_at_idx a i k ->
  live (with_free s p i d l false a ar c) b' n <-> live s b' n \/ b' = b /\ n = size_of i.
Proof using H Hp Hi Hd Hl.
  intros Ha Had Hk E. rewrite with_free_live_iff by assumption.
  destruct (h_desc s H p i Hp Hi) as (d0 & Hd0 & _ & _ & Hnd & _).
  rewrite Hd in Hd0. injection Hd0 as <-. rewrite Hl in Hnd. apply NoDup_cons in Hnd as [Hnb _].
  split.
  - intros (a' & ar' & Ha' & HH). destruct (a_desc ar') as [[p' i']|] eqn:Ed.
    + destruct HH as (k' & d' & Hk' & Eb & En & HH). destruct (decide ((p, i) = (p', i'))) as [Ep|Ep].
      * injection Ep as <- <-. destruct (decide (b' = b)) as [->|Hne]; [auto|]. left.
        exists a', ar'. rewrite Ed. split; [exact Ha'|]. exists k', d. rewrite Hl, not_elem_of_cons. auto 10.
      * left. exists a', ar'. rewrite Ed. split; [exact Ha'|]. exists k', d'. destruct HH. auto 10.
    + left. exists a', ar'. rewrite Ed. auto.
  - intros [(a' & ar' & Ha' & HH)|[-> ->]].
    + exists a', ar'. split; [exact Ha'|]. destruct (a_desc ar') as [[p' i']|]; [|exact HH].
      destruct HH as (k' & d' & Hk' & Eb & En & Hd' & HH). exists k', d'.
      destruct (decide ((p, i) = (p', i'))) as [Ep|Ep]; [|auto 10].
      injection Ep as <- <-. rewrite Hd in Hd'. injection Hd' as <-. rewrite Hl, not_elem_of_cons in HH.
      destruct HH. auto 10.
    + exists a, ar. rewrite Had. split; [exact Ha|]. exists k, d. rewrite decide_True by reflexivity. auto.
Qed.

Lemma pop_block_run a ar k :
  locked d = true -> arenas s !! a = Some ar -> a_desc ar = Some (p, i) -> 0 <= k < per_arena i ->
  b = block_at_idx a i k -> free_cnt ar = 1 + free_in a l -> free_cnt ar < 2 ^ 32 ->
  pop_block (p, i) s = Ret (b, with_free s p i d l false a ar (free_in a l)).
Proof using H Hp Hi Hd Hl.
  intros Hlk Ha Had Hk E Hc Hw. unfold pop_block.
  rewrite (st_bind_run _ _ _ _ _ (get_desc_run _ _ _ Hd)), Hl.
  destruct (h_desc s H p i Hp Hi) as (d0 & Hd0 & Hz & _). rewrite Hd in Hd0. injection Hd0 as <-.
  pose proof (arena_at_inv s a ar H Ha) as Hat. destruct (block_range a i k Hi Hk) as [R1 R2].
  rewrite (proj2 (Z.eqb_neq b NULL)) by (destruct Hat as (_ & _ & ? & _); unfold NULL, ARENA_SIZE in *; lia).
  rewrite (st_bind_run _ _ s tt s) by reflexivity.
  rewrite (st_bind_run _ _ _ _ _ (put_free_list_run _ _ _ _ Hd)).
  set (s1 := set_descs s _).
  assert (Hd1 : descs s1 !! (p, i) = Some (mk_desc (d_block_size d) (blocks_per_arena d) l (locked d)))
    by (apply lookup_insert_eq).
  assert (Hb : block_to_arena b s1 = Ret ((a, ar), s1)).
  { rewrite E. apply (block_to_arena_small s1 a ar p i _ k Hat Had Hd1); auto. }
  rewrite (st_bind_run _ _ _ _ _ Hb). pose proof (free_in_nonneg a l).
  rewrite (wrap_id 32) by (unfold inU; lia). replace (free_cnt ar - 1) with (free_in a l) by lia.
  erewrite st_bind_run; [|reflexivity]. erewrite st_bind_run; [|apply lock_release_run; [exact Hd1|exact Hlk]].
  unfold with_free, s1, set_descs, set_arenas. cbn. rewrite insert_insert_eq. reflexivity.
Qed.
End Pop.

(** ** New arenas *)

Lemma groups_apart (f : Z -> bool) i n j m :
  group f i n true -> group f j m false -> 0 < n -> 0 < m -> i + n <= j \/ j + m <= i.
Proof using Type.
  intros H1 H2 Hn Hm. destruct (Z.le_gt_cases (i + n) j); [auto|].
  destruct (Z.le_gt_cases (j + m) i); [auto|]. exfalso.
  assert (E1 := H1 (Z.max i j) ltac:(lia)). assert (E2 := H2 (Z.max i j) ltac:(lia)). congruence.
Qed.

Section Given.
Context (s : hstate) (pal' : palloc_state B) (o : owner) (idx cnt : Z).
Hypothesis (H : hinv0 s) (Hinv' : inv pal') (Hgiven : given (pal s) pal' o idx cnt)
  (Hfree : group (ba_bit (used_map (mem_pool (pal s)))) idx cnt false)
  (Hidx : 0 <= idx) (Hcnt : 0 < cnt) (Hfit : idx + cnt <= ba_size (used_map (mem_pool (pal s)))).

Lemma given_apart a ar :
  arenas s !! a = Some ar ->
  a + PGSIZE * pages_of ar <= base (mem_pool (pal s)) + PGSIZE * idx
  \/ base (mem_pool (pal s)) + PGSIZE * idx + PGSIZE * cnt <= a.
Proof using H Hfree Hcnt.
  intros Ha. destruct (h_arena s H a ar Ha) as [_ Hp (j & o' & -> & Hj & Hn & (Hu & _)) _].
  change PGSIZE with 4096. destruct (groups_apart _ _ _ _ _ Hu Hfree Hp Hcnt); lia.
Qed.

Lemma given_hinv0 : hinv0 (set_pal s pal').
Proof using H Hinv' Hgiven Hfree Hcnt.
  destruct H as [H1 H2 H3 H4 H5]. split; cbn [set_pal pal arenas descs desc_cnt]; auto.
  intros a ar Ha. destruct (H4 a ar Ha) as [M P (j & o' & Ea & Hj & Hn & Ho) D].
  split; auto. exists j, o'. cbn [set_pal pal]. destruct Ho as (Hu & Ht & Hw).
  rewrite (given_base _ _ _ _ _ Hgiven), (given_npages _ _ _ _ _ Hgiven).
  destruct (groups_apart _ _ _ _ _ Hu Hfree P Hcnt) as [E|E];
    (split; [exact Ea|]; split; [exact Hj|]; split; [exact Hn|]; split; [|split]; intros x Hx;
     [rewrite (given_used _ _ _ _ _ Hgiven)|rewrite (given_tc _ _ _ _ _ Hgiven)
     |rewrite (given_swap _ _ _ _ _ Hgiven)];
     [|destruct o..]; rewrite ?set_range_out by lia; auto).
Qed.
End Given.

Definition blocks (a i : Z) : list Z := (block_at_idx a i) <$> seqZ 0 (per_arena i).

Lemma elem_of_blocks a i b : b ∈ blocks a i <-> exists k, 0 <= k < per_arena i /\ b = block_at_idx a i k.
Proof using Type.
  unfold blocks. rewrite list_elem_of_fmap. setoid_rewrite elem_of_seqZ.
  split; intros (k & H1 & H2); exists k; auto with lia.
Qed.

Lemma blocks_nodup a i : 0 <= i < 7 -> NoDup (blocks a i).
Proof using Type.
  intros Hi. apply NoDup_fmap_2_strong; [|apply NoDup_seqZ]. intros x y _ _. apply block_inj, Hi.
Qed.

Lemma free_in_all a l : (forall b, b ∈ l -> in_page a b = true) -> free_in a l = lenZ l.
Proof using Type.
  induction l as [|b l IH]; intros Hl; [reflexivity|]. rewrite free_in_cons, IH.
  - rewrite Hl by constructor. unfold lenZ. cbn. lia.
  - intros x Hx. apply Hl. constructor. exact Hx.
Qed.

Lemma free_in_none a l : (forall b, b ∈ l -> in_page a b = false) -> free_in a l = 0.
Proof using Type.
  induction l as [|b l IH]; intros Hl; [reflexivity|]. rewrite free_in_cons, IH.
  - rewrite Hl by constructor. reflexivity.
  - intros x Hx. apply Hl. constructor. exact Hx.
Qed.

Lemma blocks_length a i : 0 <= i < 7 -> lenZ (blocks a i) = per_arena i.
Proof using Type.
  intros Hi. destruct (sizes_range i Hi). unfold lenZ, blocks. rewrite length_fmap, length_seqZ. lia.
Qed.

Lemma in_page_own a i k : 0 <= i < 7 -> 0 <= k < per_arena i -> in_page a (block_at_idx a i k) = true.
Proof using Type.
  intros Hi Hk. destruct (block_range a i k Hi Hk), (sizes_range i Hi) as (? & _).
  unfold in_page, ARENA_SIZE in *. apply andb_true_intro. split; [apply Z.leb_le|apply Z.ltb_lt]; lia.
Qed.

(** Adding an arena in pages that hold none. *)
Section NewArena.
Context (s : hstate) (a : Z) (ar : arena).
Hypothesis (H : hinv0 s)
  (Hnew : forall a' ar', arenas s !! a' = Some ar' ->
          a' + PGSIZE * pages_of ar' <= a \/ a + PGSIZE * pages_of ar <= a')
  (Hmagic : magic ar = ARENA_MAGIC) (Hpages : 0 < pages_of ar)
  (Hplace : exists idx o, a = base (mem_pool (pal s)) + PGSIZE * idx /\ 0 <= idx /\
    idx + pages_of ar <= ba_size (used_map (mem_pool (pal s))) /\ owned (pal s) o idx (pages_of ar)).

Lemma new_arena_fresh : arenas s !! a = None.
Proof using H Hnew Hpages.
  destruct (arenas s !! a) as [ar'|] eqn:E; [|reflexivity]. exfalso.
  pose proof (ok_pages _ _ _ (h_arena s H a ar' E)). destruct (Hnew a ar' E); change PGSIZE with 4096 in *; lia.
Qed.

Lemma new_arena_apart a1 ar1 a2 ar2 :
  <[a := ar]> (arenas s) !! a1 = Some ar1 -> <[a := ar]> (arenas s) !! a2 = Some ar2 -> a1 <> a2 ->
  a1 + PGSIZE * pages_of ar1 <= a2 \/ a2 + PGSIZE * pages_of ar2 <= a1.
Proof using H Hnew.
  rewrite !lookup_insert_Some. intros [[<- <-]|[_ E1]] [[<- <-]|[_ E2]] Hne; [easy|..].
  - specialize (Hnew _ _ E2). tauto.
  - apply Hnew, E1.
  - apply (h_apart s H _ _ _ _ E1 E2 Hne).
Qed.

Lemma new_arena_block p i b :
  (exists a' ar' k, arenas s !! a' = Some ar' /\ a_desc ar' = Some (p, i)
      /\ 0 <= k < per_arena i /\ b = block_at_idx a' i k) ->
  exists a' ar' k, <[a := ar]> (arenas s) !! a' = Some ar' /\ a_desc ar' = Some (p, i)
      /\ 0 <= k < per_arena i /\ b = block_at_idx a' i k.
Proof using H Hnew Hpages.
  intros (a' & ar' & k & Ha' & R). exists a', ar', k. split; [|exact R].
  rewrite lookup_insert_ne; [exact Ha'|]. intros <-. rewrite new_arena_fresh in Ha'. discriminate.
Qed.

Lemma new_big_hinv0 : a_desc ar = None -> hinv0 (set_arenas s (<[a := ar]> (arenas s))).
Proof using H Hnew Hmagic Hpages Hplace.
  intros Hd. pose proof H as [H1 H2 H3 H4 H5].
  split; cbn [set_arenas pal arenas descs desc_cnt]; auto.
  - intros p i Hp Hi. destruct (H3 p i Hp Hi) as (d & Hd' & Z1 & Z2 & Z3 & Z4). exists d.
    repeat (split; [assumption|]). intros b Hb. apply new_arena_block, Z4, Hb.
  - intros a' ar'. rewrite lookup_insert_Some. intros [[<- <-]|[_ Ha']].
    + split; auto. rewrite Hd. discriminate.
    + destruct (H4 a' ar' Ha') as [M P L D]. split; auto.
  - exact new_arena_apart.
Qed.

Lemma new_big_live b n :
  a_desc ar = None ->
  live (set_arenas s (<[a := ar]> (arenas s))) b n <->
  live s b n \/ b = a + ARENA_SIZE /\ n = PGSIZE * free_cnt ar - ARENA_SIZE.
Proof using H Hnew Hpages.
  intros Hd. unfold live. cbn [set_arenas arenas descs]. split.
  - intros (a' & ar' & Ha' & R). apply lookup_insert_Some in Ha' as [[<- <-]|[_ Ha']]; [|eauto].
    rewrite Hd in R. auto.
  - intros [(a' & ar' & Ha' & R)|R].
    + exists a', ar'. split; [|exact R]. rewrite lookup_insert_ne; [exact Ha'|].
      intros <-. rewrite new_arena_fresh in Ha'. discriminate.
    + exists a, ar. rewrite lookup_insert_eq, Hd. auto.
Qed.

Section Small.
Context (p i : Z) (d : desc) (lk : bool).
Hypothesis (Hp : 0 <= p < 3) (Hi : 0 <= i < 7) (Hd : descs s !! (p, i) = Some d)
  (Hnil : free_list d = []) (Hdesc : a_desc ar = Some (p, i)) (Hc : free_cnt ar = per_arena i).

Definition with_arena : hstate :=
  mk_hstate (pal s) (<[a := ar]> (arenas s))
    (<[(p, i) := mk_desc (d_block_size d) (blocks_per_arena d) (blocks a i) lk]> (descs s)) (desc_cnt s).

Lemma new_small_count a' ar' : arenas s !! a' = Some ar' -> free_in a' (blocks a i) = 0.
Proof using H Hnew Hi Hdesc.
  intros Ha'. apply free_in_none. intros b (k & Hk & ->)%elem_of_blocks.
  destruct (block_range a i k Hi Hk), (sizes_range i Hi) as (? & _).
  pose proof (ok_pages _ _ _ (h_arena s H a' ar' Ha')). specialize (Hnew a' ar' Ha').
  unfold pages_of in Hnew at 2. rewrite Hdesc in Hnew.
  unfold in_page, ARENA_SIZE in *. change PGSIZE with 4096 in *.
  apply andb_false_iff. rewrite Z.leb_gt, Z.ltb_ge. lia.
Qed.

Lemma new_small_hinv0 : hinv0 with_arena.
Proof using H Hnew Hmagic Hpages Hplace Hp Hi Hd Hnil Hdesc Hc.
  pose proof H as [H1 H2 H3 H4 H5].
  split; cbn [with_arena pal arenas descs desc_cnt]; auto.
  - intros p' i' Hp' Hi'. destruct (H3 p' i' Hp' Hi') as (d' & Hd' & Z1 & Z2 & Z3 & Z4).
    destruct (decide ((p, i) = (p', i'))) as [E|E].
    + injection E as <- <-. rewrite Hd in Hd'. injection Hd' as <-. rewrite lookup_insert_eq.
      eexists. split; [reflexivity|]. cbn. do 2 (split; [assumption|]). split; [apply blocks_nodup, Hi|].
      intros b (k & Hk & ->)%elem_of_blocks. exists a, ar, k. rewrite lookup_insert_eq. auto.
    + rewrite lookup_insert_ne by exact E. exists d'. repeat (split; [assumption|]).
      intros b Hb. apply new_arena_block, Z4, Hb.
  - intros a' ar'. rewrite lookup_insert_Some. intros [[<- <-]|[Hne Ha']].
    + split; auto. intros p' i' Hpi. rewrite Hdesc in Hpi. injection Hpi as <- <-.
      cbn [with_arena descs]. rewrite lookup_insert_eq. eexists. split; [reflexivity|]. cbn.
      rewrite free_in_all, blocks_length by (auto; intros b (k & Hk & ->)%elem_of_blocks; auto using in_page_own).
      auto.
    + destruct (H4 a' ar' Ha') as [M P L D]. split; auto. intros p' i' Hpi.
      destruct (D p' i' Hpi) as (d' & Hd' & R1 & R2 & R3). cbn [with_arena descs].
      destruct (decide ((p, i) = (p', i'))) as [E|E].
      * injection E as <- <-. rewrite Hd in Hd'. injection Hd' as <-. rewrite lookup_insert_eq.
        eexists. split; [reflexivity|]. cbn. rewrite (new_small_count a' ar' Ha'), R3, Hnil. auto.
      * rewrite lookup_insert_ne by exact E. eauto.
  - exact new_arena_apart.
Qed.

Lemma new_small_live b n : live with_arena b n <-> live s b n.
Proof using H Hnew Hpages Hp Hi Hd Hnil Hdesc.
  unfold live. cbn [with_arena arenas descs]. split; intros (a' & ar' & Ha' & R).
  - apply lookup_insert_Some in Ha' as [[<- <-]|[_ Ha']].
    + exfalso. rewrite Hdesc in R. destruct R as (k & d' & Hk & -> & _ & Hd' & Hf).
      rewrite lookup_insert_eq in Hd'. injection Hd' as <-. apply Hf. apply elem_of_blocks. eauto.
    + exists a', ar'. split; [exact Ha'|]. destruct (a_desc ar') as [[p' i']|]; [|exact R].
      destruct R as (k & d' & Hk & Hb & Hn & Hd' & Hf). exists k.
      destruct (decide ((p, i) = (p', i'))) as [E|E].
      * injection E as <- <-. exists d. rewrite Hnil. auto 10 using not_elem_of_nil.
      * rewrite lookup_insert_ne in Hd' by exact E. eauto 10.
  - exists a', ar'. rewrite lookup_insert_ne
      by (intros <-; rewrite new_arena_fresh in Ha'; discriminate).
    split; [exact Ha'|]. destruct (a_desc ar') as [[p' i']|] eqn:Ed; [|exact R].
    destruct R as (k & d' & Hk & Hb & Hn & Hd' & Hf). exists k.
    destruct (decide ((p, i) = (p', i'))) as [E|E].
    + injection E as <- <-. eexists. rewrite lookup_insert_eq. do 3 (split; [eassumption|]).
      split; [reflexivity|]. cbn. intros Hin.
      assert (Hz : free_in a' (blocks a i) = 0) by (apply (new_small_count a' ar' Ha')).
      subst b. pose proof (in_page_own a' i k Hi Hk) as Hpg.
      apply list_elem_of_split in Hin as (l1 & l2 & El). rewrite El in Hz. unfold free_in in Hz.
      rewrite filter_app, filter_cons, decide_True in Hz by exact Hpg.
      unfold lenZ in Hz. rewrite length_app in Hz. cbn [length] in Hz. lia.
    + exists d'. rewrite lookup_insert_ne by exact E. auto 10.
Qed.
End Small.
End NewArena.

Lemma push_blocks_run n s a ar p i d k :
  arena_at s a ar -> a_desc ar = Some (p, i) -> descs s !! (p, i) = Some d -> 0 <= i < 7 ->
  d_block_size d = size_of i -> blocks_per_arena d = per_arena i -> 0 <= k -> k + Z.of_nat n <= per_arena i ->
  push_blocks n (p, i) a k s = Ret (tt, set_descs s (<[(p, i) :=
    mk_desc (d_block_size d) (blocks_per_arena d) (free_list d ++ (block_at_idx a i <$> seqZ k (Z.of_nat n))) (locked d)]>
    (descs s))).
Proof using Type.
  revert s d k. induction n as [|n IH]; intros s d k Hat Had Hd Hi Hz Hb Hk Hn; cbn [push_blocks].
  - rewrite seqZ_nil by lia. rewrite app_nil_r.
    replace (mk_desc _ _ _ _) with d by (destruct d; reflexivity).
    rewrite insert_id by exact Hd. destruct s; reflexivity.
  - rewrite (st_bind_run _ _ _ _ _ (arena_to_block_run s a ar p i d k Hat Had Hd Hi Hz Hb ltac:(lia))).
    rewrite (st_bind_run _ _ _ _ _ (get_desc_run _ _ _ Hd)).
    rewrite (st_bind_run _ _ _ _ _ (put_free_list_run _ _ _ _ Hd)).
    rewrite (IH _ (mk_desc (d_block_size d) (blocks_per_arena d) (free_list d ++ [block_at_idx a i k]) (locked d)));
      [|exact Hat|exact Had|apply lookup_insert_eq|assumption..|lia|lia].
    cbn [set_descs descs d_block_size blocks_per_arena free_list locked pal arenas desc_cnt].
    unfold set_descs. cbn [descs pal arenas desc_cnt]. rewrite insert_insert_eq.
    rewrite (seqZ_cons k) by lia. rewrite fmap_cons, <- app_assoc. repeat f_equal; lia.
Qed.

Lemma find_desc_run n s p i size :
  hinv0 s -> 0 <= p < 3 -> 0 <= i -> i + Z.of_nat n = 7 ->
  exists j, find_desc n p i size s = Ret (j, s) /\ i <= j <= 7 /\ (j < 7 -> size <= size_of j) /\
    (forall m, i <= m < j -> size_of m < size).
Proof using Type.
  intros H Hp. revert i. induction n as [|n IH]; intros i Hi Hn; cbn [find_desc].
  - exists i. split; [reflexivity|]. split; [lia|]. split; intros; lia.
  - destruct (h_desc s H p i Hp ltac:(lia)) as (d & Hd & Hz & _).
    rewrite (st_bind_run _ _ _ _ _ (get_desc_run _ _ _ Hd)), Hz.
    destruct (Z.leb_spec size (size_of i)) as [Hs|Hs].
    + exists i. split; [reflexivity|]. split; [lia|]. split; intros; lia.
    + destruct (IH (i + 1)) as (j & -> & Hj & H1 & H2); [lia..|]. exists j. split; [reflexivity|].
      split; [lia|]. split; [exact H1|]. intros m Hm.
      destruct (decide (m = i)) as [->|]; [lia|]. apply H2. lia.
Qed.

(** A block in a free list is not live. *)
Lemma free_not_live s p i d b n :
  hinv0 s -> 0 <= p < 3 -> 0 <= i < 7 -> descs s !! (p, i) = Some d -> b ∈ free_list d -> ~ live s b n.
Proof using Type.
  intros H Hp Hi Hd Hb (a' & ar' & L).
  destruct (free_block s p i d b H Hp Hi Hd Hb) as (a & ar & k & Ha & Had & Hk & E & _).
  destruct (live_in_range s b n a' ar' H L) as (R1 & R2 & R3).
  destruct (block_range a i k Hi Hk) as [Q1 Q2], (sizes_range i Hi) as (Hsz & _). unfold ARENA_SIZE in *.
  assert (a = a') as <-.
  { apply (arena_unique s a ar a' ar' b H Ha (proj1 L)); [|lia].
    unfold pages_of. rewrite Had. change PGSIZE with 4096 in *. lia. }
  destruct L as [Ha' L]. rewrite Ha in Ha'. injection Ha' as <-. rewrite Had in L.
  destruct L as (k' & d' & _ & _ & _ & Hd' & Hf). rewrite Hd in Hd'. injection Hd' as <-. auto.
Qed.

Lemma set_desc_similar s q d d' :
  descs s !! q = Some d -> shape d' = shape d -> similar s (set_descs s (<[q := d']> (descs s))).
Proof using Type.
  intros Hd Hs. split; cbn [set_descs pal arenas descs desc_cnt]; auto.
  - exists (memory (pal s)). symmetry. apply set_memory_id.
  - intros k. destruct (decide (q = k)) as [<-|E]; [|rewrite lookup_insert_ne by exact E; reflexivity].
    rewrite lookup_insert_eq, Hd. cbn. congruence.
Qed.

Lemma flags_plain p : nz (pool_flags p &! PAL_ASSERT) = false /\ nz (pool_flags p &! PAL_ZERO) = false.
Proof using Type. unfold pool_flags. destruct (p =? POOL_TC); [|destruct (p =? POOL_SWAP)]; split; reflexivity. Qed.

(** The page allocator cannot give [cnt] pages to pool [p]. *)
Definition no_pages (s : hstate) (p cnt : Z) : Prop :=
  over_quota (pal s) (pool_flags p) cnt = true \/ no_room (pal s) cnt.

(** What a request for pages does to the heap. *)
Lemma get_pages_ok s p cnt :
  hinv0 s -> 0 < cnt ->
  get_pages (pool_flags p) cnt s = Ret (NULL, s) /\ no_pages s p cnt \/
  exists a idx pal' o, get_pages (pool_flags p) cnt s = Ret (a, set_pal s pal') /\ a <> NULL /\
    a = base (mem_pool (pal s)) + PGSIZE * idx /\ memory pal' = memory (pal s) /\
    hinv0 (set_pal s pal') /\ 0 <= idx /\ idx + cnt <= ba_size (used_map (mem_pool pal')) /\
    base (mem_pool pal') = base (mem_pool (pal s)) /\ owned pal' o idx cnt /\
    (forall a' ar', arenas s !! a' = Some ar' -> a' + PGSIZE * pages_of ar' <= a \/ a + PGSIZE * cnt <= a').
Proof using Type.
  intros H Hc. unfold get_pages. destruct (flags_plain p) as [F1 F2].
  pose proof (get_multiple_correct (pal s) (pool_flags p) cnt (h_pal s H) ltac:(lia)) as Hg.
  destruct (palloc_get_multiple (pal s) (pool_flags p) cnt) as [[r pal']|e];
    [|destruct Hg as (_ & Hg & _); rewrite F1 in Hg; discriminate].
  destruct Hg as (Hi & [[-> ->]|(idx & -> & Hr & H0 & Hfit & Hf & Gv & Hm)] & Hwhy).
  - left. split; [destruct s; reflexivity|]. unfold no_pages. destruct (Hwhy eq_refl) as [?|[?|?]]; auto; lia.
  - right. rewrite F2 in Hm. exists (base (mem_pool (pal s)) + PGSIZE * idx), idx, pal', (owner_of (pool_flags p)).
    split; [reflexivity|]. do 3 (split; [assumption || reflexivity|]).
    split; [apply (given_hinv0 s pal' (owner_of (pool_flags p)) idx cnt); assumption|].
    split; [exact H0|]. split; [rewrite (given_npages _ _ _ _ _ Gv); exact Hfit|].
    split; [apply (given_base _ _ _ _ _ Gv)|].
    split; [apply (given_owned (pal s)); auto; apply (h_pal s H)|].
    intros a' ar'. apply (given_apart s idx cnt H Hf Hc).
Qed.

(** ** [malloc_from_pool] *)

(** What an allocation from pool [p] may do: nothing, when there are not [cnt]
    pages, or add one block of [size] bytes or more. *)
Definition allocated_block (s : hstate) (cnt p size r : Z) (s' : hstate) : Prop :=
  hinv s' /\ memory (pal s') = memory (pal s) /\
  (r = NULL /\ no_pages s p cnt /\ (forall b n, live s' b n <-> live s b n) \/
   r <> NULL /\ exists n, size <= n /\ (forall m, ~ live s r m) /\
     forall b m, live s' b m <-> live s b m \/ b = r /\ m = n).

Lemma pop_block_ok s p i d b l :
  hinv0 s -> 0 <= p < 3 -> 0 <= i < 7 -> descs s !! (p, i) = Some d -> free_list d = b :: l ->
  locked d = true ->
  (forall p' i' d', 0 <= p' < 3 -> 0 <= i' < 7 -> (p', i') <> (p, i) -> descs s !! (p', i') = Some d' ->
    locked d' = false) ->
  (forall a ar p' i', arenas s !! a = Some ar -> a_desc ar = Some (p', i') ->
    free_cnt ar < per_arena i' \/ in_page a b = true /\ free_cnt ar <= per_arena i') ->
  exists s', pop_block (p, i) s = Ret (b, s') /\ allocated_block s 1 p (size_of i) b s'.
Proof using Type.
  intros H Hp Hi Hd Hl Hlk Hother Hused.
  destruct (pop_facts s p i d b l H Hp Hi Hd Hl) as (a & ar & k & Ha & Had & Hk & E & Hc & Hpg & H').
  destruct (sizes_range i Hi) as (S1 & S2 & _).
  exists (with_free s p i d l false a ar (free_in a l)).
  split; [apply (pop_block_run s p i d b l H Hp Hi Hd Hl a ar k); auto|].
  { destruct (Hused a ar p i Ha Had); lia. }
  split; [split; [exact H'|split]|split; [reflexivity|right]].
  - intros p' i' d' Hp' Hi' Hd'. cbn [with_free descs] in Hd'.
    apply lookup_insert_Some in Hd' as [[_ <-]|[Hne Hd']]; [reflexivity|]. eauto.
  - intros a' ar' p' i' Ha' Had'. cbn [with_free arenas] in Ha'.
    apply lookup_insert_Some in Ha' as [[<- <-]|[Hne Ha']]; cbn [a_desc free_cnt] in *.
    + rewrite Had in Had'. injection Had' as <- <-. destruct (Hused a ar p i Ha Had); lia.
    + destruct (Hused a' ar' p' i' Ha' Had') as [|[Hpg' _]]; [assumption|].
      rewrite E, (in_page_block s a ar p i k a' ar') in Hpg' by assumption.
      apply bool_decide_eq_true in Hpg'. congruence.
  - split; [destruct (arena_addr s a ar H Ha) as (? & _), (block_range a i k Hi Hk);
            unfold NULL, ARENA_SIZE in *; lia|].
    exists (size_of i). split; [lia|]. split.
    + intros m. apply (free_not_live s p i d b m H Hp Hi Hd). rewrite Hl. constructor.
    + intros b' m. apply (pop_live s p i d b l H Hp Hi Hd Hl a ar k); auto.
Qed.

Lemma malloc_big_ok s p size :
  hinv s -> 0 < size -> size + ARENA_SIZE + PGSIZE <= 2 ^ 32 ->
  exists r s', malloc_big p size s = Ret (r, s') /\
    allocated_block s ((size + ARENA_SIZE + PGSIZE - 1) / PGSIZE) p size r s'.
Proof using Type.
  intros (H & Hul & Hsu) Hs Hw. unfold malloc_big, DIV_ROUND_UP. change PGSIZE with 4096 in *.
  unfold ARENA_SIZE in *. rewrite (wrap_id 32 (size + 12)) by (unfold inU; lia).
  rewrite (wrap_id 32) by (unfold inU; lia). set (cnt := (size + 12 + 4096 - 1) / 4096).
  assert (Hc : 0 < cnt /\ size + 12 <= 4096 * cnt) by (subst cnt; Z.div_mod_to_equations; lia).
  destruct (get_pages_ok s p cnt H ltac:(lia)) as
    [[E Hwhy]|(a & idx & pal' & o & E & Hn & Ea & Hm & H' & H0 & Hfit & Hb & Ho & Hap)];
    rewrite (st_bind_run _ _ _ _ _ E).
  - exists NULL, s. split; [reflexivity|]. split; [split; auto|]. split; [reflexivity|]. left. split; [reflexivity|].
    split; [exact Hwhy|]. intros. reflexivity.
  - rewrite (proj2 (Z.eqb_neq a NULL) Hn). set (ar := mk_arena ARENA_MAGIC None cnt).
    set (s1 := set_pal s pal') in *.
    assert (Hpl : exists idx o, a = base (mem_pool (pal s1)) + PGSIZE * idx /\ 0 <= idx /\
      idx + pages_of ar <= ba_size (used_map (mem_pool (pal s1))) /\ owned (pal s1) o idx (pages_of ar)).
    { exists idx, o. cbn. rewrite Hb. auto. }
    pose proof (new_big_hinv0 s1 a ar H' Hap eq_refl ltac:(cbn; lia) Hpl eq_refl) as H2.
    pose proof (new_big_live s1 a ar) as HL.
    assert (Ha : 0 < a /\ a + 4096 * cnt <= 2 ^ 32).
    { destruct (arena_addr _ a ar H2 (lookup_insert_eq _ _ _)) as (? & _ & ? & _).
      change PGSIZE with 4096 in *. cbn in *. lia. }
    rewrite (st_bind_run _ _ s1 tt _ eq_refl). rewrite wrap_id by (unfold inU; lia).
    eexists _, _. split; [reflexivity|]. split; [split; [exact H2|split]|split; [exact Hm|right]].
    + exact Hul.
    + intros a' ar' p' i' Ha' Had'. cbn [set_arenas arenas] in Ha'. apply lookup_insert_Some in Ha' as [[<- <-]|[_ Ha']]; [discriminate|].
      eapply Hsu; eassumption.
    + split; [unfold NULL; lia|]. exists (4096 * cnt - 12). split; [lia|]. split.
      * intros m (a' & ar' & L). destruct (live_in_range s (a + 12) m a' ar' H L) as (R1 & R2 & R3).
        destruct (Hap a' ar' (proj1 L)); change PGSIZE with 4096 in *; unfold ARENA_SIZE in *; lia.
      * intros b m. apply (HL H' Hap (proj1 Hc) b m eq_refl).
Qed.

Lemma live_similar_iff s s' b n : similar s s' -> live s b n <-> live s' b n.
Proof using Type. intros Hs. split; apply similar_live; [exact Hs|apply similar_sym, Hs]. Qed.

Lemma no_pages_similar s s1 p cnt : similar s s1 -> no_pages s1 p cnt -> no_pages s p cnt.
Proof using Type. intros [[m E] _ _ _]. unfold no_pages. rewrite E. auto. Qed.

Lemma allocated_similar s s1 cnt p size size' r s' :
  similar s s1 -> memory (pal s1) = memory (pal s) -> size' <= size ->
  allocated_block s1 cnt p size r s' -> allocated_block s cnt p size' r s'.
Proof using Type.
  intros Hs Hm Hle (H1 & H2 & H3). split; [exact H1|]. split; [congruence|].
  assert (HL := fun b n => live_similar_iff s s1 b n Hs).
  destruct H3 as [(-> & Hw & H3)|(Hr & n & Hn & Hf & H3)]; [left|right].
  - split; [reflexivity|]. split; [apply (no_pages_similar s s1 p cnt Hs Hw)|]. intros b n. rewrite H3. symmetry. apply HL.
  - split; [exact Hr|]. exists n. split; [lia|]. split; [intros m; rewrite HL; apply Hf|].
    intros b m. rewrite H3, HL. reflexivity.
Qed.

Lemma malloc_small_ok s p i d size :
  hinv s -> 0 <= p < 3 -> 0 <= i < 7 -> size <= size_of i -> descs s !! (p, i) = Some d ->
  exists r s',
    (lock_acquire (p, i);;
     x ← get_desc (p, i);
     match free_list x with
     | [] =>
         a ← get_pages (pool_flags p) 1;
         if a =? NULL then lock_release (p, i);; mret NULL
         else
           put_header a (mk_arena ARENA_MAGIC (Some (p, i)) (blocks_per_arena x));;
           push_blocks (Z.to_nat (blocks_per_arena x)) (p, i) a 0;;
           pop_block (p, i)
     | _ => pop_block (p, i)
     end) s = Ret (r, s') /\ allocated_block s 1 p size r s'.
Proof using Type.
  intros (H & Hul & Hsu) Hp Hi Hsz Hd. destruct (sizes_range i Hi) as (S1 & S2 & S3).
  destruct (h_desc s H p i Hp Hi) as (d0 & Hd0 & Hz & Hpa & _). rewrite Hd in Hd0. injection Hd0 as <-.
  rewrite (st_bind_run _ _ _ _ _ (lock_acquire_run s (p, i) d Hd (Hul p i d Hp Hi Hd))).
  set (d1 := mk_desc _ _ _ true). set (s1 := set_descs s _).
  assert (Hs1 : similar s s1) by (apply (set_desc_similar s (p, i) d); auto).
  assert (Hd1 : descs s1 !! (p, i) = Some d1) by apply lookup_insert_eq.
  pose proof (similar_hinv0 s s1 Hs1 H) as H1.
  assert (Ho1 : forall p' i' d', 0 <= p' < 3 -> 0 <= i' < 7 -> (p', i') <> (p, i) ->
    descs s1 !! (p', i') = Some d' -> locked d' = false).
  { intros p' i' d' Hp' Hi' Hne Hd'. cbn [s1 set_descs descs] in Hd'.
    rewrite lookup_insert_ne in Hd' by auto. apply (Hul p' i' d' Hp' Hi' Hd'). }
  rewrite (st_bind_run _ _ _ _ _ (get_desc_run _ _ _ Hd1)). change (free_list d1) with (free_list d).
  destruct (free_list d) as [|b l] eqn:El.
  - destruct (get_pages_ok s1 p 1 H1 ltac:(lia)) as
      [[E Hwhy]|(a & idx & pal' & o & E & Hn & Ea & Hm & H' & H0 & Hfit & Hb & Ho & Hap)];
      rewrite (st_bind_run _ _ _ _ _ E).
    + rewrite Z.eqb_refl. rewrite (st_bind_run _ _ _ _ _ (lock_release_run s1 (p, i) d1 Hd1 eq_refl)).
      exists NULL. eexists. split; [reflexivity|].
      assert (Hs2 : similar s (set_descs s1 (<[(p, i) := mk_desc (d_block_size d1) (blocks_per_arena d1)
        (free_list d1) false]> (descs s1)))).
      { eapply similar_trans; [exact Hs1|]. apply (set_desc_similar s1 (p, i) d1); auto. }
      split; [split; [apply (similar_hinv0 _ _ Hs2 H)|split]|split; [reflexivity|left]].
      * intros p' i' d' Hp' Hi' Hd'. cbn [set_descs descs] in Hd'.
        apply lookup_insert_Some in Hd' as [[_ <-]|[Hne Hd']]; [reflexivity|]. eauto.
      * apply (similar_used _ _ Hs2 Hsu).
      * split; [reflexivity|]. split; [exact Hwhy|]. intros b n. symmetry. apply live_similar_iff, Hs2.
    + rewrite (proj2 (Z.eqb_neq a NULL) Hn). change (blocks_per_arena d1) with (blocks_per_arena d). rewrite Hpa.
      set (ar := mk_arena ARENA_MAGIC (Some (p, i)) (per_arena i)).
      set (s2 := set_pal s1 pal') in *.
      assert (Hpl : exists idx o, a = base (mem_pool (pal s2)) + PGSIZE * idx /\ 0 <= idx /\
        idx + pages_of ar <= ba_size (used_map (mem_pool (pal s2))) /\ owned (pal s2) o idx (pages_of ar)).
      { exists idx, o. cbn. rewrite Hb. auto. }
      pose proof (new_small_hinv0 s2 a ar H' Hap eq_refl ltac:(cbn; lia) Hpl p i d1 true Hp Hi Hd1 eq_refl eq_refl eq_refl)
        as H3.
      pose proof (new_small_live s2 a ar H' Hap ltac:(cbn; lia) p i d1 true Hp Hi Hd1 eq_refl eq_refl) as HL.
      set (s3 := with_arena s2 a ar p i d1 true) in *.
      rewrite (st_bind_run _ _ s2 tt _ eq_refl).
      assert (Hat : arena_at (set_arenas s2 (<[a := ar]> (arenas s2))) a ar)
        by apply (arena_at_inv s3 a ar H3 (lookup_insert_eq _ _ _)).
      assert (Ep : push_blocks (Z.to_nat (per_arena i)) (p, i) a 0 (set_arenas s2 (<[a := ar]> (arenas s2)))
        = Ret (tt, s3)).
      { rewrite (push_blocks_run (Z.to_nat (per_arena i)) _ a ar p i d1 0 Hat eq_refl Hd1 Hi Hz Hpa ltac:(lia) ltac:(lia)).
        rewrite Z2Nat.id by lia. reflexivity. }
      rewrite (st_bind_run _ _ _ _ _ Ep).
      destruct (pop_block_ok s3 p i (mk_desc (d_block_size d1) (blocks_per_arena d1) (blocks a i) true)
        (block_at_idx a i 0) (block_at_idx a i <$> seqZ 1 (per_arena i - 1)) H3 Hp Hi) as (s' & R & A).
      * apply lookup_insert_eq.
      * cbn [free_list]. unfold blocks. rewrite seqZ_cons by lia. reflexivity.
      * reflexivity.
      * intros p' i' d' Hp' Hi' Hne Hd'. cbn [s3 with_arena descs] in Hd'.
        rewrite lookup_insert_ne in Hd' by auto. apply (Ho1 p' i' d' Hp' Hi' Hne Hd').
      * intros a' ar' p' i' Ha' Had'. cbn [s3 with_arena arenas] in Ha'.
        apply lookup_insert_Some in Ha' as [[<- <-]|[_ Ha']].
        -- injection Had' as <- <-. right. split; [apply in_page_own; [exact Hi|lia]|cbn; lia].
        -- left. apply (Hsu a' ar' p' i' Ha' Had').
      * exists (block_at_idx a i 0), s'. split; [exact R|]. destruct A as (A1 & A2 & A3).
        split; [exact A1|]. split; [rewrite A2; exact Hm|].
        assert (HLs : forall b n, live s3 b n <-> live s b n)
          by (intros b n; rewrite HL; change (live s2 b n) with (live s1 b n); symmetry; apply live_similar_iff; exact Hs1).
        destruct A3 as [(A3 & _)|(A3 & n & An & Af & A4)]; [|right].
        -- destruct (block_range a i 0 Hi ltac:(lia)).
           destruct (arena_addr s3 a ar H3 (lookup_insert_eq _ _ _)) as (? & _).
           unfold NULL, ARENA_SIZE in *. lia.
        -- split; [exact A3|]. exists n. split; [lia|]. split; [intros m; rewrite <- HLs; apply Af|].
           intros b m. rewrite A4, HLs. reflexivity.
  - destruct (pop_block_ok s1 p i d1 b l H1 Hp Hi Hd1 eq_refl eq_refl Ho1) as (s' & R & A).
    + intros a ar p' i' Ha Had. left. apply (Hsu a ar p' i' Ha Had).
    + exists b, s'. split; [exact R|].
      apply (allocated_similar s s1 1 p (size_of i)); [exact Hs1|reflexivity|exact Hsz|exact A].
Qed.

(** The pages a request needs when no free block fits. *)
Definition pages_for (size : Z) : Z :=
  if size <=? 1024 then 1 else (size + ARENA_SIZE + PGSIZE - 1) / PGSIZE.

Lemma malloc_from_pool_ok s p size :
  hinv s -> 0 <= p < 3 -> 0 < size -> size + ARENA_SIZE + PGSIZE <= 2 ^ 32 ->
  exists r s', malloc_from_pool p size s = Ret (r, s') /\ allocated_block s (pages_for size) p size r s'.
Proof using Type.
  intros H Hp Hs Hw. unfold malloc_from_pool. rewrite (proj2 (Z.eqb_neq size 0)) by lia.
  rewrite (st_bind_run _ _ s s s eq_refl). rewrite (h_cnt s (proj1 H) p Hp). change (default 0 (Some 7)) with 7.
  destruct (find_desc_run 7 s p 0 size (proj1 H) Hp) as (j & E & Hj & H1 & H2); [lia..|].
  rewrite (st_bind_run _ _ _ _ _ E). unfold pages_for. destruct (Z.eqb_spec j 7) as [->|Hne].
  - specialize (H2 6 ltac:(lia)). change (size_of 6) with 1024 in H2.
    rewrite (proj2 (Z.leb_gt size 1024)) by lia. apply malloc_big_ok; assumption.
  - destruct (h_desc s (proj1 H) p j Hp ltac:(lia)) as (d & Hd & _).
    specialize (H1 ltac:(lia)). destruct (sizes_range j ltac:(lia)) as (? & _).
    rewrite (proj2 (Z.leb_le size 1024)) by lia.
    apply (malloc_small_ok s p j d size H Hp); [lia|exact H1|exact Hd].
Qed.

(** ** Giving a block back *)

Lemma elem_of_seq_remove e l x : NoDup l -> x ∈ seq_remove e l <-> x ∈ l /\ x <> e.
Proof using Type.
  induction l as [|y l IH]; intros H; cbn [seq_remove].
  - rewrite elem_of_nil. tauto.
  - apply NoDup_cons in H as [Hy H]. destruct (Z.eqb_spec e y) as [->|Hne].
    + rewrite elem_of_cons. split; [|tauto]. intros Hx. split; [auto|]. intros ->. auto.
    + rewrite !elem_of_cons, (IH H). split; [|tauto].
      intros [->|[? ?]]; auto.
Qed.

Lemma NoDup_seq_remove e l : NoDup l -> NoDup (seq_remove e l).
Proof using Type.
  induction l as [|y l IH]; intros H; cbn [seq_remove]; [exact H|].
  pose proof H as [Hy Hl]%NoDup_cons. destruct (Z.eqb_spec e y); [exact Hl|].
  apply NoDup_cons. split; [|auto]. rewrite elem_of_seq_remove by exact Hl. tauto.
Qed.

Lemma remove_blocks_run n s a ar p i d k :
  arena_at s a ar -> a_desc ar = Some (p, i) -> descs s !! (p, i) = Some d -> 0 <= i < 7 ->
  d_block_size d = size_of i -> blocks_per_arena d = per_arena i -> 0 <= k -> k + Z.of_nat n <= per_arena i ->
  NoDup (free_list d) -> (forall j, k <= j < k + Z.of_nat n -> block_at_idx a i j ∈ free_list d) ->
  exists l, NoDup l /\
    (forall x, x ∈ l <-> x ∈ free_list d /\ forall j, k <= j < k + Z.of_nat n -> x <> block_at_idx a i j) /\
    remove_blocks n (p, i) a k s = Ret (tt, set_descs s (<[(p, i) :=
      mk_desc (d_block_size d) (blocks_per_arena d) l (locked d)]> (descs s))).
Proof using Type.
  revert s d k. induction n as [|n IH]; intros s d k Hat Had Hd Hi Hz Hb Hk Hn Hnd Hin; cbn [remove_blocks].
  - exists (free_list d). split; [exact Hnd|]. split; [intros x; split; [|tauto]; intros; split; auto; lia|].
    replace (mk_desc _ _ _ _) with d by (destruct d; reflexivity).
    rewrite insert_id by exact Hd. destruct s; reflexivity.
  - rewrite (st_bind_run _ _ _ _ _ (arena_to_block_run s a ar p i d k Hat Had Hd Hi Hz Hb ltac:(lia))).
    rewrite (st_bind_run _ _ _ _ _ (get_desc_run _ _ _ Hd)).
    rewrite decide_True by (apply Hin; lia).
    rewrite (st_bind_run _ _ _ _ _ (put_free_list_run _ _ _ _ Hd)).
    set (d1 := mk_desc _ _ (seq_remove _ _) _). set (s1 := set_descs s _).
    destruct (IH s1 d1 (k + 1)) as (l & Hl & Hx & R);
      [exact Hat|exact Had|apply lookup_insert_eq|assumption..|lia|lia|apply NoDup_seq_remove, Hnd| |].
    + intros j Hj. cbn [d1 free_list]. apply elem_of_seq_remove; [exact Hnd|].
      split; [apply Hin; lia|]. intros E. apply block_inj in E; lia.
    + exists l. split; [exact Hl|]. split.
      * intros x. rewrite Hx. cbn [d1 free_list]. rewrite elem_of_seq_remove by exact Hnd. split.
        -- intros [[H1 H2] H3]. split; [exact H1|]. intros j Hj.
           destruct (decide (j = k)) as [->|]; [exact H2|]. apply H3. lia.
        -- intros [H1 H2]. split; [split; [exact H1|]|]; [apply H2; lia|intros j Hj; apply H2; lia].
      * rewrite R. unfold s1, d1, set_descs. cbn. rewrite insert_insert_eq. reflexivity.
Qed.

Lemma free_in_same a l l' :
  NoDup l -> NoDup l' -> (forall x, in_page a x = true -> x ∈ l <-> x ∈ l') -> free_in a l = free_in a l'.
Proof using Type.
  intros H H' Hx. unfold free_in, lenZ. f_equal. apply Permutation_length, NoDup_Permutation.
  - apply NoDup_filter, H.
  - apply NoDup_filter, H'.
  - intros x. rewrite !list_elem_of_filter. specialize (Hx x). tauto.
Qed.

(** An arena all of whose blocks are free has every block in the list. *)
Lemma full_arena s p i d a ar :
  hinv0 s -> 0 <= p < 3 -> 0 <= i < 7 -> descs s !! (p, i) = Some d -> arenas s !! a = Some ar ->
  a_desc ar = Some (p, i) -> free_in a (free_list d) = per_arena i ->
  forall k, 0 <= k < per_arena i -> block_at_idx a i k ∈ free_list d.
Proof using Type.
  intros H Hp Hi Hd Ha Had Hc k Hk.
  destruct (h_desc s H p i Hp Hi) as (d0 & Hd0 & _ & _ & Hnd & _). rewrite Hd in Hd0. injection Hd0 as <-.
  set (f := filter (fun b => in_page a b = true) (free_list d)).
  assert (Hsub : f ⊆+ blocks a i).
  { apply NoDup_submseteq; [apply NoDup_filter, Hnd|]. intros b [Hpg Hb]%list_elem_of_filter.
    destruct (free_block s p i d b H Hp Hi Hd Hb) as (a' & ar' & k' & Ha' & Had' & Hk' & -> & _).
    rewrite (in_page_block s a' ar' p i k' a ar) in Hpg by assumption.
    apply bool_decide_eq_true in Hpg as ->. apply elem_of_blocks. eauto. }
  assert (Hp' : f ≡ₚ blocks a i).
  { apply submseteq_length_Permutation; [exact Hsub|].
    pose proof (blocks_length a i Hi) as Hl. unfold lenZ in Hl. unfold free_in, lenZ in Hc. fold f in Hc. lia. }
  assert (Hin : block_at_idx a i k ∈ f) by (rewrite Hp'; apply elem_of_blocks; eauto).
  apply list_elem_of_filter in Hin. apply Hin.
Qed.

(** Dropping an arena whose pages go back to the page allocator. *)
Definition in_arena (a : Z) (ar : arena) (x : Z) : Prop := a <= x < a + PGSIZE * pages_of ar.

#[global] Instance in_arena_dec a ar x : Decision (in_arena a ar x).
Proof using Type. unfold in_arena. apply _. Defined.

Section Drop.
Context (s : hstate) (a : Z) (ar : arena) (pal' : palloc_state B) (ds : gmap (Z * Z) desc).
Hypothesis (H : hinv0 s) (Ha : arenas s !! a = Some ar) (Hinv' : inv pal')
  (Htaken : exists idx o, a = base (mem_pool (pal s)) + PGSIZE * idx /\ 0 <= idx /\
            taken (pal s) pal' o idx (pages_of ar))
  (Hds : forall p i d, 0 <= p < 3 -> 0 <= i < 7 -> descs s !! (p, i) = Some d ->
     exists d', ds !! (p, i) = Some d' /\ d_block_size d' = d_block_size d /\
       blocks_per_arena d' = blocks_per_arena d /\ NoDup (free_list d') /\
       forall x, x ∈ free_list d' <-> x ∈ free_list d /\ ~ in_arena a ar x).

Definition dropped : hstate := mk_hstate pal' (delete a (arenas s)) ds (desc_cnt s).

Lemma drop_other a' ar' x :
  arenas s !! a' = Some ar' -> a' <> a -> in_arena a' ar' x -> ~ in_arena a ar x.
Proof using H Ha.
  intros Ha' Hne Hx Hx'. apply Hne. apply (arena_unique s a' ar' a ar x H Ha' Ha Hx Hx').
Qed.

Lemma block_in_arena a' ar' p i k :
  arenas s !! a' = Some ar' -> a_desc ar' = Some (p, i) -> 0 <= k < per_arena i ->
  in_arena a' ar' (block_at_idx a' i k).
Proof using H.
  intros Ha' Had Hk. destruct (small_index s a' ar' p i H Ha' Had) as [_ Hi].
  destruct (block_range a' i k Hi Hk), (sizes_range i Hi) as (? & _).
  unfold in_arena, pages_of, ARENA_SIZE in *. rewrite Had. lia.
Qed.

Lemma drop_hinv0 : hinv0 dropped.
Proof using H Ha Hinv' Htaken Hds.
  pose proof H as [H1 H2 H3 H4 H5]. destruct Htaken as (idx & o & Ea & Hidx & T).
  split; cbn [dropped pal arenas descs desc_cnt]; auto.
  - intros p i Hp Hi. destruct (H3 p i Hp Hi) as (d & Hd & Z1 & Z2 & Z3 & Z4).
    destruct (Hds p i d Hp Hi Hd) as (d' & Hd' & Y1 & Y2 & Y3 & Y4). exists d'.
    split; [exact Hd'|]. split; [congruence|]. split; [congruence|]. split; [exact Y3|].
    intros b [Hb Hout]%Y4. destruct (Z4 b Hb) as (a' & ar' & k & E1 & E2 & E3 & E4).
    exists a', ar', k. split; [|auto]. rewrite lookup_delete_ne; [exact E1|]. intros <-.
    rewrite Ha in E1. injection E1 as <-. apply Hout. rewrite E4.
    apply (block_in_arena a ar p i k Ha E2 E3).
  - intros a' ar' [Hne Ha']%lookup_delete_Some.
    destruct (H4 a' ar' Ha') as [M P (j & o' & Ea' & Hj & Hn & (Hu & Ht & Hw)) D].
    split; auto.
    + exists j, o'. cbn [dropped pal]. rewrite (taken_base _ _ _ _ _ T), (taken_npages _ _ _ _ _ T).
      assert (Hout : forall x, j <= x < j + pages_of ar' -> ~ (idx <= x < idx + pages_of ar)).
      { intros x Hx Hx'. pose proof (h_apart s H a ar a' ar' Ha Ha' Hne) as Hap.
        change PGSIZE with 4096 in *. lia. }
      split; [exact Ea'|]. split; [exact Hj|]. split; [exact Hn|]. split; [|split]; intros x Hx.
      * rewrite (taken_used _ _ _ _ _ T), set_range_out by (apply Hout; exact Hx). auto.
      * rewrite (taken_tc _ _ _ _ _ T), set_range_out by (apply Hout; exact Hx). auto.
      * rewrite (taken_swap _ _ _ _ _ T), set_range_out by (apply Hout; exact Hx). auto.
    + intros p i Hpi. destruct (D p i Hpi) as (d & Hd & Hp & Hi & Hc).
      destruct (Hds p i d Hp Hi Hd) as (d' & Hd' & _ & _ & Y3 & Y4). exists d'.
      split; [exact Hd'|]. split; [exact Hp|]. split; [exact Hi|]. rewrite Hc.
      destruct (H3 p i Hp Hi) as (d0 & Hd0 & _ & _ & Z3 & _). rewrite Hd in Hd0. injection Hd0 as <-.
      apply free_in_same; [exact Z3|exact Y3|]. intros x Hx. rewrite Y4.
      assert (Hin : in_arena a' ar' x).
      { unfold in_page in Hx. apply andb_prop in Hx as [X1%Z.leb_le X2%Z.ltb_lt].
        unfold in_arena, pages_of. rewrite Hpi. lia. }
      pose proof (drop_other a' ar' x Ha' ltac:(auto) Hin). tauto.
  - intros a1 ar1 a2 ar2 [_ E1]%lookup_delete_Some [_ E2]%lookup_delete_Some. apply (H5 _ _ _ _ E1 E2).
Qed.

Lemma drop_live b n : live dropped b n <-> live s b n /\ ~ in_arena a ar b.
Proof using H Ha Hds.
  unfold live. cbn [dropped arenas descs]. split.
  - intros (a' & ar' & [Hne Ha']%lookup_delete_Some & R).
    assert (R' : live_in s b n a' ar').
    { split; [exact Ha'|]. destruct (a_desc ar') as [[p i]|] eqn:Ed; [|exact R].
      destruct R as (k & d' & Hk & Hb & Hn & Hd' & Hf).
      destruct (small_index s a' ar' p i H Ha' Ed) as [Hp Hi].
      destruct (h_desc s H p i Hp Hi) as (d & Hd & _).
      destruct (Hds p i d Hp Hi Hd) as (d1 & Hd1 & _ & _ & _ & Y4). rewrite Hd' in Hd1. injection Hd1 as <-.
      exists k, d. do 4 (split; [assumption|]). intros Hin. apply Hf, Y4. split; [exact Hin|].
      apply (drop_other a' ar' b Ha'); [auto|]. rewrite Hb. apply (block_in_arena a' ar' p i k Ha' Ed Hk). }
    split; [exists a', ar'; exact R'|]. apply (drop_other a' ar' b Ha'); [auto|].
    destruct (live_in_range s b n a' ar' H R') as (R1 & R2 & R3). unfold in_arena, ARENA_SIZE in *. lia.
  - intros [(a' & ar' & Ha' & R) Hout].
    pose proof (live_in_range s b n a' ar' H (conj Ha' R)) as (R1 & R2 & R3).
    assert (Hne : a <> a').
    { intros <-. rewrite Ha in Ha'. injection Ha' as <-. apply Hout. unfold in_arena, ARENA_SIZE in *. lia. }
    exists a', ar'. rewrite lookup_delete_ne by exact Hne. split; [exact Ha'|].
    destruct (a_desc ar') as [[p i]|] eqn:Ed; [|exact R].
    destruct R as (k & d & Hk & Hb & Hn & Hd & Hf). destruct (small_index s a' ar' p i H Ha' Ed) as [Hp Hi].
    destruct (Hds p i d Hp Hi Hd) as (d' & Hd' & _ & _ & _ & Y4). exists k, d'.
    do 4 (split; [assumption|]). rewrite Y4. tauto.
Qed.
End Drop.

(** What freeing pages does to an arena. *)
Lemma free_pages_run s a ar :
  hinv0 s -> arenas s !! a = Some ar ->
  exists pal', free_pages a (pages_of ar) s = Ret (tt, dropped s a pal' (descs s)) /\ inv pal' /\
    (exists idx o, a = base (mem_pool (pal s)) + PGSIZE * idx /\ 0 <= idx /\
            taken (pal s) pal' o idx (pages_of ar)) /\
    memory pal' = memset_mem (memory (pal s)) a 0xcc (PGSIZE * pages_of ar).
Proof using Type.
  intros H Ha. destruct (h_arena s H a ar Ha) as [_ Hp (idx & o & Ea & Hi & Hn & Ho) _].
  destruct (free_multiple_correct (pal s) o idx (pages_of ar) (h_pal s H) Hi Hp Hn Ho) as (pal' & R & T & Hv & Hm).
  exists pal'. unfold free_pages. rewrite Ea, R. split; [reflexivity|]. split; [exact Hv|].
  split; [|exact Hm]. exists idx, o. auto.
Qed.

Section Push.
Context (s : hstate) (p i : Z) (d : desc) (a : Z) (ar : arena) (k : Z) (lk : bool).
Let b := block_at_idx a i k.
Hypothesis (H : hinv0 s) (Hp : 0 <= p < 3) (Hi : 0 <= i < 7) (Hd : descs s !! (p, i) = Some d)
  (Ha : arenas s !! a = Some ar) (Had : a_desc ar = Some (p, i)) (Hk : 0 <= k < per_arena i)
  (Hnot : b ∉ free_list d).

Lemma push_hinv0 :
  hinv0 (with_free s p i d (b :: free_list d) lk a ar (free_in a (b :: free_list d)))
  /\ free_in a (b :: free_list d) = 1 + free_cnt ar.
Proof using H Hp Hi Hd Ha Had Hk Hnot.
  destruct (h_desc s H p i Hp Hi) as (d0 & Hd0 & _ & _ & Hnd & Hb). rewrite Hd in Hd0. injection Hd0 as <-.
  destruct (ok_desc _ _ _ (h_arena s H a ar Ha) p i Had) as (d1 & Hd1 & _ & _ & Hc).
  rewrite Hd in Hd1. injection Hd1 as <-. split.
  - apply with_free_hinv0; auto.
    + apply NoDup_cons. auto.
    + intros x [->|Hx]%elem_of_cons; [|apply Hb, Hx]. exists a, ar, k. auto.
    + intros a' ar' Ha' Hne. rewrite free_in_cons.
      unfold b. rewrite (in_page_block s a ar p i k a' ar') by assumption.
      rewrite bool_decide_eq_false_2 by exact Hne. reflexivity.
  - rewrite free_in_cons. unfold b. rewrite (in_page_own a i k Hi Hk), Hc. reflexivity.
Qed.

Lemma push_live c b' n :
  live (with_free s p i d (b :: free_list d) lk a ar c) b' n <-> live s b' n /\ b' <> b.
Proof using H Hp Hi Hd Ha Had Hk Hnot.
  rewrite with_free_live_iff by assumption. split.
  - intros (a' & ar' & Ha' & R).
    assert (R' : live_in s b' n a' ar' /\ (a_desc ar' = Some (p, i) -> b' <> b)).
    { unfold live_in. destruct (a_desc ar') as [[p' i']|] eqn:Ed; [|split; [auto|discriminate]].
      destruct R as (k' & d' & Hk' & Eb & En & R). destruct (decide ((p, i) = (p', i'))) as [E|E].
      - injection E as <- <-. rewrite not_elem_of_cons in R. destruct R.
        split; [split; [exact Ha'|]; exists k', d; auto 10|auto].
      - destruct R. split; [split; [exact Ha'|]; exists k', d'; auto 10|]. intros [= -> ->]. contradiction. }
    destruct R' as [L Hne]. split; [exists a', ar'; exact L|].
    intros ->. destruct (live_in_range s b n a' ar' H L) as (R1 & R2 & R3).
    assert (a' = a) as ->.
    { apply (arena_unique s a' ar' a ar b H Ha' Ha); [unfold ARENA_SIZE in *; lia|].
      apply (block_in_arena s H a ar p i k Ha Had Hk). }
    rewrite Ha in Ha'. injection Ha' as <-. apply (Hne Had). reflexivity.
  - intros [(a' & ar' & Ha' & R) Hne]. exists a', ar'. split; [exact Ha'|].
    destruct (a_desc ar') as [[p' i']|]; [|exact R]. destruct R as (k' & d' & Hk' & Eb & En & Hd' & Hf).
    exists k', d'. destruct (decide ((p, i) = (p', i'))) as [E|E]; [|auto 10].
    injection E as <- <-. rewrite Hd in Hd'. injection Hd' as <-. rewrite not_elem_of_cons. auto 10.
Qed.
End Push.

(** The arena of the block [p] when it is released: with no live block left,
    its pages are free again and those of nobody else; otherwise the page
    allocator is as before. *)
Definition pages_back (s : hstate) (p : Z) (s' : hstate) : Prop :=
  exists a ar, arenas s !! a = Some ar /\ in_arena a ar p /\
  ((forall b n, live s' b n -> ~ in_arena a ar b) /\
   (exists idx o, a = base (mem_pool (pal s)) + PGSIZE * idx /\ 0 <= idx /\
      taken (pal s) (pal s') o idx (pages_of ar)) \/
   (exists b n, live s' b n /\ in_arena a ar b) /\ pal s' = set_memory (pal s) (memory (pal s'))).

(** What releasing the block [p] does. *)
Definition released (s : hstate) (p : Z) (s' : hstate) : Prop :=
  hinv s' /\ (forall b n, live s' b n <-> live s b n /\ b <> p) /\
  (forall b n x, live s' b n -> b <= x < b + n -> memory (pal s') x = memory (pal s) x) /\
  pages_back s p s'.

Lemma taken_memory (q q' : palloc_state B) m m' o idx cnt :
  taken (set_memory q m) q' o idx cnt -> taken q (set_memory q' m') o idx cnt.
Proof using Type. intros []. by split. Qed.

(** An arena not all of whose blocks are free has a block not in the list. *)
Lemma partial_arena a i l :
  0 <= i < 7 -> free_in a l < per_arena i ->
  exists k, 0 <= k < per_arena i /\ block_at_idx a i k ∉ l.
Proof using Type.
  intros Hi Hc. destruct (decide (Forall (fun b => b ∈ l) (blocks a i))) as [Hall|Hno].
  - exfalso. rewrite Forall_forall in Hall.
    assert (Hsub : blocks a i ⊆+ filter (fun b => in_page a b = true) l).
    { apply NoDup_submseteq; [by apply blocks_nodup|]. intros b Hb. apply list_elem_of_filter.
      split; [|by apply Hall]. apply elem_of_blocks in Hb as (k & Hk & ->). by apply in_page_own. }
    apply submseteq_length in Hsub. pose proof (blocks_length a i Hi). unfold free_in, lenZ in *. lia.
  - apply not_Forall_Exists, Exists_exists in Hno as (b & Hb & Hn); [|apply _].
    apply elem_of_blocks in Hb as (k & Hk & ->). by exists k.
Qed.

Lemma memset_out m dst v n x : ~ (dst <= x < dst + n) -> memset_mem m dst v n x = m x.
Proof using Type.
  intros Hx. unfold memset_mem. destruct (Z.leb_spec dst x), (Z.ltb_spec x (dst + n)); cbn; auto; lia.
Qed.

Lemma free_big_ok s a ar :
  hinv s -> arenas s !! a = Some ar -> a_desc ar = None ->
  exists s', free (a + ARENA_SIZE) s = Ret (tt, s') /\ released s (a + ARENA_SIZE) s'.
Proof using Type.
  intros (H & Hul & Hsu) Ha Had. pose proof (arena_at_inv s a ar H Ha) as Hat.
  unfold free. rewrite (proj2 (Z.eqb_neq _ NULL)) by (destruct Hat as (_ & _ & ? & _); unfold ARENA_SIZE, NULL; lia).
  rewrite (st_bind_run _ _ _ _ _ (block_to_arena_big s a ar Hat Had)), Had.
  destruct (free_pages_run s a ar H Ha) as (pal' & R & Hv & T & Hm).
  assert (Hpg : pages_of ar = free_cnt ar) by (unfold pages_of; rewrite Had; reflexivity). rewrite <- Hpg, R.
  assert (Hds : forall p i d, 0 <= p < 3 -> 0 <= i < 7 -> descs s !! (p, i) = Some d ->
     exists d', descs s !! (p, i) = Some d' /\ d_block_size d' = d_block_size d /\
       blocks_per_arena d' = blocks_per_arena d /\ NoDup (free_list d') /\
       forall x, x ∈ free_list d' <-> x ∈ free_list d /\ ~ in_arena a ar x).
  { intros p i d Hp Hi Hd. exists d. destruct (h_desc s H p i Hp Hi) as (d0 & Hd0 & _ & _ & Hnd & _).
    rewrite Hd in Hd0. injection Hd0 as <-. do 4 (split; [auto|]). intros x. split; [|tauto]. intros Hx.
    split; [exact Hx|]. destruct (free_block s p i d x H Hp Hi Hd Hx) as (a' & ar' & k & Ha' & Had' & Hk & -> & _).
    apply (drop_other s a ar H Ha a' ar' _ Ha'); [intros ->; congruence|].
    apply (block_in_arena s H a' ar' p i k Ha' Had' Hk). }
  pose proof (drop_live s a ar pal' (descs s) H Ha Hds) as HL.
  exists (dropped s a pal' (descs s)). split; [reflexivity|].
  pose proof (ok_pages _ _ _ (h_arena s H a ar Ha)) as Hpos.
  split; [split; [apply (drop_hinv0 s a ar pal' (descs s) H Ha Hv T Hds)|split]|split; [|split]].
  - exact Hul.
  - intros a' ar' p i Ha'. cbn [dropped arenas] in Ha'. apply lookup_delete_Some in Ha' as [_ Ha'].
    apply (Hsu a' ar' p i Ha').
  - intros b n. rewrite HL. split; intros [L Hb]; (split; [exact L|]).
    + intros ->. apply Hb. unfold in_arena, ARENA_SIZE. change PGSIZE with 4096. lia.
    + intros Hin. apply Hb. destruct L as (a' & ar' & L).
      destruct (live_in_range s b n a' ar' H L) as (R1 & R2 & R3).
      assert (a' = a) as -> by (apply (arena_unique s a' ar' a ar b H (proj1 L) Ha); [unfold ARENA_SIZE in *; lia|exact Hin]).
      destruct L as [Ha' L]. rewrite Ha in Ha'. injection Ha' as <-. rewrite Had in L. apply L.
  - intros b n x L Hx. cbn [dropped pal]. rewrite Hm. apply memset_out.
    apply HL in L as [(a' & ar' & L) Hout]. destruct (live_in_range s b n a' ar' H L) as (R1 & R2 & R3).
    intros Hin. apply Hout. assert (a' = a) as ->.
    { apply (arena_unique s a' ar' a ar x H (proj1 L) Ha); [unfold ARENA_SIZE in *; lia|exact Hin]. }
    pose proof (proj1 L) as E. rewrite Ha in E. injection E as <-. unfold in_arena, ARENA_SIZE in *. lia.
  - exists a, ar. split; [exact Ha|]. split; [unfold in_arena, ARENA_SIZE; change PGSIZE with 4096; lia|].
    left. split; [|exact T]. intros b n [_ L]%HL. exact L.
Qed.

(** The state after the block is on the free list, still locked. *)
Definition pushed (s : hstate) (p i : Z) (d : desc) (a : Z) (ar : arena) (b : Z) : hstate :=
  with_free (set_pal s (set_memory (pal s) (memset_mem (memory (pal s)) b 0xcc (size_of i))))
    p i d (b :: free_list d) true a ar (free_in a (b :: free_list d)).

Lemma free_small_run s p i d a ar k :
  hinv s -> 0 <= p < 3 -> 0 <= i < 7 -> descs s !! (p, i) = Some d -> arenas s !! a = Some ar ->
  a_desc ar = Some (p, i) -> 0 <= k < per_arena i -> block_at_idx a i k ∉ free_list d ->
  let b := block_at_idx a i k in
  let s3 := pushed s p i d a ar b in
  let c := free_in a (b :: free_list d) in
  free b s =
    ((if per_arena i <=? c then
        lift (assert (c =? per_arena i));;
        remove_blocks (Z.to_nat (per_arena i)) (p, i) a 0;;
        free_pages a 1
      else mret tt);;
     lock_release (p, i)) s3.
Proof using Type.
  intros (H & Hul & Hsu) Hp Hi Hd Ha Had Hk Hnot b s3 c.
  pose proof (arena_at_inv s a ar H Ha) as Hat. destruct (sizes_range i Hi) as (S1 & S2 & S3).
  destruct (h_desc s H p i Hp Hi) as (d0 & Hd0 & Hz & Hpa & _). rewrite Hd in Hd0. injection Hd0 as <-.
  destruct (push_hinv0 s p i d a ar k true H Hp Hi Hd Ha Had Hk Hnot) as [_ Hc].
  destruct (block_range a i k Hi Hk) as [B1 B2]. unfold free.
  rewrite (proj2 (Z.eqb_neq b NULL)) by (destruct Hat as (_ & _ & ? & _); unfold b, ARENA_SIZE, NULL in *; lia).
  unfold b. rewrite (st_bind_run _ _ _ _ _ (block_to_arena_small s a ar p i d k Hat Had Hd Hi Hz Hk)), Had.
  rewrite (st_bind_run _ _ _ _ _ (get_desc_run _ _ _ Hd)), Hz.
  erewrite st_bind_run; [|reflexivity]. set (s1 := set_pal s _).
  rewrite (st_bind_run _ _ _ _ _ (lock_acquire_run s1 (p, i) d Hd (Hul p i d Hp Hi Hd))).
  set (s2 := set_descs s1 _).
  assert (Hd2 : descs s2 !! (p, i) = Some (mk_desc (d_block_size d) (blocks_per_arena d) (free_list d) true))
    by apply lookup_insert_eq.
  rewrite (st_bind_run _ _ _ _ _ (get_desc_run _ _ _ Hd2)).
  rewrite (st_bind_run _ _ _ _ _ (put_free_list_run _ _ _ _ Hd2)).
  erewrite st_bind_run; [|reflexivity]. cbn [d_block_size blocks_per_arena free_list locked].
  pose proof (Hsu a ar p i Ha Had). pose proof (free_in_nonneg a (block_at_idx a i k :: free_list d)).
  rewrite (wrap_id 32 (free_cnt ar + 1)) by (unfold inU; lia).
  replace (free_cnt ar + 1) with c by (unfold c, b; lia). rewrite Hpa.
  match goal with |- _ ?x = _ ?y => replace x with y; [reflexivity|] end.
  unfold s3, pushed, with_free, s2, s1, set_descs, set_pal, set_arenas, b, c.
  cbn [pal arenas descs desc_cnt]. rewrite insert_insert_eq, Had, Hpa. reflexivity.
Qed.

Lemma unlock_ok s p i d :
  hinv0 s -> 0 <= p < 3 -> 0 <= i < 7 -> descs s !! (p, i) = Some d -> locked d = true -> some_used s ->
  (forall p' i' d', 0 <= p' < 3 -> 0 <= i' < 7 -> (p', i') <> (p, i) -> descs s !! (p', i') = Some d' ->
    locked d' = false) ->
  exists s', lock_release (p, i) s = Ret (tt, s') /\ hinv s' /\ similar s s' /\ memory (pal s') = memory (pal s).
Proof using Type.
  intros H Hp Hi Hd Hl Hu Ho. rewrite (lock_release_run s (p, i) d Hd Hl). eexists. split; [reflexivity|].
  assert (Hs : similar s (set_descs s (<[(p, i) := mk_desc (d_block_size d) (blocks_per_arena d) (free_list d)
    false]> (descs s)))) by (apply (set_desc_similar s (p, i) d); auto).
  split; [split; [apply (similar_hinv0 _ _ Hs H)|split; [|apply (similar_used _ _ Hs Hu)]]|auto].
  intros p' i' d' Hp' Hi' Hd'. cbn [set_descs descs] in Hd'.
  apply lookup_insert_Some in Hd' as [[_ <-]|[Hne Hd']]; [reflexivity|]. eauto.
Qed.

(** A locked descriptor [d] with an arena [a] of which every block is free. *)
Section Reclaim.
Context (s : hstate) (p i : Z) (d : desc) (a : Z) (ar : arena).
Hypothesis (H : hinv0 s) (Hp : 0 <= p < 3) (Hi : 0 <= i < 7) (Hd : descs s !! (p, i) = Some d)
  (Ha : arenas s !! a = Some ar) (Had : a_desc ar = Some (p, i)) (Hlk : locked d = true)
  (Hfull : free_in a (free_list d) = per_arena i)
  (Hother : forall p' i' d', 0 <= p' < 3 -> 0 <= i' < 7 -> (p', i') <> (p, i) ->
     descs s !! (p', i') = Some d' -> locked d' = false)
  (Hused : forall a' ar' p' i', arenas s !! a' = Some ar' -> a_desc ar' = Some (p', i') -> a' <> a ->
     free_cnt ar' < per_arena i').

Lemma pages_of_small : pages_of ar = 1.
Proof using Had. unfold pages_of. rewrite Had. reflexivity. Qed.

(** No block of the arena is live. *)
Lemma full_not_live b n : live s b n -> ~ in_arena a ar b.
Proof using H Hp Hi Hd Ha Had Hfull.
  intros (a' & ar' & L) Hin. destruct (live_in_range s b n a' ar' H L) as (R1 & R2 & R3).
  assert (a' = a) as -> by (apply (arena_unique s a' ar' a ar b H (proj1 L) Ha);
    [unfold ARENA_SIZE in *; lia|exact Hin]).
  destruct L as [La L]. rewrite Ha in La. injection La as <-. rewrite Had in L.
  destruct L as (k & d' & Hk & -> & _ & Hd' & Hf). rewrite Hd in Hd'. injection Hd' as <-.
  apply Hf, (full_arena s p i d a ar); assumption.
Qed.

(** The free lists once the blocks of the arena are off the list of [d]. *)
Lemma removed_lists l lk :
  NoDup l -> (forall x, x ∈ l <-> x ∈ free_list d /\ forall j, 0 <= j < per_arena i -> x <> block_at_idx a i j) ->
  let d' := mk_desc (d_block_size d) (blocks_per_arena d) l lk in
  forall p' i' d0, 0 <= p' < 3 -> 0 <= i' < 7 -> descs s !! (p', i') = Some d0 ->
  exists d'', <[(p, i) := d']> (descs s) !! (p', i') = Some d'' /\ d_block_size d'' = d_block_size d0 /\
    blocks_per_arena d'' = blocks_per_arena d0 /\ NoDup (free_list d'') /\
    forall x, x ∈ free_list d'' <-> x ∈ free_list d0 /\ ~ in_arena a ar x.
Proof using H Hp Hi Hd Ha Had.
  intros Hl Hx d' p' i' d0 Hp' Hi' Hd0.
  assert (Hblk : forall x, x ∈ free_list d0 -> exists a' ar' k, arenas s !! a' = Some ar' /\
    a_desc ar' = Some (p', i') /\ 0 <= k < per_arena i' /\ x = block_at_idx a' i' k /\ in_arena a' ar' x).
  { intros x X. destruct (free_block s p' i' d0 x H Hp' Hi' Hd0 X) as (a' & ar' & k & Ha' & Had' & Hk & -> & _).
    exists a', ar', k. do 4 (split; [auto|]). apply (block_in_arena s H a' ar' p' i' k Ha' Had' Hk). }
  destruct (decide ((p, i) = (p', i'))) as [E|E].
  - injection E as <- <-. rewrite Hd in Hd0. injection Hd0 as <-. exists d'. rewrite lookup_insert_eq.
    do 4 (split; [auto|]). intros x. cbn [d' free_list]. rewrite Hx.
    split; intros [X1 X2]; (split; [exact X1|]).
    + intros Hin. destruct (Hblk x X1) as (a' & ar' & k & Ha' & Had' & Hk & E & Hin').
      assert (a' = a) as -> by apply (arena_unique s a' ar' a ar x H Ha' Ha Hin' Hin). apply (X2 k Hk E).
    + intros j Hj ->. apply X2. apply (block_in_arena s H a ar p i j Ha Had Hj).
  - exists d0. rewrite lookup_insert_ne by exact E.
    destruct (h_desc s H p' i' Hp' Hi') as (d1 & Hd1 & _ & _ & Hnd & _).
    rewrite Hd0 in Hd1. injection Hd1 as <-. do 4 (split; [auto|]). intros x. split; [|tauto].
    intros X1. split; [exact X1|]. destruct (Hblk x X1) as (a' & ar' & k & Ha' & Had' & Hk & _ & Hin').
    apply (drop_other s a ar H Ha a' ar' x Ha'); [|exact Hin']. intros ->. congruence.
Qed.

(** Taking the blocks off the list and giving the page back. *)
Lemma reclaim_run :
  exists pal' l, (remove_blocks (Z.to_nat (per_arena i)) (p, i) a 0;; free_pages a 1) s =
    Ret (tt, dropped s a pal' (<[(p, i) := mk_desc (d_block_size d) (blocks_per_arena d) l (locked d)]> (descs s)))
  /\ inv pal' /\ NoDup l
  /\ (exists idx o, a = base (mem_pool (pal s)) + PGSIZE * idx /\ 0 <= idx /\ taken (pal s) pal' o idx (pages_of ar))
  /\ (forall x, x ∈ l <-> x ∈ free_list d /\ forall j, 0 <= j < per_arena i -> x <> block_at_idx a i j)
  /\ memory pal' = memset_mem (memory (pal s)) a 0xcc (PGSIZE * pages_of ar).
Proof using H Hp Hi Hd Ha Had Hfull.
  destruct (h_desc s H p i Hp Hi) as (d0 & Hd0 & Hz & Hpa & Hnd & _). rewrite Hd in Hd0. injection Hd0 as <-.
  destruct (sizes_range i Hi) as (_ & S2 & _).
  destruct (remove_blocks_run (Z.to_nat (per_arena i)) s a ar p i d 0) as (l & Hl & Hx & R);
    try assumption; try lia.
  { apply (arena_at_inv s a ar H Ha). }
  { intros j Hj. apply (full_arena s p i d a ar); auto. lia. }
  rewrite Z2Nat.id in Hx by lia. destruct (free_pages_run s a ar H Ha) as (pal' & Rf & Hv & T & Hm).
  exists pal', l. split; [|auto 10]. rewrite (st_bind_run _ _ _ _ _ R).
  rewrite pages_of_small in Rf. unfold free_pages in Rf |- *. cbn [pal set_descs].
  destruct (palloc_free_multiple (pal s) a 1); [|discriminate].
  unfold dropped in *. cbn in Rf |- *. injection Rf as ->. reflexivity.
Qed.

Lemma reclaim_ok :
  exists s', (remove_blocks (Z.to_nat (per_arena i)) (p, i) a 0;; free_pages a 1;; lock_release (p, i)) s
    = Ret (tt, s') /\ hinv s' /\ (forall x n, live s' x n <-> live s x n) /\
    (forall x n y, live s' x n -> x <= y < x + n -> memory (pal s') y = memory (pal s) y) /\
    (forall x n, live s' x n -> ~ in_arena a ar x) /\
    exists idx o, a = base (mem_pool (pal s)) + PGSIZE * idx /\ 0 <= idx /\
      taken (pal s) (pal s') o idx (pages_of ar).
Proof using H Hp Hi Hd Ha Had Hlk Hfull Hother Hused.
  destruct reclaim_run as (pal' & l & R & Hv & Hl & T & Hx & Hm).
  pose proof (removed_lists l (locked d) Hl Hx) as Hds. cbn zeta in Hds.
  set (d' := mk_desc _ _ l _) in *. set (ds := <[(p, i) := d']> (descs s)) in *.
  pose proof (drop_hinv0 s a ar pal' ds H Ha Hv T Hds) as H'.
  pose proof (drop_live s a ar pal' ds H Ha Hds) as HL.
  destruct (unlock_ok (dropped s a pal' ds) p i d' H' Hp Hi) as (s' & Ru & Hh' & Hsim & Hm').
  - apply lookup_insert_eq.
  - exact Hlk.
  - intros a' ar' p' i' Ha' Had'. cbn [dropped arenas] in Ha'.
    apply lookup_delete_Some in Ha' as [Hne Ha']. apply (Hused a' ar' p' i' Ha' Had'). auto.
  - intros p' i' d0 Hp' Hi' Hne Hd'. cbn [dropped descs] in Hd'. unfold ds in Hd'.
    rewrite lookup_insert_ne in Hd' by auto. apply (Hother p' i' d0 Hp' Hi' Hne Hd').
  - exists s'. split; [|split; [exact Hh'|split; [|split; [|split]]]].
    + unfold mbind, st_bind in R, Ru |- *.
      destruct (remove_blocks _ _ _ _ s) as [[u s4]|]; [|discriminate]. rewrite R. exact Ru.
    + intros x n. rewrite <- (live_similar_iff _ s' x n Hsim), HL. split; [tauto|].
      intros L. split; [exact L|]. apply (full_not_live x n L).
    + intros x n y L Hy. rewrite Hm'. cbn [dropped pal]. rewrite Hm. apply memset_out.
      apply (live_similar_iff _ s' x n Hsim), HL in L as [(a' & ar' & L) Hout].
      destruct (live_in_range s x n a' ar' H L) as (R1 & R2 & R3). intros Hin. apply Hout.
      assert (a' = a) as -> by (apply (arena_unique s a' ar' a ar y H (proj1 L) Ha);
        [unfold ARENA_SIZE in *; lia|exact Hin]).
      pose proof (proj1 L) as E. rewrite Ha in E. injection E as <-. unfold in_arena, ARENA_SIZE in *. lia.
    + intros x n L. apply (live_similar_iff _ s' x n Hsim), HL in L. apply L.
    + destruct T as (idx & o & E & H0 & T). exists idx, o. split; [exact E|]. split; [exact H0|].
      destruct (sim_pal _ _ Hsim) as [m ->]. apply (taken_memory _ _ (memory (pal s))). rewrite set_memory_id. exact T.
Qed.
End Reclaim.

Lemma free_small_ok s p i d a ar k :
  hinv s -> 0 <= p < 3 -> 0 <= i < 7 -> descs s !! (p, i) = Some d -> arenas s !! a = Some ar ->
  a_desc ar = Some (p, i) -> 0 <= k < per_arena i -> block_at_idx a i k ∉ free_list d ->
  live s (block_at_idx a i k) (size_of i) ->
  exists s', free (block_at_idx a i k) s = Ret (tt, s') /\ released s (block_at_idx a i k) s'.
Proof using Type.
  intros Hh Hp Hi Hd Ha Had Hk Hnot Hlive. rewrite (free_small_run s p i d a ar k) by assumption.
  destruct Hh as (H & Hul & Hsu). set (b := block_at_idx a i k) in *.
  set (s1 := set_pal s (set_memory (pal s) (memset_mem (memory (pal s)) b 0xcc (size_of i)))).
  set (c := free_in a (b :: free_list d)). set (s3 := pushed s p i d a ar b).
  assert (Hs1 : similar s s1) by (split; auto; eexists; reflexivity).
  pose proof (similar_hinv0 s s1 Hs1 H) as H1.
  destruct (push_hinv0 s1 p i d a ar k true H1 Hp Hi Hd Ha Had Hk Hnot) as [H3 Hc].
  pose proof (push_live s1 p i d a ar k true H1 Hp Hi Hd Ha Had Hk Hnot c) as HL.
  change (hinv0 s3) in H3. fold b in HL.
  assert (HL3 : forall x n, live s3 x n <-> live s x n /\ x <> b).
  { intros x n. change (live s3 x n) with (live (with_free s1 p i d (b :: free_list d) true a ar c) x n).
    rewrite HL, <- (live_similar_iff s s1 x n Hs1). reflexivity. }
  assert (Hmem : forall x n y, live s3 x n -> x <= y < x + n -> memory (pal s3) y = memory (pal s) y).
  { intros x n y [L Hne]%HL3 Hy. cbn. apply memset_out. intros Hin.
    destruct (live_disjoint s x n b (size_of i) H L Hlive) as [?|[?|[? _]]]; [lia|lia|auto]. }
  set (ar3 := mk_arena (magic ar) (a_desc ar) c).
  set (d3 := mk_desc (d_block_size d) (blocks_per_arena d) (b :: free_list d) true).
  assert (Ha3 : arenas s3 !! a = Some ar3) by apply lookup_insert_eq.
  assert (Hd3 : descs s3 !! (p, i) = Some d3) by apply lookup_insert_eq.
  assert (Ho3 : forall p' i' d', 0 <= p' < 3 -> 0 <= i' < 7 -> (p', i') <> (p, i) ->
    descs s3 !! (p', i') = Some d' -> locked d' = false).
  { intros p' i' d' Hp' Hi' Hne Hd'. cbn in Hd'. rewrite lookup_insert_ne in Hd' by auto.
    apply (Hul p' i' d' Hp' Hi' Hd'). }
  assert (Hu3 : forall a' ar' p' i', arenas s3 !! a' = Some ar' -> a_desc ar' = Some (p', i') -> a' <> a ->
    free_cnt ar' < per_arena i').
  { intros a' ar' p' i' Ha' Had' Hne. cbn in Ha'. rewrite lookup_insert_ne in Ha' by auto.
    apply (Hsu a' ar' p' i' Ha' Had'). }
  pose proof (Hsu a ar p i Ha Had) as Hfc. fold b c in Hc.
  assert (Hin : in_arena a ar b) by apply (block_in_arena s H a ar p i k Ha Had Hk).
  destruct (Z.leb_spec (per_arena i) c) as [Hfull|Hpart].
  - assert (Ec : c = per_arena i) by lia. rewrite Ec, Z.eqb_refl.
    destruct (reclaim_ok s3 p i d3 a ar3 H3 Hp Hi Hd3 Ha3 Had eq_refl Ec Ho3 Hu3) as (s' & R & Hh' & HL' & Hm' & Hout & T).
    exists s'. split; [unfold mbind, st_bind in R |- *; cbn -[remove_blocks free_pages lock_release] in R |- *;
      destruct (remove_blocks _ _ _ _ s3) as [[u s4]|]; [exact R|discriminate]|].
    split; [exact Hh'|]. split; [intros x n; rewrite HL'; apply HL3|].
    split; [intros x n y L Hy; rewrite (Hm' x n y L Hy); apply (Hmem x n y); [apply HL', L|exact Hy]|].
    exists a, ar. split; [exact Ha|]. split; [exact Hin|]. left.
    assert (Hpg : pages_of ar3 = pages_of ar) by (unfold pages_of, ar3; cbn; by rewrite Had).
    split; [intros x n L; unfold in_arena in *; rewrite <- Hpg; apply (Hout x n L)|].
    rewrite Hpg in T. destruct T as (idx & o & E & H0 & T). exists idx, o. split; [exact E|]. split; [exact H0|].
    rewrite <- (set_memory_id (pal s')). exact (taken_memory _ _ _ _ _ _ _ T).
  - destruct (unlock_ok s3 p i d3 H3 Hp Hi Hd3 eq_refl) as (s' & Ru & Hh' & Hsim & Hm').
    + intros a' ar' p' i' Ha' Had'. destruct (decide (a' = a)) as [->|Hne]; [|eauto].
      rewrite Ha3 in Ha'. injection Ha' as <-. cbn in Had'. rewrite Had in Had'. injection Had' as <- <-.
      exact Hpart.
    + exact Ho3.
    + exists s'. split; [rewrite (st_bind_run _ _ s3 tt s3) by reflexivity; exact Ru|].
      split; [exact Hh'|]. split; [intros x n; rewrite <- (live_similar_iff s3 s' x n Hsim); apply HL3|].
      split; [intros x n y L Hy; rewrite Hm'; apply (Hmem x n y); [|exact Hy];
        apply (live_similar_iff s3 s' x n Hsim), L|].
      exists a, ar. split; [exact Ha|]. split; [exact Hin|]. right. split.
      * destruct (partial_arena a i (b :: free_list d) Hi Hpart) as (k' & Hk' & Hn').
        exists (block_at_idx a i k'), (size_of i).
        split; [|apply (block_in_arena s H a ar p i k' Ha Had Hk')]. apply (live_similar_iff s3 s' _ _ Hsim).
        exists a, ar3. split; [exact Ha3|]. cbn. rewrite Had. exists k', d3. auto.
      * destruct (sim_pal _ _ Hsim) as [m E]. rewrite E. reflexivity.
Qed.

Lemma free_ok s b n :
  hinv s -> live s b n -> exists s', free b s = Ret (tt, s') /\ released s b s'.
Proof using Type.
  intros H L. pose proof L as (a & ar & Ha & R). destruct (a_desc ar) as [[p i]|] eqn:Ed.
  - destruct R as (k & d & Hk & -> & -> & Hd & Hf).
    destruct (small_index s a ar p i (proj1 H) Ha Ed) as [Hp Hi].
    apply (free_small_ok s p i d a ar k); assumption.
  - destruct R as [-> _]. apply (free_big_ok s a ar H Ha Ed).
Qed.

(** ** [block_size], [calloc] and [realloc] *)

Lemma block_size_ok s b n : hinv0 s -> live s b n -> block_size b s = Ret (n, s).
Proof using Type.
  intros H (a & ar & Ha & R). pose proof (arena_at_inv s a ar H Ha) as Hat. unfold block_size.
  destruct (a_desc ar) as [[p i]|] eqn:Ed.
  - destruct R as (k & d & Hk & -> & -> & Hd & _). destruct (small_index s a ar p i H Ha Ed) as [Hp Hi].
    destruct (h_desc s H p i Hp Hi) as (d0 & Hd0 & Hz & _). rewrite Hd in Hd0. injection Hd0 as <-.
    rewrite (st_bind_run _ _ _ _ _ (block_to_arena_small s a ar p i d k Hat Ed Hd Hi Hz Hk)), Ed.
    rewrite (st_bind_run _ _ _ _ _ (get_desc_run _ _ _ Hd)), Hz. reflexivity.
  - destruct R as [-> ->]. rewrite (st_bind_run _ _ _ _ _ (block_to_arena_big s a ar Hat Ed)), Ed.
    destruct (arena_addr s a ar H Ha) as (A1 & A2 & A3 & A4). unfold pages_of in A3, A4. rewrite Ed in A3, A4.
    change PGSIZE with 4096 in *. destruct (page_of_block a ARENA_SIZE) as [_ ->];
      [auto; change PGSIZE with 4096; unfold ARENA_SIZE; lia..|].
    rewrite wrap_id by (unfold inU, ARENA_SIZE; lia). reflexivity.
Qed.

Definition written (s : hstate) (m : Z -> Z) : hstate := set_pal s (set_memory (pal s) m).

Lemma written_ok s m : hinv s -> hinv (written s m) /\ similar s (written s m).
Proof using Type.
  intros (H & Hul & Hsu).
  assert (Hs : similar s (written s m)) by (split; auto; eexists; reflexivity).
  split; [|exact Hs]. split; [apply (similar_hinv0 _ _ Hs H)|]. split; [exact Hul|exact Hsu].
Qed.

Lemma write_run f s : write f s = Ret (tt, written s (f (memory (pal s)))).
Proof using Type. reflexivity. Qed.

(** Every live block is within the 32-bit address space. *)
Lemma live_bounds s b n : hinv0 s -> live s b n -> 0 < b /\ 0 < n /\ b + n <= 2 ^ 32.
Proof using Type.
  intros H (a & ar & L). destruct (live_in_range s b n a ar H L) as (R1 & R2 & R3).
  destruct (arena_addr s a ar H (proj1 L)) as (A1 & _ & A3 & _). unfold ARENA_SIZE in *. lia.
Qed.

(** What [realloc] does to a block [b] of capacity [n]. *)
Definition resized (s : hstate) (b n size r : Z) (s' : hstate) : Prop :=
  hinv s' /\
  (r = NULL /\ no_pages s POOL_KERNEL (pages_for size) /\ (forall x m, live s' x m <-> live s x m) /\
   (forall x m y, live s' x m -> x <= y < x + m -> memory (pal s') y = memory (pal s) y) \/
   r <> NULL /\ (exists k, size <= k /\ forall x m, live s' x m <-> live s x m /\ x <> b \/ x = r /\ m = k) /\
   (forall j, 0 <= j < Z.min size n -> memory (pal s') (r + j) = memory (pal s) (b + j)) /\
   forall x m y, live s x m -> x <> b -> x <= y < x + m -> memory (pal s') y = memory (pal s) y).

Lemma realloc_ok s b n size :
  hinv s -> live s b n -> 0 < size -> size + ARENA_SIZE + PGSIZE <= 2 ^ 32 ->
  exists r s', realloc b size s = Ret (r, s') /\ resized s b n size r s'.
Proof using Type.
  intros H L Hs Hw. unfold realloc. rewrite (proj2 (Z.eqb_neq size 0)) by lia.
  destruct (malloc_from_pool_ok s POOL_KERNEL size H ltac:(unfold POOL_KERNEL; lia) Hs Hw)
    as (r & s1 & E & H1 & Hm1 & [(-> & Hwhy & HL)|(Hr & k & Hk & Hfresh & HL)]);
    unfold malloc; rewrite (st_bind_run _ _ _ _ _ E);
    rewrite (proj2 (Z.eqb_neq b NULL)) by (destruct (live_bounds s b n (proj1 H) L); unfold NULL; lia).
  - exists NULL, s1. rewrite (st_bind_run _ _ s1 tt s1) by reflexivity. split; [reflexivity|]. split; [exact H1|].
    left. split; [reflexivity|]. split; [exact Hwhy|]. split; [exact HL|]. intros. congruence.
  - rewrite (proj2 (Z.eqb_neq r NULL) Hr). cbn [negb andb].
    assert (L1 : live s1 b n) by (apply HL; auto).
    assert (Lr : live s1 r k) by (apply HL; auto).
    assert (Hbr : b <> r) by (intros ->; apply (Hfresh n L)).
    set (min := if size <? n then size else n).
    assert (Emin : min = Z.min size n) by (unfold min; destruct (Z.ltb_spec size n); lia).
    set (m := memcpy_mem (memory (pal s1)) r b min).
    destruct (written_ok s1 m H1) as [H2 Hs2].
    destruct (free_ok (written s1 m) b n H2) as (s' & E' & H' & HL' & Hm' & _);
      [apply (live_similar_iff s1 _ b n Hs2), L1|].
    assert (HL2 : forall x k', live s' x k' <-> live s1 x k' /\ x <> b).
    { intros x k'. rewrite HL', <- (live_similar_iff s1 _ x k' Hs2). reflexivity. }
    exists r, s'. split.
    { erewrite st_bind_run; [reflexivity|]. rewrite (st_bind_run _ _ _ _ _ (block_size_ok s1 b n (proj1 H1) L1)).
      fold min. rewrite (st_bind_run _ _ _ _ _ (write_run _ s1)). exact E'. }
    split; [exact H'|]. right. split; [exact Hr|]. split; [|split].
    + exists k. split; [exact Hk|]. intros x k'. rewrite HL2, HL. split; [tauto|].
      intros [[? ?]|[-> ->]]; [auto|]. auto.
    + intros j Hj. rewrite (Hm' r k) by (try lia; apply HL2; auto). cbn. unfold m, memcpy_mem.
      destruct (Z.leb_spec r (r + j)), (Z.ltb_spec (r + j) (r + min)); cbn; try lia.
      rewrite Hm1. f_equal. lia.
    + intros x k' y Lx Hne Hy. rewrite (Hm' x k') by (try lia; apply HL2; rewrite HL; auto).
      cbn. unfold m, memcpy_mem.
      destruct (live_disjoint s1 x k' r k (proj1 H1)) as [?|[?|[-> _]]]; [apply HL; auto|exact Lr| | |].
      * destruct (Z.leb_spec r y), (Z.ltb_spec y (r + min)); cbn; try lia; congruence.
      * destruct (Z.leb_spec r y), (Z.ltb_spec y (r + min)); cbn; try lia; congruence.
      * exfalso. apply (Hfresh k' Lx).
Qed.

Lemma calloc_ok s a b :
  hinv s -> 0 < a -> 0 < b -> a * b + ARENA_SIZE + PGSIZE <= 2 ^ 32 ->
  exists r s', calloc a b s = Ret (r, s') /\ hinv s' /\
    (r = NULL /\ no_pages s POOL_KERNEL (pages_for (a * b)) /\ (forall x m, live s' x m <-> live s x m) \/
     r <> NULL /\ (exists n, a * b <= n /\ (forall m, ~ live s r m) /\
       forall x m, live s' x m <-> live s x m \/ x = r /\ m = n) /\
     (forall j, 0 <= j < a * b -> memory (pal s') (r + j) = 0)).
Proof using Type.
  intros H Ha Hb Hw. unfold calloc. change PGSIZE with 4096 in *. unfold ARENA_SIZE in *.
  rewrite wrap_id by (unfold inU; nia).
  rewrite (proj2 (Z.ltb_ge _ a)), (proj2 (Z.ltb_ge _ b)) by nia. cbn [orb].
  destruct (malloc_from_pool_ok s POOL_KERNEL (a * b) H ltac:(unfold POOL_KERNEL; lia) ltac:(nia) Hw)
    as (r & s1 & E & H1 & Hm1 & [(-> & Hwhy & HL)|(Hr & k & Hk & Hfresh & HL)]);
    unfold malloc; rewrite (st_bind_run _ _ _ _ _ E).
  - exists NULL, s1. auto 10.
  - rewrite (proj2 (Z.eqb_neq r NULL) Hr). cbn [negb].
    rewrite (st_bind_run _ _ _ _ _ (write_run _ s1)).
    destruct (written_ok s1 (memset_mem (memory (pal s1)) r 0 (a * b)) H1) as [H2 Hs2].
    exists r. eexists. split; [reflexivity|]. split; [exact H2|]. right. split; [exact Hr|]. split.
    + exists k. split; [exact Hk|]. split; [exact Hfresh|]. intros x m.
      rewrite <- (live_similar_iff s1 _ x m Hs2). apply HL.
    + intros j Hj. cbn. unfold memset_mem. destruct (Z.leb_spec r (r + j)), (Z.ltb_spec (r + j) (r + a * b)); cbn; lia.
Qed.

(** ** Initialisation *)

Definition initial_descs : gmap (Z * Z) desc :=
  list_to_map (map (fun k => let p := Z.of_nat k / 10 in let i := Z.of_nat k mod 10 in
    ((p, i), if i <? 7 then mk_desc (size_of i) (per_arena i) [] false else mk_desc 0 0 [] false))
    (seq 0%nat 30%nat)).

Lemma malloc_init_run (p : palloc_state B) :
  malloc_init (before_init p) =
  Ret (tt, mk_hstate p ∅ initial_descs (<[2 := 7]> (<[1 := 7]> (<[0 := 7]> ∅)))).
Proof using Type. vm_compute. reflexivity. Qed.

Lemma initial_desc p i :
  0 <= p < 3 -> 0 <= i < 7 -> initial_descs !! (p, i) = Some (mk_desc (size_of i) (per_arena i) [] false).
Proof using Type.
  intros Hp Hi. assert (p = 0 \/ p = 1 \/ p = 2) by lia.
  assert (i = 0 \/ i = 1 \/ i = 2 \/ i = 3 \/ i = 4 \/ i = 5 \/ i = 6) by lia.
  destruct_or!; subst; vm_compute; reflexivity.
Qed.

Lemma malloc_init_ok (p : palloc_state B) :
  inv p -> exists s, malloc_init (before_init p) = Ret (tt, s) /\ hinv s /\ pal s = p /\
    forall b n, ~ live s b n.
Proof using Type.
  intros H. rewrite malloc_init_run. eexists. split; [reflexivity|].
  split; [split; [split; cbn [pal arenas descs desc_cnt]|split]|split; [reflexivity|]].
  - exact H.
  - intros q Hq. assert (q = 0 \/ q = 1 \/ q = 2) by lia. destruct_or!; subst; reflexivity.
  - intros q i Hq Hi. exists (mk_desc (size_of i) (per_arena i) [] false).
    rewrite initial_desc by assumption. cbn. do 3 (split; [reflexivity|]).
    split; [constructor|]. intros b Hb. apply elem_of_nil in Hb. easy.
  - intros a ar Ha. rewrite lookup_empty in Ha. discriminate.
  - intros a ar a' ar' Ha. rewrite lookup_empty in Ha. discriminate.
  - intros q i d Hq Hi Hd. cbn in Hd. rewrite initial_desc in Hd by assumption. injection Hd as <-. reflexivity.
  - intros a ar q i Ha. cbn in Ha. rewrite lookup_empty in Ha. discriminate.
  - intros b n (a & ar & Ha & _). cbn in Ha. rewrite lookup_empty in Ha. discriminate.
Qed.

(** ** Requests whose size wraps *)

Lemma malloc_wraps_ok s p size :
  hinv s -> 0 <= p < 3 -> 2 ^ 32 - ARENA_SIZE < size < 2 ^ 32 ->
  exists r s', malloc_from_pool p size s = Ret (r, s') /\ hinv s' /\
    (r = NULL \/ live s' r (PGSIZE - ARENA_SIZE)).
Proof using Type.
  intros H Hp Hs. unfold malloc_from_pool. unfold ARENA_SIZE in Hs.
  rewrite (proj2 (Z.eqb_neq size 0)) by lia.
  rewrite (st_bind_run _ _ s s s eq_refl). rewrite (h_cnt s (proj1 H) p Hp). change (default 0 (Some 7)) with 7.
  destruct (find_desc_run 7 s p 0 size (proj1 H) Hp) as (j & E & Hj & H1 & _); [lia..|].
  rewrite (st_bind_run _ _ _ _ _ E). destruct (Z.eqb_spec j 7) as [->|Hne].
  2: { pose proof (sizes_range j ltac:(lia)). specialize (H1 ltac:(lia)). lia. }
  assert (Ec : DIV_ROUND_UP (wrap 32 (size + 12)) PGSIZE = 1).
  { unfold DIV_ROUND_UP. change PGSIZE with 4096. unfold wrap at 2.
    replace (size + 12) with (size + 12 - 2 ^ 32 + 1 * 2 ^ 32) by lia.
    rewrite Z.mod_add, Z.mod_small by lia. rewrite wrap_id by (unfold inU; lia). Z.div_mod_to_equations. lia. }
  unfold malloc_big, ARENA_SIZE. rewrite Ec.
  pose proof (malloc_big_ok s p 1 H ltac:(lia) ltac:(change PGSIZE with 4096; unfold ARENA_SIZE; lia)) as (r & s' & R & A).
  exists r, s'. unfold malloc_big in R. change (DIV_ROUND_UP (wrap 32 (1 + ARENA_SIZE)) PGSIZE) with 1 in R.
  split; [exact R|]. split; [apply A|].
  destruct (get_pages (pool_flags p) 1 s) as [[a s1]|] eqn:Eg; unfold mbind, st_bind in R; rewrite Eg in R; [|discriminate].
  destruct (Z.eqb_spec a NULL) as [->|Hn]; cbn in R; injection R as <- <-; [auto|]. right.
  destruct A as (Hh & _). exists a. eexists. split; [apply lookup_insert_eq|]. cbn.
  assert (Ha : arena_at (set_arenas s1 (<[a := mk_arena ARENA_MAGIC None 1]> (arenas s1))) a
    (mk_arena ARENA_MAGIC None 1)) by (apply arena_at_inv; [apply Hh|apply lookup_insert_eq]).
  destruct Ha as (_ & _ & A1 & _ & A3). change PGSIZE with 4096 in A3.
  rewrite wrap_id by (unfold inU, ARENA_SIZE; lia). auto.
Qed.
(** Just below, the number of pages wraps to zero, and no pool is that large. *)
Lemma malloc_huge_ok s p size :
  hinv s -> 0 <= p < 3 -> 2 ^ 32 - ARENA_SIZE - PGSIZE < size <= 2 ^ 32 - ARENA_SIZE ->
  malloc_from_pool p size s = Ret (NULL, s) /\ no_pages s p (pages_for size).
Proof using Type.
  intros H Hp Hs. unfold ARENA_SIZE in Hs. change PGSIZE with 4096 in Hs. split.
  - unfold malloc_from_pool. rewrite (proj2 (Z.eqb_neq size 0)) by lia.
    rewrite (st_bind_run _ _ s s s eq_refl). rewrite (h_cnt s (proj1 H) p Hp). change (default 0 (Some 7)) with 7.
    destruct (find_desc_run 7 s p 0 size (proj1 H) Hp) as (j & E & Hj & H1 & _); [lia..|].
    rewrite (st_bind_run _ _ _ _ _ E). destruct (Z.eqb_spec j 7) as [->|Hne].
    2: { pose proof (sizes_range j ltac:(lia)). specialize (H1 ltac:(lia)). lia. }
    assert (Ec : DIV_ROUND_UP (wrap 32 (size + 12)) PGSIZE = 0).
    { unfold DIV_ROUND_UP. change PGSIZE with 4096. unfold wrap. Z.div_mod_to_equations. lia. }
    assert (Eg : get_pages (pool_flags p) 0 s = Ret (NULL, s)).
    { unfold get_pages, palloc_get_multiple. by destruct (over_quota _ _ _), s. }
    unfold malloc_big, ARENA_SIZE. rewrite Ec, (st_bind_run _ _ _ _ _ Eg). reflexivity.
  - right. intros k H0 Hk. destruct (inv_base (pal s) (h_pal s (proj1 H))) as (Hb & _ & Hl).
    unfold pages_for in Hk. rewrite (proj2 (Z.leb_gt size 1024)) in Hk by lia. unfold ARENA_SIZE in Hk.
    change PGSIZE with 4096 in *. Z.div_mod_to_equations. lia.
Qed.

Lemma malloc_any_ok s p size :
  hinv s -> 0 <= p < 3 -> 0 < size <= 2 ^ 32 - ARENA_SIZE ->
  exists r s', malloc_from_pool p size s = Ret (r, s') /\ allocated_block s (pages_for size) p size r s'.
Proof using Type.
  intros H Hp Hs. destruct (Z.le_gt_cases (size + ARENA_SIZE + PGSIZE) (2 ^ 32)) as [Hw|Hw].
  - apply malloc_from_pool_ok; try assumption; lia.
  - destruct (malloc_huge_ok s p size H Hp) as [E N]; [lia|]. exists NULL, s. split; [exact E|].
    split; [exact H|]. split; [reflexivity|]. left. by split_and!.
Qed.
End Malloc.

Arguments hstate : clear implicits.

(** ** Properties *)

(** C27: in a heap that satisfies the invariant, [malloc_from_pool] never fails
    an assertion, whatever the size; a request of 0 bytes returns [NULL] and
    changes nothing.  Up to 2^32 - 12 bytes, it returns [NULL], leaving the
    live blocks as they were, only when the page allocator has no room or
    quota for the pages needed, and otherwise a block that was not live, at
    least as large as asked for; the other live blocks and the contents of
    memory are kept and the locks are released.  Above, where the sum with
    the arena's header wraps, the block returned has only 4084 bytes.  No two
    live blocks ever overlap. *)
Theorem malloc_spec (s : hstate bitmap) pool_id size :
  hinv s -> 0 <= pool_id < 3 -> 0 <= size < 2 ^ 32 ->
  exists r s', malloc_from_pool pool_id size s = Ret (r, s')
  /\ (size = 0 -> r = NULL /\ s' = s)
  /\ (0 < size <= 2 ^ 32 - ARENA_SIZE -> allocated_block s (pages_for size) pool_id size r s')
  /\ (2 ^ 32 - ARENA_SIZE < size -> r = NULL \/ live s' r (PGSIZE - ARENA_SIZE))
  /\ hinv s' /\ forall b n b' n', live s' b n -> live s' b' n' -> b <> b' -> b + n <= b' \/ b' + n' <= b.
Proof.
  intros H Hp Hs. pose proof (fun s b n b' n' (H : hinv s) L L' => live_disjoint s b n b' n' (proj1 H) L L') as D.
  destruct (Z.eq_dec size 0) as [->|H0]; [|destruct (Z.le_gt_cases size (2 ^ 32 - ARENA_SIZE)) as [Hl|Hl]].
  - exists NULL, s. split; [reflexivity|]. split_and!; try done; try lia.
    intros b n b' n' L L' Hne. destruct (D s b n b' n' H L L'); tauto.
  - destruct (malloc_any_ok s pool_id size H Hp ltac:(lia)) as (r & s' & E & A).
    exists r, s'. split; [exact E|]. split_and!; try lia; try done; [apply A|].
    intros b n b' n' L L' Hne. destruct (D s' b n b' n' (proj1 A) L L'); tauto.
  - destruct (malloc_wraps_ok s pool_id size H Hp ltac:(lia)) as (r & s' & E & H' & A).
    exists r, s'. split; [exact E|]. split_and!; try lia; try done.
    intros b n b' n' L L' Hne. destruct (D s' b n b' n' H' L L'); tauto.
Qed.

(** The heap of a pool of pages just after [malloc_init]. *)
Definition small_heap : hstate bitmap :=
  match malloc_init (before_init small_pool) with Ret (_, s) => s | Stop _ => before_init small_pool end.

Lemma small_heap_ok : hinv small_heap /\ forall b n, ~ live small_heap b n.
Proof.
  destruct (malloc_init_ok small_pool small_pool_inv) as (s & E & H & _ & L).
  unfold small_heap. rewrite E. auto.
Qed.

Lemma malloc_spec_witness :
  exists r s', malloc_from_pool POOL_TC 100 small_heap = Ret (r, s') /\ r <> NULL /\
    exists n, 100 <= n /\ live s' r n.
Proof.
  destruct (malloc_spec small_heap POOL_TC 100 (proj1 small_heap_ok)) as (r & s' & E & _ & A & _);
    [unfold POOL_TC; lia|lia|].
  specialize (A ltac:(unfold ARENA_SIZE; lia)).
  assert (Er : (fun '(r, _) => r) <$> malloc_from_pool POOL_TC 100 small_heap = Ret 0xffc1400c)
    by (vm_compute; reflexivity).
  rewrite E in Er. injection Er as ->. exists 0xffc1400c, s'. split; [exact E|].
  split; [discriminate|]. destruct A as (_ & _ & [(E0 & _)|(_ & n & Hn & _ & HL)]); [discriminate E0|].
  exists n. split; [exact Hn|]. apply HL. auto.
Defined.

(** C28: [free] of a live block never fails an assertion, makes exactly that
    block no longer live, keeps the invariant with all locks released, and
    does not touch the bytes of any other live block.  If the block's arena
    has no other live block, its pages, and no others, become free in the
    page allocator's maps and counters; otherwise the page allocator is as
    before. *)
Theorem free_spec (s : hstate bitmap) b n :
  hinv s -> live s b n -> exists s', free b s = Ret (tt, s') /\ released s b s'.
Proof. apply free_ok. Qed.

Lemma free_spec_witness :
  exists s s', malloc 5000 small_heap = Ret (0xffc1400c, s) /\ free 0xffc1400c s = Ret (tt, s') /\
    forall b n, ~ live s' b n.
Proof.
  destruct (malloc_from_pool_ok small_heap POOL_KERNEL 5000 (proj1 small_heap_ok)) as (r & s & E & H & _ & A);
    [unfold POOL_KERNEL; lia|lia|vm_compute; discriminate|].
  assert (Er : (fun '(r, _) => r) <$> malloc_from_pool POOL_KERNEL 5000 small_heap = Ret 0xffc1400c)
    by (vm_compute; reflexivity).
  rewrite E in Er. injection Er as ->. exists s.
  destruct A as [(E0 & _)|(_ & n & _ & _ & HL)]; [discriminate E0|].
  destruct (free_spec s 0xffc1400c n H) as (s' & E' & _ & HL' & _ & _); [apply HL; auto|].
  exists s'. split; [exact E|]. split; [exact E'|]. intros b m Lb. apply HL' in Lb as [Lb Hne].
  apply HL in Lb as [Lb|[-> _]]; [apply (proj2 small_heap_ok b m Lb)|auto].
Defined.

(** [realloc] of a live block either fails for lack of pages, changing
    nothing, or returns a block of the new size that holds the common prefix of
    the old contents; the old block is released and every other live block
    keeps its bytes. *)
Theorem realloc_preserves (s : hstate bitmap) b n size :
  hinv s -> live s b n -> 0 < size -> size + ARENA_SIZE + PGSIZE <= 2 ^ 32 ->
  exists r s', realloc b size s = Ret (r, s') /\ resized s b n size r s'.
Proof. apply realloc_ok. Qed.

Lemma realloc_preserves_witness :
  exists s r s', malloc 40 small_heap = Ret (0xffc1400c, s) /\ realloc 0xffc1400c 3000 s = Ret (r, s') /\ hinv s'.
Proof.
  destruct (malloc_from_pool_ok small_heap POOL_KERNEL 40 (proj1 small_heap_ok)) as (r & s & E & H & _ & A);
    [unfold POOL_KERNEL; lia|lia|vm_compute; discriminate|].
  assert (Er : (fun '(r, _) => r) <$> malloc_from_pool POOL_KERNEL 40 small_heap = Ret 0xffc1400c)
    by (vm_compute; reflexivity).
  rewrite E in Er. injection Er as ->. exists s.
  destruct A as [(E0 & _)|(_ & n & _ & _ & HL)]; [discriminate E0|].
  destruct (realloc_preserves s 0xffc1400c n 3000 H) as (r & s' & E' & A');
    [apply HL; auto|lia|vm_compute; discriminate|].
  exists r, s'. split; [exact E|]. split; [exact E'|]. apply A'.
Defined.

(** For a size within 11 bytes of [2^32] the sum with the arena header
    wraps, so [malloc_from_pool] asks for one page and may return a block of
    4084 bytes for a request of almost 4 GB; the check of [calloc] does not
    catch a product that wraps to a larger value than its factors. *)
Theorem malloc_size_wraps (s : hstate bitmap) pool_id size :
  hinv s -> 0 <= pool_id < 3 -> 2 ^ 32 - ARENA_SIZE < size < 2 ^ 32 ->
  (exists r s', malloc_from_pool pool_id size s = Ret (r, s') /\ hinv s' /\
    (r = NULL \/ live s' r (PGSIZE - ARENA_SIZE)))
  /\ (exists r s', calloc 0x10001 0x10001 s = Ret (r, s') /\
       (r = NULL \/ exists n, live s' r n /\ n < 0x10001 * 0x10001)).
Proof.
  intros H Hp Hs. split; [apply malloc_wraps_ok; assumption|].
  destruct (malloc_from_pool_ok s POOL_KERNEL 0x20001 H) as (r & s1 & E & H1 & _ & A);
    [unfold POOL_KERNEL; lia|lia|vm_compute; discriminate|].
  change (calloc 0x10001 0x10001 s) with
    ((p ← malloc_from_pool POOL_KERNEL 0x20001;
      (if negb (p =? NULL) then write (fun m => memset_mem m p 0 0x20001) else mret tt);; mret p) s).
  rewrite (st_bind_run _ _ _ _ _ E). destruct A as [(-> & _)|(Hr & n & _ & _ & HL)].
  - exists NULL, s1. auto.
  - rewrite (proj2 (Z.eqb_neq r NULL) Hr). cbn [negb]. rewrite (st_bind_run _ _ _ _ _ (write_run _ s1)).
    exists r. eexists. split; [reflexivity|]. right. exists n.
    destruct (written_ok s1 (memset_mem (memory (pal s1)) r 0 0x20001) H1) as [H2 Hs2].
    assert (L : live (written s1 (memset_mem (memory (pal s1)) r 0 0x20001)) r n)
      by (apply (live_similar_iff s1 _ r n Hs2), HL; auto).
    split; [exact L|]. destruct (live_bounds _ r n (proj1 H2) L) as (? & _ & ?). lia.
Qed.

Lemma malloc_size_wraps_witness :
  exists r s', malloc_from_pool POOL_KERNEL 0xffffffff small_heap = Ret (r, s') /\ r <> NULL /\ live s' r 4084.
Proof.
  destruct (malloc_size_wraps small_heap POOL_KERNEL 0xffffffff (proj1 small_heap_ok)) as [(r & s' & E & _ & A) _];
    [unfold POOL_KERNEL; lia|unfold ARENA_SIZE; lia|].
  assert (Er : (fun '(r, _) => r) <$> malloc_from_pool POOL_KERNEL 0xffffffff small_heap = Ret 0xffc1400c)
    by (vm_compute; reflexivity).
  rewrite E in Er. injection Er as ->. exists 0xffc1400c, s'. split; [exact E|]. split; [discriminate|].
  destruct A as [E0|A]; [discriminate E0|exact A].
Defined.
