(* ===== verification/Hash.v ===== *)
(** * Hash tables

    [lib/hash.c]: chained hash tables whose buckets are the lists of
    [lib/list.c].  By the refinement of [Dlist] a bucket is the sequence of its
    elements; removing an element takes it out of the list it is in.  The
    functions a table is made with, [hash] and [equal], are arguments, and so
    is whether the allocation of a rehash succeeds. *)

From Stdlib Require Import ZArith Lia Bool.
From stdpp Require Import base list gmap sorting.
From S2P Require Import Prelude Dlist.

(** ** Hash functions *)

Definition FNV_32_PRIME : Z := 16777619.
Definition FNV_32_BASIS : Z := 2166136261.

(** One byte of the Fowler-Noll-Vo hash. *)
Definition fnv_step (hash b : Z) : Z := wrap 32 (hash * FNV_32_PRIME) ^! b.
Definition hash_bytes (buf : list Z) : Z := foldl fnv_step FNV_32_BASIS buf.
(** [s] without its terminator. *)
Definition hash_string (s : list Z) : Z := foldl fnv_step FNV_32_BASIS s.
(** The bytes of the integer, least significant first. *)
Definition hash_int (i : Z) : Z :=
  hash_bytes [i mod 256; (i >> 8) mod 256; (i >> 16) mod 256; (i >> 24) mod 256].

Definition turn_off_least_1bit (x : Z) : Z := x &! wrap 32 (x - 1).
Definition is_power_of_2 (x : Z) : bool := nz x && (turn_off_least_1bit x =? 0).

Definition BEST_ELEMS_PER_BUCKET : Z := 2.

(** The loop of [rehash] that rounds down to a power of two. *)
Fixpoint round_loop (fuel : nat) (x : Z) : res Z :=
  match fuel with
  | O => Stop NoFuel
  | S fuel => if is_power_of_2 x then Ret x else round_loop fuel (turn_off_least_1bit x)
  end.

Record hash := mk_hash {
  buckets : list (list Z);
  bucket_cnt : Z;
  elem_cnt : Z;
  min_bucket_count : Z }.

Section Hash.
Context (hashf : Z -> Z) (equal : Z -> Z -> bool).

Definition with_buckets (h : hash) (b : list (list Z)) (c : Z) : hash :=
  mk_hash b (bucket_cnt h) c (min_bucket_count h).

(** [hash_clear]: the elements passed to the destructor, in order. *)
Definition hash_clear (h : hash) (destructor : bool) : hash * list Z :=
  (with_buckets h (replicate (Z.to_nat (bucket_cnt h)) []) 0,
   if destructor then concat (buckets h) else []).

(** The allocation of an array of [n] lists of 16 bytes and the write of each:
    [ok] says whether memory is available; [malloc] returns null for no bytes,
    and the product may wrap, in which case the writes pass the end of the block. *)
Definition malloc_buckets (ok : bool) (n : Z) : res bool :=
  let size := wrap 32 (16 * n) in
  if negb ok || (size =? 0) then Ret false
  else if size <? 16 * n then Stop Fault
  else Ret true.

Definition hash_init_size (ok : bool) (size : Z) : res (option hash) :=
  r ← malloc_buckets ok size;
  Ret (if r : bool then Some (fst (hash_clear (mk_hash [] size 0 size) false)) else None).
Definition hash_init (ok : bool) : res (option hash) := hash_init_size ok 4.

(** [hash_destroy]: the elements passed to the destructor. *)
Definition hash_destroy (h : hash) (destructor : bool) : list Z :=
  if destructor then snd (hash_clear h true) else [].

Definition hash_find_bucket_with_hash (h : hash) (hashval : Z) : Z :=
  hashval &! wrap 32 (bucket_cnt h - 1).
Definition find_bucket (h : hash) (e : Z) : Z := hashf e &! wrap 32 (bucket_cnt h - 1).
Definition hash_find_bucket (h : hash) (e : Z) : Z := find_bucket h e.

(** The first element of a bucket equal to [e]. *)
Fixpoint find_loop (b : list Z) (e : Z) : Z :=
  match b with
  | [] => NULL
  | hi :: b => if equal hi e then hi else find_loop b e
  end.
Definition find_elem (h : hash) (bucket e : Z) : res Z :=
  b ← the (geti (buckets h) bucket); Ret (find_loop b e).

Definition push_front (b : list (list Z)) (bucket e : Z) : res (list (list Z)) :=
  l ← the (geti b bucket); Ret (seti b bucket (e :: l)).

Definition insert_elem (h : hash) (bucket e : Z) : res hash :=
  b ← push_front (buckets h) bucket e;
  Ret (with_buckets h b (wrap 32 (elem_cnt h + 1))).
Definition remove_elem (h : hash) (e : Z) : hash :=
  with_buckets h (map (seq_remove e) (buckets h)) (wrap 32 (elem_cnt h - 1)).

(** The move of the elements of the old buckets, in order. *)
Fixpoint move_elems (h : hash) (es : list Z) : res hash :=
  match es with
  | [] => Ret h
  | e :: es =>
      b ← push_front (buckets h) (find_bucket h e) e;
      move_elems (with_buckets h b (elem_cnt h)) es
  end.

Definition rehash (ok : bool) (h : hash) : res hash :=
  let n := elem_cnt h / BEST_ELEMS_PER_BUCKET in
  let n := if n <? min_bucket_count h then min_bucket_count h else n in
  n ← round_loop 33 n;
  if n =? bucket_cnt h then Ret h
  else
    r ← malloc_buckets ok n;
    if negb r then Ret h
    else move_elems (mk_hash (replicate (Z.to_nat n) []) n (elem_cnt h) (min_bucket_count h))
      (concat (buckets h)).

Definition hash_insert (ok : bool) (h : hash) (new : Z) : res (Z * hash) :=
  let bucket := find_bucket h new in
  old ← find_elem h bucket new;
  h ← (if old =? NULL then insert_elem h bucket new else Ret h);
  h ← rehash ok h;
  Ret (old, h).

Definition hash_replace (ok : bool) (h : hash) (new : Z) : res (Z * hash) :=
  let bucket := find_bucket h new in
  old ← find_elem h bucket new;
  let h := if negb (old =? NULL) then remove_elem h old else h in
  h ← insert_elem h bucket new;
  h ← rehash ok h;
  Ret (old, h).

Definition hash_find (h : hash) (e : Z) : res Z := find_elem h (find_bucket h e) e.

Definition hash_delete (ok : bool) (h : hash) (e : Z) : res (Z * hash) :=
  found ← find_elem h (find_bucket h e) e;
  if negb (found =? NULL) then h ← rehash ok (remove_elem h found); Ret (found, h)
  else Ret (found, h).

(** [hash_apply]: the elements the action is called on, in order. *)
Definition hash_apply (h : hash) : list Z := concat (buckets h).

(** An iterator: the bucket and the elements after the current one in it. *)
Record hash_iterator := mk_iter { i_bucket : Z; i_rest : list Z }.

Definition hash_first (h : hash) : res hash_iterator :=
  b ← the (geti (buckets h) 0); Ret (mk_iter 0 b).

Fixpoint next_loop (fuel : nat) (h : hash) (i : hash_iterator) : res (Z * hash_iterator) :=
  match i_rest i with
  | e :: l => Ret (e, mk_iter (i_bucket i) l)
  | [] =>
      match fuel with
      | O => Stop NoFuel
      | S fuel =>
          let k := i_bucket i + 1 in
          if bucket_cnt h <=? k then Ret (NULL, mk_iter k [])
          else b ← the (geti (buckets h) k); next_loop fuel h (mk_iter k b)
      end
  end.
Definition hash_next (h : hash) (i : hash_iterator) : res (Z * hash_iterator) :=
  next_loop (length (buckets h)) h i.

(** [find_iterator]: the elements from the first one equal to [e] on. *)
Fixpoint iterator_loop (b : list Z) (e : Z) : list Z :=
  match b with
  | [] => []
  | hi :: l => if equal hi e then b else iterator_loop l e
  end.
Definition find_iterator (h : hash) (bucket e : Z) : res hash_iterator :=
  b ← the (geti (buckets h) bucket); Ret (mk_iter bucket (iterator_loop b e)).

Definition hash_size (h : hash) : Z := elem_cnt h.
Definition hash_empty (h : hash) : bool := elem_cnt h =? 0.

(** ** Rounding to a power of two *)

Lemma turn_off_land x : 0 < x < 2 ^ 32 -> turn_off_least_1bit x = x &! (x - 1).
Proof using Type. intros H. unfold turn_off_least_1bit. rewrite wrap_id by (unfold inU; lia). reflexivity. Qed.

Lemma land_le_r x y : 0 <= y -> x &! y <= y.
Proof using Type.
  intros Hy.
  assert (E : y = (x &! y) + (y &~ x)).
  { rewrite Z.add_nocarry_lxor.
    - apply Z.bits_inj'. intros i Hi. rewrite Z.lxor_spec, Z.land_spec, Z.ldiff_spec.
      destruct (Z.testbit y i), (Z.testbit x i); reflexivity.
    - apply Z.bits_inj'. intros i Hi. rewrite !Z.land_spec, Z.ldiff_spec, Z.bits_0.
      destruct (Z.testbit y i), (Z.testbit x i); reflexivity. }
  assert (0 <= y &~ x) by (apply Z.ldiff_nonneg; auto). lia.
Qed.

(** A power of two is its own top bit; any other number keeps it. *)
Lemma turn_off_top x : 0 < x < 2 ^ 32 -> x <> 2 ^ Z.log2 x -> 2 ^ Z.log2 x <= turn_off_least_1bit x < x.
Proof using Type.
  intros Hx Hne. rewrite turn_off_land by exact Hx.
  assert (Hl : 2 ^ Z.log2 x <= x < 2 ^ (Z.log2 x + 1)) by (apply Z.log2_spec; lia).
  assert (Hl' : Z.log2 (x - 1) = Z.log2 x).
  { apply Z.log2_unique; [apply Z.log2_nonneg|]. unfold Z.succ. lia. }
  assert (Hb : Z.testbit (x &! (x - 1)) (Z.log2 x) = true).
  { assert (Hp : 0 < x - 1) by (pose proof (Z.pow_pos_nonneg 2 (Z.log2 x)); pose proof (Z.log2_nonneg x); lia).
    rewrite Z.land_spec, Z.bit_log2 by lia. rewrite <- Hl' at 1. apply Z.bit_log2. exact Hp. }
  pose proof (land_le_r x (x - 1) ltac:(lia)). split; [|lia].
  destruct (Z.le_gt_cases (2 ^ Z.log2 x) (x &! (x - 1))) as [|Hlt]; [assumption|]. exfalso.
  assert (Hn : 0 <= x &! (x - 1)) by (apply Z.land_nonneg; lia).
  destruct (Z.eq_dec (x &! (x - 1)) 0) as [E|E]; [rewrite E, Z.bits_0 in Hb; discriminate|].
  rewrite Z.bits_above_log2 in Hb; [discriminate|exact Hn|]. apply Z.log2_lt_pow2; lia.
Qed.

Lemma is_power_iff x : 0 < x < 2 ^ 32 -> is_power_of_2 x = true <-> x = 2 ^ Z.log2 x.
Proof using Type.
  intros Hx. unfold is_power_of_2, nz. rewrite (proj2 (Z.eqb_neq x 0)) by lia. cbn [negb andb].
  rewrite Z.eqb_eq. split.
  - intros E. destruct (Z.eq_dec x (2 ^ Z.log2 x)) as [|Hne]; [assumption|].
    pose proof (turn_off_top x Hx Hne). pose proof (Z.pow_pos_nonneg 2 (Z.log2 x)). pose proof (Z.log2_nonneg x). lia.
  - intros E. rewrite turn_off_land by exact Hx. rewrite E.
    replace (2 ^ Z.log2 x - 1) with (Z.ones (Z.log2 x)) by (rewrite Z.ones_equiv; lia).
    rewrite Z.land_ones by apply Z.log2_nonneg. apply Z.mod_same. pose proof (Z.pow_pos_nonneg 2 (Z.log2 x)).
    pose proof (Z.log2_nonneg x). lia.
Qed.

(** Each pass clears the lowest bit that is set. *)
Lemma turn_off_divides x j :
  0 < x < 2 ^ 32 -> 0 <= j -> (2 ^ j | x) -> (2 ^ (j + 1) | turn_off_least_1bit x).
Proof using Type.
  intros Hx Hj [y ->]. rewrite turn_off_land by exact Hx.
  apply Z.mod_divide; [pose proof (Z.pow_pos_nonneg 2 (j + 1)); lia|].
  rewrite <- Z.land_ones by lia. apply Z.bits_inj'. intros i Hi. rewrite !Z.land_spec, Z.bits_0.
  destruct (Z.lt_ge_cases i (j + 1)) as [Hij|Hij]; [|rewrite Z.ones_spec_high by lia; apply andb_false_r].
  rewrite <- Z.shiftl_mul_pow2 at 1 by lia. rewrite Z.shiftl_spec by lia.
  destruct (Z.lt_ge_cases i j) as [Hlt|Hge]; [rewrite Z.testbit_neg_r by lia; reflexivity|].
  assert (i = j) as -> by lia. rewrite Z.sub_diag.
  replace (y * 2 ^ j - 1) with ((y - 1) * 2 ^ j + (2 ^ j - 1)) by lia.
  assert (Hpj : 0 < 2 ^ j) by (apply Z.pow_pos_nonneg; lia).
  assert (E : Z.testbit ((y - 1) * 2 ^ j + (2 ^ j - 1)) j = Z.testbit (y - 1) 0).
  { rewrite !Z.testbit_odd, !Z.shiftr_div_pow2 by lia. rewrite Z.div_add_l by lia.
    rewrite (Z.div_small (2 ^ j - 1)) by lia. rewrite Z.add_0_r, Z.pow_0_r, Z.div_1_r. reflexivity. }
  rewrite E. rewrite !Z.bit0_odd, Z.odd_sub. destruct (Z.odd y); reflexivity.
Qed.

Lemma round_loop_run fuel x j :
  0 < x < 2 ^ 32 -> 0 <= j -> (2 ^ j | x) -> 33 <= Z.of_nat fuel + j ->
  round_loop fuel x = Ret (2 ^ Z.log2 x).
Proof using Type.
  revert x j. induction fuel as [|fuel IH]; intros x j Hx Hj Hd Hf.
  - exfalso. assert (H1 : 2 ^ j <= x) by (apply Z.divide_pos_le; [lia|exact Hd]).
    assert (2 ^ 33 <= 2 ^ j) by (apply Z.pow_le_mono_r; lia). lia.
  - cbn [round_loop]. destruct (is_power_of_2 x) eqn:E.
    + apply is_power_iff in E; [|exact Hx]. rewrite <- E. reflexivity.
    + assert (Hne : x <> 2 ^ Z.log2 x).
      { intros E'. apply is_power_iff in E'; [congruence|exact Hx]. }
      pose proof (turn_off_top x Hx Hne) as Ht. pose proof (Z.log2_spec x ltac:(lia)) as Hl.
      assert (El : Z.log2 (turn_off_least_1bit x) = Z.log2 x).
      { apply Z.log2_unique; [apply Z.log2_nonneg|]. lia. }
      rewrite (IH _ (j + 1)), El; [reflexivity| |lia| |lia].
      * pose proof (Z.pow_pos_nonneg 2 (Z.log2 x)). pose proof (Z.log2_nonneg x). lia.
      * apply turn_off_divides; assumption.
Qed.

(** ** Buckets *)

(** Every element is in the bucket its hash selects. *)
Record placed (h : hash) : Prop := {
  p_cnt : bucket_cnt h = lenZ (buckets h);
  p_range : 0 < bucket_cnt h < 2 ^ 32;
  p_elem : forall i b e, geti (buckets h) i = Some b -> e ∈ b -> find_bucket h e = i }.

Definition contents (h : hash) : list Z := concat (buckets h).

Hypothesis Hhash : forall e, 0 <= hashf e.

Lemma find_bucket_range h e : placed h -> 0 <= find_bucket h e < lenZ (buckets h).
Proof using Hhash.
  intros H. pose proof (p_range h H) as Hr. rewrite <- (p_cnt h H). unfold find_bucket.
  rewrite wrap_id by (unfold inU; lia). pose proof (land_le_r (hashf e) (bucket_cnt h - 1) ltac:(lia)).
  assert (0 <= hashf e &! (bucket_cnt h - 1)) by (apply Z.land_nonneg; auto). lia.
Qed.

Lemma geti_app_split {A} (l : list A) i a :
  geti l i = Some a -> exists l1 l2, l = l1 ++ a :: l2 /\ lenZ l1 = i /\ forall x, seti l i x = l1 ++ x :: l2.
Proof using Type.
  unfold geti, seti, lenZ. destruct (Z.ltb_spec i 0); [discriminate|]. intros Hl.
  exists (take (Z.to_nat i) l), (drop (S (Z.to_nat i)) l).
  pose proof (lookup_lt_Some _ _ _ Hl). split; [symmetry; apply take_drop_middle, Hl|].
  split; [rewrite length_take; lia|]. intros x. apply insert_take_drop. exact H0.
Qed.

Lemma elem_of_contents h e : e ∈ contents h <-> exists i b, geti (buckets h) i = Some b /\ e ∈ b.
Proof using Type.
  unfold contents. rewrite list_elem_of_In, in_concat. split.
  - intros (b & Hb & He). apply list_elem_of_In, list_elem_of_lookup in Hb as [n Hn].
    exists (Z.of_nat n), b. split; [|apply list_elem_of_In, He]. unfold geti.
    destruct (Z.ltb_spec (Z.of_nat n) 0); [lia|]. rewrite Nat2Z.id. exact Hn.
  - intros (i & b & Hb & He). exists b. split; [|apply list_elem_of_In, He].
    apply list_elem_of_In. unfold geti in Hb. destruct (i <? 0); [discriminate|].
    apply list_elem_of_lookup. eauto.
Qed.

Lemma push_front_run h e c :
  placed h -> exists b, push_front (buckets h) (find_bucket h e) e = Ret b /\
    placed (with_buckets h b c) /\ contents (with_buckets h b c) ≡ₚ e :: contents h.
Proof using Hhash.
  intros H. pose proof (find_bucket_range h e H) as Hr.
  destruct (geti_lt_Some _ _ Hr) as (l & El). destruct (geti_app_split _ _ _ El) as (l1 & l2 & E1 & E2 & E3).
  exists (seti (buckets h) (find_bucket h e) (e :: l)). unfold push_front. rewrite El.
  split; [reflexivity|]. split.
  - destruct H as [H1 H2 H3]. split; cbn [with_buckets buckets bucket_cnt]; [rewrite lenZ_seti; exact H1|exact H2|].
    intros i b x Hb Hx. change (find_bucket h x = i). rewrite geti_seti in Hb by exact Hr.
    destruct (Z.eqb_spec i (find_bucket h e)) as [->|Hne]; [|eauto].
    injection Hb as <-. apply elem_of_cons in Hx as [->|Hx]; [reflexivity|eauto].
  - unfold contents. cbn [with_buckets buckets]. rewrite E3, E1, !concat_app. cbn [concat app].
    rewrite <- Permutation_middle. reflexivity.
Qed.

Lemma move_elems_run h es :
  placed h -> exists h', move_elems h es = Ret h' /\ placed h' /\ contents h' ≡ₚ es ++ contents h /\
    elem_cnt h' = elem_cnt h /\ min_bucket_count h' = min_bucket_count h /\ bucket_cnt h' = bucket_cnt h.
Proof using Hhash.
  revert h. induction es as [|e es IH]; intros h H; cbn [move_elems].
  - exists h. auto 10.
  - destruct (push_front_run h e (elem_cnt h) H) as (b & -> & H' & P).
    destruct (IH _ H') as (h' & E & H2 & P2 & E1 & E2 & E3). exists h'. cbn [mbind res_bind]. rewrite E.
    split; [reflexivity|]. split; [exact H2|]. split; [|auto].
    rewrite P2, P. cbn [app]. symmetry. apply Permutation_middle.
Qed.

(** ** Well-formed tables *)

Record wf (h : hash) : Prop := {
  w_placed : placed h;
  w_cnt : elem_cnt h = lenZ (contents h);
  w_small : lenZ (contents h) < 2 ^ 29;
  w_min : 0 < min_bucket_count h < 2 ^ 28;
  w_nodup : NoDup (contents h);
  w_null : NULL ∉ contents h;
  w_distinct : forall x y, x ∈ contents h -> y ∈ contents h -> equal x y = true -> x = y }.

Lemma concat_replicate_nil (k : nat) : concat (replicate k (@nil Z)) = [].
Proof using Type. induction k as [|k IH]; [reflexivity|exact IH]. Qed.

Lemma malloc_buckets_run ok n : 0 < n < 2 ^ 28 -> malloc_buckets ok n = Ret ok.
Proof using Type.
  intros Hn. unfold malloc_buckets. rewrite wrap_id by (unfold inU; lia).
  rewrite (proj2 (Z.eqb_neq (16 * n) 0)) by lia. rewrite Z.ltb_irrefl. destruct ok; reflexivity.
Qed.

Lemma rehash_ok ok h :
  placed h -> 0 <= elem_cnt h < 2 ^ 29 -> 0 < min_bucket_count h < 2 ^ 28 ->
  exists h', rehash ok h = Ret h' /\ placed h' /\ contents h' ≡ₚ contents h /\
    elem_cnt h' = elem_cnt h /\ min_bucket_count h' = min_bucket_count h.
Proof using Hhash equal.
  intros H He Hm. unfold rehash. set (q := elem_cnt h / BEST_ELEMS_PER_BUCKET).
  set (n := if q <? min_bucket_count h then min_bucket_count h else q).
  assert (Hn : 0 < n < 2 ^ 28).
  { assert (q < 2 ^ 28) by (unfold q, BEST_ELEMS_PER_BUCKET; Z.div_mod_to_equations; lia).
    unfold n. destruct (Z.ltb_spec q (min_bucket_count h)); lia. }
  rewrite (round_loop_run 33 n 0 ltac:(lia) ltac:(lia)) by (try lia; apply Z.divide_1_l). cbn [mbind res_bind].
  destruct (2 ^ Z.log2 n =? bucket_cnt h); [exists h; auto|].
  set (c := 2 ^ Z.log2 n). assert (Hc : 0 < c < 2 ^ 28).
  { unfold c. pose proof (Z.log2_spec n ltac:(lia)). pose proof (Z.log2_nonneg n).
    pose proof (Z.pow_pos_nonneg 2 (Z.log2 n)). lia. }
  rewrite (malloc_buckets_run ok c Hc). cbn [mbind res_bind].
  destruct ok; cbn [negb]; [|exists h; auto].
  destruct (move_elems_run (mk_hash (replicate (Z.to_nat c) []) c (elem_cnt h) (min_bucket_count h)) (concat (buckets h)))
    as (h' & -> & H' & P & E1 & E2 & _).
  - split; cbn [buckets bucket_cnt]; [|lia|].
    + unfold lenZ. rewrite length_replicate. lia.
    + intros i b e Hb Hx. unfold geti in Hb. destruct (i <? 0); [discriminate|].
      apply lookup_replicate in Hb as [-> _]. apply elem_of_nil in Hx. easy.
  - exists h'. split; [reflexivity|]. split; [exact H'|]. split; [|auto]. rewrite P.
    replace (contents (mk_hash (replicate (Z.to_nat c) []) c (elem_cnt h) (min_bucket_count h))) with (@nil Z);
      [rewrite app_nil_r; reflexivity|].
    symmetry. apply concat_replicate_nil.
Qed.

Lemma remove_notin e l : e ∉ l -> seq_remove e l = l.
Proof using Type.
  induction l as [|x l IH]; intros He; [reflexivity|]. apply not_elem_of_cons in He as [Hne He].
  cbn [seq_remove]. rewrite (proj2 (Z.eqb_neq e x) Hne), IH by exact He. reflexivity.
Qed.

Lemma remove_perm e l : e ∈ l -> e :: seq_remove e l ≡ₚ l.
Proof using Type.
  induction l as [|x l IH]; intros He; [apply elem_of_nil in He; easy|]. cbn [seq_remove].
  destruct (Z.eqb_spec e x) as [->|Hne]; [reflexivity|].
  apply elem_of_cons in He as [?|He]; [easy|]. rewrite perm_swap, (IH He). reflexivity.
Qed.

(** Removing an element from every bucket removes it from the one it is in. *)
Lemma remove_concat e bs :
  NoDup (concat bs) -> e ∈ concat bs -> e :: concat (map (seq_remove e) bs) ≡ₚ concat bs.
Proof using Type.
  induction bs as [|b bs IH]; cbn [concat map]; [intros _ He; apply elem_of_nil in He; easy|].
  intros (D1 & D2 & D3)%NoDup_app He. apply elem_of_app in He as [He|He].
  - assert (Hn : forall x, e ∉ concat x -> map (seq_remove e) x = x).
    { induction x as [|y x IHx]; [reflexivity|]. cbn [concat map]. rewrite not_elem_of_app. intros [H1 H2].
      rewrite (remove_notin e y H1), (IHx H2). reflexivity. }
    rewrite Hn by (apply D2, He). rewrite app_comm_cons, (remove_perm e b He). reflexivity.
  - assert (Hb : e ∉ b) by (intros Hb; apply (D2 e Hb He)). rewrite (remove_notin e b Hb).
    rewrite Permutation_middle, (IH D3 He). reflexivity.
Qed.

Lemma geti_map {A C} (f : A -> C) l i : geti (map f l) i = f <$> geti l i.
Proof using Type. unfold geti. destruct (i <? 0); [reflexivity|]. apply list_lookup_fmap. Qed.

Lemma elem_of_remove_inv e x l : x ∈ seq_remove e l -> x ∈ l.
Proof using Type.
  induction l as [|y l IH]; cbn [seq_remove]; [auto|]. destruct (e =? y); rewrite !elem_of_cons; [|intros [Hx|Hx]]; auto.
Qed.

Lemma remove_elem_ok h e :
  placed h -> NoDup (contents h) -> e ∈ contents h ->
  placed (remove_elem h e) /\ e :: contents (remove_elem h e) ≡ₚ contents h.
Proof using Type.
  intros [H1 H2 H3] Hd He. split; [|apply remove_concat; assumption].
  split; cbn [remove_elem with_buckets buckets bucket_cnt]; [|exact H2|].
  - unfold lenZ in *. rewrite length_map. exact H1.
  - intros i b x Hb Hx. change (find_bucket h x = i). rewrite geti_map in Hb.
    destruct (geti (buckets h) i) as [b0|] eqn:E; [|discriminate]. injection Hb as <-.
    apply (H3 i b0 x E). apply (elem_of_remove_inv e), Hx.
Qed.

Lemma find_loop_spec b e :
  (find_loop b e = NULL /\ (forall x, x ∈ b -> equal x e = true -> x = NULL)) \/
  (find_loop b e ∈ b /\ equal (find_loop b e) e = true).
Proof using Type.
  induction b as [|x b IH]; cbn [find_loop].
  - left. split; [reflexivity|]. intros x Hx. apply elem_of_nil in Hx. easy.
  - destruct (equal x e) eqn:E; [right; split; [constructor|exact E]|].
    destruct IH as [[H1 H2]|[H1 H2]]; [left|right; split; [constructor; exact H1|exact H2]].
    split; [exact H1|]. intros y [->|Hy]%elem_of_cons Ey; [congruence|auto].
Qed.

Hypothesis Hcompat : forall x y, equal x y = true -> hashf x = hashf y.

Lemma find_elem_ok h e :
  placed h -> NULL ∉ contents h ->
  exists r, find_elem h (find_bucket h e) e = Ret r /\
    (r = NULL /\ (forall x, x ∈ contents h -> equal x e = false) \/
     r <> NULL /\ r ∈ contents h /\ equal r e = true).
Proof using Hhash Hcompat.
  intros H Hnull. destruct (geti_lt_Some _ _ (find_bucket_range h e H)) as (b & Eb).
  exists (find_loop b e). unfold find_elem. rewrite Eb. split; [reflexivity|].
  assert (Hin : forall x, x ∈ b -> x ∈ contents h) by (intros x Hx; apply elem_of_contents; eauto).
  destruct (find_loop_spec b e) as [[H1 H2]|[H1 H2]]; [left|right].
  - split; [exact H1|]. intros x Hx. destruct (equal x e) eqn:E; [|reflexivity]. exfalso.
    assert (Hb : x ∈ b).
    { apply elem_of_contents in Hx as (i & b' & Hb' & Hx). pose proof (p_elem h H i b' x Hb' Hx) as Hi.
      unfold find_bucket in Hi, Eb. rewrite (Hcompat x e E) in Hi. rewrite Hi in Eb. congruence. }
    apply Hnull. rewrite <- (H2 x Hb E). auto.
  - split; [|auto]. intros E. rewrite E in H1. auto.
Qed.

(** ** Refinement of a set *)

Inductive hop := Insert (e : Z) | Replace (e : Z) | Delete (e : Z) | Find (e : Z).

Definition run_hop (ok : bool) (o : hop) (h : hash) : res (Z * hash) :=
  match o with
  | Insert e => hash_insert ok h e
  | Replace e => hash_replace ok h e
  | Delete e => hash_delete ok h e
  | Find e => r ← hash_find h e; Ret (r, h)
  end.

Definition hop_elem (o : hop) : Z :=
  match o with Insert e | Replace e | Delete e | Find e => e end.

(** The set after an operation on [e] that found [r]. *)
Definition set_after (o : hop) (r : Z) (S : gset Z) : gset Z :=
  match o with
  | Insert e => if r =? NULL then {[e]} ∪ S else S
  | Replace e => {[e]} ∪ S ∖ {[r]}
  | Delete _ => S ∖ {[r]}
  | Find _ => S
  end.

(** An operation returns the element equal to its argument, or null if the
    set has none. *)
Definition hstep (S : gset Z) (o : hop) (r : Z) (S' : gset Z) : Prop :=
  (r = NULL /\ (forall x, x ∈ S -> equal x (hop_elem o) = false) \/
   r <> NULL /\ r ∈ S /\ equal r (hop_elem o) = true) /\ S' = set_after o r S.

Definition set_of (h : hash) : gset Z := list_to_set (contents h).

Hypothesis (Hrefl : forall x, equal x x = true)
  (Hsym : forall x y, equal x y = true -> equal y x = true)
  (Htrans : forall x y z, equal x y = true -> equal y z = true -> equal x z = true).

(** A table is well formed if its contents are, in any order. *)
Lemma wf_perm h l :
  placed h -> contents h ≡ₚ l -> elem_cnt h = lenZ l -> lenZ l < 2 ^ 29 -> 0 < min_bucket_count h < 2 ^ 28 ->
  NoDup l -> NULL ∉ l -> (forall x y, x ∈ l -> y ∈ l -> equal x y = true -> x = y) -> wf h.
Proof using All.
  intros H P Ec Hs Hm Hd Hn Hq. assert (El : lenZ (contents h) = lenZ l) by (unfold lenZ; rewrite P; reflexivity).
  split; auto; rewrite ?El; auto.
  - rewrite P. exact Hd.
  - rewrite P. exact Hn.
  - intros x y. rewrite !P. apply Hq.
Qed.

Lemma rehash_wf ok h l :
  placed h -> contents h ≡ₚ l -> elem_cnt h = lenZ l -> lenZ l < 2 ^ 29 -> 0 < min_bucket_count h < 2 ^ 28 ->
  NoDup l -> NULL ∉ l -> (forall x y, x ∈ l -> y ∈ l -> equal x y = true -> x = y) ->
  exists h', rehash ok h = Ret h' /\ wf h' /\ contents h' ≡ₚ l.
Proof using All.
  intros H P Ec Hs Hm Hd Hn Hq.
  destruct (rehash_ok ok h H) as (h' & E & H' & P' & E1 & E2); [unfold lenZ in *; lia|exact Hm|].
  exists h'. split; [exact E|]. assert (P2 : contents h' ≡ₚ l) by (rewrite P'; exact P).
  split; [|exact P2]. apply (wf_perm h' l); rewrite ?E1, ?E2; auto.
Qed.

Lemma set_of_perm h l : contents h ≡ₚ l -> set_of h = list_to_set l.
Proof using All. intros P. unfold set_of. apply list_to_set_perm_L, P. Qed.

(** Adding an element equal to none. *)
Lemma add_ok ok h l e :
  placed h -> contents h ≡ₚ l -> elem_cnt h = lenZ l -> lenZ l + 1 < 2 ^ 29 -> 0 < min_bucket_count h < 2 ^ 28 ->
  NoDup l -> NULL ∉ l -> (forall x y, x ∈ l -> y ∈ l -> equal x y = true -> x = y) ->
  e <> NULL -> (forall x, x ∈ l -> equal x e = false) ->
  exists h', (h ← insert_elem h (find_bucket h e) e; rehash ok h) = Ret h' /\ wf h' /\
    set_of h' = {[e]} ∪ list_to_set l.
Proof using All.
  intros H P Ec Hs Hm Hd Hn Hq He Hnew. unfold insert_elem.
  destruct (push_front_run h e (wrap 32 (elem_cnt h + 1)) H) as (b & -> & H1 & P1). cbn [mbind res_bind].
  rewrite Ec in *. rewrite wrap_id in * by (unfold inU, lenZ in *; lia).
  assert (Hel : e ∉ l) by (intros Hin; specialize (Hnew e Hin); rewrite Hrefl in Hnew; discriminate).
  destruct (rehash_wf ok (with_buckets h b (lenZ l + 1)) (e :: l)) as (h' & E & W & P2).
  - exact H1.
  - rewrite P1, P. reflexivity.
  - unfold lenZ. cbn. lia.
  - unfold lenZ in *. cbn [length]. lia.
  - exact Hm.
  - apply NoDup_cons. auto.
  - apply not_elem_of_cons. auto.
  - intros x y [->|Hx]%elem_of_cons [->|Hy]%elem_of_cons Exy; auto.
    + apply Hsym in Exy. rewrite Hnew in Exy by exact Hy. discriminate.
    + rewrite Hnew in Exy by exact Hx. discriminate.
  - exists h'. split; [exact E|]. split; [exact W|]. rewrite (set_of_perm h' _ P2). reflexivity.
Qed.

(** The table after an element is taken out. *)
Lemma taken_out h e :
  wf h -> e ∈ contents h ->
  let h' := remove_elem h e in
  placed h' /\ elem_cnt h' = lenZ (contents h') /\ lenZ (contents h') + 1 = lenZ (contents h) /\
  NoDup (e :: contents h') /\ e :: contents h' ≡ₚ contents h.
Proof using All.
  intros W He h'. destruct (remove_elem_ok h e (w_placed h W) (w_nodup h W) He) as [H' P]. fold h' in H', P.
  assert (El : lenZ (contents h') + 1 = lenZ (contents h)).
  { unfold lenZ. rewrite <- P. cbn [length]. lia. }
  split; [exact H'|]. split; [|split; [exact El|split; [rewrite P; apply (w_nodup h W)|exact P]]].
  cbn [h' remove_elem with_buckets elem_cnt]. pose proof (w_small h W). rewrite (w_cnt h W).
  rewrite wrap_id by (unfold inU, lenZ in *; lia). fold h'. lia.
Qed.

(** The lookup an operation starts with. *)
Definition found (h : hash) (e r : Z) : Prop :=
  r = NULL /\ (forall x, x ∈ contents h -> equal x e = false) \/
  r <> NULL /\ r ∈ contents h /\ equal r e = true.

(** Removing the element that is equal to [e]. *)
Lemma taken_equal h e r :
  wf h -> r ∈ contents h -> equal r e = true ->
  let h' := remove_elem h r in
  NULL ∉ contents h' /\ (forall x, x ∈ contents h' -> equal x e = false) /\
  (forall x y, x ∈ contents h' -> y ∈ contents h' -> equal x y = true -> x = y) /\
  set_of h = {[r]} ∪ list_to_set (contents h') /\ r ∉ contents h' /\ set_of h' = (set_of h ∖ {[r]}).
Proof using All.
  intros W Hin Heq h'. destruct (taken_out h r W Hin) as (_ & _ & _ & [Hnr _]%NoDup_cons & P). fold h' in Hnr, P.
  assert (Hsub : forall x, x ∈ contents h' -> x ∈ contents h) by (intros x Hx; rewrite <- P; constructor; exact Hx).
  assert (Hset : set_of h = {[r]} ∪ list_to_set (contents h')) by (rewrite <- list_to_set_cons; apply set_of_perm; symmetry; exact P).
  split; [intros Hn; apply (w_null h W), Hsub, Hn|]. split; [|split; [|split; [exact Hset|split; [exact Hnr|]]]].
  - intros x Hx. destruct (equal x e) eqn:Ex; [|reflexivity]. exfalso. apply Hnr.
    rewrite <- (w_distinct h W x r); [exact Hx|auto|exact Hin|]. apply (Htrans x e r Ex), Hsym, Heq.
  - intros x y Hx Hy. apply (w_distinct h W); auto.
  - rewrite Hset. apply leibniz_equiv. unfold set_of. set_solver.
Qed.

Lemma hash_insert_ok ok h e r :
  wf h -> e <> NULL -> lenZ (contents h) + 1 < 2 ^ 29 -> find_elem h (find_bucket h e) e = Ret r -> found h e r ->
  exists h', hash_insert ok h e = Ret (r, h') /\ wf h' /\ set_of h' = set_after (Insert e) r (set_of h).
Proof using All.
  intros W Hne Hs Er Hr. unfold hash_insert. rewrite Er. cbn [mbind res_bind set_after].
  destruct Hr as [[-> Hnew]|(Hr0 & Hin & Heq)].
  - rewrite Z.eqb_refl. destruct (add_ok ok h (contents h) e (w_placed h W)) as (h' & E & W' & S'); auto;
      try apply W.
    exists h'. destruct (insert_elem h (find_bucket h e) e) as [h1|]; [|discriminate].
    cbn [mbind res_bind] in *. rewrite E. auto.
  - rewrite (proj2 (Z.eqb_neq r NULL) Hr0). cbn [mbind res_bind].
    destruct (rehash_wf ok h (contents h) (w_placed h W)) as (h' & E & W' & P'); auto; try apply W.
    rewrite E. exists h'. split; [reflexivity|]. split; [exact W'|]. apply set_of_perm, P'.
Qed.

Lemma hash_replace_ok ok h e r :
  wf h -> e <> NULL -> lenZ (contents h) + 1 < 2 ^ 29 -> find_elem h (find_bucket h e) e = Ret r -> found h e r ->
  exists h', hash_replace ok h e = Ret (r, h') /\ wf h' /\ set_of h' = set_after (Replace e) r (set_of h).
Proof using All.
  intros W Hne Hs Er Hr. unfold hash_replace. rewrite Er. cbn [mbind res_bind set_after].
  destruct Hr as [[-> Hnew]|(Hr0 & Hin & Heq)].
  - rewrite Z.eqb_refl. cbn [negb].
    destruct (add_ok ok h (contents h) e (w_placed h W)) as (h' & E & W' & S'); auto; try apply W.
    exists h'. destruct (insert_elem h (find_bucket h e) e) as [h1|]; [|discriminate].
    cbn [mbind res_bind] in *. rewrite E. split; [reflexivity|]. split; [exact W'|].
    rewrite S'. pose proof (w_null h W). apply leibniz_equiv. unfold set_of. set_solver.
  - rewrite (proj2 (Z.eqb_neq r NULL) Hr0). cbn [negb].
    destruct (taken_out h r W Hin) as (H1 & C1 & L1 & [_ Hd1]%NoDup_cons & P1).
    destruct (taken_equal h e r W Hin Heq) as (N1 & F1 & Q1 & _ & _ & S1).
    set (h1 := remove_elem h r) in *.
    destruct (add_ok ok h1 (contents h1) e H1) as (h' & E & W' & S'); auto; [lia|apply W|].
    exists h'. change (find_bucket h e) with (find_bucket h1 e).
    destruct (insert_elem h1 (find_bucket h1 e) e) as [h2|]; [|discriminate].
    cbn [mbind res_bind] in *. rewrite E. split; [reflexivity|]. split; [exact W'|].
    rewrite S', <- S1. reflexivity.
Qed.

Lemma hash_delete_ok ok h e r :
  wf h -> find_elem h (find_bucket h e) e = Ret r -> found h e r ->
  exists h', hash_delete ok h e = Ret (r, h') /\ wf h' /\ set_of h' = set_after (Delete e) r (set_of h).
Proof using All.
  intros W Er Hr. unfold hash_delete. rewrite Er. cbn [mbind res_bind set_after].
  destruct Hr as [[-> Hnew]|(Hr0 & Hin & Heq)].
  - rewrite Z.eqb_refl. cbn [negb]. exists h. split; [reflexivity|]. split; [exact W|].
    pose proof (w_null h W). apply leibniz_equiv. unfold set_of. set_solver.
  - rewrite (proj2 (Z.eqb_neq r NULL) Hr0). cbn [negb].
    destruct (taken_out h r W Hin) as (H1 & C1 & L1 & [_ Hd1]%NoDup_cons & P1).
    destruct (taken_equal h e r W Hin Heq) as (N1 & F1 & Q1 & _ & _ & S1).
    set (h1 := remove_elem h r) in *. pose proof (w_small h W).
    destruct (rehash_wf ok h1 (contents h1) H1) as (h' & E & W' & P'); auto; [lia|apply W|].
    rewrite E. exists h'. split; [reflexivity|]. split; [exact W'|].
    rewrite (set_of_perm h' _ P'). exact S1.
Qed.

Lemma hop_ok ok o h :
  wf h -> hop_elem o <> NULL -> lenZ (contents h) + 1 < 2 ^ 29 ->
  exists r h', run_hop ok o h = Ret (r, h') /\ wf h' /\ hstep (set_of h) o r (set_of h').
Proof using All.
  intros W Hne Hs.
  destruct (find_elem_ok h (hop_elem o) (w_placed h W) (w_null h W)) as (r & Er & Hr).
  assert (Hstep : forall S', S' = set_after o r (set_of h) -> hstep (set_of h) o r S').
  { intros S' E. split; [|exact E]. unfold set_of. setoid_rewrite elem_of_list_to_set. exact Hr. }
  exists r. destruct o as [e|e|e|e]; cbn [hop_elem run_hop] in *.
  - destruct (hash_insert_ok ok h e r W Hne Hs Er Hr) as (h' & E & W' & S'). eauto.
  - destruct (hash_replace_ok ok h e r W Hne Hs Er Hr) as (h' & E & W' & S'). eauto.
  - destruct (hash_delete_ok ok h e r W Er Hr) as (h' & E & W' & S'). eauto.
  - exists h. unfold hash_find. rewrite Er. auto.
Qed.

(** A series of operations, each with the outcome of its allocation. *)
Fixpoint run_hops (os : list (bool * hop)) (h : hash) : res (list Z * hash) :=
  match os with
  | [] => Ret ([], h)
  | (ok, o) :: os => '(r, h) ← run_hop ok o h; '(rs, h) ← run_hops os h; Ret (r :: rs, h)
  end.
Fixpoint hsteps (S : gset Z) (os : list (bool * hop)) (rs : list Z) (S' : gset Z) : Prop :=
  match os, rs with
  | [], [] => S' = S
  | (_, o) :: os, r :: rs => exists S1, hstep S o r S1 /\ hsteps S1 os rs S'
  | _, _ => False
  end.

Lemma lenZ_size h : wf h -> lenZ (contents h) = Z.of_nat (size (set_of h)).
Proof using All. intros W. unfold set_of, lenZ. rewrite size_list_to_set by apply (w_nodup h W). reflexivity. Qed.

Lemma hstep_size S o r S' : hstep S o r S' -> (size S' <= size S + 1)%nat.
Proof using All.
  intros [_ ->]. destruct o as [e|e|e|e]; cbn [set_after].
  - destruct (r =? NULL); [|lia]. rewrite size_union_alt, size_singleton.
    pose proof (subseteq_size (S ∖ {[e]}) S ltac:(set_solver)). lia.
  - rewrite size_union_alt, size_singleton.
    pose proof (subseteq_size ((S ∖ {[r]}) ∖ {[e]}) S ltac:(set_solver)). lia.
  - pose proof (subseteq_size (S ∖ {[r]}) S ltac:(set_solver)). lia.
  - lia.
Qed.

Lemma hops_ok os h :
  wf h -> Forall (fun '(_, o) => hop_elem o <> NULL) os -> lenZ (contents h) + lenZ os < 2 ^ 29 ->
  exists rs h', run_hops os h = Ret (rs, h') /\ wf h' /\ hsteps (set_of h) os rs (set_of h').
Proof using All.
  revert h. induction os as [|[ok o] os IH]; intros h W Hne Hs; cbn [run_hops].
  - exists [], h. split; [reflexivity|]. split; [exact W|reflexivity].
  - apply Forall_cons in Hne as [Hne1 Hne]. unfold lenZ in Hs at 2. cbn [length] in Hs.
    destruct (hop_ok ok o h W Hne1 ltac:(lia)) as (r & h1 & -> & W1 & St). cbn [mbind res_bind].
    pose proof (hstep_size _ _ _ _ St) as Hsz. rewrite (lenZ_size h W) in Hs.
    destruct (IH h1 W1 Hne) as (rs & h' & -> & W' & Sts); [rewrite (lenZ_size h1 W1); unfold lenZ; lia|].
    exists (r :: rs), h'. split; [reflexivity|]. split; [exact W'|]. exists (set_of h1). auto.
Qed.
End Hash.

(** ** Iteration *)

(** The idiom [hash_first]; [while (hash_next)]: the elements returned. *)
Fixpoint iterate (fuel : nat) (h : hash) (i : hash_iterator) : res (list Z) :=
  match fuel with
  | O => Stop NoFuel
  | S fuel =>
      '(e, i) ← hash_next h i;
      if e =? NULL then Ret [] else es ← iterate fuel h i; Ret (e :: es)
  end.

(** The elements an iterator has still to return. *)
Definition ahead (h : hash) (i : hash_iterator) : list Z :=
  i_rest i ++ concat (drop (Z.to_nat (i_bucket i + 1)) (buckets h)).

Lemma next_loop_run fuel h i :
  bucket_cnt h = lenZ (buckets h) -> 0 <= i_bucket i < lenZ (buckets h) ->
  lenZ (buckets h) <= i_bucket i + Z.of_nat fuel ->
  exists e i', next_loop fuel h i = Ret (e, i') /\
    (e = NULL /\ ahead h i = [] \/ ahead h i = e :: ahead h i' /\ 0 <= i_bucket i' < lenZ (buckets h)).
Proof.
  intros Hc. revert i. induction fuel as [|fuel IH]; intros i Hi Hf; cbn [next_loop];
    destruct i as [k [|e l]]; cbn [i_rest i_bucket] in *; [lia| | |].
  - exists e, (mk_iter k l). split; [reflexivity|]. right. auto.
  - rewrite Hc. destruct (Z.leb_spec (lenZ (buckets h)) (k + 1)) as [Hk|Hk].
    + exists NULL, (mk_iter (k + 1) []). split; [reflexivity|]. left. split; [reflexivity|].
      unfold ahead. cbn [i_rest i_bucket app]. rewrite drop_ge; [reflexivity|unfold lenZ in *; lia].
    + destruct (geti_lt_Some (buckets h) (k + 1) ltac:(lia)) as (b & Eb). rewrite Eb. cbn [the mbind res_bind].
      destruct (IH (mk_iter (k + 1) b)) as (e & i' & -> & H); cbn [i_bucket]; [lia|lia|].
      exists e, i'. split; [reflexivity|].
      assert (Ea : ahead h (mk_iter k []) = ahead h (mk_iter (k + 1) b)).
      { unfold ahead. cbn [i_rest i_bucket app]. unfold geti in Eb. destruct (Z.ltb_spec (k + 1) 0); [lia|].
        rewrite (drop_S _ b (Z.to_nat (k + 1)) Eb). cbn [concat].
        replace (Z.to_nat (k + 1 + 1)) with (S (Z.to_nat (k + 1))) by lia. reflexivity. }
      rewrite Ea. exact H.
  - exists e, (mk_iter k l). split; [reflexivity|]. right. auto.
Qed.

Lemma iterate_run fuel h i :
  bucket_cnt h = lenZ (buckets h) -> 0 <= i_bucket i < lenZ (buckets h) -> NULL ∉ ahead h i ->
  (length (ahead h i) < fuel)%nat -> iterate fuel h i = Ret (ahead h i).
Proof.
  intros Hc. revert i. induction fuel as [|fuel IH]; intros i Hi Hn Hf; [lia|]. cbn [iterate].
  destruct (next_loop_run (length (buckets h)) h i Hc Hi) as (e & i' & E & H); [unfold lenZ; lia|].
  unfold hash_next. rewrite E. cbn [mbind res_bind]. destruct H as [[-> ->]|[Ea Hi']].
  - reflexivity.
  - rewrite Ea in *. apply not_elem_of_cons in Hn as [Hn1 Hn2]. rewrite (proj2 (Z.eqb_neq e NULL)) by auto.
    rewrite (IH i' Hi' Hn2) by (cbn in Hf; lia). reflexivity.
Qed.

(** ** Properties *)

(** C29: a hash table behaves as a set of elements of which no two are equal.
    From a fresh table of fewer than 2^28 buckets, any series of fewer than
    2^29 insertions, replacements, deletions and
    lookups returns what the set says, whether or not the allocations of the
    rehashes succeed: each finds the element equal to its argument, or null
    when there is none.  The rounding loop of each rehash ends, and the
    table's count is the size of the set. *)
Theorem hash_refines_set hashf equal size os h :
  (forall e, 0 <= hashf e) -> (forall x y, equal x y = true -> hashf x = hashf y) ->
  (forall x, equal x x = true) -> (forall x y, equal x y = true -> equal y x = true) ->
  (forall x y z, equal x y = true -> equal y z = true -> equal x z = true) ->
  hash_init_size true size = Ret (Some h) -> 0 < size < 2 ^ 28 ->
  Forall (fun '(_, o) => hop_elem o <> NULL) os -> lenZ os < 2 ^ 29 ->
  exists rs h', run_hops hashf equal os h = Ret (rs, h') /\ hsteps equal ∅ os rs (set_of h') /\
    hash_size h' = Z.of_nat (base.size (set_of h')).
Proof.
  intros H1 H2 H3 H4 H5 Hi Hs Hne Hl. unfold hash_init_size in Hi.
  rewrite (malloc_buckets_run true size Hs) in Hi. cbn [mbind res_bind] in Hi. injection Hi as <-.
  set (h := fst (hash_clear (mk_hash [] size 0 size) false)).
  assert (Ec : contents h = []) by apply concat_replicate_nil.
  assert (W : wf hashf equal h).
  { split; rewrite ?Ec; try apply NoDup_nil_2; try apply not_elem_of_nil.
    - split; cbn; [unfold lenZ; rewrite length_replicate; lia|lia|].
      intros i b e Hb Hx. unfold geti in Hb. destruct (i <? 0); [discriminate|].
      apply lookup_replicate in Hb as [-> _]. apply elem_of_nil in Hx. easy.
    - reflexivity.
    - unfold lenZ. cbn. lia.
    - exact Hs.
    - intros x y Hx. apply elem_of_nil in Hx. easy. }
  destruct (hops_ok hashf equal H1 H2 H3 H4 H5 os h W Hne) as (rs & h' & E & W' & St).
  { rewrite Ec. unfold lenZ in *. cbn. lia. }
  exists rs, h'. split; [exact E|]. split.
  - replace ∅ with (set_of h) by (unfold set_of; rewrite Ec; reflexivity). exact St.
  - unfold hash_size. rewrite (w_cnt _ _ _ W'). eapply lenZ_size; eassumption.
Qed.

(** Elements of 8 bytes compared and hashed by their index. *)
Definition by_index (e : Z) : Z := wrap 32 (e / 8).
Definition same_index (x y : Z) : bool := by_index x =? by_index y.

Lemma hash_refines_set_witness :
  exists h rs h', hash_init_size true 4 = Ret (Some h) /\
    run_hops by_index same_index [(true, Insert 16); (true, Insert 17); (false, Replace 18); (true, Find 20);
                                  (true, Delete 16); (true, Find 16)] h = Ret (rs, h') /\
    rs = [0; 16; 16; 18; 18; 0] /\ hash_size h' = 0.
Proof.
  eexists. 
  destruct (hash_refines_set by_index same_index 4
    [(true, Insert 16); (true, Insert 17); (false, Replace 18); (true, Find 20); (true, Delete 16); (true, Find 16)]
    (mk_hash [[]; []; []; []] 4 0 4)) as (rs & h' & E & _ & Hz).
  - intros e. unfold by_index, wrap. apply Z.mod_pos_bound. lia.
  - intros x y H. apply Z.eqb_eq, H.
  - intros x. apply Z.eqb_refl.
  - intros x y H. unfold same_index in *. rewrite Z.eqb_sym. exact H.
  - intros x y z H1 H2. unfold same_index in *. apply Z.eqb_eq in H1, H2. apply Z.eqb_eq. congruence.
  - reflexivity.
  - lia.
  - repeat constructor; discriminate.
  - unfold lenZ. cbn. lia.
  - exists rs, h'. split; [reflexivity|]. split; [exact E|]. vm_compute in E. injection E as <- <-. auto.
Defined.

(** Iterating a table with [hash_first] and [hash_next] returns every
    element exactly once, in the order in which [hash_apply] visits them, and
    then null; each [hash_next] ends. *)
Theorem hash_iteration_is_apply h i :
  bucket_cnt h = lenZ (buckets h) -> NULL ∉ hash_apply h -> hash_first h = Ret i ->
  iterate (S (length (hash_apply h))) h i = Ret (hash_apply h).
Proof.
  intros Hc Hn Hf. unfold hash_first in Hf. destruct (geti (buckets h) 0) as [b|] eqn:Eb; [|discriminate].
  injection Hf as <-. assert (Ea : ahead h (mk_iter 0 b) = hash_apply h).
  { unfold ahead, hash_apply. cbn [i_rest i_bucket]. unfold geti in Eb. cbn in Eb.
    destruct (buckets h) as [|b0 bs]; [discriminate|]. injection Eb as ->. reflexivity. }
  rewrite <- Ea in Hn |- *. apply iterate_run; auto. cbn. apply geti_Some_lt in Eb. exact Eb.
Qed.

Lemma hash_iteration_is_apply_witness :
  iterate 4 (mk_hash [[24]; []; [16; 48]; []] 4 3 4) (mk_iter 0 [24]) = Ret [24; 16; 48].
Proof.
  apply (hash_iteration_is_apply (mk_hash [[24]; []; [16; 48]; []] 4 3 4) (mk_iter 0 [24])).
  - reflexivity.
  - apply (bool_decide_unpack _). vm_compute. exact I.
  - reflexivity.
Defined.
