(* ===== verification/Rbtree.v ===== *)
(** * Red-black trees

    [lib/rbtree.c]: trees embedded in their elements, with parent pointers
    and one sentinel [nil_store] for all leaves and for the parent of the
    root.  Memory maps the address of an element to its fields; the
    comparison of two elements is the parameter [less].  This file has the
    operations; [RbtreeMem] relates memory to trees, [RbtreeSpec] proves the
    operations correct. *)

From Stdlib Require Import ZArith Lia Bool.
From stdpp Require Import base gmap list.
From S2P Require Import Prelude.

(** [struct rbtree_elem]; [color] is true for [_RED_]. *)
Record node := mk_node { left : Z; right : Z; parent : Z; color : bool }.

(** [struct rbtree] with the elements. *)
Record tree_state := mk_tree { nodes : gmap Z node; root : Z }.

Definition NULL : Z := 0.
Definition nil_store : Z := 4.
Definition RED : bool := true.
Definition BLACK : bool := false.

Definition field {A} (f : node -> A) (p : Z) : st tree_state A := fun s =>
  match nodes s !! p with Some n => Ret (f n, s) | None => Stop Fault end.
Definition write (p : Z) (f : node -> node) : st tree_state unit := fun s =>
  match nodes s !! p with
  | Some n => Ret (tt, mk_tree (<[p := f n]> (nodes s)) (root s))
  | None => Stop Fault
  end.
Definition get_root : st tree_state Z := fun s => Ret (root s, s).
Definition set_root (p : Z) : st tree_state unit := fun s => Ret (tt, mk_tree (nodes s) p).

Definition with_left (v : Z) (n : node) : node := mk_node v (right n) (parent n) (color n).
Definition with_right (v : Z) (n : node) : node := mk_node (left n) v (parent n) (color n).
Definition with_parent (v : Z) (n : node) : node := mk_node (left n) (right n) v (color n).
Definition with_color (v : bool) (n : node) : node := mk_node (left n) (right n) (parent n) v.

Definition set_left (p v : Z) := write p (with_left v).
Definition set_right (p v : Z) := write p (with_right v).
Definition set_parent (p v : Z) := write p (with_parent v).
Definition set_color (p : Z) (v : bool) := write p (with_color v).

Definition is_nil (p : Z) : bool := p =? nil_store.
Definition cond {A} (b : bool) (m1 m2 : st tree_state A) : st tree_state A := if b then m1 else m2.

(** Loops over the tree take fuel; this much is always enough. *)
Definition fuel_of (s : tree_state) : nat := S (size (nodes s)).
Definition with_fuel {A} (f : nat -> st tree_state A) : st tree_state A :=
  fun s => f (fuel_of s) s.

Definition rbtree_init : st tree_state unit :=
  modify (fun s => mk_tree (<[nil_store := mk_node nil_store nil_store nil_store BLACK]> (nodes s))
                     nil_store).

Definition leftrotate (node : Z) : st tree_state unit :=
  rchild ← field right node;
  par ← field parent node;
  rl ← field left rchild;
  set_right node rl;;
  rl ← field left rchild;
  cond (negb (is_nil rl)) (set_parent rl node) (mret tt);;
  set_parent rchild par;;
  (if is_nil par then
     r ← get_root;
     lift (assert (r =? node));;
     set_root rchild
   else
     pl ← field left par;
     if node =? pl then set_left par rchild else set_right par rchild);;
  set_left rchild node;;
  set_parent node rchild.

Definition rightrotate (node : Z) : st tree_state unit :=
  lchild ← field left node;
  par ← field parent node;
  lr ← field right lchild;
  set_left node lr;;
  lr ← field right lchild;
  cond (negb (is_nil lr)) (set_parent lr node) (mret tt);;
  set_parent lchild par;;
  (if is_nil par then
     r ← get_root;
     lift (assert (r =? node));;
     set_root lchild
   else
     pl ← field left par;
     if node =? pl then set_left par lchild else set_right par lchild);;
  set_right lchild node;;
  set_parent node lchild.

(** The loop of [rb_insert]; [root] is the local copy of [*tree], which the
    loop does not refresh after a rotation. *)
Fixpoint rb_insert_loop (fuel : nat) (root node : Z) : st tree_state unit :=
  match fuel with
  | O => stop_with NoFuel
  | S fuel =>
    if node =? root then mret tt else
    par ← field parent node;
    pc ← field color par;
    if negb pc then mret tt else
    gp ← field parent par;
    gl ← field left gp;
    if par =? gl then
      uncle ← field right gp;
      uc ← field color uncle;
      if negb (is_nil uncle) && uc then
        set_color par BLACK;;
        set_color uncle BLACK;;
        gp ← field parent par;
        set_color gp RED;;
        node ← field parent par;
        rb_insert_loop fuel root node
      else
        pr ← field right par;
        '(node, par) ← (if node =? pr then
            leftrotate par;;
            p ← field parent par;
            mret (par, p)
          else mret (node, par));
        set_color par BLACK;;
        gp ← field parent par;
        set_color gp RED;;
        gp ← field parent par;
        rightrotate gp;;
        rb_insert_loop fuel root node
    else
      uncle ← field left gp;
      uc ← field color uncle;
      if negb (is_nil uncle) && uc then
        set_color par BLACK;;
        set_color uncle BLACK;;
        gp ← field parent par;
        set_color gp RED;;
        node ← field parent par;
        rb_insert_loop fuel root node
      else
        pl ← field left par;
        '(node, par) ← (if node =? pl then
            rightrotate par;;
            p ← field parent par;
            mret (par, p)
          else mret (node, par));
        set_color par BLACK;;
        gp ← field parent par;
        set_color gp RED;;
        gp ← field parent par;
        leftrotate gp;;
        rb_insert_loop fuel root node
  end.

Definition rb_insert (node : Z) : st tree_state unit :=
  root ← get_root;
  set_color node RED;;
  with_fuel (fun fuel => rb_insert_loop fuel root node);;
  r ← get_root;
  set_color r BLACK.

(** The loop of [rb_delete_fixup], with its local copy of the root; the
    last statement of the function follows the loop. *)
Fixpoint rb_delete_fixup_loop (fuel : nat) (root node par : Z) : st tree_state Z :=
  match fuel with
  | O => stop_with NoFuel
  | S fuel =>
    if node =? root then mret node else
    nc ← field color node;
    if (nc : bool) then mret node else
    pl ← field left par;
    if node =? pl then
      sibling ← field right par;
      sc ← field color sibling;
      '(par, sibling) ← (if (sc : bool) then
          set_color sibling BLACK;;
          set_color par RED;;
          leftrotate par;;
          par ← field parent node;
          sibling ← field right par;
          mret (par, sibling)
        else mret (par, sibling));
      sl ← field left sibling;
      lc ← field color sl;
      sr ← field right sibling;
      rc ← field color sr;
      if negb lc && negb rc then
        set_color sibling RED;;
        gp ← field parent par;
        rb_delete_fixup_loop fuel root par gp
      else
        '(par, sibling) ← (if negb rc then
            set_color sl BLACK;;
            set_color sibling RED;;
            rightrotate sibling;;
            par ← field parent node;
            sibling ← field right par;
            mret (par, sibling)
          else mret (par, sibling));
        pc ← field color par;
        set_color sibling pc;;
        set_color par BLACK;;
        sr ← field right sibling;
        set_color sr BLACK;;
        leftrotate par;;
        rb_delete_fixup_loop fuel root root par
    else
      sibling ← field left par;
      sc ← field color sibling;
      '(par, sibling) ← (if (sc : bool) then
          set_color sibling BLACK;;
          set_color par RED;;
          rightrotate par;;
          par ← field parent node;
          sibling ← field left par;
          mret (par, sibling)
        else mret (par, sibling));
      sl ← field left sibling;
      lc ← field color sl;
      sr ← field right sibling;
      rc ← field color sr;
      if negb lc && negb rc then
        set_color sibling RED;;
        gp ← field parent par;
        rb_delete_fixup_loop fuel root par gp
      else
        '(par, sibling) ← (if negb lc then
            set_color sr BLACK;;
            set_color sibling RED;;
            leftrotate sibling;;
            par ← field parent node;
            sibling ← field left par;
            mret (par, sibling)
          else mret (par, sibling));
        pc ← field color par;
        set_color sibling pc;;
        set_color par BLACK;;
        sl ← field left sibling;
        set_color sl BLACK;;
        rightrotate par;;
        rb_delete_fixup_loop fuel root root par
  end.

Definition rb_delete_fixup (node : Z) : st tree_state unit :=
  root ← get_root;
  par ← field parent node;
  node ← with_fuel (fun fuel => rb_delete_fixup_loop fuel root node par);
  set_color node BLACK.

Fixpoint maximum_loop (fuel : nat) (root : Z) : st tree_state Z :=
  match fuel with
  | O => stop_with NoFuel
  | S fuel =>
    r ← field right root;
    if is_nil r then mret root else maximum_loop fuel r
  end.
Definition maximum (root : Z) : st tree_state Z := with_fuel (fun fuel => maximum_loop fuel root).

Fixpoint minimum_loop (fuel : nat) (root : Z) : st tree_state Z :=
  match fuel with
  | O => stop_with NoFuel
  | S fuel =>
    l ← field left root;
    if is_nil l then mret root else minimum_loop fuel l
  end.
Definition minimum (root : Z) : st tree_state Z := with_fuel (fun fuel => minimum_loop fuel root).

(** The upward loops of [successor] and [predecessor]. *)
Fixpoint climb_right (fuel : nat) (node par : Z) : st tree_state Z :=
  match fuel with
  | O => stop_with NoFuel
  | S fuel =>
    if is_nil par then mret par else
    r ← field right par;
    if node =? r then
      pp ← field parent par;
      climb_right fuel par pp
    else mret par
  end.
Fixpoint climb_left (fuel : nat) (node par : Z) : st tree_state Z :=
  match fuel with
  | O => stop_with NoFuel
  | S fuel =>
    if is_nil par then mret par else
    l ← field left par;
    if node =? l then
      pp ← field parent par;
      climb_left fuel par pp
    else mret par
  end.

Definition successor (node : Z) : st tree_state Z :=
  r ← field right node;
  if negb (is_nil r) then minimum r else
  par ← field parent node;
  with_fuel (fun fuel => climb_right fuel node par).
Definition predecessor (node : Z) : st tree_state Z :=
  l ← field left node;
  if negb (is_nil l) then maximum l else
  par ← field parent node;
  with_fuel (fun fuel => climb_left fuel node par).

Definition rbtree_elem_replace (b a : Z) : st tree_state unit :=
  al ← field left a;
  set_left b al;;
  ar ← field right a;
  set_right b ar;;
  ap ← field parent a;
  set_parent b ap;;
  ac ← field color a;
  set_color b ac;;
  cond (negb (is_nil ap))
    (l ← field left ap;
     cond (l =? a) (bp ← field parent b; set_left bp b) (mret tt);;
     r ← field right ap;
     cond (r =? a) (bp ← field parent b; set_right bp b) (mret tt))
    (mret tt);;
  al ← field left a;
  cond (negb (is_nil al))
    (p ← field parent al;
     lift (assert (p =? a));;
     bl ← field left b;
     set_parent bl b)
    (mret tt);;
  ar ← field right a;
  cond (negb (is_nil ar))
    (p ← field parent ar;
     lift (assert (p =? a));;
     br ← field right b;
     set_parent br b)
    (mret tt);;
  r ← get_root;
  cond (r =? a) (set_root b) (mret tt).

Definition node_delete (node : Z) : st tree_state unit :=
  nl ← field left node;
  nr ← field right node;
  delnode ← (if is_nil nl || is_nil nr then mret node else successor node);
  dl ← field left delnode;
  child ← (if negb (is_nil dl) then mret dl else field right delnode);
  par ← field parent delnode;
  set_parent child par;;
  (if is_nil par then set_root child else
   pl ← field left par;
   if delnode =? pl then set_left par child else set_right par child);;
  dc ← field color delnode;
  cond (negb dc) (rb_delete_fixup child) (mret tt);;
  cond (negb (delnode =? node))
    (rbtree_elem_replace delnode node;;
     set_right node nil_store;;
     set_left node nil_store;;
     set_parent node nil_store)
    (mret tt).

Definition rbtree_delete (elem : Z) : st tree_state unit := node_delete elem.

Definition rbtree_end : Z := NULL.
Definition rbtree_rend : Z := NULL.

Definition rbtree_begin : st tree_state Z :=
  r ← get_root;
  min ← minimum r;
  mret (if is_nil min then NULL else min).
Definition rbtree_rbegin : st tree_state Z :=
  r ← get_root;
  max ← maximum r;
  mret (if is_nil max then NULL else max).
Definition rbtree_next (elem : Z) : st tree_state Z :=
  next ← successor elem;
  mret (if is_nil next then NULL else next).
Definition rbtree_prev (elem : Z) : st tree_state Z :=
  lift (assert (negb (elem =? NULL)));;
  pred ← predecessor elem;
  mret (if is_nil pred then NULL else pred).

Fixpoint height (fuel : nat) (root : Z) : st tree_state Z :=
  match fuel with
  | O => stop_with NoFuel
  | S fuel =>
    if is_nil root then mret 0 else
    l ← field left root;
    hl ← height fuel l;
    r ← field right root;
    hr ← height fuel r;
    mret (wrap 32 (Z.max hl hr + 1))
  end.
Definition rbtree_height : st tree_state Z :=
  r ← get_root;
  with_fuel (fun fuel => height fuel r).

(** [inorder] prints the elements; the model returns what it prints, an
    address with the fields of its element, in order. *)
Fixpoint inorder (fuel : nat) (root : Z) : st tree_state (list (Z * node)) :=
  match fuel with
  | O => stop_with NoFuel
  | S fuel =>
    if is_nil root then mret [] else
    l ← field left root;
    before ← inorder fuel l;
    n ← field (fun n => n) root;
    r ← field right root;
    after ← inorder fuel r;
    mret (before ++ (root, n) :: after)
  end.
Definition rbtree_inorder : st tree_state (list (Z * node)) :=
  r ← get_root;
  with_fuel (fun fuel => inorder fuel r).

Section Compare.
Context (less : Z -> Z -> bool).

Fixpoint node_insert_loop (fuel : nat) (root new_node : Z) : st tree_state unit :=
  match fuel with
  | O => stop_with NoFuel
  | S fuel =>
    lift (assert (negb (is_nil root)));;
    if less root new_node then
      r ← field right root;
      if is_nil r then set_right root new_node;; set_parent new_node root
      else node_insert_loop fuel r new_node
    else
      l ← field left root;
      if is_nil l then set_left root new_node;; set_parent new_node root
      else node_insert_loop fuel l new_node
  end.

Definition node_insert (new_node : Z) : st tree_state unit :=
  root ← get_root;
  (if is_nil root then set_root new_node
   else with_fuel (fun fuel => node_insert_loop fuel root new_node));;
  rb_insert new_node.

Definition rbtree_insert (elem : Z) : st tree_state unit :=
  set_parent elem nil_store;;
  set_right elem nil_store;;
  set_left elem nil_store;;
  set_color elem RED;;
  node_insert elem.

(** [find_first_equal_entry]; the two assertions after the loop are in its
    exit. *)
Fixpoint first_equal_loop (fuel : nat) (elem root : Z) : st tree_state Z :=
  match fuel with
  | O => stop_with NoFuel
  | S fuel =>
    pred ← predecessor root;
    if is_nil pred || less pred elem then
      lift (assert (negb (is_nil root)));;
      lift (assert (negb (less elem root) && negb (less root elem)));;
      mret root
    else
      lift (assert (negb (less pred elem) && negb (less elem pred)));;
      first_equal_loop fuel elem pred
  end.
Definition find_first_equal_entry (elem root : Z) : st tree_state Z :=
  with_fuel (fun fuel => first_equal_loop fuel elem root).

Fixpoint find_loop (fuel : nat) (elem root : Z) : st tree_state Z :=
  match fuel with
  | O => stop_with NoFuel
  | S fuel =>
    if is_nil root then mret NULL else
    if less root elem then r ← field right root; find_loop fuel elem r
    else if less elem root then l ← field left root; find_loop fuel elem l
    else find_first_equal_entry elem root
  end.
Definition rbtree_find (elem : Z) : st tree_state Z :=
  r ← get_root;
  with_fuel (fun fuel => find_loop fuel elem r).

Fixpoint find_first_loop (fuel : nat) (elem root ret : Z) : st tree_state Z :=
  match fuel with
  | O => stop_with NoFuel
  | S fuel =>
    if is_nil root then
      lift (assert ((ret =? rbtree_end) || less elem ret));;
      mret ret
    else if less root elem then r ← field right root; find_first_loop fuel elem r ret
    else if less elem root then l ← field left root; find_first_loop fuel elem l root
    else find_first_equal_entry elem root
  end.
Definition rbtree_find_first (elem : Z) : st tree_state Z :=
  r ← get_root;
  with_fuel (fun fuel => find_first_loop fuel elem r rbtree_end).

Fixpoint inorder_check (fuel : nat) (root : Z) : st tree_state Z :=
  match fuel with
  | O => stop_with NoFuel
  | S fuel =>
    if is_nil root then mret 0 else
    l ← field left root;
    left_bh ← inorder_check fuel l;
    p ← field parent root;
    pl ← field left p;
    cond (negb (is_nil p) && (pl =? root)) (lift (assert (negb (less p root)))) (mret tt);;
    pr ← field right p;
    cond (negb (is_nil p) && (pr =? root)) (lift (assert (negb (less root p)))) (mret tt);;
    cond (negb (is_nil l)) (lift (assert (negb (less root l)))) (mret tt);;
    r ← field right root;
    cond (negb (is_nil r)) (lift (assert (negb (less r root)))) (mret tt);;
    right_bh ← inorder_check fuel r;
    lift (assert (left_bh =? right_bh));;
    c ← field color root;
    mret (if (c : bool) then left_bh else left_bh + 1)
  end.
Definition rbtree_inorder_check : st tree_state unit :=
  r ← get_root;
  with_fuel (fun fuel => inorder_check fuel r);;
  mret tt.

End Compare.
