(* ===== verification/RbtreeMem.v ===== *)
(** * Red-black trees in memory

    The relation between the memory of [Rbtree] and trees as data, with
    contexts ("zippers") for the part of a tree above a node, and what the
    pointer operations (rotation, recolouring, linking, unlinking and
    replacing an element) do to the tree. *)

From Stdlib Require Import ZArith Lia Bool.
From stdpp Require Import base gmap list.
From S2P Require Import Prelude Rbtree.

(** ** Trees and contexts *)

Inductive tree :=
| E
| N (c : bool) (l : tree) (a : Z) (r : tree).

#[global] Instance tree_eq_dec : EqDecision tree.
Proof. solve_decision. Defined.

Definition ptr (t : tree) : Z := match t with E => nil_store | N _ _ a _ => a end.
Definition red (t : tree) : bool := match t with E => BLACK | N c _ _ _ => c end.

Fixpoint elems (t : tree) : list Z :=
  match t with E => [] | N _ l a r => elems l ++ a :: elems r end.

(** [sub d c t a u]: element [a] with [t] on side [d] (true for left) and
    [u] on the other. *)
Definition sub (d c : bool) (t : tree) (a : Z) (u : tree) : tree :=
  if d then N c t a u else N c u a t.
Definition rec (d : bool) (q q' p : Z) (c : bool) : node :=
  if d then mk_node q q' p c else mk_node q' q p c.

(** A frame is an element above the hole, with the subtree on the other
    side; a context lists frames from the hole to the root. *)
Record frame := F { f_dir : bool; f_color : bool; f_elem : Z; f_other : tree }.

Fixpoint plug (k : list frame) (t : tree) : tree :=
  match k with [] => t | F d c a u :: k => plug k (sub d c t a u) end.

Definition top (k : list frame) : Z :=
  match k with [] => nil_store | F _ _ a _ :: _ => a end.

Definition tops (k : list frame) : list Z :=
  match k with [] => [] | F _ _ a _ :: _ => [a] end.

(** The elements before and after the hole of a context. *)
Fixpoint before (k : list frame) : list Z :=
  match k with
  | [] => []
  | F true _ _ _ :: k => before k
  | F false _ a u :: k => before k ++ elems u ++ [a]
  end.
Fixpoint after (k : list frame) : list Z :=
  match k with
  | [] => []
  | F true _ a u :: k => a :: elems u ++ after k
  | F false _ _ _ :: k => after k
  end.

Fixpoint kelems (k : list frame) : list Z :=
  match k with [] => [] | F _ _ a u :: k => a :: elems u ++ kelems k end.

Lemma elems_sub d c t a u :
  elems (sub d c t a u) = if d then elems t ++ a :: elems u else elems u ++ a :: elems t.
Proof. by destruct d. Qed.

Lemma ptr_sub d c t a u : ptr (sub d c t a u) = a.
Proof. by destruct d. Qed.

Lemma red_sub d c t a u : red (sub d c t a u) = c.
Proof. by destruct d. Qed.

Lemma sub_flip d c t a u : sub d c t a u = sub (negb d) c u a t.
Proof. by destruct d. Qed.

Lemma rec_flip d q q' p c : rec d q q' p c = rec (negb d) q' q p c.
Proof. by destruct d. Qed.

Lemma elems_plug k t : elems (plug k t) = before k ++ elems t ++ after k.
Proof.
  revert t. induction k as [|[d c a u] k IH]; intros t; simpl.
  - by rewrite app_nil_r.
  - rewrite IH, elems_sub. destruct d; by rewrite <- ?(assoc_L (++)).
Qed.

Lemma kelems_before_after k : kelems k ≡ₚ before k ++ after k.
Proof.
  induction k as [|[[] c a u] k IH]; simpl; [done|..]; rewrite IH; solve_Permutation.
Qed.

Lemma elems_plug_perm k t : elems (plug k t) ≡ₚ elems t ++ kelems k.
Proof. rewrite elems_plug, kelems_before_after. solve_Permutation. Qed.

Lemma plug_app k k' t : plug (k ++ k') t = plug k' (plug k t).
Proof. revert t. induction k as [|[d c a u] k IH]; intros t; simpl; [done|apply IH]. Qed.

Lemma before_app k k' : before (k ++ k') = before k' ++ before k.
Proof.
  induction k as [|[[] c a u] k IH]; simpl; [by rewrite app_nil_r|done|].
  by rewrite IH, <- (assoc_L (++)).
Qed.

Lemma after_app k k' : after (k ++ k') = after k ++ after k'.
Proof.
  induction k as [|[[] c a u] k IH]; simpl; [done| |done]. by rewrite IH, (assoc_L (++)).
Qed.

Lemma ptr_plug k t t' : k <> [] -> ptr (plug k t) = ptr (plug k t').
Proof.
  revert t t'. induction k as [|[d c a u] k IH]; intros t t'; [done|intros _; simpl].
  destruct k; [simpl; by rewrite !ptr_sub|]. by apply IH.
Qed.

Lemma ptr_elem t : ptr t = nil_store \/ ptr t ∈ elems t.
Proof. destruct t; simpl; [by left|right; set_solver]. Qed.

(** An element of a tree is the root of a subtree. *)
Lemma focus a t : a ∈ elems t -> exists k c l r, t = plug k (N c l a r).
Proof.
  induction t as [|c l IHl b r IHr]; simpl; [set_solver|].
  rewrite elem_of_app, elem_of_cons. intros [Hl|[->|Hr]].
  - destruct (IHl Hl) as (k & c' & l' & r' & ->).
    exists (k ++ [F true c b r]), c', l', r'. by rewrite plug_app.
  - by exists [], c, l, r.
  - destruct (IHr Hr) as (k & c' & l' & r' & ->).
    exists (k ++ [F false c b l]), c', l', r'. by rewrite plug_app.
Qed.

(** ** Representation *)

Fixpoint rep (m : gmap Z node) (p : Z) (t : tree) : Prop :=
  match t with
  | E => True
  | N c l a r => m !! a = Some (mk_node (ptr l) (ptr r) p c) /\ rep m a l /\ rep m a r
  end.

(** The pointer to the hole of [k] is [q]. *)
Definition linked (m : gmap Z node) (rt : Z) (k : list frame) (q : Z) : Prop :=
  match k with
  | [] => rt = q
  | F d c a u :: k => m !! a = Some (rec d q (ptr u) (top k) c)
  end.

Fixpoint repk (m : gmap Z node) (rt q : Z) (k : list frame) : Prop :=
  match k with
  | [] => rt = q
  | F d c a u :: k => m !! a = Some (rec d q (ptr u) (top k) c) /\ rep m a u /\ repk m rt a k
  end.

Lemma rep_sub m p d c t a u :
  rep m p (sub d c t a u) <->
  m !! a = Some (rec d (ptr t) (ptr u) p c) /\ rep m a t /\ rep m a u.
Proof. destruct d; simpl; tauto. Qed.

Lemma rep_plug m rt k t :
  rep m nil_store (plug k t) /\ rt = ptr (plug k t) <->
  rep m (top k) t /\ repk m rt (ptr t) k.
Proof.
  revert t. induction k as [|[d c a u] k IH]; intros t; simpl; [done|].
  rewrite IH, rep_sub, ptr_sub. tauto.
Qed.

Lemma rep_ext m m' p t :
  (forall x, x ∈ elems t -> m' !! x = m !! x) -> rep m p t -> rep m' p t.
Proof.
  revert p. induction t as [|c l IHl a r IHr]; intros p Hm; simpl; [done|].
  intros (Ha & Hl & Hr). split_and!.
  - rewrite Hm; [done|simpl; set_solver].
  - apply IHl; [|done]. intros x Hx. apply Hm. simpl. set_solver.
  - apply IHr; [|done]. intros x Hx. apply Hm. simpl. set_solver.
Qed.

Lemma repk_ext m m' rt q k :
  (forall x, x ∈ kelems k -> m' !! x = m !! x) -> repk m rt q k -> repk m' rt q k.
Proof.
  revert q. induction k as [|[d c a u] k IH]; intros q Hm; simpl; [done|].
  simpl in Hm. intros (Ha & Hu & Hk). split_and!.
  - rewrite Hm; [done|set_solver].
  - eapply rep_ext; [|done]. set_solver.
  - apply IH; [set_solver|done].
Qed.

Lemma repk_linked m rt q k : repk m rt q k -> linked m rt k q.
Proof. destruct k as [|[d c a u] k]; simpl; tauto. Qed.

(** The hole gets another root: the frames above it stay as they are. *)
Lemma repk_relink m m' rt rt' q q' k :
  NoDup (kelems k) ->
  (forall x, x ∈ kelems k -> x ∉ tops k -> m' !! x = m !! x) ->
  (k <> [] -> rt' = rt) ->
  repk m rt q k -> linked m' rt' k q' -> repk m' rt' q' k.
Proof.
  destruct k as [|[d c a u] k]; simpl; [done|].
  intros [Ha Hnd]%NoDup_cons Hm Hrt (_ & Hu & Hk) Hlink.
  assert (forall x, x ∈ elems u ++ kelems k -> m' !! x = m !! x) as Hm'.
  { intros x Hx. apply Hm; set_solver. }
  split_and!; [done|..].
  - eapply rep_ext; [|done]. set_solver.
  - rewrite Hrt by done. eapply repk_ext; [|done]. set_solver.
Qed.

(** [Repr Out np s t]: the tree of state [s] is [t]; the parent field of
    the sentinel is [np]; memory outside the tree is [Out]. *)
Record Repr (Out : Z -> option node) (np : Z) (s : tree_state) (t : tree) : Prop := {
  R_rep : rep (nodes s) nil_store t;
  R_root : root s = ptr t;
  R_nil : nodes s !! nil_store = Some (mk_node nil_store nil_store np BLACK);
  R_nodup : NoDup (elems t);
  R_ne : nil_store ∉ elems t;
  R_out : forall x, x ∉ elems t -> x <> nil_store -> nodes s !! x = Out x;
}.

(** A change below a context, with the link to it updated, is a change of
    the tree. *)
Lemma Repr_update Out Out' np np' s s' k t t' :
  Repr Out np s (plug k t) ->
  rep (nodes s') (top k) t' ->
  linked (nodes s') (root s') k (ptr t') ->
  (k <> [] -> root s' = root s) ->
  (forall x, x ∈ kelems k -> x ∉ tops k -> nodes s' !! x = nodes s !! x) ->
  nodes s' !! nil_store = Some (mk_node nil_store nil_store np' BLACK) ->
  NoDup (elems t' ++ kelems k) -> nil_store ∉ elems t' ->
  (forall x, x ∉ elems t' -> x ∉ kelems k -> x <> nil_store -> nodes s' !! x = Out' x) ->
  Repr Out' np' s' (plug k t').
Proof.
  intros [Hrep Hroot Hnil Hnd Hne Hout] Ht' Hlink Hrt Hk Hnil' Hnd' Hne' Hout'.
  destruct (proj1 (rep_plug _ (root s) k t) (conj Hrep Hroot)) as [Hrt1 Hrk].
  assert (nil_store ∉ kelems k) as Hnk by (rewrite elems_plug_perm in Hne; set_solver).
  destruct (proj2 (rep_plug (nodes s') (root s') k t')) as [H1 H2].
  { split; [done|]. eapply repk_relink; eauto. by apply NoDup_app in Hnd' as (_ & _ & ?). }
  constructor; try done.
  - by rewrite elems_plug_perm.
  - rewrite elems_plug_perm. set_solver.
  - intros x. rewrite elems_plug_perm. intros ??. apply Hout'; set_solver.
Qed.

Lemma Repr_inv Out np s k t :
  Repr Out np s (plug k t) ->
  rep (nodes s) (top k) t /\ linked (nodes s) (root s) k (ptr t) /\
  NoDup (elems t ++ kelems k) /\ nil_store ∉ elems t /\ nil_store ∉ kelems k.
Proof.
  intros [Hrep Hroot Hnil Hnd Hne Hout].
  destruct (proj1 (rep_plug _ (root s) k t) (conj Hrep Hroot)) as [Hrt1 Hrk].
  rewrite elems_plug_perm in Hnd, Hne. split_and!; auto using repk_linked; set_solver.
Qed.

(** ** Total correctness of operations

    [wp m s Q]: run from [s], [m] returns, with a result and a state that
    satisfy [Q]. *)

Definition wp {A} (m : st tree_state A) (s : tree_state) (Q : A -> tree_state -> Prop) : Prop :=
  match m s with Ret (a, s') => Q a s' | Stop _ => False end.

Lemma wp_bind {A B} (m : st tree_state A) (f : A -> st tree_state B) s Q :
  wp m s (fun a s' => wp (f a) s' Q) -> wp (m ≫= f) s Q.
Proof. unfold wp, mbind, st_bind. by destruct (m s) as [[a s']|]. Qed.

Lemma wp_mono {A} (m : st tree_state A) s (Q Q' : A -> tree_state -> Prop) :
  wp m s Q -> (forall a s', Q a s' -> Q' a s') -> wp m s Q'.
Proof. unfold wp. destruct (m s) as [[a s']|]; auto. Qed.

Lemma wp_ret {A} (a : A) s (Q : A -> tree_state -> Prop) : Q a s -> wp (mret a) s Q.
Proof. done. Qed.

Lemma wp_field {A} (f : node -> A) p s n (Q : A -> tree_state -> Prop) :
  nodes s !! p = Some n -> Q (f n) s -> wp (field f p) s Q.
Proof. unfold wp, field. by intros ->. Qed.

Lemma wp_write f p s n (Q : unit -> tree_state -> Prop) :
  nodes s !! p = Some n -> Q tt (mk_tree (<[p := f n]> (nodes s)) (root s)) ->
  wp (write p f) s Q.
Proof. unfold wp, write. by intros ->. Qed.

Lemma wp_get_root s (Q : Z -> tree_state -> Prop) : Q (root s) s -> wp get_root s Q.
Proof. done. Qed.

Lemma wp_set_root p s (Q : unit -> tree_state -> Prop) :
  Q tt (mk_tree (nodes s) p) -> wp (set_root p) s Q.
Proof. done. Qed.

Lemma wp_assert b s (Q : unit -> tree_state -> Prop) :
  b = true -> Q tt s -> wp (lift (assert b)) s Q.
Proof. by intros ->. Qed.

Lemma wp_fuel {A} (f : nat -> st tree_state A) s (Q : A -> tree_state -> Prop) :
  wp (f (fuel_of s)) s Q -> wp (with_fuel f) s Q.
Proof. done. Qed.

(** [wstep] applies the rule of the next statement; a read or a write of
    memory needs the content of the element, which is looked up among the
    hypotheses through the writes before it. *)
Ltac wlook :=
  first [eassumption | by simplify_map_eq | by rewrite ?lookup_insert_ne by congruence].
Ltac wstep :=
  lazymatch goal with
  | |- wp (mbind _ _) _ _ => apply wp_bind
  | |- wp (mret _) _ _ => apply wp_ret
  | |- wp (field _ _) _ _ => eapply wp_field; [wlook|]
  | |- wp (write _ _) _ _ => eapply wp_write; [wlook|]
  | |- wp (set_left _ _) _ _ => eapply wp_write; [wlook|]
  | |- wp (set_right _ _) _ _ => eapply wp_write; [wlook|]
  | |- wp (set_parent _ _) _ _ => eapply wp_write; [wlook|]
  | |- wp (set_color _ _) _ _ => eapply wp_write; [wlook|]
  | |- wp get_root _ _ => apply wp_get_root
  | |- wp (set_root _) _ _ => apply wp_set_root
  | |- wp (with_fuel _) _ _ => apply wp_fuel
  end; cbn [left right parent color nodes root with_left with_right with_parent with_color].

Lemma is_nil_true : is_nil nil_store = true.
Proof. done. Qed.
Lemma is_nil_false p : p <> nil_store -> is_nil p = false.
Proof. intros. by apply Z.eqb_neq. Qed.

Lemma is_nil_ptr p t : nil_store ∉ elems t -> p = ptr t -> is_nil p = bool_decide (t = E).
Proof.
  intros Hn ->. destruct t; simpl; [done|]. apply is_nil_false. set_solver.
Qed.

(** The link from above the hole of [k], as the code updates it. *)
Definition link (par node q : Z) : st tree_state unit :=
  if is_nil par then set_root q
  else
    pl ← field left par;
    if node =? pl then set_left par q else set_right par q.

Lemma wp_link k s t q (Q : unit -> tree_state -> Prop) :
  linked (nodes s) (root s) k (ptr t) ->
  NoDup (elems t ++ kelems k) -> nil_store ∉ elems t -> nil_store ∉ kelems k -> t <> E ->
  (forall s', linked (nodes s') (root s') k q ->
    (k <> [] -> root s' = root s) ->
    (forall x, x ∉ tops k -> nodes s' !! x = nodes s !! x) -> Q tt s') ->
  wp (link (top k) (ptr t) q) s Q.
Proof.
  intros Hl Hnd Ht Hk Hne HQ. unfold link. destruct k as [|[d c a u] k]; simpl in *.
  - apply wp_set_root, HQ; done.
  - rewrite is_nil_false by set_solver.
    assert (ptr t <> ptr u) as Htu.
    { destruct t as [|c1 l1 x1 r1]; [done|]. destruct u as [|c2 l2 x2 r2]; simpl in *.
      - set_solver.
      - intros ->. apply NoDup_app in Hnd as (_ & Hd & _). eapply (Hd x2); set_solver. }
    wstep. wstep.
    destruct d; simpl; [rewrite Z.eqb_refl|rewrite (proj2 (Z.eqb_neq _ _)) by done];
      wstep; apply HQ; simpl; auto; [by simplify_map_eq| |by simplify_map_eq|];
      intros x Hx; rewrite lookup_insert_ne; set_solver.
Qed.

(** A rotation also checks that an element without parent is the root. *)
Lemma wp_link_checked k s t q (Q : unit -> tree_state -> Prop) :
  linked (nodes s) (root s) k (ptr t) ->
  NoDup (elems t ++ kelems k) -> nil_store ∉ elems t -> nil_store ∉ kelems k -> t <> E ->
  (forall s', linked (nodes s') (root s') k q ->
    (k <> [] -> root s' = root s) ->
    (forall x, x ∉ tops k -> nodes s' !! x = nodes s !! x) -> Q tt s') ->
  wp (if is_nil (top k) then
        r ← get_root;
        lift (assert (r =? ptr t));;
        set_root q
      else
        pl ← field left (top k);
        if ptr t =? pl then set_left (top k) q else set_right (top k) q) s Q.
Proof.
  intros Hl Hnd Ht Hk Hne HQ. pose proof (wp_link k s t q Q Hl Hnd Ht Hk Hne HQ) as H.
  unfold link in H. destruct (is_nil (top k)) eqn:Ek; [|done].
  destruct k as [|[d c a u] k]; simpl in *.
  - wstep. wstep. rewrite Hl. wstep. apply wp_assert; [apply Z.eqb_refl|done].
  - rewrite is_nil_false in Ek by set_solver. done.
Qed.

Lemma linked_ext m m' rt k q :
  (k <> [] -> m' !! top k = m !! top k) -> linked m rt k q -> linked m' rt k q.
Proof. destruct k as [|[d c a u] k]; simpl; [done|]. intros ->; done. Qed.

(** Facts on the elements of distinct parts of a tree. *)
Ltac nodups :=
  repeat match goal with
  | H : NoDup (_ ++ _) |- _ => apply NoDup_app in H as (? & ? & ?)
  | H : NoDup (_ :: _) |- _ => apply NoDup_cons in H as [? ?]
  end.

(** Membership goals, with the facts on memory set aside. *)
Ltac msolve :=
  repeat match goal with
  | H : context [@lookup] |- _ => clear H
  | H : context [Repr] |- _ => clear H
  | H : context [rep] |- _ => clear H
  | H : context [linked] |- _ => clear H
  | H : context [repk] |- _ => clear H
  | H : _ ≡ₚ _ |- _ => clear H
  | H : _ <> [] |- _ => clear H
  end;
  try match goal with |- context [top ?k] => generalize dependent (top k); intros end;
  try (generalize dependent nil_store; intros); set_solver.

Lemma top_in k : k <> [] -> top k ∈ kelems k.
Proof. destruct k as [|[d c a u] k]; simpl; [done|set_solver]. Qed.

Lemma tops_in k x : x ∉ kelems k -> x ∉ tops k.
Proof. destruct k as [|[d c a u] k]; simpl; set_solver. Qed.

Lemma tops_ne k x : x ∉ tops k -> k <> [] -> x <> top k.
Proof. destruct k as [|[d c a u] k]; simpl; [done|set_solver]. Qed.

Lemma wp_reparent s u p p' (Q : unit -> tree_state -> Prop) :
  rep (nodes s) p u -> NoDup (elems u) -> nil_store ∉ elems u ->
  (forall s', rep (nodes s') p' u -> root s' = root s ->
    (forall x, x ∉ elems u -> nodes s' !! x = nodes s !! x) -> Q tt s') ->
  wp (cond (negb (is_nil (ptr u))) (set_parent (ptr u) p') (mret tt)) s Q.
Proof.
  intros Hu Hnd Hn HQ. destruct u as [|c l a r]; simpl in *; [by apply HQ|].
  rewrite is_nil_false by msolve. simpl. destruct Hu as (Ha & Hl & Hr). wstep.
  apply NoDup_app in Hnd as (_ & Hd & [Har Hnd]%NoDup_cons).
  apply HQ; simpl; [split_and!|done|].
  - by simplify_map_eq.
  - eapply rep_ext; [|done]. intros x Hx. rewrite lookup_insert_ne; [done|].
    intros ->. eapply Hd; [done|msolve].
  - eapply rep_ext; [|done]. intros x Hx. rewrite lookup_insert_ne; [done|]. by intros ->.
  - intros x Hx. rewrite lookup_insert_ne; [done|]. msolve.
Qed.

(** ** Rotation *)

Definition child (d : bool) : node -> Z := if d then left else right.
Definition with_child (d : bool) (v : Z) : node -> node :=
  if d then with_left v else with_right v.

(** The two rotations as one: [rotate true] is [leftrotate]. *)
Definition rotate (d : bool) (node : Z) : st tree_state unit :=
  up ← field (child (negb d)) node;
  par ← field parent node;
  mid ← field (child d) up;
  write node (with_child (negb d) mid);;
  mid ← field (child d) up;
  cond (negb (is_nil mid)) (set_parent mid node) (mret tt);;
  set_parent up par;;
  (if is_nil par then
     r ← get_root;
     lift (assert (r =? node));;
     set_root up
   else
     pl ← field left par;
     if node =? pl then set_left par up else set_right par up);;
  write up (with_child d node);;
  set_parent node up.

Lemma leftrotate_rotate : leftrotate = rotate true.
Proof. done. Qed.
Lemma rightrotate_rotate : rightrotate = rotate false.
Proof. done. Qed.

Lemma child_rec d q q' p c : child d (rec d q q' p c) = q.
Proof. by destruct d. Qed.
Lemma child_negb_rec d q q' p c : child (negb d) (rec d q q' p c) = q'.
Proof. by destruct d. Qed.
Lemma parent_rec d q q' p c : parent (rec d q q' p c) = p.
Proof. by destruct d. Qed.
Lemma color_rec d q q' p c : color (rec d q q' p c) = c.
Proof. by destruct d. Qed.
Lemma with_child_rec d q q' p c v : with_child d v (rec d q q' p c) = rec d v q' p c.
Proof. by destruct d. Qed.
Lemma with_child_negb_rec d q q' p c v : with_child (negb d) v (rec d q q' p c) = rec d q v p c.
Proof. by destruct d. Qed.
Lemma with_parent_rec d q q' p c v : with_parent v (rec d q q' p c) = rec d q q' v c.
Proof. by destruct d. Qed.
Lemma with_color_rec d q q' p c v : with_color v (rec d q q' p c) = rec d q q' p v.
Proof. by destruct d. Qed.
#[export] Hint Rewrite child_rec child_negb_rec parent_rec color_rec with_child_rec
  with_child_negb_rec with_parent_rec with_color_rec ptr_sub red_sub Z.eqb_refl : rbrec.

(** What a rotation writes. *)
Lemma wp_rotate_raw d k c c' t a u b v s (Q : unit -> tree_state -> Prop) :
  nodes s !! a = Some (rec d t b (top k) c) ->
  nodes s !! b = Some (rec d (ptr u) v a c') ->
  rep (nodes s) b u ->
  linked (nodes s) (root s) k a ->
  NoDup (a :: b :: elems u ++ kelems k) -> nil_store ∉ a :: b :: elems u ++ kelems k ->
  (forall s', nodes s' !! a = Some (rec d t (ptr u) b c) ->
    nodes s' !! b = Some (rec d a v (top k) c') ->
    rep (nodes s') a u ->
    linked (nodes s') (root s') k b ->
    (k <> [] -> root s' = root s) ->
    (forall x, x ∉ a :: b :: elems u -> x ∉ tops k -> nodes s' !! x = nodes s !! x) ->
    Q tt s') ->
  wp (rotate d a) s Q.
Proof.
  intros Ha Hb Hu Hlink Hnd Hne HQ. nodups.
  assert (a <> b) as Hab by msolve.
  assert (a ∉ tops k /\ b ∉ tops k) as [Hak Hbk] by (split; apply tops_in; msolve).
  unfold rotate. wstep. wstep. autorewrite with rbrec. wstep. wstep. autorewrite with rbrec.
  wstep. wstep. autorewrite with rbrec. wstep. wstep. autorewrite with rbrec.
  wstep. wstep. autorewrite with rbrec. wstep.
  apply (wp_reparent _ u b a); simpl; [|done|msolve|].
  { eapply rep_ext; [|exact Hu]. intros x Hx. apply lookup_insert_ne. msolve. }
  intros s2 Hu2 Hr2 Hm2. simpl in Hr2, Hm2.
  assert (nodes s2 !! b = Some (rec d (ptr u) v a c')) as Hb2.
  { rewrite Hm2 by msolve. by rewrite lookup_insert_ne. }
  wstep. wstep. autorewrite with rbrec. wstep.
  apply (wp_link_checked k _ (N c E a E)); try done; simpl.
  { rewrite Hr2. eapply linked_ext; [|done]. intros Hk. pose proof (top_in k Hk).
    rewrite lookup_insert_ne by (by apply tops_ne). rewrite Hm2, lookup_insert_ne by msolve. done. }
  { apply NoDup_cons. msolve. } { msolve. } { msolve. }
  intros s4 Hlk4 Hr4 Hm4. simpl in Hr4, Hm4.
  assert (nodes s4 !! b = Some (rec d (ptr u) v (top k) c')) as Hb4
    by (rewrite Hm4 by done; by simplify_map_eq).
  assert (nodes s4 !! a = Some (rec d t (ptr u) (top k) c)) as Ha4.
  { rewrite Hm4, lookup_insert_ne, Hm2 by msolve. by simplify_map_eq. }
  wstep. wstep. autorewrite with rbrec. wstep. autorewrite with rbrec. apply HQ; simpl.
  - by simplify_map_eq.
  - by simplify_map_eq.
  - eapply rep_ext; [|exact Hu2]. intros x Hx. rewrite !lookup_insert_ne by msolve.
    rewrite Hm4 by (apply tops_in; msolve). apply lookup_insert_ne. msolve.
  - eapply linked_ext; [|done]. intros Hk. by rewrite !lookup_insert_ne by (by apply tops_ne).
  - intros Hk. rewrite <- Hr2. auto.
  - intros x Hx Hxk. rewrite !lookup_insert_ne by msolve. rewrite Hm4 by done.
    rewrite lookup_insert_ne, Hm2, lookup_insert_ne by msolve. done.
Qed.

Lemma wp_rotate d k c c' t a u b v s Out np (Q : unit -> tree_state -> Prop) :
  Repr Out np s (plug k (sub d c t a (sub d c' u b v))) ->
  (forall s', Repr Out np s' (plug k (sub d c' (sub d c t a u) b v)) -> Q tt s') ->
  wp (rotate d a) s Q.
Proof.
  intros HR HQ. destruct (Repr_inv _ _ _ _ _ HR) as (Hrep & Hlink & Hnd & Hne & Hnk).
  apply rep_sub in Hrep as (Ha & Ht & Hu). rewrite ptr_sub in Ha, Hlink.
  apply rep_sub in Hu as (Hb & Hu & Hv).
  assert (forall T, T = sub d c t a (sub d c' u b v) \/ T = sub d c' (sub d c t a u) b v ->
    elems T ≡ₚ a :: b :: elems t ++ elems u ++ elems v) as Hp.
  { intros T [-> | ->]; rewrite !elems_sub; destruct d; solve_Permutation. }
  rewrite Hp in Hnd, Hne by auto. nodups.
  apply (wp_rotate_raw d k c c' (ptr t) a u b (ptr v)); auto.
  { rewrite !NoDup_cons, NoDup_app. msolve. }
  { msolve. }
  intros s' Ha' Hb' Hu' Hl' Hr' Hm'. apply HQ.
  eapply Repr_update; [exact HR|..]; autorewrite with rbrec; auto.
  - rewrite !rep_sub. autorewrite with rbrec. split_and!; auto;
      (eapply rep_ext; [|eassumption]); intros x Hx; apply Hm'; try (apply tops_in); msolve.
  - intros x Hx Hxk. apply Hm'; msolve.
  - rewrite Hm'; [apply HR|msolve|by apply tops_in].
  - apply Repr_inv in HR as (_ & _ & Hnd' & _). rewrite Hp in Hnd' |- * by auto. done.
  - rewrite Hp by auto. done.
  - intros x. rewrite Hp by auto. intros Hx Hxk Hxn.
    rewrite Hm' by (try apply tops_in; msolve). apply HR; [|done].
    rewrite elems_plug_perm, Hp by auto. msolve.
Qed.

(** ** Reading and recolouring *)

Lemma Repr_elem Out np s k d c t a u :
  Repr Out np s (plug k (sub d c t a u)) ->
  nodes s !! a = Some (rec d (ptr t) (ptr u) (top k) c).
Proof. intros HR. apply Repr_inv in HR as (Hrep & _). by apply rep_sub in Hrep as (? & _). Qed.

(** The element or sentinel at the hole. *)
Lemma Repr_ptr Out np s k t :
  Repr Out np s (plug k t) ->
  exists n, nodes s !! ptr t = Some n /\ color n = red t /\
    parent n = if bool_decide (t = E) then np else top k.
Proof.
  intros HR. destruct t as [|c l a r]; simpl.
  - eexists. split; [apply HR|done].
  - eexists. split; [apply (Repr_elem Out np s k true c l a r), HR|done].
Qed.

Lemma Repr_ne Out np s k d c t a u :
  Repr Out np s (plug k (sub d c t a u)) -> a <> nil_store.
Proof.
  intros HR. apply Repr_inv in HR as (_ & _ & _ & Hn & _). rewrite elems_sub in Hn.
  destruct d; msolve.
Qed.

Lemma wp_set_color k d c c' t a u s Out np (Q : unit -> tree_state -> Prop) :
  Repr Out np s (plug k (sub d c t a u)) ->
  (forall s', Repr Out np s' (plug k (sub d c' t a u)) -> root s' = root s -> Q tt s') ->
  wp (set_color a c') s Q.
Proof.
  intros HR HQ. pose proof (Repr_elem _ _ _ _ _ _ _ _ _ HR) as Ha.
  pose proof (Repr_inv _ _ _ _ _ HR) as (Hrep & Hlink & Hnd & Hne & Hnk).
  apply rep_sub in Hrep as (_ & Ht & Hu). wstep. autorewrite with rbrec.
  assert (forall c, elems (sub d c t a u) ≡ₚ a :: elems t ++ elems u) as Hp.
  { intros ?. rewrite elems_sub. destruct d; solve_Permutation. }
  assert (forall x, x <> a -> <[a := rec d (ptr t) (ptr u) (top k) c']> (nodes s) !! x
    = nodes s !! x) as Hm by (intros; by apply lookup_insert_ne).
  rewrite Hp in Hnd, Hne. pose proof Hnd as Hnd0. nodups. apply HQ; [|done].
  eapply Repr_update; [exact HR|..]; autorewrite with rbrec in *; simpl; auto.
  - rewrite rep_sub. split; [by simplify_map_eq|]. split; (eapply rep_ext; [|eassumption]);
      intros x Hx; apply Hm; msolve.
  - eapply linked_ext; [|exact Hlink]. intros Hk. pose proof (top_in k Hk). apply Hm. msolve.
  - intros x Hx _. apply Hm. msolve.
  - rewrite Hm by msolve. apply HR.
  - rewrite Hp. apply Repr_inv in HR as (_ & _ & Hnd' & _). by rewrite Hp in Hnd'.
  - by rewrite Hp.
  - intros x. rewrite Hp. intros Hx ??. rewrite Hm by msolve. apply HR; [|done].
    rewrite elems_plug_perm, Hp. msolve.
Qed.

(** Colouring the sentinel black changes nothing. *)
Lemma wp_set_color_black s n p (Q : unit -> tree_state -> Prop) :
  nodes s !! p = Some n -> color n = BLACK -> Q tt s -> wp (set_color p BLACK) s Q.
Proof.
  intros Hp Hc HQ. wstep. destruct s as [m r]. simpl in *.
  replace (with_color BLACK n) with n by (destruct n; simpl in *; by subst).
  by rewrite insert_id.
Qed.

(** ** Linking a new element, unlinking and replacing one *)

Lemma wp_attach d c a u k e p s Out np (Q : unit -> tree_state -> Prop) :
  Repr Out np s (plug (F d c a u :: k) E) ->
  e ∉ elems (plug (F d c a u :: k) E) -> e <> nil_store ->
  nodes s !! e = Some (mk_node nil_store nil_store p RED) ->
  (forall s', Repr Out np s' (plug (F d c a u :: k) (N RED E e E)) -> root s' = root s -> Q tt s') ->
  wp (write a (with_child d e);; set_parent e a) s Q.
Proof.
  intros HR He Hen Hs HQ.
  pose proof (Repr_inv _ _ _ _ _ HR) as (_ & Hlink & Hnd & _ & Hnk).
  rewrite elems_plug_perm in He. simpl in Hnd, Hnk, He, Hlink.
  assert (e <> a) by msolve.
  wstep. wstep. autorewrite with rbrec. wstep. apply HQ; [|done].
  eapply Repr_update; [exact HR|..]; simpl; auto.
  - by simplify_map_eq.
  - by simplify_map_eq.
  - intros x Hx Hxt. by rewrite !lookup_insert_ne by msolve.
  - rewrite !lookup_insert_ne by msolve. apply HR.
  - by apply NoDup_cons.
  - msolve.
  - intros x Hx Hxt Hxn. rewrite !lookup_insert_ne by msolve.
    apply HR; [|done]. rewrite elems_plug_perm. msolve.
Qed.

Lemma Repr_single e s Out np p :
  Repr Out np s E -> e <> nil_store ->
  nodes s !! e = Some (mk_node nil_store nil_store nil_store p) ->
  Repr Out np (mk_tree (nodes s) e) (N p E e E).
Proof.
  intros [H1 H2 H3 H4 H5 H6] He Hs. constructor; simpl; auto.
  - apply NoDup_singleton.
  - msolve.
  - intros x Hx. apply H6. msolve.
Qed.

(** Memory outside the tree when element [a] leaves it. *)
Definition override (a : Z) (n : node) (Out : Z -> option node) : Z -> option node :=
  fun x => if decide (x = a) then Some n else Out x.

Lemma override_ne a n Out x : x <> a -> override a n Out x = Out x.
Proof. intros. unfold override. by rewrite decide_False. Qed.
Lemma override_eq a n Out : override a n Out a = Some n.
Proof. unfold override. by rewrite decide_True. Qed.

(** The parent of a subtree is set, also when the subtree is the sentinel. *)
Lemma wp_set_parent_ptr s t p p' np (Q : unit -> tree_state -> Prop) :
  rep (nodes s) p t -> NoDup (elems t) -> nil_store ∉ elems t ->
  nodes s !! nil_store = Some (mk_node nil_store nil_store np BLACK) ->
  (forall s', rep (nodes s') p' t -> root s' = root s ->
    (forall x, x ∉ elems t -> x <> nil_store -> nodes s' !! x = nodes s !! x) ->
    nodes s' !! nil_store =
      Some (mk_node nil_store nil_store (if bool_decide (t = E) then p' else np) BLACK) ->
    Q tt s') ->
  wp (set_parent (ptr t) p') s Q.
Proof.
  intros Ht Hnd Hne Hnil HQ. destruct t as [|c l a r].
  - simpl. wstep. apply HQ; simpl; [done|done|intros; by apply lookup_insert_ne|by simplify_map_eq].
  - pose proof (wp_reparent s (N c l a r) p p' Q Ht Hnd Hne) as H.
    assert (is_nil (ptr (N c l a r)) = false) as En by (apply is_nil_false; msolve).
    rewrite En in H. apply H. intros s' H1 H2 H3. apply HQ; auto. rewrite H3; done.
Qed.

(** [t] takes the place of its parent [a], whose other child is empty. *)
Lemma wp_unlink d c t a k s Out np (Q : unit -> tree_state -> Prop) :
  Repr Out np s (plug k (sub d c t a E)) ->
  (forall s' n, Repr (override a n Out) (if bool_decide (t = E) then top k else np) s' (plug k t) ->
    nodes s' !! a = Some n -> color n = c -> Q tt s') ->
  wp (set_parent (ptr t) (top k);; link (top k) a (ptr t)) s Q.
Proof.
  intros HR HQ. pose proof (Repr_elem _ _ _ _ _ _ _ _ _ HR) as Ha.
  pose proof (Repr_inv _ _ _ _ _ HR) as (Hrep & Hlink & Hnd & Hne & Hnk).
  assert (elems (sub d c t a E) ≡ₚ a :: elems t) as Hp.
  { rewrite elems_sub. destruct d; solve_Permutation. }
  rewrite Hp in Hnd, Hne. rewrite ptr_sub in Hlink. apply rep_sub in Hrep as (_ & Ht & _).
  simpl in Hnd. nodups. wstep.
  eapply wp_set_parent_ptr; [exact Ht|done|msolve|apply HR|].
  intros s1 Ht1 Hr1 Hm1 Hn1.
  apply (wp_link k s1 (N c E a E) (ptr t)); try done.
  - rewrite Hr1. eapply linked_ext; [|exact Hlink]. intros Hk. pose proof (top_in k Hk).
    apply Hm1; msolve.
  - apply NoDup_cons. msolve.
  - msolve.
  - intros s2 Hl2 Hr2 Hm2. rewrite Hr1 in Hr2.
    apply (HQ _ (rec d (ptr t) nil_store (top k) c)).
    + eapply Repr_update; [exact HR|..]; auto.
      * eapply rep_ext; [|exact Ht1]. intros x Hx. apply Hm2. apply tops_in. msolve.
      * intros x Hx Hxt. rewrite Hm2, Hm1 by msolve. done.
      * by rewrite Hm2 by (by apply tops_in).
      * apply NoDup_app. msolve.
      * msolve.
      * intros x Hx Hxk Hxn. rewrite Hm2 by (by apply tops_in). rewrite Hm1 by done.
        destruct (decide (x = a)) as [-> |]; [by rewrite override_eq|rewrite override_ne by done].
        apply HR; [|done]. rewrite elems_plug_perm, Hp. msolve.
    + rewrite Hm2, Hm1 by (try apply tops_in; msolve). done.
    + apply color_rec.
Qed.

Lemma wp_replace_link k s a b nb c0 (Q : unit -> tree_state -> Prop) :
  linked (nodes s) (root s) k a ->
  nodes s !! b = Some nb -> parent nb = top k ->
  NoDup (a :: b :: kelems k) -> nil_store ∉ a :: b :: kelems k -> c0 = a ->
  (forall s', (k <> [] -> linked (nodes s') (root s') k b) -> root s' = root s ->
    (forall x, x ∉ tops k -> nodes s' !! x = nodes s !! x) -> Q tt s') ->
  wp (cond (negb (is_nil (top k)))
    (l ← field left (top k);
     cond (l =? c0) (bp ← field parent b; set_left bp b) (mret tt);;
     r ← field right (top k);
     cond (r =? c0) (bp ← field parent b; set_right bp b) (mret tt))
    (mret tt)) s Q.
Proof.
  intros Hl Hb Hp Hnd Hne -> HQ. destruct k as [|[d c p u] k]; [by apply HQ|].
  simpl in *. nodups. rewrite is_nil_false by msolve. simpl.
  assert (b <> p /\ a <> b) as [Hbp Hab] by msolve.
  assert (ptr u <> a) as Hua by (destruct (ptr_elem u); msolve).
  assert ((ptr u =? a) = false) as Eu by (by apply Z.eqb_neq).
  assert ((b =? a) = false) as Eb by (apply Z.eqb_neq; done).
  wstep. wstep. destruct d; simpl; rewrite ?Z.eqb_refl, ?Eu; simpl.
  - wstep. wstep. wstep. rewrite Hp. wstep. wstep. wstep.
    rewrite Eu. simpl. apply wp_ret, HQ; simpl; [intros _; by simplify_map_eq|done|].
    intros x Hx. apply lookup_insert_ne. msolve.
  - wstep. wstep. wstep. wstep. rewrite Z.eqb_refl. simpl. wstep. wstep. rewrite Hp. wstep.
    apply HQ; simpl; [intros _; by simplify_map_eq|done|].
    intros x Hx. apply lookup_insert_ne. msolve.
Qed.

Lemma wp_replace_child (f : node -> Z) s t a b nb (Q : unit -> tree_state -> Prop) :
  rep (nodes s) a t -> NoDup (elems t) -> nil_store ∉ elems t ->
  nodes s !! b = Some nb -> f nb = ptr t -> b ∉ elems t ->
  (forall s', rep (nodes s') b t -> root s' = root s ->
    (forall x, x ∉ elems t -> nodes s' !! x = nodes s !! x) -> Q tt s') ->
  wp (cond (negb (is_nil (ptr t)))
    (p ← field parent (ptr t);
     lift (assert (p =? a));;
     bl ← field f b;
     set_parent bl b)
    (mret tt)) s Q.
Proof.
  intros Ht Hnd Hne Hb Hf Hbt HQ. pose proof (wp_reparent s t a b Q Ht Hnd Hne HQ) as H.
  destruct (negb (is_nil (ptr t))) eqn:En; simpl in *; [|done].
  destruct t as [|c l x r]; simpl in *; [done|]. destruct Ht as (Hx & _).
  wstep. wstep. wstep. apply wp_assert; [apply Z.eqb_refl|]. wstep. wstep. by rewrite Hf.
Qed.

Lemma root_in Out np s k t : Repr Out np s (plug k t) -> k <> [] -> root s ∈ kelems k.
Proof.
  intros HR Hk. rewrite (R_root _ _ _ _ HR). clear HR.
  revert t. induction k as [|[d c a u] k IH]; intros t; [done|]. simpl.
  destruct k as [|f k]; [simpl; rewrite ptr_sub; set_solver|].
  assert (ptr (plug (f :: k) (sub d c t a u)) ∈ kelems (f :: k)) by (by apply IH). set_solver.
Qed.

Lemma wp_replace_raw k c l a r b s nb (Q : unit -> tree_state -> Prop) :
  nodes s !! a = Some (mk_node (ptr l) (ptr r) (top k) c) ->
  rep (nodes s) a l -> rep (nodes s) a r -> linked (nodes s) (root s) k a ->
  nodes s !! b = Some nb -> (k <> [] -> root s <> a) ->
  NoDup (a :: b :: elems l ++ elems r ++ kelems k) ->
  nil_store ∉ a :: b :: elems l ++ elems r ++ kelems k ->
  (forall s', rep (nodes s') (top k) (N c l b r) -> linked (nodes s') (root s') k b ->
    (k <> [] -> root s' = root s) ->
    (forall x, x ∉ b :: elems l ++ elems r -> x ∉ tops k -> nodes s' !! x = nodes s !! x) ->
    Q tt s') ->
  wp (rbtree_elem_replace b a) s Q.
Proof.
  intros Ha Hl Hr Hlink Hnb Hroot Hnd Hne HQ. nodups. assert (a <> b) as Hab by msolve.
  unfold rbtree_elem_replace. do 16 wstep. rewrite !insert_insert_eq.
  change (with_color c _) with (mk_node (ptr l) (ptr r) (top k) c). wstep.
  eapply (wp_replace_link k _ a b); simpl; [|by simplify_map_eq|done|..]; try done.
  { eapply linked_ext; [|exact Hlink]. intros Hk. pose proof (top_in k Hk).
    apply lookup_insert_ne. msolve. }
  { rewrite !NoDup_cons. msolve. } { msolve. }
  intros s1 Hlk1 Hr1 Hm1. simpl in *.
  assert (nodes s1 !! b = Some (mk_node (ptr l) (ptr r) (top k) c)) as Hb1.
  { rewrite Hm1 by (apply tops_in; msolve). by simplify_map_eq. }
  assert (nodes s1 !! a = Some (mk_node (ptr l) (ptr r) (top k) c)) as Ha1.
  { rewrite Hm1 by (apply tops_in; msolve). by simplify_map_eq. }
  wstep. wstep. wstep. apply (wp_replace_child left _ l a b (mk_node (ptr l) (ptr r) (top k) c)); try done.
  { eapply rep_ext; [|exact Hl]. intros x Hx. rewrite Hm1 by (apply tops_in; msolve).
    apply lookup_insert_ne. msolve. }
  { msolve. } { msolve. }
  intros s2 Hl2 Hr2 Hm2.
  assert (nodes s2 !! a = nodes s1 !! a /\ nodes s2 !! b = nodes s1 !! b) as [Ha2 Hb2]
    by (split; apply Hm2; msolve).
  rewrite Ha1 in Ha2. rewrite Hb1 in Hb2.
  wstep. wstep. wstep.
  apply (wp_replace_child right _ r a b (mk_node (ptr l) (ptr r) (top k) c)); try done.
  { eapply rep_ext; [|exact Hr]. intros x Hx. rewrite Hm2 by msolve.
    rewrite Hm1 by (apply tops_in; msolve). apply lookup_insert_ne. msolve. }
  { msolve. } { msolve. }
  intros s3 Hl3 Hr3 Hm3. wstep. wstep. rewrite Hr3, Hr2, Hr1.
  assert (rep (nodes s3) (top k) (N c l b r)) as Hrep3.
  { simpl. rewrite Hm3 by msolve. split_and!; [done| |done].
    eapply rep_ext; [|exact Hl2]. intros x Hx. apply Hm3. msolve. }
  assert (forall x, x ∉ b :: elems l ++ elems r -> x ∉ tops k ->
    nodes s3 !! x = nodes s !! x) as Hm.
  { intros x Hx Hxk. rewrite Hm3, Hm2, Hm1 by msolve. apply lookup_insert_ne. msolve. }
  destruct k as [|f k].
  - simpl in Hlink. rewrite Hlink, Z.eqb_refl. simpl. apply wp_set_root, HQ; done.
  - rewrite (proj2 (Z.eqb_neq _ _)) by auto. apply wp_ret, HQ; auto.
    + eapply linked_ext; [|rewrite Hr3, Hr2; by apply Hlk1]. intros Hk.
      pose proof (top_in _ Hk). rewrite Hm3, Hm2; [done|msolve..].
    + intros _. congruence.
Qed.

Lemma wp_replace k c l a r b s Out np nb (Q : unit -> tree_state -> Prop) :
  Repr Out np s (plug k (N c l a r)) ->
  b ∉ elems (plug k (N c l a r)) -> b <> nil_store -> Out b = Some nb ->
  (forall s' n, Repr (override a n Out) np s' (plug k (N c l b r)) -> Q tt s') ->
  wp (rbtree_elem_replace b a) s Q.
Proof.
  intros HR Hb Hbn Hnb HQ. rewrite <- (R_out _ _ _ _ HR) in Hnb by done.
  pose proof (Repr_elem Out np s k true c l a r HR) as Ha.
  pose proof (Repr_inv _ _ _ _ _ HR) as ((_ & Hl & Hr) & Hlink & Hnd & Hne & Hnk).
  rewrite elems_plug_perm in Hb. simpl in *.
  assert (elems l ++ a :: elems r ≡ₚ a :: elems l ++ elems r) as Hp by solve_Permutation.
  assert (elems l ++ b :: elems r ≡ₚ b :: elems l ++ elems r) as Hp' by solve_Permutation.
  rewrite Hp in Hb, Hnd, Hne. simpl in Hnd. pose proof Hnd as Hnd'. nodups.
  apply (wp_replace_raw k c l a r b s nb); auto.
  { intros Hk. pose proof (root_in _ _ _ _ _ HR Hk). msolve. }
  { rewrite !NoDup_cons, !NoDup_app. msolve. } { msolve. }
  intros s' Hrep Hlk Hrt Hm.
  apply (HQ _ (mk_node (ptr l) (ptr r) (top k) c)).
  eapply Repr_update; [exact HR|..]; auto.
  - intros x Hx Hxt. apply Hm; msolve.
  - rewrite Hm; [apply HR|msolve|apply tops_in; done].
  - simpl. rewrite Hp'. simpl. rewrite !NoDup_cons, !NoDup_app. msolve.
  - simpl. msolve.
  - simpl. intros x Hx Hxk Hxn. rewrite Hm by (try apply tops_in; msolve).
    destruct (decide (x = a)) as [-> |]; [by rewrite override_eq|rewrite override_ne by done].
    apply HR; [|done]. rewrite elems_plug_perm. simpl. msolve.
Qed.

(** Writes to an element outside the tree. *)
Lemma Repr_insert_out a n s Out np t :
  Repr Out np s t -> a ∉ elems t -> a <> nil_store ->
  Repr (override a n Out) np (mk_tree (<[a := n]> (nodes s)) (root s)) t.
Proof.
  intros [H1 H2 H3 H4 H5 H6] Ha Hn. constructor; simpl; auto.
  - eapply rep_ext; [|done]. intros x Hx. apply lookup_insert_ne. set_solver.
  - by rewrite lookup_insert_ne.
  - intros x Hx Hxn. destruct (decide (x = a)) as [-> |].
    + rewrite override_eq. by simplify_map_eq.
    + rewrite override_ne, lookup_insert_ne by done. by apply H6.
Qed.

Lemma rep_dom m p t x : rep m p t -> x ∈ elems t -> is_Some (m !! x).
Proof.
  revert p. induction t as [|c l IHl a r IHr]; intros p; simpl; [set_solver|].
  intros (Ha & Hl & Hr). rewrite elem_of_app, elem_of_cons. intros [Hx|[-> |Hx]]; eauto.
Qed.

(** There is fuel for every loop: memory has room for the elements and the
    sentinel. *)
Lemma Repr_size Out np s t : Repr Out np s t -> (length (elems t) < size (nodes s))%nat.
Proof.
  intros [Hrep _ Hnil Hnd Hne _]. rewrite <- (size_dom (D := gset Z)).
  assert (NoDup (nil_store :: elems t)) as Hnd' by (by apply NoDup_cons).
  apply (size_list_to_set (C := gset Z)) in Hnd'. simpl in Hnd'.
  enough (size ({[nil_store]} ∪ list_to_set (elems t) : gset Z) <= size (dom (nodes s)))%nat by lia.
  apply subseteq_size. intros x. rewrite elem_of_union, elem_of_singleton, elem_of_list_to_set.
  intros [-> |Hx]; apply elem_of_dom; [by eexists|]. by eapply rep_dom.
Qed.

Lemma plug_depth k t : (length k <= length (elems (plug k t)))%nat.
Proof.
  rewrite elems_plug_perm, length_app. induction k as [|[d c a u] k IH]; simpl; [lia|].
  rewrite length_app. lia.
Qed.
