(* ===== verification/RbtreeBalance.v ===== *)
(** * Balance of red-black trees

    The colour invariant of the trees of [lib/rbtree.c], and what the loops
    of [rb_insert] and [rb_delete_fixup] do: they terminate, keep the
    elements in order and restore the invariant. *)

From Stdlib Require Import ZArith Lia Bool.
From stdpp Require Import base gmap list.
From S2P Require Import Prelude Rbtree RbtreeMem.

(** ** The invariant *)

(** [rb n t]: no red element has a red child, and [n] black elements are on
    every path to a leaf. *)
Fixpoint rb (n : nat) (t : tree) : Prop :=
  match t with
  | E => n = O
  | N true l _ r => red l = BLACK /\ red r = BLACK /\ rb n l /\ rb n r
  | N false l _ r => match n with O => False | S n => rb n l /\ rb n r end
  end.

(** A subtree with a root of colour [c] may stand at the hole of [k]. *)
Definition fits (k : list frame) (c : bool) : Prop :=
  match k with [] => c = BLACK | F _ kc _ _ :: _ => kc && c = BLACK end.

(** [rbk n k]: with a subtree of black height [n] at its hole, [k] is part
    of a well-formed tree. *)
Fixpoint rbk (n : nat) (k : list frame) : Prop :=
  match k with
  | [] => True
  | F _ c _ u :: k =>
    rb n u /\ c && red u = BLACK /\ fits k c /\ rbk (if c then n else S n) k
  end.

Definition balanced (t : tree) : Prop := red t = BLACK /\ exists n, rb n t.

Lemma rb_sub n d c t a u :
  rb n (sub d c t a u) <->
  if c then red t = BLACK /\ red u = BLACK /\ rb n t /\ rb n u
  else exists n', n = S n' /\ rb n' t /\ rb n' u.
Proof.
  destruct d, c, n; simpl; naive_solver.
Qed.

Lemma balanced_plug k t :
  balanced (plug k t) <-> fits k (red t) /\ exists n, rb n t /\ rbk n k.
Proof.
  revert t. induction k as [|[d c a u] k IH]; intros t; simpl; [unfold balanced; naive_solver|].
  rewrite IH, red_sub. setoid_rewrite rb_sub. destruct c; simpl; split.
  - intros (Hf & n & (H1 & H2 & H3 & H4) & Hk). eauto 10.
  - intros (H1 & n & H3 & H4 & H2 & Hf & Hk). eauto 10.
  - intros (Hf & n & (n' & -> & Ht & Hu) & Hk). split; [done|]. eauto 6.
  - intros (Hf & n & Ht & Hu & _ & Hfk & Hk). split; [done|]. exists (S n). eauto 6.
Qed.

Definition blacken (t : tree) : tree := match t with E => E | N _ l a r => N BLACK l a r end.

Lemma blacken_sub d c t a u : blacken (sub d c t a u) = sub d BLACK t a u.
Proof. by destruct d. Qed.

Lemma blacken_black t : red t = BLACK -> blacken t = t.
Proof. destruct t; simpl; [done|]. by intros ->. Qed.

Lemma elems_blacken t : elems (blacken t) = elems t.
Proof. by destruct t. Qed.

Lemma ptr_blacken t : ptr (blacken t) = ptr t.
Proof. by destruct t. Qed.

Lemma rb_blacken n t : rb n t -> exists n', rb n' (blacken t).
Proof.
  destruct t as [|[] l a r]; simpl; eauto. intros (_ & _ & ? & ?). by exists (S n).
Qed.

Lemma balanced_blacken n t : rb n t -> balanced (blacken t).
Proof. intros H. split; [by destruct t|]. by eapply rb_blacken. Qed.

Lemma fits_black k : fits k BLACK.
Proof. destruct k as [|[d c a u] k]; simpl; [done|apply andb_false_r]. Qed.

#[export] Hint Resolve fits_black : rb.

(** Equations between in-order sequences. *)
Ltac elems_eq :=
  rewrite ?elems_plug, ?elems_sub; simpl;
  repeat (progress (rewrite <- ?(assoc_L (++)); simpl)); reflexivity.

(** ** Insertion *)

(** One iteration of [rb_insert] below a red parent that is the child of
    its parent on side [d]. *)
Definition insert_recolor (loop : Z -> st tree_state unit) (par uncle : Z) : st tree_state unit :=
  set_color par BLACK;;
  set_color uncle BLACK;;
  gp ← field parent par;
  set_color gp RED;;
  node ← field parent par;
  loop node.
Definition insert_rotate (d : bool) (loop : Z -> st tree_state unit) (node par : Z) :
    st tree_state unit :=
  set_color par BLACK;;
  gp ← field parent par;
  set_color gp RED;;
  gp ← field parent par;
  rotate (negb d) gp;;
  loop node.
Definition insert_case (d : bool) (loop : Z -> st tree_state unit) (node par gp : Z) :
    st tree_state unit :=
  uncle ← field (child (negb d)) gp;
  uc ← field color uncle;
  if negb (is_nil uncle) && uc then insert_recolor loop par uncle
  else
    pr ← field (child (negb d)) par;
    '(node, par) ← (if node =? pr then
        rotate d par;;
        p ← field parent par;
        mret (par, p)
      else mret (node, par));
    insert_rotate d loop node par.

Lemma rb_insert_loop_S fuel root node :
  rb_insert_loop (S fuel) root node =
    if node =? root then mret tt else
    par ← field parent node;
    pc ← field color par;
    if negb pc then mret tt else
    gp ← field parent par;
    gl ← field left gp;
    if par =? gl then insert_case true (rb_insert_loop fuel root) node par gp
    else insert_case false (rb_insert_loop fuel root) node par gp.
Proof. reflexivity. Qed.

(** The children of an element differ, unless both are the sentinel. *)
Lemma Repr_children_ne Out np s k d c t a u :
  Repr Out np s (plug k (sub d c t a u)) -> t <> E -> ptr t <> ptr u.
Proof.
  intros HR Ht. apply Repr_inv in HR as (_ & _ & Hnd & Hne & _).
  apply NoDup_app in Hnd as (Hnd & _ & _). rewrite elems_sub in Hnd, Hne.
  assert (ptr t ∈ elems t) as Hin by (destruct t; simpl; [done|set_solver]).
  intros Heq. destruct (ptr_elem u) as [Hu|Hu].
  - rewrite <- Heq in Hu. apply Hne. rewrite <- Hu. destruct d; set_solver.
  - rewrite <- Heq in Hu. destruct d; apply NoDup_app in Hnd as (_ & Hd & _);
      (apply (Hd (ptr t)); [done|]); set_solver.
Qed.

Lemma Repr_root_ne Out np s k t :
  Repr Out np s (plug k t) -> k <> [] -> t <> E -> ptr t <> root s.
Proof.
  intros HR Hk Ht Heq. pose proof (root_in _ _ _ _ _ HR Hk) as Hin.
  apply Repr_inv in HR as (_ & _ & Hnd & _). apply NoDup_app in Hnd as (_ & Hd & _).
  apply (Hd (root s)); [|done]. rewrite <- Heq. destruct t; simpl; [done|set_solver].
Qed.

(** The loop stops below a black parent. *)
Lemma insert_loop_exit fuel rt d p u k t s Out np (Q : unit -> tree_state -> Prop) :
  (0 < fuel)%nat -> t <> E -> Repr Out np s (plug (F d BLACK p u :: k) t) ->
  Q tt s -> wp (rb_insert_loop fuel rt (ptr t)) s Q.
Proof.
  intros Hf Ht HR HQ. destruct fuel as [|fuel]; [lia|]. rewrite rb_insert_loop_S.
  destruct (ptr t =? rt); [done|].
  destruct (Repr_ptr _ _ _ _ _ HR) as (n & Hn & _ & Hp).
  rewrite bool_decide_false in Hp by done. simpl in Hp.
  apply Repr_elem in HR. wstep. wstep. rewrite Hp. wstep. wstep. rewrite color_rec. done.
Qed.

Definition inserted (Out : Z -> option node) (np : Z) (t : tree) (s : tree_state) : Prop :=
  exists t', Repr Out np s t' /\ elems t' = elems t /\ balanced (blacken t').

Lemma insert_rotate_ok d fuel rt k A p u1 g u n s Out np :
  (0 < fuel)%nat -> A <> E ->
  Repr Out np s (plug k (sub d BLACK (sub d RED A p u1) g u)) ->
  rb n A -> rb n u1 -> rb n u -> red u1 = BLACK -> red u = BLACK -> rbk (S n) k ->
  wp (insert_rotate d (rb_insert_loop fuel rt) (ptr A) p) s
    (fun _ => inserted Out np (plug k (sub d BLACK (sub d RED A p u1) g u))).
Proof.
  intros Hf HA HR HbA Hb1 Hbu Hr1 Hru Hk. unfold insert_rotate.
  wstep. apply (wp_set_color (F d BLACK g u :: k) d RED BLACK A p u1 _ Out np); [exact HR|].
  clear HR. intros s1 HR _. pose proof (Repr_elem Out np s1 (F d BLACK g u :: k) _ _ _ _ _ HR).
  wstep. wstep. rewrite parent_rec. simpl.
  wstep. apply (wp_set_color k d BLACK RED _ g u _ Out np _ HR).
  clear HR H. intros s2 HR _. pose proof (Repr_elem Out np s2 (F d RED g u :: k) _ _ _ _ _ HR).
  wstep. wstep. rewrite parent_rec. simpl. wstep.
  rewrite (sub_flip d RED), (sub_flip d BLACK) in HR.
  apply (wp_rotate _ _ _ _ _ _ _ _ _ _ _ _ _ HR). clear HR H. intros s3 HR.
  apply (insert_loop_exit fuel rt d p (sub (negb d) RED u g u1) k A s3 Out np); auto.
  { simpl. by rewrite sub_flip. }
  eexists. split; [exact HR|]. split.
  { rewrite !elems_plug, !elems_sub. by destruct d; elems_eq. }
  assert (balanced (plug k (sub (negb d) BLACK (sub (negb d) RED u g u1) p A))) as Hbal.
  { apply balanced_plug. rewrite red_sub. split; [apply fits_black|]. exists (S n).
    rewrite !rb_sub. split; [|done]. exists n. rewrite rb_sub. done. }
  rewrite blacken_black; [done|apply Hbal].
Qed.

(** The loop invariant: a red subtree [t], well formed itself, stands in a
    well-formed context; only its root may clash with the parent. *)
Definition insert_loop_spec (fuel : nat) (rt : Z) (Out : Z -> option node) (np : Z) : Prop :=
  forall k n t s, (length k < fuel)%nat -> Repr Out np s (plug k t) -> root s = rt ->
  red t = RED -> rb n t -> rbk n k ->
  wp (rb_insert_loop fuel rt (ptr t)) s (fun _ => inserted Out np (plug k t)).

Lemma insert_recolor_ok fuel rt d d1 k A p u1 g u n s Out np :
  insert_loop_spec fuel rt Out np -> (length k < fuel)%nat -> root s = rt ->
  Repr Out np s (plug k (sub d BLACK (sub d1 RED A p u1) g u)) ->
  rb n A -> rb n u1 -> rb n u -> red u = RED -> rbk (S n) k ->
  wp (insert_recolor (rb_insert_loop fuel rt) p (ptr u)) s
    (fun _ => inserted Out np (plug k (sub d BLACK (sub d1 RED A p u1) g u))).
Proof.
  intros IH Hf Hrt HR HbA Hb1 Hbu Hru Hk. destruct u as [|cu ul ub ur]; [done|].
  simpl in Hru. subst cu. simpl in Hbu. destruct Hbu as (_ & _ & Hul & Hur).
  unfold insert_recolor. wstep.
  apply (wp_set_color (F d BLACK g (N RED ul ub ur) :: k) d1 RED BLACK A p u1 _ Out np); [exact HR|].
  clear HR. intros s1 HR Hs1. simpl in HR. rewrite (sub_flip d) in HR. wstep.
  apply (wp_set_color (F (negb d) BLACK g (sub d1 BLACK A p u1) :: k) true RED BLACK ul ub ur _ Out np);
    [exact HR|].
  clear HR. intros s2 HR Hs2. simpl in HR. rewrite <- (sub_flip d) in HR.
  pose proof (Repr_elem Out np s2 (F d BLACK g (N BLACK ul ub ur) :: k) _ _ _ _ _ HR) as Hp2.
  wstep. wstep. rewrite parent_rec. simpl. wstep.
  apply (wp_set_color k d BLACK RED (sub d1 BLACK A p u1) g (N BLACK ul ub ur) _ Out np _ HR).
  clear HR Hp2. intros s3 HR Hs3.
  pose proof (Repr_elem Out np s3 (F d RED g (N BLACK ul ub ur) :: k) _ _ _ _ _ HR) as Hp3.
  wstep. wstep. rewrite parent_rec. simpl.
  specialize (IH k (S n) _ s3 Hf HR). rewrite ptr_sub in IH.
  eapply wp_mono; [apply IH|].
  - congruence.
  - apply red_sub.
  - apply rb_sub. simpl. rewrite red_sub. do 2 (split; [done|]). split; [apply rb_sub; by exists n|done].
  - done.
  - intros _ s' (t' & HR' & He & Hb). exists t'. split; [done|]. split; [|done].
    rewrite He. destruct d, d1; elems_eq.
Qed.

Lemma insert_case_ok fuel rt d d1 k A p u1 g u n s Out np :
  insert_loop_spec fuel rt Out np -> (length k < fuel)%nat -> root s = rt ->
  Repr Out np s (plug k (sub d BLACK (sub d1 RED A p u1) g u)) ->
  red A = RED -> rb n A -> rb n u1 -> rb n u -> red u1 = BLACK -> rbk (S n) k ->
  wp (insert_case d (rb_insert_loop fuel rt) (ptr A) p g) s
    (fun _ => inserted Out np (plug k (sub d BLACK (sub d1 RED A p u1) g u))).
Proof.
  intros IH Hf Hrt HR HrA HbA Hb1 Hbu Hr1 Hk. unfold insert_case.
  pose proof (Repr_elem _ _ _ _ _ _ _ _ _ HR) as Hg.
  pose proof (Repr_elem Out np s (F d BLACK g u :: k) _ _ _ _ _ HR) as Hp.
  assert (Repr Out np s (plug (F (negb d) BLACK g (sub d1 RED A p u1) :: k) u)) as HR'
    by (simpl; by rewrite <- sub_flip).
  destruct (Repr_ptr _ _ _ _ _ HR') as (nu & Hnu & Hcu & _).
  pose proof (Repr_inv _ _ _ _ _ HR') as (_ & _ & _ & Hne & _).
  wstep. wstep. rewrite child_negb_rec. wstep. wstep. rewrite Hcu, (is_nil_ptr _ u) by done.
  destruct (red u) eqn:Eu.
  { rewrite bool_decide_false by (by intros ->). simpl. by eapply insert_recolor_ok. }
  rewrite andb_false_r. wstep. wstep. clear HR' Hne.
  destruct (decide (d1 = d)) as [-> |Hd].
  - rewrite child_negb_rec. replace (ptr A =? ptr u1) with false.
    + wstep. wstep. apply insert_rotate_ok with (n := n); auto; [lia|by intros ->].
    + symmetry. apply Z.eqb_neq.
      apply (Repr_children_ne Out np s (F d BLACK g u :: k) d RED A p u1 HR). by intros ->.
  - replace (child (negb d) _) with (ptr A) by (by destruct d, d1).
    rewrite Z.eqb_refl. rewrite (sub_flip d1) in HR |- *.
    replace (negb d1) with d in * by (by destruct d, d1).
    assert (exists A1 A2 a, A = sub d RED A1 a A2 /\ ptr A = a) as (A1 & A2 & a & HeA & Hpa).
    { destruct A as [|ca la a ra]; [done|]. simpl in HrA. subst ca.
      destruct d; [exists la, ra, a|exists ra, la, a]; done. }
    rewrite HeA in HR, HbA |- *. rewrite rb_sub in HbA. destruct HbA as (Hc1 & Hc2 & HA1 & HA2).
    wstep. wstep. apply (wp_rotate d (F d BLACK g u :: k) RED RED u1 p A1 a A2 s Out np); [exact HR|].
    intros s1 HR1. clear HR.
    pose proof (Repr_elem Out np s1 (F d RED a A2 :: F d BLACK g u :: k) d _ _ _ _ HR1) as Hp1.
    wstep. wstep. rewrite parent_rec. simpl. wstep.
    eapply wp_mono.
    + pose proof (insert_rotate_ok d fuel rt k (sub d RED u1 p A1) a A2 g u n s1 Out np) as H.
      rewrite ptr_sub in H. apply H; auto; [lia|by destruct d|]. rewrite rb_sub. done.
    + intros _ s' (t' & HR' & He & Hb). exists t'. split; [done|]. split; [|done].
      rewrite He. destruct d; elems_eq.
Qed.

Lemma insert_loop_ok fuel rt Out np : insert_loop_spec fuel rt Out np.
Proof.
  induction fuel as [|fuel IH]; intros k n t s Hf HR Hrt Hred Hrb Hk; [lia|].
  assert (t <> E) as Ht by (by intros ->).
  rewrite rb_insert_loop_S. destruct (ptr t =? rt) eqn:Ert.
  { apply Z.eqb_eq in Ert. destruct k as [|f k].
    - apply wp_ret. exists t. split; [done|]. split; [done|]. by eapply balanced_blacken.
    - exfalso. apply (Repr_root_ne Out np s (f :: k) t); congruence. }
  destruct k as [|[d1 c p u1] k]; simpl in Hk.
  { apply Z.eqb_neq in Ert. exfalso. apply Ert. rewrite <- Hrt. symmetry. apply HR. }
  destruct Hk as (Hu1 & Hc1 & Hfit & Hk).
  destruct (Repr_ptr _ _ _ _ _ HR) as (nt & Hnt & _ & Hpt).
  rewrite bool_decide_false in Hpt by done. simpl in Hpt.
  pose proof (Repr_elem Out np s k _ _ _ _ _ HR) as Hp.
  wstep. wstep. rewrite Hpt. wstep. wstep. rewrite color_rec. destruct c; simpl.
  - destruct k as [|[d [] g u] k]; simpl in Hfit; [done|done|]. simpl in Hk.
    destruct Hk as (Hu & _ & _ & Hk). simpl in Hf.
    pose proof (Repr_elem Out np s k _ _ _ _ _ HR) as Hg. rewrite ptr_sub in Hg.
    wstep. wstep. rewrite parent_rec. simpl. wstep. wstep.
    assert ((p =? left (rec d p (ptr u) (top k) false)) = d) as ->.
    { destruct d; simpl; [apply Z.eqb_refl|]. apply Z.eqb_neq.
      rewrite <- (ptr_sub d1 true t p u1). eapply Repr_children_ne; [exact HR|by destruct d1]. }
    destruct d; eapply insert_case_ok; eauto; lia.
  - apply wp_ret. eexists. split; [exact HR|]. split; [done|].
    assert (balanced (plug k (sub d1 false t p u1))) as Hb.
    { apply (balanced_plug (F d1 BLACK p u1 :: k) t). simpl. eauto 10 with rb. }
    rewrite blacken_black; [done|apply Hb].
Qed.

Lemma rb_insert_ok k e s Out np :
  Repr Out np s (plug k (N RED E e E)) -> rbk 0 k ->
  wp (rb_insert e) s (fun _ s' => exists t',
    Repr Out np s' t' /\ elems t' = elems (plug k (N RED E e E)) /\ balanced t').
Proof.
  intros HR Hk. unfold rb_insert. wstep. wstep. wstep.
  apply (wp_set_color k true RED RED E e E s Out np _ HR). clear HR. intros s1 HR Hs1.
  wstep. wstep. eapply wp_mono.
  { apply (insert_loop_ok _ _ Out np k O (N RED E e E) s1); try done.
    pose proof (Repr_size _ _ _ _ HR) as Hsz. simpl in HR, Hsz.
    pose proof (plug_depth k (sub true RED E e E)). unfold fuel_of. simpl in *. lia. }
  intros _ s2 (t & HR2 & He & Hb). wstep. wstep. rewrite (R_root _ _ _ _ HR2).
  destruct t as [|c l a r].
  - exfalso. rewrite elems_plug in He. simpl in He. by destruct (before k).
  - apply (wp_set_color [] true c BLACK l a r s2 Out np _ HR2). intros s3 HR3 _. eauto.
Qed.

(** ** Deletion *)

(** The iterations of [rb_delete_fixup] with the subtree on side [d] of its
    parent. *)
Definition fixup_final (d : bool) (loop : Z -> Z -> st tree_state Z) (root par sibling : Z) :
    st tree_state Z :=
  pc ← field color par;
  set_color sibling pc;;
  set_color par BLACK;;
  far ← field (child (negb d)) sibling;
  set_color far BLACK;;
  rotate d par;;
  loop root par.
Definition fixup_black (d : bool) (loop : Z -> Z -> st tree_state Z) (root node par sibling : Z) :
    st tree_state Z :=
  sl ← field left sibling;
  lc ← field color sl;
  sr ← field right sibling;
  rc ← field color sr;
  if negb lc && negb rc then
    set_color sibling RED;;
    gp ← field parent par;
    loop par gp
  else
    '(par, sibling) ← (if negb (if d then rc else lc) then
        set_color (if d then sl else sr) BLACK;;
        set_color sibling RED;;
        rotate (negb d) sibling;;
        par ← field parent node;
        sibling ← field (child (negb d)) par;
        mret (par, sibling)
      else mret (par, sibling));
    fixup_final d loop root par sibling.
Definition fixup_case (d : bool) (loop : Z -> Z -> st tree_state Z) (root node par : Z) :
    st tree_state Z :=
  sibling ← field (child (negb d)) par;
  sc ← field color sibling;
  '(par, sibling) ← (if (sc : bool) then
      set_color sibling BLACK;;
      set_color par RED;;
      rotate d par;;
      par ← field parent node;
      sibling ← field (child (negb d)) par;
      mret (par, sibling)
    else mret (par, sibling));
  fixup_black d loop root node par sibling.

Lemma rb_delete_fixup_loop_S fuel root node par :
  rb_delete_fixup_loop (S fuel) root node par =
    if node =? root then mret node else
    nc ← field color node;
    if (nc : bool) then mret node else
    pl ← field left par;
    if node =? pl then fixup_case true (rb_delete_fixup_loop fuel root) root node par
    else fixup_case false (rb_delete_fixup_loop fuel root) root node par.
Proof. reflexivity. Qed.

(** The result of the loop and of the assignment after it. *)
Definition fixed (Out : Z -> option node) (np : Z) (t : tree) (x : Z) (s : tree_state) : Prop :=
  wp (set_color x BLACK) s (fun _ s' => exists t',
    Repr Out np s' t' /\ elems t' = elems t /\ balanced t').

Lemma fixed_elems Out np t t' x s :
  elems t = elems t' -> fixed Out np t x s -> fixed Out np t' x s.
Proof. unfold fixed. by intros ->. Qed.

(** The loop stops at a red subtree, which is then coloured black. *)
Lemma fixup_exit_red fuel rt k T p n s Out np :
  (0 < fuel)%nat -> red T = RED -> Repr Out np s (plug k T) -> rb n (blacken T) -> rbk n k ->
  wp (rb_delete_fixup_loop fuel rt (ptr T) p) s (fixed Out np (plug k T)).
Proof.
  intros Hf Hr HR Hb Hk. destruct T as [|c l a r]; [done|]. simpl in Hr. subst c.
  assert (fixed Out np (plug k (N RED l a r)) a s) as Hfix.
  { apply (wp_set_color k true RED BLACK l a r s Out np _ HR). intros s' HR' _.
    eexists. split; [exact HR'|]. split; [elems_eq|]. apply balanced_plug.
    split; [apply fits_black|]. by exists n. }
  destruct fuel as [|fuel]; [lia|]. rewrite rb_delete_fixup_loop_S.
  pose proof (Repr_elem Out np s k true RED l a r HR) as Ha.
  destruct (ptr _ =? rt); [done|]. wstep. wstep. done.
Qed.

(** Where the local copy of the root may point when the loop ends. *)
Definition root_copy (rt p : Z) (k : list frame) (s : tree_state) : Prop :=
  rt = p \/ rt = root s /\ k <> [].

Lemma fixed_copy rt p k U U' t s s' Out np q :
  Repr Out np s (plug k U) -> Repr Out np s' (plug k U') -> root_copy rt p k s ->
  nodes s' !! p = Some q -> color q = BLACK ->
  elems (plug k U') = elems t -> balanced (plug k U') -> fixed Out np t rt s'.
Proof.
  intros HR HR' Hrt Hp Hq He Hb.
  assert (exists x, nodes s' !! rt = Some x /\ color x = BLACK) as (x & Hx & Hc).
  { destruct Hrt as [-> |[-> Hk]]; [eauto|].
    rewrite (R_root _ _ _ _ HR), (ptr_plug k U U') by done.
    destruct (Repr_ptr Out np s' [] _ HR') as (x & Hx & Hc & _).
    exists x. split; [done|]. rewrite Hc. apply Hb. }
  eapply wp_set_color_black; eauto.
Qed.

Lemma fixup_final_ok d fuel rt k c T p near w far n s Out np :
  (0 < fuel)%nat -> root_copy rt p k s ->
  Repr Out np s (plug k (sub d c T p (sub d BLACK near w far))) ->
  rb n T -> rb n near -> rb n far -> red far = RED ->
  fits k c -> rbk (if c then S n else S (S n)) k ->
  wp (fixup_final d (rb_delete_fixup_loop fuel rt) rt p w) s
    (fixed Out np (plug k (sub d c T p (sub d BLACK near w far)))).
Proof.
  intros Hf Hrt HR HT Hnear Hfar Hred Hfit Hk. unfold fixup_final. pose proof HR as HR0.
  pose proof (Repr_elem _ _ _ _ _ _ _ _ _ HR) as Hp.
  wstep. wstep. rewrite color_rec. wstep. rewrite (sub_flip d) in HR.
  apply (wp_set_color (F (negb d) c p T :: k) d BLACK c near w far s Out np); [exact HR|].
  clear HR Hp. intros s1 HR Hs1. simpl in HR. rewrite <- sub_flip in HR. wstep.
  apply (wp_set_color k d c BLACK T p _ s1 Out np _ HR). clear HR. intros s2 HR Hs2.
  rewrite (sub_flip d BLACK) in HR.
  pose proof (Repr_elem Out np s2 (F (negb d) BLACK p T :: k) _ _ _ _ _ HR) as Hw.
  wstep. wstep. rewrite child_negb_rec. wstep.
  destruct far as [|cf fl f fr]; [done|]. simpl in Hred. subst cf. rewrite (sub_flip d c) in HR.
  apply (wp_set_color (F (negb d) c w near :: F (negb d) BLACK p T :: k) true RED BLACK fl f fr
    s2 Out np); [exact HR|].
  clear HR Hw. intros s3 HR Hs3. simpl in HR.
  rewrite <- (sub_flip d c), <- (sub_flip d BLACK) in HR. wstep.
  apply (wp_rotate _ _ _ _ _ _ _ _ _ _ _ _ _ HR). clear HR. intros s4 HR.
  destruct fuel as [|fuel]; [lia|]. rewrite rb_delete_fixup_loop_S, Z.eqb_refl. apply wp_ret.
  assert (balanced (plug k (sub d c (sub d BLACK T p near) w (N BLACK fl f fr)))) as Hbal.
  { apply balanced_plug. rewrite red_sub. split; [done|].
    exists (if c then S n else S (S n)). split; [|done]. apply rb_sub.
    assert (rb (S n) (sub d BLACK T p near)) by (apply rb_sub; by exists n).
    assert (rb (S n) (N BLACK fl f fr)) by (simpl in *; tauto).
    destruct c; [by rewrite red_sub|by exists (S n)]. }
  eapply (fixed_copy rt p k _ _ _ s s4); [exact HR0|exact HR|done| |apply color_rec| |done].
  - apply (Repr_elem Out np s4 (F d c w (N BLACK fl f fr) :: k)), HR.
  - destruct d; elems_eq.
Qed.

(** The loop invariant: the subtree [T] has one black element too few for
    its context. *)
Definition fixup_loop_spec (fuel : nat) (rt : Z) (Out : Z -> option node) : Prop :=
  forall k n T s np, (length k < fuel)%nat -> Repr Out np s (plug k T) -> root s = rt ->
  (T = E -> np = top k) -> rb n T -> rbk (S n) k ->
  wp (rb_delete_fixup_loop fuel rt (ptr T) (top k)) s (fixed Out np (plug k T)).

Lemma fixup_black_reads d loop rt T k c p near w far s Out np Q :
  Repr Out np s (plug k (sub d c T p (sub d BLACK near w far))) ->
  wp (if negb (red near) && negb (red far) then
        set_color w RED;;
        gp ← field parent p;
        loop p gp
      else
        '(par, sibling) ← (if negb (red far) then
            set_color (ptr near) BLACK;;
            set_color w RED;;
            rotate (negb d) w;;
            par ← field parent (ptr T);
            sibling ← field (child (negb d)) par;
            mret (par, sibling)
          else mret (p, w));
        fixup_final d loop rt par sibling) s Q ->
  wp (fixup_black d loop rt (ptr T) p w) s Q.
Proof.
  intros HR HQ. rewrite (sub_flip d c) in HR.
  pose proof (Repr_elem Out np s (F (negb d) c p T :: k) _ _ _ _ _ HR) as Hw.
  destruct (Repr_ptr Out np s (F d BLACK w far :: F (negb d) c p T :: k) near HR) as (n1 & H1 & C1 & _).
  rewrite (sub_flip d BLACK) in HR.
  destruct (Repr_ptr Out np s (F (negb d) BLACK w near :: F (negb d) c p T :: k) far HR)
    as (n2 & H2 & C2 & _).
  unfold fixup_black. rewrite <- C1, <- C2 in HQ.
  destruct d; simpl in *; do 8 wstep; [done|by rewrite andb_comm].
Qed.

(** Both children of the black sibling are black. *)
Lemma fixup_both_black_ok d fuel rt k c T p near w far n s Out np :
  (0 < fuel)%nat ->
  (c = BLACK -> (length k < fuel)%nat /\ root s = rt /\ fixup_loop_spec fuel rt Out) ->
  Repr Out np s (plug k (sub d c T p (sub d BLACK near w far))) ->
  rb n T -> red T = BLACK -> rb n near -> rb n far -> red near = BLACK -> red far = BLACK ->
  rbk (if c then S n else S (S n)) k ->
  wp (set_color w RED;; gp ← field parent p; rb_delete_fixup_loop fuel rt p gp) s
    (fixed Out np (plug k (sub d c T p (sub d BLACK near w far)))).
Proof.
  intros Hf Hc HR HT HrT Hnear Hfar Hrn Hrf Hk. wstep. rewrite (sub_flip d c) in HR.
  apply (wp_set_color (F (negb d) c p T :: k) d BLACK RED near w far s Out np); [exact HR|].
  clear HR. intros s1 HR Hs1. simpl in HR. rewrite <- sub_flip in HR.
  pose proof (Repr_elem _ _ _ _ _ _ _ _ _ HR) as Hp. wstep. wstep. rewrite parent_rec.
  set (T' := sub d c T p (sub d RED near w far)) in *.
  assert (rb n (sub d RED near w far)) as HW by (by apply rb_sub).
  apply wp_mono with (Q := fixed Out np (plug k T')).
  2:{ intros x s'. apply fixed_elems. subst T'. destruct d; elems_eq. }
  replace p with (ptr T') by apply ptr_sub. destruct c.
  - apply fixup_exit_red with (n := S n); [lia|apply red_sub|done| |done].
    subst T'. rewrite blacken_sub. apply rb_sub. by exists n.
  - destruct (Hc eq_refl) as (Hlen & Hrt & IH). apply IH with (n := S n); auto; [congruence| |].
    + subst T'. by destruct d.
    + subst T'. apply rb_sub. by exists n.
Qed.

(** Only the child of the black sibling next to the subtree is red. *)
Lemma fixup_near_red_ok d fuel rt k c T p near w far n s Out np :
  (0 < fuel)%nat -> root_copy rt p k s ->
  Repr Out np s (plug k (sub d c T p (sub d BLACK near w far))) -> (T = E -> np = p) ->
  rb n T -> rb n near -> rb n far -> red near = RED -> red far = BLACK ->
  fits k c -> rbk (if c then S n else S (S n)) k ->
  wp ('(par, sibling) ← (set_color (ptr near) BLACK;;
      set_color w RED;;
      rotate (negb d) w;;
      par ← field parent (ptr T);
      sibling ← field (child (negb d)) par;
      mret (par, sibling));
    fixup_final d (rb_delete_fixup_loop fuel rt) rt par sibling) s
    (fixed Out np (plug k (sub d c T p (sub d BLACK near w far)))).
Proof.
  intros Hf Hrt HR Hnp HT Hnear Hfar Hrn Hrf Hfit Hk.
  assert (exists n1 x n2, near = sub d RED n1 x n2) as (n1 & x & n2 & ->).
  { destruct near as [|cw wl y wr]; [done|]. simpl in Hrn. subst cw.
    destruct d; [exists wl, y, wr|exists wr, y, wl]; done. }
  apply rb_sub in Hnear as (Hr1 & Hr2 & Hn1 & Hn2).
  rewrite ptr_sub. wstep. wstep. rewrite (sub_flip d c) in HR.
  apply (wp_set_color (F d BLACK w far :: F (negb d) c p T :: k) d RED BLACK n1 x n2 s Out np);
    [exact HR|].
  intros s1 HR1 Hs1. wstep.
  apply (wp_set_color (F (negb d) c p T :: k) d BLACK RED (sub d BLACK n1 x n2) w far s1 Out np);
    [exact HR1|].
  intros s2 HR2 Hs2. wstep. rewrite (sub_flip d RED), (sub_flip d BLACK n1) in HR2.
  apply (wp_rotate _ _ _ _ _ _ _ _ _ _ _ _ _ HR2). intros s3 HR3. simpl in HR3.
  rewrite <- (sub_flip d c), (sub_flip (negb d) BLACK), negb_involutive in HR3.
  destruct (Repr_ptr Out np s3 (F d c p (sub d BLACK n1 x (sub (negb d) RED far w n2)) :: k) T HR3)
    as (nT & HnT & _ & HpT).
  pose proof (Repr_elem _ _ _ _ _ _ _ _ _ HR3) as Hp.
  assert (parent nT = p) as HpT' by (rewrite HpT; simpl; case_bool_decide; auto).
  wstep. wstep. rewrite HpT'.
  wstep. wstep. rewrite child_negb_rec, ptr_sub. wstep.
  eapply wp_mono.
  - eapply (fixup_final_ok d fuel rt k c T p n1 x _ n s3 Out np); eauto.
    + destruct Hrt as [|[Hrt Hne]]; [by left|right]. split; [|done].
      rewrite Hrt, (R_root _ _ _ _ HR), (R_root _ _ _ _ HR3). simpl. by apply ptr_plug.
    + by apply rb_sub.
    + apply red_sub.
  - intros y s'. apply fixed_elems. destruct d; elems_eq.
Qed.

Lemma fixup_black_ok d fuel rt k c T p W n s Out np :
  (0 < fuel)%nat -> root_copy rt p k s ->
  (c = BLACK -> (length k < fuel)%nat /\ root s = rt /\ fixup_loop_spec fuel rt Out) ->
  Repr Out np s (plug k (sub d c T p W)) -> (T = E -> np = p) ->
  rb n T -> red T = BLACK -> rb (S n) W -> red W = BLACK ->
  fits k c -> rbk (if c then S n else S (S n)) k ->
  wp (fixup_black d (rb_delete_fixup_loop fuel rt) rt (ptr T) p (ptr W)) s
    (fixed Out np (plug k (sub d c T p W))).
Proof.
  intros Hf Hrt Hc HR Hnp HT HrT HW HrW Hfit Hk.
  assert (exists near w far, W = sub d BLACK near w far) as (near & w & far & ->).
  { destruct W as [|cw wl w wr]; [done|]. simpl in HrW. subst cw.
    destruct d; [exists wl, w, wr|exists wr, w, wl]; done. }
  rewrite ptr_sub. apply rb_sub in HW as (n' & [= <-] & Hnear & Hfar).
  eapply fixup_black_reads; [exact HR|].
  destruct (red far) eqn:Efar; [rewrite andb_false_r; apply wp_bind, wp_ret; by eapply fixup_final_ok|].
  destruct (red near) eqn:Enear; simpl.
  - by eapply fixup_near_red_ok.
  - by eapply fixup_both_black_ok.
Qed.

Lemma fixup_case_ok d fuel rt k c T p W n s Out np :
  (length k < fuel)%nat -> root s = rt -> fixup_loop_spec fuel rt Out ->
  Repr Out np s (plug k (sub d c T p W)) -> (T = E -> np = p) ->
  rb n T -> red T = BLACK -> rb (S n) W -> c && red W = BLACK ->
  fits k c -> rbk (if c then S n else S (S n)) k ->
  wp (fixup_case d (rb_delete_fixup_loop fuel rt) rt (ptr T) p) s
    (fixed Out np (plug k (sub d c T p W))).
Proof.
  intros Hlen Hrt IH HR Hnp HT HrT HW HcW Hfit Hk. unfold fixup_case.
  pose proof (Repr_elem _ _ _ _ _ _ _ _ _ HR) as Hp.
  assert (root_copy rt p k s) as Hcopy.
  { destruct k; [left|right; done]. rewrite <- Hrt, (R_root _ _ _ _ HR). apply ptr_sub. }
  assert (Repr Out np s (plug (F (negb d) c p T :: k) W)) as HR' by (simpl; by rewrite <- sub_flip).
  destruct (Repr_ptr _ _ _ _ _ HR') as (nW & HnW & HcolW & _).
  wstep. wstep. rewrite child_negb_rec. wstep. wstep. rewrite HcolW.
  destruct (red W) eqn:ErW; [|wstep; wstep; eapply fixup_black_ok; eauto; lia].
  assert (exists near w far, W = sub d RED near w far) as (near & w & far & ->).
  { destruct W as [|cw wl w wr]; [done|]. simpl in ErW. subst cw.
    destruct d; [exists wl, w, wr|exists wr, w, wl]; done. }
  rewrite andb_true_r in HcW. subst c. apply rb_sub in HW as (Hrn & Hrf & Hnear & Hfar).
  rewrite ptr_sub. clear HnW Hp. wstep. wstep.
  apply (wp_set_color (F (negb d) BLACK p T :: k) d RED BLACK near w far s Out np); [exact HR'|].
  intros s1 HR1 Hs1. simpl in HR1. rewrite <- sub_flip in HR1. wstep.
  apply (wp_set_color k d BLACK RED T p _ s1 Out np _ HR1). intros s2 HR2 Hs2. wstep.
  apply (wp_rotate _ _ _ _ _ _ _ _ _ _ _ _ _ HR2). intros s3 HR3.
  destruct (Repr_ptr Out np s3 (F d RED p near :: F d BLACK w far :: k) T HR3)
    as (nT & HnT & _ & HpT).
  assert (parent nT = p) as HpT' by (rewrite HpT; simpl; case_bool_decide; auto).
  pose proof (Repr_elem Out np s3 (F d BLACK w far :: k) _ _ _ _ _ HR3) as Hp.
  wstep. wstep. rewrite HpT'. wstep. wstep. rewrite child_negb_rec. wstep.
  apply wp_mono with (Q := fixed Out np (plug (F d BLACK w far :: k) (sub d RED T p near)));
    [|intros y s'; apply fixed_elems; destruct d; elems_eq].
  eapply (fixup_black_ok d fuel rt (F d BLACK w far :: k) RED T p near n s3 Out np); auto.
  - lia.
  - destruct Hcopy as [|[Hc Hne]]; [by left|right]. split; [|done].
    rewrite Hc, (R_root _ _ _ _ HR), (R_root _ _ _ _ HR3). by apply ptr_plug.
  - done.
  - simpl. done.
  - simpl. eauto using fits_black.
Qed.

Lemma fixup_loop_ok fuel rt Out : fixup_loop_spec fuel rt Out.
Proof.
  induction fuel as [|fuel IH]; intros k n T s np Hf HR Hrt Hnp HT Hk; [lia|].
  destruct (red T) eqn:ErT.
  { apply fixup_exit_red with (n := S n); [lia|done|done| |done].
    destruct T as [|c l a r]; [done|]. simpl in ErT. subst c. simpl in *. tauto. }
  rewrite rb_delete_fixup_loop_S. destruct k as [|[d c p W] k].
  - rewrite <- Hrt, (R_root _ _ _ _ HR). simpl. rewrite Z.eqb_refl. apply wp_ret.
    destruct (Repr_ptr Out np s [] T HR) as (x & Hx & Hc & _).
    eapply wp_set_color_black; [done|by rewrite Hc|]. exists T. split; [done|]. split; [done|].
    split; [done|]. by exists n.
  - simpl in Hk. destruct Hk as (HW & HcW & Hfit & Hk). simpl in Hf.
    assert ((ptr T =? rt) = false) as ->.
    { apply Z.eqb_neq. destruct (decide (T = E)) as [-> |HTE].
      - rewrite <- Hrt, (R_root _ _ _ _ HR). intros Heq.
        pose proof (root_in _ _ _ _ _ HR ltac:(done)) as Hin.
        apply Repr_inv in HR as HI. destruct HI as (_ & _ & _ & _ & Hne). apply Hne.
        rewrite (R_root _ _ _ _ HR), <- Heq in Hin. exact Hin.
      - rewrite <- Hrt. by eapply Repr_root_ne. }
    destruct (Repr_ptr _ _ _ _ _ HR) as (x & Hx & Hc & _).
    pose proof (Repr_elem Out np s k d c T p W HR) as Hp.
    wstep. wstep. rewrite Hc, ErT. simpl. wstep. wstep.
    assert ((ptr T =? left (rec d (ptr T) (ptr W) (top k) c)) = d) as ->.
    { destruct d; simpl; [apply Z.eqb_refl|]. apply Z.eqb_neq. intros Heq. symmetry in Heq.
      revert Heq. apply (Repr_children_ne Out np s k true c W p T HR). by intros ->. }
    destruct d; (eapply fixup_case_ok; eauto; lia).
Qed.

Lemma rb_delete_fixup_ok k n T s Out np :
  Repr Out np s (plug k T) -> (T = E -> np = top k) -> rb n T -> rbk (S n) k ->
  wp (rb_delete_fixup (ptr T)) s (fun _ s' => exists t',
    Repr Out np s' t' /\ elems t' = elems (plug k T) /\ balanced t').
Proof.
  intros HR Hnp HT Hk. unfold rb_delete_fixup. wstep. wstep.
  destruct (Repr_ptr _ _ _ _ _ HR) as (x & Hx & _ & Hpar).
  wstep. wstep. replace (parent x) with (top k) by (rewrite Hpar; case_bool_decide; auto using eq_sym).
  wstep. wstep. apply (fixup_loop_ok _ _ Out k n T s np); auto.
  pose proof (Repr_size _ _ _ _ HR). pose proof (plug_depth k T). unfold fuel_of. lia.
Qed.
