(* ===== verification/RbtreeSpec.v ===== *)
(** * Correctness of red-black trees

    The operations of [lib/rbtree.c] implement a sequence of elements in
    order: insertion, deletion, search and iteration terminate and do what
    the corresponding list operations do, and the height is logarithmic. *)

From Stdlib Require Import ZArith Lia Bool.
From stdpp Require Import base gmap list sorting.
From S2P Require Import Prelude Rbtree RbtreeMem RbtreeBalance.

(** The state holds a balanced tree with the elements [L], in order. *)
Definition tree_of (s : tree_state) (L : list Z) : Prop :=
  exists t np, Repr (fun x => nodes s !! x) np s t /\ elems t = L /\ balanced t /\ NULL ∉ L.

(** Memory is the same outside [L] and the sentinel. *)
Definition same_outside (L : list Z) (s s' : tree_state) : Prop :=
  forall x, x ∉ L -> x <> nil_store -> nodes s' !! x = nodes s !! x.

Lemma Repr_Out Out Out' np s t :
  Repr Out np s t -> (forall x, x ∉ elems t -> x <> nil_store -> Out' x = nodes s !! x) ->
  Repr Out' np s t.
Proof. intros [] H. constructor; auto. intros. symmetry. auto. Qed.

Lemma Repr_fuel Out np s k t : Repr Out np s (plug k t) -> (length (elems t) + length k < fuel_of s)%nat.
Proof.
  intros HR. apply Repr_size in HR. rewrite elems_plug_perm, length_app in HR.
  assert (length k <= length (kelems k))%nat; [|unfold fuel_of; lia].
  clear. induction k as [|[d c a u] k IH]; simpl; [lia|]. rewrite length_app. lia.
Qed.

Lemma NoDup_split_at (A A' B B' : list Z) x :
  NoDup (A ++ x :: B) -> A ++ x :: B = A' ++ x :: B' -> A = A' /\ B = B'.
Proof.
  revert A'. induction A as [|a A IH]; intros [|a' A'] Hnd Heq; simpl in *.
  - by injection Heq as <-.
  - injection Heq as <- ->. apply NoDup_cons in Hnd. set_solver.
  - injection Heq as -> <-. apply NoDup_cons in Hnd. set_solver.
  - injection Heq as -> Heq. apply NoDup_cons in Hnd as [_ Hnd].
    destruct (IH A' Hnd Heq) as [-> ->]. done.
Qed.

(** The node of an element, with what is before and after it. *)
Lemma focus_split Out np s t A x B :
  Repr Out np s t -> elems t = A ++ x :: B ->
  exists k c l r, t = plug k (N c l x r) /\ before k ++ elems l = A /\ elems r ++ after k = B.
Proof.
  intros HR He. destruct (focus x t) as (k & c & l & r & ->); [rewrite He; set_solver|].
  exists k, c, l, r. split; [done|]. pose proof (R_nodup _ _ _ _ HR) as Hnd.
  rewrite elems_plug in He, Hnd. simpl in He, Hnd.
  rewrite <- (assoc_L (++)), (assoc_L (++) (before k)) in He, Hnd. simpl in He, Hnd.
  by apply NoDup_split_at in He.
Qed.

(** ** Iteration *)

(** Operations that only read. *)
Definition yields {A} (m : st tree_state A) (s : tree_state) (v : A) : Prop := m s = Ret (v, s).

Lemma wp_yields {A} (m : st tree_state A) s v Q : yields m s v -> Q v s -> wp m s Q.
Proof. unfold yields, wp. by intros ->. Qed.

Lemma yields_bind {A B} (m : st tree_state A) (f : A -> st tree_state B) s v w :
  yields m s v -> yields (f v) s w -> yields (m ≫= f) s w.
Proof. unfold yields, mbind, st_bind. by intros ->. Qed.

Lemma yields_field {A} (f : node -> A) p s n : nodes s !! p = Some n -> yields (field f p) s (f n).
Proof. unfold yields, field. by intros ->. Qed.

Lemma yields_ret {A} (a : A) s : yields (mret a) s a.
Proof. done. Qed.

Lemma yields_root s : yields get_root s (root s).
Proof. done. Qed.

Lemma yields_assert b s : b = true -> yields (lift (assert b)) s tt.
Proof. by intros ->. Qed.

Lemma yields_fuel {A} (f : nat -> st tree_state A) s v :
  yields (f (fuel_of s)) s v -> yields (with_fuel f) s v.
Proof. done. Qed.

Ltac ystep :=
  lazymatch goal with
  | |- yields (mbind _ (field _ _)) _ _ =>
    eapply yields_bind; [eapply yields_field; wlook|]
  | |- yields (mbind _ get_root) _ _ => eapply yields_bind; [apply yields_root|]
  | |- yields (with_fuel _) _ _ => apply yields_fuel
  end; cbn [left right parent color].

Lemma elems_nil t : elems t = [] -> t = E.
Proof. destruct t; [done|]. simpl. by destruct (elems t1). Qed.

Lemma ptr_nil Out np s k t :
  Repr Out np s (plug k t) -> is_nil (ptr t) = bool_decide (t = E).
Proof. intros HR. apply Repr_inv in HR as (_ & _ & _ & Hne & _). by apply is_nil_ptr. Qed.

Lemma Repr_N Out np s k c l a r :
  Repr Out np s (plug k (N c l a r)) ->
  nodes s !! a = Some (mk_node (ptr l) (ptr r) (top k) c) /\ is_nil a = false /\
  Repr Out np s (plug (F true c a r :: k) l) /\ Repr Out np s (plug (F false c a l :: k) r).
Proof.
  intros HR. split; [exact (Repr_elem Out np s k true c l a r HR)|].
  split; [apply is_nil_false; exact (Repr_ne Out np s k true c l a r HR)|]. done.
Qed.

(** ** Iteration *)

Lemma hd_app (A B : list Z) d : A <> [] -> hd d (A ++ B) = hd d A.
Proof. by destruct A. Qed.

Lemma last_app_ne (A B : list Z) d : B <> [] -> List.last (A ++ B) d = List.last B d.
Proof.
  intros HB. induction A as [|a A IH]; [done|]. simpl. rewrite IH.
  destruct (A ++ B) eqn:E0; [|done]. by apply app_nil in E0 as [_ ->].
Qed.

Lemma minimum_loop_ok fuel k T s Out np :
  (length (elems T) < fuel)%nat -> Repr Out np s (plug k T) ->
  yields (minimum_loop fuel (ptr T)) s (hd nil_store (elems T)).
Proof.
  revert k T. induction fuel as [|fuel IH]; intros k T Hf HR; [lia|]. simpl.
  destruct T as [|c l a r]; simpl.
  - pose proof (R_nil _ _ _ _ HR). ystep. done.
  - destruct (Repr_N _ _ _ _ _ _ _ _ HR) as (Ha & _ & Hl & _). ystep.
    rewrite (ptr_nil _ _ _ _ _ Hl). case_bool_decide as El; [by subst|].
    rewrite hd_app by (by intros ?%elems_nil). eapply IH; [|done].
    simpl in Hf. rewrite length_app in Hf. simpl in Hf. lia.
Qed.

Lemma maximum_loop_ok fuel k T s Out np :
  (length (elems T) < fuel)%nat -> Repr Out np s (plug k T) ->
  yields (maximum_loop fuel (ptr T)) s (List.last (elems T) nil_store).
Proof.
  revert k T. induction fuel as [|fuel IH]; intros k T Hf HR; [lia|]. simpl.
  destruct T as [|c l a r]; simpl.
  - pose proof (R_nil _ _ _ _ HR). ystep. done.
  - destruct (Repr_N _ _ _ _ _ _ _ _ HR) as (Ha & _ & _ & Hr). ystep.
    rewrite (ptr_nil _ _ _ _ _ Hr). rewrite last_app_ne by done.
    case_bool_decide as El; [by subst|].
    change (a :: elems r) with ([a] ++ elems r).
    rewrite last_app_ne by (by intros ?%elems_nil). eapply IH; [|done].
    simpl in Hf. rewrite length_app in Hf. simpl in Hf. lia.
Qed.

Lemma climb_right_ok fuel k T s Out np :
  (length k < fuel)%nat -> T <> E -> Repr Out np s (plug k T) ->
  yields (climb_right fuel (ptr T) (top k)) s (hd nil_store (after k)).
Proof.
  revert k T. induction fuel as [|fuel IH]; intros k T Hf HT HR; [lia|]. simpl.
  destruct k as [|[d c a u] k]; [done|]. simpl in HR, Hf |- *.
  pose proof (Repr_elem _ _ _ _ _ _ _ _ _ HR) as Ha.
  rewrite is_nil_false by (by eapply Repr_ne). ystep. destruct d; simpl.
  - rewrite (proj2 (Z.eqb_neq _ _)); [done|]. by eapply (Repr_children_ne Out np s k true).
  - rewrite Z.eqb_refl. ystep. rewrite <- (ptr_sub false c T a u).
    apply IH; [lia|done|done].
Qed.

Lemma climb_left_ok fuel k T s Out np :
  (length k < fuel)%nat -> T <> E -> Repr Out np s (plug k T) ->
  yields (climb_left fuel (ptr T) (top k)) s (List.last (before k) nil_store).
Proof.
  revert k T. induction fuel as [|fuel IH]; intros k T Hf HT HR; [lia|]. simpl.
  destruct k as [|[d c a u] k]; [done|]. simpl in HR, Hf |- *.
  pose proof (Repr_elem _ _ _ _ _ _ _ _ _ HR) as Ha.
  rewrite is_nil_false by (by eapply Repr_ne). ystep. destruct d; simpl.
  - rewrite Z.eqb_refl. ystep. rewrite <- (ptr_sub true c T a u).
    apply IH; [lia|done|done].
  - rewrite (assoc_L (++)), last_app_ne by done.
    rewrite (proj2 (Z.eqb_neq _ _)); [done|]. by eapply (Repr_children_ne Out np s k false).
Qed.

Lemma successor_ok s t A x B Out np :
  Repr Out np s t -> elems t = A ++ x :: B ->
  yields (successor x) s (hd nil_store B).
Proof.
  intros HR He. destruct (focus_split _ _ _ _ _ _ _ HR He) as (k & c & l & r & -> & <- & <-).
  destruct (Repr_N _ _ _ _ _ _ _ _ HR) as (Hx & _ & _ & Hr). unfold successor. ystep.
  rewrite (ptr_nil _ _ _ _ _ Hr). case_bool_decide as Er; simpl.
  - ystep. subst r. simpl. apply yields_fuel.
    apply (climb_right_ok _ k (N c l x E) s Out np); [|done|done].
    pose proof (Repr_fuel _ _ _ _ _ HR). lia.
  - rewrite hd_app by (by intros ?%elems_nil). apply yields_fuel.
    eapply minimum_loop_ok; [|exact Hr]. pose proof (Repr_fuel _ _ _ _ _ Hr). lia.
Qed.

Lemma predecessor_ok s t A x B Out np :
  Repr Out np s t -> elems t = A ++ x :: B ->
  yields (predecessor x) s (List.last A nil_store).
Proof.
  intros HR He. destruct (focus_split _ _ _ _ _ _ _ HR He) as (k & c & l & r & -> & <- & <-).
  destruct (Repr_N _ _ _ _ _ _ _ _ HR) as (Hx & _ & Hl & _). unfold predecessor. ystep.
  rewrite (ptr_nil _ _ _ _ _ Hl). case_bool_decide as El; simpl.
  - ystep. subst l. simpl. rewrite app_nil_r. apply yields_fuel.
    apply (climb_left_ok _ k (N c E x r) s Out np); [|done|done].
    pose proof (Repr_fuel _ _ _ _ _ HR). lia.
  - rewrite last_app_ne by (by intros ?%elems_nil). apply yields_fuel.
    eapply maximum_loop_ok; [|exact Hl]. pose proof (Repr_fuel _ _ _ _ _ Hl). lia.
Qed.

Lemma or_NULL_hd L : nil_store ∉ L ->
  (if is_nil (hd nil_store L) then NULL else hd nil_store L) = hd NULL L.
Proof. destruct L; simpl; [done|]. intros H. rewrite is_nil_false; [done|set_solver]. Qed.

Lemma or_NULL_last L : nil_store ∉ L ->
  (if is_nil (List.last L nil_store) then NULL else List.last L nil_store) = List.last L NULL.
Proof.
  intros H. destruct L as [|x L _] using rev_ind; [done|]. rewrite !List.last_last.
  rewrite is_nil_false; [done|set_solver].
Qed.

Lemma begin_ok s L : tree_of s L -> yields rbtree_begin s (hd NULL L).
Proof.
  intros (t & np & HR & <- & _). unfold rbtree_begin. ystep. rewrite (R_root _ _ _ _ HR).
  rewrite <- or_NULL_hd by apply HR.
  eapply yields_bind; [apply yields_fuel; eapply (minimum_loop_ok _ [] t); [|exact HR]|apply yields_ret].
  pose proof (Repr_fuel _ _ _ [] _ HR). lia.
Qed.

Lemma rbegin_ok s L : tree_of s L -> yields rbtree_rbegin s (List.last L NULL).
Proof.
  intros (t & np & HR & <- & _). unfold rbtree_rbegin. ystep. rewrite (R_root _ _ _ _ HR).
  rewrite <- or_NULL_last by apply HR.
  eapply yields_bind; [apply yields_fuel; eapply (maximum_loop_ok _ [] t); [|exact HR]|apply yields_ret].
  pose proof (Repr_fuel _ _ _ [] _ HR). lia.
Qed.

Lemma next_ok s A x B : tree_of s (A ++ x :: B) -> yields (rbtree_next x) s (hd NULL B).
Proof.
  intros (t & np & HR & He & _). unfold rbtree_next.
  pose proof (R_ne _ _ _ _ HR) as Hne. rewrite He in Hne.
  rewrite <- or_NULL_hd by set_solver.
  eapply yields_bind; [by eapply successor_ok|apply yields_ret].
Qed.

Lemma prev_ok s A x B : tree_of s (A ++ x :: B) -> yields (rbtree_prev x) s (List.last A NULL).
Proof.
  intros (t & np & HR & He & _ & Hnull). unfold rbtree_prev.
  pose proof (R_ne _ _ _ _ HR) as Hne. rewrite He in Hne.
  rewrite <- or_NULL_last by set_solver.
  eapply yields_bind; [apply yields_assert|].
  { rewrite (proj2 (Z.eqb_neq _ _)); [done|]. set_solver. }
  eapply yields_bind; [by eapply predecessor_ok|apply yields_ret].
Qed.

(** The loop [for (e = first; e != NULL; e = step (e))], with the elements it
    visits. *)
Fixpoint visit (fuel : nat) (step : Z -> st tree_state Z) (e : Z) : st tree_state (list Z) :=
  match fuel with
  | O => stop_with NoFuel
  | S fuel =>
    if e =? NULL then mret [] else
    e' ← step e;
    rest ← visit fuel step e';
    mret (e :: rest)
  end.

Lemma visit_next fuel s A B :
  tree_of s (A ++ B) -> (length B < fuel)%nat -> yields (visit fuel rbtree_next (hd NULL B)) s B.
Proof.
  revert A B. induction fuel as [|fuel IH]; intros A B Ht Hf; [lia|]. simpl.
  destruct B as [|x B]; [done|]. simpl in *.
  assert (NULL ∉ A ++ x :: B) as Hn by (by destruct Ht as (? & ? & ? & ? & ? & ?)).
  rewrite (proj2 (Z.eqb_neq _ _)) by set_solver.
  eapply yields_bind; [by eapply next_ok|].
  eapply yields_bind; [|apply yields_ret]. apply (IH (A ++ [x])); [by rewrite <- (assoc_L (++))|lia].
Qed.

Lemma visit_prev fuel s A B :
  tree_of s (A ++ B) -> (length A < fuel)%nat ->
  yields (visit fuel rbtree_prev (List.last A NULL)) s (rev A).
Proof.
  revert A B. induction fuel as [|fuel IH]; intros A B Ht Hf; [lia|].
  destruct A as [|x A _] using rev_ind; [done|].
  rewrite List.last_last, rev_app_distr. simpl.
  rewrite <- (assoc_L (++)) in Ht. simpl in Ht. rewrite length_app in Hf. simpl in Hf.
  assert (NULL ∉ A ++ x :: B) as Hn by (by destruct Ht as (? & ? & ? & ? & ? & ?)).
  rewrite (proj2 (Z.eqb_neq _ _)) by set_solver.
  eapply yields_bind; [by eapply prev_ok|].
  eapply yields_bind; [|apply yields_ret]. apply (IH A (x :: B)); [done|lia].
Qed.

(** Iterating over a tree with [rbtree_begin] and [rbtree_next] visits
    its elements in order and ends; with [rbtree_rbegin] and [rbtree_prev]
    it visits them in reverse order. *)
Theorem rbtree_iteration s L fuel :
  tree_of s L -> (length L < fuel)%nat ->
  (e ← rbtree_begin; visit fuel rbtree_next e) s = Ret (L, s) /\
  (e ← rbtree_rbegin; visit fuel rbtree_prev e) s = Ret (rev L, s).
Proof.
  intros Ht Hf. split.
  - eapply yields_bind; [by apply begin_ok|]. by apply (visit_next fuel s []).
  - eapply yields_bind; [by apply rbegin_ok|]. apply (visit_prev fuel s L []); [|done].
    by rewrite app_nil_r.
Qed.

(** ** Search *)

(** What the comparison has to be: a strict weak order. *)
Class StrictWeakOrder (less : Z -> Z -> bool) : Prop := {
  less_asym x y : less x y = true -> less y x = false;
  less_split x y z : less x z = true -> less x y = true \/ less y z = true;
}.

(** No element is less than one before it. *)
Definition ordered (less : Z -> Z -> bool) : list Z -> Prop :=
  StronglySorted (fun x y => less y x = false).

(** The first element that is not less than [e], and the first that is
    equivalent to it. *)
Fixpoint lower_bound (less : Z -> Z -> bool) (e : Z) (L : list Z) : Z :=
  match L with [] => NULL | x :: L => if less x e then lower_bound less e L else x end.
Definition lookup_equal (less : Z -> Z -> bool) (e : Z) (L : list Z) : Z :=
  let x := lower_bound less e L in if (x =? NULL) || less e x then NULL else x.
Fixpoint ordered_insert (less : Z -> Z -> bool) (e : Z) (L : list Z) : list Z :=
  match L with
  | [] => [e]
  | x :: L' => if less x e then x :: ordered_insert less e L' else e :: L
  end.

Section Search.
Context (less : Z -> Z -> bool) `{Hless : !StrictWeakOrder less}.

Lemma lower_bound_cut e A B :
  Forall (fun x => less x e = true) A -> Forall (fun x => less x e = false) B ->
  lower_bound less e (A ++ B) = hd NULL B.
Proof.
  induction 1 as [|x A Hx HA IH]; simpl.
  - by destruct 1 as [|x B Hx HB]; simpl; rewrite ?Hx.
  - rewrite Hx. auto.
Qed.

Lemma ordered_insert_cut e A B :
  Forall (fun x => less x e = true) A -> Forall (fun x => less x e = false) B ->
  ordered_insert less e (A ++ B) = A ++ e :: B.
Proof.
  induction 1 as [|x A Hx HA IH]; simpl.
  - by destruct 1 as [|x B Hx HB]; simpl; rewrite ?Hx.
  - rewrite Hx. intros HB. by rewrite IH.
Qed.

Lemma less_false_trans x y z : less y x = false -> less z y = false -> less z x = false.
Proof.
  intros H1 H2. destruct (less z x) eqn:E0; [|done].
  destruct (less_split z y x E0); congruence.
Qed.

(** The side taken at every element above the hole. *)
Definition path (e : Z) : list frame -> Prop :=
  Forall (fun f => less (f_elem f) e = negb (f_dir f)).

Lemma path_sides e k T :
  ordered less (elems (plug k T)) -> path e k ->
  Forall (fun x => less x e = true) (before k) /\ Forall (fun x => less x e = false) (after k).
Proof.
  intros Hs Hp. revert T Hs. induction Hp as [|[d c a u] k Hd Hp IH]; intros T Hs; simpl; [done|].
  destruct (IH _ Hs) as [Hb Ha]. simpl in Hs, Hd. rewrite elems_plug in Hs.
  apply StronglySorted_app in Hs as (_ & _ & Hs). apply StronglySorted_app in Hs as (_ & Hs & _).
  rewrite elems_sub in Hs. destruct d; simpl in Hd; split; auto.
  - apply StronglySorted_app_1_r, StronglySorted_cons in Hs as [Hau _].
    constructor; [done|]. apply Forall_app. split; [|done].
    eapply Forall_impl; [exact Hau|]. intros x Hx. simpl in *. by eapply less_false_trans.
  - rewrite !Forall_app, Forall_singleton. split_and!; auto. apply Forall_forall. intros x Hx.
    assert (less a x = false) as Hxa.
    { eapply (StronglySorted_app_1_elem_of _ _ _ x a Hs); [done|set_solver]. }
    destruct (less_split a x e Hd); congruence.
Qed.

Lemma first_equal_ok fuel s A x B e :
  tree_of s (A ++ x :: B) -> (length A < fuel)%nat -> ordered less (A ++ x :: B) ->
  less x e = false -> less e x = false ->
  yields (first_equal_loop less fuel e x) s (lower_bound less e (A ++ x :: B)).
Proof.
  revert A x B. induction fuel as [|fuel IH]; intros A x B Ht Hf Hs H1 H2; [lia|]. simpl.
  pose proof Ht as (t & np & HR & He & _). pose proof (R_ne _ _ _ _ HR) as Hne. rewrite He in Hne.
  eapply yields_bind; [by eapply predecessor_ok|].
  assert (forall v, v = x -> yields (lift (assert (negb (is_nil x)));;
      lift (assert (negb (less e x) && negb (less x e)));; mret x) s v) as Hend.
  { intros v ->. rewrite is_nil_false by set_solver.
    eapply yields_bind; [by apply yields_assert|].
    eapply yields_bind; [|done]. apply yields_assert. by rewrite H1, H2. }
  destruct A as [|y A _] using rev_ind; simpl.
  { apply Hend. by rewrite H1. }
  rewrite List.last_last, <- (assoc_L (++)) in *. simpl in *.
  rewrite (is_nil_false y) by set_solver. simpl.
  pose proof (StronglySorted_app_1_r _ _ _ Hs) as Hs2. apply StronglySorted_cons in Hs2 as [Hy Hs2].
  destruct (less y e) eqn:Ey.
  - apply Hend. rewrite (cons_middle y A), (assoc_L (++)). rewrite lower_bound_cut; [done|..].
    + rewrite Forall_app, Forall_singleton. split; [|done]. apply Forall_forall. intros z Hz.
      assert (less y z = false) as Hyz by (eapply (StronglySorted_app_1_elem_of _ _ _ z y Hs); set_solver).
      destruct (less_split y z e Ey); congruence.
    + apply StronglySorted_cons in Hs2 as [Hx _]. constructor; [done|].
      eapply Forall_impl; [exact Hx|]. intros z Hz. simpl in *. by eapply less_false_trans.
  - assert (less e y = false) as Hey.
    { apply Forall_cons in Hy as [Hxy _]. by eapply less_false_trans. }
    eapply yields_bind; [apply yields_assert; by rewrite Hey|].
    rewrite length_app in Hf. simpl in Hf. apply IH; auto; lia.
Qed.

(** A search goes left only at an element greater than [e]. *)
Definition greater_left (e : Z) : list frame -> Prop :=
  Forall (fun f => f_dir f = true -> less e (f_elem f) = true).

Lemma hd_after e k : greater_left e k -> hd NULL (after k) = NULL \/ less e (hd NULL (after k)) = true.
Proof.
  induction 1 as [|[d c a u] k Hd _ IH]; simpl; [by left|]. destruct d; simpl; auto.
Qed.

Lemma equal_entry_ok s k c l a r e Out np :
  Repr Out np s (plug k (N c l a r)) -> tree_of s (elems (plug k (N c l a r))) ->
  ordered less (elems (plug k (N c l a r))) -> less a e = false -> less e a = false ->
  yields (find_first_equal_entry less e a) s (lower_bound less e (elems (plug k (N c l a r)))).
Proof.
  intros HR Ht Hs H1 H2. pose proof (Repr_size _ _ _ _ HR) as Hf. rewrite elems_plug in *. simpl in *.
  rewrite <- (assoc_L (++)), (assoc_L (++) (before k)) in *. simpl in *.
  apply yields_fuel, first_equal_ok; auto. unfold fuel_of. rewrite length_app in Hf. lia.
Qed.

Lemma lookup_equal_found e x L :
  lower_bound less e L = x -> x <> NULL -> less e x = false -> lookup_equal less e L = x.
Proof. intros Hb Hx H. unfold lookup_equal. rewrite Hb, (proj2 (Z.eqb_neq _ _)), H; done. Qed.

Lemma lower_bound_elem e L x :
  x ∈ L -> less x e = false -> ordered less L -> less e x = false ->
  lower_bound less e L ∈ L /\ less e (lower_bound less e L) = false.
Proof.
  intros Hx H1 Hs H2. induction L as [|y L IH]; [set_solver|]. simpl.
  apply StronglySorted_cons in Hs as [Hy Hs]. apply elem_of_cons in Hx as [-> |Hx].
  - rewrite H1. split; [set_solver|done].
  - destruct (less y e) eqn:Ey.
    + destruct (IH Hx Hs). split; [set_solver|done].
    + split; [set_solver|]. rewrite Forall_forall in Hy. specialize (Hy x Hx).
      by eapply less_false_trans.
Qed.

Lemma find_loop_ok fuel k T s e Out np :
  (length (elems T) < fuel)%nat -> Repr Out np s (plug k T) -> tree_of s (elems (plug k T)) ->
  ordered less (elems (plug k T)) -> path e k -> greater_left e k ->
  yields (find_loop less fuel e (ptr T)) s (lookup_equal less e (elems (plug k T))).
Proof.
  revert k T. induction fuel as [|fuel IH]; intros k T Hf HR Ht Hs Hp Hg; [lia|]. simpl.
  destruct T as [|c l a r]; simpl.
  - destruct (path_sides _ _ _ Hs Hp) as [Hb Ha]. rewrite elems_plug. unfold lookup_equal. simpl.
    rewrite lower_bound_cut by done. destruct (hd_after _ _ Hg) as [-> | ->]; [done|].
    by rewrite orb_true_r.
  - destruct (Repr_N _ _ _ _ _ _ _ _ HR) as (Ha & -> & Hl & Hr).
    simpl in Hf. rewrite length_app in Hf. simpl in Hf.
    destruct (less a e) eqn:E1.
    { ystep. apply (IH (F false c a l :: k)); auto; [lia|..]; by constructor. }
    destruct (less e a) eqn:E2.
    { ystep. apply (IH (F true c a r :: k)); auto; [lia|..]; by constructor. }
    pose proof (equal_entry_ok s k c l a r e Out np HR Ht Hs E1 E2) as H.
    assert (a ∈ elems (plug k (N c l a r))) as Hin by (rewrite elems_plug; set_solver).
    destruct (lower_bound_elem e _ a Hin E1 Hs E2) as [Hin2 H2].
    erewrite lookup_equal_found; [exact H|done| |done].
    intros Hn. rewrite Hn in Hin2. by destruct Ht as (? & ? & ? & ? & ? & ?).
Qed.

Lemma find_first_loop_ok fuel k T s e Out np :
  (length (elems T) < fuel)%nat -> Repr Out np s (plug k T) -> tree_of s (elems (plug k T)) ->
  ordered less (elems (plug k T)) -> path e k -> greater_left e k ->
  yields (find_first_loop less fuel e (ptr T) (hd NULL (after k))) s
    (lower_bound less e (elems (plug k T))).
Proof.
  revert k T. induction fuel as [|fuel IH]; intros k T Hf HR Ht Hs Hp Hg; [lia|]. simpl.
  destruct T as [|c l a r]; simpl.
  - destruct (path_sides _ _ _ Hs Hp) as [Hb Ha]. rewrite elems_plug. simpl.
    rewrite lower_bound_cut by done. eapply yields_bind; [apply yields_assert|done].
    destruct (hd_after _ _ Hg) as [-> | ->]; [done|apply orb_true_r].
  - destruct (Repr_N _ _ _ _ _ _ _ _ HR) as (Ha & -> & Hl & Hr).
    simpl in Hf. rewrite length_app in Hf. simpl in Hf.
    destruct (less a e) eqn:E1.
    { ystep. apply (IH (F false c a l :: k)); auto; [lia|..]; by constructor. }
    destruct (less e a) eqn:E2.
    { ystep. apply (IH (F true c a r :: k)); auto; [lia|..]; by constructor. }
    by eapply equal_entry_ok.
Qed.

Lemma search_ok s L e :
  tree_of s L -> ordered less L ->
  rbtree_find less e s = Ret (lookup_equal less e L, s) /\
  rbtree_find_first less e s = Ret (lower_bound less e L, s).
Proof.
  intros Ht Hs. pose proof Ht as (t & np & HR & <- & _).
  pose proof (Repr_fuel _ _ _ [] _ HR) as Hf. simpl in Hf.
  unfold rbtree_find, rbtree_find_first. split; (eapply yields_bind; [apply yields_root|]);
    rewrite (R_root _ _ _ _ HR); apply yields_fuel.
  - eapply (find_loop_ok _ [] t); eauto; [lia|by constructor..].
  - eapply (find_first_loop_ok _ [] t); eauto; [lia|by constructor..].
Qed.

End Search.

(** ** Insertion *)

Section Insert.
Context (less : Z -> Z -> bool).

Lemma node_insert_loop_ok fuel k T e p s Out np :
  (length (elems T) < fuel)%nat -> T <> E -> Repr Out np s (plug k T) ->
  e ∉ elems (plug k T) -> e <> nil_store -> nodes s !! e = Some (mk_node nil_store nil_store p RED) ->
  path less e k ->
  wp (node_insert_loop less fuel (ptr T) e) s (fun _ s' => exists k',
    plug k' E = plug k T /\ path less e k' /\ Repr Out np s' (plug k' (N RED E e E))).
Proof.
  revert k T. induction fuel as [|fuel IH]; intros k T Hf HT HR He Hen Hs Hp; [lia|]. simpl.
  destruct T as [|c l a r]; [done|]. simpl.
  destruct (Repr_N _ _ _ _ _ _ _ _ HR) as (Ha & Hna & Hl & Hr).
  simpl in Hf. rewrite length_app in Hf. simpl in Hf.
  wstep. apply wp_assert; [by rewrite Hna|]. destruct (less a e) eqn:E1.
  - wstep. wstep. rewrite (ptr_nil _ _ _ _ _ Hr). case_bool_decide as Er.
    + subst r. apply (wp_attach false c a l k e p s Out np); [exact HR|exact He|done|done|].
      intros s' HR' _. exists (F false c a l :: k). split_and!; [done|by constructor|done].
    + apply (IH (F false c a l :: k)); auto; [lia|by constructor].
  - wstep. wstep. rewrite (ptr_nil _ _ _ _ _ Hl). case_bool_decide as Er.
    + subst l. apply (wp_attach true c a r k e p s Out np); [exact HR|exact He|done|done|].
      intros s' HR' _. exists (F true c a r :: k). split_and!; [done|by constructor|done].
    + apply (IH (F true c a r :: k)); auto; [lia|by constructor].
Qed.

Lemma node_insert_ok s t e Out np :
  Repr Out np s t -> balanced t -> e ∉ elems t -> e <> nil_store ->
  nodes s !! e = Some (mk_node nil_store nil_store nil_store RED) ->
  wp (node_insert less e) s (fun _ s' => exists k t',
    plug k E = t /\ path less e k /\ Repr Out np s' t' /\
    elems t' = before k ++ e :: after k /\ balanced t').
Proof.
  intros HR Hb He Hen Hn. unfold node_insert. wstep. wstep. wstep.
  apply wp_mono with (Q := fun _ s' => exists k, plug k E = t /\ path less e k /\
    Repr Out np s' (plug k (N RED E e E))).
  - rewrite (R_root _ _ _ _ HR), (ptr_nil _ _ _ [] _ HR). case_bool_decide as Et.
    + subst t. apply wp_set_root. exists []. split_and!; [done|by constructor|].
      by apply Repr_single.
    + wstep. apply (node_insert_loop_ok _ [] t e nil_store); auto; [|by constructor].
      pose proof (Repr_fuel _ _ _ [] _ HR). simpl in *. lia.
  - intros _ s' (k & Hk & Hp & HR'). eapply wp_mono; [apply rb_insert_ok; [exact HR'|]|].
    + rewrite <- Hk in Hb. apply balanced_plug in Hb as (_ & n & Hn0 & Hrk). simpl in Hn0. by subst n.
    + intros _ s'' (t' & HR'' & He' & Hb'). exists k, t'. split_and!; auto.
      rewrite He', elems_plug. done.
Qed.

Lemma insert_elem_ok s L e :
  tree_of s L -> e ∉ L -> e <> nil_store -> e <> NULL -> is_Some (nodes s !! e) ->
  wp (rbtree_insert less e) s (fun _ s' => exists k,
    L = elems (plug k E) /\ path less e k /\ tree_of s' (before k ++ e :: after k) /\
    same_outside (e :: L) s s').
Proof.
  intros (t & np & HR & <- & Hb & Hnull) He Hen Henull [n Hn]. unfold rbtree_insert.
  do 8 wstep. rewrite !insert_insert_eq.
  set (R := with_color RED _). assert (R = mk_node nil_store nil_store nil_store RED) as -> by done.
  eapply wp_mono; [eapply node_insert_ok; [by apply Repr_insert_out|done..|by simplify_map_eq]|].
  intros _ s' (k & t' & <- & Hp & HR' & He' & Hb'). exists k.
  rewrite elems_plug in He, Hnull. simpl in *. split_and!; auto.
  - exists t', np. split_and!; auto; [|set_solver]. eapply Repr_Out; [exact HR'|done].
  - intros x Hx Hxn. rewrite elems_plug in Hx. simpl in Hx.
    rewrite (R_out _ _ _ _ HR') by (rewrite ?He'; set_solver).
    rewrite override_ne by set_solver. done.
Qed.

End Insert.

Lemma insert_ok less (Hless : StrictWeakOrder less) s L e :
  tree_of s L -> e ∉ L -> e <> nil_store -> e <> NULL -> is_Some (nodes s !! e) ->
  ordered less L ->
  wp (rbtree_insert less e) s (fun _ s' =>
    tree_of s' (ordered_insert less e L) /\ same_outside (e :: L) s s').
Proof.
  intros Ht He Hen Henull Hs Ho. eapply wp_mono; [by apply insert_elem_ok|].
  intros _ s' (k & -> & Hp & Ht' & Hout). split; [|done].
  destruct (path_sides less _ _ _ Ho Hp) as [H1 H2]. rewrite elems_plug. simpl.
  by rewrite ordered_insert_cut.
Qed.

(** ** Deletion *)

Lemma wp_bind2 {A B C} (m1 : st tree_state A) (m2 : st tree_state B) (f : B -> st tree_state C) s Q :
  wp (m1;; m2) s (fun b s' => wp (f b) s' Q) -> wp (m1;; (b ← m2; f b)) s Q.
Proof.
  unfold wp, mbind, st_bind. destruct (m1 s) as [[a s1]|]; [|done].
  by destruct (m2 s1) as [[b s2]|].
Qed.

(** The first part of [node_delete]: element [b], with one child at most,
    leaves the tree. *)
Definition unlink (b : Z) (rest : st tree_state unit) : st tree_state unit :=
  dl ← field left b;
  child ← (if negb (is_nil dl) then mret dl else field right b);
  par ← field parent b;
  set_parent child par;;
  (if is_nil par then set_root child else
   pl ← field left par;
   if b =? pl then set_left par child else set_right par child);;
  dc ← field color b;
  cond (negb dc) (rb_delete_fixup child) (mret tt);;
  rest.

Lemma unlink_ok d c T b k s Out np rest Q :
  Repr Out np s (plug k (sub d c T b E)) -> balanced (plug k (sub d c T b E)) ->
  (forall s' t' np' n, Repr (override b n Out) np' s' t' ->
    elems t' = before k ++ elems T ++ after k -> balanced t' -> wp rest s' Q) ->
  wp (unlink b rest) s Q.
Proof.
  intros HR Hb HQ. pose proof (Repr_elem _ _ _ _ _ _ _ _ _ HR) as Hbn. unfold unlink.
  assert (is_nil (ptr T) = bool_decide (T = E)) as HTE
    by (apply (ptr_nil Out np s (F d c b E :: k)), HR).
  wstep. wstep. wstep. apply wp_mono with (Q := fun q s' => q = ptr T /\ s' = s).
  { destruct d; simpl; [rewrite HTE; case_bool_decide; subst; simpl; [wstep|]; done|].
    wstep. done. }
  intros _ _ [-> ->]. wstep. wstep. rewrite parent_rec. apply wp_bind2.
  apply (wp_unlink d c T b k s Out np); [exact HR|]. clear Hbn.
  intros s1 n HR1 Hn Hcn. wstep. wstep. rewrite Hcn. wstep.
  apply balanced_plug in Hb as (Hfit & m & Hm & Hk). rewrite red_sub in Hfit.
  destruct c; simpl.
  - apply rb_sub in Hm as (Hr & _ & HT & _). apply wp_ret. eapply HQ; [exact HR1|apply elems_plug|].
    apply balanced_plug. rewrite Hr. split; [apply fits_black|]. by exists m.
  - apply rb_sub in Hm as (m' & -> & HT & _).
    eapply wp_mono; [eapply rb_delete_fixup_ok; [exact HR1| |done|done]|].
    { intros ->. done. }
    intros _ s2 (t' & HR2 & He & Hb). eapply HQ; [exact HR2| |done]. by rewrite He, elems_plug.
Qed.

Lemma leftmost r : r <> E -> exists k c b u, r = plug k (N c E b u) /\ before k = [].
Proof.
  induction r as [|c l IH a u _]; [done|]. intros _. destruct (decide (l = E)) as [-> |Hl].
  - by exists [], c, a, u.
  - destruct (IH Hl) as (k & c' & b & u' & -> & Hk).
    exists (k ++ [F true c a u]), c', b, u'. rewrite plug_app. split; [done|].
    by rewrite before_app.
Qed.

Lemma balanced_rename k c l a b r :
  balanced (plug k (N c l a r)) -> balanced (plug k (N c l b r)).
Proof. rewrite !balanced_plug. simpl. done. Qed.

Definition replace_deleted (delnode node : Z) : st tree_state unit :=
  cond (negb (delnode =? node))
    (rbtree_elem_replace delnode node;;
     set_right node nil_store;;
     set_left node nil_store;;
     set_parent node nil_store)
    (mret tt).

Lemma node_delete_unlink node :
  node_delete node =
    nl ← field left node;
    nr ← field right node;
    delnode ← (if is_nil nl || is_nil nr then mret node else successor node);
    unlink delnode (replace_deleted delnode node).
Proof. reflexivity. Qed.

(** What the deletion of [e] leaves. *)
Definition deleted (e : Z) (L L' : list Z) (s s' : tree_state) : Prop :=
  tree_of s' L' /\ same_outside L s s' /\ is_Some (nodes s' !! e).

Lemma deleted_intro e n L L' s s' t Out np :
  Repr Out np s' t -> elems t = L' -> balanced t -> NULL ∉ L ->
  (forall x, x ∈ L' -> x ∈ L) -> (forall x, x ∉ L -> Out x = nodes s !! x) ->
  nodes s' !! e = Some n -> deleted e L L' s s'.
Proof.
  intros HR <- Hb Hn Hsub Hout He. split_and!; [| |eauto].
  - exists t, np. split_and!; auto. by eapply Repr_Out.
  - intros x Hx Hxn. rewrite (R_out _ _ _ _ HR); auto.
Qed.

(** [b] takes the place of [a], which is left with empty links. *)
Lemma replace_deleted_ok a b A B t s s0 n Out np :
  Repr (override b n Out) np s t -> balanced t -> elems t = A ++ a :: B ->
  b ∉ elems t -> b <> nil_store -> NULL ∉ A ++ a :: b :: B ->
  (forall x, Out x = nodes s0 !! x) ->
  wp (replace_deleted b a) s (fun _ => deleted a (A ++ a :: b :: B) (A ++ b :: B) s0).
Proof.
  intros HR Hb He Hbt Hbn Hnull Hout. unfold replace_deleted.
  rewrite (proj2 (Z.eqb_neq _ _)) by (intros ->; rewrite He in Hbt; set_solver). simpl.
  destruct (focus_split _ _ _ _ _ _ _ HR He) as (k & c & l & r & -> & HA & HB). wstep.
  eapply (wp_replace k c l a r b); [exact HR|done|done|apply override_eq|]. intros s1 na HR1.
  assert (elems (plug k (N c l b r)) = A ++ b :: B) as He1.
  { rewrite elems_plug, <- HA, <- HB. simpl. by rewrite <- !(assoc_L (++)). }
  assert (a ∉ A ++ b :: B) as Ha.
  { pose proof (R_nodup _ _ _ _ HR) as Hnd. rewrite He in Hnd, Hbt. nodups. set_solver. }
  assert (a <> nil_store) as Han.
  { pose proof (R_ne _ _ _ _ HR) as Hne. rewrite He in Hne. set_solver. }
  assert (nodes s1 !! a = Some na) as Hna.
  { rewrite (R_out _ _ _ _ HR1) by (rewrite ?He1; done). apply override_eq. }
  do 5 wstep. rewrite !insert_insert_eq.
  eapply deleted_intro.
  - apply (Repr_insert_out a _ s1 _ np _ HR1); [by rewrite He1|done].
  - done.
  - by eapply balanced_rename.
  - done.
  - set_solver.
  - intros x Hx. rewrite !override_ne by set_solver. apply Hout.
  - apply lookup_insert_eq.
Qed.

Lemma delete_ok s A e B :
  tree_of s (A ++ e :: B) ->
  wp (rbtree_delete e) s (fun _ => deleted e (A ++ e :: B) (A ++ B) s).
Proof.
  intros (t & np & HR & He & Hb & Hnull). unfold rbtree_delete. rewrite node_delete_unlink.
  destruct (focus_split _ _ _ _ _ _ _ HR He) as (k & c & l & r & -> & HA & HB).
  destruct (Repr_N _ _ _ _ _ _ _ _ HR) as (Hx & Hnx & Hl & Hr).
  wstep. wstep. wstep. wstep. rewrite (ptr_nil _ _ _ _ _ Hl), (ptr_nil _ _ _ _ _ Hr). wstep.
  assert (forall d T, N c l e r = sub d c T e E -> elems T = elems l ++ elems r ->
    wp (unlink e (replace_deleted e e)) s (fun _ => deleted e (A ++ e :: B) (A ++ B) s)) as Hone.
  { intros d T HT HeT. rewrite HT in HR, Hb. eapply unlink_ok; [exact HR|exact Hb|].
    intros s' t' np' n HR' He' Hb'. unfold replace_deleted. rewrite Z.eqb_refl. apply wp_ret.
    assert (elems t' = A ++ B) as He2.
    { rewrite He', HeT, <- HA, <- HB. by rewrite <- !(assoc_L (++)). }
    eapply deleted_intro; [exact HR'|exact He2|done|done|set_solver|..].
    - intros x Hx0. by rewrite override_ne by set_solver.
    - rewrite (R_out _ _ _ _ HR'); [apply override_eq|rewrite He2|by apply Z.eqb_neq].
      pose proof (R_nodup _ _ _ _ HR) as Hnd. rewrite <- HT, He in Hnd. nodups. set_solver. }
  destruct (decide (l = E)) as [El|El]; [|destruct (decide (r = E)) as [Er|Er]].
  - rewrite (bool_decide_true (l = E)) by done. apply wp_ret, (Hone false r); by subst.
  - rewrite (bool_decide_true (r = E)), orb_true_r by done. apply wp_ret, (Hone true l); subst; [done|].
    by rewrite app_nil_r.
  - rewrite !bool_decide_false by done. simpl. clear Hone Hx Hnx.
    eapply wp_yields; [by eapply successor_ok|].
    destruct (leftmost r Er) as (kr & cb & b & u & -> & Hkr). rewrite elems_plug, Hkr in HB.
    simpl in HB. subst B. simpl.
    assert (plug k (N c l e (plug kr (N cb E b u))) =
            plug (kr ++ F false c e l :: k) (sub false cb u b E)) as Hplug by (by rewrite plug_app).
    rewrite Hplug in HR, Hb. pose proof (R_nodup _ _ _ _ HR) as Hnd.
    pose proof (R_ne _ _ _ _ HR) as Hne. rewrite <- Hplug, He in Hnd, Hne.
    eapply unlink_ok; [exact HR|exact Hb|]. intros s' t' np' n HR' He' Hb'.
    rewrite before_app, after_app, Hkr, app_nil_r in He'. simpl in He'.
    assert (elems t' = A ++ e :: (elems u ++ after kr) ++ after k) as He2.
    { rewrite He', <- HA. by rewrite <- !(assoc_L (++)). }
    eapply replace_deleted_ok; [exact HR'|done|exact He2| |set_solver|done|done].
    rewrite He2. nodups. set_solver.
Qed.
