(* ===== verification/RbtreeOps.v ===== *)
(** * Sequences of operations on red-black trees

    Any series of lawful calls of [lib/rbtree.c], starting with
    [rbtree_init], behaves as the same series on an ordered list; the height
    stays logarithmic and the consistency check of the library passes. *)

From Stdlib Require Import ZArith Lia Bool.
From stdpp Require Import base gmap list sorting.
From S2P Require Import Prelude Rbtree RbtreeMem RbtreeBalance RbtreeSpec.

(** ** The abstract operations *)

Inductive op :=
| Insert (e : Z)
| Delete (e : Z)
| Find (e : Z)
| FindFirst (e : Z)
| Begin
| Next (e : Z)
| Rbegin
| Prev (e : Z).

(** The element after [e]. *)
Fixpoint next_in (e : Z) (L : list Z) : Z :=
  match L with [] => NULL | x :: L => if x =? e then hd NULL L else next_in e L end.

Fixpoint without (e : Z) (L : list Z) : list Z :=
  match L with [] => [] | x :: L => if x =? e then L else x :: without e L end.

Section Operations.
Context (less : Z -> Z -> bool) `{Hless : !StrictWeakOrder less}.

(** The calls; those without a result give NULL. *)
Definition exec (o : op) : st tree_state Z :=
  match o with
  | Insert e => rbtree_insert less e;; mret NULL
  | Delete e => rbtree_delete e;; mret NULL
  | Find e => rbtree_find less e
  | FindFirst e => rbtree_find_first less e
  | Begin => rbtree_begin
  | Next e => rbtree_next e
  | Rbegin => rbtree_rbegin
  | Prev e => rbtree_prev e
  end.

(** The same on lists; [None] if the call is not lawful.  [U] has the
    elements that memory is allocated for. *)
Definition spec (U : gset Z) (o : op) (L : list Z) : option (Z * list Z) :=
  match o with
  | Insert e => if decide (e ∈ U /\ e ∉ L) then Some (NULL, ordered_insert less e L) else None
  | Delete e => if decide (e ∈ L) then Some (NULL, without e L) else None
  | Find e => Some (lookup_equal less e L, L)
  | FindFirst e => Some (lower_bound less e L, L)
  | Begin => Some (hd NULL L, L)
  | Next e => if decide (e ∈ L) then Some (next_in e L, L) else None
  | Rbegin => Some (List.last L NULL, L)
  | Prev e => if decide (e ∈ L) then Some (next_in e (rev L), L) else None
  end.

Fixpoint exec_all (os : list op) : st tree_state (list Z) :=
  match os with
  | [] => mret []
  | o :: os => v ← exec o; vs ← exec_all os; mret (v :: vs)
  end.
Fixpoint spec_all (U : gset Z) (os : list op) (L : list Z) : option (list Z * list Z) :=
  match os with
  | [] => Some ([], L)
  | o :: os =>
    '(v, L1) ← spec U o L; '(vs, L2) ← spec_all U os L1; Some (v :: vs, L2)
  end.

(** The simulation relation. *)
Record sim (U : gset Z) (s : tree_state) (L : list Z) : Prop := {
  sim_tree : tree_of s L;
  sim_ordered : ordered less L;
  sim_alloc : forall x, x ∈ U -> is_Some (nodes s !! x);
  sim_ne : nil_store ∉ U /\ NULL ∉ U;
}.

(** ** Lists *)

Lemma ordered_insert_elem e L x : x ∈ ordered_insert less e L <-> x = e \/ x ∈ L.
Proof.
  induction L as [|y L IH]; simpl; [set_solver|]. destruct (less y e); set_solver.
Qed.

Lemma ordered_insert_ordered e L : ordered less L -> ordered less (ordered_insert less e L).
Proof.
  induction 1 as [|x L HL IH Hx]; simpl; [repeat constructor|]. destruct (less x e) eqn:Ex.
  - constructor; [done|]. apply Forall_forall. intros y [-> |Hy]%ordered_insert_elem.
    + by apply less_asym.
    + by eapply Forall_forall in Hx.
  - constructor; [by constructor|]. constructor; [done|].
    eapply Forall_impl; [exact Hx|]. intros y Hy. simpl in *. by eapply less_false_trans.
Qed.

Lemma without_elem e L x : x ∈ without e L -> x ∈ L.
Proof. induction L as [|y L IH]; simpl; [done|]. destruct (y =? e); set_solver. Qed.

Lemma without_ordered e L : ordered less L -> ordered less (without e L).
Proof.
  induction 1 as [|x L HL IH Hx]; simpl; [constructor|]. destruct (x =? e); [done|].
  constructor; [done|]. apply Forall_forall. intros y Hy%without_elem.
  by eapply Forall_forall in Hx.
Qed.

Lemma next_in_split A e B : e ∉ A -> next_in e (A ++ e :: B) = hd NULL B.
Proof.
  induction A as [|x A IH]; simpl; intros Hx; [by rewrite Z.eqb_refl|].
  rewrite (proj2 (Z.eqb_neq _ _)) by set_solver. apply IH. set_solver.
Qed.

Lemma without_split A e B : e ∉ A -> without e (A ++ e :: B) = A ++ B.
Proof.
  induction A as [|x A IH]; simpl; intros Hx; [by rewrite Z.eqb_refl|].
  rewrite (proj2 (Z.eqb_neq _ _)) by set_solver. f_equal. apply IH. set_solver.
Qed.

Lemma tree_of_nodup s L : tree_of s L -> NoDup L.
Proof. intros (t & np & HR & <- & _). apply HR. Qed.

(** An element of the tree, with what is before and after it. *)
Lemma sim_split U s L e :
  sim U s L -> e ∈ L -> exists A B, L = A ++ e :: B /\ e ∉ A /\ e ∉ B.
Proof.
  intros [Ht _ _ _] (A & B & ->)%list_elem_of_split. exists A, B. split; [done|].
  apply tree_of_nodup in Ht. nodups. set_solver.
Qed.

Lemma hd_rev (A : list Z) d : hd d (rev A) = List.last A d.
Proof.
  destruct A as [|x A _] using rev_ind; [done|]. by rewrite rev_app_distr, List.last_last.
Qed.

Lemma tree_of_alloc s L x : tree_of s L -> x ∈ L -> is_Some (nodes s !! x).
Proof. intros (t & np & HR & <- & _) Hx. by eapply rep_dom; [apply HR|]. Qed.

(** ** Simulation *)

Lemma sim_insert U s L e :
  sim U s L -> e ∈ U -> e ∉ L ->
  wp (rbtree_insert less e) s (fun _ s' => sim U s' (ordered_insert less e L)).
Proof.
  intros [Ht Ho Ha [Hn1 Hn2]] HeU HeL.
  eapply wp_mono; [eapply insert_ok; eauto; intros ->; done|].
  intros _ s' [Ht' Hout]. split; auto; [by apply ordered_insert_ordered|].
  intros x Hx. destruct (decide (x ∈ ordered_insert less e L)) as [Hin|Hin];
    [by eapply tree_of_alloc|].
  rewrite Hout; [auto| |by intros ->]. rewrite ordered_insert_elem in Hin. set_solver.
Qed.

Lemma sim_delete U s L e :
  sim U s L -> e ∈ L -> wp (rbtree_delete e) s (fun _ s' => sim U s' (without e L)).
Proof.
  intros Hsim He. destruct (sim_split _ _ _ _ Hsim He) as (A & B & -> & HeA & HeB).
  destruct Hsim as [Ht Ho Ha Hne].
  eapply wp_mono; [by apply delete_ok|]. intros _ s' (Ht' & Hout & Hes).
  assert (ordered less (without e (A ++ e :: B))) as Ho' by (by apply without_ordered).
  rewrite without_split in * by done. split; auto.
  intros x Hx. destruct (decide (x ∈ A ++ B)) as [Hin|Hin]; [by eapply tree_of_alloc|].
  destruct (decide (x = e)) as [-> |]; [done|]. rewrite Hout; [auto|set_solver|].
  intros ->. by destruct Hne.
Qed.

Lemma sim_exec U s L o v L' :
  sim U s L -> spec U o L = Some (v, L') ->
  exists s', exec o s = Ret (v, s') /\ sim U s' L'.
Proof.
  intros Hsim Hspec. pose proof Hsim as [Ht Ho Ha Hne].
  assert (forall m : st tree_state Z, yields m s v -> L' = L ->
    exists s', m s = Ret (v, s') /\ sim U s' L') as Hread by (intros m Hm ->; eauto).
  assert (forall m : st tree_state unit, wp m s (fun _ s' => sim U s' L') -> v = NULL ->
    exists s', (m;; mret NULL) s = Ret (v, s') /\ sim U s' L') as Hwrite.
  { intros m Hm ->. unfold wp in Hm. unfold mbind, st_bind.
    destruct (m s) as [[u s']|]; [|done]. by exists s'. }
  destruct o; simpl in *; repeat case_decide; simplify_eq.
  - apply Hwrite; [|done]. destruct_and?. by apply sim_insert.
  - apply Hwrite; [|done]. by apply sim_delete.
  - apply Hread; [|done]. by apply search_ok.
  - apply Hread; [|done]. by apply search_ok.
  - apply Hread; [|done]. by apply begin_ok.
  - apply Hread; [|done]. destruct (sim_split _ _ _ _ Hsim H) as (A & B & -> & HA & HB).
    rewrite next_in_split by done. by eapply next_ok.
  - apply Hread; [|done]. by apply rbegin_ok.
  - apply Hread; [|done]. destruct (sim_split _ _ _ _ Hsim H) as (A & B & -> & HA & HB).
    rewrite rev_app_distr. simpl. rewrite <- (assoc_L (++)). simpl.
    rewrite next_in_split by (by rewrite list_elem_of_In, <- in_rev, <- list_elem_of_In). rewrite hd_rev. by eapply prev_ok.
Qed.

Lemma sim_exec_all U os : forall s L vs L',
  sim U s L -> spec_all U os L = Some (vs, L') ->
  exists s', exec_all os s = Ret (vs, s') /\ sim U s' L'.
Proof.
  induction os as [|o os IH]; intros s L vs L' Hsim Hspec; simpl in *; simplify_eq; [by exists s|].
  destruct (spec U o L) as [[v L1]|] eqn:E1; [|done]. simpl in Hspec.
  destruct (spec_all U os L1) as [[vs1 L2]|] eqn:E2; [|done]. simpl in Hspec. simplify_eq.
  destruct (sim_exec _ _ _ _ _ _ Hsim E1) as (s1 & Hs1 & Hsim1).
  destruct (IH _ _ _ _ Hsim1 E2) as (s2 & Hs2 & Hsim2). exists s2. split; [|done].
  unfold mbind, st_bind. rewrite Hs1, Hs2. done.
Qed.

Lemma sim_init U s :
  (forall x, x ∈ U -> is_Some (nodes s !! x)) -> nil_store ∉ U -> NULL ∉ U ->
  exists s', rbtree_init s = Ret (tt, s') /\ sim U s' [].
Proof.
  intros HU Hn1 Hn2. eexists. split; [done|]. split; auto; [|constructor|].
  - exists E, nil_store. split_and!; [|done|by split; [|exists O]|set_solver].
    constructor; simpl; auto; [by simplify_map_eq|constructor|set_solver].
  - intros x Hx. simpl. apply HU in Hx as [n Hn].
    destruct (decide (x = nil_store)) as [-> |]; [by rewrite lookup_insert_eq; eauto|].
    by rewrite lookup_insert_ne, Hn by done.
Qed.

End Operations.

(** ** Height *)

Fixpoint depth (t : tree) : nat :=
  match t with E => O | N _ l _ r => S (Nat.max (depth l) (depth r)) end.

Lemma rb_size n t : rb n t -> (2 ^ n <= length (elems t) + 1)%nat.
Proof.
  revert n. induction t as [|[] l IHl a r IHr]; intros n; simpl; [by intros ->| |].
  - intros (_ & _ & Hl & _). rewrite length_app. simpl. specialize (IHl _ Hl). lia.
  - destruct n as [|n]; [done|]. intros [Hl Hr]. rewrite length_app. simpl.
    specialize (IHl _ Hl). specialize (IHr _ Hr). lia.
Qed.

Lemma rb_depth n t : rb n t -> (depth t <= 2 * n + (if red t then 1 else 0))%nat.
Proof.
  revert n. induction t as [|[] l IHl a r IHr]; intros n; simpl; [lia| |].
  - intros (Hl & Hr & Bl & Br). specialize (IHl _ Bl). specialize (IHr _ Br).
    rewrite Hl in IHl. rewrite Hr in IHr. simpl in *. lia.
  - destruct n as [|n]; [done|]. intros [Bl Br]. specialize (IHl _ Bl). specialize (IHr _ Br).
    destruct (red l), (red r); lia.
Qed.

Lemma depth_size t : (length (elems t) + 1 <= 2 ^ depth t)%nat.
Proof.
  induction t as [|c l IHl a r IHr]; simpl; [lia|]. rewrite length_app. simpl.
  assert (2 ^ depth l <= 2 ^ Nat.max (depth l) (depth r))%nat by (apply Nat.pow_le_mono_r; lia).
  assert (2 ^ depth r <= 2 ^ Nat.max (depth l) (depth r))%nat by (apply Nat.pow_le_mono_r; lia).
  lia.
Qed.

Lemma depth_le t : (depth t <= length (elems t))%nat.
Proof. induction t; simpl; [lia|]. rewrite length_app. simpl. lia. Qed.

Lemma height_ok fuel k T s Out np :
  (length (elems T) < fuel)%nat -> Z.of_nat (length (elems T)) < 2 ^ 32 ->
  Repr Out np s (plug k T) -> yields (height fuel (ptr T)) s (Z.of_nat (depth T)).
Proof.
  revert k T. induction fuel as [|fuel IH]; intros k T Hf Hw HR; [lia|]. simpl.
  destruct T as [|c l a r]; [done|]. destruct (Repr_N _ _ _ _ _ _ _ _ HR) as (Ha & Hna & Hl & Hr).
  simpl in Hf, Hw |- *. rewrite Hna. rewrite length_app in Hf, Hw. simpl in Hf, Hw.
  ystep. eapply yields_bind; [eapply IH; [| |exact Hl]; lia|].
  ystep. eapply yields_bind; [eapply IH; [| |exact Hr]; lia|].
  pose proof (depth_le l). pose proof (depth_le r).
  replace (Z.of_nat (S _)) with (wrap 32 (Z.of_nat (depth l) `max` Z.of_nat (depth r) + 1));
    [done|]. unfold wrap. rewrite Z.mod_small; lia.
Qed.

Lemma log2_of_nat_bounds (n d b : nat) :
  (n + 1 <= 2 ^ d)%nat -> (2 ^ b <= n + 1)%nat -> (d <= 2 * b)%nat ->
  Z.log2 (Z.of_nat n + 1) <= Z.of_nat d <= 2 * Z.log2 (Z.of_nat n + 1).
Proof.
  intros H1 H2 H3. assert (Z.of_nat n + 1 <= 2 ^ Z.of_nat d) as H1'.
  { rewrite <- (Nat2Z.inj_pow 2). lia. }
  assert (2 ^ Z.of_nat b <= Z.of_nat n + 1) as H2' by (rewrite <- (Nat2Z.inj_pow 2); lia).
  apply Z.log2_le_mono in H1'. apply Z.log2_le_mono in H2'.
  rewrite !Z.log2_pow2 in * by lia. lia.
Qed.

(** The height of a tree, as [rbtree_height] computes it, is logarithmic
    in the number of elements: at most twice what it must be. *)
Theorem rbtree_height_bound s L :
  tree_of s L -> Z.of_nat (length L) < 2 ^ 32 ->
  exists h, rbtree_height s = Ret (h, s) /\
    Z.log2 (Z.of_nat (length L) + 1) <= h <= 2 * Z.log2 (Z.of_nat (length L) + 1).
Proof.
  intros (t & np & HR & <- & (Hred & n & Hn) & _) HL. exists (Z.of_nat (depth t)). split.
  - eapply yields_bind; [apply yields_root|]. rewrite (R_root _ _ _ _ HR). apply yields_fuel.
    eapply (height_ok _ [] t); [|done|exact HR].
    pose proof (Repr_fuel _ _ _ [] _ HR). lia.
  - apply (log2_of_nat_bounds _ _ n); [apply depth_size|by apply rb_size|].
    apply rb_depth in Hn. rewrite Hred in Hn. simpl in Hn. lia.
Qed.

(** ** Printing *)

Lemma inorder_ok fuel k T s Out np :
  (length (elems T) < fuel)%nat -> Repr Out np s (plug k T) ->
  exists out, yields (inorder fuel (ptr T)) s out /\ out.*1 = elems T /\
    Forall (fun '(x, n) => nodes s !! x = Some n) out.
Proof.
  revert k T. induction fuel as [|fuel IH]; intros k T Hf HR; [lia|]. simpl.
  destruct T as [|c l a r]; [by exists []|].
  destruct (Repr_N _ _ _ _ _ _ _ _ HR) as (Ha & Hna & Hl & Hr).
  simpl in Hf |- *. rewrite Hna. rewrite length_app in Hf. simpl in Hf.
  destruct (IH (F true c a r :: k) l ltac:(lia) Hl) as (o1 & H1 & E1 & F1).
  destruct (IH (F false c a l :: k) r ltac:(lia) Hr) as (o2 & H2 & E2 & F2).
  eexists. split.
  - ystep. eapply yields_bind; [exact H1|]. ystep. ystep. eapply yields_bind; [exact H2|].
    apply yields_ret.
  - rewrite fmap_app, E1, fmap_cons, E2. split; [done|]. apply Forall_app. by split; [|constructor].
Qed.

(** [rbtree_inorder] prints every element once, in order, with its fields. *)
Theorem rbtree_inorder_prints s L :
  tree_of s L -> exists out, rbtree_inorder s = Ret (out, s) /\ out.*1 = L /\
    Forall (fun '(x, n) => nodes s !! x = Some n) out.
Proof.
  intros (t & np & HR & <- & _).
  destruct (inorder_ok (fuel_of s) [] t s (fun x => nodes s !! x) np) as (out & H1 & H2); [|exact HR|].
  - pose proof (Repr_fuel _ _ _ [] _ HR). lia.
  - exists out. split; [|done]. eapply yields_bind; [apply yields_root|].
    by rewrite (R_root _ _ _ _ HR).
Qed.

(** ** The consistency check *)

Section Check.
Context (less : Z -> Z -> bool) `{Hless : !StrictWeakOrder less}.

Lemma yields_cond b (m : st tree_state unit) s :
  (b = true -> yields m s tt) -> yields (cond b m (mret tt)) s tt.
Proof. destruct b; [auto|done]. Qed.

Lemma ordered_sub k T : ordered less (elems (plug k T)) -> ordered less (elems T).
Proof.
  rewrite elems_plug. intros H.
  by apply StronglySorted_app_1_r, StronglySorted_app_1_l in H.
Qed.

(** In an ordered tree the root of a left subtree is not greater than its
    parent, the root of a right subtree is not less. *)
Lemma ordered_left c t a u : ordered less (elems (N c t a u)) -> t <> E -> less a (ptr t) = false.
Proof.
  simpl. intros Hs Ht. destruct (ptr_elem t) as [Hn|Hin].
  - destruct t; [done|]. eapply (StronglySorted_app_1_elem_of _ _ _ (ptr _) a Hs); simpl; set_solver.
  - eapply (StronglySorted_app_1_elem_of _ _ _ (ptr t) a Hs); set_solver.
Qed.

Lemma ordered_right c t a u : ordered less (elems (N c u a t)) -> t <> E -> less (ptr t) a = false.
Proof.
  simpl. intros Hs%StronglySorted_app_1_r Ht. apply StronglySorted_cons in Hs as [Hs _].
  eapply Forall_forall in Hs; [exact Hs|]. destruct t; [done|]. simpl. set_solver.
Qed.

Lemma inorder_check_ok fuel k T n s Out np :
  (length (elems T) < fuel)%nat -> Repr Out np s (plug k T) ->
  ordered less (elems (plug k T)) -> rb n T ->
  yields (inorder_check less fuel (ptr T)) s (Z.of_nat n).
Proof.
  revert k T n. induction fuel as [|fuel IH]; intros k T n Hf HR Hs Hn; [lia|]. simpl.
  destruct T as [|c l a r]; [simpl in Hn; by subst|].
  destruct (Repr_N _ _ _ _ _ _ _ _ HR) as (Ha & Hna & Hl & Hr).
  pose proof (ordered_sub _ _ Hs) as Hsa. simpl ptr. rewrite Hna.
  assert (exists nl nr, rb nl l /\ rb nr r /\ nl = nr /\
    Z.of_nat n = if c then Z.of_nat nl else Z.of_nat nl + 1) as (nl & nr & Bl & Br & <- & Hc).
  { destruct c; simpl in Hn; [by exists n, n; naive_solver|].
    destruct n as [|n]; [done|]. exists n, n. destruct Hn. split_and!; auto. lia. }
  simpl in Hf. rewrite length_app in Hf. simpl in Hf.
  assert (exists p, nodes s !! top k = Some p /\
    (top k <> nil_store -> left p = a -> less (top k) a = false) /\
    (top k <> nil_store -> right p = a -> less a (top k) = false)) as (p & Hp & Hpl & Hpr).
  { destruct k as [|[d kc p u] k]; [eexists; split; [apply HR|done]|].
    pose proof (Repr_elem Out np s k d kc _ p u HR) as Hp. simpl in HR, Hs. apply ordered_sub in Hs.
    eexists. split; [exact Hp|]. simpl. destruct d; simpl in *; split; intros _ Heq.
    - by apply (ordered_left kc (N c l a r) p u).
    - exfalso. by apply (Repr_children_ne Out np s k true kc (N c l a r) p u HR).
    - exfalso. by apply (Repr_children_ne Out np s k false kc (N c l a r) p u HR).
    - by apply (ordered_right kc (N c l a r) p u). }
  ystep. eapply yields_bind; [eapply IH; [|exact Hl|done|exact Bl]; lia|].
  ystep. ystep. eapply yields_bind; [apply yields_cond|].
  { intros [H1%negb_true_iff H2%Z.eqb_eq]%andb_true_iff. apply yields_assert.
    rewrite Hpl; [done| |done]. by apply Z.eqb_neq. }
  ystep. eapply yields_bind; [apply yields_cond|].
  { intros [H1%negb_true_iff H2%Z.eqb_eq]%andb_true_iff. apply yields_assert.
    rewrite Hpr; [done| |done]. by apply Z.eqb_neq. }
  eapply yields_bind; [apply yields_cond|].
  { rewrite (ptr_nil _ _ _ _ _ Hl). intros H1%negb_true_iff%bool_decide_eq_false. apply yields_assert.
    by erewrite ordered_left by eauto. }
  ystep. eapply yields_bind; [apply yields_cond|].
  { rewrite (ptr_nil _ _ _ _ _ Hr). intros H1%negb_true_iff%bool_decide_eq_false. apply yields_assert.
    by erewrite ordered_right by eauto. }
  eapply yields_bind; [eapply IH; [|exact Hr|done|exact Br]; lia|].
  eapply yields_bind; [apply yields_assert, Z.eqb_refl|]. ystep. by rewrite Hc.
Qed.

End Check.

(** ** Theorems *)

Lemma wp_Ret {A} (m : st tree_state A) s (Q : A -> tree_state -> Prop) :
  wp m s Q -> exists a s', m s = Ret (a, s') /\ Q a s'.
Proof. unfold wp. destruct (m s) as [[a s']|]; [eauto|done]. Qed.

(** C30: any series of lawful calls after [rbtree_init] terminates without a
    fault or a failed assertion and returns what the same series returns on
    an ordered list, whatever the strict weak order; at the end the tree
    holds the elements of that list in order. *)
Theorem rbtree_refines less (Hless : StrictWeakOrder less) U os s0 vs L :
  (forall x, x ∈ U -> is_Some (nodes s0 !! x)) -> nil_store ∉ U -> NULL ∉ U ->
  spec_all less U os [] = Some (vs, L) ->
  exists s1 s, rbtree_init s0 = Ret (tt, s1) /\ exec_all less os s1 = Ret (vs, s) /\
    tree_of s L /\ ordered less L.
Proof.
  intros HU Hn1 Hn2 Hspec. destruct (sim_init less U s0 HU Hn1 Hn2) as (s1 & H1 & Hsim).
  destruct (sim_exec_all less U os s1 [] vs L Hsim Hspec) as (s & H2 & [Ht Ho _ _]). eauto 6.
Qed.

(** Whatever the comparison function answers, [rbtree_insert]
    terminates; the new element is in the tree, somewhere among the others,
    the tree is balanced again and memory outside it is unchanged. *)
Theorem rbtree_insert_total less s L e :
  tree_of s L -> e ∉ L -> e <> nil_store -> e <> NULL -> is_Some (nodes s !! e) ->
  exists s' A B, rbtree_insert less e s = Ret (tt, s') /\ L = A ++ B /\
    tree_of s' (A ++ e :: B) /\ same_outside (e :: L) s s'.
Proof.
  intros Ht He Hn1 Hn2 Hs.
  destruct (wp_Ret _ _ _ (insert_elem_ok less s L e Ht He Hn1 Hn2 Hs)) as ([] & s' & H1 & k & -> & _ & H2 & H3).
  exists s', (before k), (after k). rewrite elems_plug in *. done.
Qed.

(** [rbtree_delete] takes exactly the given element out of the tree: the
    others keep their order, the tree is balanced again and memory outside
    it is unchanged.  It needs no comparison. *)
Theorem rbtree_delete_tree s A e B :
  tree_of s (A ++ e :: B) ->
  exists s', rbtree_delete e s = Ret (tt, s') /\ tree_of s' (A ++ B) /\
    same_outside (A ++ e :: B) s s'.
Proof.
  intros Ht. destruct (wp_Ret _ _ _ (delete_ok s A e B Ht)) as ([] & s' & H1 & H2 & H3 & _). eauto.
Qed.

(** The library's consistency check ([rbtree_inorder_check]: order of
    every element and its parent, and equal black heights) passes in every
    state with an ordered tree. *)
Theorem rbtree_check_passes less (Hless : StrictWeakOrder less) s L :
  tree_of s L -> ordered less L -> rbtree_inorder_check less s = Ret (tt, s).
Proof.
  intros (t & np & HR & <- & (_ & n & Hn) & _) Ho.
  eapply yields_bind; [apply yields_root|]. rewrite (R_root _ _ _ _ HR).
  eapply yields_bind; [|done]. apply yields_fuel. eapply (inorder_check_ok less _ [] t); eauto.
  pose proof (Repr_fuel _ _ _ [] _ HR). lia.
Qed.

(** ** Concrete trees *)

#[export] Instance ltb_strict_weak : StrictWeakOrder Z.ltb.
Proof. split; intros; rewrite ?Z.ltb_lt, ?Z.ltb_ge in *; lia. Qed.

(** Memory for the elements 8, 12, ..., 32. *)
Definition blank : node := mk_node 0 0 0 BLACK.
Definition example_elems : gset Z := list_to_set [8; 12; 16; 20; 24; 28; 32].
Definition example_memory : tree_state :=
  mk_tree (list_to_map (map (fun x => (x, blank)) [8; 12; 16; 20; 24; 28; 32])) 0.

Definition example_calls : list op :=
  [Insert 20; Insert 8; Insert 12; Insert 32; Insert 28; Insert 24; Find 12; Delete 20;
   FindFirst 13; Begin; Next 12; Delete 8; Insert 16; Rbegin; Prev 16; Find 8].

Lemma rbtree_refines_witness :
  exists s1 s, rbtree_init example_memory = Ret (tt, s1) /\
    exec_all Z.ltb example_calls s1 = Ret ([0; 0; 0; 0; 0; 0; 12; 0; 24; 8; 24; 0; 0; 32; 12; 0], s) /\
    tree_of s [12; 16; 24; 28; 32] /\ ordered Z.ltb [12; 16; 24; 28; 32].
Proof.
  apply (rbtree_refines Z.ltb _ example_elems).
  - intros x Hx. apply elem_of_list_to_set in Hx. repeat (apply elem_of_cons in Hx as [-> |Hx]; [by eexists; vm_compute|]).
    by apply elem_of_nil in Hx.
  - apply (bool_decide_unpack _). vm_compute. exact I.
  - apply (bool_decide_unpack _). vm_compute. exact I.
  - vm_compute. reflexivity.
Defined.

(** Three elements, the one in the middle at the root. *)
Definition example_state : tree_state :=
  mk_tree (list_to_map [(4, mk_node 4 4 4 BLACK); (12, mk_node 8 16 4 BLACK); (8, mk_node 4 4 12 RED);
    (16, mk_node 4 4 12 RED); (20, blank)]) 12.

Lemma example_tree : tree_of example_state [8; 12; 16].
Proof.
  exists (N BLACK (N RED E 8 E) 12 (N RED E 16 E)), 4. split_and!; [|done|by split; [|exists 1%nat]|].
  - constructor; [by vm_compute|done|done| | |done];
      apply (bool_decide_unpack _); vm_compute; exact I.
  - apply (bool_decide_unpack _). vm_compute. exact I.
Qed.

Lemma rbtree_insert_total_witness :
  exists s' A B, rbtree_insert Z.ltb 20 example_state = Ret (tt, s') /\ [8; 12; 16] = A ++ B /\
    tree_of s' (A ++ 20 :: B) /\ same_outside [20; 8; 12; 16] example_state s'.
Proof.
  apply (rbtree_insert_total Z.ltb example_state [8; 12; 16] 20 example_tree);
    [apply (bool_decide_unpack _); vm_compute; exact I|done|done|by eexists; vm_compute].
Defined.

Lemma rbtree_delete_tree_witness :
  exists s', rbtree_delete 12 example_state = Ret (tt, s') /\ tree_of s' [8; 16] /\
    same_outside [8; 12; 16] example_state s'.
Proof. apply (rbtree_delete_tree example_state [8] 12 [16] example_tree). Defined.

Lemma rbtree_check_passes_witness :
  rbtree_inorder_check Z.ltb example_state = Ret (tt, example_state).
Proof.
  apply (rbtree_check_passes Z.ltb _ example_state [8; 12; 16] example_tree).
  repeat constructor.
Defined.

Lemma rbtree_height_bound_witness :
  exists h, rbtree_height example_state = Ret (h, example_state) /\ 2 <= h <= 4.
Proof. apply (rbtree_height_bound example_state [8; 12; 16] example_tree). by vm_compute. Defined.

Lemma rbtree_iteration_witness :
  (e ← rbtree_begin; visit 4 rbtree_next e) example_state = Ret ([8; 12; 16], example_state) /\
  (e ← rbtree_rbegin; visit 4 rbtree_prev e) example_state = Ret ([16; 12; 8], example_state).
Proof. apply (rbtree_iteration example_state [8; 12; 16] 4 example_tree). simpl. lia. Defined.
