(* ===== verification/Thread.v ===== *)
(** * Threads and synchronisation

    [threads/thread.c], [threads/synch.c] and the clock of [devices/timer.c] on
    one processor.  A thread is named by the address of its [struct thread]; a
    list of threads or of waiters is the sequence [Dlist] shows the lists of
    [lib/list.c] to be.  What a thread has still to execute is its stack of
    frames, each a piece of code up to the next point where the thread may be
    preempted: code between [intr_disable] and [intr_set_level] is one piece,
    and with interrupts on the timer may strike between any two.  A thread
    with no frame left is in its own code and makes its next call. *)

From Stdlib Require Import ZArith Lia Bool.
From stdpp Require Import base list gmap.
From S2P Require Import Prelude.

Definition NULL : Z := 0.

Inductive thread_status := THREAD_RUNNING | THREAD_READY | THREAD_BLOCKED | THREAD_DYING.

#[global] Instance thread_status_dec : EqDecision thread_status.
Proof. solve_decision. Defined.

Definition THREAD_MAGIC : Z := 0xcd6abf4b.
Definition TID_ERROR : Z := -1.
Definition PRI_MIN : Z := 0.
Definition PRI_DEFAULT : Z := 31.
Definition PRI_MAX : Z := 63.
Definition TIME_SLICE : Z := 4.
Definition TIMER_FREQ : Z := 100.

Record thread := mk_thread {
  tid : Z;
  status : thread_status;
  name : list Z;
  stack : Z;
  priority : Z;
  magic : Z }.

(** The semaphores: one of the program's own, [&lock->semaphore], and
    [&waiter.semaphore] of a wait on a condition. *)
Inductive sema := Sema (a : Z) | LockSema (lock : Z) | WaiterSema (waiter : Z).

#[global] Instance sema_dec : EqDecision sema.
Proof. solve_decision. Defined.
#[global] Instance sema_countable : Countable sema.
Proof.
  refine (inj_countable'
    (fun s => match s with Sema a => inl a | LockSema l => inr (inl l) | WaiterSema w => inr (inr w) end)
    (fun x => match x with inl a => Sema a | inr (inl l) => LockSema l | inr (inr w) => WaiterSema w end) _).
  intros []; reflexivity.
Defined.

Record semaphore := mk_sema {
  value : Z;
  waiters : list Z }.

(** What a thread being set up will run: the loader's code (the initial
    thread), a function of the program, or [idle]. *)
Inductive thread_func := Main | Function | Idle (started : sema).

(** The rest of a call: [old] is the interrupt level to restore. *)
Inductive frame :=
| KSemaDown (s : sema)
| KSemaLoop (s : sema) (old : bool)      (** in [sema_down], after [thread_block] *)
| KSemaUp (s : sema)
| KAcquire (lock : Z)
| KHolder (lock : Z)                     (** in [lock_acquire], after [sema_down] *)
| KRelease (lock : Z)
| KTimedEnd (cond waiter : Z) (old : bool)  (** in [cond_timed_wait], after [lock_acquire] *)
| KIntrDisable                           (** [intr_disable] of [cond_wait_intr] *)
| KTimedEndIntr (cond waiter : Z)
| KSignal (cond lock : Z)
| KSignalEnd (waiter : Z)                (** in [cond_signal], after [sema_up] *)
| KBroadcast (cond lock : Z)
| KNextTid (t : Z) (fn : thread_func)    (** in [allocate_tid], lock held *)
| KSetTid (t v : Z) (fn : thread_func)   (** after [allocate_tid] *)
| KUnblock (t : Z)
| KStart                                 (** [kernel_thread] *)
| KIntrEnable                            (** [intr_enable] of [thread_start] *)
| KSetLevel (old : bool)                 (** in [thread_yield], after [schedule] *)
| KIret                                  (** return from an interrupt *)
| KSleep (start n : Z)                   (** the loop of [timer_sleep] *)
| KIdle (started : sema)                 (** the idle thread, before its loop *)
| KIdleLoop
| KIdleHlt
| KLinking.                              (** in [list_push_back] of [init_thread] *)

Record kstate := mk_k {
  running_thread : Z;
  intr_get_level : bool;                 (** the interrupt flag *)
  in_external_intr : bool;
  yield_on_return : bool;
  ready_list : list Z;
  all_list : list Z;
  idle_thread : Z;
  initial_thread : Z;
  thread_ticks : Z;
  monitor_ticks : Z;
  ticks : Z;
  next_tid : Z;
  threads : gmap Z thread;
  stacks : gmap Z (list frame);
  semas : gmap sema semaphore;
  holder : gmap Z Z;                     (** of each lock *)
  conds : gmap Z (list Z);               (** the waiters of each condition *)
  remaining : gmap Z Z;                  (** of each waiter *)
  timed_semaphores : list Z;
  retval : gmap Z Z }.                   (** what a thread's last call returned *)

(** The lock of [allocate_tid]. *)
Definition tid_lock : Z := 4.

Section Setters.
Context (s : kstate).
Definition set_running v := mk_k v (intr_get_level s) (in_external_intr s) (yield_on_return s) (ready_list s)
  (all_list s) (idle_thread s) (initial_thread s) (thread_ticks s) (monitor_ticks s) (ticks s) (next_tid s)
  (threads s) (stacks s) (semas s) (holder s) (conds s) (remaining s) (timed_semaphores s) (retval s).
Definition set_level v := mk_k (running_thread s) v (in_external_intr s) (yield_on_return s) (ready_list s)
  (all_list s) (idle_thread s) (initial_thread s) (thread_ticks s) (monitor_ticks s) (ticks s) (next_tid s)
  (threads s) (stacks s) (semas s) (holder s) (conds s) (remaining s) (timed_semaphores s) (retval s).
Definition set_intr e y := mk_k (running_thread s) (intr_get_level s) e y (ready_list s)
  (all_list s) (idle_thread s) (initial_thread s) (thread_ticks s) (monitor_ticks s) (ticks s) (next_tid s)
  (threads s) (stacks s) (semas s) (holder s) (conds s) (remaining s) (timed_semaphores s) (retval s).
Definition set_ready v := mk_k (running_thread s) (intr_get_level s) (in_external_intr s) (yield_on_return s) v
  (all_list s) (idle_thread s) (initial_thread s) (thread_ticks s) (monitor_ticks s) (ticks s) (next_tid s)
  (threads s) (stacks s) (semas s) (holder s) (conds s) (remaining s) (timed_semaphores s) (retval s).
Definition set_all v := mk_k (running_thread s) (intr_get_level s) (in_external_intr s) (yield_on_return s)
  (ready_list s) v (idle_thread s) (initial_thread s) (thread_ticks s) (monitor_ticks s) (ticks s) (next_tid s)
  (threads s) (stacks s) (semas s) (holder s) (conds s) (remaining s) (timed_semaphores s) (retval s).
Definition set_idle v := mk_k (running_thread s) (intr_get_level s) (in_external_intr s) (yield_on_return s)
  (ready_list s) (all_list s) v (initial_thread s) (thread_ticks s) (monitor_ticks s) (ticks s) (next_tid s)
  (threads s) (stacks s) (semas s) (holder s) (conds s) (remaining s) (timed_semaphores s) (retval s).
Definition set_initial v := mk_k (running_thread s) (intr_get_level s) (in_external_intr s) (yield_on_return s)
  (ready_list s) (all_list s) (idle_thread s) v (thread_ticks s) (monitor_ticks s) (ticks s) (next_tid s)
  (threads s) (stacks s) (semas s) (holder s) (conds s) (remaining s) (timed_semaphores s) (retval s).
Definition set_ticks tt mt t := mk_k (running_thread s) (intr_get_level s) (in_external_intr s) (yield_on_return s)
  (ready_list s) (all_list s) (idle_thread s) (initial_thread s) tt mt t (next_tid s)
  (threads s) (stacks s) (semas s) (holder s) (conds s) (remaining s) (timed_semaphores s) (retval s).
Definition set_tid v := mk_k (running_thread s) (intr_get_level s) (in_external_intr s) (yield_on_return s)
  (ready_list s) (all_list s) (idle_thread s) (initial_thread s) (thread_ticks s) (monitor_ticks s) (ticks s) v
  (threads s) (stacks s) (semas s) (holder s) (conds s) (remaining s) (timed_semaphores s) (retval s).
Definition set_threads v := mk_k (running_thread s) (intr_get_level s) (in_external_intr s) (yield_on_return s)
  (ready_list s) (all_list s) (idle_thread s) (initial_thread s) (thread_ticks s) (monitor_ticks s) (ticks s)
  (next_tid s) v (stacks s) (semas s) (holder s) (conds s) (remaining s) (timed_semaphores s) (retval s).
Definition set_stacks v := mk_k (running_thread s) (intr_get_level s) (in_external_intr s) (yield_on_return s)
  (ready_list s) (all_list s) (idle_thread s) (initial_thread s) (thread_ticks s) (monitor_ticks s) (ticks s)
  (next_tid s) (threads s) v (semas s) (holder s) (conds s) (remaining s) (timed_semaphores s) (retval s).
Definition set_semas v := mk_k (running_thread s) (intr_get_level s) (in_external_intr s) (yield_on_return s)
  (ready_list s) (all_list s) (idle_thread s) (initial_thread s) (thread_ticks s) (monitor_ticks s) (ticks s)
  (next_tid s) (threads s) (stacks s) v (holder s) (conds s) (remaining s) (timed_semaphores s) (retval s).
Definition set_holder v := mk_k (running_thread s) (intr_get_level s) (in_external_intr s) (yield_on_return s)
  (ready_list s) (all_list s) (idle_thread s) (initial_thread s) (thread_ticks s) (monitor_ticks s) (ticks s)
  (next_tid s) (threads s) (stacks s) (semas s) v (conds s) (remaining s) (timed_semaphores s) (retval s).
Definition set_conds v := mk_k (running_thread s) (intr_get_level s) (in_external_intr s) (yield_on_return s)
  (ready_list s) (all_list s) (idle_thread s) (initial_thread s) (thread_ticks s) (monitor_ticks s) (ticks s)
  (next_tid s) (threads s) (stacks s) (semas s) (holder s) v (remaining s) (timed_semaphores s) (retval s).
Definition set_timed r v := mk_k (running_thread s) (intr_get_level s) (in_external_intr s) (yield_on_return s)
  (ready_list s) (all_list s) (idle_thread s) (initial_thread s) (thread_ticks s) (monitor_ticks s) (ticks s)
  (next_tid s) (threads s) (stacks s) (semas s) (holder s) (conds s) r v (retval s).
Definition set_ret v := mk_k (running_thread s) (intr_get_level s) (in_external_intr s) (yield_on_return s)
  (ready_list s) (all_list s) (idle_thread s) (initial_thread s) (thread_ticks s) (monitor_ticks s) (ticks s)
  (next_tid s) (threads s) (stacks s) (semas s) (holder s) (conds s) (remaining s) (timed_semaphores s)
  (<[running_thread s := v]> (retval s)).
End Setters.

(** ** Helpers of the model *)

Definition with_status (st : thread_status) (t : thread) : thread :=
  mk_thread (tid t) st (name t) (stack t) (priority t) (magic t).
Definition set_status (t : Z) (st : thread_status) (s : kstate) : res kstate :=
  th ← the (threads s !! t); Ret (set_threads s (<[t := with_status st th]> (threads s))).

(** The running thread's frames. *)
Definition frames (s : kstate) : list frame := default [] (stacks s !! running_thread s).
Definition push (fs : list frame) (s : kstate) : kstate :=
  set_stacks s (<[running_thread s := fs ++ frames s]> (stacks s)).
Definition drop_frame (s : kstate) : kstate :=
  set_stacks s (<[running_thread s := tail (frames s)]> (stacks s)).

(** [list_remove].  Of an element that is in no list the links are stale, and
    the code would write through them: the model stops there. *)
Definition unlink (x : Z) (l : list Z) : res (list Z) :=
  if decide (x ∈ l) then Ret (filter (fun y => y <> x) l) else Stop Fault.

(** [init_thread] links a thread into [all_list] with interrupts on.  Until
    the thread that does it has run [KLinking], not all links are set: whoever
    then changes the list breaks it, and the model stops there.  Nothing else
    looks at the list, so that otherwise the new element may as well be in the
    list from the start. *)
Definition is_linking (f : frame) : bool := match f with KLinking => true | _ => false end.
Definition linking (s : kstate) : bool :=
  existsb (fun '(_, k) => existsb is_linking k) (map_to_list (stacks s)).
Definition change_all (l : list Z) (s : kstate) : res kstate :=
  if linking s then Stop Fault else Ret (set_all s l).

(** ** Interrupt level *)

Definition intr_context (s : kstate) : bool := in_external_intr s.
Definition intr_disable (s : kstate) : bool * kstate := (intr_get_level s, set_level s false).
Definition intr_enable (s : kstate) : res (bool * kstate) :=
  assert (negb (intr_context s));; Ret (intr_get_level s, set_level s true).
Definition intr_set_level (level : bool) (s : kstate) : res kstate :=
  if level then '(_, s) ← intr_enable s; Ret s else Ret (snd (intr_disable s)).
Definition intr_yield_on_return (s : kstate) : res kstate :=
  assert (intr_context s);; Ret (set_intr s (in_external_intr s) true).

(** ** The scheduler *)

Definition is_thread (s : kstate) (t : Z) : bool :=
  negb (t =? NULL) && match threads s !! t with Some th => magic th =? THREAD_MAGIC | None => false end.

Definition thread_current (s : kstate) : res Z :=
  let t := running_thread s in
  assert (is_thread s t);;
  th ← the (threads s !! t);
  assert (bool_decide (status th = THREAD_RUNNING));;
  Ret t.

Definition next_thread_to_run (s : kstate) : Z * kstate :=
  match ready_list s with
  | [] => (idle_thread s, s)
  | t :: l => (t, set_ready s l)
  end.

(** The page of a dying thread goes back to the page allocator. *)
Definition schedule_tail (prev : Z) (s : kstate) : res kstate :=
  let cur := running_thread s in
  assert (negb (intr_get_level s));;
  s ← set_status cur THREAD_RUNNING s;
  let s := set_ticks s 0 (monitor_ticks s) (ticks s) in
  if prev =? NULL then Ret s
  else
    p ← the (threads s !! prev);
    if bool_decide (status p = THREAD_DYING) && negb (prev =? initial_thread s) then
      assert (negb (prev =? cur));;
      Ret (set_stacks (set_threads s (delete prev (threads s))) (delete prev (stacks s)))
    else Ret s.

Definition schedule (s : kstate) : res kstate :=
  let cur := running_thread s in
  let '(next, s) := next_thread_to_run s in
  assert (negb (intr_get_level s));;
  th ← the (threads s !! cur);
  assert (negb (bool_decide (status th = THREAD_RUNNING)));;
  assert (is_thread s next);;
  if cur =? next then schedule_tail NULL s else schedule_tail cur (set_running s next).

Definition thread_block (s : kstate) : res kstate :=
  assert (negb (intr_context s));;
  assert (negb (intr_get_level s));;
  t ← thread_current s;
  s ← set_status t THREAD_BLOCKED s;
  schedule s.

Definition thread_unblock (t : Z) (s : kstate) : res kstate :=
  assert (is_thread s t);;
  let '(old_level, s) := intr_disable s in
  th ← the (threads s !! t);
  assert (bool_decide (status th = THREAD_BLOCKED));;
  let s := set_ready s (ready_list s ++ [t]) in
  s ← set_status t THREAD_READY s;
  intr_set_level old_level s.

(** Up to the switch; [KSetLevel] is the rest. *)
Definition thread_yield (s : kstate) : res kstate :=
  cur ← thread_current s;
  assert (negb (intr_context s));;
  let '(old_level, s) := intr_disable s in
  let s := push [KSetLevel old_level] s in
  let s := if negb (cur =? idle_thread s) then set_ready s (ready_list s ++ [cur]) else s in
  s ← set_status cur THREAD_READY s;
  schedule s.

Definition thread_exit (s : kstate) : res kstate :=
  assert (negb (intr_context s));;
  let '(_, s) := intr_disable s in
  cur ← thread_current s;
  l ← unlink cur (all_list s);
  s ← change_all l s;
  s ← set_status cur THREAD_DYING s;
  schedule s.

(** ** Semaphores *)

Definition sema_init (a : sema) (v : Z) (s : kstate) : kstate :=
  set_semas s (<[a := mk_sema v []]> (semas s)).

(** The loop of [sema_down], interrupts off. *)
Definition sema_down_loop (a : sema) (old_level : bool) (s : kstate) : res kstate :=
  sm ← the (semas s !! a);
  if value sm =? 0 then
    t ← thread_current s;
    let s := set_semas s (<[a := mk_sema (value sm) (waiters sm ++ [t])]> (semas s)) in
    thread_block (push [KSemaLoop a old_level] s)
  else
    intr_set_level old_level
      (set_semas s (<[a := mk_sema (wrap 32 (value sm - 1)) (waiters sm)]> (semas s))).

Definition sema_down (a : sema) (s : kstate) : res kstate :=
  assert (negb (intr_context s));;
  let '(old_level, s) := intr_disable s in
  sema_down_loop a old_level s.

Definition sema_try_down (a : sema) (s : kstate) : res (bool * kstate) :=
  let '(old_level, s) := intr_disable s in
  sm ← the (semas s !! a);
  let success := 0 <? value sm in
  let s := if success
           then set_semas s (<[a := mk_sema (wrap 32 (value sm - 1)) (waiters sm)]> (semas s)) else s in
  s ← intr_set_level old_level s;
  Ret (success, s).

Definition sema_up (a : sema) (s : kstate) : res kstate :=
  let '(old_level, s) := intr_disable s in
  sm ← the (semas s !! a);
  s ← match waiters sm with
      | [] => Ret s
      | t :: l => thread_unblock t (set_semas s (<[a := mk_sema (value sm) l]> (semas s)))
      end;
  sm ← the (semas s !! a);
  intr_set_level old_level
    (set_semas s (<[a := mk_sema (wrap 32 (value sm + 1)) (waiters sm)]> (semas s))).

(** ** Locks *)

Definition lock_init (l : Z) (s : kstate) : kstate :=
  sema_init (LockSema l) 1 (set_holder s (<[l := NULL]> (holder s))).

Definition lock_held_by_current_thread (l : Z) (s : kstate) : res bool :=
  h ← the (holder s !! l);
  t ← thread_current s;
  Ret (h =? t).

Definition lock_acquire (l : Z) (s : kstate) : res kstate :=
  assert (negb (intr_context s));;
  held ← lock_held_by_current_thread l s;
  assert (negb held);;
  Ret (push [KSemaDown (LockSema l); KHolder l] s).

Definition take_lock (l : Z) (s : kstate) : res kstate :=
  t ← thread_current s; Ret (set_holder s (<[l := t]> (holder s))).

Definition lock_try_acquire (l : Z) (s : kstate) : res kstate :=
  held ← lock_held_by_current_thread l s;
  assert (negb held);;
  '(success, s) ← sema_try_down (LockSema l) s;
  Ret (set_ret (if success : bool then push [KHolder l] s else s) (b2z success)).

Definition lock_release (l : Z) (s : kstate) : res kstate :=
  held ← lock_held_by_current_thread l s;
  assert held;;
  Ret (push [KSemaUp (LockSema l)] (set_holder s (<[l := NULL]> (holder s)))).

(** ** Condition variables *)

Definition synch_init (s : kstate) : kstate := set_timed s (remaining s) [].
Definition cond_init (c : Z) (s : kstate) : kstate := set_conds s (<[c := []]> (conds s)).

Definition push_waiter (c w : Z) (s : kstate) : res kstate :=
  l ← the (conds s !! c); Ret (set_conds s (<[c := l ++ [w]]> (conds s))).

(** [w] is the address of the local [waiter]. *)
Definition cond_wait (c l w : Z) (s : kstate) : res kstate :=
  assert (negb (intr_context s));;
  held ← lock_held_by_current_thread l s;
  assert held;;
  let s := sema_init (WaiterSema w) 0 s in
  let s := set_timed s (<[w := -1]> (remaining s)) (timed_semaphores s) in
  s ← push_waiter c w s;
  Ret (push [KRelease l; KSemaDown (WaiterSema w); KAcquire l] s).

Definition cond_timed_wait (c l w nanoseconds : Z) (s : kstate) : res kstate :=
  assert (negb (intr_context s));;
  held ← lock_held_by_current_thread l s;
  assert held;;
  assert (0 <? nanoseconds);;
  let s := sema_init (WaiterSema w) 0 s in
  s ← push_waiter c w s;
  let '(old_level, s) := intr_disable s in
  let s := set_timed s (<[w := nanoseconds]> (remaining s)) (timed_semaphores s ++ [w]) in
  Ret (push [KRelease l; KSemaDown (WaiterSema w); KAcquire l; KTimedEnd c w old_level] s).

(** What is left after the wait: whether it timed out. *)
Definition timed_end (c w : Z) (s : kstate) : res kstate :=
  r ← the (remaining s !! w);
  if 0 <? r then Ret (set_ret s 0)
  else
    assert (r =? 0);;
    l ← the (conds s !! c);
    l ← unlink w l;
    Ret (set_ret (set_conds s (<[c := l]> (conds s))) 1).

(** The end of [cond_signal] and [cond_signal_intr], after [sema_up]. *)
Definition signal_end (w : Z) (s : kstate) : res kstate :=
  let '(old_level, s) := intr_disable s in
  r ← the (remaining s !! w);
  s ← (if 0 <? r then t ← unlink w (timed_semaphores s); Ret (set_timed s (remaining s) t) else Ret s);
  intr_set_level old_level s.

Definition cond_signal (c l : Z) (s : kstate) : res kstate :=
  assert (negb (intr_context s));;
  held ← lock_held_by_current_thread l s;
  assert held;;
  ws ← the (conds s !! c);
  match ws with
  | [] => Ret s
  | w :: ws => Ret (push [KSemaUp (WaiterSema w); KSignalEnd w] (set_conds s (<[c := ws]> (conds s))))
  end.

(** One turn of the loop. *)
Definition cond_broadcast (c l : Z) (s : kstate) : res kstate :=
  ws ← the (conds s !! c);
  match ws with
  | [] => Ret s
  | _ => Ret (push [KSignal c l; KBroadcast c l] s)
  end.

Definition cond_wait_intr (c w : Z) (s : kstate) : res kstate :=
  assert (negb (intr_get_level s));;
  assert (negb (intr_context s));;
  let s := sema_init (WaiterSema w) 0 s in
  let s := set_timed s (<[w := -1]> (remaining s)) (timed_semaphores s) in
  s ← push_waiter c w s;
  '(_, s) ← intr_enable s;
  Ret (push [KSemaDown (WaiterSema w); KIntrDisable] s).

Definition cond_timed_wait_intr (c w nanoseconds : Z) (s : kstate) : res kstate :=
  assert (negb (intr_context s));;
  assert (negb (intr_get_level s));;
  assert (0 <? nanoseconds);;
  let s := sema_init (WaiterSema w) 0 s in
  s ← push_waiter c w s;
  let s := set_timed s (<[w := sgn 64 (nanoseconds * 1000000)]> (remaining s)) (timed_semaphores s ++ [w]) in
  '(_, s) ← intr_enable s;
  Ret (push [KSemaDown (WaiterSema w); KTimedEndIntr c w] s).

Definition cond_signal_intr (c : Z) (s : kstate) : res kstate :=
  assert (negb (intr_get_level s));;
  ws ← the (conds s !! c);
  match ws with
  | [] => Ret s
  | w :: ws => s ← sema_up (WaiterSema w) (set_conds s (<[c := ws]> (conds s))); signal_end w s
  end.

(** The tick in nanoseconds. *)
Definition tick_nanoseconds : Z := 1000000000 / TIMER_FREQ.

(** [list_remove] leaves the links of the element it removes, so the loop
    follows the list as it was. *)
Fixpoint timed_loop (l : list Z) (s : kstate) : res kstate :=
  match l with
  | [] => Ret s
  | w :: l =>
      r ← the (remaining s !! w);
      s ← (if tick_nanoseconds <? r
           then assert (0 <? r - tick_nanoseconds);;
                Ret (set_timed s (<[w := r - tick_nanoseconds]> (remaining s)) (timed_semaphores s))
           else t ← unlink w (timed_semaphores s);
                sema_up (WaiterSema w) (set_timed s (<[w := 0]> (remaining s)) t));
      timed_loop l s
  end.
Definition timed_semaphores_tick (s : kstate) : res kstate := timed_loop (timed_semaphores s) s.

(** ** Threads *)

(** The caller goes on with [KLinking]. *)
Definition init_thread (t : Z) (nm : list Z) (pri : Z) (s : kstate) : res kstate :=
  assert (negb (t =? NULL));;
  assert ((PRI_MIN <=? pri) && (pri <=? PRI_MAX));;
  let th := mk_thread 0 THREAD_BLOCKED (take 15 nm) (t + 4096) pri THREAD_MAGIC in
  change_all (all_list s ++ [t]) (set_stacks (set_threads s (<[t := th]> (threads s))) (<[t := []]> (stacks s))).

Definition alloc_frame (t size : Z) (s : kstate) : res kstate :=
  assert (is_thread s t);;
  assert (size mod 4 =? 0);;
  th ← the (threads s !! t);
  Ret (set_threads s (<[t := mk_thread (tid th) (status th) (name th) (wrap 32 (stack th - size)) (priority th)
                               (magic th)]> (threads s))).

(** [page] is what [palloc_get_page] returns. *)
Definition thread_create (page : option Z) (nm : list Z) (pri : Z) (fn : thread_func) (s : kstate) : res kstate :=
  match page with
  | None => Ret (set_ret s TID_ERROR)
  | Some t => s ← init_thread t nm pri s; Ret (push [KLinking; KAcquire tid_lock; KNextTid t fn] s)
  end.

(** [allocate_tid] with the lock held. *)
Definition allocate_tid (t : Z) (fn : thread_func) (s : kstate) : res kstate :=
  let v := next_tid s in
  Ret (push [KRelease tid_lock; KSetTid t v fn] (set_tid s (sgn 32 (v + 1)))).

(** What the first run of a thread executes. *)
Definition thread_entry (fn : thread_func) : list frame :=
  match fn with Idle started => [KStart; KIdle started] | _ => [KStart] end.

Definition store_tid (t v : Z) (s : kstate) : res kstate :=
  th ← the (threads s !! t);
  Ret (set_threads s (<[t := mk_thread v (status th) (name th) (stack th) (priority th) (magic th)]> (threads s))).

(** The rest of [thread_create]: the frames of [kernel_thread],
    [switch_entry] and [switch_threads]. *)
Definition thread_create_end (t v : Z) (fn : thread_func) (s : kstate) : res kstate :=
  s ← store_tid t v s;
  let '(old_level, s) := intr_disable s in
  s ← alloc_frame t 12 s;
  s ← alloc_frame t 4 s;
  s ← alloc_frame t 28 s;
  let s := set_stacks s (<[t := thread_entry fn]> (stacks s)) in
  s ← intr_set_level old_level s;
  Ret (push [KUnblock t] (set_ret s v)).

Definition thread_set_priority (p : Z) (s : kstate) : res kstate :=
  t ← thread_current s;
  th ← the (threads s !! t);
  Ret (set_threads s (<[t := mk_thread (tid th) (status th) (name th) (stack th) p (magic th)]> (threads s))).
Definition thread_get_priority (s : kstate) : res Z :=
  t ← thread_current s; th ← the (threads s !! t); Ret (priority th).
Definition thread_tid (s : kstate) : res Z :=
  t ← thread_current s; th ← the (threads s !! t); Ret (tid th).
(** The threads the action is called on. *)
Definition thread_foreach (s : kstate) : res (list Z) :=
  assert (negb (intr_get_level s));; Ret (all_list s).

(** ** The clock *)

Definition thread_tick (s : kstate) : res kstate :=
  let s := set_ticks s (thread_ticks s) (sgn 64 (monitor_ticks s + 1)) (ticks s) in
  s ← timed_semaphores_tick s;
  let s := set_ticks s (wrap 32 (thread_ticks s + 1)) (monitor_ticks s) (ticks s) in
  if TIME_SLICE <=? thread_ticks s then intr_yield_on_return s else Ret s.

Definition timer_interrupt (s : kstate) : res kstate :=
  thread_tick (set_ticks s (thread_ticks s) (monitor_ticks s) (sgn 64 (ticks s + 1))).

(** An external interrupt: the gate turns interrupts off, [iret] restores
    them.  The end of interrupt sent to the controller is not modelled here. *)
Definition __intr_handler (handler : kstate -> res kstate) (s : kstate) : res kstate :=
  let s := set_level s false in
  assert (negb (intr_context s));;
  s ← handler (set_intr s true false);
  assert (negb (intr_get_level s));;
  assert (intr_context s);;
  let s := set_intr s false (yield_on_return s) in
  if yield_on_return s then thread_yield (push [KIret] s) else Ret (set_level s true).

Definition timer_ticks (s : kstate) : Z := ticks s.
Definition timer_elapsed (start : Z) (s : kstate) : Z := timer_ticks s - start.

(** One turn of the loop of [timer_sleep]. *)
Definition timer_sleep_loop (start n : Z) (s : kstate) : res kstate :=
  if timer_elapsed start s <? n then thread_yield (push [KSleep start n] s) else Ret s.
Definition timer_sleep (n : Z) (s : kstate) : res kstate :=
  let start := timer_ticks s in
  assert (intr_get_level s);;
  timer_sleep_loop start n s.

(** The iterations of the busy wait for [num / denom] seconds. *)
Definition real_time_delay (loops_per_tick num denom : Z) : res Z :=
  assert (denom mod 1000 =? 0);;
  let loops := sgn 64 (loops_per_tick * num) in
  Ret (Z.quot (sgn 64 (Z.quot loops 1000 * TIMER_FREQ)) (denom / 1000)).
(** A wait of less than one tick is busy and changes nothing. *)
Definition real_time_sleep (loops_per_tick num denom : Z) (s : kstate) : res kstate :=
  let n := Z.quot (sgn 64 (num * TIMER_FREQ)) denom in
  assert (intr_get_level s);;
  if 0 <? n then timer_sleep n s
  else _ ← real_time_delay loops_per_tick num denom; Ret s.
Definition timer_msleep (loops_per_tick ms : Z) := real_time_sleep loops_per_tick ms 1000.
Definition timer_usleep (loops_per_tick us : Z) := real_time_sleep loops_per_tick us 1000000.
Definition timer_nsleep (loops_per_tick ns : Z) := real_time_sleep loops_per_tick ns 1000000000.

(** The bytes [timer_init] writes to the ports of the 8254. *)
Definition timer_init : list (Z * Z) :=
  let count := wrap 16 ((1193180 + TIMER_FREQ / 2) / TIMER_FREQ) in
  [(0x43, 0x34); (0x40, count &! 0xff); (0x40, count >> 8)].

(** ** The idle thread *)

Definition idle (started : sema) (s : kstate) : res kstate :=
  t ← thread_current s; Ret (push [KSemaUp started; KIdleLoop] (set_idle s t)).
Definition idle_loop (s : kstate) : res kstate :=
  let '(_, s) := intr_disable s in thread_block (push [KIdleHlt] s).

(** ** Boot *)

(** [main] is the page of the loader's stack. *)
Definition thread_init (main : Z) (s : kstate) : res kstate :=
  assert (negb (intr_get_level s));;
  let s := lock_init tid_lock s in
  let s := set_all (set_ready s []) [] in
  let s := set_initial (set_running s main) main in
  s ← init_thread main [109; 97; 105; 110] PRI_DEFAULT s;
  s ← set_status main THREAD_RUNNING s;
  Ret (push [KLinking; KAcquire tid_lock; KNextTid main Main] s).

Definition thread_start (page : option Z) (started : Z) (s : kstate) : res kstate :=
  let s := sema_init (Sema started) 0 s in
  thread_create page [105; 100; 108; 101] PRI_MIN (Idle (Sema started))
    (push [KIntrEnable; KSemaDown (Sema started)] s).

(** ** Execution *)

(** A frame of the running thread, already taken off its stack. *)
Definition exec (f : frame) (s : kstate) : res kstate :=
  match f with
  | KSemaDown a => sema_down a s
  | KSemaLoop a old => sema_down_loop a old s
  | KSemaUp a => sema_up a s
  | KAcquire l => lock_acquire l s
  | KHolder l => take_lock l s
  | KRelease l => lock_release l s
  | KTimedEnd c w old => s ← timed_end c w s; intr_set_level old s
  | KIntrDisable => Ret (snd (intr_disable s))
  | KTimedEndIntr c w => timed_end c w (snd (intr_disable s))
  | KSignal c l => cond_signal c l s
  | KSignalEnd w => signal_end w s
  | KBroadcast c l => cond_broadcast c l s
  | KNextTid t fn => allocate_tid t fn s
  | KSetTid t v Main => store_tid t v s
  | KSetTid t v fn => thread_create_end t v fn s
  | KUnblock t => thread_unblock t s
  | KStart | KIntrEnable => '(_, s) ← intr_enable s; Ret s
  | KSetLevel old => intr_set_level old s
  | KIret => Ret (set_level s true)
  | KSleep start n => timer_sleep_loop start n s
  | KIdle started => idle started s
  | KIdleLoop => idle_loop s
  | KIdleHlt => '(_, s) ← intr_enable s; Ret (push [KIdleLoop] s)
  | KLinking => Ret s
  end.

(** The calls of a thread's own code. *)
Inductive call :=
| SemaInit (a v : Z) | SemaDown (a : Z) | SemaTryDown (a : Z) | SemaUp (a : Z)
| LockInit (l : Z) | LockAcquire (l : Z) | LockTryAcquire (l : Z) | LockRelease (l : Z)
| CondInit (c : Z) | CondWait (c l w : Z) | CondTimedWait (c l w ns : Z) | CondSignal (c l : Z)
| CondBroadcast (c l : Z) | CondWaitIntr (c w : Z) | CondTimedWaitIntr (c w ns : Z) | CondSignalIntr (c : Z)
| IntrEnable | IntrDisable | Yield | Sleep (n : Z) | Exit | Create (page : option Z) (nm : list Z) (pri : Z)
| SetPriority (p : Z).

Definition do_call (o : call) (s : kstate) : res kstate :=
  match o with
  | SemaInit a v => Ret (sema_init (Sema a) v s)
  | SemaDown a => sema_down (Sema a) s
  | SemaTryDown a => '(b, s) ← sema_try_down (Sema a) s; Ret (set_ret s (b2z b))
  | SemaUp a => sema_up (Sema a) s
  | LockInit l => Ret (lock_init l s)
  | LockAcquire l => lock_acquire l s
  | LockTryAcquire l => lock_try_acquire l s
  | LockRelease l => lock_release l s
  | CondInit c => Ret (cond_init c s)
  | CondWait c l w => cond_wait c l w s
  | CondTimedWait c l w ns => cond_timed_wait c l w ns s
  | CondSignal c l => cond_signal c l s
  | CondBroadcast c l => cond_broadcast c l s
  | CondWaitIntr c w => cond_wait_intr c w s
  | CondTimedWaitIntr c w ns => cond_timed_wait_intr c w ns s
  | CondSignalIntr c => cond_signal_intr c s
  | IntrEnable => '(_, s) ← intr_enable s; Ret s
  | IntrDisable => Ret (snd (intr_disable s))
  | Yield => thread_yield s
  | Sleep n => timer_sleep n s
  | Exit => thread_exit s
  | Create page nm pri => thread_create page nm pri Function s
  | SetPriority p => thread_set_priority p s
  end.

(** What happens next: the running thread goes on, its code makes a call, the
    timer strikes, or a device interrupts whose handler does [sema_up]. *)
Inductive event := Run | Call (o : call) | Timer | Device (a : Z).

Definition do_event (e : event) (s : kstate) : res kstate :=
  match e with
  | Run => match frames s with f :: _ => exec f (drop_frame s) | [] => Ret s end
  | Call o => do_call o s
  | Timer => __intr_handler timer_interrupt s
  | Device a => __intr_handler (sema_up (Sema a)) s
  end.

Fixpoint do_events (es : list event) (s : kstate) : res kstate :=
  match es with [] => Ret s | e :: es => s ← do_event e s; do_events es s end.
