(* ===== verification/ThreadInv.v ===== *)
(** * What holds at every moment of the threads

    The invariant of [Thread]: which list each thread is in, who owns each
    lock, and who has been woken for each semaphore; that every piece of code
    and every interrupt keeps it, so that no assertion of [threads/thread.c]
    and [threads/synch.c] fails while callers keep the rules of the functions
    they call.  Ownership and wake-ups are counted: sums over the frames that
    threads have still to execute. *)

From Stdlib Require Import ZArith Lia Bool.
From stdpp Require Import base list gmap.
From S2P Require Import Prelude Thread.

(** Projections of a state that is written out. *)
Ltac kproj := cbn [running_thread intr_get_level in_external_intr yield_on_return ready_list all_list idle_thread
  initial_thread thread_ticks monitor_ticks ticks next_tid threads stacks semas holder conds remaining
  timed_semaphores retval value waiters].

(** ** Counting frames *)

Definition fsum (g : frame -> Z) (k : list frame) : Z := foldr (fun f n => g f + n) 0 k.
Definition total (g : frame -> Z) (m : gmap Z (list frame)) : Z :=
  map_fold (fun _ k n => fsum g k + n) 0 m.

Lemma fsum_app g k1 k2 : fsum g (k1 ++ k2) = fsum g k1 + fsum g k2.
Proof.
  induction k1 as [|f k1 IH]; [reflexivity|].
  change (g f + fsum g (k1 ++ k2) = g f + fsum g k1 + fsum g k2). lia.
Qed.
Lemma fsum_cons g f k : fsum g (f :: k) = g f + fsum g k.
Proof. reflexivity. Qed.

Lemma total_new g m t k : m !! t = None -> total g (<[t := k]> m) = fsum g k + total g m.
Proof. intros H. unfold total. rewrite map_fold_insert_L; [reflexivity|intros; lia|exact H]. Qed.

Lemma total_delete g m t k : m !! t = Some k -> total g m = fsum g k + total g (delete t m).
Proof. intros H. rewrite <- (insert_delete_id m t k H) at 1. apply total_new, lookup_delete_eq. Qed.

Lemma total_set g m t k k' :
  m !! t = Some k -> total g (<[t := k']> m) = total g m - fsum g k + fsum g k'.
Proof.
  intros H. rewrite (total_delete g m t k H), <- insert_delete_eq, total_new by apply lookup_delete_eq. lia.
Qed.

Lemma total_nonneg g m : (forall t k, m !! t = Some k -> 0 <= fsum g k) -> 0 <= total g m.
Proof.
  induction m as [|t k m Hn IH] using map_ind; intros H; [reflexivity|]. rewrite total_new by exact Hn.
  pose proof (H t k (lookup_insert_eq _ _ _)). assert (0 <= total g m); [|lia]. apply IH.
  intros t' k' E. apply (H t' k'). rewrite lookup_insert_ne; [exact E|]. intros ->. congruence.
Qed.

(** Different threads with [g] at least one each. *)
Lemma total_threads g l m :
  (forall t k, m !! t = Some k -> 0 <= fsum g k) -> NoDup l ->
  (forall t, t ∈ l -> exists k, m !! t = Some k /\ 1 <= fsum g k) -> lenZ l <= total g m.
Proof.
  unfold lenZ. revert m. induction l as [|t l IH]; intros m H0 Hd Hl; [apply total_nonneg in H0; cbn; lia|].
  apply NoDup_cons in Hd as [Hnt Hd]. destruct (Hl t ltac:(constructor)) as (k & E & Hk).
  rewrite (total_delete g m t k E). cbn [length].
  enough (Z.of_nat (length l) <= total g (delete t m)) by lia. apply IH; [|exact Hd|].
  - intros t' k' [_ E']%lookup_delete_Some. eauto.
  - intros t' Ht'. destruct (Hl t') as (k' & E' & Hk'); [constructor; exact Ht'|]. exists k'. split; [|exact Hk'].
    rewrite lookup_delete_ne; [exact E'|]. intros ->. contradiction.
Qed.

Lemma total_one g m t k :
  (forall t k, m !! t = Some k -> 0 <= fsum g k) -> m !! t = Some k -> fsum g k <= total g m.
Proof.
  intros H0 E. rewrite (total_delete g m t k E). enough (0 <= total g (delete t m)) by lia.
  apply total_nonneg. intros t' k' [_ E']%lookup_delete_Some. eauto.
Qed.

Lemma fsum_nonneg g k : (forall f, 0 <= g f) -> 0 <= fsum g k.
Proof. intros H. induction k as [|f k IH]; cbn; [lia|]. fold (fsum g k). pose proof (H f). lia. Qed.

Definition one (P : Prop) `{Decision P} : Z := if decide P then 1 else 0.

(** Threads in the loop of [sema_down (a)]. *)
Definition loop (a : sema) (f : frame) : Z := match f with KSemaLoop b _ => one (b = a) | _ => 0 end.

(** Who has the token of a lock: [lock_acquire] past its [sema_down],
    [lock_release] before its [sema_up].  A [sema_down] that has not finished
    cancels the [KHolder] below it. *)
Definition tok (l : Z) (f : frame) : Z :=
  match f with
  | KHolder l' => one (l' = l)
  | KSemaUp a => one (a = LockSema l)
  | KSemaDown a | KSemaLoop a _ => - one (a = LockSema l)
  | _ => 0
  end.

(** The creation of thread [t] in progress. *)
Definition creat (t : Z) (f : frame) : Z :=
  match f with KNextTid t' _ | KSetTid t' _ _ | KUnblock t' => one (t' = t) | _ => 0 end.

(** No suffix of a stack cancels a token that is not there. *)
Fixpoint good (l : Z) (k : list frame) : Prop :=
  match k with [] => True | f :: k' => 0 <= fsum (tok l) k /\ good l k' end.

(** The frames respect the rules of lock [l], held or not at the start. *)
Fixpoint obeys (l : Z) (held : bool) (k : list frame) : Prop :=
  match k with
  | [] => l = tid_lock -> held = false
  | KAcquire l' :: k => if decide (l' = l) then held = false /\ obeys l true k else obeys l held k
  | KHolder l' :: k => if decide (l' = l) then held = false /\ obeys l true k else obeys l held k
  | KRelease l' :: k => if decide (l' = l) then held = true /\ obeys l false k else obeys l held k
  | KNextTid _ _ :: k => if decide (l = tid_lock) then held = true /\ obeys l false k else obeys l held k
  | KSignal _ l' :: k | KBroadcast _ l' :: k => (l' = l -> held = true) /\ obeys l held k
  | _ :: k => obeys l held k
  end.

(** The stack of the idle thread. *)
Fixpoint idle_shape (k : list frame) : Prop :=
  match k with
  | [KIdleLoop] | [KIdleHlt] => True
  | KSetLevel _ :: k | KIret :: k => idle_shape k
  | _ => False
  end.

Definition fresh_stack (k : list frame) : Prop := k = [] \/ k = [KStart].

(** Code that runs with interrupts off. *)
Definition off_frame (f : frame) : bool :=
  match f with KSemaLoop _ _ | KSetLevel _ | KIret | KIdleHlt | KStart => true | _ => false end.

(** Only the return from an interrupt lies below another frame. *)
Fixpoint offs (k : list frame) : Prop :=
  match k with
  | f :: k' =>
      match k' with
      | g :: _ => off_frame g = true -> g = KIret /\ f = KSetLevel false
      | [] => True
      end /\ offs k'
  | [] => True
  end.

(** ** The invariant *)

Section View.
Context (s : kstate).
Definition stat (t : Z) : option thread_status := status <$> threads s !! t.
Definition stk (t : Z) : list frame := default [] (stacks s !! t).
Definition val (a : sema) : Z := match semas s !! a with Some sm => value sm | None => 0 end.
Definition wts (a : sema) : list Z := match semas s !! a with Some sm => waiters sm | None => [] end.
Definition held_by (l t : Z) : bool := bool_decide (holder s !! l = Some t).
Definition taken (l : Z) : Z :=
  match holder s !! l with Some h => if h =? NULL then 0 else 1 | None => 0 end.

(** The objects a frame of thread [t] names exist. *)
Definition frame_ok (t : Z) (f : frame) : Prop :=
  match f with
  | KSemaDown a | KSemaLoop a _ | KSemaUp a => is_Some (semas s !! a)
  | KAcquire l | KHolder l | KRelease l => is_Some (holder s !! l)
  | KSignal c l | KBroadcast c l => is_Some (conds s !! c) /\ is_Some (holder s !! l)
  | KSignalEnd w => is_Some (remaining s !! w)
  | KTimedEnd _ _ _ | KTimedEndIntr _ _ | KIdle _ => False
  | KNextTid _ fn | KSetTid _ _ fn => fn = Function
  | KIdleLoop | KIdleHlt => t = idle_thread s
  | _ => True
  end.

Record core : Prop := {
  c_dom : forall t, is_Some (stacks s !! t) <-> is_Some (threads s !! t);
  c_magic : forall t th, threads s !! t = Some th -> magic th = THREAD_MAGIC /\ t <> NULL;
  c_nodup : NoDup (ready_list s);
  c_ready : forall t, t ∈ ready_list s <-> stat t = Some THREAD_READY /\ t <> idle_thread s;
  c_blocked : forall t, stat t = Some THREAD_BLOCKED ->
    t = idle_thread s \/ (exists a old k, stk t = KSemaLoop a old :: k /\ t ∈ wts a) \/ total (creat t) (stacks s) = 1;
  c_waits : forall a t, t ∈ wts a -> stat t = Some THREAD_BLOCKED /\ exists old k, stk t = KSemaLoop a old :: k;
  c_wnodup : forall a, NoDup (wts a);
  c_idle : exists st, stat (idle_thread s) = Some st /\ st <> THREAD_DYING;
  c_shape : idle_shape (stk (idle_thread s));
  c_create : forall t, total (creat t) (stacks s) = 0 \/
    total (creat t) (stacks s) = 1 /\ stat t = Some THREAD_BLOCKED /\ t <> idle_thread s /\ fresh_stack (stk t);
  c_dead : forall t, stat t = Some THREAD_DYING -> stk t = [];
  c_all : NoDup (all_list s);
  c_listed : forall t, t ∈ all_list s <-> exists st, stat t = Some st /\ st <> THREAD_DYING;
  c_frames : forall t, Forall (frame_ok t) (stk t);
  c_good : forall t l, good l (stk t);
  c_offs : forall t, offs (stk t);
  c_obeys : forall t l, is_Some (threads s !! t) -> obeys l (held_by l t) (stk t);
  c_holder : forall l h, holder s !! l = Some h -> h = NULL \/ is_Some (threads s !! h);
  c_lsema : forall l, is_Some (holder s !! l) -> is_Some (semas s !! LockSema l);
  c_lock : forall l, is_Some (holder s !! l) -> val (LockSema l) + taken l + total (tok l) (stacks s) = 1;
  c_val : forall a, 0 <= val a < 2 ^ 32;
  c_wake : forall a, wts a <> [] -> val a + lenZ (wts a) <= total (loop a) (stacks s);
  c_conds : forall c ws w, conds s !! c = Some ws -> w ∈ ws ->
    is_Some (semas s !! WaiterSema w) /\ is_Some (remaining s !! w);
  c_rem : forall w r, remaining s !! w = Some r -> r = -1;
  c_timed : timed_semaphores s = [];
  c_tid : is_Some (holder s !! tid_lock);
  c_ext : in_external_intr s = false }.
End View.

(** Between two events. *)
Record inv (s : kstate) : Prop := {
  i_core : core s;
  i_run : forall t, stat s t = Some THREAD_RUNNING <-> t = running_thread s;
  i_dying : forall t, stat s t = Some THREAD_DYING -> t = initial_thread s;
  i_level : forall f k, frames s = f :: k -> off_frame f = true -> intr_get_level s = false }.

(** When [schedule] is called. *)
Record handing_over (s : kstate) : Prop := {
  o_core : core s;
  o_run : forall t, stat s t <> Some THREAD_RUNNING;
  o_cur : is_Some (threads s !! running_thread s);
  o_dying : forall t, stat s t = Some THREAD_DYING -> t = initial_thread s \/ t = running_thread s /\ frames s = [];
  o_free : stat s (running_thread s) = Some THREAD_DYING -> forall l, holder s !! l <> Some (running_thread s);
  o_level : intr_get_level s = false }.

(** ** Sums and lookups *)

Lemma one_nonneg P `{Decision P} : 0 <= one P.
Proof. unfold one. destruct (decide P); lia. Qed.
Lemma loop_nonneg a f : 0 <= loop a f.
Proof. destruct f; cbn; try lia. apply one_nonneg. Qed.
Lemma creat_nonneg t f : 0 <= creat t f.
Proof. destruct f; cbn; try lia; apply one_nonneg. Qed.

Lemma good_nonneg l k : good l k -> 0 <= fsum (tok l) k.
Proof. destruct k; [intros; cbn; lia|intros [H _]; exact H]. Qed.

Lemma stk_lookup s t k : stacks s !! t = Some k -> stk s t = k.
Proof. intros E. unfold stk. rewrite E. reflexivity. Qed.
Lemma stat_lookup s t st : stat s t = Some st -> exists th, threads s !! t = Some th /\ status th = st.
Proof. unfold stat. intros (th & -> & E)%fmap_Some. eauto. Qed.
Lemma stat_some s t : is_Some (threads s !! t) <-> is_Some (stat s t).
Proof. unfold stat. rewrite fmap_is_Some. reflexivity. Qed.

Section Core.
Context (s : kstate) (C : core s).

Lemma stack_some t : is_Some (threads s !! t) -> stacks s !! t = Some (stk s t).
Proof using C. intros H. apply (c_dom s C) in H as [k E]. rewrite (stk_lookup s t k E). exact E. Qed.

Lemma total_loop_nonneg a : 0 <= total (loop a) (stacks s).
Proof using Type. apply total_nonneg. intros. apply fsum_nonneg, loop_nonneg. Qed.

Lemma stack_tok l t k : stacks s !! t = Some k -> 0 <= fsum (tok l) k.
Proof using C. intros E. apply good_nonneg. rewrite <- (stk_lookup s t k E). apply (c_good s C). Qed.

Lemma total_tok_nonneg l : 0 <= total (tok l) (stacks s).
Proof using C. apply total_nonneg. intros. eapply stack_tok. eassumption. Qed.

Lemma tok_le_total l t k : stacks s !! t = Some k -> fsum (tok l) k <= total (tok l) (stacks s).
Proof using C. intros E. eapply total_one; [|exact E]. intros. eapply stack_tok. eassumption. Qed.

(** A thread in no list of waiters. *)
Lemma not_waiting t a : stat s t <> Some THREAD_BLOCKED -> t ∉ wts s a.
Proof using C. intros H Hin. apply (c_waits s C) in Hin as [E _]. contradiction. Qed.

(** Waiters, and one more thread in the loop. *)
Lemma waiters_le a l :
  NoDup l -> (forall t, t ∈ l -> is_Some (threads s !! t) /\ exists old k, stk s t = KSemaLoop a old :: k) ->
  lenZ l <= total (loop a) (stacks s).
Proof using C.
  intros Hd Hl. apply total_threads; [intros; apply fsum_nonneg, loop_nonneg|exact Hd|].
  intros t Ht. destruct (Hl t Ht) as (Hs & old & k & E). exists (stk s t). split; [apply stack_some, Hs|].
  rewrite E, fsum_cons. cbn [loop]. unfold one. rewrite decide_True by reflexivity.
  pose proof (fsum_nonneg (loop a) k (loop_nonneg a)). lia.
Qed.
End Core.

(** ** Changes made by the running thread to its own stack

    Its stack becomes [k]; semaphore values, holders and conditions change;
    no thread changes state. *)
Record local_change (s s' : kstate) (k : list frame) : Prop := {
  h_threads : threads s' = threads s;
  h_ready : ready_list s' = ready_list s;
  h_idle : idle_thread s' = idle_thread s;
  h_all : all_list s' = all_list s;
  h_timed : timed_semaphores s' = [];
  h_ext : in_external_intr s' = false;
  h_stacks : stacks s' = <[running_thread s := k]> (stacks s);
  h_wts : forall a, wts s' a = wts s a;
  h_val : forall a, 0 <= val s' a < 2 ^ 32;
  h_semas : forall a, is_Some (semas s !! a) -> is_Some (semas s' !! a);
  h_holders : forall l, is_Some (holder s !! l) -> is_Some (holder s' !! l);
  h_conds : forall c, is_Some (conds s !! c) -> is_Some (conds s' !! c);
  h_rems : forall w, is_Some (remaining s !! w) -> is_Some (remaining s' !! w);
  h_rem : forall w r, remaining s' !! w = Some r -> r = -1;
  h_cond : forall c ws w, conds s' !! c = Some ws -> w ∈ ws ->
    is_Some (semas s' !! WaiterSema w) /\ is_Some (remaining s' !! w);
  h_lsema : forall l, is_Some (holder s' !! l) -> is_Some (semas s' !! LockSema l);
  h_lock : forall l, is_Some (holder s' !! l) ->
    val s' (LockSema l) + taken s' l
      + (total (tok l) (stacks s) - fsum (tok l) (frames s) + fsum (tok l) k) = 1;
  h_holder : forall l h, holder s' !! l = Some h -> h = NULL \/ h = running_thread s \/ holder s !! l = Some h;
  h_held : forall l t, t <> running_thread s -> is_Some (threads s !! t) -> held_by s' l t = held_by s l t;
  h_wake : forall a, wts s a <> [] ->
    val s' a + lenZ (wts s a) <= total (loop a) (stacks s) - fsum (loop a) (frames s) + fsum (loop a) k;
  h_creat : forall t, fsum (creat t) k = fsum (creat t) (frames s);
  h_frames : Forall (frame_ok s' (running_thread s)) k;
  h_good : forall l, good l k;
  h_offs : offs k;
  h_obeys : forall l, obeys l (held_by s' l (running_thread s)) k;
  h_shape : running_thread s = idle_thread s -> idle_shape k }.

Lemma frame_ok_mono s s' k t f : local_change s s' k -> frame_ok s t f -> frame_ok s' t f.
Proof.
  intros H. destruct f; cbn; auto; try apply (h_semas _ _ _ H); try apply (h_holders _ _ _ H);
    try apply (h_rems _ _ _ H); try rewrite (h_idle _ _ _ H); auto;
    intros [H1 H2]; split; [apply (h_conds _ _ _ H), H1|apply (h_holders _ _ _ H), H2
                           |apply (h_conds _ _ _ H), H1|apply (h_holders _ _ _ H), H2].
Qed.

Lemma core_local s s' k :
  core s -> stat s (running_thread s) = Some THREAD_RUNNING -> local_change s s' k -> core s'.
Proof.
  intros C Hr H. set (c := running_thread s) in *.
  assert (Ht : is_Some (threads s !! c)) by (apply stat_some; rewrite Hr; eauto).
  pose proof (stack_some s C c Ht) as Es. change (stk s c) with (frames s) in Es.
  assert (Est : forall t, stat s' t = stat s t) by (intros t; unfold stat; rewrite (h_threads _ _ _ H); reflexivity).
  assert (Eo : forall t, t <> c -> stk s' t = stk s t).
  { intros t Hne. unfold stk. rewrite (h_stacks _ _ _ H), lookup_insert_ne by auto. reflexivity. }
  assert (Ec : stk s' c = k) by (unfold stk; rewrite (h_stacks _ _ _ H), lookup_insert_eq; reflexivity).
  assert (Etot : forall g, total g (stacks s') = total g (stacks s) - fsum g (frames s) + fsum g k)
    by (intros g; rewrite (h_stacks _ _ _ H); apply total_set, Es).
  assert (Ecr : forall t, total (creat t) (stacks s') = total (creat t) (stacks s))
    by (intros t; rewrite Etot, (h_creat _ _ _ H); lia).
  assert (Hnc : forall t, stat s t = Some THREAD_BLOCKED -> t <> c) by (intros t E ->; congruence).
  split.
  - intros t. rewrite (h_stacks _ _ _ H), (h_threads _ _ _ H). destruct (decide (t = c)) as [->|Hne].
    + rewrite lookup_insert_eq. split; eauto.
    + rewrite lookup_insert_ne by auto. apply (c_dom s C).
  - rewrite (h_threads _ _ _ H). apply (c_magic s C).
  - rewrite (h_ready _ _ _ H). apply (c_nodup s C).
  - intros t. rewrite (h_ready _ _ _ H), Est, (h_idle _ _ _ H). apply (c_ready s C).
  - intros t. rewrite Est, (h_idle _ _ _ H), Ecr. intros E. rewrite (Eo t) by auto.
    setoid_rewrite (h_wts _ _ _ H). apply (c_blocked s C), E.
  - intros a t. rewrite (h_wts _ _ _ H), Est. intros Hin. destruct (c_waits s C a t Hin) as [E Hk].
    split; [exact E|]. rewrite (Eo t) by auto. exact Hk.
  - intros a. rewrite (h_wts _ _ _ H). apply (c_wnodup s C).
  - rewrite (h_idle _ _ _ H), Est. apply (c_idle s C).
  - rewrite (h_idle _ _ _ H). destruct (decide (idle_thread s = c)) as [E|Hne].
    + rewrite E, Ec. apply (h_shape _ _ _ H). symmetry. exact E.
    + rewrite (Eo _ Hne). apply (c_shape s C).
  - intros t. rewrite Ecr, Est, (h_idle _ _ _ H). destruct (c_create s C t) as [E|(E & Hb & Hi & Hf)]; [auto|].
    right. rewrite (Eo t) by auto. auto.
  - intros t. rewrite Est. intros E. rewrite (Eo t) by congruence. apply (c_dead s C t E).
  - rewrite (h_all _ _ _ H). apply (c_all s C).
  - intros t. rewrite (h_all _ _ _ H). setoid_rewrite Est. apply (c_listed s C).
  - intros t. destruct (decide (t = c)) as [->|Hne].
    + rewrite Ec. apply (h_frames _ _ _ H).
    + rewrite (Eo t Hne). eapply Forall_impl; [apply (c_frames s C)|]. intros f. apply (frame_ok_mono s s' k t f H).
  - intros t l. destruct (decide (t = c)) as [->|Hne]; [rewrite Ec; apply (h_good _ _ _ H)|].
    rewrite (Eo t Hne). apply (c_good s C).
  - intros t. destruct (decide (t = c)) as [->|Hne]; [rewrite Ec; apply (h_offs _ _ _ H)|].
    rewrite (Eo t Hne). apply (c_offs s C).
  - intros t l. rewrite (h_threads _ _ _ H). intros Hs. destruct (decide (t = c)) as [->|Hne].
    + rewrite Ec. apply (h_obeys _ _ _ H).
    + rewrite (Eo t Hne), (h_held _ _ _ H) by auto. apply (c_obeys s C), Hs.
  - intros l h E. rewrite (h_threads _ _ _ H). destruct (h_holder _ _ _ H l h E) as [->|[->|E']]; auto.
    apply (c_holder s C l h E').
  - apply (h_lsema _ _ _ H).
  - intros l Hl. rewrite Etot. apply (h_lock _ _ _ H l Hl).
  - apply (h_val _ _ _ H).
  - intros a. rewrite (h_wts _ _ _ H), Etot. apply (h_wake _ _ _ H).
  - apply (h_cond _ _ _ H).
  - apply (h_rem _ _ _ H).
  - apply (h_timed _ _ _ H).
  - apply (h_holders _ _ _ H), (c_tid s C).
  - apply (h_ext _ _ _ H).
Qed.

(** ** Changes of the state of one thread

    Thread [t] goes to state [st]; it may enter or leave a list of waiters, the
    ready list and the list of all threads. *)
Record restat (s s' : kstate) (t : Z) (st : thread_status) : Prop := {
  r_threads : exists th, threads s !! t = Some th /\ threads s' = <[t := with_status st th]> (threads s);
  r_same : (idle_thread s', conds s', remaining s', timed_semaphores s', in_external_intr s', holder s')
           = (idle_thread s, conds s, remaining s, timed_semaphores s, in_external_intr s, holder s);
  r_stacks : forall x, is_Some (stacks s' !! x) <-> is_Some (stacks s !! x);
  r_stk : forall x, x = t \/ stat s x <> Some THREAD_RUNNING -> stk s' x = stk s x;
  r_dead : st = THREAD_DYING -> stk s t = [];
  r_tok : forall l, total (tok l) (stacks s') = total (tok l) (stacks s);
  r_loop : forall a, total (loop a) (stacks s') = total (loop a) (stacks s);
  r_creat : forall x, x <> t -> total (creat x) (stacks s') = total (creat x) (stacks s);
  r_creat0 : total (creat t) (stacks s') = 0;
  r_nodup : NoDup (ready_list s');
  r_ready : forall x, x ∈ ready_list s' <-> (x = t /\ st = THREAD_READY /\ t <> idle_thread s) \/ (x <> t /\ x ∈ ready_list s);
  r_val : forall a, val s' a = val s a;
  r_semas : forall a, is_Some (semas s !! a) <-> is_Some (semas s' !! a);
  r_wnodup : forall a, NoDup (wts s' a);
  r_wts : forall a x, x <> t -> x ∈ wts s' a <-> x ∈ wts s a;
  r_waits : forall a, t ∈ wts s' a -> st = THREAD_BLOCKED /\ exists old k, stk s t = KSemaLoop a old :: k;
  r_blocked : st = THREAD_BLOCKED ->
    t = idle_thread s \/ exists a old k, stk s t = KSemaLoop a old :: k /\ t ∈ wts s' a;
  r_wake : forall a, wts s' a <> [] -> val s' a + lenZ (wts s' a) <= total (loop a) (stacks s);
  r_idle : t = idle_thread s -> st <> THREAD_DYING;
  r_all : NoDup (all_list s');
  r_listed : forall x, x ∈ all_list s' <-> (x = t /\ st <> THREAD_DYING) \/ (x <> t /\ x ∈ all_list s);
  r_frames : forall x, Forall (frame_ok s' x) (stk s' x);
  r_good : forall x l, good l (stk s' x);
  r_offs : forall x, offs (stk s' x);
  r_obeys : forall x l, is_Some (threads s !! x) -> obeys l (held_by s l x) (stk s' x);
  r_shape : idle_shape (stk s' (idle_thread s)) }.

Lemma restat_stat s s' t st x : restat s s' t st -> stat s' x = if decide (x = t) then Some st else stat s x.
Proof.
  intros H. destruct (r_threads _ _ _ _ H) as (th & E & ET). unfold stat. rewrite ET.
  destruct (decide (x = t)) as [->|Hne]; [rewrite lookup_insert_eq|rewrite lookup_insert_ne by auto]; reflexivity.
Qed.

Lemma restat_some s s' t st x : restat s s' t st -> is_Some (threads s' !! x) <-> is_Some (threads s !! x).
Proof.
  intros H. destruct (r_threads _ _ _ _ H) as (th & E & ->). destruct (decide (x = t)) as [->|Hne].
  - rewrite lookup_insert_eq, E. split; eauto.
  - rewrite lookup_insert_ne by auto. reflexivity.
Qed.

Lemma core_restat s s' t st : core s -> restat s s' t st -> core s'.
Proof.
  intros C H. pose proof (r_same _ _ _ _ H) as [= Ei Ec Er Et Ee Eh].
  pose proof (fun x => restat_stat s s' t st x H) as Est. pose proof (fun x => restat_some s s' t st x H) as Eth.
  assert (Hb : forall x, x <> t -> stat s x = Some THREAD_BLOCKED -> stk s' x = stk s x)
    by (intros x _ E; apply (r_stk _ _ _ _ H); right; congruence).
  split.
  - intros x. rewrite (r_stacks _ _ _ _ H), Eth. apply (c_dom s C).
  - destruct (r_threads _ _ _ _ H) as (th & E & ->). intros x th'. destruct (decide (x = t)) as [->|Hne].
    + rewrite lookup_insert_eq. intros [= <-]. apply (c_magic s C t th E).
    + rewrite lookup_insert_ne by auto. apply (c_magic s C).
  - apply (r_nodup _ _ _ _ H).
  - intros x. rewrite (r_ready _ _ _ _ H), Est, Ei, (c_ready s C). case_decide; naive_solver congruence.
  - intros x. rewrite Est, Ei. case_decide as Hx.
    + subst x. intros [= ->]. destruct (r_blocked _ _ _ _ H eq_refl) as [?|(a & old & k & E & Hin)]; [auto|].
      right. left. exists a, old, k. rewrite (r_stk _ _ _ _ H) by auto. auto.
    + intros E. rewrite (r_creat _ _ _ _ H) by auto. rewrite Hb by auto.
      destruct (c_blocked s C x E) as [?|[(a & old & k & Ek & Hin)|?]]; auto.
      right. left. exists a, old, k. split; [exact Ek|]. apply (r_wts _ _ _ _ H); auto.
  - intros a x Hin. rewrite Est. case_decide as Hx.
    + subst x. destruct (r_waits _ _ _ _ H a Hin) as [-> Hk]. rewrite (r_stk _ _ _ _ H) by auto. auto.
    + apply (r_wts _ _ _ _ H) in Hin; [|exact Hx]. destruct (c_waits s C a x Hin) as [E Hk].
      rewrite Hb by auto. auto.
  - apply (r_wnodup _ _ _ _ H).
  - rewrite Ei, Est. case_decide as Hx; [|apply (c_idle s C)]. exists st. split; [reflexivity|].
    apply (r_idle _ _ _ _ H). auto.
  - rewrite Ei. apply (r_shape _ _ _ _ H).
  - intros x. destruct (decide (x = t)) as [->|Hx]; [left; apply (r_creat0 _ _ _ _ H)|].
    rewrite (r_creat _ _ _ _ H) by auto. destruct (c_create s C x) as [E|(E & E1 & E2 & E3)]; [auto|].
    right. rewrite Est, Ei, decide_False by auto. rewrite Hb by auto. auto.
  - intros x. rewrite Est. case_decide as Hx.
    + subst x. intros [= ->]. rewrite (r_stk _ _ _ _ H) by auto. apply (r_dead _ _ _ _ H eq_refl).
    + intros E. rewrite (r_stk _ _ _ _ H) by (right; congruence). apply (c_dead s C x E).
  - apply (r_all _ _ _ _ H).
  - intros x. rewrite (r_listed _ _ _ _ H), (c_listed s C), Est. case_decide; naive_solver.
  - apply (r_frames _ _ _ _ H).
  - apply (r_good _ _ _ _ H).
  - apply (r_offs _ _ _ _ H).
  - intros x l. rewrite Eth. unfold held_by. rewrite Eh. apply (r_obeys _ _ _ _ H).
  - intros l h. rewrite Eh, Eth. apply (c_holder s C).
  - intros l. rewrite Eh, <- (r_semas _ _ _ _ H). apply (c_lsema s C).
  - intros l. unfold taken. rewrite Eh, (r_val _ _ _ _ H), (r_tok _ _ _ _ H). apply (c_lock s C).
  - intros a. rewrite (r_val _ _ _ _ H). apply (c_val s C).
  - intros a. rewrite (r_loop _ _ _ _ H). apply (r_wake _ _ _ _ H).
  - intros c ws w. rewrite Ec, Er, <- (r_semas _ _ _ _ H). apply (c_conds s C).
  - rewrite Er. apply (c_rem s C).
  - rewrite Et. apply (c_timed s C).
  - rewrite Eh. apply (c_tid s C).
  - rewrite Ee. apply (c_ext s C).
Qed.

(** [frame_ok] looks only at what [restat] keeps. *)
Lemma frame_ok_restat s s' t f :
  idle_thread s' = idle_thread s -> conds s' = conds s -> remaining s' = remaining s -> holder s' = holder s ->
  (forall a, is_Some (semas s !! a) <-> is_Some (semas s' !! a)) -> frame_ok s t f -> frame_ok s' t f.
Proof.
  intros Ei Ec Er Eh Hs. destruct f; cbn; rewrite ?Ei, ?Ec, ?Er, ?Eh; auto; apply Hs.
Qed.

(** A change that leaves every stack and semaphore as it was. *)
Lemma restat_plain s s' t st th :
  core s -> threads s !! t = Some th -> threads s' = <[t := with_status st th]> (threads s) ->
  (idle_thread s', conds s', remaining s', timed_semaphores s', in_external_intr s', holder s', stacks s', semas s')
    = (idle_thread s, conds s, remaining s, timed_semaphores s, in_external_intr s, holder s, stacks s, semas s) ->
  total (creat t) (stacks s) = 0 -> (forall a, t ∉ wts s a) -> NoDup (ready_list s') ->
  (forall x, x ∈ ready_list s' <-> (x = t /\ st = THREAD_READY /\ t <> idle_thread s) \/ (x <> t /\ x ∈ ready_list s)) ->
  (st = THREAD_BLOCKED -> t = idle_thread s) -> (t = idle_thread s -> st <> THREAD_DYING) ->
  (st = THREAD_DYING -> stk s t = []) -> NoDup (all_list s') ->
  (forall x, x ∈ all_list s' <-> (x = t /\ st <> THREAD_DYING) \/ (x <> t /\ x ∈ all_list s)) ->
  restat s s' t st.
Proof.
  intros C Eth ET [= Ei Ec Er Et Ee Eh Est Esm] Hcr Hw Hrd Hr Hb Hi Hdd Ha Hl.
  assert (Ek : forall x, stk s' x = stk s x) by (intros x; unfold stk; rewrite Est; reflexivity).
  assert (Ew : forall a, wts s' a = wts s a) by (intros a; unfold wts; rewrite Esm; reflexivity).
  assert (Ev : forall a, val s' a = val s a) by (intros a; unfold val; rewrite Esm; reflexivity).
  split; rewrite ?Est, ?Esm; auto; try reflexivity.
  - exists th. auto.
  - rewrite Ei, Ec, Er, Et, Ee, Eh. reflexivity.
  - intros a. rewrite Ew. apply (c_wnodup s C).
  - intros a x _. rewrite Ew. reflexivity.
  - intros a Hin. rewrite Ew in Hin. destruct (Hw a Hin).
  - intros a. rewrite Ew, Ev. apply (c_wake s C).
  - intros x. rewrite Ek. eapply Forall_impl; [apply (c_frames s C)|]. intros f.
    apply frame_ok_restat; rewrite ?Esm; auto.
  - intros x l. rewrite Ek. apply (c_good s C).
  - intros x. rewrite Ek. apply (c_offs s C).
  - intros x l. rewrite Ek. apply (c_obeys s C).
  - rewrite Ek. apply (c_shape s C).
Qed.

Section Facts.
Context (s : kstate) (C : core s).

Lemma idle_not_waiting a : idle_thread s ∉ wts s a.
Proof using C.
  intros Hin. destruct (c_waits s C a _ Hin) as (_ & old & k & E). pose proof (c_shape s C) as Hs.
  rewrite E in Hs. exact Hs.
Qed.

Lemma creat_zero t : t = idle_thread s \/ stat s t <> Some THREAD_BLOCKED -> total (creat t) (stacks s) = 0.
Proof using C. destruct (c_create s C t) as [E|(_ & E1 & E2 & _)]; [auto|]. intros [?|?]; contradiction. Qed.

Lemma not_waiting_idle t a : t = idle_thread s \/ stat s t <> Some THREAD_BLOCKED -> t ∉ wts s a.
Proof using C. intros [->|H]; [apply idle_not_waiting|apply not_waiting; assumption]. Qed.

Lemma listed t st : stat s t = Some st -> st <> THREAD_DYING -> t ∈ all_list s.
Proof using C. intros E H. apply (c_listed s C). eauto. Qed.

(** The list of all threads when a live thread stays live. *)
Lemma listed_same t st st' :
  stat s t = Some st -> st <> THREAD_DYING -> st' <> THREAD_DYING ->
  forall x, x ∈ all_list s <-> (x = t /\ st' <> THREAD_DYING) \/ (x <> t /\ x ∈ all_list s).
Proof using C.
  intros E H H' x. destruct (decide (x = t)) as [->|Hne]; [|naive_solver]. split; [auto|]. intros _.
  apply (listed t st E H).
Qed.
End Facts.

(** ** The scheduler *)

(** A dying thread with an empty stack and no lock disappears. *)
Lemma core_reap s t :
  core s -> stat s t = Some THREAD_DYING -> stk s t = [] -> (forall l, holder s !! l <> Some t) ->
  core (set_stacks (set_threads s (delete t (threads s))) (delete t (stacks s))).
Proof.
  intros C Hd Hk Hh. set (s' := set_stacks _ _).
  assert (Hs : stacks s !! t = Some []).
  { rewrite <- Hk. apply (stack_some s C). apply stat_some. rewrite Hd. eauto. }
  assert (Et : forall g, total g (stacks s') = total g (stacks s)).
  { intros g. rewrite (total_delete g (stacks s) t [] Hs). reflexivity. }
  assert (Est : forall x, x <> t -> stat s' x = stat s x)
    by (intros x Hx; unfold stat, s'; cbn; rewrite lookup_delete_ne by auto; reflexivity).
  assert (Ed : stat s' t = None) by (unfold stat, s'; cbn; rewrite lookup_delete_eq; reflexivity).
  assert (Ek : forall x, stk s' x = stk s x).
  { intros x. unfold stk, s'. cbn. destruct (decide (x = t)) as [->|Hx].
    - rewrite lookup_delete_eq, Hs. reflexivity.
    - rewrite lookup_delete_ne by auto. reflexivity. }
  assert (Hst : forall x st, stat s' x = Some st -> x <> t /\ stat s x = Some st).
  { intros x st E. destruct (decide (x = t)) as [->|Hx]; [congruence|]. rewrite <- (Est x Hx). auto. }
  assert (Hbk : forall x st, stat s x = Some st -> st <> THREAD_DYING -> stat s' x = Some st)
    by (intros x st E Hn; rewrite Est; [exact E|congruence]).
  assert (Hi : idle_thread s <> t) by (intros <-; destruct (c_idle s C) as (st & E & Hn); congruence).
  split; try apply C.
  - intros x. cbn. destruct (decide (x = t)) as [->|Hx].
    + rewrite !lookup_delete_eq. split; intros [? ?]; discriminate.
    + rewrite !lookup_delete_ne by auto. apply (c_dom s C).
  - intros x th E. cbn in E. apply lookup_delete_Some in E as [_ E]. apply (c_magic s C x th E).
  - intros x. cbn. rewrite (c_ready s C). split; intros [E Hne]; split; auto. apply Hst, E.
  - intros x E%Hst. rewrite Ek, Et. apply (c_blocked s C), E.
  - intros a x Hin. rewrite Ek. destruct (c_waits s C a x Hin) as [E Hx]. auto.
  - cbn. destruct (c_idle s C) as (st & E & Hn). exists st. auto.
  - rewrite Ek. apply (c_shape s C).
  - intros x. rewrite Et, Ek. destruct (c_create s C x) as [E|(E & E1 & E2)]; auto.
  - intros x E%Hst. rewrite Ek. apply (c_dead s C x), E.
  - intros x. cbn. rewrite (c_listed s C). split; intros (st & E & Hn); exists st; split; auto. apply Hst, E.
  - intros x. rewrite Ek. apply (c_frames s C).
  - intros x l. rewrite Ek. apply (c_good s C).
  - intros x. rewrite Ek. apply (c_offs s C).
  - intros x l (th & E)%stat_some. rewrite Ek. apply (c_obeys s C). apply stat_some.
    apply Hst in E as [_ E]. rewrite E. eauto.
  - intros l h E. destruct (c_holder s C l h E) as [->|Hx]; [auto|]. right. cbn. rewrite lookup_delete_ne; [exact Hx|].
    intros ->. exact (Hh l E).
  - intros l Hl. rewrite Et. apply (c_lock s C l Hl).
  - intros a. rewrite Et. apply (c_wake s C).
Qed.

Lemma is_thread_some s t : core s -> is_Some (threads s !! t) -> is_thread s t = true.
Proof.
  intros C [th E]. unfold is_thread. rewrite E. destruct (c_magic s C t th E) as [-> Hn].
  rewrite (proj2 (Z.eqb_neq t NULL) Hn), Z.eqb_refl. reflexivity.
Qed.

Lemma pick_next s :
  core s -> exists next l th, next_thread_to_run s = (next, set_ready s l) /\
    threads s !! next = Some th /\ (status th = THREAD_READY \/ next = idle_thread s) /\ NoDup l /\
    forall x, x ∈ l <-> x <> next /\ x ∈ ready_list s.
Proof.
  intros C. unfold next_thread_to_run. pose proof (c_nodup s C) as Hd. pose proof (c_ready s C) as Hr.
  destruct (ready_list s) as [|t l] eqn:E; cbn.
  - destruct (c_idle s C) as (st & (th & Eth & _)%stat_lookup & _). exists (idle_thread s), [], th. rewrite <- E. split.
    { destruct s; reflexivity. }
    split; [exact Eth|]. split; [auto|]. rewrite E. split; [constructor|]. intros x. rewrite elem_of_nil. naive_solver.
  - destruct (proj1 (Hr t) ltac:(constructor)) as [(th & Eth & Est)%stat_lookup _].
    apply NoDup_cons in Hd as [Hnt Hd]. exists t, l, th. split; [reflexivity|]. split; [exact Eth|].
    split; [auto|]. split; [exact Hd|]. intros x. rewrite elem_of_cons. naive_solver.
Qed.

Lemma activate s next l th :
  core s -> (forall t, stat s t <> Some THREAD_RUNNING) -> threads s !! next = Some th ->
  status th = THREAD_READY \/ next = idle_thread s -> NoDup l ->
  (forall x, x ∈ l <-> x <> next /\ x ∈ ready_list s) ->
  let s' := set_ticks (set_threads (set_running (set_ready s l) next)
              (<[next := with_status THREAD_RUNNING th]> (threads s))) 0 (monitor_ticks s) (ticks s) in
  core s' /\ (forall t, stat s' t = Some THREAD_RUNNING <-> t = next) /\
  (forall t, t <> next -> stat s' t = stat s t).
Proof.
  intros C Hnr Eth Hn Hd Hl s'.
  assert (Hst : stat s next = Some (status th)) by (unfold stat; rewrite Eth; reflexivity).
  assert (Hx : next = idle_thread s \/ stat s next <> Some THREAD_BLOCKED)
    by (destruct Hn as [E|E]; [right; congruence|auto]).
  assert (Hnd : status th <> THREAD_DYING).
  { destruct Hn as [->|E]; [discriminate|]. destruct (c_idle s C) as (st & E' & Hnd). congruence. }
  assert (H : restat s s' next THREAD_RUNNING).
  { apply (restat_plain s s' next THREAD_RUNNING th C Eth); try reflexivity; try discriminate.
    - apply (creat_zero s C), Hx.
    - intros a. apply (not_waiting_idle s C), Hx.
    - exact Hd.
    - intros x. cbn. rewrite Hl. naive_solver.
    - apply (c_all s C).
    - cbn. apply (listed_same s C next (status th)); auto. }
  pose proof (fun x => restat_stat s s' next _ x H) as E.
  split; [apply (core_restat s s' next THREAD_RUNNING C H)|]. split; intros t; rewrite E.
  - case_decide as Ht; [split; auto|]. split; [intros E'; destruct (Hnr t E')|contradiction].
  - intros Hne. rewrite decide_False by exact Hne. reflexivity.
Qed.

(** What [schedule] leaves alone. *)
Definition same_objects (s s' : kstate) : Prop :=
  semas s' = semas s /\ holder s' = holder s /\ conds s' = conds s /\ idle_thread s' = idle_thread s.

Lemma schedule_ok s :
  handing_over s -> exists s', schedule s = Ret s' /\ inv s' /\ same_objects s s'.
Proof.
  intros [C Hnr (thc & Ec) Hdy Hfree Hlv]. unfold schedule.
  destruct (pick_next s C) as (next & l & th & -> & Eth & Hn & Hd & Hl). cbn [intr_get_level set_ready threads]. rewrite Hlv, Ec.
  cbn [negb assert mbind res_bind the].
  assert (Hnc : bool_decide (status thc = THREAD_RUNNING) = false).
  { apply bool_decide_eq_false. intros E. apply (Hnr (running_thread s)). unfold stat. rewrite Ec. cbn. congruence. }
  rewrite Hnc. cbn [negb assert mbind res_bind].
  replace (is_thread (set_ready s l) next) with true
    by (symmetry; apply (is_thread_some s next C); eauto).
  cbn [assert mbind res_bind].
  destruct (activate s next l th C Hnr Eth Hn Hd Hl) as (C2 & Hrun & Hoth). set (s2 := set_ticks _ _ _ _) in *.
  assert (Hdie : forall t, stat s2 t = Some THREAD_DYING -> t = initial_thread s \/ t = running_thread s /\ frames s = []).
  { intros t E. destruct (decide (t = next)) as [->|Ht]; [|rewrite Hoth in E by exact Ht; auto].
    rewrite (proj2 (Hrun next) eq_refl) in E. discriminate. }
  destruct (Z.eqb_spec (running_thread s) next) as [Hcn|Hcn].
  - subst next.
    unfold schedule_tail, set_status. cbn [intr_get_level set_ready threads running_thread]. rewrite Hlv, Eth.
    cbn [negb assert mbind res_bind the]. rewrite Z.eqb_refl. exists s2. split; [reflexivity|].
    split; [|repeat split]. split; [exact C2|exact Hrun| |intros; exact Hlv].
    intros t E. destruct (Hdie t E) as [->|[-> _]]; [reflexivity|].
    rewrite (proj2 (Hrun _) eq_refl) in E. discriminate.
  - unfold schedule_tail, set_status. cbn [intr_get_level set_running set_ready threads running_thread]. rewrite Hlv, Eth.
    cbn [negb assert mbind res_bind the].
    assert (Hcz : running_thread s <> NULL) by apply (c_magic s C _ _ Ec).
    rewrite (proj2 (Z.eqb_neq _ _) Hcz). cbn [threads set_ticks set_threads]. rewrite lookup_insert_ne by auto.
    rewrite Ec. cbn [the mbind res_bind initial_thread set_running set_ready set_threads set_ticks].
    rewrite (proj2 (Z.eqb_neq _ _) Hcn). cbn [negb assert mbind res_bind]. fold s2.
    assert (Ecs : stat s2 (running_thread s) = Some (status thc)) by (rewrite Hoth by exact Hcn; unfold stat; rewrite Ec; reflexivity).
    destruct (bool_decide _ && _) eqn:Eb; eexists; (split; [reflexivity|]); (split; [|repeat split]).
    + apply andb_prop in Eb as [Ed%bool_decide_eq_true Ei]. apply negb_true_iff, Z.eqb_neq in Ei.
      assert (Hdc : stat s2 (running_thread s) = Some THREAD_DYING) by congruence.
      destruct (Hdie _ Hdc) as [?|[_ Hfr]]; [contradiction|].
      split.
      * apply (core_reap s2 (running_thread s)); [exact C2|exact Hdc|exact Hfr|].
        apply Hfree. unfold stat. rewrite Ec. cbn. congruence.
      * intros t. destruct (decide (t = running_thread s)) as [->|Ht].
        -- unfold stat. cbn. rewrite lookup_delete_eq. cbn. split; [discriminate|]. intros E. contradiction.
        -- rewrite <- (Hrun t). unfold stat. cbn. rewrite lookup_delete_ne by auto. reflexivity.
      * intros t E. cbn. destruct (decide (t = running_thread s)) as [->|Ht].
        -- unfold stat in E. cbn in E. rewrite lookup_delete_eq in E. discriminate.
        -- destruct (Hdie t) as [?|[? _]]; [|assumption|contradiction].
           unfold stat in E |- *. cbn in E. rewrite lookup_delete_ne in E by auto. exact E.
      * intros; exact Hlv.
    + split; [exact C2|exact Hrun| |intros; exact Hlv]. intros t E. cbn. destruct (Hdie t E) as [?|[-> _]]; [assumption|].
      apply andb_false_iff in Eb as [Eb|Eb].
      * apply bool_decide_eq_false in Eb. pose proof (eq_trans (eq_sym Ecs) E). congruence.
      * apply negb_false_iff, Z.eqb_eq in Eb. exact Eb.
Qed.

(** The state while the running thread executes. *)
Record active (s : kstate) : Prop := {
  a_core : core s;
  a_run : forall t, stat s t = Some THREAD_RUNNING <-> t = running_thread s;
  a_dying : forall t, stat s t = Some THREAD_DYING -> t = initial_thread s }.

Definition objects (s : kstate) :=
  (threads s, ready_list s, idle_thread s, all_list s, timed_semaphores s, in_external_intr s, remaining s).
Definition synch (s : kstate) := (semas s, holder s, conds s).

(** The invariant is about the fields above and the stacks only. *)
Lemma core_same s s' :
  core s -> objects s' = objects s -> synch s' = synch s -> stacks s' = stacks s -> core s'.
Proof.
  destruct s, s'. intros C [= -> -> -> -> -> -> ->] [= -> -> ->] E. cbn in E. subst. destruct C. split; assumption.
Qed.

Section Active.
Context (s : kstate) (A : active s).
Let C := a_core s A.

Lemma run_stat : stat s (running_thread s) = Some THREAD_RUNNING.
Proof using A. apply (a_run s A). reflexivity. Qed.
Lemma run_some : is_Some (threads s !! running_thread s).
Proof using A. apply stat_some. rewrite run_stat. eauto. Qed.
Lemma run_stack : stacks s !! running_thread s = Some (frames s).
Proof using A. apply (stack_some s (a_core s A)), run_some. Qed.

Lemma current_ok : thread_current s = Ret (running_thread s).
Proof using A.
  unfold thread_current. rewrite (is_thread_some s _ (a_core s A) run_some).
  destruct (stat_lookup s _ _ run_stat) as (th & -> & E). cbn [assert mbind res_bind the]. rewrite E. reflexivity.
Qed.

(** Only the stack changes. *)
Lemma frames_change s' k :
  objects s' = objects s -> synch s' = synch s -> stacks s' = <[running_thread s := k]> (stacks s) ->
  (forall l, fsum (tok l) k = fsum (tok l) (frames s)) -> (forall a, fsum (loop a) (frames s) <= fsum (loop a) k) ->
  (forall t, fsum (creat t) k = fsum (creat t) (frames s)) -> Forall (frame_ok s (running_thread s)) k ->
  (forall l, good l k) -> offs k -> (forall l, obeys l (held_by s l (running_thread s)) k) ->
  (running_thread s = idle_thread s -> idle_shape k) -> local_change s s' k.
Proof using A.
  intros [= E1 E2 E3 E4 E5 E6 E7] [= E8 E9 E10] E11 Ht Hl Hc Hf Hg Hof Ho Hs. pose proof (a_core s A) as C'.
  assert (Ew : forall a, wts s' a = wts s a) by (intros a; unfold wts; rewrite E8; reflexivity).
  assert (Ev : forall a, val s' a = val s a) by (intros a; unfold val; rewrite E8; reflexivity).
  split; auto; rewrite ?E5, ?E6, ?E7, ?E8, ?E9, ?E10; auto.
  - apply (c_timed s C').
  - apply (c_ext s C').
  - intros a. rewrite Ev. apply (c_val s C').
  - apply (c_rem s C').
  - apply (c_conds s C').
  - apply (c_lsema s C').
  - intros l Hi. rewrite Ht, Ev. unfold taken. rewrite E9. pose proof (c_lock s C' l Hi) as H. unfold taken in H. lia.
  - intros l t _ _. unfold held_by. rewrite E9. reflexivity.
  - intros a Hw. rewrite Ev. pose proof (c_wake s C' a Hw). pose proof (Hl a). lia.
  - eapply Forall_impl; [exact Hf|]. intros f. apply frame_ok_restat; rewrite ?E8; auto.
  - intros l. unfold held_by. rewrite E9. apply Ho.
Qed.

Lemma active_local s' k :
  local_change s s' k -> running_thread s' = running_thread s -> initial_thread s' = initial_thread s -> active s'.
Proof using A.
  intros H Er Ei. split.
  - apply (core_local s s' k (a_core s A) run_stat H).
  - intros t. unfold stat. rewrite (h_threads _ _ _ H), Er. apply (a_run s A).
  - intros t. unfold stat. rewrite (h_threads _ _ _ H), Ei. apply (a_dying s A).
Qed.

Lemma frames_ok : Forall (frame_ok s (running_thread s)) (frames s).
Proof using A. apply (c_frames s (a_core s A)). Qed.
Lemma frames_good l : good l (frames s).
Proof using A. apply (c_good s (a_core s A)). Qed.
Lemma frames_offs : offs (frames s).
Proof using A. apply (c_offs s (a_core s A)). Qed.
Lemma frames_obey l : obeys l (held_by s l (running_thread s)) (frames s).
Proof using A. apply (c_obeys s (a_core s A)), run_some. Qed.
Lemma frames_shape : running_thread s = idle_thread s -> idle_shape (frames s).
Proof using A. intros E. unfold frames. rewrite E. apply (c_shape s (a_core s A)). Qed.
End Active.

(** Frames that carry no count. *)
Definition neutral (f : frame) : bool :=
  match f with KSetLevel _ | KIret | KSleep _ _ | KIdleLoop | KIdleHlt | KIntrDisable => true | _ => false end.

Lemma neutral_sums f g :
  neutral f = true -> (exists l, g = tok l) \/ (exists a, g = loop a) \/ (exists t, g = creat t) -> g f = 0.
Proof. intros H [[? ->]|[[? ->]|[? ->]]]; destruct f; try discriminate H; reflexivity. Qed.

Lemma neutral_good f l k : neutral f = true -> good l k -> good l (f :: k).
Proof.
  intros Hn H. split; [|exact H]. rewrite fsum_cons, (neutral_sums f) by eauto. apply good_nonneg in H. lia.
Qed.

(** Pushing one such frame. *)
Lemma push_neutral s f lv :
  active s -> neutral f = true -> frame_ok s (running_thread s) f -> offs (f :: frames s) ->
  (running_thread s = idle_thread s -> idle_shape (f :: frames s)) -> active (push [f] (set_level s lv)).
Proof.
  intros A Hn Hf Hof Hs. apply (active_local s A _ (f :: frames s)); [|reflexivity..].
  apply (frames_change s A); try reflexivity; try (intros; rewrite fsum_cons, (neutral_sums f) by eauto; lia).
  - constructor; [exact Hf|apply (frames_ok s A)].
  - intros l. apply neutral_good; [exact Hn|apply (frames_good s A)].
  - exact Hof.
  - intros l. pose proof (frames_obey s A l). destruct f; try discriminate Hn; exact H.
  - exact Hs.
Qed.

Lemma active_ext s : active s -> intr_context s = false.
Proof. intros A. apply (c_ext s (a_core s A)). Qed.

Lemma set_status_run s t st th :
  threads s !! t = Some th -> set_status t st s = Ret (set_threads s (<[t := with_status st th]> (threads s))).
Proof. intros E. unfold set_status. rewrite E. reflexivity. Qed.

Lemma same_objects_trans s1 s2 s3 : same_objects s1 s2 -> same_objects s2 s3 -> same_objects s1 s3.
Proof. unfold same_objects. intuition congruence. Qed.

(** The running thread stops running for a state other than [DYING]. *)
Lemma hand_over s s' st :
  active s -> restat s s' (running_thread s) st -> st <> THREAD_RUNNING -> st <> THREAD_DYING ->
  running_thread s' = running_thread s -> initial_thread s' = initial_thread s -> intr_get_level s' = false ->
  handing_over s'.
Proof.
  intros A H Hn Hd Er Ei Hl. pose proof (fun x => restat_stat _ _ _ _ x H) as E. split; rewrite ?Er, ?Ei.
  - apply (core_restat s s' _ _ (a_core s A) H).
  - intros t. rewrite E. case_decide as Ht; [congruence|]. intros E'. apply Ht, (a_run s A), E'.
  - apply (restat_some _ _ _ _ _ H), (run_some s A).
  - intros t. rewrite E. case_decide as Ht; [congruence|]. intros E'. left. apply (a_dying s A), E'.
  - rewrite E, decide_True by reflexivity. congruence.
  - exact Hl.
Qed.

Lemma not_ready s : active s -> running_thread s ∉ ready_list s.
Proof. intros A [E _]%(c_ready s (a_core s A)). rewrite (run_stat s A) in E. discriminate. Qed.

Lemma run_creat s : active s -> total (creat (running_thread s)) (stacks s) = 0.
Proof. intros A. apply (creat_zero s (a_core s A)). right. rewrite (run_stat s A). discriminate. Qed.
Lemma run_waits s a : active s -> running_thread s ∉ wts s a.
Proof. intros A. apply (not_waiting s (a_core s A)). rewrite (run_stat s A). discriminate. Qed.
Lemma run_listed s st :
  active s -> st <> THREAD_DYING ->
  forall x, x ∈ all_list s <-> (x = running_thread s /\ st <> THREAD_DYING) \/ (x <> running_thread s /\ x ∈ all_list s).
Proof. intros A H. apply (listed_same s (a_core s A) _ THREAD_RUNNING); [apply (run_stat s A)|discriminate|exact H]. Qed.

Lemma thread_yield_ok s :
  active s -> offs (KSetLevel (intr_get_level s) :: frames s) ->
  exists s', thread_yield s = Ret s' /\ inv s' /\ same_objects s s'.
Proof.
  intros A Hof. unfold thread_yield. rewrite (current_ok s A). cbn [mbind res_bind]. rewrite (active_ext s A).
  cbn [negb assert mbind res_bind intr_disable].
  assert (A1 : active (push [KSetLevel (intr_get_level s)] (set_level s false))).
  { apply push_neutral; [exact A|reflexivity|exact I|exact Hof|]. apply (frames_shape s A). }
  set (s1 := push _ _) in *. pose proof (not_ready s1 A1) as Hnr.
  destruct (stat_lookup s1 _ _ (run_stat s1 A1)) as (th & Eth & Est). change (running_thread s1) with (running_thread s) in *.
  change (idle_thread s1) with (idle_thread s).
  set (l := if negb (running_thread s =? idle_thread s) then ready_list s ++ [running_thread s] else ready_list s).
  assert (Hl : NoDup l /\ forall x, x ∈ l <-> (x = running_thread s /\ THREAD_READY = THREAD_READY /\
            running_thread s <> idle_thread s) \/ (x <> running_thread s /\ x ∈ ready_list s)).
  { unfold l. pose proof (c_nodup s (a_core s A)). destruct (Z.eqb_spec (running_thread s) (idle_thread s)) as [E|E]; cbn [negb].
    - split; [assumption|]. intros x. destruct (decide (x = running_thread s)) as [->|]; naive_solver.
    - split.
      + apply NoDup_app. split; [assumption|]. split; [|apply NoDup_singleton]. intros x Hx ->%list_elem_of_singleton. contradiction.
      + intros x. rewrite elem_of_app, list_elem_of_singleton. destruct (decide (x = running_thread s)) as [->|]; naive_solver. }
  destruct Hl as [Hd Hl].
  replace (if negb (running_thread s =? idle_thread s) then set_ready s1 (ready_list s1 ++ [running_thread s]) else s1)
    with (set_ready s1 l) by (unfold l; destruct (negb _); [reflexivity|destruct s; reflexivity]).
  rewrite (set_status_run (set_ready s1 l) _ _ th Eth). cbn [mbind res_bind].
  destruct (schedule_ok (set_threads (set_ready s1 l) (<[running_thread s := with_status THREAD_READY th]> (threads (set_ready s1 l)))))
    as (s' & E & I' & So).
  - apply (hand_over s1 _ THREAD_READY A1); try discriminate; try reflexivity.
    apply (restat_plain s1 _ _ _ th (a_core s1 A1) Eth); try reflexivity; try discriminate.
    + apply (run_creat s1 A1).
    + intros a. apply (run_waits s1 a A1).
    + exact Hd.
    + exact Hl.
    + apply (c_all s1 (a_core s1 A1)).
    + apply (run_listed s1 _ A1). discriminate.
  - exists s'. split; [exact E|]. split; [exact I'|]. eapply same_objects_trans; [|exact So]. repeat split.
Qed.

(** ** Semaphores *)

Definition top_on (k : list frame) : Prop := match k with f :: _ => off_frame f = false | [] => True end.

Lemma inv_active s : inv s -> active s.
Proof. intros [C Hr Hd _]. split; assumption. Qed.
Lemma active_inv s : active s -> top_on (frames s) \/ intr_get_level s = false -> inv s.
Proof.
  intros [C Hr Hd] H. split; auto. intros f k E Ho. destruct H as [H|H]; [|exact H]. rewrite E in H. cbn in H. congruence.
Qed.

Definition at_stack (s : kstate) (k : list frame) : kstate := set_stacks s (<[running_thread s := k]> (stacks s)).

Lemma at_stack_frames s k : frames (at_stack s k) = k.
Proof. unfold frames, at_stack. cbn. rewrite lookup_insert_eq. reflexivity. Qed.

Lemma at_stack_id s : active s -> at_stack s (frames s) = s.
Proof.
  intros A. unfold at_stack. rewrite insert_id by apply (run_stack s A). destruct s; reflexivity.
Qed.

Lemma set_level_run s lv :
  intr_context s = false -> intr_set_level lv s = Ret (set_level s lv).
Proof. intros E. unfold intr_set_level, intr_enable. rewrite E. destruct lv; reflexivity. Qed.

(** The stack without a call of [sema_down (a)] that is in progress or about
    to start. *)
Record downs (s : kstate) (a : sema) (k : list frame) : Prop := {
  d_tok : forall l, fsum (tok l) k = fsum (tok l) (frames s) + one (a = LockSema l);
  d_loop : forall b, fsum (loop b) (frames s) - one (b = a) <= fsum (loop b) k;
  d_creat : forall t, fsum (creat t) k = fsum (creat t) (frames s);
  d_frames : Forall (frame_ok s (running_thread s)) k;
  d_good : forall l, good l k;
  d_offs : offs k;
  d_top : top_on k;
  d_obeys : forall l, obeys l (held_by s l (running_thread s)) k;
  d_idle : running_thread s <> idle_thread s;
  d_sema : is_Some (semas s !! a) }.

Lemma val_set s a sm b :
  val (set_semas s (<[a := sm]> (semas s))) b = if decide (b = a) then value sm else val s b.
Proof.
  unfold val. cbn. destruct (decide (b = a)) as [->|Hne]; [rewrite lookup_insert_eq; reflexivity|].
  rewrite lookup_insert_ne by auto. reflexivity.
Qed.
Lemma wts_set s a sm b :
  wts (set_semas s (<[a := sm]> (semas s))) b = if decide (b = a) then waiters sm else wts s b.
Proof.
  unfold wts. cbn. destruct (decide (b = a)) as [->|Hne]; [rewrite lookup_insert_eq; reflexivity|].
  rewrite lookup_insert_ne by auto. reflexivity.
Qed.
Lemma val_of s a sm : semas s !! a = Some sm -> val s a = value sm.
Proof. intros E. unfold val. rewrite E. reflexivity. Qed.
Lemma wts_of s a sm : semas s !! a = Some sm -> wts s a = waiters sm.
Proof. intros E. unfold wts. rewrite E. reflexivity. Qed.
Lemma insert_some {A} (m : gmap sema A) a x y b : m !! a = Some x -> is_Some (m !! b) <-> is_Some (<[a := y]> m !! b).
Proof.
  intros E. destruct (decide (b = a)) as [->|Hne]; [rewrite lookup_insert_eq, E; split; eauto|].
  rewrite lookup_insert_ne by auto. reflexivity.
Qed.

(** A semaphore takes the value [v]; the balance of the locks and of the
    wake-ups is kept by the change of the stack. *)
Lemma sema_change s s' a sm v k :
  active s -> semas s !! a = Some sm -> 0 <= v < 2 ^ 32 ->
  objects s' = objects s -> holder s' = holder s -> conds s' = conds s ->
  semas s' = <[a := mk_sema v (waiters sm)]> (semas s) -> stacks s' = <[running_thread s := k]> (stacks s) ->
  (forall l, is_Some (holder s !! l) ->
     fsum (tok l) k - fsum (tok l) (frames s) = if decide (a = LockSema l) then value sm - v else 0) ->
  (forall b, wts s b <> [] -> (if decide (b = a) then v + lenZ (waiters sm) else val s b + lenZ (wts s b))
                              <= total (loop b) (stacks s) - fsum (loop b) (frames s) + fsum (loop b) k) ->
  (forall t, fsum (creat t) k = fsum (creat t) (frames s)) ->
  Forall (frame_ok s (running_thread s)) k -> (forall l, good l k) -> offs k ->
  (forall l, obeys l (held_by s l (running_thread s)) k) -> (running_thread s = idle_thread s -> idle_shape k) ->
  local_change s s' k.
Proof.
  intros A Es Hv [= E1 E2 E3 E4 E5 E6 E7] E9 E10 E8 E11 Ht Hl Hc Hf Hg Hof Ho Hs. pose proof (a_core s A) as C.
  assert (Ew : forall b, wts s' b = wts s b).
  { intros b. unfold wts at 1. rewrite E8. destruct (decide (b = a)) as [->|Hne].
    - rewrite lookup_insert_eq, (wts_of s a sm Es). reflexivity.
    - rewrite lookup_insert_ne by auto. reflexivity. }
  assert (Ev : forall b, val s' b = if decide (b = a) then v else val s b).
  { intros b. unfold val at 1. rewrite E8. destruct (decide (b = a)) as [->|Hne].
    - rewrite lookup_insert_eq. reflexivity.
    - rewrite lookup_insert_ne by auto. reflexivity. }
  assert (Hsm : forall b, is_Some (semas s !! b) <-> is_Some (semas s' !! b)).
  { intros b. rewrite E8. apply (insert_some _ _ _ _ _ Es). }
  split; auto; rewrite ?E5, ?E6, ?E7, ?E9, ?E10; auto.
  - apply (c_timed s C).
  - apply (c_ext s C).
  - intros b. rewrite Ev. case_decide; [exact Hv|apply (c_val s C)].
  - intros b. apply Hsm.
  - apply (c_rem s C).
  - intros c ws w. rewrite <- Hsm. apply (c_conds s C).
  - intros l. rewrite <- Hsm. apply (c_lsema s C).
  - intros l Hi. unfold taken. rewrite Ev, E9. pose proof (c_lock s C l Hi) as H. unfold taken in H. specialize (Ht l Hi).
    destruct (decide (LockSema l = a)) as [<-|Hne].
    + rewrite decide_True in Ht by reflexivity. rewrite (val_of s _ sm Es) in H. lia.
    + rewrite decide_False in Ht by auto. lia.
  - intros l t _ _. unfold held_by. rewrite E9. reflexivity.
  - intros b Hw. specialize (Hl b Hw). rewrite Ev. destruct (decide (b = a)) as [->|Hne]; [|exact Hl].
    rewrite (wts_of s a sm Es). exact Hl.
  - eapply Forall_impl; [exact Hf|]. intros f. apply frame_ok_restat; auto.
  - intros l. unfold held_by. rewrite E9. apply Ho.
Qed.

Lemma sema_some s a : is_Some (semas s !! a) -> exists sm, semas s !! a = Some sm /\ value sm = val s a /\ waiters sm = wts s a.
Proof. intros [sm E]. exists sm. rewrite (val_of s a sm E), (wts_of s a sm E). auto. Qed.

(** The value was positive. *)
Lemma down_success s a k sm old :
  active s -> downs s a k -> semas s !! a = Some sm -> value sm <> 0 ->
  inv (set_level (set_semas (at_stack s k) (<[a := mk_sema (wrap 32 (value sm - 1)) (waiters sm)]> (semas s))) old).
Proof.
  intros A D Es Hv. pose proof (c_val s (a_core s A) a) as Hr. rewrite (val_of s a sm Es) in Hr.
  rewrite wrap_id by (unfold inU; lia). set (s' := set_level _ _). apply active_inv.
  - apply (active_local s A s' k); [|reflexivity..].
    apply (sema_change s s' a sm (value sm - 1) k A Es); try reflexivity; try apply D; [lia| | |].
    + intros l _. rewrite (d_tok s a k D). unfold one. case_decide; lia.
    + intros b Hw. pose proof (c_wake s (a_core s A) b Hw) as H. pose proof (d_loop s a k D b) as Hl. unfold one in Hl.
      case_decide as Hb; [subst b; rewrite (val_of s a sm Es), (wts_of s a sm Es) in H|]; lia.
    + intros E. destruct (d_idle s a k D E).
  - left. unfold s'. change (frames _) with (frames (at_stack s k)). rewrite at_stack_frames. apply (d_top s a k D).
Qed.

(** The value was zero: the thread waits. *)
Lemma down_waits s a k sm old th :
  active s -> downs s a k -> semas s !! a = Some sm -> value sm = 0 -> threads s !! running_thread s = Some th ->
  let s1 := set_level (at_stack s (KSemaLoop a old :: k)) false in
  handing_over (set_threads (set_semas s1 (<[a := mk_sema (value sm) (waiters sm ++ [running_thread s])]> (semas s)))
                  (<[running_thread s := with_status THREAD_BLOCKED th]> (threads s))).
Proof.
  intros A D Es Hv Eth s1. assert (A1 : active s1).
  { apply (active_local s A s1 (KSemaLoop a old :: k)); [|reflexivity..].
    apply (frames_change s A); try reflexivity.
    - intros l. rewrite fsum_cons, (d_tok s a k D). cbn [tok]. lia.
    - intros b. rewrite fsum_cons. pose proof (d_loop s a k D b) as H. cbn [loop]. unfold one in *.
      destruct (decide (b = a)), (decide (a = b)); try congruence; lia.
    - intros t. rewrite fsum_cons. apply (d_creat s a k D).
    - constructor; [apply (d_sema s a k D)|apply (d_frames s a k D)].
    - intros l. split; [|apply (d_good s a k D)]. rewrite fsum_cons, (d_tok s a k D). cbn [tok].
      pose proof (good_nonneg l _ (frames_good s A l)). lia.
    - split; [|apply (d_offs s a k D)]. pose proof (d_top s a k D) as H. destruct k; [exact I|]. cbn in H. congruence.
    - apply (d_obeys s a k D).
    - intros E. destruct (d_idle s a k D E). }
  pose proof (a_core s1 A1) as C1. set (s' := set_threads _ _).
  assert (Ew : forall b, wts s' b = if decide (b = a) then waiters sm ++ [running_thread s] else wts s1 b)
    by (intros b; apply (wts_set s1)).
  assert (Ev : forall b, val s' b = val s1 b).
  { intros b. etransitivity; [apply (val_set s1)|]. case_decide as Hb; [subst b|reflexivity].
    symmetry. apply (val_of s1 a sm Es). }
  assert (Hwa : wts s1 a = waiters sm) by apply (wts_of s1 a sm Es).
  assert (Hnd : NoDup (waiters sm ++ [running_thread s])).
  { apply NoDup_app. split; [rewrite <- Hwa; apply (c_wnodup s1 C1)|]. split; [|apply NoDup_singleton].
    intros x Hx ->%list_elem_of_singleton. rewrite <- Hwa in Hx. exact (run_waits s1 a A1 Hx). }
  assert (Hk : stk s1 (running_thread s) = KSemaLoop a old :: k) by apply (at_stack_frames s).
  assert (H : restat s1 s' (running_thread s) THREAD_BLOCKED).
  { split; try reflexivity; try discriminate; auto; try apply C1.
    - exists th. auto.
    - apply (run_creat s1 A1).
    - intros x. cbn. destruct (decide (x = running_thread s)) as [->|Hx]; [|naive_solver].
      split; [intros Hin; destruct (not_ready s1 A1 Hin)|naive_solver].
    - intros b. apply (insert_some _ _ _ _ _ Es).
    - intros b. rewrite Ew. case_decide; [exact Hnd|apply (c_wnodup s1 C1)].
    - intros b x Hx. rewrite Ew. case_decide as Hb; [subst b|reflexivity].
      rewrite Hwa, elem_of_app, list_elem_of_singleton. naive_solver.
    - intros b. rewrite Ew. case_decide as Hb; [subst b; intros _; split; [reflexivity|eauto]|].
      intros Hin. destruct (run_waits s1 b A1 Hin).
    - intros _. right. exists a, old, k. split; [exact Hk|]. rewrite Ew, decide_True by reflexivity. set_solver.
    - intros b. rewrite Ew, Ev. case_decide as Hb; [subst b|apply (c_wake s1 C1)]. intros _.
      rewrite (val_of s1 a sm Es), Hv. apply (waiters_le s1 C1 a _ Hnd). intros t [Hin| ->%list_elem_of_singleton]%elem_of_app.
      + rewrite <- Hwa in Hin. destruct (c_waits s1 C1 a t Hin) as [E Hx]. split; [|exact Hx].
        apply stat_some. rewrite E. eauto.
      + split; [apply (run_some s1 A1)|eauto].
    - apply (run_listed s1 _ A1). discriminate.
    - intros x. eapply Forall_impl; [apply (c_frames s1 C1)|]. intros f. apply frame_ok_restat; try reflexivity.
      intros b. apply (insert_some _ _ _ _ _ Es). }
  apply (hand_over s1 s' _ A1 H); try discriminate; reflexivity.
Qed.

Lemma down_ok s a k old :
  active s -> downs s a k ->
  exists s', sema_down_loop a old (set_level (at_stack s k) false) = Ret s' /\ inv s' /\ holder s' = holder s.
Proof.
  intros A D. destruct (d_sema s a k D) as [sm Es]. unfold sema_down_loop.
  cbn [semas set_level at_stack set_stacks]. rewrite Es. cbn [the mbind res_bind].
  destruct (stat_lookup s _ _ (run_stat s A)) as (th & Eth & Est).
  assert (Ecur : forall s1, threads s1 = threads s -> running_thread s1 = running_thread s ->
            thread_current s1 = Ret (running_thread s)).
  { intros s1 E1 E2. rewrite <- (current_ok s A). unfold thread_current, is_thread. rewrite E1, E2. reflexivity. }
  destruct (Z.eqb_spec (value sm) 0) as [Hv|Hv].
  - rewrite Ecur by reflexivity. cbn [mbind res_bind]. unfold thread_block.
    change (intr_context _) with (intr_context s). rewrite (active_ext s A).
    cbn [negb assert mbind res_bind intr_get_level push set_stacks set_semas set_level].
    rewrite Ecur by reflexivity. cbn [mbind res_bind].
    rewrite (set_status_run _ _ _ th) by exact Eth. cbn [mbind res_bind].
    destruct (schedule_ok _ (down_waits s a k sm old th A D Es Hv Eth)) as (s' & E & I' & So).
    exists s'. split; [|split; [exact I'|apply So]].
    rewrite <- E. f_equal. unfold push, at_stack, set_level, set_semas, set_threads, set_stacks, frames.
    cbn. rewrite lookup_insert_eq, insert_insert_eq. reflexivity.
  - rewrite set_level_run by apply (active_ext s A).
    eexists. split; [reflexivity|]. split; [apply (down_success s a k sm old A D Es Hv)|reflexivity].
Qed.

(** What [sema_up] does to the state. *)
Definition up_state (s : kstate) (a : sema) (sm : semaphore) : kstate :=
  match waiters sm with
  | [] => set_semas s (<[a := mk_sema (wrap 32 (value sm + 1)) []]> (semas s))
  | t :: l =>
      match threads s !! t with
      | Some th =>
          set_semas (set_threads (set_ready s (ready_list s ++ [t])) (<[t := with_status THREAD_READY th]> (threads s)))
            (<[a := mk_sema (wrap 32 (value sm + 1)) l]> (semas s))
      | None => s
      end
  end.

Lemma set_level_set_level s l1 l2 : set_level (set_level s l1) l2 = set_level s l2.
Proof. reflexivity. Qed.

Lemma sema_up_run s a sm :
  semas s !! a = Some sm ->
  (forall t, t ∈ waiters sm -> is_thread s t = true /\ stat s t = Some THREAD_BLOCKED) ->
  (intr_get_level s = true -> intr_context s = false) ->
  sema_up a s = Ret (up_state s a sm).
Proof.
  intros Es Hw Hl. unfold sema_up, up_state. cbn [intr_disable semas set_level]. rewrite Es. cbn [the mbind res_bind].
  assert (El : forall s1, intr_context s1 = intr_context s ->
            intr_set_level (intr_get_level s) s1 = Ret (set_level s1 (intr_get_level s))).
  { intros s1 E1. destruct (intr_get_level s); [|reflexivity]. apply set_level_run. rewrite E1. apply Hl. reflexivity. }
  destruct (waiters sm) as [|t l] eqn:Ew.
  - cbn [mbind res_bind]. cbn [semas set_level]. rewrite Es. cbn [the mbind res_bind]. rewrite El by reflexivity.
    rewrite Ew. destruct s; reflexivity.
  - destruct (Hw t ltac:(constructor)) as [Hi (th & Eth & Est)%stat_lookup]. unfold thread_unblock.
    change (is_thread _ t) with (is_thread s t). rewrite Hi. cbn [assert mbind res_bind intr_disable].
    cbn [threads set_level set_semas]. rewrite Eth. cbn [the mbind res_bind]. rewrite bool_decide_eq_true_2 by exact Est.
    cbn [assert mbind res_bind]. rewrite (set_status_run _ _ _ th) by exact Eth.
    cbn [mbind res_bind intr_get_level set_level set_semas intr_set_level snd intr_disable semas set_threads set_ready].
    rewrite lookup_insert_eq. cbn [the mbind res_bind]. rewrite El by reflexivity.
    cbn [value waiters].
    rewrite insert_insert_eq. destruct s; reflexivity.
Qed.

(** The stack without a call of [sema_up (a)]. *)
Record ups (s : kstate) (a : sema) (k : list frame) : Prop := {
  u_tok : forall l, fsum (tok l) k = fsum (tok l) (frames s) - one (a = LockSema l);
  u_loop : forall b, fsum (loop b) k = fsum (loop b) (frames s);
  u_creat : forall t, fsum (creat t) k = fsum (creat t) (frames s);
  u_frames : Forall (frame_ok s (running_thread s)) k;
  u_good : forall l, good l k;
  u_offs : offs k;
  u_obeys : forall l, obeys l (held_by s l (running_thread s)) k;
  u_shape : running_thread s = idle_thread s -> idle_shape k;
  u_sema : is_Some (semas s !! a) }.

(** The first waiter becomes ready. *)
Lemma wake_first s a sm t l th :
  active s -> semas s !! a = Some sm -> waiters sm = t :: l -> threads s !! t = Some th ->
  active (set_semas (set_threads (set_ready s (ready_list s ++ [t])) (<[t := with_status THREAD_READY th]> (threads s)))
            (<[a := mk_sema (value sm) l]> (semas s))).
Proof.
  intros A Es Ew Eth. set (s' := set_semas _ _). pose proof (a_core s A) as C.
  assert (Hwa : wts s a = t :: l) by (rewrite (wts_of s a sm Es); exact Ew).
  assert (Ht : t ∈ wts s a) by (rewrite Hwa; constructor).
  destruct (c_waits s C a t Ht) as [Hst (old & k & Hk)].
  pose proof (c_wnodup s C a) as Hnd. rewrite Hwa in Hnd. apply NoDup_cons in Hnd as [Hnt Hnd].
  assert (Hnr : t ∉ ready_list s) by (intros [E _]%(c_ready s C); congruence).
  assert (Hti : t <> idle_thread s) by (intros ->; exact (idle_not_waiting s C a Ht)).
  assert (Htr : t <> running_thread s) by (intros ->; exact (run_waits s a A Ht)).
  assert (Hcr : total (creat t) (stacks s) = 0).
  { destruct (c_create s C t) as [E|(_ & _ & _ & [Hf|Hf])]; [exact E|congruence..]. }
  assert (Ew' : forall b, wts s' b = if decide (b = a) then l else wts s b)
    by (intros b; apply (wts_set (set_threads (set_ready s (ready_list s ++ [t])) _))).
  assert (Ev : forall b, val s' b = val s b).
  { intros b. etransitivity; [apply (val_set (set_threads (set_ready s (ready_list s ++ [t])) _))|].
    case_decide as Hb; [subst b|reflexivity]. symmetry. apply (val_of s a sm Es). }
  assert (H : restat s s' t THREAD_READY).
  { split; try reflexivity; try discriminate; auto; try apply C.
    - exists th. auto.
    - apply NoDup_app. split; [apply (c_nodup s C)|]. split; [|apply NoDup_singleton].
      intros x Hx ->%list_elem_of_singleton. contradiction.
    - intros x. cbn. rewrite elem_of_app, list_elem_of_singleton. destruct (decide (x = t)) as [->|Hx]; naive_solver.
    - intros b. apply (insert_some _ _ _ _ _ Es).
    - intros b. rewrite Ew'. case_decide; [exact Hnd|apply (c_wnodup s C)].
    - intros b x Hx. rewrite Ew'. case_decide as Hb; [subst b|reflexivity]. rewrite Hwa, elem_of_cons. naive_solver.
    - intros b. rewrite Ew'. case_decide as Hb; [contradiction|]. intros Hin.
      destruct (c_waits s C b t Hin) as (_ & old' & k' & E). congruence.
    - intros b Hw. rewrite Ew' in *. rewrite Ev. case_decide as Hb; [subst b|apply (c_wake s C b Hw)].
      pose proof (c_wake s C a) as H. rewrite Hwa in H. specialize (H ltac:(discriminate)). unfold lenZ in *. cbn [length] in H. lia.
    - apply (listed_same s C t THREAD_BLOCKED THREAD_READY Hst); discriminate.
    - intros x. eapply Forall_impl; [apply (c_frames s C)|]. intros f. apply frame_ok_restat; try reflexivity.
      intros b. apply (insert_some _ _ _ _ _ Es). }
  pose proof (fun x => restat_stat _ _ _ _ x H) as E. split.
  - apply (core_restat s s' t _ C H).
  - intros x. rewrite E. case_decide as Hx; [subst x; split; [discriminate|intros Hx; destruct (Htr Hx)]|apply (a_run s A)].
  - intros x. rewrite E. case_decide; [discriminate|]. apply (a_dying s A).
Qed.

(** The semaphore of a lock being released is zero. *)
Lemma up_lock_zero s a k l : active s -> ups s a k -> a = LockSema l -> is_Some (holder s !! l) -> val s a = 0.
Proof.
  intros A U -> Hh. pose proof (c_lock s (a_core s A) l Hh) as H. pose proof (c_val s (a_core s A) (LockSema l)).
  pose proof (tok_le_total s (a_core s A) l _ _ (run_stack s A)) as Ht. pose proof (u_tok s _ k U l) as Hk.
  pose proof (good_nonneg l k (u_good s _ k U l)). unfold one in Hk. rewrite decide_True in Hk by reflexivity.
  assert (0 <= taken s l) by (unfold taken; destruct (holder s !! l); [destruct (_ =? _)|]; lia). lia.
Qed.

Lemma up_value s a k sm l :
  active s -> ups s a k -> semas s !! a = Some sm -> is_Some (holder s !! l) ->
  fsum (tok l) k - fsum (tok l) (frames s) = if decide (a = LockSema l) then value sm - wrap 32 (value sm + 1) else 0.
Proof.
  intros A U Es Hh. rewrite (u_tok s a k U). unfold one. case_decide as E; [|lia].
  pose proof (up_lock_zero s a k l A U E Hh) as Hv. rewrite (val_of s a sm Es) in Hv. rewrite Hv. change (wrap 32 (0 + 1)) with 1. lia.
Qed.

Lemma wrap_succ_le v : 0 <= v -> wrap 32 (v + 1) <= v + 1.
Proof. intros H. unfold wrap. apply Z.mod_le; lia. Qed.

Lemma up_active s a k sm :
  active s -> ups s a k -> semas s !! a = Some sm -> active (up_state (at_stack s k) a sm).
Proof.
  intros A U Es. pose proof (a_core s A) as C. unfold up_state. cbn [threads ready_list semas at_stack set_stacks].
  pose proof (c_val s C a) as Hv. rewrite (val_of s a sm Es) in Hv. pose proof (wrap_inU 32 ltac:(lia) (value sm + 1)) as Hw.
  destruct (waiters sm) as [|t l] eqn:Ew.
  - set (s' := set_semas _ _). apply (active_local s A s' k); [|reflexivity..].
    apply (sema_change s s' a sm (wrap 32 (value sm + 1)) k A Es); try reflexivity; try apply U; [exact Hw|rewrite Ew; reflexivity| |].
    + intros l. apply (up_value s a k sm l A U Es).
    + intros b Hb. rewrite (u_loop s a k U). case_decide as E; [subst b; rewrite (wts_of s a sm Es) in Hb; contradiction|].
      pose proof (c_wake s C b Hb). lia.
  - assert (Hin : t ∈ wts s a) by (rewrite (wts_of s a sm Es), Ew; constructor).
    destruct (c_waits s C a t Hin) as [(th & Eth & _)%stat_lookup _]. rewrite Eth.
    pose proof (wake_first s a sm t l th A Es Ew Eth) as A1. set (s1 := set_semas _ _) in A1. set (s' := set_semas _ _).
    assert (Es1 : semas s1 !! a = Some (mk_sema (value sm) l)) by apply lookup_insert_eq.
    apply (active_local s1 A1 s' k); [|reflexivity..].
    apply (sema_change s1 s' a (mk_sema (value sm) l) (wrap 32 (value sm + 1)) k A1 Es1); try reflexivity; try apply U; [exact Hw| | | |].
    + unfold s1, s'. cbn [semas set_semas waiters]. rewrite insert_insert_eq. reflexivity.
    + intros l'. apply (up_value s a k sm l' A U Es).
    + intros b Hb. change (frames s1) with (frames s). rewrite (u_loop s a k U). change (stacks s1) with (stacks s).
      assert (Ew1 : wts s1 b = if decide (b = a) then l else wts s b)
        by apply (wts_set (set_threads (set_ready s (ready_list s ++ [t])) _)).
      assert (Ev1 : b <> a -> val s1 b = val s b).
      { intros Hne. etransitivity; [apply (val_set (set_threads (set_ready s (ready_list s ++ [t])) _))|].
        rewrite decide_False by exact Hne. reflexivity. }
      rewrite Ew1 in *. case_decide as E.
      * subst b. pose proof (c_wake s C a) as H. rewrite (wts_of s a sm Es), (val_of s a sm Es), Ew in H.
        specialize (H ltac:(discriminate)). pose proof (wrap_succ_le (value sm) ltac:(lia)). unfold lenZ in *.
        cbn [length waiters] in *. lia.
      * rewrite Ev1 by exact E. pose proof (c_wake s C b Hb). lia.
    + eapply Forall_impl; [apply (u_frames s a k U)|]. intros f. apply frame_ok_restat; try reflexivity.
      intros b. apply (insert_some _ _ _ _ _ Es).
Qed.

(** ** One frame *)

Lemma good_app l k1 k2 : good l k1 -> good l k2 -> good l (k1 ++ k2).
Proof.
  intros H1 H2. apply good_nonneg in H2 as H0. induction k1 as [|f k1 IH]; [exact H2|]. destruct H1 as [Hf H1].
  split; [|apply IH, H1]. change (0 <= fsum (tok l) ((f :: k1) ++ k2)). rewrite fsum_app. lia.
Qed.

Lemma offs_app k1 k2 : forallb (fun f => negb (off_frame f)) k1 = true -> top_on k2 -> offs k2 -> offs (k1 ++ k2).
Proof.
  intros H1 Ht H2. induction k1 as [|f k1 IH]; [exact H2|]. cbn [forallb] in H1. apply andb_prop in H1 as [Hf H1].
  split; [|apply IH, H1]. destruct k1 as [|g k1]; cbn [app].
  - destruct k2; [exact I|]. cbn in Ht. congruence.
  - cbn in H1. apply andb_prop in H1 as [Hg _]. apply negb_true_iff in Hg. congruence.
Qed.

Lemma offs_top f k : offs (f :: k) -> (forall old, f <> KSetLevel old) -> top_on k.
Proof.
  intros [H _] Hf. destruct k as [|g k]; [exact I|]. cbn. destruct (off_frame g) eqn:E; [|reflexivity].
  destruct (H eq_refl) as [_ E']. destruct (Hf false E').
Qed.

Lemma top_app k1 k2 : forallb (fun f => negb (off_frame f)) k1 = true -> top_on k2 -> top_on (k1 ++ k2).
Proof. intros H Ht. destruct k1; [exact Ht|]. cbn in *. apply andb_prop in H as [H _]. apply negb_true_iff, H. Qed.

(** What is known of the frame on top and of those below. *)
Section Pop.
Context (s : kstate) (A : active s) (f : frame) (k : list frame) (Ef : frames s = f :: k).

Lemma pop_frame : frame_ok s (running_thread s) f /\ Forall (frame_ok s (running_thread s)) k.
Proof using A Ef. pose proof (frames_ok s A) as H. rewrite Ef in H. apply Forall_cons in H. exact H. Qed.
Lemma pop_good l : good l k.
Proof using A Ef. pose proof (frames_good s A l) as H. rewrite Ef in H. apply H. Qed.
Lemma pop_offs : offs k.
Proof using A Ef. pose proof (frames_offs s A) as H. rewrite Ef in H. apply H. Qed.
Lemma pop_top : (forall old, f <> KSetLevel old) -> top_on k.
Proof using A Ef. pose proof (frames_offs s A) as H. rewrite Ef in H. apply (offs_top f k H). Qed.
Lemma pop_obeys l : obeys l (held_by s l (running_thread s)) (f :: k).
Proof using A Ef. rewrite <- Ef. apply (frames_obey s A). Qed.
Lemma pop_shape : running_thread s = idle_thread s -> idle_shape (f :: k).
Proof using A Ef. rewrite <- Ef. apply (frames_shape s A). Qed.

(** The frame is replaced by others; nothing else changes. *)
Lemma pop_to s' new :
  objects s' = objects s -> synch s' = synch s -> running_thread s' = running_thread s ->
  initial_thread s' = initial_thread s -> stacks s' = <[running_thread s := new ++ k]> (stacks s) ->
  (forall l, fsum (tok l) new = tok l f) -> (forall a, loop a f <= fsum (loop a) new) ->
  (forall t, fsum (creat t) new = creat t f) -> Forall (frame_ok s (running_thread s)) new ->
  (forall l, good l new) -> forallb (fun f => negb (off_frame f)) new = true ->
  (forall l, obeys l (held_by s l (running_thread s)) (new ++ k)) ->
  (running_thread s = idle_thread s -> idle_shape (new ++ k)) -> (forall old, f <> KSetLevel old) ->
  inv s'.
Proof using A Ef.
  intros E1 E2 E3 E4 E5 Ht Hl Hc Hf Hg Ho Hob Hs Hsl. pose proof (pop_top Hsl) as Htop. apply active_inv.
  - apply (active_local s A s' (new ++ k)); [|exact E3|exact E4]. apply (frames_change s A); auto; intros; rewrite ?Ef, ?fsum_app, ?fsum_cons.
    + rewrite Ht. reflexivity.
    + specialize (Hl a). lia.
    + rewrite Hc. reflexivity.
    + apply Forall_app. split; [exact Hf|apply pop_frame].
    + apply good_app; [apply Hg|apply pop_good].
    + apply offs_app; [exact Ho|exact Htop|apply pop_offs].
  - left. unfold frames. rewrite E3, E5, lookup_insert_eq. apply top_app; [exact Ho|exact Htop].
Qed.

(** The frame is dropped. *)
Lemma pop_drop s' :
  objects s' = objects s -> synch s' = synch s -> running_thread s' = running_thread s ->
  initial_thread s' = initial_thread s -> stacks s' = <[running_thread s := k]> (stacks s) ->
  (forall l, tok l f = 0) -> (forall a, loop a f = 0) -> (forall t, creat t f = 0) ->
  (forall l, obeys l (held_by s l (running_thread s)) k) ->
  (running_thread s = idle_thread s -> idle_shape k) -> (forall old, f <> KSetLevel old) -> inv s'.
Proof using A Ef.
  intros E1 E2 E3 E4 E5 Ht Hl Hc Hob Hs Hsl.
  apply (pop_to s' []); try assumption; try reflexivity; try (intros; symmetry; auto; fail); [|apply Forall_nil_2].
  intros a. rewrite Hl. reflexivity.
Qed.
End Pop.

Lemma drop_at s f k : frames s = f :: k -> drop_frame s = at_stack s k.
Proof. intros E. unfold drop_frame, at_stack. rewrite E. reflexivity. Qed.

Lemma push_at s k new : push new (at_stack s k) = at_stack s (new ++ k).
Proof.
  unfold push. rewrite at_stack_frames. unfold at_stack. cbn [set_stacks running_thread stacks].
  rewrite insert_insert_eq. reflexivity.
Qed.
