(* ===== verification/ThreadSafe.v ===== *)
(** * Threads: every event keeps the invariant

    The pieces of code of [threads/synch.c], [threads/thread.c] and the timer,
    one by one, and what follows for any sequence of events: no assertion
    fails, a lock has one owner, no wake-up is lost. *)

From Stdlib Require Import ZArith Lia Bool.
From stdpp Require Import base list gmap.
From S2P Require Import Prelude Thread ThreadInv.

(** The holder of one lock changes, to the running thread or to nobody. *)
Lemma holder_change s s' l h k :
  active s -> objects s' = objects s -> semas s' = semas s -> conds s' = conds s ->
  holder s' = <[l := h]> (holder s) -> stacks s' = <[running_thread s := k]> (stacks s) ->
  is_Some (holder s !! l) -> h = NULL \/ h = running_thread s ->
  (forall t, t <> running_thread s -> is_Some (threads s !! t) -> holder s !! l <> Some t) ->
  (forall l', fsum (tok l') k - fsum (tok l') (frames s)
              = if decide (l' = l) then taken s l - (if h =? NULL then 0 else 1) else 0) ->
  (forall a, fsum (loop a) k = fsum (loop a) (frames s)) ->
  (forall t, fsum (creat t) k = fsum (creat t) (frames s)) ->
  Forall (frame_ok s (running_thread s)) k -> (forall l, good l k) -> offs k ->
  (forall l', obeys l' (if decide (l' = l) then bool_decide (h = running_thread s) else held_by s l' (running_thread s)) k) ->
  (running_thread s = idle_thread s -> idle_shape k) -> local_change s s' k.
Proof.
  intros A [= E1 E2 E3 E4 E5 E6 E7] E8 E10 E9 E11 Hsome Hh Hoth Ht Hl Hc Hf Hg Hof Ho Hs. pose proof (a_core s A) as C.
  assert (Ew : forall a, wts s' a = wts s a) by (intros a; unfold wts; rewrite E8; reflexivity).
  assert (Ev : forall a, val s' a = val s a) by (intros a; unfold val; rewrite E8; reflexivity).
  assert (Hhs : forall l', is_Some (holder s !! l') <-> is_Some (holder s' !! l')).
  { intros l'. rewrite E9. destruct (decide (l' = l)) as [->|Hne]; [rewrite lookup_insert_eq; split; eauto|].
    rewrite lookup_insert_ne by auto. reflexivity. }
  assert (Hnull : is_Some (threads s !! NULL) -> False) by (intros [th E]; apply (c_magic s C) in E as [_ E]; exact (E eq_refl)).
  split; auto; rewrite ?E5, ?E6, ?E7, ?E8, ?E10; auto.
  - apply (c_timed s C).
  - apply (c_ext s C).
  - intros a. rewrite Ev. apply (c_val s C).
  - intros l'. apply Hhs.
  - apply (c_rem s C).
  - apply (c_conds s C).
  - intros l' Hl'. apply (c_lsema s C), Hhs, Hl'.
  - intros l' Hl'%Hhs. rewrite Ev. pose proof (c_lock s C l' Hl') as H. specialize (Ht l').
    assert (Et : taken s' l' = if decide (l' = l) then (if h =? NULL then 0 else 1) else taken s l').
    { unfold taken. rewrite E9. destruct (decide (l' = l)) as [->|Hne]; [rewrite lookup_insert_eq; reflexivity|].
      rewrite lookup_insert_ne by auto. reflexivity. }
    rewrite Et. case_decide as Hd; [subst l'|]; lia.
  - intros l' h'. rewrite E9. destruct (decide (l' = l)) as [->|Hne]; [|rewrite lookup_insert_ne by auto; auto].
    rewrite lookup_insert_eq. intros [= <-]. destruct Hh as [->| ->]; auto.
  - intros l' t Hne Hsm. unfold held_by. rewrite E9. destruct (decide (l' = l)) as [->|Hl']; [|rewrite lookup_insert_ne by auto; reflexivity].
    rewrite lookup_insert_eq. rewrite !bool_decide_eq_false_2; [reflexivity|apply Hoth; assumption|].
    intros [= ->]. destruct Hh as [->|Hh]; [exact (Hnull Hsm)|contradiction].
  - intros a Hw. rewrite Ev, Hl. pose proof (c_wake s C a Hw). lia.
  - eapply Forall_impl; [exact Hf|]. intros f H. destruct f; cbn in *; rewrite ?E3, ?E7, ?E8, ?E10; auto; try (apply Hhs; exact H).
    + split; [apply H|apply Hhs, H].
    + split; [apply H|apply Hhs, H].
  - intros l'. specialize (Ho l'). unfold held_by at 1. rewrite E9. destruct (decide (l' = l)) as [->|Hne].
    + rewrite lookup_insert_eq. erewrite bool_decide_ext; [exact Ho|]. split; congruence.
    + rewrite lookup_insert_ne by auto. exact Ho.
Qed.

(** Who holds the lock before [KHolder] and [KRelease]. *)
Lemma holder_null s l k : active s -> frames s = KHolder l :: k -> holder s !! l = Some NULL.
Proof.
  intros A E. pose proof (a_core s A) as C. destruct (pop_frame s A _ _ E) as [[h Eh] _]. cbn in Eh.
  pose proof (c_lock s C l (ex_intro _ h Eh)) as H. pose proof (c_val s C (LockSema l)).
  pose proof (tok_le_total s C l _ _ (run_stack s A)) as Ht. rewrite E, fsum_cons in Ht. cbn [tok] in Ht.
  unfold one in Ht. rewrite decide_True in Ht by reflexivity. pose proof (good_nonneg l k (pop_good s A _ _ E l)).
  unfold taken in H. rewrite Eh in *. destruct (Z.eqb_spec h NULL) as [->|]; [reflexivity|lia].
Qed.

Lemma held_by_true s l t : held_by s l t = true -> holder s !! l = Some t.
Proof. apply bool_decide_eq_true. Qed.
Lemma held_by_false s l t : held_by s l t = false -> holder s !! l <> Some t.
Proof. apply bool_decide_eq_false. Qed.

Lemma take_lock_ok s l k :
  inv s -> frames s = KHolder l :: k ->
  exists s', take_lock l (at_stack s k) = Ret s' /\ inv s' /\ holder s' = <[l := running_thread s]> (holder s).
Proof.
  intros V E. pose proof (inv_active s V) as A. pose proof (a_core s A) as C. unfold take_lock.
  replace (thread_current (at_stack s k)) with (Ret (running_thread s)) by (symmetry; apply (current_ok s A)).
  eexists. split; [reflexivity|]. split; [|reflexivity]. set (s' := set_holder _ _).
  pose proof (holder_null s l k A E) as Hn. destruct (pop_frame s A _ _ E) as [_ Hf].
  assert (Hrn : running_thread s <> NULL) by (destruct (run_some s A) as [th Eth]; apply (c_magic s C _ _ Eth)).
  apply active_inv; [|left; change (frames s') with (frames (at_stack s k)); rewrite at_stack_frames; apply (pop_top s A _ _ E); discriminate].
  apply (active_local s A s' k); [|reflexivity..].
  apply (holder_change s s' l (running_thread s) k A); try reflexivity; try (rewrite E; intros; rewrite fsum_cons; reflexivity); auto.
  - rewrite Hn. intros t Ht [th Eth] [= <-]. apply (c_magic s C) in Eth as [_ Eth]. exact (Eth eq_refl).
  - intros l'. rewrite E, fsum_cons. cbn [tok]. unfold one, taken. rewrite Hn, (proj2 (Z.eqb_neq _ _) Hrn). cbn.
    destruct (decide (l = l')), (decide (l' = l)); try congruence; lia.
  - intros l'. apply (pop_good s A _ _ E).
  - apply (pop_offs s A _ _ E).
  - intros l'. pose proof (pop_obeys s A _ _ E l') as Ho. cbn [obeys] in Ho.
    destruct (decide (l = l')), (decide (l' = l)); try congruence. rewrite bool_decide_eq_true_2 by reflexivity. apply Ho.
  - intros Ei. pose proof (pop_shape s A _ _ E Ei) as []. 
Qed.

Lemma held_run s l k h :
  active s -> holder s !! l = Some h ->
  lock_held_by_current_thread l (at_stack s k) = Ret (h =? running_thread s).
Proof.
  intros A Eh. unfold lock_held_by_current_thread. cbn [holder at_stack set_stacks]. rewrite Eh. cbn [the mbind res_bind].
  replace (thread_current (at_stack s k)) with (Ret (running_thread s)) by (symmetry; apply (current_ok s A)). reflexivity.
Qed.

Lemma not_idle s f k : active s -> frames s = f :: k -> (idle_shape (f :: k) -> False) -> running_thread s <> idle_thread s.
Proof. intros A E H Ei. exact (H (pop_shape s A f k E Ei)). Qed.

Lemma lock_release_ok s l k :
  inv s -> frames s = KRelease l :: k ->
  holder s !! l = Some (running_thread s) /\
  exists s', lock_release l (at_stack s k) = Ret s' /\ inv s' /\ holder s' = <[l := NULL]> (holder s).
Proof.
  intros V E. pose proof (inv_active s V) as A. pose proof (a_core s A) as C.
  destruct (pop_frame s A _ _ E) as [Hl Hf]. cbn in Hl. pose proof (fun l => pop_obeys s A _ _ E l) as Ho.
  assert (Hh : holder s !! l = Some (running_thread s)).
  { specialize (Ho l). cbn [obeys] in Ho. rewrite decide_True in Ho by reflexivity. apply held_by_true, Ho. }
  split; [exact Hh|]. unfold lock_release. rewrite (held_run s l k _ A Hh), Z.eqb_refl. cbn [assert mbind res_bind].
  eexists. split; [reflexivity|]. split; [|reflexivity].
  change (set_holder (at_stack s k) (<[l := NULL]> (holder (at_stack s k))))
    with (at_stack (set_holder s (<[l := NULL]> (holder s))) k).
  rewrite push_at. set (s' := at_stack _ _). pose proof (pop_top s A _ _ E ltac:(discriminate)) as Htop.
  apply active_inv; [|left; unfold s'; rewrite at_stack_frames; reflexivity].
  assert (Hrn : running_thread s <> NULL) by (destruct (run_some s A) as [th Eth]; apply (c_magic s C _ _ Eth)).
  apply (active_local s A s' (KSemaUp (LockSema l) :: k)); [|reflexivity..].
  apply (holder_change s s' l NULL (KSemaUp (LockSema l) :: k) A); try reflexivity;
    try (rewrite E; intros; rewrite !fsum_cons; reflexivity); auto.
  - rewrite Hh. intros t Ht _ Heq. congruence.
  - intros l'. rewrite E, !fsum_cons. cbn [tok]. unfold one, taken. rewrite Hh, (proj2 (Z.eqb_neq _ _) Hrn). cbn.
    destruct (decide (LockSema l = LockSema l')), (decide (l' = l)); try congruence; lia.
  - constructor; [apply (c_lsema s C), Hl|exact Hf].
  - intros l'. apply (good_app l' [_]); [|apply (pop_good s A _ _ E)]. split; [|exact I]. cbn. pose proof (one_nonneg (LockSema l = LockSema l')). lia.
  - apply (offs_app [_]); [reflexivity|exact Htop|apply (pop_offs s A _ _ E)].
  - intros l'. specialize (Ho l'). cbn [obeys] in *. destruct (decide (l = l')), (decide (l' = l)); try congruence.
    rewrite bool_decide_eq_false_2 by auto. apply Ho.
  - intros Ei. destruct (pop_shape s A _ _ E Ei).
Qed.

Lemma lock_acquire_ok s l k :
  inv s -> frames s = KAcquire l :: k ->
  exists s', lock_acquire l (at_stack s k) = Ret s' /\ inv s' /\ holder s' = holder s.
Proof.
  intros V E. pose proof (inv_active s V) as A. destruct (pop_frame s A _ _ E) as [[h Eh] _]. cbn in Eh.
  pose proof (fun l => pop_obeys s A _ _ E l) as Ho.
  unfold lock_acquire. change (intr_context (at_stack s k)) with (intr_context s). rewrite (active_ext s A).
  cbn [negb assert mbind res_bind]. rewrite (held_run s l k h A Eh). cbn [mbind res_bind].
  assert (Hn : (h =? running_thread s) = false).
  { specialize (Ho l). cbn [obeys] in Ho. rewrite decide_True in Ho by reflexivity. destruct Ho as [Ho _].
    apply held_by_false in Ho. apply Z.eqb_neq. congruence. }
  rewrite Hn. cbn [negb assert mbind res_bind]. rewrite push_at. eexists. split; [reflexivity|]. split; [|reflexivity].
  apply (pop_to s A _ _ E _ [KSemaDown (LockSema l); KHolder l]); try reflexivity.
  - intros l'. cbn. unfold one. destruct (decide (LockSema l = LockSema l')), (decide (l = l')); try congruence; lia.
  - constructor; [apply (c_lsema s (a_core s A)); eauto|]. constructor; [cbn; eauto|constructor].
  - intros l'. cbn. unfold one. destruct (decide (LockSema l = LockSema l')), (decide (l = l')); try congruence; lia.
  - exact Ho.
  - intros Ei. destruct (pop_shape s A _ _ E Ei).
  - discriminate.
Qed.

Lemma sema_down_ok s a k :
  inv s -> frames s = KSemaDown a :: k ->
  exists s', sema_down a (at_stack s k) = Ret s' /\ inv s' /\ holder s' = holder s.
Proof.
  intros V E. pose proof (inv_active s V) as A. destruct (pop_frame s A _ _ E) as [Ha Hf].
  unfold sema_down. change (intr_context (at_stack s k)) with (intr_context s). rewrite (active_ext s A).
  cbn [negb assert mbind res_bind intr_disable]. apply (down_ok s a k (intr_get_level s) A).
  split; try rewrite E; auto; intros; rewrite ?fsum_cons; cbn [tok loop creat]; try lia.
  - pose proof (one_nonneg (b = a)). lia.
  - apply (pop_good s A _ _ E).
  - apply (pop_offs s A _ _ E).
  - apply (pop_top s A _ _ E). discriminate.
  - apply (pop_obeys s A _ _ E).
  - apply (not_idle s _ _ A E). intros [].
Qed.

Lemma sema_loop_ok s a old k :
  inv s -> frames s = KSemaLoop a old :: k ->
  exists s', sema_down_loop a old (at_stack s k) = Ret s' /\ inv s' /\ holder s' = holder s.
Proof.
  intros V E. pose proof (inv_active s V) as A. destruct (pop_frame s A _ _ E) as [Ha Hf].
  pose proof (i_level s V _ _ E eq_refl) as Hl.
  replace (at_stack s k) with (set_level (at_stack s k) false) by (destruct s; cbn in Hl; subst; reflexivity).
  apply (down_ok s a k old A). split; try rewrite E; auto; intros; rewrite ?fsum_cons; cbn [tok loop creat]; try lia.
  - unfold one. destruct (decide (a = b)), (decide (b = a)); try congruence; lia.
  - apply (pop_good s A _ _ E).
  - apply (pop_offs s A _ _ E).
  - apply (pop_top s A _ _ E). discriminate.
  - apply (pop_obeys s A _ _ E).
  - apply (not_idle s _ _ A E). intros [].
Qed.

Lemma waiting_thread s a sm t :
  active s -> semas s !! a = Some sm -> t ∈ waiters sm -> is_thread s t = true /\ stat s t = Some THREAD_BLOCKED.
Proof.
  intros A Es Hin. rewrite <- (wts_of s a sm Es) in Hin. destruct (c_waits s (a_core s A) a t Hin) as [E _].
  split; [|exact E]. apply (is_thread_some s t (a_core s A)). apply stat_some. rewrite E. eauto.
Qed.

Lemma up_holder s a sm : holder (up_state s a sm) = holder s.
Proof. unfold up_state. destruct (waiters sm); [|destruct (threads s !! _)]; reflexivity. Qed.
Lemma up_run_same s a sm : running_thread (up_state s a sm) = running_thread s /\ stacks (up_state s a sm) = stacks s.
Proof. unfold up_state. destruct (waiters sm); [|destruct (threads s !! _)]; split; reflexivity. Qed.

Lemma sema_up_ok s a k :
  inv s -> frames s = KSemaUp a :: k ->
  exists s', sema_up a (at_stack s k) = Ret s' /\ inv s' /\ holder s' = holder s.
Proof.
  intros V E. pose proof (inv_active s V) as A. destruct (pop_frame s A _ _ E) as [[sm Ha] Hf]. cbn in Ha.
  rewrite (sema_up_run (at_stack s k) a sm Ha);
    [|intros t Hin; apply (waiting_thread s a sm t A Ha Hin)|intros; apply (active_ext s A)].
  eexists. split; [reflexivity|]. split; [|rewrite up_holder; reflexivity]. apply active_inv.
  - apply (up_active s a k sm A); [|exact Ha].
    split; try rewrite E; auto; intros; rewrite ?fsum_cons; cbn [tok loop creat]; try lia.
    + apply (pop_good s A _ _ E).
    + apply (pop_offs s A _ _ E).
    + apply (pop_obeys s A _ _ E).
    + destruct (pop_shape s A _ _ E H).
  - left. destruct (up_run_same (at_stack s k) a sm) as [E1 E2]. unfold frames. rewrite E1, E2.
    fold (frames (at_stack s k)). rewrite at_stack_frames. apply (pop_top s A _ _ E). discriminate.
Qed.

(** ** Condition variables *)

Lemma inv_conds s m :
  inv s -> (forall c, is_Some (conds s !! c) -> is_Some (m !! c)) ->
  (forall c ws w, m !! c = Some ws -> w ∈ ws -> is_Some (semas s !! WaiterSema w) /\ is_Some (remaining s !! w)) ->
  inv (set_conds s m).
Proof.
  intros [C H1 H2 H3] Hd Hw. pose proof (c_frames s C) as Hf. split; auto. destruct C. split; auto.
  intros t. eapply Forall_impl; [apply Hf|]. intros f. destruct f; cbn; auto; intros [Hc Hl]; auto.
Qed.

Lemma conds_tail s c w ws c' ws' w' :
  core s -> conds s !! c = Some (w :: ws) -> <[c := ws]> (conds s) !! c' = Some ws' -> w' ∈ ws' ->
  is_Some (semas s !! WaiterSema w') /\ is_Some (remaining s !! w').
Proof.
  intros C Ec. destruct (decide (c' = c)) as [->|Hne].
  - rewrite lookup_insert_eq. intros [= <-] Hin. apply (c_conds s C c (w :: ws)); [exact Ec|constructor; exact Hin].
  - rewrite lookup_insert_ne by auto. apply (c_conds s C).
Qed.

Lemma held_now s l k c f :
  inv s -> frames s = f :: k -> f = KSignal c l \/ f = KBroadcast c l -> holder s !! l = Some (running_thread s).
Proof.
  intros V E Hf. pose proof (pop_obeys s (inv_active s V) _ _ E l) as H. apply held_by_true.
  destruct Hf as [->| ->]; cbn in H; apply H; reflexivity.
Qed.

Lemma cond_signal_ok s c l k :
  inv s -> frames s = KSignal c l :: k ->
  exists s', cond_signal c l (at_stack s k) = Ret s' /\ inv s' /\ holder s' = holder s.
Proof.
  intros V E. pose proof (inv_active s V) as A. pose proof (a_core s A) as C. destruct (pop_frame s A _ _ E) as [[[ws Ec] Hl] _].
  pose proof (held_now s l k c _ V E (or_introl eq_refl)) as Hh.
  assert (Ho : forall l', obeys l' (held_by s l' (running_thread s)) k) by (intros l'; apply (pop_obeys s A _ _ E l')).
  unfold cond_signal. change (intr_context (at_stack s k)) with (intr_context s). rewrite (active_ext s A).
  cbn [negb assert mbind res_bind]. rewrite (held_run s l k _ A Hh), Z.eqb_refl. cbn [assert mbind res_bind].
  cbn [conds at_stack set_stacks]. rewrite Ec. cbn [the mbind res_bind]. destruct ws as [|w ws].
  - eexists. split; [reflexivity|]. split; [|reflexivity].
    apply (pop_drop s A _ _ E); try reflexivity; [exact Ho|intros Ei; destruct (pop_shape s A _ _ E Ei)|discriminate].
  - destruct (c_conds s C c (w :: ws) w Ec ltac:(constructor)) as [Hs Hr].
    set (s1 := set_conds s (<[c := ws]> (conds s))).
    assert (V1 : inv s1).
    { apply inv_conds; [exact V| |intros c' ws' w'; apply (conds_tail s c w ws c' ws' w' C Ec)].
      intros c' Hc'. destruct (decide (c' = c)) as [->|Hne]; [rewrite lookup_insert_eq; eauto|].
      rewrite lookup_insert_ne by auto. exact Hc'. }
    change (set_conds (at_stack s k) _) with (at_stack s1 k). rewrite push_at.
    eexists. split; [reflexivity|]. split; [|reflexivity].
    apply (pop_to s1 (inv_active s1 V1) _ k E _ [KSemaUp (WaiterSema w); KSignalEnd w]); try reflexivity.
    + constructor; [exact Hs|]. constructor; [exact Hr|constructor].
    + intros l'. cbn. unfold one. rewrite decide_False by discriminate. lia.
    + exact Ho.
    + intros Ei. destruct (pop_shape s A _ _ E Ei).
    + discriminate.
Qed.

Lemma cond_broadcast_ok s c l k :
  inv s -> frames s = KBroadcast c l :: k ->
  exists s', cond_broadcast c l (at_stack s k) = Ret s' /\ inv s' /\ holder s' = holder s.
Proof.
  intros V E. pose proof (inv_active s V) as A. destruct (pop_frame s A _ _ E) as [[[ws Ec] Hl] _].
  pose proof (fun l' => pop_obeys s A _ _ E l') as Ho. cbn [obeys] in Ho.
  unfold cond_broadcast. cbn [conds at_stack set_stacks]. rewrite Ec. cbn [the mbind res_bind]. destruct ws as [|w ws].
  - eexists. split; [reflexivity|]. split; [|reflexivity].
    apply (pop_drop s A _ _ E); try reflexivity; [apply Ho|intros Ei; destruct (pop_shape s A _ _ E Ei)|discriminate].
  - rewrite push_at. eexists. split; [reflexivity|]. split; [|reflexivity].
    apply (pop_to s A _ k E _ [KSignal c l; KBroadcast c l]); try reflexivity.
    + constructor; [cbn; eauto|]. constructor; [cbn; eauto|constructor].
    + intros l'. cbn. lia.
    + intros l'. destruct (Ho l') as [H1 H2]. cbn. auto.
    + intros Ei. destruct (pop_shape s A _ _ E Ei).
    + discriminate.
Qed.

Lemma signal_end_run s w :
  core s -> is_Some (remaining s !! w) -> signal_end w s = Ret s.
Proof.
  intros C [r Hr]. unfold signal_end. cbn [intr_disable remaining set_level]. rewrite Hr. cbn [the mbind res_bind].
  rewrite (c_rem s C w r Hr). cbn [mbind res_bind Z.ltb Z.compare]. rewrite set_level_run by apply (c_ext s C).
  destruct s; reflexivity.
Qed.

Lemma signal_end_ok s w k :
  inv s -> frames s = KSignalEnd w :: k ->
  exists s', signal_end w (at_stack s k) = Ret s' /\ inv s' /\ holder s' = holder s.
Proof.
  intros V E. pose proof (inv_active s V) as A. destruct (pop_frame s A _ _ E) as [Hr _].
  assert (V' : inv (at_stack s k)).
  { apply (pop_drop s A _ _ E); try reflexivity;
      [apply (pop_obeys s A _ _ E)|intros Ei; destruct (pop_shape s A _ _ E Ei)|discriminate]. }
  rewrite (signal_end_run (at_stack s k) w (i_core _ V') Hr). eexists. split; [reflexivity|]. auto.
Qed.

(** ** Levels *)

Lemma set_level_frame s old k :
  inv s -> frames s = KSetLevel old :: k ->
  exists s', intr_set_level old (at_stack s k) = Ret s' /\ inv s' /\ holder s' = holder s.
Proof.
  intros V E. pose proof (inv_active s V) as A. rewrite set_level_run by apply (active_ext s A).
  eexists. split; [reflexivity|]. split; [|reflexivity]. apply active_inv.
  - apply (active_local s A _ k); [|reflexivity..]. destruct (pop_frame s A _ _ E) as [_ Hf].
    apply (frames_change s A); try reflexivity; try (rewrite E; intros; rewrite fsum_cons; cbn; lia); auto.
    + intros l. apply (pop_good s A _ _ E).
    + apply (pop_offs s A _ _ E).
    + apply (pop_obeys s A _ _ E).
    + apply (pop_shape s A _ _ E).
  - change (frames _) with (frames (at_stack s k)). rewrite at_stack_frames. pose proof (frames_offs s A) as H. rewrite E in H.
    destruct k as [|g k]; [left; exact I|]. destruct H as [H _]. cbn [top_on]. destruct (off_frame g) eqn:Eo; [|auto].
    right. destruct (H eq_refl) as [_ [= ->]]. reflexivity.
Qed.

Lemma level_frame s f k lv :
  inv s -> frames s = f :: k ->
  match f with KIntrDisable | KIret | KStart | KIntrEnable | KLinking => True | _ => False end ->
  inv (set_level (at_stack s k) lv).
Proof.
  intros V E Hf. pose proof (inv_active s V) as A. pose proof (pop_obeys s A _ _ E) as Ho. pose proof (pop_shape s A _ _ E) as Hs.
  destruct f; try destruct Hf; apply (pop_drop s A _ _ E); try reflexivity; try exact Ho; try exact Hs;
    try discriminate; intros Ei; destruct (Hs Ei).
Qed.

Lemma linking_frame s k : inv s -> frames s = KLinking :: k -> inv (at_stack s k).
Proof.
  intros V E. replace (at_stack s k) with (set_level (at_stack s k) (intr_get_level s)) by by destruct s.
  by apply (level_frame s KLinking).
Qed.

Lemma enable_frame s f k :
  inv s -> frames s = f :: k -> f = KStart \/ f = KIntrEnable ->
  exists s', ('(_, s) ← intr_enable (at_stack s k); Ret s) = Ret s' /\ inv s' /\ holder s' = holder s.
Proof.
  intros V E Hf. unfold intr_enable. change (intr_context (at_stack s k)) with (intr_context s).
  rewrite (active_ext s (inv_active s V)). cbn. eexists. split; [reflexivity|]. split; [|reflexivity].
  apply (level_frame s f k true V E). destruct Hf as [->| ->]; exact I.
Qed.

(** ** Sleeping and idling *)

Lemma sleep_ok s start n k :
  inv s -> frames s = KSleep start n :: k ->
  exists s', timer_sleep_loop start n (at_stack s k) = Ret s' /\ inv s' /\ holder s' = holder s.
Proof.
  intros V E. pose proof (inv_active s V) as A. unfold timer_sleep_loop, timer_elapsed, timer_ticks. change (ticks (at_stack s k)) with (ticks s).
  destruct (ticks s - start <? n).
  - rewrite push_at. change ([KSleep start n] ++ k) with (KSleep start n :: k). rewrite <- E, (at_stack_id s A).
    destruct (thread_yield_ok s A) as (s' & Ey & V' & So).
    { rewrite E. split; [discriminate|]. rewrite <- E. apply (frames_offs s A). }
    exists s'. split; [exact Ey|]. split; [exact V'|apply So].
  - eexists. split; [reflexivity|]. split; [|reflexivity].
    apply (pop_drop s A _ _ E); try reflexivity;
      [apply (pop_obeys s A _ _ E)|intros Ei; destruct (pop_shape s A _ _ E Ei)|discriminate].
Qed.

Lemma idle_loop_ok s k :
  inv s -> frames s = KIdleLoop :: k ->
  exists s', idle_loop (at_stack s k) = Ret s' /\ inv s' /\ holder s' = holder s.
Proof.
  intros V E. pose proof (inv_active s V) as A. destruct (pop_frame s A _ _ E) as [Hi _]. cbn in Hi.
  pose proof (pop_shape s A _ _ E Hi) as Hk. destruct k as [|f k]; [|destruct Hk].
  unfold idle_loop. cbn [intr_disable]. change (set_level (at_stack s []) false) with (at_stack (set_level s false) []).
  rewrite push_at. cbn [app]. set (s1 := at_stack (set_level s false) [KIdleHlt]).
  assert (A1 : active s1).
  { apply (active_local s A s1 [KIdleHlt]); [|reflexivity..]. apply (frames_change s A); try reflexivity;
      try (rewrite E; intros; reflexivity); auto.
    - intros l. cbn. lia.
    - split; exact I.
    - intros l. pose proof (pop_obeys s A _ _ E l) as H. exact H. }
  destruct (stat_lookup s1 _ _ (run_stat s1 A1)) as (th & Eth & Est). change (running_thread s1) with (running_thread s) in *.
  unfold thread_block. change (intr_context s1) with (intr_context s). rewrite (active_ext s A).
  cbn [negb assert mbind res_bind]. change (intr_get_level s1) with false. cbn [negb assert mbind res_bind].
  rewrite (current_ok s1 A1). cbn [mbind res_bind]. rewrite (set_status_run s1 _ _ th Eth). cbn [mbind res_bind].
  destruct (schedule_ok (set_threads s1 (<[running_thread s := with_status THREAD_BLOCKED th]> (threads s1)))) as (s' & Es & V' & So).
  - apply (hand_over s1 _ THREAD_BLOCKED A1); try discriminate; try reflexivity.
    apply (restat_plain s1 _ _ _ th (a_core s1 A1) Eth); try reflexivity; try discriminate.
    + apply (run_creat s1 A1).
    + intros a. apply (run_waits s1 a A1).
    + apply (c_nodup s1 (a_core s1 A1)).
    + intros x. split; [|naive_solver]. intros Hx. right. split; [|exact Hx]. intros ->. exact (not_ready s1 A1 Hx).
    + intros _. exact Hi.
    + apply (c_all s1 (a_core s1 A1)).
    + apply (run_listed s1 _ A1). discriminate.
  - exists s'. split; [exact Es|]. split; [exact V'|apply So].
Qed.

Lemma idle_hlt_ok s k :
  inv s -> frames s = KIdleHlt :: k ->
  exists s', ('(_, s) ← intr_enable (at_stack s k); Ret (push [KIdleLoop] s)) = Ret s' /\ inv s' /\ holder s' = holder s.
Proof.
  intros V E. pose proof (inv_active s V) as A. destruct (pop_frame s A _ _ E) as [Hi _]. cbn in Hi.
  pose proof (pop_shape s A _ _ E Hi) as Hk. destruct k as [|f k]; [|destruct Hk].
  unfold intr_enable. change (intr_context (at_stack s [])) with (intr_context s).
  rewrite (active_ext s A). cbn [negb assert mbind res_bind].
  change (set_level (at_stack s []) true) with (at_stack (set_level s true) []). rewrite push_at.
  eexists. split; [reflexivity|]. split; [|reflexivity].
  apply (pop_to s A _ [] E _ [KIdleLoop]); try reflexivity.
  - constructor; [exact Hi|constructor].
  - intros l. cbn. lia.
  - intros l. exact (pop_obeys s A _ _ E l).
  - discriminate.
Qed.

(** ** Creating threads *)

Lemma creat_one s t k f :
  active s -> frames s = f :: k -> creat t f = 1 ->
  total (creat t) (stacks s) = 1 /\ stat s t = Some THREAD_BLOCKED /\ t <> idle_thread s /\ fresh_stack (stk s t) /\
  t <> running_thread s /\ fsum (creat t) k = 0.
Proof.
  intros A E Hf. pose proof (a_core s A) as C.
  assert (Hn : forall t' k', stacks s !! t' = Some k' -> 0 <= fsum (creat t) k') by (intros; apply fsum_nonneg, creat_nonneg).
  pose proof (total_one _ _ _ _ Hn (run_stack s A)) as H. rewrite E, fsum_cons, Hf in H.
  pose proof (fsum_nonneg (creat t) k (creat_nonneg t)).
  destruct (c_create s C t) as [E0|(E1 & E2 & E3 & E4)]; [lia|].
  repeat split; auto; [|lia]. intros ->. rewrite (run_stat s A) in E2. discriminate.
Qed.

Lemma next_tid_ok s t fn k :
  inv s -> frames s = KNextTid t fn :: k ->
  exists s', allocate_tid t fn (at_stack s k) = Ret s' /\ inv s' /\ holder s' = holder s.
Proof.
  intros V E. pose proof (inv_active s V) as A. destruct (pop_frame s A _ _ E) as [Hfn _].
  unfold allocate_tid. change (set_tid (at_stack s k) ?v) with (at_stack (set_tid s v) k). rewrite push_at.
  eexists. split; [reflexivity|]. split; [|reflexivity].
  apply (pop_to s A _ k E _ [KRelease tid_lock; KSetTid t (next_tid s) fn]); try reflexivity.
  - intros t'. cbn. lia.
  - constructor; [apply (c_tid s (a_core s A))|]. constructor; [exact Hfn|constructor].
  - intros l. cbn. lia.
  - intros l. pose proof (pop_obeys s A _ _ E l) as Ho. cbn [obeys app] in *.
    destruct (decide (l = tid_lock)), (decide (tid_lock = l)); try congruence; exact Ho.
  - intros Ei. destruct (pop_shape s A _ _ E Ei).
  - discriminate.
Qed.

(** A change of other members of [struct thread]. *)
Lemma inv_thread s t th th' :
  inv s -> threads s !! t = Some th -> status th' = status th -> magic th' = magic th ->
  inv (set_threads s (<[t := th']> (threads s))).
Proof.
  intros [C H1 H2 H3] Eth Es Em. set (s' := set_threads _ _).
  assert (Est : forall x, stat s' x = stat s x).
  { intros x. unfold stat, s'. cbn. destruct (decide (x = t)) as [->|Hx].
    - rewrite lookup_insert_eq, Eth. cbn. congruence.
    - rewrite lookup_insert_ne by auto. reflexivity. }
  assert (Hso : forall x, is_Some (threads s' !! x) <-> is_Some (threads s !! x)) by (intros x; rewrite !stat_some, Est; reflexivity).
  split; auto; try (intros x; rewrite Est; auto; fail).
  split; try apply C; try (setoid_rewrite Est; apply C; fail).
  - intros x. rewrite Hso. apply (c_dom s C).
  - intros x th0. cbn. destruct (decide (x = t)) as [->|Hx].
    + rewrite lookup_insert_eq. intros [= <-]. rewrite Em. apply (c_magic s C t th Eth).
    + rewrite lookup_insert_ne by auto. apply (c_magic s C).
  - intros x l. rewrite Hso. apply (c_obeys s C).
  - intros l h E. rewrite Hso. apply (c_holder s C l h E).
Qed.

(** The first stack of a new thread. *)
Lemma inv_newstack s t :
  inv s -> total (creat t) (stacks s) = 1 -> inv (set_stacks s (<[t := [KStart]]> (stacks s))).
Proof.
  intros V Ht. pose proof (inv_active s V) as A. destruct V as [C H1 H2 H3].
  destruct (c_create s C t) as [E0|(_ & E2 & E3 & E4)]; [lia|]. set (s' := set_stacks _ _).
  assert (Hth : is_Some (threads s !! t)) by (apply stat_some; rewrite E2; eauto).
  pose proof (stack_some s C t Hth) as Es.
  assert (Etot : forall g, g KStart = 0 -> total g (stacks s') = total g (stacks s)).
  { intros g Hg. unfold s'. cbn [stacks set_stacks]. rewrite (total_set g _ t _ _ Es).
    destruct E4 as [-> | ->]; cbn; rewrite ?Hg; lia. }
  assert (Ek : forall x, x <> t -> stk s' x = stk s x)
    by (intros x Hx; unfold stk, s'; cbn; rewrite lookup_insert_ne by auto; reflexivity).
  assert (Et : stk s' t = [KStart]) by (unfold stk, s'; cbn; rewrite lookup_insert_eq; reflexivity).
  assert (Hnw : forall a, t ∉ wts s a).
  { intros a Hin. destruct (c_waits s C a t Hin) as (_ & old & k & E). destruct E4; congruence. }
  assert (Hr : t <> running_thread s) by (intros ->; rewrite (run_stat s A) in E2; discriminate).
  split; auto; [|change (frames s') with (stk s' (running_thread s)); rewrite Ek by auto; exact H3].
  split; try apply C.
  - intros x. cbn. destruct (decide (x = t)) as [->|Hx]; [rewrite lookup_insert_eq; split; eauto|].
    rewrite lookup_insert_ne by auto. apply (c_dom s C).
  - intros x Hb. rewrite (Etot (creat x)) by reflexivity. destruct (decide (x = t)) as [->|Hx]; [auto|].
    rewrite Ek by auto. apply (c_blocked s C x Hb).
  - intros a x Hin. destruct (c_waits s C a x Hin) as [Hb Hk]. split; [exact Hb|]. rewrite Ek; [exact Hk|].
    intros ->. exact (Hnw a Hin).
  - change (idle_thread s') with (idle_thread s). rewrite Ek by auto. apply (c_shape s C).
  - intros x. rewrite (Etot (creat x)) by reflexivity. destruct (c_create s C x) as [?|(F1 & F2 & F3 & F4)]; [auto|].
    right. repeat split; auto. destruct (decide (x = t)) as [->|Hx]; [rewrite Et; right; reflexivity|rewrite Ek by auto; exact F4].
  - intros x Hd. rewrite Ek by (intros ->; change (stat s t = Some THREAD_DYING) in Hd; congruence). apply (c_dead s C x Hd).
  - intros x. destruct (decide (x = t)) as [->|Hx]; [rewrite Et; repeat constructor|rewrite Ek by auto; apply (c_frames s C)].
  - intros x l. destruct (decide (x = t)) as [->|Hx]; [rewrite Et; cbn; lia|rewrite Ek by auto; apply (c_good s C)].
  - intros x. destruct (decide (x = t)) as [->|Hx]; [rewrite Et; split; exact I|rewrite Ek by auto; apply (c_offs s C)].
  - intros x l Hx. change (held_by s' l x) with (held_by s l x). pose proof (c_obeys s C x l Hx) as Ho.
    destruct (decide (x = t)) as [->|Hne]; [|rewrite Ek by auto; exact Ho]. rewrite Et. cbn [obeys].
    destruct E4 as [E4|E4]; rewrite E4 in Ho; exact Ho.
  - intros l. rewrite (Etot (tok l)) by reflexivity. apply (c_lock s C l).
  - intros a. rewrite (Etot (loop a)) by reflexivity. apply (c_wake s C a).
Qed.

Lemma store_tid_run s k t v th :
  inv s -> threads s !! t = Some th ->
  exists s1, store_tid t v (at_stack s k) = Ret (at_stack s1 k) /\ inv s1 /\ stacks s1 = stacks s /\
    running_thread s1 = running_thread s /\ (exists th', threads s1 !! t = Some th') /\ holder s1 = holder s.
Proof.
  intros V E. unfold store_tid. cbn [threads at_stack set_stacks]. rewrite E. cbn [the mbind res_bind].
  exists (set_threads s (<[t := mk_thread v (status th) (name th) (stack th) (priority th) (magic th)]> (threads s))).
  split; [reflexivity|]. split; [apply (inv_thread s t th _ V E); reflexivity|].
  split; [reflexivity|]. split; [reflexivity|]. split; [eexists; apply lookup_insert_eq|reflexivity].
Qed.

Lemma alloc_frame_run s k t size th :
  inv s -> threads s !! t = Some th -> size mod 4 = 0 ->
  exists s1, alloc_frame t size (at_stack s k) = Ret (at_stack s1 k) /\ inv s1 /\ stacks s1 = stacks s /\
    running_thread s1 = running_thread s /\ (exists th', threads s1 !! t = Some th') /\ holder s1 = holder s.
Proof.
  intros V E Hs. unfold alloc_frame. change (is_thread (at_stack s k) t) with (is_thread s t).
  rewrite (is_thread_some s t (i_core s V)) by eauto. rewrite Hs. cbn [Z.eqb assert mbind res_bind threads at_stack set_stacks].
  rewrite E. cbn [the mbind res_bind].
  exists (set_threads s (<[t := mk_thread (tid th) (status th) (name th) (wrap 32 (stack th - size)) (priority th) (magic th)]>
                        (threads s))).
  split; [reflexivity|]. split; [apply (inv_thread s t th _ V E); reflexivity|].
  split; [reflexivity|]. split; [reflexivity|]. split; [eexists; apply lookup_insert_eq|reflexivity].
Qed.

Lemma inv_level s lv : inv s -> top_on (frames s) -> inv (set_level s lv).
Proof.
  intros V Ht. apply active_inv; [|left; exact Ht]. destruct (inv_active s V) as [C H1 H2]. split; auto.
  apply (core_same s); auto.
Qed.

Lemma set_tid_ok s t v k :
  inv s -> frames s = KSetTid t v Function :: k ->
  exists s', thread_create_end t v Function (at_stack s k) = Ret s' /\ inv s' /\ holder s' = holder s.
Proof.
  intros V E. pose proof (inv_active s V) as A.
  destruct (creat_one s t k _ A E) as (Hc & Hb & Hi & _ & Hr & _); [cbn; unfold one; rewrite decide_True by reflexivity; reflexivity|].
  destruct (stat_lookup s t _ Hb) as (th & Eth & _). unfold thread_create_end.
  destruct (store_tid_run s k t v th V Eth) as (s1 & -> & V1 & S1 & R1 & (th1 & T1) & H1). cbn [mbind res_bind intr_disable].
  assert (Ef : forall s0, stacks s0 = stacks s -> running_thread s0 = running_thread s -> frames s0 = KSetTid t v Function :: k).
  { intros s0 E1 E2. rewrite <- E. unfold frames. rewrite E1, E2. reflexivity. }
  assert (V1' : inv (set_level s1 false)) by (apply inv_level; [exact V1|rewrite (Ef s1 S1 R1); reflexivity]).
  change (set_level (at_stack s1 k) false) with (at_stack (set_level s1 false) k).
  destruct (alloc_frame_run _ k t 12 th1 V1' T1 eq_refl) as (s2 & -> & V2 & S2 & R2 & (th2 & T2) & H2). cbn [mbind res_bind].
  destruct (alloc_frame_run s2 k t 4 th2 V2 T2 eq_refl) as (s3 & -> & V3 & S3 & R3 & (th3 & T3) & H3). cbn [mbind res_bind].
  destruct (alloc_frame_run s3 k t 28 th3 V3 T3 eq_refl) as (s4 & -> & V4 & S4 & R4 & (th4 & T4) & H4). cbn [mbind res_bind thread_entry].
  change (stacks (set_level s1 false)) with (stacks s1) in S2. change (running_thread (set_level s1 false)) with (running_thread s1) in R2.
  change (holder (set_level s1 false)) with (holder s1) in H2.
  assert (S : stacks s4 = stacks s) by congruence. assert (R : running_thread s4 = running_thread s) by congruence.
  assert (V5 : inv (set_stacks s4 (<[t := [KStart]]> (stacks s4)))) by (apply inv_newstack; [exact V4|rewrite S; exact Hc]).
  set (s5 := set_stacks s4 _) in V5.
  replace (set_stacks (at_stack s4 k) _) with (at_stack s5 k)
    by (unfold at_stack, s5; cbn; rewrite insert_insert_ne by congruence; reflexivity).
  rewrite set_level_run by apply (c_ext s5 (i_core s5 V5)). cbn [mbind res_bind].
  set (s6 := set_level _ _).
  change (set_ret s6 v) with (at_stack (set_ret (set_level s5 (intr_get_level (at_stack s1 k))) v) k). rewrite push_at.
  eexists. split; [reflexivity|]. split; [|cbn; congruence].
  assert (E5 : frames s5 = KSetTid t v Function :: k).
  { rewrite <- E. unfold frames, s5. cbn. rewrite R, S, lookup_insert_ne by auto. reflexivity. }
  pose proof (inv_active s5 V5) as A5.
  apply (pop_to s5 A5 _ k E5 _ [KUnblock t]); try reflexivity.
  - intros t'. cbn. lia.
  - repeat constructor.
  - intros l. cbn. lia.
  - intros l. exact (pop_obeys s5 A5 _ _ E5 l).
  - intros Ei. destruct (pop_shape s5 A5 _ _ E5 Ei).
  - discriminate.
Qed.

Lemma unblock_new s t k :
  inv s -> frames s = KUnblock t :: k ->
  exists s', thread_unblock t (at_stack s k) = Ret s' /\ inv s' /\ holder s' = holder s.
Proof.
  intros V E. pose proof (inv_active s V) as A. pose proof (a_core s A) as C.
  destruct (creat_one s t k _ A E) as (Hc & Hb & Hi & Hfs & Hr & Hk); [cbn; unfold one; rewrite decide_True by reflexivity; reflexivity|].
  destruct (stat_lookup s t _ Hb) as (th & Eth & Est). unfold thread_unblock.
  change (is_thread (at_stack s k) t) with (is_thread s t). rewrite (is_thread_some s t C) by eauto.
  cbn [assert mbind res_bind intr_disable threads at_stack set_stacks set_level]. rewrite Eth. cbn [the mbind res_bind].
  rewrite bool_decide_eq_true_2 by exact Est. cbn [assert mbind res_bind].
  rewrite (set_status_run _ _ _ th) by exact Eth. cbn [mbind res_bind]. rewrite set_level_run by apply (active_ext s A).
  eexists. split; [reflexivity|]. split; [|reflexivity]. set (s' := set_level _ _).
  pose proof (pop_top s A _ _ E ltac:(discriminate)) as Htop.
  assert (Es : stacks s' = <[running_thread s := k]> (stacks s)) by reflexivity.
  assert (Etot : forall g, g (KUnblock t) = 0 -> total g (stacks s') = total g (stacks s)).
  { intros g Hg. rewrite Es, (total_set g _ _ _ _ (run_stack s A)), E, fsum_cons, Hg. lia. }
  assert (Ek : forall x, x <> running_thread s -> stk s' x = stk s x)
    by (intros x Hx; unfold stk; rewrite Es, lookup_insert_ne by auto; reflexivity).
  assert (Er : stk s' (running_thread s) = k) by (unfold stk; rewrite Es, lookup_insert_eq; reflexivity).
  assert (Hnr : t ∉ ready_list s) by (intros [E' _]%(c_ready s C); congruence).
  assert (Hnw : forall a, t ∉ wts s a).
  { intros a Hin. destruct (c_waits s C a t Hin) as (_ & old & k' & E'). destruct Hfs; congruence. }
  assert (H : restat s s' t THREAD_READY).
  { split; try reflexivity; try discriminate; try apply C.
    - exists th. auto.
    - intros x. rewrite Es. destruct (decide (x = running_thread s)) as [->|Hx].
      + rewrite lookup_insert_eq, (run_stack s A). split; eauto.
      + rewrite lookup_insert_ne by auto. reflexivity.
    - intros x [->|Hx]; apply Ek; [exact Hr|]. intros ->. apply Hx, (run_stat s A).
    - intros l. apply Etot. reflexivity.
    - intros a. apply Etot. reflexivity.
    - intros x Hx. apply Etot. cbn. unfold one. rewrite decide_False by auto. reflexivity.
    - rewrite Es, (total_set _ _ _ _ _ (run_stack s A)), Hc, E, fsum_cons, Hk. cbn. unfold one. rewrite decide_True by reflexivity. reflexivity.
    - apply NoDup_app. split; [apply (c_nodup s C)|]. split; [|apply NoDup_singleton].
      intros x Hx ->%list_elem_of_singleton. contradiction.
    - intros x. cbn. rewrite elem_of_app, list_elem_of_singleton. destruct (decide (x = t)) as [->|Hx]; naive_solver.
    - intros a Hin. destruct (Hnw a Hin).
    - apply (listed_same s C t THREAD_BLOCKED THREAD_READY Hb); discriminate.
    - intros x. destruct (decide (x = running_thread s)) as [->|Hx].
      + rewrite Er. apply (pop_frame s A _ _ E).
      + rewrite Ek by auto. apply (c_frames s C).
    - intros x l. destruct (decide (x = running_thread s)) as [->|Hx]; [rewrite Er; apply (pop_good s A _ _ E)|rewrite Ek by auto; apply (c_good s C)].
    - intros x. destruct (decide (x = running_thread s)) as [->|Hx]; [rewrite Er; apply (pop_offs s A _ _ E)|rewrite Ek by auto; apply (c_offs s C)].
    - intros x l Hx. destruct (decide (x = running_thread s)) as [->|Hne]; [rewrite Er; apply (pop_obeys s A _ _ E)|rewrite Ek by auto; apply (c_obeys s C x l Hx)].
    - destruct (decide (idle_thread s = running_thread s)) as [Ei|Hx].
      + destruct (pop_shape s A _ _ E (eq_sym Ei)).
      + rewrite Ek by auto. apply (c_shape s C). }
  pose proof (fun x => restat_stat _ _ _ _ x H) as Est'. apply active_inv.
  - split.
    + apply (core_restat s s' t _ C H).
    + intros x. rewrite Est'. case_decide as Hx; [subst x; split; [discriminate|intros Hx; destruct (Hr Hx)]|apply (a_run s A)].
    + intros x. rewrite Est'. case_decide; [discriminate|]. apply (a_dying s A).
  - left. change (frames s') with (stk s' (running_thread s)). rewrite Er. exact Htop.
Qed.

(** ** Frames and calls *)

(** The holders of the locks after a frame. *)
Definition holder_after (f : frame) (s : kstate) : gmap Z Z :=
  match f with
  | KHolder l => <[l := running_thread s]> (holder s)
  | KRelease l => <[l := NULL]> (holder s)
  | _ => holder s
  end.

Lemma exec_ok s f k :
  inv s -> frames s = f :: k -> exists s', exec f (drop_frame s) = Ret s' /\ inv s' /\ holder s' = holder_after f s.
Proof.
  intros V E. rewrite (drop_at s f k E). pose proof (inv_active s V) as A. destruct (pop_frame s A _ _ E) as [Hf _].
  destruct f; cbn [exec holder_after]; try (destruct Hf; fail).
  - apply sema_down_ok; assumption.
  - apply sema_loop_ok; assumption.
  - apply sema_up_ok; assumption.
  - apply lock_acquire_ok; assumption.
  - apply take_lock_ok; assumption.
  - apply lock_release_ok; assumption.
  - eexists. split; [reflexivity|]. split; [apply (level_frame s _ k false V E); exact I|reflexivity].
  - apply cond_signal_ok; assumption.
  - apply signal_end_ok; assumption.
  - apply cond_broadcast_ok; assumption.
  - apply next_tid_ok; assumption.
  - cbn in Hf. subst fn. apply set_tid_ok; assumption.
  - apply unblock_new; assumption.
  - apply (enable_frame s KStart k V E). auto.
  - apply (enable_frame s KIntrEnable k V E). auto.
  - apply set_level_frame; assumption.
  - eexists. split; [reflexivity|]. split; [apply (level_frame s _ k true V E); exact I|reflexivity].
  - apply sleep_ok; assumption.
  - apply idle_loop_ok; assumption.
  - apply idle_hlt_ok; assumption.
  - eexists. split; [reflexivity|]. split; [by apply linking_frame|reflexivity].
Qed.

(** A call of the thread's own code is the frame that makes it. *)
Lemma call_frame s f :
  inv s -> frames s = [] -> (forall l, tok l f = 0) -> (forall a, loop a f = 0) -> (forall t, creat t f = 0) ->
  frame_ok s (running_thread s) f -> off_frame f = false ->
  (forall l, obeys l (held_by s l (running_thread s)) [] -> obeys l (held_by s l (running_thread s)) [f]) ->
  exists s', exec f s = Ret s' /\ inv s' /\ holder s' = holder_after f s.
Proof.
  intros V E Ht Hl Hc Hf Ho Hob. pose proof (inv_active s V) as A.
  assert (Hni : running_thread s <> idle_thread s).
  { intros Ei. pose proof (frames_shape s A Ei) as H. rewrite E in H. exact H. }
  set (s1 := at_stack s [f]).
  assert (A1 : active s1).
  { apply (active_local s A s1 [f]); [|reflexivity..]. apply (frames_change s A); try reflexivity; rewrite ?E.
    - intros l. cbn. rewrite Ht. reflexivity.
    - intros a. cbn. rewrite Hl. reflexivity.
    - intros t. cbn. rewrite Hc. reflexivity.
    - constructor; [exact Hf|constructor].
    - intros l. cbn. rewrite Ht. split; [lia|exact I].
    - split; exact I.
    - intros l. apply Hob. rewrite <- E. apply (frames_obey s A).
    - intros Ei. contradiction. }
  assert (V1 : inv s1) by (apply active_inv; [exact A1|left; unfold s1; rewrite at_stack_frames; exact Ho]).
  destruct (exec_ok s1 f [] V1 (at_stack_frames s [f])) as (s' & Ex & V' & Hh).
  exists s'. split; [|split; [exact V'|rewrite Hh; destruct f; reflexivity]].
  rewrite <- Ex. f_equal. rewrite (drop_at s1 f [] (at_stack_frames s [f])). unfold at_stack, s1. cbn.
  rewrite insert_insert_eq. change (s = at_stack s []). rewrite <- E. symmetry. apply (at_stack_id s A).
Qed.

(** ** Initialisation of objects that are not in use *)

Lemma init_change s s' :
  active s ->
  (threads s', ready_list s', idle_thread s', all_list s', in_external_intr s', stacks s', running_thread s', initial_thread s')
  = (threads s, ready_list s, idle_thread s, all_list s, in_external_intr s, stacks s, running_thread s, initial_thread s) ->
  timed_semaphores s' = [] ->
  (forall a, wts s' a = wts s a) -> (forall a, 0 <= val s' a < 2 ^ 32) ->
  (forall a, is_Some (semas s !! a) -> is_Some (semas s' !! a)) ->
  (forall l, is_Some (holder s !! l) -> is_Some (holder s' !! l)) ->
  (forall c, is_Some (conds s !! c) -> is_Some (conds s' !! c)) ->
  (forall w, is_Some (remaining s !! w) -> is_Some (remaining s' !! w)) ->
  (forall w r, remaining s' !! w = Some r -> r = -1) ->
  (forall c ws w, conds s' !! c = Some ws -> w ∈ ws -> is_Some (semas s' !! WaiterSema w) /\ is_Some (remaining s' !! w)) ->
  (forall l, is_Some (holder s' !! l) -> is_Some (semas s' !! LockSema l)) ->
  (forall l, is_Some (holder s' !! l) -> val s' (LockSema l) + taken s' l + total (tok l) (stacks s) = 1) ->
  (forall l h, holder s' !! l = Some h -> h = NULL \/ holder s !! l = Some h) ->
  (forall l t, is_Some (threads s !! t) -> held_by s' l t = held_by s l t) ->
  (forall a, wts s a <> [] -> val s' a = val s a) -> active s'.
Proof.
  intros A [= E1 E2 E3 E4 E5 E6 E7 E8] Et Hw Hv Hs Hh Hc Hr Hr1 Hc1 Hls Hlk Hho Hby Hwk. pose proof (a_core s A) as C.
  apply (active_local s A s' (frames s)); [|exact E7|exact E8]. split; auto.
  - rewrite E5. apply (c_ext s C).
  - rewrite E6, insert_id; [reflexivity|apply (run_stack s A)].
  - intros l Hl. pose proof (Hlk l Hl). lia.
  - intros l h E. destruct (Hho l h E); auto.
  - intros a Ha. rewrite (Hwk a Ha). pose proof (c_wake s C a Ha). lia.
  - eapply Forall_impl; [apply (frames_ok s A)|]. intros f. destruct f; cbn; auto; rewrite ?E3; auto; intros [H1 H2]; auto.
  - apply (frames_good s A).
  - apply (frames_offs s A).
  - intros l. rewrite Hby by apply (run_some s A). apply (frames_obey s A).
  - apply (frames_shape s A).
Qed.

(** A frame uses the semaphore. *)
Definition mentions (a : sema) (f : frame) : bool :=
  match f with
  | KSemaDown b | KSemaLoop b _ | KSemaUp b => bool_decide (b = a)
  | KAcquire l | KHolder l | KRelease l => bool_decide (LockSema l = a)
  | _ => false
  end.
Definition unused (a : sema) (s : kstate) : bool :=
  forallb (fun '(_, k) => forallb (fun f => negb (mentions a f)) k) (map_to_list (stacks s)).

Lemma unused_frame s a t f : unused a s = true -> f ∈ stk s t -> mentions a f = false.
Proof.
  intros H Hin. unfold stk in Hin. destruct (stacks s !! t) as [k|] eqn:E; [|apply elem_of_nil in Hin; destruct Hin].
  unfold unused in H. rewrite forallb_forall in H. specialize (H (t, k)). cbn in H. rewrite forallb_forall in H.
  apply negb_true_iff, H; [apply list_elem_of_In, elem_of_map_to_list, E|apply list_elem_of_In, Hin].
Qed.

Lemma unused_wts s a : core s -> unused a s = true -> wts s a = [].
Proof.
  intros C H. destruct (wts s a) as [|t l] eqn:E; [reflexivity|exfalso].
  destruct (c_waits s C a t) as (_ & old & k & Ek); [rewrite E; constructor|].
  pose proof (unused_frame s a t (KSemaLoop a old) H) as Hm. rewrite Ek in Hm. specialize (Hm ltac:(constructor)).
  cbn in Hm. rewrite bool_decide_eq_true_2 in Hm by reflexivity. discriminate.
Qed.

Lemma unused_tok s l : unused (LockSema l) s = true -> total (tok l) (stacks s) = 0.
Proof.
  intros H. unfold unused in H. revert H. generalize (stacks s) as m. intros m Hm.
  assert (Hk : forall t k, m !! t = Some k -> fsum (tok l) k = 0).
  { intros t k E. rewrite forallb_forall in Hm. specialize (Hm (t, k) ltac:(apply list_elem_of_In, elem_of_map_to_list, E)).
    clear E. cbn in Hm. induction k as [|f k IH]; [reflexivity|]. cbn [forallb] in Hm. apply andb_prop in Hm as [Hf Hm].
    rewrite fsum_cons. unfold fsum in *. rewrite IH by exact Hm. clear -Hf.
    destruct f; cbn in *; try reflexivity; apply negb_true_iff, bool_decide_eq_false in Hf; unfold one; rewrite decide_False; try lia; congruence. }
  clear Hm. induction m as [|t k m Hn IH] using map_ind; [reflexivity|]. rewrite total_new by exact Hn.
  rewrite (Hk t k) by apply lookup_insert_eq. rewrite IH; [reflexivity|].
  intros t' k' E. apply (Hk t'). rewrite lookup_insert_ne; [exact E|]. intros ->. congruence.
Qed.

Lemma sema_init_ok s a v :
  active s -> (forall l, a <> LockSema l) -> unused a s = true -> 0 <= v < 2 ^ 32 -> active (sema_init a v s).
Proof.
  intros A Hl Hu Hv. pose proof (a_core s A) as C. pose proof (unused_wts s a C Hu) as Hw.
  assert (Ew : forall b, wts (sema_init a v s) b = wts s b).
  { intros b. unfold sema_init. rewrite wts_set. case_decide; [subst b; symmetry; exact Hw|reflexivity]. }
  assert (Ev : forall b, val (sema_init a v s) b = if decide (b = a) then v else val s b) by (intros b; apply (val_set s)).
  assert (Hs : forall b, is_Some (semas s !! b) -> is_Some (semas (sema_init a v s) !! b)).
  { intros b Hb. cbn. destruct (decide (b = a)) as [->|Hne]; [rewrite lookup_insert_eq; eauto|].
    rewrite lookup_insert_ne by auto. exact Hb. }
  apply (init_change s); auto; try apply C.
  - intros b. rewrite Ev. case_decide; [exact Hv|apply (c_val s C)].
  - intros c ws w Hc Hin. destruct (c_conds s C c ws w Hc Hin). auto.
  - intros l Hh. apply Hs, (c_lsema s C l Hh).
  - intros l Hh. rewrite Ev, decide_False by auto. apply (c_lock s C l Hh).
  - intros b Hb. rewrite Ev, decide_False; [reflexivity|]. intros ->. contradiction.
Qed.

Lemma lock_init_ok s l :
  active s -> unused (LockSema l) s = true -> (forall h, holder s !! l = Some h -> h = NULL) -> active (lock_init l s).
Proof.
  intros A Hu Hh. pose proof (a_core s A) as C. pose proof (unused_wts s _ C Hu) as Hw. set (s' := lock_init l s).
  assert (Ew : forall b, wts s' b = wts s b).
  { intros b. unfold s', lock_init, sema_init. rewrite wts_set. case_decide; [subst b; symmetry; exact Hw|reflexivity]. }
  assert (Ev : forall b, val s' b = if decide (b = LockSema l) then 1 else val s b)
    by (intros b; apply (val_set (set_holder s (<[l := NULL]> (holder s))))).
  assert (Hs : forall b, is_Some (semas s !! b) \/ b = LockSema l -> is_Some (semas s' !! b)).
  { intros b Hb. unfold s'. cbn. destruct (decide (b = LockSema l)) as [->|Hne]; [rewrite lookup_insert_eq; eauto|].
    rewrite lookup_insert_ne by auto. destruct Hb; [assumption|contradiction]. }
  assert (Eh : forall l', holder s' !! l' = if decide (l' = l) then Some NULL else holder s !! l').
  { intros l'. unfold s'. cbn. destruct (decide (l' = l)) as [->|Hne]; [apply lookup_insert_eq|apply lookup_insert_ne; auto]. }
  apply (init_change s); auto; try apply C.
  - intros b. rewrite Ev. case_decide; [lia|apply (c_val s C)].
  - intros l' Hl'. rewrite Eh. case_decide; [eauto|exact Hl'].
  - intros c ws w Hc Hin. destruct (c_conds s C c ws w Hc Hin). auto.
  - intros l'. rewrite Eh. case_decide as Hd; [subst l'; auto|]. intros Hl'. apply Hs. left. apply (c_lsema s C l' Hl').
  - intros l'. unfold taken. rewrite Eh, Ev. destruct (decide (l' = l)) as [->|Hne].
    + intros _. rewrite decide_True, (unused_tok s l Hu) by reflexivity. reflexivity.
    + rewrite decide_False by congruence. apply (c_lock s C l').
  - intros l' h. rewrite Eh. case_decide; [intros [= <-]; auto|auto].
  - intros l' t Ht. unfold held_by. rewrite Eh. case_decide as Hd; [subst l'|reflexivity].
    assert (Htn : t <> NULL) by (destruct Ht as [th E]; apply (c_magic s C t th E)).
    rewrite !bool_decide_eq_false_2; [reflexivity| |congruence].
    intros E. apply Htn, Hh, E.
  - intros b Hb. rewrite Ev, decide_False; [reflexivity|]. intros ->. contradiction.
Qed.

Definition fresh_waiter (w : Z) (s : kstate) : bool :=
  unused (WaiterSema w) s && forallb (fun '(_, ws) => bool_decide (w ∉ (ws : list Z))) (map_to_list (conds s)).

(** The set-up of a wait: semaphore, [remaining], waiters of the condition. *)
Lemma wait_setup s c w ws :
  active s -> conds s !! c = Some ws -> fresh_waiter w s = true ->
  active (set_conds (set_timed (sema_init (WaiterSema w) 0 s) (<[w := -1]> (remaining s)) (timed_semaphores s))
            (<[c := ws ++ [w]]> (conds s))).
Proof.
  intros A Ec Hw. unfold fresh_waiter in Hw. apply andb_prop in Hw as [Hu _].
  assert (A1 : active (sema_init (WaiterSema w) 0 s)) by (apply sema_init_ok; [exact A|discriminate|exact Hu|lia]).
  pose proof (a_core _ A1) as C1. pose proof (a_core s A) as C. set (s1 := sema_init _ _ _) in *.
  assert (Hr : forall x, is_Some (remaining s !! x) \/ x = w -> is_Some (<[w := -1]> (remaining s) !! x)).
  { intros x Hx. destruct (decide (x = w)) as [->|Hne]; [rewrite lookup_insert_eq; eauto|].
    rewrite lookup_insert_ne by auto. destruct Hx; [assumption|contradiction]. }
  apply (init_change s1); auto; try apply C1.
  - intros c' Hc'. cbn. destruct (decide (c' = c)) as [->|Hne]; [rewrite lookup_insert_eq; eauto|].
    rewrite lookup_insert_ne by auto. exact Hc'.
  - intros x r. cbn. destruct (decide (x = w)) as [->|Hne]; [rewrite lookup_insert_eq; congruence|].
    rewrite lookup_insert_ne by auto. apply (c_rem s C).
  - intros c' ws' w'. cbn [conds set_conds]. intros Ec' Hin.
    destruct (decide (w' = w)) as [->|Hw'].
    + split; [cbn; rewrite lookup_insert_eq; eauto|apply Hr; auto].
    + assert (H : is_Some (semas s1 !! WaiterSema w') /\ is_Some (remaining s !! w')); [|destruct H; split; [assumption|apply Hr; auto]].
      destruct (decide (c' = c)) as [->|Hne].
      * rewrite lookup_insert_eq in Ec'. injection Ec' as <-. apply elem_of_app in Hin as [Hin|Hin%list_elem_of_singleton]; [|contradiction].
        apply (c_conds s1 C1 c ws w'); [exact Ec|exact Hin].
      * rewrite lookup_insert_ne in Ec' by auto. apply (c_conds s1 C1 c' ws' w' Ec' Hin).
Qed.

(** ** The other calls *)

Section Calls.
Context (s : kstate) (V : inv s) (E : frames s = []).
Let A : active s := inv_active s V.

Lemma own_code_not_idle : running_thread s <> idle_thread s.
Proof using V E. intros Ei. pose proof (frames_shape s (inv_active s V) Ei) as H. rewrite E in H. exact H. Qed.

(** Frames pushed by a call. *)
Lemma push_frames s1 new lv :
  active s1 -> frames s1 = [] -> running_thread s1 <> idle_thread s1 ->
  (forall l, fsum (tok l) new = 0) -> (forall a, fsum (loop a) new = 0) -> (forall t, fsum (creat t) new = 0) ->
  Forall (frame_ok s1 (running_thread s1)) new -> (forall l, good l new) ->
  forallb (fun f => negb (off_frame f)) new = true ->
  (forall l, obeys l (held_by s1 l (running_thread s1)) new) -> inv (push new (set_level s1 lv)).
Proof using Type.
  intros A1 E1 Hni Ht Hl Hc Hf Hg Hof Ho.
  assert (Es : stacks (push new (set_level s1 lv)) = <[running_thread s1 := new]> (stacks s1))
    by (unfold push; cbn; change (frames (set_level s1 lv)) with (frames s1); rewrite E1, app_nil_r; reflexivity).
  apply active_inv.
  - apply (active_local s1 A1 _ new); [|reflexivity..]. apply (frames_change s1 A1); try reflexivity; rewrite ?E1; auto.
    + intros a. rewrite Hl. reflexivity.
    + rewrite <- (app_nil_r new). apply offs_app; [exact Hof|exact I|exact I].
    + intros Ei. contradiction.
  - left. unfold frames. rewrite Es. cbn. rewrite lookup_insert_eq. rewrite <- (app_nil_r new). apply top_app; [exact Hof|exact I].
Qed.

Lemma ret_inv s1 v : active s1 -> top_on (frames s1) -> inv (set_ret s1 v).
Proof using Type.
  intros A1 Ht. apply active_inv; [|left; exact Ht]. destruct A1 as [C H1 H2]. split; auto. apply (core_same s1); auto.
Qed.

Lemma take_value a sm k :
  semas s !! a = Some sm -> value sm <> 0 ->
  (forall l, fsum (tok l) k = one (a = LockSema l)) -> (forall b, fsum (loop b) k = 0) -> (forall t, fsum (creat t) k = 0) ->
  Forall (frame_ok s (running_thread s)) k -> (forall l, good l k) -> offs k ->
  (forall l, obeys l (held_by s l (running_thread s)) k) ->
  active (at_stack (set_semas s (<[a := mk_sema (wrap 32 (value sm - 1)) (waiters sm)]> (semas s))) k).
Proof using V E.
  intros Es Hv Ht Hl Hc Hf Hg Hof Ho. pose proof (inv_active s V) as A1. pose proof (c_val s (a_core s A1) a) as Hr.
  rewrite (val_of s a sm Es) in Hr. rewrite wrap_id by (unfold inU; lia). set (s' := at_stack _ _).
  apply (active_local s A1 s' k); [|reflexivity..].
  apply (sema_change s s' a sm (value sm - 1) k A1 Es); try reflexivity; try assumption; rewrite ?E.
  - lia.
  - intros l _. rewrite Ht. unfold one. cbn. case_decide; lia.
  - intros b Hw. pose proof (c_wake s (a_core s A1) b Hw) as H. rewrite Hl. cbn.
    case_decide as Hb; [subst b; rewrite (val_of s a sm Es), (wts_of s a sm Es) in H|]; lia.
  - intros t. rewrite Hc. reflexivity.
  - intros Ei. destruct (own_code_not_idle Ei).
Qed.

Lemma try_down_run a sm :
  semas s !! a = Some sm ->
  sema_try_down a s
  = Ret (0 <? value sm,
         if 0 <? value sm then set_semas s (<[a := mk_sema (wrap 32 (value sm - 1)) (waiters sm)]> (semas s)) else s).
Proof using V E.
  intros Es. unfold sema_try_down. cbn [intr_disable semas set_level]. rewrite Es. cbn [the mbind res_bind].
  rewrite set_level_run by (destruct (0 <? value sm); apply (active_ext s (inv_active s V))).
  cbn [mbind res_bind]. destruct (0 <? value sm); destruct s; reflexivity.
Qed.

Lemma try_down_ok a :
  is_Some (semas s !! Sema a) ->
  exists s', ('(b, s) ← sema_try_down (Sema a) s; Ret (set_ret s (b2z b))) = Ret s' /\ inv s' /\ holder s' = holder s.
Proof using V E.
  intros [sm Es]. rewrite (try_down_run _ sm Es). cbn [mbind res_bind].
  assert (Ho : forall l, obeys l (held_by s l (running_thread s)) []) by (intros l; rewrite <- E; apply (frames_obey s (inv_active s V))).
  destruct (Z.ltb_spec 0 (value sm)) as [Hv|Hv]; eexists; (split; [reflexivity|]); (split; [|reflexivity]).
  - pose proof (take_value (Sema a) sm [] Es ltac:(lia)) as H. apply ret_inv.
    + rewrite <- (at_stack_id s (inv_active s V)), E. apply H; auto; try (intros; reflexivity); try exact I.
    + change (frames _) with (frames s). rewrite E. exact I.
  - apply ret_inv; [apply (inv_active s V)|rewrite E; exact I].
Qed.

Lemma try_acquire_ok l h :
  l <> tid_lock -> holder s !! l = Some h -> h <> running_thread s ->
  exists s', lock_try_acquire l s = Ret s' /\ inv s' /\ holder s' = holder s.
Proof using V E.
  intros Hl Eh Hn. pose proof (inv_active s V) as A1. unfold lock_try_acquire.
  pose proof (held_run s l [] h A1 Eh) as Hh. rewrite <- E, (at_stack_id s A1) in Hh. rewrite Hh. cbn [mbind res_bind].
  rewrite (proj2 (Z.eqb_neq _ _) Hn). cbn [negb assert mbind res_bind].
  destruct (c_lsema s (a_core s A1) l) as [sm Es]; [eauto|]. rewrite (try_down_run _ sm Es). cbn [mbind res_bind].
  destruct (Z.ltb_spec 0 (value sm)) as [Hv|Hv]; eexists; (split; [reflexivity|]); (split; [|reflexivity]).
  - apply ret_inv; [|unfold push, frames; cbn; rewrite lookup_insert_eq; reflexivity].
    set (s1 := set_semas _ _). assert (Es1 : push [KHolder l] s1 = at_stack s1 [KHolder l]).
    { unfold push, at_stack. change (frames s1) with (frames s). rewrite E. reflexivity. }
    rewrite Es1. apply take_value; auto; try (intros; reflexivity); try lia.
    + intros l'. cbn. unfold one. destruct (decide (l = l')), (decide (LockSema l = LockSema l')); try congruence; lia.
    + constructor; [cbn; eauto|constructor].
    + intros l'. cbn. pose proof (one_nonneg (l = l')). split; [lia|exact I].
    + split; exact I.
    + intros l'. cbn. pose proof (frames_obey s A1 l') as Ho. rewrite E in Ho. destruct (decide (l = l')) as [<-|]; [|exact Ho].
      split; [|intros; contradiction]. apply bool_decide_eq_false. congruence.
  - apply ret_inv; [exact A1|rewrite E; exact I].
Qed.
End Calls.

Lemma cond_wait_ok s c l w :
  inv s -> frames s = [] -> l <> tid_lock -> holder s !! l = Some (running_thread s) ->
  is_Some (conds s !! c) -> fresh_waiter w s = true ->
  exists s', cond_wait c l w s = Ret s' /\ inv s' /\ holder s' = holder s.
Proof.
  intros V E Hl Hh [ws Ec] Hw. pose proof (inv_active s V) as A. unfold cond_wait. rewrite (active_ext s A).
  cbn [negb assert mbind res_bind]. pose proof (held_run s l [] _ A Hh) as Hb. rewrite <- E, (at_stack_id s A) in Hb.
  rewrite Hb, Z.eqb_refl. cbn [assert mbind res_bind]. unfold push_waiter.
  cbn [conds set_timed sema_init set_semas]. rewrite Ec. cbn [the mbind res_bind].
  pose proof (wait_setup s c w ws A Ec Hw) as A1. set (s1 := set_conds _ _) in *.
  change (mbind _ (Ret s1)) with (Ret (push [KRelease l; KSemaDown (WaiterSema w); KAcquire l] s1)).
  eexists. split; [reflexivity|]. split; [|reflexivity].
  replace s1 with (set_level s1 (intr_get_level s1)) by (unfold s1; destruct s; reflexivity).
  apply push_frames; [exact A1|exact E|apply (own_code_not_idle s V E)| | | | | | |]; try reflexivity.
  - repeat constructor; cbn; rewrite ?lookup_insert_eq, ?Hh; eauto.
  - intros l'. cbn. unfold one. rewrite decide_False by discriminate. lia.
  - intros l'. pose proof (frames_obey s A l') as Ho. rewrite E in Ho. change (held_by s1 l' _) with (held_by s l' (running_thread s)).
    cbn [obeys] in *. destruct (decide (l = l')) as [<-|]; [|exact Ho].
    split; [apply bool_decide_eq_true; exact Hh|]. split; [reflexivity|]. intros; contradiction.
Qed.

Lemma cond_wait_intr_ok s c w :
  inv s -> frames s = [] -> intr_get_level s = false -> is_Some (conds s !! c) -> fresh_waiter w s = true ->
  exists s', cond_wait_intr c w s = Ret s' /\ inv s' /\ holder s' = holder s.
Proof.
  intros V E Hlv [ws Ec] Hw. pose proof (inv_active s V) as A. unfold cond_wait_intr. rewrite Hlv, (active_ext s A).
  cbn [negb assert mbind res_bind]. unfold push_waiter.
  cbn [conds set_timed sema_init set_semas]. rewrite Ec. cbn [the mbind res_bind].
  pose proof (wait_setup s c w ws A Ec Hw) as A1. set (s1 := set_conds _ _) in *.
  change (mbind _ (Ret s1)) with ('(_, s2) ← intr_enable s1; Ret (push [KSemaDown (WaiterSema w); KIntrDisable] s2)).
  unfold intr_enable. rewrite (active_ext s1 A1). cbn [negb assert mbind res_bind].
  eexists. split; [reflexivity|]. split; [|reflexivity].
  apply push_frames; [exact A1|exact E|apply (own_code_not_idle s V E)| | | | | | |]; try reflexivity.
  - repeat constructor; cbn; rewrite ?lookup_insert_eq; eauto.
  - intros l'. cbn. unfold one. rewrite decide_False by discriminate. lia.
  - intros l'. pose proof (frames_obey s A l') as Ho. rewrite E in Ho. exact Ho.
Qed.

(** [sema_up] outside of any lock, from the thread's own code or a handler. *)
Lemma up_now s a sm :
  active s -> (forall l, a <> LockSema l) -> semas s !! a = Some sm -> active (up_state s a sm).
Proof.
  intros A Hl Es. pose proof (up_active s a (frames s) sm A) as H. rewrite (at_stack_id s A) in H. apply H; [|exact Es].
  split; auto; try (intros; apply (frames_good s A)); try (intros; apply (frames_obey s A)).
  - intros l. unfold one. rewrite decide_False by auto. lia.
  - apply (frames_ok s A).
  - apply (frames_offs s A).
  - apply (frames_shape s A).
Qed.

Lemma up_fields s a sm :
  frames (up_state s a sm) = frames s /\ remaining (up_state s a sm) = remaining s /\
  intr_get_level (up_state s a sm) = intr_get_level s.
Proof. unfold up_state. destruct (waiters sm); [|destruct (threads s !! _)]; repeat split. Qed.

Lemma cond_signal_intr_ok s c :
  inv s -> frames s = [] -> intr_get_level s = false -> is_Some (conds s !! c) ->
  exists s', cond_signal_intr c s = Ret s' /\ inv s' /\ holder s' = holder s.
Proof.
  intros V E Hlv [ws Ec]. unfold cond_signal_intr. rewrite Hlv, Ec. cbn [negb assert mbind res_bind the].
  destruct ws as [|w ws]; [exists s; auto|]. pose proof (i_core s V) as C.
  destruct (c_conds s C c (w :: ws) w Ec ltac:(constructor)) as [[sm Es] Hr].
  set (s1 := set_conds s (<[c := ws]> (conds s))).
  assert (V1 : inv s1).
  { apply inv_conds; [exact V| |intros c' ws' w'; apply (conds_tail s c w ws c' ws' w' C Ec)].
    intros c' Hc'. destruct (decide (c' = c)) as [->|Hne]; [rewrite lookup_insert_eq; eauto|].
    rewrite lookup_insert_ne by auto. exact Hc'. }
  pose proof (inv_active s1 V1) as A1.
  rewrite (sema_up_run s1 (WaiterSema w) sm Es);
    [|intros t Hin; apply (waiting_thread s1 _ sm t A1 Es Hin)|intros; apply (active_ext s1 A1)].
  cbn [mbind res_bind]. pose proof (up_now s1 (WaiterSema w) sm A1 ltac:(discriminate) Es) as A2.
  destruct (up_fields s1 (WaiterSema w) sm) as (F1 & F2 & F3).
  rewrite signal_end_run; [|apply (a_core _ A2)|rewrite F2; exact Hr].
  eexists. split; [reflexivity|]. split; [|rewrite up_holder; reflexivity].
  apply active_inv; [exact A2|]. left. rewrite F1. change (frames s1) with (frames s). rewrite E. exact I.
Qed.

Lemma exit_ok s :
  inv s -> frames s = [] -> linking s = false -> (forall l, holder s !! l <> Some (running_thread s)) ->
  exists s', thread_exit s = Ret s' /\ inv s' /\ holder s' = holder s.
Proof.
  intros V E Hlk Hh. pose proof (inv_active s V) as A. pose proof (a_core s A) as C. unfold thread_exit.
  rewrite (active_ext s A). cbn [negb assert mbind res_bind intr_disable].
  replace (thread_current (set_level s false)) with (Ret (running_thread s)) by (symmetry; apply (current_ok s A)).
  cbn [mbind res_bind]. unfold unlink. cbn [all_list set_level].
  rewrite decide_True by (apply (listed s C _ THREAD_RUNNING); [apply (run_stat s A)|discriminate]). cbn [mbind res_bind].
  unfold change_all. change (linking (set_level s false)) with (linking s). rewrite Hlk. cbn [mbind res_bind].
  destruct (stat_lookup s _ _ (run_stat s A)) as (th & Eth & Est).
  rewrite (set_status_run _ _ _ th) by exact Eth. cbn [mbind res_bind]. set (s1 := set_threads _ _).
  assert (H : restat s s1 (running_thread s) THREAD_DYING).
  { apply (restat_plain s s1 _ _ th C Eth); try reflexivity; try discriminate.
    - apply (run_creat s A).
    - intros a. apply (run_waits s a A).
    - apply (c_nodup s C).
    - intros x. split; [|naive_solver]. intros Hx. right. split; [|exact Hx]. intros ->. exact (not_ready s A Hx).
    - intros Ei. destruct (own_code_not_idle s V E Ei).
    - intros _. exact E.
    - apply NoDup_filter, (c_all s C).
    - intros x. cbn. rewrite list_elem_of_filter. naive_solver. }
  pose proof (fun x => restat_stat _ _ _ _ x H) as Es.
  destruct (schedule_ok s1) as (s' & Ex & V' & So).
  { split.
    - apply (core_restat s s1 _ _ C H).
    - intros t. rewrite Es. case_decide as Ht; [discriminate|]. intros E'. apply Ht, (a_run s A), E'.
    - apply (restat_some _ _ _ _ _ H), (run_some s A).
    - intros t. rewrite Es. case_decide as Ht; [intros _; right; split; [exact Ht|exact E]|]. intros E'. left. apply (a_dying s A), E'.
    - intros _. exact Hh.
    - reflexivity. }
  exists s'. split; [exact Ex|]. split; [exact V'|apply So].
Qed.

(** A new thread, blocked and with its creation in progress. *)
Lemma core_new s t th k :
  active s -> frames s = [] -> running_thread s <> idle_thread s -> threads s !! t = None -> t <> NULL ->
  status th = THREAD_BLOCKED -> magic th = THREAD_MAGIC -> k = [KLinking; KAcquire tid_lock; KNextTid t Function] ->
  active (set_all (set_stacks (set_threads s (<[t := th]> (threads s)))
                     (<[running_thread s := k]> (<[t := []]> (stacks s)))) (all_list s ++ [t])).
Proof.
  intros A E Hni Hn Ht Hst Hm Hk. pose proof (a_core s A) as C. set (s' := set_all _ _).
  assert (Hrt : running_thread s <> t) by (intros Hx; destruct (run_some s A) as [? Hy]; rewrite Hx in Hy; congruence).
  assert (Hns : stacks s !! t = None).
  { destruct (stacks s !! t) eqn:Es; [|reflexivity]. destruct (proj1 (c_dom s C t)); [eauto|congruence]. }
  assert (Ens : stat s t = None) by (unfold stat; rewrite Hn; reflexivity).
  assert (Etot : forall g, total g (stacks s') = total g (stacks s) + fsum g k).
  { intros g. unfold s'. cbn [stacks set_all set_stacks]. rewrite (total_set g _ _ []).
    - rewrite total_new by exact Hns. cbn. lia.
    - rewrite lookup_insert_ne by auto. rewrite (run_stack s A), E. reflexivity. }
  assert (Est : forall x, stat s' x = if decide (x = t) then Some THREAD_BLOCKED else stat s x).
  { intros x. unfold stat, s'. cbn. destruct (decide (x = t)) as [->|Hx].
    - rewrite lookup_insert_eq. cbn. congruence.
    - rewrite lookup_insert_ne by auto. reflexivity. }
  assert (Eso : forall x st, stat s x = Some st -> stat s' x = Some st) by (intros x st Ex; rewrite Est, decide_False by congruence; exact Ex).
  assert (Ek : forall x, stk s' x = if decide (x = running_thread s) then k else stk s x).
  { intros x. unfold stk, s'. cbn. destruct (decide (x = running_thread s)) as [->|Hx]; [rewrite lookup_insert_eq; reflexivity|].
    rewrite lookup_insert_ne by auto. destruct (decide (x = t)) as [->|Hx']; [rewrite lookup_insert_eq, Hns; reflexivity|].
    rewrite lookup_insert_ne by auto. reflexivity. }
  assert (Ecr : forall x, fsum (creat x) k = if decide (x = t) then 1 else 0).
  { intros x. rewrite Hk. cbn. unfold one. destruct (decide (t = x)), (decide (x = t)); try congruence; reflexivity. }
  assert (Hb : forall x, stat s x = Some THREAD_BLOCKED -> stk s' x = stk s x).
  { intros x Hx. rewrite Ek. case_decide; [|reflexivity]. subst x. rewrite (run_stat s A) in Hx. discriminate. }
  assert (Hkz : forall l a, fsum (tok l) k = 0 /\ fsum (loop a) k = 0) by (intros; rewrite Hk; split; reflexivity).
  assert (Hidle : exists st, stat s (idle_thread s) = Some st /\ st <> THREAD_DYING) by apply (c_idle s C).
  assert (Hst' : stk s t = []) by (unfold stk; rewrite Hns; reflexivity).
  split; [split; try apply C|..].
  - intros x. unfold s'. cbn. destruct (decide (x = t)) as [->|Hx].
    + rewrite lookup_insert_ne, !lookup_insert_eq by auto. split; eauto.
    + rewrite (lookup_insert_ne (threads s)) by auto. destruct (decide (x = running_thread s)) as [->|Hr].
      * rewrite lookup_insert_eq. split; [intros _; apply (run_some s A)|eauto].
      * rewrite !lookup_insert_ne by auto. apply (c_dom s C).
  - intros x th0. unfold s'. cbn. destruct (decide (x = t)) as [->|Hx]; [rewrite lookup_insert_eq; intros [= <-]; auto|].
    rewrite lookup_insert_ne by auto. apply (c_magic s C).
  - intros x. change (ready_list s') with (ready_list s). change (idle_thread s') with (idle_thread s). rewrite (c_ready s C), Est.
    case_decide as Hx; [subst x; rewrite Ens|reflexivity]. split; intros [? _]; discriminate.
  - intros x. rewrite Est, Etot, Ecr. change (idle_thread s') with (idle_thread s). case_decide as Hx.
    + intros _. right. right. subst x. destruct (c_create s C t) as [->|(_ & F & _)]; [reflexivity|congruence].
    + intros Hbx. rewrite Hb, Z.add_0_r by exact Hbx. apply (c_blocked s C x Hbx).
  - intros a x Hin. destruct (c_waits s C a x Hin) as [Hx Hx']. split; [apply Eso, Hx|]. rewrite Hb by exact Hx. exact Hx'.
  - change (idle_thread s') with (idle_thread s). destruct Hidle as (st & H1 & H2). exists st. split; [apply Eso, H1|exact H2].
  - change (idle_thread s') with (idle_thread s). rewrite Ek, decide_False by auto. apply (c_shape s C).
  - intros x. rewrite Etot, Ecr. change (idle_thread s') with (idle_thread s). case_decide as Hx.
    + right. subst x. destruct (c_create s C t) as [->|(_ & F & _)]; [|congruence]. split; [reflexivity|].
      split; [rewrite Est, decide_True by reflexivity; reflexivity|]. split; [intros ->; destruct Hidle as (? & ? & _); congruence|].
      left. rewrite Ek, decide_False by auto. exact Hst'.
    + rewrite Z.add_0_r. destruct (c_create s C x) as [?|(F1 & F2 & F3 & F4)]; [auto|]. right. rewrite Hb by exact F2. auto.
  - intros x. rewrite Est. case_decide; [discriminate|]. intros Hd. rewrite Ek, decide_False; [apply (c_dead s C x Hd)|].
    intros ->. rewrite (run_stat s A) in Hd. discriminate.
  - apply NoDup_app. split; [apply (c_all s C)|]. split; [|apply NoDup_singleton].
    intros x Hx ->%list_elem_of_singleton. apply (c_listed s C) in Hx as (? & ? & _). congruence.
  - intros x. cbn. rewrite elem_of_app, list_elem_of_singleton, (c_listed s C), Est. case_decide as Hx; [|naive_solver].
    subst x. split; [intros _; exists THREAD_BLOCKED; split; [reflexivity|discriminate]|auto].
  - intros x. rewrite Ek. case_decide as Hx; [|apply (c_frames s C)].
    rewrite Hk. constructor; [exact I|]. constructor; [apply (c_tid s C)|]. constructor; [reflexivity|constructor].
  - intros x l. rewrite Ek. case_decide; [rewrite Hk; cbn; lia|apply (c_good s C)].
  - intros x. rewrite Ek. case_decide; [rewrite Hk; cbn; repeat split; discriminate|apply (c_offs s C)].
  - intros x l. intros Hx. change (held_by s' l x) with (held_by s l x). rewrite Ek. case_decide as Hr.
    + subst x. pose proof (frames_obey s A l) as Ho. rewrite E in Ho. rewrite Hk. cbn [obeys] in *.
      destruct (decide (tid_lock = l)) as [<-|Hl].
      * split; [apply Ho; reflexivity|]. rewrite decide_True by reflexivity. split; reflexivity.
      * rewrite decide_False by auto. exact Ho.
    + destruct (decide (x = t)) as [->|Hxt].
      * rewrite Hst'. intros ->. apply bool_decide_eq_false. intros Eh.
        destruct (c_holder s C _ _ Eh) as [?|[? ?]]; congruence.
      * apply (c_obeys s C). unfold s' in Hx. cbn in Hx. rewrite lookup_insert_ne in Hx by auto. exact Hx.
  - intros l h Eh. destruct (c_holder s C l h Eh) as [?|Hs]; [auto|]. right. unfold s'. cbn.
    destruct (decide (h = t)) as [->|Hh]; [rewrite lookup_insert_eq; eauto|rewrite lookup_insert_ne by auto; exact Hs].
  - intros l Hl. rewrite Etot, (proj1 (Hkz l (LockSema l))), Z.add_0_r. apply (c_lock s C l Hl).
  - intros a Ha. rewrite Etot, (proj2 (Hkz 0 a)), Z.add_0_r. apply (c_wake s C a Ha).
  - intros x. rewrite Est. case_decide as Hx; [subst x; split; [discriminate|intros Hx; destruct (Hrt (eq_sym Hx))]|apply (a_run s A)].
  - intros x. rewrite Est. case_decide; [discriminate|]. apply (a_dying s A).
Qed.

Lemma linking_new s t m :
  stacks s !! t = None -> linking (set_stacks (set_threads s m) (<[t := []]> (stacks s))) = linking s.
Proof.
  intros Hn. unfold linking. cbn [stacks set_stacks]. apply eq_true_iff_eq. rewrite !existsb_exists.
  assert (P : map_to_list (<[t := []]> (stacks s)) ≡ₚ (t, []) :: map_to_list (stacks s)) by by apply map_to_list_insert.
  split; intros (p & Hp & Hl).
  - apply list_elem_of_In in Hp. rewrite P, elem_of_cons in Hp. destruct Hp as [->|Hp]; [discriminate|].
    exists p. split; [by apply list_elem_of_In|exact Hl].
  - exists p. split; [|exact Hl]. apply list_elem_of_In. rewrite P, elem_of_cons. right. by apply list_elem_of_In.
Qed.

Lemma create_ok s page nm pri :
  inv s -> frames s = [] -> linking s = false -> PRI_MIN <= pri <= PRI_MAX ->
  match page with Some t => t <> NULL /\ threads s !! t = None | None => True end ->
  exists s', thread_create page nm pri Function s = Ret s' /\ inv s' /\ holder s' = holder s.
Proof.
  intros V E Hlk Hp Ht. pose proof (inv_active s V) as A. unfold thread_create. destruct page as [t|].
  - destruct Ht as [Hn Hnone]. unfold init_thread. rewrite (proj2 (Z.eqb_neq _ _) Hn). cbn [negb assert mbind res_bind].
    rewrite (proj2 (Z.leb_le _ _) (proj1 Hp)), (proj2 (Z.leb_le _ _) (proj2 Hp)). cbn [andb assert mbind res_bind].
    unfold change_all. rewrite linking_new by (destruct (c_dom s (a_core s A) t) as [H _]; destruct (stacks s !! t);
      [destruct H; [eauto|congruence]|reflexivity]). rewrite Hlk. cbn [mbind res_bind].
    eexists. split; [reflexivity|]. split; [|reflexivity]. set (th := mk_thread _ _ _ _ _ _).
    assert (Hrt : running_thread s <> t) by (intros Hx; destruct (run_some s A) as [? Hy]; rewrite Hx in Hy; congruence).
    assert (Ep : forall f, push f (set_all (set_stacks (set_threads s (<[t := th]> (threads s))) (<[t := []]> (stacks s))) (all_list s ++ [t]))
              = set_all (set_stacks (set_threads s (<[t := th]> (threads s))) (<[running_thread s := f]> (<[t := []]> (stacks s)))) (all_list s ++ [t])).
    { intros f. unfold push, frames. cbn. rewrite lookup_insert_ne by auto. fold (frames s). rewrite E, app_nil_r. reflexivity. }
    rewrite Ep. apply active_inv; [|left; unfold frames; cbn; rewrite lookup_insert_eq; reflexivity].
    apply core_new; auto. apply (own_code_not_idle s V E).
  - eexists. split; [reflexivity|]. split; [|reflexivity]. apply ret_inv; [exact A|rewrite E; exact I].
Qed.

(** ** Interrupts *)

Lemma top_enabled s : inv s -> intr_get_level s = true -> top_on (frames s).
Proof.
  intros V Hl. destruct (frames s) as [|f k] eqn:E; [exact I|]. cbn. destruct (off_frame f) eqn:Eo; [|reflexivity].
  rewrite (i_level s V f k E Eo) in Hl. discriminate.
Qed.

Lemma active_same s s' :
  active s -> objects s' = objects s -> synch s' = synch s -> stacks s' = stacks s ->
  running_thread s' = running_thread s -> initial_thread s' = initial_thread s -> active s'.
Proof.
  intros [C H1 H2] E1 E2 E3 E4 E5. injection E1 as Et ? ? ? ? ? ?. split.
  - apply (core_same s s' C); [|exact E2|exact E3]. unfold objects. congruence.
  - intros t. unfold stat. rewrite Et, E4. apply H1.
  - intros t. unfold stat. rewrite Et, E5. apply H2.
Qed.

(** The yield at the end of a handler. *)
Lemma yield_on_return_ok s :
  active s -> top_on (frames s) -> intr_get_level s = false ->
  exists s', thread_yield (push [KIret] s) = Ret s' /\ inv s' /\ holder s' = holder s.
Proof.
  intros A Ht Hl. assert (Hof : offs (KIret :: frames s)).
  { split; [|apply (frames_offs s A)]. destruct (frames s); [exact I|]. cbn in Ht. congruence. }
  assert (A1 : active (push [KIret] s)).
  { replace s with (set_level s (intr_get_level s)) at 1 by (destruct s; reflexivity).
    apply push_neutral; [exact A|reflexivity|exact I|exact Hof|apply (frames_shape s A)]. }
  destruct (thread_yield_ok _ A1) as (s' & E & V' & So).
  - assert (Ef : frames (push [KIret] s) = KIret :: frames s) by (unfold push, frames; cbn; rewrite lookup_insert_eq; reflexivity).
    rewrite Ef. split; [|exact Hof]. intros _. split; [reflexivity|]. change (intr_get_level (push [KIret] s)) with (intr_get_level s).
    rewrite Hl. reflexivity.
  - exists s'. split; [exact E|]. split; [exact V'|apply So].
Qed.

Lemma timer_ok s :
  inv s -> intr_get_level s = true -> exists s', __intr_handler timer_interrupt s = Ret s' /\ inv s' /\ holder s' = holder s.
Proof.
  intros V Hl. pose proof (inv_active s V) as A. pose proof (top_enabled s V Hl) as Ht. unfold __intr_handler.
  change (intr_context (set_level s false)) with (intr_context s). rewrite (active_ext s A). cbn [negb assert mbind res_bind].
  unfold timer_interrupt, thread_tick, timed_semaphores_tick.
  cbn [timed_semaphores set_ticks set_intr set_level]. rewrite (c_timed s (a_core s A)). cbn [timed_loop mbind res_bind].
  set (s1 := set_ticks _ _ _ _).
  assert (H : forall s2, s2 = s1 \/ s2 = set_intr s1 true true ->
            intr_get_level s2 = false /\ intr_context s2 = true /\ active (set_intr s2 false (yield_on_return s2)) /\
            frames s2 = frames s /\ holder s2 = holder s).
  { intros s2 [->| ->]; (split; [reflexivity|]); (split; [reflexivity|]); (split; [|split; reflexivity]);
      apply (active_same s); try reflexivity; try exact A; unfold objects; cbn; rewrite <- (c_ext s (a_core s A)); reflexivity. }
  assert (Hr : exists s2, (if TIME_SLICE <=? thread_ticks s1 then intr_yield_on_return s1 else Ret s1) = Ret s2 /\ (s2 = s1 \/ s2 = set_intr s1 true true)).
  { destruct (TIME_SLICE <=? thread_ticks s1); eexists; split; try reflexivity; auto. }
  destruct Hr as (s2 & -> & Hs2). destruct (H s2 Hs2) as (H1 & H2 & A2 & H3 & H4). cbn [mbind res_bind].
  rewrite H1. cbn [negb assert mbind res_bind]. rewrite H2. cbn [assert mbind res_bind].
  change (yield_on_return (set_intr s2 false (yield_on_return s2))) with (yield_on_return s2).
  destruct (yield_on_return s2) eqn:Ey.
  - destruct (yield_on_return_ok _ A2) as (s' & E & V' & Hh); [change (top_on (frames s2)); rewrite H3; exact Ht|exact H1|].
    exists s'. split; [exact E|]. split; [exact V'|]. rewrite Hh. exact H4.
  - eexists. split; [reflexivity|]. split; [|exact H4]. apply active_inv; [|left; change (top_on (frames s2)); rewrite H3; exact Ht].
    apply (active_same _ _ A2); reflexivity.
Qed.

Lemma device_ok s a :
  inv s -> intr_get_level s = true -> is_Some (semas s !! Sema a) ->
  exists s', __intr_handler (sema_up (Sema a)) s = Ret s' /\ inv s' /\ holder s' = holder s.
Proof.
  intros V Hl [sm Es]. pose proof (inv_active s V) as A. pose proof (top_enabled s V Hl) as Ht. unfold __intr_handler.
  change (intr_context (set_level s false)) with (intr_context s). rewrite (active_ext s A). cbn [negb assert mbind res_bind].
  set (s1 := set_intr _ _ _).
  rewrite (sema_up_run s1 (Sema a) sm Es); [|intros t Hin; apply (waiting_thread s _ sm t A Es Hin)|discriminate].
  cbn [mbind res_bind]. destruct (up_fields s1 (Sema a) sm) as (F1 & F2 & F3). rewrite F3. cbn [negb assert mbind res_bind].
  pose proof (up_now s (Sema a) sm A ltac:(discriminate) Es) as A2.
  assert (Hx : intr_context (up_state s1 (Sema a) sm) = true /\ yield_on_return (up_state s1 (Sema a) sm) = false).
  { unfold up_state. destruct (waiters sm); [|destruct (threads s1 !! _)]; split; reflexivity. }
  destruct Hx as [-> ->]. cbn [assert mbind res_bind]. change (yield_on_return (set_intr _ _ false)) with false.
  eexists. split; [reflexivity|]. split; [|cbn; rewrite up_holder; reflexivity].
  apply active_inv; [|left; change (top_on (frames (up_state s1 (Sema a) sm))); rewrite F1; exact Ht].
  apply (active_same _ _ A2); unfold objects, synch, up_state; cbn [threads s1 set_intr set_level];
    destruct (waiters sm); try destruct (threads s !! _); try reflexivity;
    cbn; rewrite <- (c_ext s (a_core s A)); reflexivity.
Qed.

(** ** Any sequence of events *)

Definition present {A} (o : option A) : bool := match o with Some _ => true | None => false end.

(** The rules of the calls, for programs without timed waits: an object is
    initialised before use and not while in use, a lock is acquired by a thread
    that does not hold it and released by its holder, a thread does not exit
    with a lock, a new page is not one of another thread, and no thread is
    created and none exits while another is in [list_push_back] of
    [init_thread]. *)
Definition may_call (o : call) (s : kstate) : bool :=
  let me := running_thread s in
  let mine l := negb (l =? tid_lock) && match holder s !! l with Some h => h =? me | None => false end in
  match o with
  | SemaInit a v => unused (Sema a) s && (0 <=? v) && (v <? 2 ^ 32)
  | SemaDown a | SemaTryDown a | SemaUp a => present (semas s !! Sema a)
  | LockInit l => negb (l =? tid_lock) && unused (LockSema l) s
                  && match holder s !! l with Some h => h =? NULL | None => true end
  | LockAcquire l | LockTryAcquire l =>
      negb (l =? tid_lock) && match holder s !! l with Some h => negb (h =? me) | None => false end
  | LockRelease l => mine l
  | CondInit c => match conds s !! c with Some (_ :: _) => false | _ => true end
  | CondWait c l w => mine l && present (conds s !! c) && fresh_waiter w s
  | CondSignal c l | CondBroadcast c l => mine l && present (conds s !! c)
  | CondWaitIntr c w => negb (intr_get_level s) && present (conds s !! c) && fresh_waiter w s
  | CondSignalIntr c => negb (intr_get_level s) && present (conds s !! c)
  | CondTimedWait _ _ _ _ | CondTimedWaitIntr _ _ _ => false
  | IntrEnable | IntrDisable | Yield | SetPriority _ => true
  | Sleep _ => intr_get_level s
  | Exit => negb (linking s) && forallb (fun '(_, h) => negb (h =? me)) (map_to_list (holder s))
  | Create page _ pri =>
      negb (linking s) && (PRI_MIN <=? pri) && (pri <=? PRI_MAX)
      && match page with Some t => negb (t =? NULL) && negb (present (threads s !! t)) | None => true end
  end.

Definition may (e : event) (s : kstate) : bool :=
  match e with
  | Run => match frames s with [] => false | _ => true end
  | Call o => match frames s with [] => may_call o s | _ => false end
  | Timer => intr_get_level s
  | Device a => intr_get_level s && present (semas s !! Sema a)
  end.

(** Each event may happen in the state it happens in. *)
Fixpoint lawful (es : list event) (s : kstate) : bool :=
  match es with
  | [] => true
  | e :: es => may e s && match do_event e s with Ret s' => lawful es s' | Stop _ => true end
  end.

(** The holder of a lock changes only when the holder releases it or the
    running thread takes it when it is free. *)
Definition releases (e : event) (s : kstate) (l : Z) : Prop :=
  e = Call (LockRelease l) \/ e = Run /\ exists k, frames s = KRelease l :: k.
Definition holders_kept (e : event) (s s' : kstate) : Prop :=
  (forall l t, t <> NULL -> holder s !! l = Some t ->
     holder s' !! l = Some t \/ t = running_thread s /\ releases e s l) /\
  (forall l t, t <> NULL -> holder s' !! l = Some t ->
     holder s !! l = Some t \/ t = running_thread s /\ holder s !! l = Some NULL).

Lemma present_some {A} (o : option A) : present o = true -> is_Some o.
Proof. destruct o; [eauto|discriminate]. Qed.

Lemma kept_same e s s' : holder s' = holder s -> holders_kept e s s'.
Proof. intros E. unfold holders_kept. rewrite E. auto. Qed.

Lemma run_ok s f k :
  inv s -> frames s = f :: k -> exists s', exec f (drop_frame s) = Ret s' /\ inv s' /\ holders_kept Run s s'.
Proof.
  intros V E. destruct (exec_ok s f k V E) as (s' & Ex & V' & Hh). exists s'. split; [exact Ex|]. split; [exact V'|].
  pose proof (inv_active s V) as A.
  destruct f; cbn [holder_after] in Hh; try (apply kept_same; exact Hh); split; intros l t Ht; rewrite Hh.
  - intros Eh. destruct (decide (l = lock)) as [->|Hne]; [|rewrite lookup_insert_ne by auto; auto].
    rewrite (holder_null s lock k A E) in Eh. congruence.
  - destruct (decide (l = lock)) as [->|Hne]; [|rewrite lookup_insert_ne by auto; auto].
    rewrite lookup_insert_eq. intros [= <-]. right. split; [reflexivity|apply (holder_null s lock k A E)].
  - intros Eh. destruct (decide (l = lock)) as [->|Hne]; [|rewrite lookup_insert_ne by auto; auto]. right.
    destruct (lock_release_ok s lock k V E) as [Eh' _]. split; [congruence|]. right. eauto.
  - destruct (decide (l = lock)) as [->|Hne]; [rewrite lookup_insert_eq; congruence|rewrite lookup_insert_ne by auto; auto].
Qed.

Lemma call_via s f o :
  inv s -> frames s = [] -> exec f s = do_call o s -> holder_after f s = holder s ->
  (forall l, tok l f = 0) -> (forall a, loop a f = 0) -> (forall t, creat t f = 0) ->
  frame_ok s (running_thread s) f -> off_frame f = false ->
  (forall l, obeys l (held_by s l (running_thread s)) [] -> obeys l (held_by s l (running_thread s)) [f]) ->
  exists s', do_call o s = Ret s' /\ inv s' /\ holders_kept (Call o) s s'.
Proof.
  intros V E Ex Eh Ht Hl Hc Hf Ho Hob. destruct (call_frame s f V E Ht Hl Hc Hf Ho Hob) as (s' & E' & V' & Hh).
  exists s'. rewrite <- Ex. split; [exact E'|]. split; [exact V'|]. apply kept_same. congruence.
Qed.

Lemma kept_call s o (m : res kstate) :
  (exists s', m = Ret s' /\ inv s' /\ holder s' = holder s) -> exists s', m = Ret s' /\ inv s' /\ holders_kept (Call o) s s'.
Proof. intros (s' & E & V & H). exists s'. split; [exact E|]. split; [exact V|]. apply kept_same, H. Qed.

Lemma mine_true s l :
  negb (l =? tid_lock) && match holder s !! l with Some h => h =? running_thread s | None => false end = true ->
  l <> tid_lock /\ holder s !! l = Some (running_thread s).
Proof.
  intros [H1 H2]%andb_prop. apply negb_true_iff, Z.eqb_neq in H1. split; [exact H1|].
  destruct (holder s !! l); [|discriminate]. apply Z.eqb_eq in H2. congruence.
Qed.

Lemma release_call_ok s l :
  inv s -> frames s = [] -> l <> tid_lock -> holder s !! l = Some (running_thread s) ->
  exists s', do_call (LockRelease l) s = Ret s' /\ inv s' /\ holders_kept (Call (LockRelease l)) s s'.
Proof.
  intros V E Hl Hh. destruct (call_frame s (KRelease l) V E) as (s' & Ex & V' & Hh'); try reflexivity.
  - cbn. rewrite Hh. eauto.
  - intros l' Ho. cbn [obeys]. destruct (decide (l = l')) as [<-|]; [|exact Ho].
    split; [apply bool_decide_eq_true, Hh|reflexivity].
  - exists s'. split; [exact Ex|]. split; [exact V'|]. cbn [holder_after] in Hh'. split; intros l' t Ht; rewrite Hh'.
    + intros Eh. destruct (decide (l' = l)) as [->|Hne]; [|rewrite lookup_insert_ne by auto; auto]. right.
      split; [congruence|]. left. reflexivity.
    + destruct (decide (l' = l)) as [->|Hne]; [rewrite lookup_insert_eq; congruence|rewrite lookup_insert_ne by auto; auto].
Qed.

Lemma lock_init_call_ok s l :
  inv s -> frames s = [] -> unused (LockSema l) s = true -> (forall h, holder s !! l = Some h -> h = NULL) ->
  inv (lock_init l s) /\ holders_kept (Call (LockInit l)) s (lock_init l s).
Proof.
  intros V E Hu Hh. split.
  - apply active_inv; [apply lock_init_ok; [apply inv_active; exact V|exact Hu|exact Hh]|].
    left. change (frames (lock_init l s)) with (frames s). rewrite E. exact I.
  - assert (Eh : forall l', holder (lock_init l s) !! l' = if decide (l' = l) then Some NULL else holder s !! l').
    { intros l'. cbn. destruct (decide (l' = l)) as [->|Hne]; [apply lookup_insert_eq|apply lookup_insert_ne; auto]. }
    split; intros l' t Ht; rewrite Eh; case_decide as Hd; subst; auto.
    + intros Et. destruct (Ht (Hh t Et)).
    + congruence.
Qed.

Lemma call_ok s o :
  inv s -> frames s = [] -> may_call o s = true ->
  exists s', do_call o s = Ret s' /\ inv s' /\ holders_kept (Call o) s s'.
Proof.
  intros V E H. pose proof (inv_active s V) as A. destruct o; cbn [may_call] in H.
  - apply andb_prop in H as [[Hu H0]%andb_prop H1]. apply Z.leb_le in H0. apply Z.ltb_lt in H1. apply kept_call.
    eexists. split; [reflexivity|]. split; [|reflexivity]. apply active_inv; [|left; change (top_on (frames s)); rewrite E; exact I].
    apply sema_init_ok; [exact A|discriminate|exact Hu|lia].
  - apply present_some in H. apply (call_via s (KSemaDown (Sema a))); auto; reflexivity.
  - apply present_some in H. apply kept_call, (try_down_ok s V E a H).
  - apply present_some in H. apply (call_via s (KSemaUp (Sema a))); auto; reflexivity.
  - apply andb_prop in H as [[_ Hu]%andb_prop Hh]. eexists. split; [reflexivity|].
    apply lock_init_call_ok; auto. intros h Eh. rewrite Eh in Hh. apply Z.eqb_eq, Hh.
  - apply andb_prop in H as [Ht Hh]. apply negb_true_iff, Z.eqb_neq in Ht. destruct (holder s !! l) as [h|] eqn:Eh; [|discriminate].
    apply negb_true_iff, Z.eqb_neq in Hh. apply (call_via s (KAcquire l)); auto; [cbn; eauto|].
    intros l' Ho. cbn [obeys]. destruct (decide (l = l')) as [<-|]; [|exact Ho]. split; [apply bool_decide_eq_false; congruence|intros; contradiction].
  - apply andb_prop in H as [Ht Hh]. apply negb_true_iff, Z.eqb_neq in Ht. destruct (holder s !! l) as [h|] eqn:Eh; [|discriminate].
    apply negb_true_iff, Z.eqb_neq in Hh. apply kept_call, (try_acquire_ok s V E l h Ht Eh Hh).
  - apply mine_true in H as [Hl Hh]. apply release_call_ok; assumption.
  - apply kept_call. eexists. split; [reflexivity|]. split; [|reflexivity]. apply inv_conds; [exact V| |].
    + intros c' Hc'. destruct (decide (c' = c)) as [->|Hne]; [rewrite lookup_insert_eq; eauto|rewrite lookup_insert_ne by auto; exact Hc'].
    + intros c' ws w. destruct (decide (c' = c)) as [->|Hne].
      * rewrite lookup_insert_eq. intros [= <-] []%elem_of_nil.
      * rewrite lookup_insert_ne by auto. apply (c_conds s (a_core s A)).
  - apply andb_prop in H as [[Hm Hc]%andb_prop Hw]. apply mine_true in Hm as [Hl Hh]. apply present_some in Hc.
    apply kept_call, cond_wait_ok; assumption.
  - discriminate.
  - apply andb_prop in H as [Hm Hc]. apply mine_true in Hm as [Hl Hh]. apply present_some in Hc.
    apply (call_via s (KSignal c l)); auto; [split; [exact Hc|rewrite Hh; eauto]|].
    intros l' Ho. split; [intros <-; apply bool_decide_eq_true, Hh|exact Ho].
  - apply andb_prop in H as [Hm Hc]. apply mine_true in Hm as [Hl Hh]. apply present_some in Hc.
    apply (call_via s (KBroadcast c l)); auto; [split; [exact Hc|rewrite Hh; eauto]|].
    intros l' Ho. split; [intros <-; apply bool_decide_eq_true, Hh|exact Ho].
  - apply andb_prop in H as [[Hlv Hc]%andb_prop Hw]. apply negb_true_iff in Hlv. apply present_some in Hc.
    apply kept_call, cond_wait_intr_ok; assumption.
  - discriminate.
  - apply andb_prop in H as [Hlv Hc]. apply negb_true_iff in Hlv. apply present_some in Hc.
    apply kept_call, cond_signal_intr_ok; assumption.
  - apply (call_via s KIntrEnable); auto; reflexivity.
  - apply (call_via s KIntrDisable); auto; reflexivity.
  - apply kept_call. destruct (thread_yield_ok s A) as (s' & Ey & V' & So); [rewrite E; split; exact I|].
    exists s'. split; [exact Ey|]. split; [exact V'|apply So].
  - apply (call_via s (KSleep (ticks s) n)); auto; try reflexivity. cbn. unfold timer_sleep. rewrite H. reflexivity.
  - apply andb_prop in H as [Hlk%negb_true_iff H]. apply kept_call, exit_ok; auto. intros l Hl. rewrite forallb_forall in H.
    specialize (H (l, running_thread s)). cbn in H. rewrite Z.eqb_refl in H. discriminate H.
    apply list_elem_of_In, elem_of_map_to_list, Hl.
  - apply andb_prop in H as [Hp Ht]. apply andb_prop in Hp as [Hp H2%Z.leb_le]. apply andb_prop in Hp as [Hlk%negb_true_iff H1%Z.leb_le].
    apply kept_call, create_ok; auto. destruct page as [t|]; [|exact I].
    apply andb_prop in Ht as [Hn%negb_true_iff%Z.eqb_neq Ht%negb_true_iff]. split; [exact Hn|].
    destruct (threads s !! t); [discriminate|reflexivity].
  - apply kept_call. cbn [do_call]. unfold thread_set_priority. rewrite (current_ok s A). cbn [mbind res_bind].
    destruct (run_some s A) as [th Eth]. rewrite Eth. cbn [the mbind res_bind]. eexists. split; [reflexivity|]. split; [|reflexivity].
    apply (inv_thread s _ th _ V Eth); reflexivity.
Qed.

Lemma event_ok s e :
  inv s -> may e s = true -> exists s', do_event e s = Ret s' /\ inv s' /\ holders_kept e s s'.
Proof.
  intros V H. destruct e as [|o| |a]; cbn [may do_event] in *.
  - destruct (frames s) as [|f k] eqn:E; [discriminate|]. apply (run_ok s f k V E).
  - destruct (frames s) as [|f k] eqn:E; [|discriminate]. apply (call_ok s o V E H).
  - destruct (timer_ok s V H) as (s' & E & V' & Hh). exists s'. split; [exact E|]. split; [exact V'|apply kept_same, Hh].
  - apply andb_prop in H as [Hl Ha%present_some]. destruct (device_ok s a V Hl Ha) as (s' & E & V' & Hh).
    exists s'. split; [exact E|]. split; [exact V'|apply kept_same, Hh].
Qed.

Lemma events_ok es s : inv s -> lawful es s = true -> exists s', do_events es s = Ret s' /\ inv s'.
Proof.
  revert s. induction es as [|e es IH]; intros s V H; [exists s; auto|]. cbn [lawful] in H. apply andb_prop in H as [Hm H].
  destruct (event_ok s e V Hm) as (s1 & E & V1 & _). rewrite E in H. cbn [do_events]. rewrite E. apply (IH s1 V1 H).
Qed.

(** ** Boot

    Memory cleared, [thread_init] with the loader's stack in the page at
    0x10000, then [thread_start], whose idle thread gets the page at 0x20000. *)
Definition cleared : kstate := mk_k 0 false false false [] [] 0 0 0 0 0 1 ∅ ∅ ∅ ∅ ∅ ∅ [] ∅.
Definition boot : res kstate :=
  s ← thread_init 0x10000 (synch_init cleared);
  s ← do_events (replicate 8 Run) s;
  s ← thread_start (Some 0x20000) 0x10f00 s;
  do_events (replicate 17 Run) s.

Definition main_thread : thread := mk_thread 1 THREAD_RUNNING [109; 97; 105; 110] 0x11000 PRI_DEFAULT THREAD_MAGIC.
Definition the_idle_thread : thread := mk_thread 2 THREAD_BLOCKED [105; 100; 108; 101] 0x20fd4 PRI_MIN THREAD_MAGIC.
Definition booted : kstate :=
  mk_k 0x10000 true false false [] [0x10000; 0x20000] 0x20000 0x10000 0 0 0 3
    (<[0x10000 := main_thread]> (<[0x20000 := the_idle_thread]> ∅))
    (<[0x10000 := []]> (<[0x20000 := [KIdleHlt]]> ∅))
    (<[LockSema tid_lock := mk_sema 1 []]> (<[Sema 0x10f00 := mk_sema 0 []]> ∅))
    (<[tid_lock := NULL]> ∅) ∅ ∅ [] (<[0x10000 := 2]> ∅).

Lemma boot_ends : boot = Ret booted.
Proof. vm_compute. reflexivity. Qed.

Lemma booted_inv : inv booted.
Proof.
  assert (Ht : forall t, threads booted !! t = if decide (t = 0x10000) then Some main_thread
                         else if decide (t = 0x20000) then Some the_idle_thread else None).
  { intros t. cbn [threads booted]. destruct (decide (t = 0x10000)) as [->|H1]; [apply lookup_insert_eq|].
    rewrite lookup_insert_ne by auto. destruct (decide (t = 0x20000)) as [->|H2]; [apply lookup_insert_eq|].
    rewrite lookup_insert_ne by auto. apply lookup_empty. }
  assert (Hk : forall t, stk booted t = if decide (t = 0x20000) then [KIdleHlt] else []).
  { intros t. unfold stk. cbn [stacks booted]. destruct (decide (t = 0x20000)) as [->|H2].
    - rewrite lookup_insert_ne by discriminate. rewrite lookup_insert_eq. reflexivity.
    - destruct (decide (t = 0x10000)) as [->|H1]; [rewrite lookup_insert_eq; reflexivity|].
      rewrite !lookup_insert_ne by auto. reflexivity. }
  assert (Hst : forall t, stat booted t = if decide (t = 0x10000) then Some THREAD_RUNNING
                         else if decide (t = 0x20000) then Some THREAD_BLOCKED else None).
  { intros t. unfold stat. rewrite Ht. do 2 (case_decide; [reflexivity|]). reflexivity. }
  assert (Hs : forall a, semas booted !! a = if decide (a = LockSema tid_lock) then Some (mk_sema 1 [])
                         else if decide (a = Sema 0x10f00) then Some (mk_sema 0 []) else None).
  { intros a. cbn [semas booted]. destruct (decide (a = LockSema tid_lock)) as [->|H1]; [apply lookup_insert_eq|].
    rewrite lookup_insert_ne by auto. destruct (decide (a = Sema 0x10f00)) as [->|H2]; [apply lookup_insert_eq|].
    rewrite lookup_insert_ne by auto. apply lookup_empty. }
  assert (Hw : forall a, wts booted a = []) by (intros a; unfold wts; rewrite Hs; do 2 (case_decide; [reflexivity|]); reflexivity).
  assert (Hh : forall l h, holder booted !! l = Some h -> l = tid_lock /\ h = NULL).
  { intros l h. cbn [holder booted]. destruct (decide (l = tid_lock)) as [->|H1]; [rewrite lookup_insert_eq; intros [= <-]; auto|].
    rewrite lookup_insert_ne, lookup_empty by auto. discriminate. }
  assert (Htot : forall g, g KIdleHlt = 0 -> total g (stacks booted) = 0).
  { intros g Hg. cbn [stacks booted]. rewrite total_new by reflexivity. rewrite total_new by apply lookup_empty. cbn. rewrite Hg. reflexivity. }
  split; [split|..]; try reflexivity; try (intros; rewrite Hw; constructor).
  - intros t. rewrite Ht. cbn [stacks booted]. destruct (decide (t = 0x10000)) as [->|H1]; [rewrite lookup_insert_eq; split; eauto|].
    rewrite lookup_insert_ne by auto. destruct (decide (t = 0x20000)) as [->|H2]; [rewrite lookup_insert_eq; split; eauto|].
    rewrite lookup_insert_ne, lookup_empty by auto. split; intros [? ?]; discriminate.
  - intros t th. rewrite Ht. case_decide as H1; [subst; intros [= <-]; split; [reflexivity|discriminate]|].
    case_decide as H2; [subst; intros [= <-]; split; [reflexivity|discriminate]|discriminate].
  - constructor.
  - intros t. rewrite Hst. cbn [ready_list idle_thread booted]. rewrite elem_of_nil. split; [tauto|]. intros [H _].
    do 2 (case_decide; [discriminate|]). discriminate.
  - intros t. rewrite Hst. case_decide; [discriminate|]. case_decide; [auto|discriminate].
  - intros a t. rewrite Hw. intros []%elem_of_nil.
  - exists THREAD_BLOCKED. rewrite Hst. split; [reflexivity|discriminate].
  - intros t. left. apply Htot. reflexivity.
  - intros t. rewrite Hst. do 2 (case_decide; [discriminate|]). discriminate.
  - cbn [all_list booted]. repeat constructor; rewrite ?list_elem_of_singleton, ?elem_of_nil; lia.
  - intros t. cbn [all_list booted]. rewrite !elem_of_cons, elem_of_nil, Hst.
    destruct (decide (t = 0x10000)) as [->|H1]; [split; [intros _; exists THREAD_RUNNING; split; [reflexivity|discriminate]|auto]|].
    destruct (decide (t = 0x20000)) as [->|H2]; [split; [intros _; exists THREAD_BLOCKED; split; [reflexivity|discriminate]|auto]|].
    split; [tauto|intros (? & ? & _); discriminate].
  - intros t. rewrite Hk. case_decide; [repeat constructor; assumption|constructor].
  - intros t l. rewrite Hk. case_decide; [cbn; lia|exact I].
  - intros t. rewrite Hk. case_decide; [split; exact I|exact I].
  - intros t l Hs'. assert (Ho : l = tid_lock -> held_by booted l t = false).
    { intros _. apply bool_decide_eq_false. intros [_ ->]%Hh. rewrite Ht in Hs'. do 2 (case_decide; [discriminate|]). destruct Hs'. discriminate. }
    rewrite Hk. case_decide; exact Ho.
  - intros l h [_ ->]%Hh. auto.
  - intros l [h [-> _]%Hh]. rewrite Hs, decide_True by reflexivity. eauto.
  - intros l [h [-> _]%Hh]. rewrite Htot by reflexivity. reflexivity.
  - intros a. unfold val. rewrite Hs. do 2 (case_decide; [cbn; lia|]). lia.
  - intros a Ha. destruct (Ha (Hw a)).
  - intros c ws w. cbn [conds booted]. rewrite lookup_empty. discriminate.
  - intros w r. cbn [remaining booted]. rewrite lookup_empty. discriminate.
  - exists NULL. reflexivity.
  - intros t. rewrite Hst. cbn [running_thread booted]. do 2 (case_decide; [split; congruence|]). split; congruence.
  - intros t. rewrite Hst. do 2 (case_decide; [discriminate|]). discriminate.
  - intros f k Ef. discriminate Ef.
Qed.
