(* ===== verification/ThreadRun.v ===== *)
(** * Threads: what holds in every reachable state

    The states reached from the booted system by events that keep the rules
    of the calls, and the properties of [threads/thread.c] and
    [threads/synch.c] there: no assertion fails and every thread is where its
    state says, locks exclude, no wake-up is lost.  For timed waits, which
    [ThreadSafe] excludes, a run that breaks a list of waiters. *)

From Stdlib Require Import ZArith Lia Bool.
From stdpp Require Import base list gmap.
From S2P Require Import Prelude Dlist Thread ThreadInv ThreadSafe.

Inductive reach : kstate -> Prop :=
| reach_boot s : boot = Ret s -> reach s
| reach_event s e s' : reach s -> may e s = true -> do_event e s = Ret s' -> reach s'.

Lemma reach_inv s : reach s -> inv s.
Proof.
  induction 1 as [s E|s e s' _ V Hm E].
  - rewrite boot_ends in E. injection E as <-. apply booted_inv.
  - destruct (event_ok s e V Hm) as (s1 & E1 & V1 & _). rewrite E in E1. injection E1 as <-. exact V1.
Qed.

Lemma reach_run es s s' : reach s -> lawful es s = true -> do_events es s = Ret s' -> reach s'.
Proof.
  revert s. induction es as [|e es IH]; intros s R H E; cbn in *; [injection E as <-; exact R|].
  apply andb_prop in H as [Hm H]. destruct (do_event e s) as [s1|] eqn:E1; [|discriminate].
  apply (IH s1); [|exact H|exact E]. apply (reach_event s e); assumption.
Qed.

(** The state after events from boot. *)
Definition after (es : list event) : kstate := match do_events es booted with Ret s => s | Stop _ => booted end.

Lemma after_reach es : lawful es booted = true -> reach (after es).
Proof.
  intros H. destruct (events_ok es booted booted_inv H) as (s & E & _). unfold after. rewrite E.
  apply (reach_run es booted); [apply reach_boot, boot_ends|exact H|exact E].
Qed.

(** Every thread is in the list its state says, and in one list only. *)
Record well_placed (s : kstate) : Prop := {
  p_running : forall t, stat s t = Some THREAD_RUNNING <-> t = running_thread s;
  p_ready : forall t, t ∈ ready_list s <-> stat s t = Some THREAD_READY /\ t <> idle_thread s;
  p_once : NoDup (ready_list s);
  p_waiting : forall a t, t ∈ wts s a -> stat s t = Some THREAD_BLOCKED;
  p_one_list : forall a b t, t ∈ wts s a -> t ∈ wts s b -> a = b;
  p_waits_once : forall a, NoDup (wts s a);
  p_all : forall t, t ∈ all_list s <-> exists st, stat s t = Some st /\ st <> THREAD_DYING }.

Lemma inv_placed s : inv s -> well_placed s.
Proof.
  intros [C Hr _ _]. split; try apply C; [exact Hr|].
  intros a b t Ha Hb. destruct (c_waits s C a t Ha) as (_ & o1 & k1 & E1). destruct (c_waits s C b t Hb) as (_ & o2 & k2 & E2).
  congruence.
Qed.

(** A frame that runs with interrupts off is on top of its stack. *)
Lemma loop_on_top k a : offs k -> 0 < fsum (loop a) k -> exists old k', k = KSemaLoop a old :: k'.
Proof.
  induction k as [|f k IH]; intros Ho Hs; [cbn in Hs; lia|]. rewrite fsum_cons in Hs.
  destruct (Z.ltb_spec 0 (loop a f)) as [Hf|Hf].
  - destruct f as [| b old | | | | | | | | | | | | | | | | | | | | | |]; cbn in Hf; try lia. unfold one in Hf. case_decide as E; [|lia]. subst b. eauto.
  - destruct Ho as [Hg Ho]. destruct (IH Ho ltac:(lia)) as (old & k' & ->). destruct (Hg eq_refl) as [? _]. discriminate.
Qed.

(** More threads in the loop of [sema_down (a)] than threads waiting. *)
Lemma extra_thread g m l :
  (forall t k, m !! t = Some k -> 0 <= fsum g k <= 1) -> NoDup l -> lenZ l < total g m ->
  exists t k, m !! t = Some k /\ 0 < fsum g k /\ t ∉ l.
Proof.
  unfold lenZ. revert l. induction m as [|t k m Hn IH] using map_ind; intros l Hg Hd Hl.
  - assert (total g ∅ = 0) by reflexivity. lia.
  - rewrite total_new in Hl by exact Hn. pose proof (Hg t k (lookup_insert_eq _ _ _)) as Hk.
    assert (Hg' : forall t' k', m !! t' = Some k' -> 0 <= fsum g k' <= 1).
    { intros t' k' E. apply (Hg t'). rewrite lookup_insert_ne; [exact E|]. intros ->. congruence. }
    assert (Hin : forall t' k', m !! t' = Some k' -> <[t := k]> m !! t' = Some k')
      by (intros t' k' E; rewrite lookup_insert_ne; [exact E|intros ->; congruence]).
    destruct (decide (t ∈ l)) as [Ht|Ht].
    + apply list_elem_of_split in Ht as (l1 & l2 & ->). rewrite length_app in Hl. cbn [length] in Hl.
      rewrite <- Permutation_middle in Hd. apply NoDup_cons in Hd as [Hnt Hd].
      destruct (IH (l1 ++ l2) Hg' Hd) as (t' & k' & E & Hp & Hnl); [rewrite length_app; lia|].
      exists t', k'. split; [apply Hin, E|]. split; [exact Hp|]. rewrite elem_of_app, elem_of_cons in *.
      intros [H|[->|H]]; [tauto|congruence|tauto].
    + destruct (Z.eq_dec (fsum g k) 0) as [E0|E0].
      * destruct (IH l Hg' Hd) as (t' & k' & E & Hp & Hnl); [lia|]. exists t', k'. auto.
      * exists t, k. split; [apply lookup_insert_eq|]. split; [lia|exact Ht].
Qed.

Lemma loop_at_most_one k a : offs k -> 0 <= fsum (loop a) k <= 1.
Proof.
  intros Ho. split; [apply fsum_nonneg, loop_nonneg|]. destruct k as [|f k]; [cbn; lia|]. rewrite fsum_cons.
  destruct Ho as [Hg Ho]. assert (Hk : fsum (loop a) k <= 0).
  { destruct (Z.ltb_spec 0 (fsum (loop a) k)) as [H|H]; [|lia]. destruct (loop_on_top k a Ho H) as (old & k' & ->).
    destruct (Hg eq_refl) as [? _]. discriminate. }
  assert (loop a f <= 1); [|lia]. destruct f; cbn; try lia. unfold one. case_decide; lia.
Qed.

Lemma woken_runs s a :
  inv s -> 0 < val s a -> wts s a <> [] ->
  exists t old k, stk s t = KSemaLoop a old :: k /\ (t = running_thread s \/ t ∈ ready_list s).
Proof.
  intros V Hv Hw. pose proof (i_core s V) as C. pose proof (c_wake s C a Hw) as Hwk.
  destruct (extra_thread (loop a) (stacks s) (wts s a)) as (t & k & E & Hp & Hn);
    [|apply (c_wnodup s C)|lia|].
  { intros t k E. apply loop_at_most_one. rewrite <- (stk_lookup s t k E). apply (c_offs s C). }
  rewrite <- (stk_lookup s t k E) in Hp. destruct (loop_on_top _ a (c_offs s C t) Hp) as (old & k' & Ek).
  exists t, old, k'. split; [exact Ek|].
  destruct (proj1 (c_dom s C t)) as [th Eth]; [eauto|].
  assert (Hti : t <> idle_thread s) by (intros ->; pose proof (c_shape s C) as H; rewrite Ek in H; exact H).
  destruct (status th) eqn:Est; assert (Hst : stat s t = Some (status th)) by (unfold stat; rewrite Eth; reflexivity);
    rewrite Est in Hst.
  - left. apply (i_run s V), Hst.
  - right. apply (c_ready s C). auto.
  - exfalso. destruct (c_blocked s C t Hst) as [?|[(b & o & k2 & E2 & Hin)|H1]]; [contradiction|congruence|].
    destruct (c_create s C t) as [H0|(_ & _ & _ & [H2|H2])]; [lia|congruence|congruence].
  - exfalso. rewrite (c_dead s C t Hst) in Ek. discriminate.
Qed.

(** ** Properties *)

(** C15: from boot on, whatever the threads call within the rules, whenever the
    timer and devices interrupt whose handlers up a semaphore, no assertion of the thread and
    synchronisation code fails and no pointer is misused; and every thread is
    in the list its state says: one thread runs, the ready list holds exactly
    the ready threads but the idle one, and a blocked thread waits in one list
    of waiters at most.  The rules, [may], are those of the calls and two
    more: no thread waits on a condition with a time limit, and no thread is
    created and none exits while another thread has been preempted inside
    [list_push_back] of [init_thread], which runs with interrupts on. *)
Theorem threads_never_fail s e :
  reach s -> may e s = true -> exists s', do_event e s = Ret s' /\ well_placed s'.
Proof.
  intros R Hm. destruct (event_ok s e (reach_inv s R) Hm) as (s' & E & V & _). exists s'. split; [exact E|].
  apply inv_placed, V.
Qed.

Lemma threads_never_fail_witness :
  exists s', do_event (Call (Create (Some 0x30000) [97] 31)) booted = Ret s' /\ well_placed s'.
Proof.
  apply (threads_never_fail booted (Call (Create (Some 0x30000) [97] 31))); [apply reach_boot, boot_ends|].
  vm_compute. reflexivity.
Defined.

(** C16: locks exclude, in every run within the rules (without timed waits,
    and with no thread created or exiting while another is in
    [list_push_back] of [init_thread]).  While a thread holds lock [l], the
    lock's semaphore is zero, no other thread is about to become its holder,
    and no event takes the lock from it but a release by that thread itself;
    and whoever holds the lock after an event held it before or is the
    running thread, which took it when nobody held it. *)
Theorem lock_mutual_exclusion s e s' l :
  reach s -> may e s = true -> do_event e s = Ret s' ->
  (forall t, t <> NULL -> holder s !! l = Some t ->
     val s (LockSema l) = 0 /\ (forall t' k, stk s t' <> KHolder l :: k) /\
     (holder s' !! l = Some t \/ t = running_thread s /\ releases e s l)) /\
  (forall t, t <> NULL -> holder s' !! l = Some t ->
     holder s !! l = Some t \/ t = running_thread s /\ holder s !! l = Some NULL).
Proof.
  intros R Hm E. pose proof (reach_inv s R) as V. pose proof (i_core s V) as C.
  destruct (event_ok s e V Hm) as (s1 & E1 & _ & Hk1 & Hk2). rewrite E in E1. injection E1 as <-.
  split; [|intros t Hn Hh; exact (Hk2 l t Hn Hh)]. intros t Hn Hh.
  pose proof (c_lock s C l ltac:(eauto)) as Hl. pose proof (c_val s C (LockSema l)). pose proof (total_tok_nonneg s C l).
  unfold taken in Hl. rewrite Hh, (proj2 (Z.eqb_neq _ _) Hn) in Hl. split; [lia|]. split; [|apply Hk1; assumption].
  intros t' k Ek. destruct (stacks s !! t') as [k'|] eqn:Es; [|unfold stk in Ek; rewrite Es in Ek; discriminate].
  pose proof (tok_le_total s C l t' k' Es) as Ht. rewrite (stk_lookup s t' k' Es) in Ek. subst k'.
  pose proof (c_good s C t' l) as Hg. rewrite (stk_lookup s t' _ Es) in Hg. destruct Hg as [_ Hg]. apply good_nonneg in Hg.
  rewrite fsum_cons in Ht. cbn [tok] in Ht. unfold one in Ht. rewrite decide_True in Ht by reflexivity. lia.
Qed.

Definition with_lock : list event :=
  [Call (LockInit 100); Call (LockAcquire 100); Run; Run].

Lemma lock_mutual_exclusion_witness :
  holder (after with_lock) !! 100 = Some 0x10000 /\ val (after with_lock) (LockSema 100) = 0 /\
  do_event Timer (after with_lock) = Ret (after (with_lock ++ [Timer])).
Proof.
  assert (Eh : holder (after with_lock) !! 100 = Some 0x10000) by (vm_compute; reflexivity).
  assert (E : do_event Timer (after with_lock) = Ret (after (with_lock ++ [Timer]))) by (vm_compute; reflexivity).
  split; [exact Eh|]. split; [|exact E].
  destruct (lock_mutual_exclusion (after with_lock) Timer (after (with_lock ++ [Timer])) 100) as [Hk _].
  - apply after_reach. vm_compute. reflexivity.
  - vm_compute. reflexivity.
  - exact E.
  - apply (Hk 0x10000); [discriminate|exact Eh].
Defined.

(** C17: no wake-up is lost, in every run within the rules (which leave out
    timed waits).  Whenever a semaphore is positive and threads wait for it, some thread that is running or ready is already inside [sema_down]
    on it, past its sleep, and will look at the value again. *)
Theorem sema_no_lost_wakeup s a :
  reach s -> 0 < val s a -> wts s a <> [] ->
  exists t old k, stk s t = KSemaLoop a old :: k /\ (t = running_thread s \/ t ∈ ready_list s).
Proof. intros R. apply woken_runs, reach_inv, R. Qed.

(** The main thread creates two threads that wait for a semaphore, and ups it. *)
Definition create_thread (page : Z) : list event := Call (Create (Some page) [] 31) :: replicate 9 Run.
Definition two_waiters : list event :=
  [Call (SemaInit 8 0)] ++ create_thread 0x30000 ++ create_thread 0x40000 ++
  [Call Yield; Run; Call (SemaDown 8); Run; Call (SemaDown 8); Run; Call (SemaUp 8)].

Lemma sema_no_lost_wakeup_witness :
  exists t old k, stk (after two_waiters) t = KSemaLoop (Sema 8) old :: k /\
    (t = running_thread (after two_waiters) \/ t ∈ ready_list (after two_waiters)).
Proof.
  apply (sema_no_lost_wakeup (after two_waiters) (Sema 8)).
  - apply after_reach. vm_compute. reflexivity.
  - vm_compute. reflexivity.
  - vm_compute. discriminate.
Defined.

(** The rules with timed waits. *)
Definition may_timed (e : event) (s : kstate) : bool :=
  match e with
  | Call (CondTimedWait c l w ns) =>
      match frames s with
      | [] => match holder s !! l with Some h => h =? running_thread s | None => false end
              && present (conds s !! c) && fresh_waiter w s && (0 <? ns)
      | _ => false
      end
  | _ => may e s
  end.
Fixpoint lawful_timed (es : list event) (s : kstate) : bool :=
  match es with
  | [] => true
  | e :: es => may_timed e s && match do_event e s with Ret s' => lawful_timed es s' | Stop _ => true end
  end.

(** A thread waits for at most one nanosecond; the tick wakes it; before it
    runs, the main thread signals the condition. *)
Definition timed_race : list event :=
  [Call (LockInit 100); Call (CondInit 200)] ++ create_thread 0x30000 ++
  [Call Yield; Run; Call (LockAcquire 100); Run; Run; Call (CondTimedWait 200 100 0x30f00 1); Run; Run; Run;
   Run; Timer; Call (LockAcquire 100); Run; Run; Call (CondSignal 200 100); Run; Run; Call (LockRelease 100); Run;
   Call Yield; Run; Run; Run; Run].

(** The waiters of a condition in memory: the list at 16, the waiters' [elem]
    at 48 and 64. *)
Definition waiters_memory : heap :=
  let m : gmap Z Z := list_to_map ((fun a => (a, 0)) <$> [16; 24; 48; 64]) in mk_heap m m.
Definition second_removal : st heap (bool * Z) :=
  list_init 16;;
  list_push_back 16 48;;
  list_pop_front 16;;
  list_push_back 16 64;;
  list_remove 48;;
  e ← list_empty 16;
  p ← get_prev 64;
  mret (e, p).

(** A timed wait that has timed out and is signalled before it runs
    removes its element from the waiters a second time.  Within the rules of
    the calls the run reaches [list_remove] of an element that is in no list;
    when another thread has begun to wait meanwhile, that removal takes the
    other thread's element off the list, which becomes empty. *)
Example timed_wait_removes_twice :
  lawful_timed timed_race booted = true /\ do_events timed_race booted = Ret (after timed_race) /\
  frames (after timed_race) = [KTimedEnd 200 0x30f00 true] /\ conds (after timed_race) !! 200 = Some [] /\
  do_event Run (after timed_race) = Stop Fault /\
  (fun r => fst r) <$> second_removal waiters_memory = Ret (true, 16).
Proof. split_and!; vm_compute; reflexivity. Qed.
