(* ===== verification/Random.v ===== *)
(** * The pseudo-random generator

    [lib/random.c]: key schedule and output of RC4, with the file's static
    variables as a record. *)

From Stdlib Require Import ZArith Lia Bool.
From stdpp Require Import base list.
From S2P Require Import Prelude.

Record rc4 := mk_rc4 { s : list Z; s_i : Z; s_j : Z; inited : bool }.

(** Byte [k] of the seed, little endian. *)
Definition seedp (seed k : Z) : Z := wrap 8 (seed >> (8 * k)).

Definition swap_byte (l : list Z) (a b : Z) : res (list Z) := the (swapi l a b).

Fixpoint fill_loop (n : nat) (l : list Z) (i : Z) : list Z :=
  match n with O => l | S n => fill_loop n (seti l i i) (i + 1) end.

Fixpoint schedule_loop (n : nat) (seed : Z) (l : list Z) (i j : Z) : res (list Z) :=
  match n with
  | O => mret l
  | S n =>
      si ← the (geti l i);
      let j := wrap 8 (j + (si + seedp seed (i mod 4))) in
      l ← swap_byte l i j;
      schedule_loop n seed l (i + 1) j
  end.

Definition random_init (g : rc4) (seed : Z) : res rc4 :=
  l ← schedule_loop 256 seed (fill_loop 256 (s g) 0) 0 0;
  mret (mk_rc4 l 0 0 true).

Definition next_byte (g : rc4) : res (Z * rc4) :=
  let i := wrap 8 (s_i g + 1) in
  si ← the (geti (s g) i);
  let j := wrap 8 (s_j g + si) in
  l ← swap_byte (s g) i j;
  a ← the (geti l i);
  b ← the (geti l j);
  out ← the (geti l (wrap 8 (a + b)));
  mret (out, mk_rc4 l i j (inited g)).

Fixpoint bytes_loop (size : nat) (g : rc4) : res (list Z * rc4) :=
  match size with
  | O => mret ([], g)
  | S size =>
      '(b, g) ← next_byte g;
      '(rest, g) ← bytes_loop size g;
      mret (b :: rest, g)
  end.

Definition random_bytes (g : rc4) (size : nat) : res (list Z * rc4) :=
  g ← (if inited g then mret g else random_init g 0);
  bytes_loop size g.

(** A little-endian word read from [bytes]. *)
Fixpoint le_word (bytes : list Z) : Z :=
  match bytes with [] => 0 | b :: rest => b + 256 * le_word rest end.

Definition random_ulong (g : rc4) : res (Z * rc4) :=
  '(b, g) ← random_bytes g 4; mret (le_word b, g).
Definition random_u64 (g : rc4) : res (Z * rc4) :=
  '(b, g) ← random_bytes g 8; mret (le_word b, g).

(** ** Invariant *)

(** The table is a permutation of the 256 byte values. *)
Definition rc4_table (l : list Z) : Prop := l ≡ₚ seqZ 0 256.

Record rc4_inv (g : rc4) : Prop := {
  inv_table : rc4_table (s g);
  inv_i : inU 8 (s_i g);
  inv_j : inU 8 (s_j g) }.

(** The array holds 256 entries; before initialisation they are arbitrary. *)
Definition rc4_ready (g : rc4) : Prop :=
  if inited g then rc4_inv g else lenZ (s g) = 256.

Lemma table_len l : rc4_table l -> lenZ l = 256.
Proof. intros H. unfold lenZ, rc4_table in *. rewrite H. reflexivity. Qed.

Lemma table_get l i : rc4_table l -> inU 8 i -> exists a, geti l i = Some a /\ inU 8 a.
Proof.
  intros H Hi. destruct (geti_lt_Some l i) as (a & Ea);
    [rewrite table_len by exact H; unfold inU in Hi; lia|].
  exists a. split; [exact Ea|]. unfold geti in Ea. destruct (i <? 0); [discriminate|].
  apply list_elem_of_lookup_2 in Ea. unfold rc4_table in H. rewrite H in Ea. apply elem_of_seqZ in Ea.
  unfold inU. lia.
Qed.

Lemma table_swap l a b :
  rc4_table l -> inU 8 a -> inU 8 b -> exists l', swap_byte l a b = Ret l' /\ rc4_table l'.
Proof.
  intros H Ha Hb. pose proof (table_len l H) as Hl. unfold inU in *.
  destruct (swapi_Some l a b) as (l' & E); [lia..|]. exists l'. unfold swap_byte. rewrite E.
  split; [reflexivity|]. unfold rc4_table. rewrite (swapi_perm _ _ _ _ E). exact H.
Qed.

Lemma fill_loop_spec n l i :
  0 <= i -> i + Z.of_nat n <= lenZ l ->
  lenZ (fill_loop n l i) = lenZ l
  /\ forall k, geti (fill_loop n l i) k
               = if (i <=? k) && (k <? i + Z.of_nat n) then Some k else geti l k.
Proof.
  revert l i. induction n as [|n IH]; intros l i Hi Hl; cbn [fill_loop].
  - split; [reflexivity|]. intros k. cmp_cases; cbn [andb]; try reflexivity; lia.
  - destruct (IH (seti l i i) (i + 1)) as (L & G); [lia|rewrite lenZ_seti; lia|].
    rewrite lenZ_seti in L. split; [exact L|]. intros k. rewrite G, geti_seti by lia.
    cmp_cases; cbn [andb]; try reflexivity; try lia. subst. reflexivity.
Qed.

Lemma fill_identity l : lenZ l = 256 -> fill_loop 256 l 0 = seqZ 0 256.
Proof.
  intros Hl. destruct (fill_loop_spec 256 l 0) as (L & G); [lia..|].
  apply geti_ext. intros k. rewrite G.
  destruct (Z.leb_spec 0 k) as [H0|H0], (Z.ltb_spec k (0 + Z.of_nat 256)) as [H1|H1]; cbn [andb];
    unfold geti; destruct (Z.ltb_spec k 0); try lia; try reflexivity.
  - symmetry. apply lookup_seqZ. lia.
  - rewrite (proj2 (lookup_ge_None _ _)), (proj2 (lookup_ge_None _ _)); [reflexivity| |].
    + rewrite length_seqZ. lia.
    + unfold lenZ in Hl. lia.
Qed.

Lemma schedule_loop_ok n seed l i j :
  rc4_table l -> 0 <= i -> i + Z.of_nat n <= 256 ->
  exists l', schedule_loop n seed l i j = Ret l' /\ rc4_table l'.
Proof.
  revert l i j. induction n as [|n IH]; intros l i j H Hi Hn; cbn [schedule_loop]; [eauto|].
  destruct (table_get l i H) as (a & -> & Ha); [unfold inU; lia|]. cbn [the mbind res_bind].
  destruct (table_swap l i (wrap 8 (j + (a + seedp seed (i mod 4)))) H) as (l1 & -> & H1);
    [unfold inU; lia|apply wrap_inU; lia|].
  cbn [mbind res_bind]. apply IH; auto; lia.
Qed.

Lemma random_init_inv g seed :
  lenZ (s g) = 256 -> exists g', random_init g seed = Ret g' /\ rc4_inv g' /\ inited g' = true.
Proof.
  intros Hl. unfold random_init. rewrite fill_identity by exact Hl.
  destruct (schedule_loop_ok 256 seed (seqZ 0 256) 0 0) as (l & -> & H); [unfold rc4_table; reflexivity|lia..|].
  eexists. split; [reflexivity|]. split; [split|reflexivity]; [exact H|inU_num|inU_num].
Qed.

Lemma next_byte_inv g :
  rc4_inv g -> exists b g', next_byte g = Ret (b, g') /\ inU 8 b /\ rc4_inv g'
                            /\ inited g' = inited g.
Proof.
  intros [Ht Hi Hj]. unfold next_byte. set (i := wrap 8 (s_i g + 1)).
  assert (Hi' : inU 8 i) by (apply wrap_inU; lia).
  destruct (table_get (s g) i Ht Hi') as (a & -> & _). cbn [the mbind res_bind].
  set (j := wrap 8 (s_j g + a)). assert (Hj' : inU 8 j) by (apply wrap_inU; lia).
  destruct (table_swap (s g) i j Ht Hi' Hj') as (l & -> & Hl). cbn [mbind res_bind].
  destruct (table_get l i Hl Hi') as (x & -> & _), (table_get l j Hl Hj') as (y & -> & _).
  cbn [the mbind res_bind].
  destruct (table_get l (wrap 8 (x + y)) Hl) as (b & -> & Hb); [apply wrap_inU; lia|].
  cbn [the mbind res_bind]. exists b. eexists. split; [reflexivity|]. split; [exact Hb|].
  split; [split; assumption|reflexivity].
Qed.

Lemma bytes_loop_inv n g :
  rc4_inv g -> inited g = true ->
  exists out g', bytes_loop n g = Ret (out, g') /\ length out = n /\ Forall (inU 8) out
  /\ rc4_inv g' /\ inited g' = true.
Proof.
  revert g. induction n as [|n IH]; intros g Hg Hi; cbn [bytes_loop].
  { exists [], g. split; [reflexivity|]. split; [reflexivity|]. split; [constructor|auto]. }
  destruct (next_byte_inv g Hg) as (b & g1 & -> & Hb & Hg1 & Hi1). cbn [mbind res_bind].
  destruct (IH g1 Hg1) as (out & g' & -> & Hn & Hf & Hg' & Hi'); [congruence|].
  cbn [mbind res_bind]. exists (b :: out), g'. split; [reflexivity|].
  split; [cbn; congruence|]. split; [constructor; assumption|auto].
Qed.

Lemma bytes_loop_app m n g out g1 :
  bytes_loop m g = Ret (out, g1) ->
  bytes_loop (m + n) g = ('(rest, g2) ← bytes_loop n g1; mret (out ++ rest, g2)).
Proof.
  revert g out g1. induction m as [|m IH]; intros g out g1; cbn [bytes_loop Nat.add].
  - intros [= <- <-]. destruct (bytes_loop n g) as [[rest g2]|]; reflexivity.
  - intros ([b g'] & Eb & ([o g''] & Eo & [= <- <-])%bind_Ret)%bind_Ret.
    rewrite Eb. cbn [mbind res_bind]. rewrite (IH _ _ _ Eo).
    destruct (bytes_loop n g'') as [[rest g2]|]; reflexivity.
Qed.

(** ** Properties *)

(** From any state, seeded or not, [random_bytes] writes exactly [size]
    bytes and keeps the RC4 table a permutation of the 256 byte values; a
    request of [m + n] bytes gives the same bytes and state as one of [m]
    followed by one of [n]. *)
Theorem random_bytes_stream g m n :
  rc4_ready g ->
  exists out1 out2 g1 g2,
    random_bytes g m = Ret (out1, g1) /\ random_bytes g1 n = Ret (out2, g2)
    /\ random_bytes g (m + n) = Ret (out1 ++ out2, g2)
    /\ length out1 = m /\ length out2 = n /\ Forall (inU 8) (out1 ++ out2)
    /\ rc4_inv g2 /\ inited g2 = true.
Proof.
  intros Hg. unfold random_bytes.
  assert (Hs : exists g0, (if inited g then mret g else random_init g 0) = Ret g0
                /\ rc4_inv g0 /\ inited g0 = true).
  { unfold rc4_ready in Hg. destruct (inited g) eqn:E; [exists g; auto|].
    apply random_init_inv, Hg. }
  destruct Hs as (g0 & -> & H0 & I0). cbn [mbind res_bind].
  destruct (bytes_loop_inv m g0 H0 I0) as (o1 & g1 & E1 & L1 & F1 & H1 & I1).
  destruct (bytes_loop_inv n g1 H1 I1) as (o2 & g2 & E2 & L2 & F2 & H2 & I2).
  exists o1, o2, g1, g2. rewrite I1. cbn [mret res_ret mbind res_bind].
  split; [exact E1|]. split; [exact E2|]. rewrite (bytes_loop_app _ _ _ _ _ E1), E2.
  split; [reflexivity|]. split; [exact L1|]. split; [exact L2|].
  split; [apply Forall_app; auto|auto].
Qed.

Lemma random_bytes_stream_witness :
  exists out1 out2 g1 g2,
    random_bytes (mk_rc4 (replicate 256 0) 0 0 false) 3 = Ret (out1, g1)
    /\ random_bytes g1 5 = Ret (out2, g2)
    /\ random_bytes (mk_rc4 (replicate 256 0) 0 0 false) (3 + 5) = Ret (out1 ++ out2, g2)
    /\ length out1 = 3%nat /\ length out2 = 5%nat /\ Forall (inU 8) (out1 ++ out2)
    /\ rc4_inv g2 /\ inited g2 = true.
Proof. apply (random_bytes_stream (mk_rc4 (replicate 256 0) 0 0 false) 3 5). reflexivity. Defined.
