(* ===== verification/Printf.v ===== *)
(** * Formatted output and [atoi]

    The formatter of [lib/stdio.c] ([__vprintf] and what it calls), the
    bounded output of [vsnprintf], and [atoi] of [lib/stdlib.c].

    A C string is the list of its characters without the terminator; a pointer
    into it is a suffix.  Output callbacks are called once per character, in
    order, so a conversion is modelled by the list of characters it outputs. *)

From Stdlib Require Import ZArith Lia Bool Ascii String.
From stdpp Require Import base list.
From S2P Require Import Prelude.

Definition chars (str : string) : list Z :=
  (fun a => Z.of_N (N_of_ascii a)) <$> list_ascii_of_string str.

(** [*p], and [p + 1], which must not leave the string. *)
Definition peek (p : list Z) : Z := match p with [] => 0 | c :: _ => c end.
Definition advance (p : list Z) : res (list Z) :=
  match p with [] => Stop Fault | _ :: t => Ret t end.

Definition isdigit (c : Z) : bool := (48 <=? c) && (c <=? 57).
Definition isspace (c : Z) : bool :=
  (c =? 32) || (c =? 12) || (c =? 10) || (c =? 13) || (c =? 9) || (c =? 11).

(** ** Conversions *)

Definition MINUS : Z := 1 << 0.
Definition PLUS : Z := 1 << 1.
Definition SPACE : Z := 1 << 2.
Definition POUND : Z := 1 << 3.
Definition ZERO : Z := 1 << 4.
Definition GROUP : Z := 1 << 5.

Inductive argtype := CHAR | SHORT | INT | INTMAX | LONG | LONGLONG | PTRDIFFT | SIZET.

Record conversion := mk_conv { flags : Z; width : Z; precision : Z; type : argtype }.

Record integer_base := mk_base { base : Z; digits : list Z; base_xch : Z; group : Z }.
Definition base_d : integer_base := mk_base 10 (chars "0123456789") 0 3.
Definition base_o : integer_base := mk_base 8 (chars "01234567") 0 3.
Definition base_x : integer_base := mk_base 16 (chars "0123456789abcdef") 120 4.
Definition base_X : integer_base := mk_base 16 (chars "0123456789ABCDEF") 88 4.

(** A variable argument: a 4-byte or 8-byte integer as its bit pattern, or a
    string pointer, which may be null. *)
Inductive arg := Arg32 (v : Z) | Arg64 (v : Z) | Arg_str (p : option (list Z)).

Definition va_arg32 (args : list arg) : res (Z * list arg) :=
  match args with Arg32 v :: r => Ret (v, r) | _ => Stop Fault end.
Definition va_arg64 (args : list arg) : res (Z * list arg) :=
  match args with Arg64 v :: r => Ret (v, r) | _ => Stop Fault end.
Definition va_arg_str (args : list arg) : res (option (list Z) * list arg) :=
  match args with Arg_str p :: r => Ret (p, r) | _ => Stop Fault end.

Definition flag_of (c : Z) : option Z :=
  if c =? 45 then Some MINUS else if c =? 43 then Some PLUS
  else if c =? 32 then Some SPACE else if c =? 35 then Some POUND
  else if c =? 48 then Some ZERO else if c =? 39 then Some GROUP else None.

Fixpoint parse_flags (p : list Z) (fl : Z) : list Z * Z :=
  match p with
  | [] => (p, fl)
  | c :: t => match flag_of c with Some f => parse_flags t (fl |! f) | None => (p, fl) end
  end.

(** The digit loops of width and precision, on [int]. *)
Fixpoint parse_number (p : list Z) (n : Z) : list Z * Z :=
  match p with
  | [] => (p, n)
  | c :: t => if isdigit c then parse_number t (sgn 32 (n * 10 + c - 48)) else (p, n)
  end.

Definition parse_width (p : list Z) (args : list arg) : res (list Z * Z * list arg) :=
  if peek p =? 42 then
    p ← advance p;
    '(v, args) ← va_arg32 args;
    mret (p, sgn 32 v, args)
  else let '(p, n) := parse_number p 0 in mret (p, n, args).

Definition parse_precision (p : list Z) (args : list arg) : res (list Z * Z * list arg) :=
  if peek p =? 46 then
    p ← advance p;
    '(p, n, args) ←
      (if peek p =? 42 then
         p ← advance p;
         '(v, args) ← va_arg32 args;
         mret (p, sgn 32 v, args)
       else let '(p, n) := parse_number p 0 in mret (p, n, args));
    mret (p, if n <? 0 then -1 else n, args)
  else mret (p, -1, args).

Definition parse_type (p : list Z) : list Z * argtype :=
  match p with
  | 104 :: 104 :: t => (t, CHAR)
  | 104 :: t => (t, SHORT)
  | 106 :: t => (t, INTMAX)
  | 108 :: 108 :: t => (t, LONGLONG)
  | 108 :: t => (t, LONG)
  | 116 :: t => (t, PTRDIFFT)
  | 122 :: t => (t, SIZET)
  | _ => (p, INT)
  end.

Definition parse_conversion (p : list Z) (args : list arg)
  : res (list Z * conversion * list arg) :=
  let '(p, fl) := parse_flags p 0 in
  let fl := if nz (fl &! MINUS) then fl &~ ZERO else fl in
  let fl := if nz (fl &! PLUS) then fl &~ SPACE else fl in
  '(p, w, args) ← parse_width p args;
  let fl := if w <? 0 then fl |! MINUS else fl in
  let w := if w <? 0 then sgn 32 (- w) else w in
  '(p, prec, args) ← parse_precision p args;
  let fl := if 0 <=? prec then fl &~ ZERO else fl in
  let '(p, t) := parse_type p in
  mret (p, mk_conv fl w prec t, args).

Definition output_dup (ch cnt : Z) : list Z := replicate (Z.to_nat cnt) ch.

(** Writing to [buf[64]] of [format_integer]. *)
Definition push (buf : list Z) (c : Z) : res (list Z) :=
  if lenZ buf <? 64 then Ret (buf ++ [c]) else Stop Fault.

Fixpoint digits_loop (fuel : nat) (b : integer_base) (grouped : bool) (value digit_cnt : Z)
  (buf : list Z) : res (list Z) :=
  match fuel with
  | O => Stop NoFuel
  | S fuel =>
      if 0 <? value then
        buf ← (if grouped && (0 <? digit_cnt) && (digit_cnt mod group b =? 0)
               then push buf 44 else mret buf);
        d ← the (geti (digits b) (value mod base b));
        buf ← push buf d;
        digits_loop fuel b grouped (value / base b) (digit_cnt + 1) buf
      else mret buf
  end.

Fixpoint precision_loop (fuel : nat) (precision : Z) (buf : list Z) : res (list Z) :=
  match fuel with
  | O => Stop NoFuel
  | S fuel =>
      if (lenZ buf <? precision) && (lenZ buf <? 63) then
        buf ← push buf 48;
        precision_loop fuel precision buf
      else mret buf
  end.

(** The sign character of a signed conversion, 0 for none. *)
Definition sign_of (is_signed negative : bool) (fl : Z) : Z :=
  if is_signed then
    if nz (fl &! PLUS) then (if negative then 45 else 43)
    else if nz (fl &! SPACE) then (if negative then 45 else 32)
    else if negative then 45 else 0
  else 0.

Definition format_integer (value : Z) (is_signed negative : bool) (b : integer_base)
  (c : conversion) : res (list Z) :=
  let sign := sign_of is_signed negative (flags c) in
  let x := if nz (flags c &! POUND) && nz value then base_xch b else 0 in
  buf ← digits_loop 65 b (nz (flags c &! GROUP)) value 0 [];
  let prec := if precision c <? 0 then 1 else precision c in
  buf ← precision_loop 64 prec buf;
  buf ← (if nz (flags c &! POUND) && (base b =? 8)
            && (match last buf with None => true | Some d => negb (d =? 48) end)
         then push buf 48 else mret buf);
  let pad_cnt := width c - lenZ buf - (if nz x then 2 else 0) - b2z (nz sign) in
  let pad_cnt := if pad_cnt <? 0 then 0 else pad_cnt in
  mret ((if nz (flags c &! (MINUS |! ZERO)) then [] else output_dup 32 pad_cnt)
        ++ (if nz sign then [sign] else [])
        ++ (if nz x then [48; x] else [])
        ++ (if nz (flags c &! ZERO) then output_dup 48 pad_cnt else [])
        ++ reverse buf
        ++ (if nz (flags c &! MINUS) then output_dup 32 pad_cnt else [])).

Definition format_string (str : list Z) (c : conversion) : list Z :=
  let length := lenZ str in
  (if (length <? width c) && negb (nz (flags c &! MINUS))
   then output_dup 32 (width c - length) else [])
  ++ str
  ++ (if (length <? width c) && nz (flags c &! MINUS)
      then output_dup 32 (width c - length) else []).

(** ** The formatter *)

(** The argument of [%d], as [intmax_t]. *)
Definition signed_arg (t : argtype) (args : list arg) : res (Z * list arg) :=
  match t with
  | CHAR => '(v, r) ← va_arg32 args; mret (sgn 8 v, r)
  | SHORT => '(v, r) ← va_arg32 args; mret (sgn 16 v, r)
  | INT | LONG | PTRDIFFT => '(v, r) ← va_arg32 args; mret (sgn 32 v, r)
  | INTMAX | LONGLONG => '(v, r) ← va_arg64 args; mret (sgn 64 v, r)
  | SIZET =>
      '(v, r) ← va_arg32 args;
      mret (if (2 ^ 32 - 1) / 2 <? v then v - (2 ^ 32 - 1) - 1 else v, r)
  end.

(** The argument of [%o], [%u], [%x], as [uintmax_t]. *)
Definition unsigned_arg (t : argtype) (args : list arg) : res (Z * list arg) :=
  match t with
  | CHAR => '(v, r) ← va_arg32 args; mret (wrap 8 v, r)
  | SHORT => '(v, r) ← va_arg32 args; mret (wrap 16 v, r)
  | INT | LONG | SIZET => '(v, r) ← va_arg32 args; mret (v, r)
  | INTMAX | LONGLONG => '(v, r) ← va_arg64 args; mret (v, r)
  | PTRDIFFT => '(v, r) ← va_arg32 args; mret (wrap 64 (sgn 32 v) &! (2 ^ 32 - 1), r)
  end.

Definition unsigned_base (c : Z) : option integer_base :=
  if c =? 111 then Some base_o else if c =? 117 then Some base_d
  else if c =? 120 then Some base_x else if c =? 88 then Some base_X else None.

(** [strnlen (str, maxlen)] characters of [str]. *)
Definition limited (str : list Z) (precision : Z) : list Z :=
  if precision <? 0 then str else take (Z.to_nat precision) str.

(** The messages for conversions that are not supported: the two [__printf]
    calls, whose formats print their argument with [%c]. *)
Definition no_in_kernel (c : Z) : list Z := chars "<<no %" ++ [c] ++ chars " in kernel>>".
Definition no_conversion (c : Z) : list Z := chars "<<no %" ++ [c] ++ chars " conversion>>".

(** The conversion whose character is [ch]. *)
Definition convert (ch : Z) (c : conversion) (args : list arg) : res (list Z * list arg) :=
  if (ch =? 100) || (ch =? 105) then
    '(v, args) ← signed_arg (type c) args;
    out ← format_integer (wrap 64 (if v <? 0 then - v else v)) true (v <? 0) base_d c;
    mret (out, args)
  else match unsigned_base ch with
  | Some b =>
      '(v, args) ← unsigned_arg (type c) args;
      out ← format_integer v false false b c;
      mret (out, args)
  | None =>
      if ch =? 99 then
        '(v, args) ← va_arg32 args;
        mret (format_string [wrap 8 v] c, args)
      else if ch =? 115 then
        '(p, args) ← va_arg_str args;
        let str := match p with Some str => str | None => chars "(null)" end in
        mret (format_string (limited str (precision c)) c, args)
      else if ch =? 112 then
        '(v, args) ← va_arg32 args;
        out ← format_integer v false false base_x (mk_conv POUND (width c) (precision c) (type c));
        mret (out, args)
      else if (ch =? 102) || (ch =? 101) || (ch =? 69) || (ch =? 103) || (ch =? 71) || (ch =? 110)
      then mret (no_in_kernel ch, args)
      else mret (no_conversion ch, args)
  end.

Fixpoint vprintf_loop (fuel : nat) (format : list Z) (args : list arg) : res (list Z) :=
  match fuel with
  | O => Stop NoFuel
  | S fuel =>
      match format with
      | [] => mret []
      | c :: t =>
          if negb (c =? 37) then
            rest ← vprintf_loop fuel t args; mret (c :: rest)
          else if peek t =? 37 then
            t ← advance t;
            rest ← vprintf_loop fuel t args; mret (37 :: rest)
          else
            '(p, conv, args) ← parse_conversion t args;
            '(out, args) ← convert (peek p) conv args;
            p ← advance p;
            rest ← vprintf_loop fuel p args;
            mret (out ++ rest)
      end
  end.

Definition __vprintf (format : list Z) (args : list arg) : res (list Z) :=
  vprintf_loop (S (length format)) format args.

(** ** Output to a buffer *)

Record vsnprintf_aux := mk_aux { aux_p : Z; aux_length : Z; aux_max : Z }.

Definition store_char (buf : list Z) (p c : Z) : res (list Z) :=
  if (0 <=? p) && (p <? lenZ buf) then Ret (seti buf p c) else Stop Fault.

Definition vsnprintf_helper (ch : Z) (buf : list Z) (aux : vsnprintf_aux)
  : res (list Z * vsnprintf_aux) :=
  let aux' := mk_aux (aux_p aux) (aux_length aux + 1) (aux_max aux) in
  if aux_length aux <? aux_max aux then
    buf ← store_char buf (aux_p aux) ch;
    mret (buf, mk_aux (aux_p aux + 1) (aux_length aux') (aux_max aux))
  else mret (buf, aux').

Fixpoint output_all (out : list Z) (buf : list Z) (aux : vsnprintf_aux)
  : res (list Z * vsnprintf_aux) :=
  match out with
  | [] => mret (buf, aux)
  | ch :: out =>
      '(buf, aux) ← vsnprintf_helper ch buf aux;
      output_all out buf aux
  end.

(** Returns the length and the memory starting at [buffer]. *)
Definition vsnprintf (buffer : list Z) (buf_size : Z) (format : list Z) (args : list arg)
  : res (Z * list Z) :=
  out ← __vprintf format args;
  '(buf, aux) ← output_all out buffer
    (mk_aux 0 0 (if 0 <? buf_size then buf_size - 1 else 0));
  buf ← (if 0 <? buf_size then store_char buf (aux_p aux) 0 else mret buf);
  mret (aux_length aux, buf).

(** ** [atoi] *)

Fixpoint skip_space (p : list Z) : list Z :=
  match p with c :: t => if isspace c then skip_space t else p | [] => [] end.

Fixpoint atoi_loop (p : list Z) (value : Z) : Z :=
  match p with
  | c :: t => if isdigit c then atoi_loop t (sgn 32 (value * 10 - (c - 48))) else value
  | [] => value
  end.

Definition atoi (p : list Z) : Z :=
  let p := skip_space p in
  let '(negative, p) :=
    match p with
    | c :: t => if c =? 43 then (false, t) else if c =? 45 then (true, t) else (false, p)
    | [] => (false, p)
    end in
  let value := atoi_loop p 0 in
  if negative then value else sgn 32 (- value).

(** The two messages are what the formatter prints for their formats. *)
Lemma messages_printed ch :
  inU 8 ch ->
  __vprintf (chars "<<no %%%c in kernel>>") [Arg32 ch] = Ret (no_in_kernel ch)
  /\ __vprintf (chars "<<no %%%c conversion>>") [Arg32 ch] = Ret (no_conversion ch).
Proof.
  intros H.
  assert (E : forall x, __vprintf (chars "<<no %%%c in kernel>>") [Arg32 x]
                = Ret (chars "<<no %" ++ [wrap 8 x] ++ chars " in kernel>>")
              /\ __vprintf (chars "<<no %%%c conversion>>") [Arg32 x]
                 = Ret (chars "<<no %" ++ [wrap 8 x] ++ chars " conversion>>"))
    by (intros x; split; reflexivity).
  unfold no_in_kernel, no_conversion. rewrite <- (wrap_id 8 ch) at 2 4 by (exact H || lia).
  apply E.
Qed.

(** A format that is one conversion. *)
Lemma vprintf_single t c conv args args' args'' out :
  (peek t =? 37) = false -> parse_conversion t args = Ret ([c], conv, args') ->
  convert c conv args' = Ret (out, args'') -> __vprintf (37 :: t) args = Ret out.
Proof.
  intros Hp E1 E2. unfold __vprintf. cbn [length vprintf_loop].
  change (negb (37 =? 37)) with false. rewrite Hp, E1. cbn [mbind res_bind peek].
  rewrite E2. cbn [mbind res_bind advance vprintf_loop mret res_ret]. rewrite app_nil_r. reflexivity.
Qed.

(** ** Numbers and their digits *)

(** The value of a digit string, most significant digit first, after [a]. *)
Definition num_from (bs a : Z) (ds : list Z) : Z := fold_left (fun a c => a * bs + (c - 48)) ds a.
Definition digit_in (bs c : Z) : Prop := 48 <= c < 48 + bs.

(** A base up to 10 whose digits are the decimal ones. *)
Record plain (b : integer_base) : Prop := {
  plain_base : 8 <= base b <= 10;
  plain_digits : forall d, 0 <= d < base b -> geti (digits b) d = Some (48 + d);
  plain_x : base_xch b = 0 }.

Lemma plain_cases b (P : Z -> bool) :
  all_below (base b) P = true -> forall d, 0 <= d < base b -> P d = true.
Proof. apply all_below_spec. Qed.

Lemma plain_check b :
  8 <= base b <= 10 -> base_xch b = 0 ->
  all_below (base b) (fun d => bool_decide (geti (digits b) d = Some (48 + d))) = true -> plain b.
Proof.
  intros Hb Hx H. split; [exact Hb| |exact Hx]. intros d Hd.
  apply (plain_cases b _ H) in Hd. apply bool_decide_eq_true in Hd. exact Hd.
Qed.

Lemma plain_d : plain base_d.
Proof. apply plain_check; [cbn; lia|reflexivity|vm_compute; reflexivity]. Qed.
Lemma plain_o : plain base_o.
Proof. apply plain_check; [cbn; lia|reflexivity|vm_compute; reflexivity]. Qed.

Lemma num_from_app bs a l1 l2 : num_from bs a (l1 ++ l2) = num_from bs (num_from bs a l1) l2.
Proof. apply fold_left_app. Qed.

Lemma num_from_zeros bs n ds : num_from bs 0 (replicate n 48 ++ ds) = num_from bs 0 ds.
Proof. induction n as [|n IH]; [reflexivity|]. cbn. replace (0 * bs + 0) with 0 by lia. exact IH. Qed.

Lemma num_from_snoc0 bs ds : num_from bs 0 (reverse (ds ++ [48])) = num_from bs 0 (reverse ds).
Proof. rewrite reverse_snoc. apply (num_from_zeros bs 1). Qed.

Lemma num_from_le bs a ds : 1 <= bs -> 0 <= a -> Forall (digit_in bs) ds -> a <= num_from bs a ds.
Proof.
  intros Hb Ha H. revert a Ha. induction H as [|c ds Hc H IH]; intros a Ha; [cbn; lia|].
  cbn. unfold digit_in in Hc. etransitivity; [|apply IH; nia]. nia.
Qed.

Lemma push_ok buf c : lenZ buf < 64 -> push buf c = Ret (buf ++ [c]).
Proof. intros H. unfold push. rewrite (proj2 (Z.ltb_lt _ _) H). reflexivity. Qed.

Lemma lenZ_app {A} (l1 l2 : list A) : lenZ (l1 ++ l2) = lenZ l1 + lenZ l2.
Proof. unfold lenZ. rewrite length_app. lia. Qed.

Lemma digits_loop_plain b k fuel value cnt buf :
  plain b -> (k < fuel)%nat -> 0 <= value < base b ^ Z.of_nat k -> lenZ buf + Z.of_nat k <= 64 ->
  exists ds, digits_loop fuel b false value cnt buf = Ret (buf ++ ds)
  /\ (length ds <= k)%nat /\ Forall (digit_in (base b)) ds
  /\ num_from (base b) 0 (reverse ds) = value.
Proof.
  intros Hp. pose proof (plain_base b Hp) as Hb. revert fuel value cnt buf.
  induction k as [|k IH]; intros [|fuel] value cnt buf Hf Hv Hl; [lia| |lia|]; cbn [digits_loop].
  - rewrite (proj2 (Z.ltb_ge 0 value)) by (cbn in Hv; lia). exists [].
    rewrite app_nil_r. split; [reflexivity|]. split; [cbn; lia|]. split; [constructor|cbn in *; lia].
  - destruct (Z.ltb_spec 0 value) as [Hpos|Hz].
    2: { exists []. rewrite app_nil_r. split; [reflexivity|]. split; [cbn; lia|].
         split; [constructor|cbn; lia]. }
    cbn [andb]. pose proof (Z.mod_pos_bound value (base b) ltac:(lia)) as Hm.
    cbn [mbind res_bind mret res_ret]. rewrite (plain_digits b Hp) by exact Hm.
    cbn [the mbind res_bind]. rewrite push_ok by lia. cbn [mbind res_bind].
    destruct (IH fuel (value / base b) (cnt + 1) (buf ++ [48 + value mod base b]))
      as (ds & E & L & F & N).
    + lia.
    + split; [apply Z.div_pos; lia|]. apply Z.div_lt_upper_bound; [lia|].
      rewrite <- Z.pow_succ_r by lia. replace (Z.succ (Z.of_nat k)) with (Z.of_nat (S k)) by lia.
      lia.
    + rewrite lenZ_app. change (lenZ [_]) with 1. lia.
    + exists ((48 + value mod base b) :: ds). rewrite <- app_assoc in E. split; [exact E|].
      split; [cbn; lia|]. split; [constructor; [unfold digit_in; lia|exact F]|].
      rewrite reverse_cons, num_from_app, N. cbn.
      pose proof (Z.div_mod value (base b) ltac:(lia)). lia.
Qed.

Lemma precision_loop_ok fuel prec buf bs :
  lenZ buf <= 63 -> 64 - lenZ buf <= Z.of_nat fuel -> Forall (digit_in bs) buf -> 1 <= bs ->
  exists ds, precision_loop fuel prec buf = Ret ds /\ lenZ ds <= 63
  /\ Forall (digit_in bs) ds /\ num_from bs 0 (reverse ds) = num_from bs 0 (reverse buf).
Proof.
  revert buf. induction fuel as [|fuel IH]; intros buf Hl Hf F Hb; [lia|]. cbn [precision_loop].
  destruct (Z.ltb_spec (lenZ buf) prec), (Z.ltb_spec (lenZ buf) 63); cbn [andb]; eauto.
  rewrite push_ok by lia. cbn [mbind res_bind].
  destruct (IH (buf ++ [48])) as (ds & E & L & F' & N).
  - rewrite lenZ_app. change (lenZ [48]) with 1. lia.
  - rewrite lenZ_app. change (lenZ [48]) with 1. lia.
  - apply Forall_app; split; [exact F|]. constructor; [unfold digit_in; lia|constructor].
  - exact Hb.
  - exists ds. rewrite num_from_snoc0 in N. auto.
Qed.

Lemma pow_8_64 b : plain b -> 2 ^ 64 <= base b ^ Z.of_nat 22.
Proof.
  intros Hp. pose proof (plain_base b Hp). etransitivity; [|apply (Z.pow_le_mono_l 8); lia].
  vm_compute. discriminate.
Qed.

(** What [format_integer] prints in a plain base, without grouping: padding,
    sign, zeros, and a digit string of the right value. *)
Lemma format_integer_plain b value sg neg c :
  plain b -> inU 64 value -> nz (flags c &! GROUP) = false ->
  exists pad tail n ds,
    format_integer value sg neg b c
    = Ret (replicate pad 32
           ++ (if nz (sign_of sg neg (flags c)) then [sign_of sg neg (flags c)] else [])
           ++ replicate n 48 ++ ds ++ replicate tail 32)
    /\ Forall (digit_in (base b)) ds /\ num_from (base b) 0 ds = value
    /\ (nz (flags c &! ZERO) = false -> n = O) /\ (nz (flags c &! MINUS) = false -> tail = O)
    /\ (nz (flags c &! MINUS) || nz (flags c &! ZERO) = true -> pad = O).
Proof.
  intros Hp Hv HG. unfold format_integer. rewrite HG, (plain_x b Hp).
  pose proof (plain_base b Hp) as Hb.
  destruct (digits_loop_plain b 22 65 value 0 []) as (d1 & E1 & L1 & F1 & N1);
    [exact Hp|lia|unfold inU in Hv; pose proof (pow_8_64 b Hp); lia|unfold lenZ; cbn; lia|].
  rewrite E1. cbn [mbind res_bind app].
  destruct (precision_loop_ok 64 (if precision c <? 0 then 1 else precision c) d1 (base b))
    as (d2 & E2 & L2 & F2 & N2); [unfold lenZ; lia|unfold lenZ; lia|exact F1|lia|].
  rewrite E2. cbn [mbind res_bind].
  assert (H3 : exists d3, (if nz (flags c &! POUND) && (base b =? 8)
      && match last d2 with None => true | Some d => negb (d =? 48) end
      then push d2 48 else mret d2) = Ret d3
      /\ Forall (digit_in (base b)) d3 /\ num_from (base b) 0 (reverse d3) = value).
  { destruct (_ && _); [|exists d2; split; [reflexivity|split; [exact F2|congruence]]].
    exists (d2 ++ [48]). rewrite push_ok by lia. split; [reflexivity|].
    split; [|rewrite num_from_snoc0; congruence].
    apply Forall_app; split; [exact F2|]. constructor; [unfold digit_in; lia|constructor]. }
  destruct H3 as (d3 & -> & F3 & N3). cbn [mbind res_bind].
  assert (nz (if nz (flags c &! POUND) && nz value then 0 else 0) = false) as ->
    by (destruct (_ && _); reflexivity).
  cbn [app]. unfold output_dup. set (pc := if _ <? 0 then 0 else _). clearbody pc.
  exists (if nz (flags c &! (MINUS |! ZERO)) then O else Z.to_nat pc),
         (if nz (flags c &! MINUS) then Z.to_nat pc else O),
         (if nz (flags c &! ZERO) then Z.to_nat pc else O), (reverse d3).
  split; [|split; [apply Forall_reverse, F3|split; [exact N3|]]].
  - destruct (nz (flags c &! (MINUS |! ZERO))), (nz (flags c &! ZERO)), (nz (flags c &! MINUS));
      reflexivity.
  - split; [intros ->; reflexivity|]. split; [intros ->; reflexivity|]. intros H.
    assert (nz (flags c &! (MINUS |! ZERO)) = true) as ->; [|reflexivity].
    rewrite Z.land_lor_distr_r. unfold nz in *.
    destruct (Z.eqb_spec (Z.lor (flags c &! MINUS) (flags c &! ZERO)) 0) as [E|]; [|reflexivity].
    apply Z.lor_eq_0_iff in E as (Ea & Eb). rewrite Ea, Eb in H. discriminate.
Qed.

Lemma skip_space_pad n p : skip_space (replicate n 32 ++ p) = skip_space p.
Proof. induction n; [reflexivity|assumption]. Qed.

Lemma digit_isdigit c : digit_in 10 c -> isdigit c = true.
Proof. unfold digit_in, isdigit. intros H. apply andb_true_iff. split; apply Z.leb_le; lia. Qed.

Lemma sgn32_id x : - 2 ^ 31 <= x < 2 ^ 31 -> sgn 32 x = x.
Proof.
  intros H. unfold sgn, wrap. destruct (Z_lt_le_dec x 0) as [Hn|Hp].
  - replace (x mod 2 ^ 32) with (x + 2 ^ 32)
      by (rewrite <- (Z.mod_small (x + 2 ^ 32) (2 ^ 32)), Z.add_mod, Z_mod_same_full, Z.add_0_r, Z.mod_mod by lia; reflexivity).
    rewrite (proj2 (Z.ltb_ge _ _)) by lia. lia.
  - rewrite Z.mod_small, (proj2 (Z.ltb_lt _ _)) by lia. reflexivity.
Qed.

Lemma atoi_loop_digits ds rest a :
  Forall (digit_in 10) ds -> isdigit (peek rest) = false -> 0 <= a ->
  num_from 10 a ds <= 2 ^ 31 -> atoi_loop (ds ++ rest) (- a) = - num_from 10 a ds.
Proof.
  intros F Hr. revert a. induction F as [|c ds Hc F IH]; intros a Ha Hn; cbn [app].
  - destruct rest as [|c t]; [reflexivity|]. cbn in *. rewrite Hr. reflexivity.
  - cbn [atoi_loop]. rewrite digit_isdigit by exact Hc. cbn in Hn.
    pose proof (num_from_le 10 (a * 10 + (c - 48)) ds ltac:(lia)) as Hle. unfold digit_in in Hc.
    specialize (Hle ltac:(lia) F). unfold num_from in *.
    replace (- a * 10 - (c - 48)) with (- (a * 10 + (c - 48))) by lia.
    rewrite sgn32_id by lia. rewrite IH by lia. reflexivity.
Qed.

Lemma peek_spaces n : isdigit (peek (replicate n 32)) = false.
Proof. destruct n; reflexivity. Qed.

Lemma digits_head ds : Forall (digit_in 10) ds -> forall n,
  skip_space (ds ++ replicate n 32) = match ds with [] => [] | _ => ds ++ replicate n 32 end.
Proof.
  intros F n. destruct F as [|c ds Hc F].
  - rewrite <- (app_nil_r (replicate n 32)). apply skip_space_pad.
  - cbn. unfold digit_in in Hc. unfold isspace. cmp_cases; try lia; reflexivity.
Qed.

(** [atoi] of a padded, signed digit string. *)
Lemma atoi_printed pad tail ds sign :
  Forall (digit_in 10) ds -> sign = 0 \/ sign = 32 \/ sign = 43 \/ sign = 45 ->
  num_from 10 0 ds <= 2 ^ 31 -> (sign <> 45 -> num_from 10 0 ds < 2 ^ 31) ->
  atoi (replicate pad 32 ++ (if nz sign then [sign] else []) ++ ds ++ replicate tail 32)
  = if sign =? 45 then - num_from 10 0 ds else num_from 10 0 ds.
Proof.
  intros F Hs Hle Hlt. unfold atoi. rewrite skip_space_pad.
  pose proof (num_from_le 10 0 ds ltac:(lia) ltac:(lia) F) as H0.
  assert (Hd : atoi_loop (ds ++ replicate tail 32) 0 = - num_from 10 0 ds)
    by (apply (atoi_loop_digits ds _ 0); auto using peek_spaces; lia).
  assert (Hplain : forall p, p = ds ++ replicate tail 32 ->
    let '(negative, p) := match skip_space p with
      | c :: t => if c =? 43 then (false, t) else if c =? 45 then (true, t) else (false, skip_space p)
      | [] => (false, skip_space p) end in
    (if (negative : bool) then atoi_loop p 0 else sgn 32 (- atoi_loop p 0)) = sgn 32 (num_from 10 0 ds)).
  { intros p ->. rewrite (digits_head ds F tail). destruct F as [|c ds Hc F]; [reflexivity|].
    cbn [app] in *. unfold digit_in in Hc.
    rewrite (proj2 (Z.eqb_neq c 43)), (proj2 (Z.eqb_neq c 45)), Hd, Z.opp_involutive by lia.
    reflexivity. }
  destruct Hs as [-> | [-> | [-> | ->]]]; cbn [nz Z.eqb negb Pos.eqb app].
  - specialize (Hplain _ eq_refl). destruct (match skip_space _ with [] => _ | _ => _ end) as [ng p].
    rewrite Hplain. apply sgn32_id. lia.
  - change (skip_space (32 :: ds ++ replicate tail 32)) with (skip_space (ds ++ replicate tail 32)).
    specialize (Hplain _ eq_refl). destruct (match skip_space _ with [] => _ | _ => _ end) as [ng p].
    rewrite Hplain. apply sgn32_id. lia.
  - change (skip_space (43 :: ds ++ replicate tail 32)) with (43 :: ds ++ replicate tail 32).
    cbn [Z.eqb Pos.eqb]. rewrite Hd, Z.opp_involutive. apply sgn32_id. lia.
  - change (skip_space (45 :: ds ++ replicate tail 32)) with (45 :: ds ++ replicate tail 32).
    cbn [Z.eqb Pos.eqb]. exact Hd.
Qed.

Lemma sign_of_cases sg neg fl :
  let sign := sign_of sg neg fl in
  (sign = 0 \/ sign = 32 \/ sign = 43 \/ sign = 45) /\ (sg = true -> (sign =? 45) = neg).
Proof.
  unfold sign_of. destruct sg, (nz (fl &! PLUS)), (nz (fl &! SPACE)), neg; split; auto; discriminate.
Qed.

(** ** Properties *)

(** Printing an [int] with [%d] and reading it back with [atoi] gives the
    same number, for every [int] and every flag, width and precision except
    digit grouping. *)
Theorem printf_atoi n c args :
  - 2 ^ 31 <= n < 2 ^ 31 -> nz (flags c &! GROUP) = false -> type c = INT ->
  exists out, convert 100 c (Arg32 (wrap 32 n) :: args) = Ret (out, args) /\ atoi out = n.
Proof.
  intros Hn HG Ht. unfold convert. cbn [Z.eqb Pos.eqb orb]. rewrite Ht.
  cbn [signed_arg va_arg32 mbind res_bind mret res_ret].
  assert (sgn 32 (wrap 32 n) = n) as ->.
  { unfold sgn, wrap. rewrite Z.mod_mod by lia. apply sgn32_id, Hn. }
  rewrite wrap_id by (unfold inU; destruct (Z.ltb_spec n 0); lia).
  destruct (format_integer_plain base_d (if n <? 0 then - n else n) true (n <? 0) c)
    as (pad & tail & z & ds & E & F & N & _); [exact plain_d| |exact HG|].
  { unfold inU. destruct (Z.ltb_spec n 0); lia. }
  rewrite E. cbn [mbind res_bind]. eexists. split; [reflexivity|].
  destruct (sign_of_cases true (n <? 0) (flags c)) as (Hs & Hneg). specialize (Hneg eq_refl).
  rewrite (app_assoc (replicate z 48)).
  assert (N' : num_from 10 0 (replicate z 48 ++ ds) = if n <? 0 then - n else n)
    by (rewrite num_from_zeros; exact N).
  rewrite atoi_printed, N', Hneg; try exact Hs; rewrite ?N'.
  - destruct (n <? 0); lia.
  - apply Forall_app; split; [|exact F]. apply Forall_replicate. unfold digit_in. lia.
  - destruct (Z.ltb_spec n 0); lia.
  - intros Hns. apply Z.eqb_neq in Hns. rewrite Hns in Hneg. rewrite <- Hneg. lia.
Qed.

Lemma printf_atoi_witness :
  exists out, convert 100 (mk_conv PLUS 14 12 INT) [Arg32 (wrap 32 (-2147483648))] = Ret (out, [])
              /\ atoi out = -2147483648.
Proof.
  apply (printf_atoi (-2147483648) (mk_conv PLUS 14 12 INT) []); [lia|reflexivity|reflexivity].
Defined.

(** ** Bounds of the digit buffer *)

Definition bases : list integer_base := [base_d; base_o; base_x; base_X].

Lemma bases_digits b : b ∈ bases ->
  8 <= base b <= 16 /\ forall d, 0 <= d < base b -> exists c, geti (digits b) d = Some c.
Proof.
  intros H.
  assert (Hb : 8 <= base b <= 16 /\ lenZ (digits b) = base b)
    by (apply list_elem_of_In in H; cbn in H;
        destruct H as [<- | [<- | [<- | [<- | []]]]]; split; try (cbn; lia); reflexivity).
  split; [apply Hb|]. intros d Hd. apply geti_lt_Some. lia.
Qed.

Lemma digits_loop_fits b k fuel grouped value cnt buf :
  b ∈ bases -> (k < fuel)%nat -> 0 <= value < base b ^ Z.of_nat k ->
  lenZ buf + 2 * Z.of_nat k <= 63 ->
  exists buf', digits_loop fuel b grouped value cnt buf = Ret buf' /\ lenZ buf' <= 63.
Proof.
  intros Hb. destruct (bases_digits b Hb) as (Hr & Hd). revert fuel value cnt buf.
  induction k as [|k IH]; intros [|fuel] value cnt buf Hf Hv Hl; [lia| |lia|]; cbn [digits_loop].
  - rewrite (proj2 (Z.ltb_ge 0 value)) by (cbn in Hv; lia). exists buf. split; [reflexivity|lia].
  - destruct (Z.ltb_spec 0 value) as [Hpos|Hz]; [|exists buf; split; [reflexivity|lia]].
    destruct (Hd (value mod base b)) as (d & Ed); [apply Z.mod_pos_bound; lia|].
    assert (Hc : exists buf1, (if grouped && (0 <? cnt) && (cnt mod group b =? 0)
                  then push buf 44 else mret buf) = Ret buf1 /\ lenZ buf1 <= lenZ buf + 1).
    { destruct (_ && _); [rewrite push_ok by lia|]; eexists; (split; [reflexivity|]);
        rewrite ?lenZ_app; change (lenZ [44]) with 1; lia. }
    destruct Hc as (buf1 & -> & L1). cbn [mbind res_bind]. rewrite Ed. cbn [the mbind res_bind].
    rewrite push_ok by lia. cbn [mbind res_bind]. apply IH; [lia| |].
    + split; [apply Z.div_pos; lia|]. apply Z.div_lt_upper_bound; [lia|].
      rewrite <- Z.pow_succ_r by lia. replace (Z.succ (Z.of_nat k)) with (Z.of_nat (S k)) by lia. lia.
    + rewrite lenZ_app. change (lenZ [d]) with 1. lia.
Qed.

Lemma precision_loop_fits fuel prec buf :
  lenZ buf <= 63 -> 64 - lenZ buf <= Z.of_nat fuel ->
  exists buf', precision_loop fuel prec buf = Ret buf' /\ lenZ buf' <= 63.
Proof.
  revert buf. induction fuel as [|fuel IH]; intros buf Hl Hf; [lia|]. cbn [precision_loop].
  destruct (Z.ltb_spec (lenZ buf) prec), (Z.ltb_spec (lenZ buf) 63); cbn [andb]; eauto.
  rewrite push_ok by lia. cbn [mbind res_bind].
  apply IH; rewrite lenZ_app; change (lenZ [48]) with 1; lia.
Qed.

(** For every 64-bit value, every base the formatter uses and every
    conversion (precision and grouping included), [format_integer] stays inside
    its 64-character buffer and returns. *)
Theorem format_integer_in_bounds value sg neg b c :
  b ∈ bases -> inU 64 value -> exists out, format_integer value sg neg b c = Ret out.
Proof.
  intros Hb Hv. unfold format_integer. destruct (bases_digits b Hb) as (Hr & _).
  destruct (digits_loop_fits b 22 65 (nz (flags c &! GROUP)) value 0 []) as (b1 & -> & L1);
    [exact Hb|lia| |unfold lenZ; cbn; lia|].
  { unfold inU in Hv. assert (8 ^ 22 <= base b ^ 22) by (apply Z.pow_le_mono_l; lia).
    change (Z.of_nat 22) with 22. lia. }
  cbn [mbind res_bind].
  destruct (precision_loop_fits 64 (if precision c <? 0 then 1 else precision c) b1)
    as (b2 & -> & L2); [lia|unfold lenZ in *; lia|].
  cbn [mbind res_bind]. rewrite push_ok by lia.
  destruct (nz (flags c &! POUND) && (base b =? 8) && _); eexists; reflexivity.
Qed.

Lemma format_integer_in_bounds_witness :
  exists out, format_integer (2 ^ 64 - 1) false false base_o
                (mk_conv (POUND |! GROUP |! ZERO) 80 63 INTMAX) = Ret out.
Proof.
  apply (format_integer_in_bounds (2 ^ 64 - 1) false false base_o
           (mk_conv (POUND |! GROUP |! ZERO) 80 63 INTMAX)); [|inU_num].
  right. left.
Defined.

(** What [vsnprintf] leaves in the buffer for the output [out]. *)
Definition bounded (buffer : list Z) (buf_size : Z) (out : list Z) : list Z :=
  if 0 <? buf_size then
    let kept := take (Z.to_nat (buf_size - 1)) out in
    kept ++ 0 :: drop (S (length kept)) buffer
  else buffer.

Lemma store_char_app pre old rest c :
  store_char (pre ++ old :: rest) (lenZ pre) c = Ret (pre ++ c :: rest).
Proof.
  unfold store_char. rewrite (proj2 (Z.leb_le 0 (lenZ pre))) by (unfold lenZ; lia).
  rewrite lenZ_app, (proj2 (Z.ltb_lt _ _)) by (unfold lenZ; cbn [length]; lia). cbn [andb].
  unfold seti, lenZ. rewrite (proj2 (Z.ltb_ge _ _)), Nat2Z.id by lia.
  rewrite (insert_app_r_alt pre _ (length pre)), Nat.sub_diag by lia. reflexivity.
Qed.

Lemma output_all_ok out : forall pre rest k max,
  lenZ pre <= max -> max <= lenZ pre + lenZ rest -> k = lenZ pre \/ lenZ pre = max /\ max <= k ->
  output_all out (pre ++ rest) (mk_aux (lenZ pre) k max)
  = let kept := take (Z.to_nat (max - lenZ pre)) out in
    Ret ((pre ++ kept) ++ drop (length kept) rest,
         mk_aux (lenZ (pre ++ kept)) (k + lenZ out) max).
Proof.
  induction out as [|ch out IH]; intros pre rest k max Hp Hm Hk.
  { cbn. rewrite take_nil, app_nil_r, drop_0, Z.add_0_r. reflexivity. }
  cbn [output_all]. unfold vsnprintf_helper. cbn [aux_p aux_length aux_max].
  destruct (Z.ltb_spec k max) as [Hlt|Hge].
  - destruct Hk as [-> |]; [|lia]. destruct rest as [|old rest]; [cbn in Hm; unfold lenZ in *; cbn in *; lia|].
    rewrite store_char_app. cbn [mbind res_bind mret res_ret aux_p aux_length aux_max].
    assert (Hl1 : lenZ (pre ++ [ch]) = lenZ pre + 1) by (rewrite lenZ_app; reflexivity).
    replace (pre ++ ch :: rest) with ((pre ++ [ch]) ++ rest) by (rewrite <- app_assoc; reflexivity).
    rewrite <- Hl1. rewrite IH; [|lia| |auto].
    2: { rewrite Hl1. unfold lenZ in *. cbn [length] in Hm. lia. }
    cbv zeta. rewrite Hl1.
    replace (Z.to_nat (max - lenZ pre)) with (S (Z.to_nat (max - (lenZ pre + 1)))) by lia.
    cbn [take length drop]. rewrite <- !app_assoc. cbn [app].
    do 3 f_equal. unfold lenZ. cbn [length]. lia.
  - assert (Hpm : lenZ pre = max) by lia. cbn [mbind res_bind mret res_ret].
    rewrite IH by lia. cbv zeta. replace (Z.to_nat (max - lenZ pre)) with O by lia.
    rewrite !take_0. do 3 f_equal. unfold lenZ. cbn [length]. lia.
Qed.

Lemma vsnprintf_ok buffer buf_size format args out :
  0 <= buf_size <= lenZ buffer -> __vprintf format args = Ret out ->
  vsnprintf buffer buf_size format args = Ret (lenZ out, bounded buffer buf_size out).
Proof.
  intros Hb E. unfold vsnprintf. rewrite E. cbn [mbind res_bind].
  pose proof (output_all_ok out [] buffer 0 (if 0 <? buf_size then buf_size - 1 else 0)) as H.
  cbn [app] in H. change (lenZ []) with 0 in H.
  rewrite H; [|destruct (Z.ltb_spec 0 buf_size); lia..|auto]. cbv zeta.
  cbn [mbind res_bind app aux_p aux_length]. unfold bounded. rewrite Z.sub_0_r.
  destruct (Z.ltb_spec 0 buf_size) as [Hpos|H0]; [|reflexivity].
  set (kept := take _ out).
  assert (Hk : (length kept < length buffer)%nat).
  { unfold kept. rewrite length_take. unfold lenZ in Hb. lia. }
  destruct (drop (length kept) buffer) as [|old rest] eqn:Ed.
  { apply (f_equal length) in Ed. rewrite length_drop in Ed. cbn in Ed. lia. }
  rewrite store_char_app. cbn [mbind res_bind].
  replace rest with (drop (S (length kept)) buffer); [reflexivity|].
  rewrite <- Nat.add_1_r, <- drop_drop, Ed. reflexivity.
Qed.

(** Whatever the format prints, [vsnprintf] returns its full length and
    leaves in the buffer its first [buf_size - 1] characters and a terminator,
    touching nothing else; with [buf_size] 0 it writes nothing. *)
Theorem vsnprintf_bounded buffer buf_size format args out :
  0 <= buf_size <= lenZ buffer -> __vprintf format args = Ret out ->
  vsnprintf buffer buf_size format args = Ret (lenZ out, bounded buffer buf_size out).
Proof. apply vsnprintf_ok. Qed.

Lemma vsnprintf_bounded_witness :
  vsnprintf (replicate 8 99) 6 (chars "%d items") [Arg32 1234]
  = Ret (10, chars "1234 " ++ [0; 99; 99]).
Proof.
  apply (vsnprintf_bounded (replicate 8 99) 6 (chars "%d items") [Arg32 1234] (chars "1234 items"));
    [unfold lenZ; cbn; lia|reflexivity].
Defined.
