(* ===== verification/Cstring.v ===== *)
(** * Memory and string functions

    [lib/string.c].  An object (buffer) is the list of its bytes, addressed by
    offset; accesses outside it are faults.  A string that is only read is, as
    in the formatter, the list of its characters without the terminator, and
    a pointer into it is a suffix. *)

From Stdlib Require Import ZArith Lia Bool.
From stdpp Require Import base list.
From S2P Require Import Prelude Printf.

(** ** Blocks of memory *)

Definition load (m : list Z) (p : Z) : res Z := the (geti m p).
Definition store (m : list Z) (p c : Z) : res (list Z) := store_char m p c.

(** [dst] and [src] in different objects. *)
Fixpoint memcpy_loop (n : nat) (m : list Z) (dst : Z) (src : list Z) (s : Z) : res (list Z) :=
  match n with
  | O => mret m
  | S n =>
      c ← load src s;
      m ← store m dst c;
      memcpy_loop n m (dst + 1) src (s + 1)
  end.
Definition memcpy (m : list Z) (dst : Z) (src : list Z) (size : Z) : res (Z * list Z) :=
  m ← memcpy_loop (Z.to_nat size) m dst src 0; mret (dst, m).

(** [dst] and [src] in one object; the loops return the moving pointer. *)
Fixpoint forward_loop (n : nat) (m : list Z) (dst src : Z) : res (Z * list Z) :=
  match n with
  | O => mret (dst, m)
  | S n =>
      c ← load m src;
      m ← store m dst c;
      forward_loop n m (dst + 1) (src + 1)
  end.
Fixpoint backward_loop (n : nat) (m : list Z) (dst src : Z) : res (Z * list Z) :=
  match n with
  | O => mret (dst, m)
  | S n =>
      let dst := dst - 1 in
      let src := src - 1 in
      c ← load m src;
      m ← store m dst c;
      backward_loop n m dst src
  end.
Definition memmove (m : list Z) (dst src size : Z) : res (Z * list Z) :=
  if dst <? src then forward_loop (Z.to_nat size) m dst src
  else backward_loop (Z.to_nat size) m (dst + size) (src + size).

Fixpoint memcmp_loop (n : nat) (a b : list Z) (i : Z) : res Z :=
  match n with
  | O => mret 0
  | S n =>
      x ← load a i;
      y ← load b i;
      if negb (x =? y) then mret (if y <? x then 1 else -1) else memcmp_loop n a b (i + 1)
  end.
Definition memcmp (a b : list Z) (size : Z) : res Z := memcmp_loop (Z.to_nat size) a b 0.

Fixpoint memchr_loop (n : nat) (block : list Z) (p ch : Z) : res (option Z) :=
  match n with
  | O => mret None
  | S n =>
      c ← load block p;
      if c =? ch then mret (Some p) else memchr_loop n block (p + 1) ch
  end.
Definition memchr (block : list Z) (p ch size : Z) : res (option Z) :=
  memchr_loop (Z.to_nat size) block p (wrap 8 ch).

Fixpoint memset_loop (n : nat) (m : list Z) (dst value : Z) : res (list Z) :=
  match n with
  | O => mret m
  | S n => m ← store m dst (wrap 8 value); memset_loop n m (dst + 1) value
  end.
Definition memset (m : list Z) (dst value size : Z) : res (Z * list Z) :=
  m ← memset_loop (Z.to_nat size) m dst value; mret (dst, m).

(** ** Strings *)

Fixpoint strlen (s : list Z) : Z := match s with [] => 0 | _ :: t => 1 + strlen t end.

Fixpoint strnlen_loop (s : list Z) (maxlen length : Z) : Z :=
  match s with
  | [] => length
  | _ :: t => if length <? maxlen then strnlen_loop t maxlen (length + 1) else length
  end.
Definition strnlen (s : list Z) (maxlen : Z) : Z := strnlen_loop s maxlen 0.

Definition order3 (x y : Z) : Z := if x <? y then -1 else b2z (y <? x).

Fixpoint strcmp (a b : list Z) : Z :=
  match a, b with
  | x :: a', y :: b' => if x =? y then strcmp a' b' else order3 x y
  | _, _ => order3 (peek a) (peek b)
  end.

Fixpoint strncmp_loop (n : nat) (a b : list Z) : Z :=
  match n, a, b with
  | S n, x :: a', y :: b' => if x =? y then strncmp_loop n a' b' else order3 x y
  | _, _, _ => order3 (peek a) (peek b)
  end.
Definition strncmp (a b : list Z) (n : Z) : res Z :=
  assert (0 <? n);; mret (strncmp_loop (Z.to_nat (n - 1)) a b).

(** A pointer to the character, [Some []] being the terminator. *)
Fixpoint strchr_loop (s : list Z) (c : Z) : option (list Z) :=
  match s with
  | [] => if c =? 0 then Some [] else None
  | x :: t => if x =? c then Some s else strchr_loop t c
  end.
Definition strchr (s : list Z) (c : Z) : option (list Z) := strchr_loop s (wrap 8 c).
Definition in_set (set : list Z) (c : Z) : bool :=
  match strchr set c with Some _ => true | None => false end.

Fixpoint strcspn (s stop : list Z) : Z :=
  match s with [] => 0 | c :: t => if in_set stop c then 0 else 1 + strcspn t stop end.
Fixpoint strspn (s skip : list Z) : Z :=
  match s with [] => 0 | c :: t => if in_set skip c then 1 + strspn t skip else 0 end.
Fixpoint strpbrk (s stop : list Z) : option (list Z) :=
  match s with [] => None | c :: t => if in_set stop c then Some s else strpbrk t stop end.

Fixpoint strrchr_loop (s : list Z) (c : Z) (p : option (list Z)) : option (list Z) :=
  match s with [] => p | x :: t => strrchr_loop t c (if x =? c then Some s else p) end.
Definition strrchr (s : list Z) (c : Z) : option (list Z) := strrchr_loop s (wrap 8 c) None.

(** [n] positions are left to try. *)
Fixpoint strstr_loop (n : nat) (haystack needle : list Z) : res (option (list Z)) :=
  match n with
  | O => mret None
  | S n =>
      r ← memcmp haystack needle (strlen needle);
      if r =? 0 then mret (Some haystack) else strstr_loop n (tail haystack) needle
  end.
Definition strstr (haystack needle : list Z) : res (option (list Z)) :=
  if strlen needle <=? strlen haystack
  then strstr_loop (Z.to_nat (strlen haystack - strlen needle + 1)) haystack needle
  else mret None.

Fixpoint is_whitespace (s : list Z) : bool :=
  match s with
  | [] => true
  | c :: t => if negb (c =? 32) && negb (c =? 9) && negb (c =? 1) then false else is_whitespace t
  end.

Fixpoint strstart (str val : list Z) : option (list Z) :=
  match val with
  | [] => Some str
  | q :: val => if negb (peek str =? q) then None else strstart (tail str) val
  end.

Definition strlcpy (m : list Z) (dst : Z) (src : list Z) (size : Z) : res (Z * list Z) :=
  let src_len := strlen src in
  if 0 <? size then
    let dst_len := if src_len <? size - 1 then src_len else size - 1 in
    '(_, m) ← memcpy m dst src dst_len;
    m ← store m (dst + dst_len) 0;
    mret (src_len, m)
  else mret (src_len, m).

(** [strlen] of a string inside an object. *)
Fixpoint strlen_loop (fuel : nat) (m : list Z) (p n : Z) : res Z :=
  match fuel with
  | O => Stop NoFuel
  | S fuel => c ← load m p; if c =? 0 then mret n else strlen_loop fuel m (p + 1) (n + 1)
  end.
Definition strlen_at (m : list Z) (p : Z) : res Z := strlen_loop (S (length m)) m p 0.

Definition strlcat (m : list Z) (dst : Z) (src : list Z) (size : Z) : res (Z * list Z) :=
  let src_len := strlen src in
  dst_len ← strlen_at m dst;
  if (0 <? size) && (dst_len <? size) then
    let copy_cnt := size - dst_len - 1 in
    let copy_cnt := if src_len <? copy_cnt then src_len else copy_cnt in
    '(_, m) ← memcpy m (dst + dst_len) src copy_cnt;
    m ← store m (dst + dst_len + copy_cnt) 0;
    mret (wrap 32 (src_len + dst_len), m)
  else mret (wrap 32 (src_len + dst_len), m).

(** ** Tokens *)

(** Skips characters in, then outside, the set; a terminator ends both. *)
Fixpoint skip_delims (fuel : nat) (m : list Z) (delims : list Z) (s : Z) : res (Z * bool) :=
  match fuel with
  | O => Stop NoFuel
  | S fuel =>
      c ← load m s;
      if in_set delims c then
        if c =? 0 then mret (s, true) else skip_delims fuel m delims (s + 1)
      else mret (s, false)
  end.
Fixpoint skip_token (fuel : nat) (m : list Z) (delims : list Z) (s : Z) : res Z :=
  match fuel with
  | O => Stop NoFuel
  | S fuel =>
      c ← load m s;
      if in_set delims c then mret s else skip_token fuel m delims (s + 1)
  end.

(** Returns the token, the saved position and the object. *)
Definition strtok_r (m : list Z) (s : option Z) (delims : list Z) (save_ptr : option Z)
  : res (option Z * Z * list Z) :=
  s ← match s with
      | Some s => mret s
      | None => match save_ptr with Some s => mret s | None => Stop Panic end
      end;
  '(s, at_end) ← skip_delims (S (length m)) m delims s;
  if (at_end : bool) then mret (None, s, m)
  else
    e ← skip_token (S (length m)) m delims s;
    c ← load m e;
    if negb (c =? 0) then
      m ← store m e 0;
      mret (Some s, e + 1, m)
    else mret (Some s, e, m).

(** The string at [p], up to its terminator. *)
Fixpoint string_loop (fuel : nat) (m : list Z) (p : Z) : res (list Z) :=
  match fuel with
  | O => Stop NoFuel
  | S fuel =>
      c ← load m p;
      if c =? 0 then mret [] else rest ← string_loop fuel m (p + 1); mret (c :: rest)
  end.
Definition string_at (m : list Z) (p : Z) : res (list Z) := string_loop (S (length m)) m p.

(** ** Replacement of patterns in a buffer *)

Fixpoint replace_loop (fuel : nat) (m : list Z) (ptr : Z) (pattern replacement : list Z)
  : res (list Z) :=
  match fuel with
  | O => Stop NoFuel
  | S fuel =>
      s ← string_at m ptr;
      r ← strstr s pattern;
      match r with
      | None => mret m
      | Some found =>
          let ptr := ptr + (strlen s - strlen found) in
          rest ← strlen_at m (ptr + strlen pattern);
          '(_, m) ← memmove m (ptr + strlen replacement) (ptr + strlen pattern) (rest + 1);
          '(_, m) ← memcpy m ptr replacement (strlen replacement);
          replace_loop fuel m (ptr + strlen replacement) pattern replacement
      end
  end.

Fixpoint replace_all (m : list Z) (out : Z) (rules : list (list Z * list Z)) : res (list Z) :=
  match rules with
  | [] => mret m
  | (pattern, replacement) :: rules =>
      assert (0 <? strlen pattern);;
      m ← replace_loop (S (length m)) m out pattern replacement;
      replace_all m out rules
  end.

Definition make_string_replacements (m : list Z) (out out_size : Z) (input : list Z)
  (rules : list (list Z * list Z)) : res (list Z) :=
  assert (strlen input <? out_size);;
  '(_, m) ← strlcpy m out input out_size;
  replace_all m out rules.

(** ** Lemmas *)

Lemma strlen_len s : strlen s = lenZ s.
Proof. induction s as [|c s IH]; [reflexivity|]. cbn [strlen]. rewrite IH. unfold lenZ. cbn [length]. lia. Qed.

Lemma store_in m p c : 0 <= p < lenZ m -> store m p c = Ret (seti m p c).
Proof.
  intros H. unfold store, store_char.
  rewrite (proj2 (Z.leb_le _ _)), (proj2 (Z.ltb_lt _ _)) by lia. reflexivity.
Qed.

Lemma load_ok m p : 0 <= p < lenZ m -> exists c, load m p = Ret c /\ geti m p = Some c.
Proof. intros H. destruct (geti_lt_Some m p H) as (c & E). exists c. unfold load. rewrite E. auto. Qed.

Lemma forward_loop_spec n : forall m dst src,
  0 <= dst < src -> src + Z.of_nat n <= lenZ m ->
  exists m', forward_loop n m dst src = Ret (dst + Z.of_nat n, m') /\ lenZ m' = lenZ m
  /\ forall x, geti m' x = if (dst <=? x) && (x <? dst + Z.of_nat n)
                           then geti m (x - dst + src) else geti m x.
Proof.
  induction n as [|n IH]; intros m dst src Hd Hl; cbn [forward_loop].
  - exists m. rewrite Z.add_0_r. split; [reflexivity|]. split; [reflexivity|]. intros x.
    cmp_cases; cbn [andb]; try reflexivity; lia.
  - destruct (load_ok m src) as (c & -> & Ec); [lia|]. cbn [mbind res_bind].
    rewrite store_in by lia. cbn [mbind res_bind].
    destruct (IH (seti m dst c) (dst + 1) (src + 1)) as (m' & E & L & G);
      [lia|rewrite lenZ_seti; lia|].
    exists m'. rewrite E. split; [do 2 f_equal; lia|]. rewrite lenZ_seti in L. split; [exact L|].
    intros x. rewrite G, !geti_seti by lia.
    destruct (Z.leb_spec (dst + 1) x), (Z.ltb_spec x (dst + 1 + Z.of_nat n)),
      (Z.leb_spec dst x), (Z.ltb_spec x (dst + Z.of_nat (S n))); cbn [andb]; try lia;
      cmp_cases; try lia; try (f_equal; lia); subst.
    rewrite <- Ec. f_equal. lia.
Qed.

Lemma backward_loop_spec n : forall m dst src,
  0 <= src <= dst -> dst + Z.of_nat n <= lenZ m ->
  exists m', backward_loop n m (dst + Z.of_nat n) (src + Z.of_nat n) = Ret (dst, m')
  /\ lenZ m' = lenZ m
  /\ forall x, geti m' x = if (dst <=? x) && (x <? dst + Z.of_nat n)
                           then geti m (x - dst + src) else geti m x.
Proof.
  induction n as [|n IH]; intros m dst src Hd Hl; cbn [backward_loop].
  - exists m. rewrite Z.add_0_r. split; [reflexivity|]. split; [reflexivity|]. intros x.
    cmp_cases; cbn [andb]; try reflexivity; lia.
  - replace (dst + Z.of_nat (S n) - 1) with (dst + Z.of_nat n) by lia.
    replace (src + Z.of_nat (S n) - 1) with (src + Z.of_nat n) by lia.
    destruct (load_ok m (src + Z.of_nat n)) as (c & -> & Ec); [lia|]. cbn [mbind res_bind].
    rewrite store_in by lia. cbn [mbind res_bind].
    destruct (IH (seti m (dst + Z.of_nat n) c) dst src) as (m' & E & L & G);
      [lia|rewrite lenZ_seti; lia|].
    exists m'. split; [exact E|]. rewrite lenZ_seti in L. split; [exact L|].
    intros x. rewrite G, !geti_seti by lia.
    destruct (Z.leb_spec dst x), (Z.ltb_spec x (dst + Z.of_nat n)),
      (Z.ltb_spec x (dst + Z.of_nat (S n))); cbn [andb]; try lia;
      cmp_cases; try lia; try (f_equal; lia); subst.
    rewrite <- Ec. f_equal. lia.
Qed.

Lemma memmove_ok m dst src size :
  0 <= dst -> 0 <= src -> 0 <= size -> dst + size <= lenZ m -> src + size <= lenZ m ->
  exists m', memmove m dst src size = Ret ((if dst <? src then dst + size else dst), m')
  /\ lenZ m' = lenZ m
  /\ forall x, geti m' x = if (dst <=? x) && (x <? dst + size)
                           then geti m (x - dst + src) else geti m x.
Proof.
  intros Hd Hs Hz Ld Ls. unfold memmove. destruct (Z.ltb_spec dst src) as [H|H].
  - destruct (forward_loop_spec (Z.to_nat size) m dst src) as (m' & E & L & G); [lia..|].
    rewrite Z2Nat.id in * by lia. eauto.
  - destruct (backward_loop_spec (Z.to_nat size) m dst src) as (m' & E & L & G); [lia..|].
    rewrite Z2Nat.id in * by lia. eauto.
Qed.

(** Writing the bytes [l] at [p]. *)
Definition written (m : list Z) (p : Z) (l : list Z) (m' : list Z) : Prop :=
  lenZ m' = lenZ m
  /\ forall x, geti m' x = if (p <=? x) && (x <? p + lenZ l) then geti l (x - p) else geti m x.

Lemma memcpy_loop_spec n : forall m dst src s,
  0 <= dst -> 0 <= s -> dst + Z.of_nat n <= lenZ m -> s + Z.of_nat n <= lenZ src ->
  exists m', memcpy_loop n m dst src s = Ret m' /\ lenZ m' = lenZ m
  /\ forall x, geti m' x = if (dst <=? x) && (x <? dst + Z.of_nat n)
                           then geti src (x - dst + s) else geti m x.
Proof.
  induction n as [|n IH]; intros m dst src s Hd Hs Ld Ls; cbn [memcpy_loop].
  - exists m. split; [reflexivity|]. split; [reflexivity|]. intros x.
    cmp_cases; cbn [andb]; try reflexivity; lia.
  - destruct (load_ok src s) as (c & -> & Ec); [lia|]. cbn [mbind res_bind].
    rewrite store_in by lia. cbn [mbind res_bind].
    destruct (IH (seti m dst c) (dst + 1) src (s + 1)) as (m' & E & L & G);
      [lia|lia|rewrite lenZ_seti; lia|lia|].
    exists m'. split; [exact E|]. rewrite lenZ_seti in L. split; [exact L|].
    intros x. rewrite G, geti_seti by lia.
    destruct (Z.leb_spec (dst + 1) x), (Z.ltb_spec x (dst + 1 + Z.of_nat n)),
      (Z.leb_spec dst x), (Z.ltb_spec x (dst + Z.of_nat (S n))); cbn [andb]; try lia;
      cmp_cases; try lia; try (f_equal; lia); subst.
    rewrite <- Ec. f_equal. lia.
Qed.

Lemma geti_take (l : list Z) n x : 0 <= x < n -> geti (take (Z.to_nat n) l) x = geti l x.
Proof.
  intros H. unfold geti. rewrite (proj2 (Z.ltb_ge _ _)) by lia. apply lookup_take_lt. lia.
Qed.

Lemma lenZ_take (l : list Z) n : 0 <= n <= lenZ l -> lenZ (take (Z.to_nat n) l) = n.
Proof. unfold lenZ. rewrite length_take. lia. Qed.

Lemma memcpy_ok m dst src size :
  0 <= dst -> 0 <= size -> dst + size <= lenZ m -> size <= lenZ src ->
  exists m', memcpy m dst src size = Ret (dst, m') /\ written m dst (take (Z.to_nat size) src) m'.
Proof.
  intros Hd Hz Ld Ls. unfold memcpy.
  destruct (memcpy_loop_spec (Z.to_nat size) m dst src 0) as (m' & E & L & G); [lia..|].
  rewrite E. cbn [mbind res_bind]. exists m'. split; [reflexivity|]. split; [exact L|].
  intros x. rewrite G, lenZ_take, Z2Nat.id by lia.
  destruct (Z.leb_spec dst x), (Z.ltb_spec x (dst + size)); cbn [andb]; try reflexivity.
  rewrite geti_take by lia. f_equal. lia.
Qed.

Lemma written_snoc m p l c m1 :
  0 <= p -> p + lenZ l < lenZ m -> written m p l m1 ->
  exists m2, store m1 (p + lenZ l) c = Ret m2 /\ written m p (l ++ [c]) m2.
Proof.
  intros Hp Hl (L & G). assert (0 <= lenZ l) by (unfold lenZ; lia).
  eexists. rewrite store_in by (rewrite L; lia). split; [reflexivity|].
  split; [rewrite lenZ_seti; exact L|]. intros x. rewrite geti_seti, G by (rewrite L; lia).
  rewrite lenZ_app. change (lenZ [c]) with 1.
  destruct (Z.eqb_spec x (p + lenZ l)) as [->|Hne].
  - rewrite (proj2 (Z.leb_le _ _)), (proj2 (Z.ltb_lt _ _)) by lia. cbn [andb].
    replace (p + lenZ l - p) with (lenZ l) by lia. unfold geti, lenZ.
    rewrite (proj2 (Z.ltb_ge _ _)), Nat2Z.id by lia. symmetry. apply list_lookup_middle. reflexivity.
  - destruct (Z.leb_spec p x), (Z.ltb_spec x (p + lenZ l)), (Z.ltb_spec x (p + (lenZ l + 1)));
      cbn [andb]; try lia; try reflexivity.
    unfold geti, lenZ in *. rewrite (proj2 (Z.ltb_ge _ _)) by lia. symmetry.
    apply lookup_app_l. lia.
Qed.

Lemma strlcpy_ok m dst src size :
  0 <= dst -> 0 < size -> dst + size <= lenZ m ->
  exists m', strlcpy m dst src size = Ret (lenZ src, m')
  /\ written m dst (take (Z.to_nat (size - 1)) src ++ [0]) m'.
Proof.
  intros Hd Hs Hl. assert (0 <= lenZ src) by (unfold lenZ; lia).
  unfold strlcpy. rewrite strlen_len, (proj2 (Z.ltb_lt _ _) Hs).
  set (n := if lenZ src <? size - 1 then lenZ src else size - 1).
  assert (Hn : 0 <= n <= lenZ src /\ n <= size - 1)
    by (unfold n; destruct (Z.ltb_spec (lenZ src) (size - 1)); lia).
  destruct (memcpy_ok m dst src n) as (m1 & -> & W1); [lia..|]. cbn [mbind res_bind].
  assert (Ht : take (Z.to_nat n) src = take (Z.to_nat (size - 1)) src).
  { unfold n. destruct (Z.ltb_spec (lenZ src) (size - 1)); [|reflexivity].
    rewrite !take_ge by (unfold lenZ in *; lia). reflexivity. }
  destruct (written_snoc m dst (take (Z.to_nat n) src) 0 m1) as (m2 & E2 & W2);
    [lia|rewrite lenZ_take; lia|exact W1|].
  rewrite lenZ_take in E2 by lia. rewrite E2. cbn [mbind res_bind].
  exists m2. rewrite <- Ht. auto.
Qed.

(** ** Searching *)

Lemma memcmp_loop_prefix n : forall a b i,
  0 <= i -> i + Z.of_nat n <= lenZ a -> i + Z.of_nat n <= lenZ b ->
  exists r, memcmp_loop n a b i = Ret r
  /\ (r = 0 <-> forall k, i <= k < i + Z.of_nat n -> geti a k = geti b k).
Proof.
  induction n as [|n IH]; intros a b i Hi La Lb; cbn [memcmp_loop].
  - exists 0. split; [reflexivity|]. split; [intros _ k Hk; lia|reflexivity].
  - destruct (load_ok a i) as (x & E1 & Ex); [lia|]. rewrite E1. cbn [mbind res_bind].
    destruct (load_ok b i) as (y & E2 & Ey); [lia|]. rewrite E2. cbn [mbind res_bind]. destruct (Z.eqb_spec x y) as [->|Hne]; cbn [negb].
    + destruct (IH a b (i + 1)) as (r & -> & Hr); [lia..|]. exists r. split; [reflexivity|].
      rewrite Hr. split; intros H k Hk; [|apply H; lia].
      destruct (Z.eq_dec k i) as [->|]; [congruence|apply H; lia].
    + eexists. split; [reflexivity|]. split.
      * destruct (y <? x); discriminate.
      * intros H. specialize (H i ltac:(lia)). congruence.
Qed.

Lemma memcmp_prefix a b :
  lenZ b <= lenZ a -> exists r, memcmp a b (lenZ b) = Ret r /\ (r = 0 <-> b `prefix_of` a).
Proof.
  intros Hl. assert (0 <= lenZ b) by (unfold lenZ; lia).
  destruct (memcmp_loop_prefix (Z.to_nat (lenZ b)) a b 0) as (r & E & Hr); [lia..|].
  exists r. split; [exact E|]. rewrite Hr, Z2Nat.id by lia. split.
  - intros Hk. exists (drop (length b) a). apply geti_ext. intros k.
    destruct (decide (0 <= k < lenZ b)) as [Hin|Hout].
    + rewrite Hk by lia. unfold geti, lenZ in *. rewrite (proj2 (Z.ltb_ge _ _)) by lia.
      symmetry. apply lookup_app_l. lia.
    + unfold geti, lenZ in *. destruct (Z.ltb_spec k 0); [reflexivity|].
      rewrite lookup_app_r by lia. rewrite lookup_drop. f_equal. lia.
  - intros (c & ->) k Hk. unfold geti, lenZ in *. rewrite (proj2 (Z.ltb_ge _ _)) by lia.
    apply lookup_app_l. lia.
Qed.

Lemma strstr_loop_ok needle : forall n hay,
  Z.of_nat n = lenZ hay - lenZ needle + 1 ->
  exists r, strstr_loop n hay needle = Ret r
  /\ match r with
     | Some p => exists pre, hay = pre ++ p /\ needle `prefix_of` p
         /\ forall pre' p', hay = pre' ++ p' -> needle `prefix_of` p' -> (length pre <= length pre')%nat
     | None => forall pre p, hay = pre ++ p -> ~ needle `prefix_of` p
     end.
Proof.
  induction n as [|n IH]; intros hay Hn; cbn [strstr_loop].
  - exists None. split; [reflexivity|]. intros pre p -> Hp. apply prefix_length in Hp.
    rewrite lenZ_app in Hn. unfold lenZ in *. lia.
  - rewrite strlen_len. destruct (memcmp_prefix hay needle) as (r & -> & Hr); [lia|].
    cbn [mbind res_bind]. destruct (Z.eqb_spec r 0) as [H0|H0].
    + exists (Some hay). split; [reflexivity|]. exists []. split; [reflexivity|].
      split; [apply Hr, H0|cbn; lia].
    + assert (Hno : ~ needle `prefix_of` hay) by tauto.
      destruct hay as [|c hay].
      { exfalso. apply Hno. assert (needle = []) as -> by (destruct needle; [reflexivity|unfold lenZ in Hn; cbn in Hn; lia]).
        reflexivity. }
      change (tail (c :: hay)) with hay.
      destruct (IH hay) as (q & -> & Hq); [unfold lenZ in *; cbn [length] in Hn; lia|].
      exists q. split; [reflexivity|]. destruct q as [p|].
      * destruct Hq as (pre & -> & Hp & Hmin). exists (c :: pre). split; [reflexivity|].
        split; [exact Hp|]. intros [|c' pre'] p' Eq Hp'; cbn in Eq; [subst p'; contradiction|].
        injection Eq as -> Eq. specialize (Hmin _ _ Eq Hp'). cbn. lia.
      * intros [|c' pre] p Eq Hp; cbn in Eq; [subst p; contradiction|].
        injection Eq as -> Eq. exact (Hq _ _ Eq Hp).
Qed.

(** ** Tokens *)

(** The maximal runs of characters that are not delimiters. *)
Fixpoint fields (d : Z -> bool) (s : list Z) : list (list Z) :=
  match s with
  | [] => [[]]
  | c :: t =>
      if d c then [] :: fields d t
      else match fields d t with f :: fs => (c :: f) :: fs | [] => [[c]] end
  end.
Definition tokens (delims s : list Z) : list (list Z) :=
  filter (fun f => f <> []) (fields (fun c => bool_decide (c ∈ delims)) s).

(** The string [s] is at [p]. *)
Record has_str (m : list Z) (p : Z) (s : list Z) : Prop := {
  hs_pos : 0 <= p;
  hs_char : forall k c, geti s k = Some c -> geti m (p + k) = Some c;
  hs_end : geti m (p + lenZ s) = Some 0;
  hs_ok : Forall (fun c => 0 < c < 256) s }.

Lemma geti_cons (c : Z) s k : 0 <= k -> geti (c :: s) (k + 1) = geti s k.
Proof.
  intros H. unfold geti. rewrite !(proj2 (Z.ltb_ge _ _)) by lia.
  replace (Z.to_nat (k + 1)) with (S (Z.to_nat k)) by lia. reflexivity.
Qed.

Lemma has_str_cons m p c s : has_str m p (c :: s) ->
  load m p = Ret c /\ 0 < c < 256 /\ has_str m (p + 1) s.
Proof.
  intros [Hp Hc He Ho]. apply Forall_cons in Ho as (Hc0 & Ho). split; [|split; [exact Hc0|split]].
  - unfold load. rewrite <- (Z.add_0_r p), (Hc 0 c) by reflexivity. reflexivity.
  - lia.
  - intros k x Ek. replace (p + 1 + k) with (p + (k + 1)) by lia. apply Hc.
    pose proof (geti_Some_lt _ _ _ Ek). rewrite geti_cons by lia. exact Ek.
  - rewrite <- He. f_equal. unfold lenZ. cbn [length]. lia.
  - exact Ho.
Qed.

Lemma has_str_nil m p : has_str m p [] -> load m p = Ret 0.
Proof. intros [_ _ He _]. unfold load. rewrite Z.add_0_r in He. rewrite He. reflexivity. Qed.

Lemma has_str_len m p s : has_str m p s -> p + lenZ s < lenZ m.
Proof. intros H. apply (geti_Some_lt _ _ _ (hs_end _ _ _ H)). Qed.

Lemma string_loop_has fuel m p s :
  has_str m p s -> (length s < fuel)%nat -> string_loop fuel m p = Ret s.
Proof.
  revert p s. induction fuel as [|fuel IH]; intros p s H Hf; [lia|]. cbn [string_loop].
  destruct s as [|c s].
  - rewrite (has_str_nil m p H). reflexivity.
  - apply has_str_cons in H as (-> & Hc & H). cbn [mbind res_bind].
    rewrite (proj2 (Z.eqb_neq c 0)) by lia. rewrite (IH (p + 1) s H) by (cbn in Hf; lia). reflexivity.
Qed.

Lemma string_at_has m p s : has_str m p s -> string_at m p = Ret s.
Proof.
  intros H. apply string_loop_has; [exact H|]. pose proof (has_str_len _ _ _ H).
  pose proof (hs_pos _ _ _ H). unfold lenZ in *. lia.
Qed.

Lemma strchr_loop_Some d c : strchr_loop d c <> None <-> c ∈ d \/ c = 0.
Proof.
  induction d as [|x d IH]; cbn [strchr_loop].
  - destruct (Z.eqb_spec c 0) as [->|Hne]; [split; auto; discriminate|].
    split; [contradiction|]. intros [H|]; [inversion H|contradiction].
  - destruct (Z.eqb_spec x c) as [->|Hne].
    + split; [intros _; left; left|discriminate].
    + rewrite IH. split; intros [H|H]; auto; left; [right; exact H|].
      inversion H; [congruence|assumption].
Qed.

Lemma in_set_0 d : in_set d 0 = true.
Proof.
  unfold in_set, strchr. change (wrap 8 0) with 0. destruct (strchr_loop d 0) eqn:E; [reflexivity|].
  exfalso. apply (proj2 (strchr_loop_Some d 0)); auto.
Qed.

Lemma in_set_elem d c : 0 < c < 256 -> in_set d c = bool_decide (c ∈ d).
Proof.
  intros H. unfold in_set, strchr. rewrite wrap_id by (unfold inU; lia).
  pose proof (strchr_loop_Some d c) as Hs. destruct (strchr_loop d c).
  - symmetry. apply bool_decide_eq_true. assert (c ∈ d \/ c = 0) as [|] by (apply Hs; discriminate);
      [assumption|lia].
  - symmetry. apply bool_decide_eq_false. intros Hin. apply (proj2 Hs); auto.
Qed.

Section Tok.
Context (delims : list Z).
Abbreviation is_delim c := (bool_decide (c ∈ delims)).

Lemma skip_delims_ok fuel m p s :
  has_str m p s -> (length s < fuel)%nat ->
  exists pre rest, s = pre ++ rest /\ Forall (fun c => is_delim c = true) pre
  /\ skip_delims fuel m delims p
     = Ret (p + lenZ pre, match rest with [] => true | _ => false end)
  /\ has_str m (p + lenZ pre) rest
  /\ match rest with [] => True | c :: _ => is_delim c = false end.
Proof.
  revert p s. induction fuel as [|fuel IH]; intros p s H Hf; [lia|]. cbn [skip_delims].
  destruct s as [|c s].
  - exists [], []. rewrite (has_str_nil m p H). cbn [mbind res_bind]. rewrite in_set_0.
    change (lenZ []) with 0. rewrite Z.add_0_r. auto 6.
  - pose proof H as H'. apply has_str_cons in H' as (-> & Hc & H1). cbn [mbind res_bind].
    rewrite in_set_elem by exact Hc. destruct (is_delim c) eqn:Ed.
    + rewrite (proj2 (Z.eqb_neq c 0)) by lia.
      destruct (IH (p + 1) s H1) as (pre & rest & -> & Fp & E & Hr & Hd); [cbn in Hf; lia|].
      exists (c :: pre), rest.
      replace (p + lenZ (c :: pre)) with (p + 1 + lenZ pre) by (unfold lenZ; cbn [length]; lia).
      split; [reflexivity|]. split; [constructor; assumption|]. auto.
    + exists [], (c :: s). change (lenZ []) with 0. rewrite Z.add_0_r. auto 6.
Qed.

Lemma skip_token_ok fuel m p s :
  has_str m p s -> (length s < fuel)%nat ->
  exists tok rest, s = tok ++ rest /\ Forall (fun c => is_delim c = false) tok
  /\ skip_token fuel m delims p = Ret (p + lenZ tok)
  /\ has_str m (p + lenZ tok) rest
  /\ match rest with [] => True | c :: _ => is_delim c = true end.
Proof.
  revert p s. induction fuel as [|fuel IH]; intros p s H Hf; [lia|]. cbn [skip_token].
  destruct s as [|c s].
  - exists [], []. rewrite (has_str_nil m p H). cbn [mbind res_bind]. rewrite in_set_0.
    change (lenZ []) with 0. rewrite Z.add_0_r. auto 6.
  - pose proof H as H'. apply has_str_cons in H' as (-> & Hc & H1). cbn [mbind res_bind].
    rewrite in_set_elem by exact Hc. destruct (is_delim c) eqn:Ed.
    + exists [], (c :: s). change (lenZ []) with 0. rewrite Z.add_0_r. auto 6.
    + destruct (IH (p + 1) s H1) as (tok & rest & -> & Ft & E & Hr & Hd); [cbn in Hf; lia|].
      exists (c :: tok), rest.
      replace (p + lenZ (c :: tok)) with (p + 1 + lenZ tok) by (unfold lenZ; cbn [length]; lia).
      split; [reflexivity|]. split; [constructor; assumption|]. auto.
Qed.

Lemma fields_cons d s : exists f fs, fields d s = f :: fs.
Proof.
  induction s as [|c s (f & fs & IH)]; cbn [fields]; [eauto|].
  destruct (d c); [eauto|]. rewrite IH. eauto.
Qed.

Lemma tokens_skip pre s : Forall (fun c => is_delim c = true) pre ->
  tokens delims (pre ++ s) = tokens delims s.
Proof.
  induction 1 as [|c pre Hc F IH]; [reflexivity|]. unfold tokens in *. cbn [app fields].
  rewrite Hc. rewrite filter_cons_False by tauto. exact IH.
Qed.

Lemma fields_tok tok rest : Forall (fun c => is_delim c = false) tok ->
  match rest with [] => True | c :: _ => is_delim c = true end ->
  fields (fun c => is_delim c) (tok ++ rest)
  = tok :: match rest with [] => [] | _ :: r => fields (fun c => is_delim c) r end.
Proof.
  intros F Hr. induction F as [|c tok Hc F IH]; cbn [app].
  - destruct rest as [|c r]; [reflexivity|]. cbn [fields]. rewrite Hr. reflexivity.
  - cbn [fields]. rewrite Hc, IH. reflexivity.
Qed.

Lemma tokens_tok tok rest : tok <> [] -> Forall (fun c => is_delim c = false) tok ->
  match rest with [] => True | c :: _ => is_delim c = true end ->
  tokens delims (tok ++ rest) = tok :: match rest with [] => [] | _ :: r => tokens delims r end.
Proof.
  intros Hn F Hr. unfold tokens. rewrite fields_tok by assumption.
  rewrite filter_cons_True by exact Hn. destruct rest; reflexivity.
Qed.

(** Calling [strtok_r] until it returns null, reading each token. *)
Fixpoint tok_run (n : nat) (m : list Z) (s save : option Z) : res (list (list Z)) :=
  match n with
  | O => Stop NoFuel
  | S n =>
      '(tok, save, m) ← strtok_r m s delims save;
      match tok with
      | None => mret []
      | Some t =>
          str ← string_at m t;
          rest ← tok_run n m None (Some save);
          mret (str :: rest)
      end
  end.

Lemma has_str_cut m p tok c rest :
  has_str m p (tok ++ c :: rest) ->
  exists m', store m (p + lenZ tok) 0 = Ret m' /\ has_str m' p tok
             /\ has_str m' (p + lenZ tok + 1) rest.
Proof using Type.
  intros H. pose proof (has_str_len _ _ _ H) as Hl. destruct H as [Hp Hc He Ho].
  rewrite lenZ_app in *. assert (lenZ (c :: rest) = lenZ rest + 1) as Ec
    by (unfold lenZ; cbn [length]; lia).
  assert (0 <= lenZ tok) by (unfold lenZ; lia). assert (0 <= lenZ rest) by (unfold lenZ; lia).
  rewrite store_in by lia. eexists. split; [reflexivity|]. apply Forall_app in Ho as (Ht & Hr).
  assert (Hk : forall k x, k <> lenZ tok -> geti (tok ++ c :: rest) k = Some x ->
            geti (seti m (p + lenZ tok) 0) (p + k) = Some x)
    by (intros k x Hne Ek; rewrite geti_seti_ne by lia; auto).
  split; split.
  - exact Hp.
  - intros k x Ek. pose proof (geti_Some_lt _ _ _ Ek). apply Hk; [lia|].
    unfold geti, lenZ in *. destruct (k <? 0); [discriminate|]. rewrite lookup_app_l by lia. exact Ek.
  - apply geti_seti_eq. lia.
  - exact Ht.
  - lia.
  - intros k x Ek. pose proof (geti_Some_lt _ _ _ Ek).
    replace (p + lenZ tok + 1 + k) with (p + (lenZ tok + (k + 1))) by lia. apply Hk; [lia|].
    unfold geti, lenZ in *. rewrite !(proj2 (Z.ltb_ge _ _)) in * by lia.
    rewrite lookup_app_r by lia.
    replace (Z.to_nat (Z.of_nat (length tok) + (k + 1)) - length tok)%nat with (S (Z.to_nat k)) by lia.
    exact Ek.
  - rewrite geti_seti_ne by lia. rewrite <- He. f_equal. lia.
  - apply Forall_cons in Hr. apply Hr.
Qed.

(** One call on the string [s] at the current position. *)
Lemma strtok_r_ok m p s :
  has_str m p s ->
  (tokens delims s = [] /\ exists e, strtok_r m (Some p) delims None = Ret (None, e, m))
  \/ (exists tok s' t e m', strtok_r m (Some p) delims None = Ret (Some t, e, m')
      /\ tokens delims s = tok :: tokens delims s' /\ (length s' < length s)%nat
      /\ has_str m' t tok /\ has_str m' e s').
Proof using Type.
  intros H. assert (Hf : (length s < S (length m))%nat).
  { pose proof (has_str_len _ _ _ H). pose proof (hs_pos _ _ _ H). unfold lenZ in *. lia. }
  unfold strtok_r. cbn [mret res_ret mbind res_bind].
  destruct (skip_delims_ok _ m p s H Hf) as (pre & rest & -> & Fp & E1 & H1 & Hd).
  rewrite E1. cbn [mbind res_bind]. rewrite (tokens_skip pre rest Fp).
  rewrite length_app in Hf. destruct rest as [|c rest].
  { left. split; [reflexivity|]. eauto. }
  right. destruct (skip_token_ok (S (length m)) m _ _ H1 ltac:(lia)) as (tok & r & Er & Ft & E2 & H2 & Hr).
  rewrite E2. cbn [mbind res_bind].
  assert (Hne : tok <> []).
  { intros ->. cbn in Er. subst r. congruence. }
  rewrite Er, (tokens_tok tok r Hne Ft Hr). rewrite Er in H1. destruct r as [|x r].
  - rewrite (has_str_nil _ _ H2). cbn [mbind res_bind Z.eqb negb].
    rewrite app_nil_r in *. exists tok, [], (p + lenZ pre), (p + lenZ pre + lenZ tok), m.
    split; [reflexivity|]. split; [reflexivity|]. split; [|split; [exact H1|exact H2]].
    rewrite length_app. destruct tok; [contradiction|cbn; lia].
  - pose proof H2 as (-> & Hx & _)%has_str_cons. cbn [mbind res_bind].
    rewrite (proj2 (Z.eqb_neq x 0)) by lia. cbn [negb].
    destruct (has_str_cut m (p + lenZ pre) tok x r H1) as (m' & -> & Ht & Hrest).
    cbn [mbind res_bind].
    exists tok, r, (p + lenZ pre), (p + lenZ pre + lenZ tok + 1), m'.
    split; [reflexivity|]. split; [reflexivity|]. split; [|auto].
    rewrite !length_app. cbn [length]. lia.
Qed.

Lemma strtok_r_save m p : strtok_r m None delims (Some p) = strtok_r m (Some p) delims None.
Proof using Type. reflexivity. Qed.

Lemma strtok_r_any m p save : strtok_r m (Some p) delims save = strtok_r m (Some p) delims None.
Proof using Type. reflexivity. Qed.

Lemma tok_run_ok n : forall m p s save,
  has_str m p s -> (length s < n)%nat -> tok_run n m (Some p) save = Ret (tokens delims s).
Proof using Type.
  induction n as [|n IH]; intros m p s save H Hn; [lia|]. cbn [tok_run]. rewrite strtok_r_any.
  destruct (strtok_r_ok m p s H) as [(-> & e & ->)|(tok & s' & t & e & m' & -> & -> & Hl & Ht & Hs)].
  - reflexivity.
  - cbn [mbind res_bind]. rewrite (string_at_has _ _ _ Ht). cbn [mbind res_bind].
    destruct n as [|n]; [lia|]. specialize (IH m' e s' None Hs ltac:(lia)).
    cbn [tok_run] in IH |- *. rewrite strtok_r_save. rewrite IH. reflexivity.
Qed.
End Tok.

(** ** Properties *)

(** C36: calling [strtok_r] on a string, and then with a null pointer until it
    returns null, yields exactly the non-empty fields of the string between
    delimiters, in order; no token is empty and none is lost. *)
Theorem strtok_r_tokens m p s delims save n :
  has_str m p s -> (length s < n)%nat ->
  tok_run delims n m (Some p) save = Ret (tokens delims s).
Proof. apply tok_run_ok. Qed.

Lemma strtok_r_tokens_witness :
  tok_run [32] 9 [32; 97; 98; 32; 32; 99; 32; 0] (Some 0) None = Ret [[97; 98]; [99]].
Proof.
  apply (strtok_r_tokens [32; 97; 98; 32; 32; 99; 32; 0] 0 [32; 97; 98; 32; 32; 99; 32] [32] None 9).
  - split.
    + lia.
    + intros k c Ek. pose proof (geti_Some_lt _ _ _ Ek) as Hk. rewrite Z.add_0_l.
      change (lenZ [32; 97; 98; 32; 32; 99; 32]) with 7 in Hk. rewrite <- Ek.
      assert (k = 0 \/ k = 1 \/ k = 2 \/ k = 3 \/ k = 4 \/ k = 5 \/ k = 6) as H by lia.
      repeat (destruct H as [-> |H]; [reflexivity|]). subst k. reflexivity.
    + reflexivity.
    + repeat constructor.
  - cbn. lia.
Defined.

(** [memmove] copies the block as it was, for overlapping blocks in either
    direction, and changes nothing else; but the pointer it returns is the
    destination only when the copy runs backwards, and the end of the
    destination otherwise. *)
Theorem memmove_copies m dst src size :
  0 <= dst -> 0 <= src -> 0 <= size -> dst + size <= lenZ m -> src + size <= lenZ m ->
  exists m', memmove m dst src size = Ret ((if dst <? src then dst + size else dst), m')
  /\ lenZ m' = lenZ m
  /\ forall x, geti m' x = if (dst <=? x) && (x <? dst + size)
                           then geti m (x - dst + src) else geti m x.
Proof. apply memmove_ok. Qed.

Lemma memmove_copies_witness :
  exists m', memmove [1; 2; 3; 4; 5] 0 1 4 = Ret (4, m') /\ lenZ m' = 5
  /\ forall x, geti m' x = if (0 <=? x) && (x <? 0 + 4)
                           then geti [1; 2; 3; 4; 5] (x - 0 + 1) else geti [1; 2; 3; 4; 5] x.
Proof. apply (memmove_copies [1; 2; 3; 4; 5] 0 1 4); unfold lenZ; cbn; lia. Defined.

(** [strstr] returns the first place where the needle occurs, or null when
    it occurs nowhere. *)
Theorem strstr_first hay needle :
  exists r, strstr hay needle = Ret r
  /\ match r with
     | Some p => exists pre, hay = pre ++ p /\ needle `prefix_of` p
         /\ forall pre' p', hay = pre' ++ p' -> needle `prefix_of` p' -> (length pre <= length pre')%nat
     | None => forall pre p, hay = pre ++ p -> ~ needle `prefix_of` p
     end.
Proof.
  unfold strstr. rewrite !strlen_len. destruct (Z.leb_spec (lenZ needle) (lenZ hay)) as [H|H].
  - apply strstr_loop_ok. lia.
  - exists None. split; [reflexivity|]. intros pre p -> Hp. apply prefix_length in Hp.
    rewrite lenZ_app in H. unfold lenZ in *. lia.
Qed.

(** [strlcpy] returns the length of the source and writes its first
    [size - 1] characters and a terminator at the destination, nothing else. *)
Theorem strlcpy_truncates m dst src size :
  0 <= dst -> 0 < size -> dst + size <= lenZ m ->
  exists m', strlcpy m dst src size = Ret (lenZ src, m')
  /\ written m dst (take (Z.to_nat (size - 1)) src ++ [0]) m'.
Proof. apply strlcpy_ok. Qed.

Lemma strlcpy_truncates_witness :
  exists m', strlcpy (replicate 6 7) 1 [104; 101; 108; 108; 111] 4 = Ret (5, m')
  /\ written (replicate 6 7) 1 [104; 101; 108; 0] m'.
Proof.
  apply (strlcpy_truncates (replicate 6 7) 1 [104; 101; 108; 108; 111] 4); unfold lenZ; cbn; lia.
Defined.

(** The length check of [make_string_replacements] is made before the text
    grows: a buffer of the size it is told overflows. *)
Lemma make_string_replacements_overflows :
  make_string_replacements (replicate 4 0) 0 4 [120; 120] [([120], [97; 98])] = Stop Fault.
Proof. reflexivity. Qed.
