(* ===== verification/Ustar.v ===== *)
(** * The ustar archive header

    [lib/ustar.c]: composing and parsing the 512-byte header of an archive
    member.  The header is the list of its bytes; fields are at the offsets of
    [struct ustar_header]. *)

From Stdlib Require Import ZArith Lia Bool String.
From stdpp Require Import base list.
From S2P Require Import Prelude Printf Cstring.

Definition USTAR_HEADER_SIZE : Z := 512.
Definition USTAR_REGULAR : Z := 48.
Definition USTAR_DIRECTORY : Z := 53.

(** Offsets of the fields. *)
Definition ofs_name : Z := 0.
Definition ofs_mode : Z := 100.
Definition ofs_uid : Z := 108.
Definition ofs_gid : Z := 116.
Definition ofs_size : Z := 124.
Definition ofs_mtime : Z := 136.
Definition ofs_chksum : Z := 148.
Definition ofs_typeflag : Z := 156.
Definition ofs_magic : Z := 257.
Definition ofs_version : Z := 263.
Definition ofs_uname : Z := 265.
Definition ofs_gname : Z := 297.
Definition ofs_prefix : Z := 345.

Fixpoint chksum_loop (n : nat) (h : list Z) (i chksum : Z) : res Z :=
  match n with
  | O => mret chksum
  | S n =>
      let in_chksum_field := (ofs_chksum <=? i) && (i <? ofs_chksum + 8) in
      c ← load h i;
      chksum_loop n h (i + 1) (wrap 32 (chksum + (if in_chksum_field then 32 else c)))
  end.
Definition calculate_chksum (h : list Z) : res Z :=
  chksum_loop (Z.to_nat USTAR_HEADER_SIZE) h 0 0.

(** The loop condition of [strip_antisocial_prefixes]. *)
Definition antisocial (file_name : list Z) : res bool :=
  if peek file_name =? 47 then mret true
  else
    r ← memcmp (file_name ++ [0]) (chars "./") 2;
    if r =? 0 then mret true
    else
      r ← memcmp (file_name ++ [0]) (chars "../") 3;
      mret (r =? 0).

Fixpoint strip_loop (fuel : nat) (file_name : list Z) : res (list Z) :=
  match fuel with
  | O => Stop NoFuel
  | S fuel =>
      b ← antisocial file_name;
      if (b : bool) then
        p ← the (strchr file_name 47);
        p ← advance p;
        strip_loop fuel p
      else mret file_name
  end.
Definition strip_antisocial_prefixes (file_name : list Z) : res (list Z) :=
  n ← strip_loop (S (length file_name)) file_name;
  mret (if (peek n =? 0) || (strcmp n (chars "..") =? 0) then chars "." else n).

(** [snprintf] into the object [m] at [p]. *)
Definition snprintf_at (m : list Z) (p size : Z) (format : list Z) (args : list arg)
  : res (list Z) :=
  '(_, b) ← vsnprintf (drop (Z.to_nat p) m) size format args;
  mret (take (Z.to_nat p) m ++ b).
Definition strlcpy_at (m : list Z) (p : Z) (src : list Z) (size : Z) : res (list Z) :=
  '(_, m) ← strlcpy m p src size; mret m.

(** The header except for its final checksum. *)
Definition fill_header (header file_name : list Z) (type size : Z) : res (list Z) :=
  '(_, h) ← memset header 0 0 USTAR_HEADER_SIZE;
  h ← strlcpy_at h ofs_name file_name 100;
  h ← snprintf_at h ofs_mode 8 (chars "%07o")
        [Arg32 (if type =? USTAR_REGULAR then 420 else 493)];
  h ← strlcpy_at h ofs_uid (chars "0000000") 8;
  h ← strlcpy_at h ofs_gid (chars "0000000") 8;
  h ← snprintf_at h ofs_size 12 (chars "%011o") [Arg32 (wrap 32 size)];
  h ← snprintf_at h ofs_mtime 12 (chars "%011o") [Arg32 1136102400];
  h ← store h ofs_typeflag type;
  h ← strlcpy_at h ofs_magic (chars "ustar") 6;
  h ← store h (ofs_version + 1) 48;
  h ← store h ofs_version 48;
  h ← strlcpy_at h ofs_gname (chars "root") 32;
  strlcpy_at h ofs_uname (chars "root") 32.

(** False when the name is too long; [header] is then unchanged. *)
Definition ustar_make_header (file_name : list Z) (type size : Z) (header : list Z)
  : res (bool * list Z) :=
  assert ((type =? USTAR_REGULAR) || (type =? USTAR_DIRECTORY));;
  file_name ← strip_antisocial_prefixes file_name;
  if 99 <? strlen file_name then mret (false, header)
  else
    h ← fill_header header file_name type size;
    sum ← calculate_chksum h;
    h ← snprintf_at h ofs_chksum 8 (chars "%07o") [Arg32 sum];
    mret (true, h).

(** The value, or nothing for a malformed field. *)
Fixpoint octal_loop (n : nat) (s : list Z) (p ofs value : Z) : res (option Z) :=
  match n with
  | O => mret None
  | S n =>
      c ← load s (p + ofs);
      if (48 <=? c) && (c <=? 55) then
        if (2 ^ 32 - 1) / 8 <? value then mret None
        else octal_loop n s p (ofs + 1) (wrap 32 (c - 48 + value * 8))
      else if (c =? 32) || (c =? 0) then mret (if 0 <? ofs then Some value else None)
      else mret None
  end.
Definition parse_octal_field (s : list Z) (p size : Z) : res (option Z) :=
  octal_loop (Z.to_nat size) s p 0 0.

Fixpoint zeros_loop (cnt : nat) (block : list Z) (p : Z) : res bool :=
  match cnt with
  | O => mret true
  | S cnt => c ← load block p; if negb (c =? 0) then mret false else zeros_loop cnt block (p + 1)
  end.
Definition is_all_zeros (block : list Z) (cnt : Z) : res bool := zeros_loop (Z.to_nat cnt) block 0.

Inductive ustar_entry :=
| Eof
| Entry (file_name : list Z) (type size : Z)
| Error (message : string).

Definition ustar_parse_header (header : list Z) : res ustar_entry :=
  z ← is_all_zeros header USTAR_HEADER_SIZE;
  if (z : bool) then mret Eof
  else
    r ← memcmp (drop (Z.to_nat ofs_magic) header) (chars "ustar" ++ [0]) 6;
    if nz r then mret (Error "not a ustar archive")
    else
      v0 ← load header ofs_version;
      v1 ← load header (ofs_version + 1);
      if negb (v0 =? 48) || negb (v1 =? 48) then mret (Error "invalid ustar version")
      else
        chksum ← parse_octal_field header ofs_chksum 8;
        match chksum with
        | None => mret (Error "corrupt chksum field")
        | Some chksum =>
            sum ← calculate_chksum header;
            if negb (chksum =? sum) then mret (Error "checksum mismatch")
            else
              last ← load header (ofs_name + 99);
              prefix0 ← load header ofs_prefix;
              if nz last || nz prefix0 then mret (Error "file name too long")
              else
                typeflag ← load header ofs_typeflag;
                if negb (typeflag =? USTAR_REGULAR) && negb (typeflag =? USTAR_DIRECTORY)
                then mret (Error "unimplemented file type")
                else
                  size_ul ← (if typeflag =? USTAR_REGULAR
                             then parse_octal_field header ofs_size 12 else mret (Some 0));
                  match size_ul with
                  | None => mret (Error "corrupt file size field")
                  | Some size_ul =>
                      if 2 ^ 31 - 1 <? size_ul then mret (Error "file too large")
                      else
                        name ← string_at header ofs_name;
                        name ← strip_antisocial_prefixes name;
                        mret (Entry name typeflag size_ul)
                  end
        end.

(** ** Writes to the header *)

Lemma written_out m p l m' x : written m p l m' -> x < p \/ p + lenZ l <= x -> geti m' x = geti m x.
Proof.
  intros (_ & G) Hx. rewrite G. cmp_cases; cbn [andb]; try reflexivity; lia.
Qed.

Lemma written_at m p l m' x : written m p l m' -> p <= x < p + lenZ l -> geti m' x = geti l (x - p).
Proof.
  intros (_ & G) Hx. rewrite G, (proj2 (Z.leb_le _ _)), (proj2 (Z.ltb_lt _ _)) by lia. reflexivity.
Qed.

Lemma put_written m p l :
  0 <= p -> p + lenZ l <= lenZ m ->
  written m p l (take (Z.to_nat p) m ++ l ++ drop (Z.to_nat p + length l) m).
Proof.
  intros Hp Hl. unfold lenZ in Hl. split.
  - unfold lenZ. rewrite !length_app, length_take, length_drop. lia.
  - intros x. unfold geti, lenZ. destruct (Z.ltb_spec x 0).
    { rewrite (proj2 (Z.leb_gt _ _)) by lia. reflexivity. }
    destruct (Z.leb_spec p x).
    2: { cbn [andb]. rewrite lookup_app_l by (rewrite length_take; lia). apply lookup_take_lt. lia. }
    rewrite lookup_app_r by (rewrite length_take; lia). rewrite length_take.
    destruct (Z.ltb_spec x (p + Z.of_nat (length l))); cbn [andb].
    + rewrite (proj2 (Z.ltb_ge _ _)) by lia. rewrite lookup_app_l by lia. f_equal. lia.
    + rewrite lookup_app_r by lia. rewrite lookup_drop. f_equal. lia.
Qed.

Lemma store_written m p c : 0 <= p < lenZ m -> exists m', store m p c = Ret m' /\ written m p [c] m'.
Proof.
  intros H. rewrite store_in by exact H. eexists. split; [reflexivity|].
  split; [apply lenZ_seti|]. intros x. rewrite geti_seti by exact H. change (lenZ [c]) with 1.
  cmp_cases; cbn [andb]; try reflexivity; try lia. subst. rewrite Z.sub_diag. reflexivity.
Qed.

Lemma strlcpy_at_written m p src size :
  0 <= p -> lenZ src < size -> p + size <= lenZ m ->
  exists m', strlcpy_at m p src size = Ret m' /\ written m p (src ++ [0]) m'.
Proof.
  intros Hp Hs Hl. assert (0 <= lenZ src) by (unfold lenZ; lia).
  destruct (strlcpy_ok m p src size) as (m' & E & W); [lia..|].
  rewrite take_ge in W by (unfold lenZ in *; lia).
  exists m'. unfold strlcpy_at. rewrite E. auto.
Qed.

Lemma snprintf_at_written m p size format args out :
  0 <= p -> lenZ out < size -> p + size <= lenZ m -> __vprintf format args = Ret out ->
  exists m', snprintf_at m p size format args = Ret m' /\ written m p (out ++ [0]) m'.
Proof.
  intros Hp Hs Hl E. assert (0 <= lenZ out) by (unfold lenZ; lia). unfold snprintf_at.
  rewrite (vsnprintf_ok _ _ _ _ out);
    [|split; [lia|unfold lenZ in *; rewrite length_drop; lia]|exact E].
  cbn [mbind res_bind]. unfold bounded. rewrite (proj2 (Z.ltb_lt 0 size)) by lia.
  rewrite (take_ge out) by (unfold lenZ in *; lia). cbv zeta. rewrite drop_drop.
  eexists. split; [reflexivity|].
  pose proof (put_written m p (out ++ [0])) as W. rewrite lenZ_app in W.
  change (lenZ [0]) with 1 in W. specialize (W Hp ltac:(lia)).
  rewrite length_app, <- (app_assoc out) in W. cbn [app length] in W.
  replace (Z.to_nat p + (length out + 1))%nat with (Z.to_nat p + S (length out))%nat in W by lia.
  exact W.
Qed.

Lemma memset_loop_ok n : forall m p v, 0 <= p -> p + Z.of_nat n <= lenZ m ->
  exists m', memset_loop n m p v = Ret m' /\ lenZ m' = lenZ m
  /\ forall x, geti m' x = if (p <=? x) && (x <? p + Z.of_nat n) then Some (wrap 8 v) else geti m x.
Proof.
  induction n as [|n IH]; intros m p v Hp Hl; cbn [memset_loop].
  - exists m. split; [reflexivity|]. split; [reflexivity|]. intros x.
    cmp_cases; cbn [andb]; try reflexivity; lia.
  - rewrite store_in by lia. cbn [mbind res_bind].
    destruct (IH (seti m p (wrap 8 v)) (p + 1) v) as (m' & E & L & G); [lia|rewrite lenZ_seti; lia|].
    exists m'. split; [exact E|]. rewrite lenZ_seti in L. split; [exact L|].
    intros x. rewrite G, geti_seti by lia. cmp_cases; cbn [andb]; try reflexivity; lia.
Qed.

(** ** Octal fields *)

(** [%0wo] of a value that fits prints [w] octal digits. *)
Lemma octal_digits w v :
  1 <= w <= 22 -> 0 <= v < 8 ^ w -> inU 64 v ->
  exists ds, format_integer v false false base_o (mk_conv ZERO w (-1) INT) = Ret ds
  /\ lenZ ds = w /\ Forall (digit_in 8) ds /\ num_from 8 0 ds = v.
Proof.
  intros Hw Hv Hu. unfold format_integer. cbn [flags width precision].
  change (nz (ZERO &! GROUP)) with false. change (nz (ZERO &! POUND)) with false.
  change (nz (ZERO &! (MINUS |! ZERO))) with true. change (nz (ZERO &! ZERO)) with true.
  change (nz (ZERO &! MINUS)) with false. cbn [andb sign_of nz Z.eqb negb app b2z Z.ltb Z.compare].
  destruct (digits_loop_plain base_o (Z.to_nat w) 65 v 0 []) as (d1 & E1 & L1 & F1 & N1);
    [exact plain_o|lia|cbn [base base_o]; rewrite Z2Nat.id by lia; lia|unfold lenZ; cbn; lia|].
  rewrite E1. cbn [mbind res_bind app].
  assert (H2 : exists d2, precision_loop 64 1 d1 = Ret d2 /\ lenZ d2 <= w
            /\ Forall (digit_in 8) d2 /\ num_from 8 0 (reverse d2) = v).
  { destruct d1 as [|c d1].
    - exists [48]. split; [reflexivity|]. split; [unfold lenZ; cbn; lia|].
      split; [constructor; [unfold digit_in; lia|constructor]|]. cbn in N1 |- *. lia.
    - exists (c :: d1). cbn [precision_loop].
      rewrite (proj2 (Z.ltb_ge (lenZ (c :: d1)) 1)) by (unfold lenZ; cbn; lia).
      split; [reflexivity|]. split; [unfold lenZ; lia|auto]. }
  destruct H2 as (d2 & -> & L2 & F2 & N2). cbn [mbind res_bind mret res_ret].
  rewrite !Z.sub_0_r, (proj2 (Z.ltb_ge _ _)), app_nil_r by lia. eexists. split; [reflexivity|].
  unfold output_dup. split; [|split].
  - unfold lenZ in *. rewrite length_app, length_replicate, length_reverse. lia.
  - apply Forall_app; split; [apply Forall_replicate; unfold digit_in; lia|apply Forall_reverse, F2].
  - rewrite num_from_zeros. exact N2.
Qed.

Lemma printed_octal t w v ds :
  (peek t =? 37) = false ->
  parse_conversion t [Arg32 v] = Ret ([111], mk_conv ZERO w (-1) INT, [Arg32 v]) ->
  format_integer v false false base_o (mk_conv ZERO w (-1) INT) = Ret ds ->
  __vprintf (37 :: t) [Arg32 v] = Ret ds.
Proof.
  intros Hp E1 E2. apply (vprintf_single t 111 (mk_conv ZERO w (-1) INT) _ [Arg32 v] [] ds Hp E1).
  unfold convert. cbn [Z.eqb Pos.eqb orb unsigned_base]. cbn [unsigned_arg type va_arg32 mbind res_bind mret res_ret].
  rewrite E2. reflexivity.
Qed.

Definition octal_field (format : list Z) (w v : Z) : Prop :=
  exists ds, __vprintf format [Arg32 v] = Ret ds /\ lenZ ds = w
  /\ Forall (digit_in 8) ds /\ num_from 8 0 ds = v.

Lemma octal_field_07o v : 0 <= v < 8 ^ 7 -> octal_field (chars "%07o") 7 v.
Proof.
  intros H. destruct (octal_digits 7 v) as (ds & E & P); [lia|exact H|unfold inU; lia|].
  exists ds. split; [|exact P]. apply (printed_octal [48; 55; 111] 7 v ds); [reflexivity..|exact E].
Qed.

Lemma octal_field_011o v : 0 <= v < 8 ^ 11 -> octal_field (chars "%011o") 11 v.
Proof.
  intros H. destruct (octal_digits 11 v) as (ds & E & P); [lia|exact H|unfold inU; lia|].
  exists ds. split; [|exact P].
  apply (printed_octal [48; 49; 49; 111] 11 v ds); [reflexivity..|exact E].
Qed.

Lemma octal_loop_ok ds : forall n h p ofs a,
  Forall (digit_in 8) ds -> (length ds < n)%nat -> 0 <= ofs -> 0 < ofs + lenZ ds -> 0 <= a ->
  num_from 8 a ds < 2 ^ 32 ->
  (forall k, 0 <= k <= lenZ ds -> geti h (p + ofs + k) = geti (ds ++ [0]) k) ->
  octal_loop n h p ofs a = Ret (Some (num_from 8 a ds)).
Proof.
  induction ds as [|c ds IH]; intros [|n] h p ofs a F Hn Ho Hpos Ha Hv Hh; try (cbn in Hn; lia);
    cbn [octal_loop]; unfold load.
  - specialize (Hh 0 ltac:(unfold lenZ; cbn; lia)). rewrite Z.add_0_r in Hh. rewrite Hh.
    cbn [geti app the mbind res_bind]. change (lenZ []) with 0 in Hpos.
    cbn. rewrite (proj2 (Z.ltb_lt 0 ofs)) by lia. reflexivity.
  - pose proof (Hh 0 ltac:(unfold lenZ; cbn; lia)) as H0. rewrite Z.add_0_r in H0. rewrite H0.
    change (geti ((c :: ds) ++ [0]) 0) with (Some c). cbn [the mbind res_bind].
    apply Forall_cons in F as (Hc & F). unfold digit_in in Hc.
    rewrite (proj2 (Z.leb_le 48 c)), (proj2 (Z.leb_le c 55)) by lia. cbn [andb].
    change (num_from 8 a (c :: ds)) with (num_from 8 (a * 8 + (c - 48)) ds) in *.
    pose proof (num_from_le 8 (a * 8 + (c - 48)) ds ltac:(lia) ltac:(lia) F) as Hle.
    rewrite (proj2 (Z.ltb_ge ((2 ^ 32 - 1) / 8) a))
      by (apply Z.div_le_lower_bound; lia).
    rewrite wrap_id by (unfold inU; lia). replace (c - 48 + a * 8) with (a * 8 + (c - 48)) by lia.
    apply IH; auto; try lia.
    + cbn in Hn. lia.
    + unfold lenZ in *. cbn [length] in Hpos. lia.
    + intros k Hk. specialize (Hh (k + 1)). cbn [app] in Hh. rewrite geti_cons in Hh by lia.
      rewrite <- Hh by (unfold lenZ in *; cbn [length]; lia). f_equal. lia.
Qed.

(** A field written as digits and a terminator parses to its value. *)
Lemma parse_written h p ds size :
  Forall (digit_in 8) ds -> 0 < lenZ ds < size -> num_from 8 0 ds < 2 ^ 32 ->
  (forall k, 0 <= k <= lenZ ds -> geti h (p + k) = geti (ds ++ [0]) k) ->
  parse_octal_field h p size = Ret (Some (num_from 8 0 ds)).
Proof.
  intros F Hl Hv Hh. apply octal_loop_ok; auto; try lia; [unfold lenZ in *; lia|].
  intros k Hk. rewrite Z.add_0_r. auto.
Qed.

(** ** The checksum *)

Lemma chksum_same n : forall h h' i c,
  0 <= i -> i + Z.of_nat n <= lenZ h -> lenZ h' = lenZ h ->
  (forall x, x < ofs_chksum \/ ofs_chksum + 8 <= x -> geti h' x = geti h x) ->
  chksum_loop n h' i c = chksum_loop n h i c.
Proof.
  induction n as [|n IH]; intros h h' i c Hi Hl Hl' Hx; [reflexivity|]. cbn [chksum_loop].
  destruct (load_ok h i) as (a & E & Ea); [lia|]. destruct (load_ok h' i) as (b & E' & Eb); [lia|].
  rewrite E, E'. cbn [mbind res_bind]. rewrite (IH h h') by (auto; lia). f_equal. do 2 f_equal.
  destruct (Z.leb_spec ofs_chksum i), (Z.ltb_spec i (ofs_chksum + 8)); cbn [andb]; try reflexivity;
    rewrite Hx in Eb by lia; congruence.
Qed.

Definition bytes (h : list Z) : Prop := forall x c, geti h x = Some c -> 0 <= c < 256.

Lemma chksum_bound n : forall h i c,
  bytes h -> 0 <= i -> i + Z.of_nat n <= lenZ h -> 0 <= c -> c + 255 * Z.of_nat n < 2 ^ 32 ->
  exists s, chksum_loop n h i c = Ret s /\ 0 <= s <= c + 255 * Z.of_nat n.
Proof.
  induction n as [|n IH]; intros h i c Hb Hi Hl Hc Hs; cbn [chksum_loop].
  - exists c. split; [reflexivity|lia].
  - destruct (load_ok h i) as (a & -> & Ea); [lia|]. cbn [mbind res_bind].
    pose proof (Hb _ _ Ea).
    set (d := if (ofs_chksum <=? i) && (i <? ofs_chksum + 8) then 32 else a).
    assert (0 <= d < 256) by (unfold d; destruct (_ && _); lia).
    rewrite wrap_id by (unfold inU; lia).
    destruct (IH h (i + 1) (c + d)) as (s & -> & Hs'); auto; try lia.
    exists s. split; [reflexivity|lia].
Qed.

Lemma bytes_written m p l m' : bytes m -> Forall (fun c => 0 <= c < 256) l -> written m p l m' -> bytes m'.
Proof.
  intros Hm Hl (_ & G) x c Ex. rewrite G in Ex. destruct (_ && _); [|eauto].
  unfold geti in Ex. destruct (_ <? _); [discriminate|].
  rewrite Forall_lookup in Hl. eauto.
Qed.

(** ** Stripping *)

(** [antisocial] never reads past the terminator, and finds a slash. *)
Lemma antisocial_total n : Forall (fun c => 0 < c < 256) n ->
  exists b, antisocial n = Ret b /\ (b = true -> 47 ∈ n).
Proof.
  intros F. unfold antisocial.
  destruct n as [|a n]; [exists false; split; [reflexivity|discriminate]|].
  cbn [peek]. destruct (Z.eqb_spec a 47) as [->|Ha]; [exists true; split; [reflexivity|]; intros _; left|].
  unfold memcmp. change (Z.to_nat 2) with 2%nat. change (Z.to_nat 3) with 3%nat.
  cbn [memcmp_loop].
  change (load (chars "./") 0) with (Ret 46). change (load (chars "../") 0) with (Ret 46).
  change (load ((a :: n) ++ [0]) 0) with (Ret a). cbn [mbind res_bind].
  destruct (Z.eqb_spec a 46) as [->|Ha']; cbn [negb].
  2: { destruct (46 <? a); exists false; (split; [reflexivity|discriminate]). }
  change (0 + 1) with 1. change (load (chars "./") 1) with (Ret 47).
  change (load (chars "../") 1) with (Ret 46).
  destruct n as [|b n].
  { exists false. split; [reflexivity|discriminate]. }
  change (load ((46 :: b :: n) ++ [0]) 1) with (Ret b). cbn [mbind res_bind].
  destruct (Z.eqb_spec b 47) as [->|Hb]; cbn [negb].
  { exists true. split; [reflexivity|]. intros _. right. left. }
  assert (Hr : forall r : Z, ((if 47 <? b then 1 else -1) =? 0) = false) by (intros; destruct (47 <? b); reflexivity).
  cbn [mret res_ret mbind res_bind]. rewrite (Hr 0).
  destruct (Z.eqb_spec b 46) as [->|Hb']; cbn [negb].
  2: { destruct (46 <? b); exists false; (split; [reflexivity|discriminate]). }
  change (1 + 1) with 2. change (load (chars "../") 2) with (Ret 47).
  destruct n as [|c n].
  { exists false. split; [reflexivity|discriminate]. }
  change (load ((46 :: 46 :: c :: n) ++ [0]) 2) with (Ret c). cbn [mbind res_bind].
  destruct (Z.eqb_spec c 47) as [->|Hc]; cbn [negb].
  { exists true. split; [reflexivity|]. intros _. right. right. left. }
  destruct (47 <? c); exists false; (split; [reflexivity|discriminate]).
Qed.

Lemma strchr_split n : 47 ∈ n ->
  exists pre rest, strchr n 47 = Some (47 :: rest) /\ n = pre ++ 47 :: rest.
Proof.
  unfold strchr. change (wrap 8 47) with 47.
  induction n as [|a n IH]; intros H; [inversion H|]. cbn [strchr_loop].
  destruct (Z.eqb_spec a 47) as [->|Ha]; [exists [], n; auto|].
  destruct IH as (pre & rest & E & ->); [inversion H; [congruence|assumption]|].
  exists (a :: pre), rest. auto.
Qed.

Lemma strip_loop_ok fuel : forall n,
  Forall (fun c => 0 < c < 256) n -> (length n < fuel)%nat ->
  exists n', strip_loop fuel n = Ret n' /\ antisocial n' = Ret false
  /\ Forall (fun c => 0 < c < 256) n' /\ n' `suffix_of` n.
Proof.
  induction fuel as [|fuel IH]; intros n F Hf; [lia|]. cbn [strip_loop].
  destruct (antisocial_total n F) as (b & E & Hb). rewrite E. cbn [mbind res_bind].
  destruct b; [|exists n; auto].
  destruct (strchr_split n (Hb eq_refl)) as (pre & rest & -> & En).
  cbn [the advance mbind res_bind].
  destruct (IH rest) as (n' & E' & A' & F' & S').
  - rewrite En in F. apply Forall_app in F as (_ & F). apply Forall_cons in F. apply F.
  - rewrite En, length_app in Hf. cbn in Hf. lia.
  - exists n'. split; [exact E'|]. split; [exact A'|]. split; [exact F'|].
    destruct S' as (k & ->). exists (pre ++ 47 :: k). rewrite En, <- app_assoc. reflexivity.
Qed.

(** A name that stripping leaves alone. *)
Record clean (n : list Z) : Prop := {
  clean_social : antisocial n = Ret false;
  clean_nonempty : (peek n =? 0) || (strcmp n (chars "..") =? 0) = false;
  clean_ok : Forall (fun c => 0 < c < 256) n }.

Lemma strip_clean n : clean n -> strip_antisocial_prefixes n = Ret n.
Proof.
  intros [Hs Hn _]. unfold strip_antisocial_prefixes. cbn [strip_loop]. rewrite Hs.
  cbn [mbind res_bind mret res_ret]. rewrite Hn. reflexivity.
Qed.

Lemma strip_makes_clean n : Forall (fun c => 0 < c < 256) n ->
  exists n', strip_antisocial_prefixes n = Ret n' /\ clean n'.
Proof.
  intros F. unfold strip_antisocial_prefixes.
  destruct (strip_loop_ok (S (length n)) n F ltac:(lia)) as (n' & -> & A & F' & _).
  cbn [mbind res_bind].
  destruct ((peek n' =? 0) || (strcmp n' (chars "..") =? 0)) eqn:E; eexists; (split; [reflexivity|]).
  - split; [reflexivity|reflexivity|]. repeat constructor.
  - split; auto.
Qed.

(** ** A composed header *)

(** What the parser reads in a header: the name, type and size fields and
    valid magic, version and checksum. *)
Record image (name : list Z) (type size : Z) (h : list Z) : Prop := {
  im_len : lenZ h = 512;
  im_name : forall k, 0 <= k <= lenZ name -> geti h k = geti (name ++ [0]) k;
  im_last : geti h 99 = Some 0;
  im_size : exists ds, lenZ ds = 11 /\ Forall (digit_in 8) ds /\ num_from 8 0 ds = size
    /\ forall k, 0 <= k <= 11 -> geti h (ofs_size + k) = geti (ds ++ [0]) k;
  im_type : geti h ofs_typeflag = Some type;
  im_magic : forall k, 0 <= k < 6 -> geti h (ofs_magic + k) = geti (chars "ustar" ++ [0]) k;
  im_version : geti h ofs_version = Some 48 /\ geti h (ofs_version + 1) = Some 48;
  im_prefix : geti h ofs_prefix = Some 0;
  im_sum : exists ds, lenZ ds = 7 /\ Forall (digit_in 8) ds
    /\ calculate_chksum h = Ret (num_from 8 0 ds) /\ num_from 8 0 ds < 8 ^ 7
    /\ forall k, 0 <= k <= 7 -> geti h (ofs_chksum + k) = geti (ds ++ [0]) k }.

Lemma written_len m p l m' : written m p l m' -> lenZ m' = lenZ m.
Proof. intros (H & _). exact H. Qed.

Lemma lenZ_snoc (l : list Z) c : lenZ (l ++ [c]) = lenZ l + 1.
Proof. rewrite lenZ_app. reflexivity. Qed.

Lemma octal_bytes ds : Forall (digit_in 8) ds -> Forall (fun c => 0 <= c < 256) (ds ++ [0]).
Proof.
  intros F. apply Forall_app; split; [|repeat constructor; lia].
  eapply Forall_impl; [exact F|]. unfold digit_in. intros; lia.
Qed.

Lemma name_bytes n : Forall (fun c => 0 < c < 256) n -> Forall (fun c => 0 <= c < 256) (n ++ [0]).
Proof.
  intros F. apply Forall_app; split; [|repeat constructor; lia].
  eapply Forall_impl; [exact F|]. cbn. intros; lia.
Qed.

Lemma byte_bytes c : 0 <= c < 256 -> Forall (fun c => 0 <= c < 256) [c].
Proof. intros. constructor; [assumption|constructor]. Qed.


(** A sequence of writes, and the byte it leaves at [x]. *)
Inductive wrote : list Z -> list (Z * list Z) -> list Z -> Prop :=
| wrote_nil m : wrote m [] m
| wrote_cons m p l m1 W m' : written m p l m1 -> wrote m1 W m' -> wrote m ((p, l) :: W) m'.

Fixpoint after (W : list (Z * list Z)) (old : option Z) (x : Z) : option Z :=
  match W with
  | [] => old
  | (p, l) :: W => after W (if (p <=? x) && (x <? p + lenZ l) then geti l (x - p) else old) x
  end.

Lemma wrote_get m W m' x : wrote m W m' -> geti m' x = after W (geti m x) x.
Proof.
  induction 1 as [|m p l m1 W m' (_ & G) _ IH]; [reflexivity|]. cbn [after]. rewrite IH, G. reflexivity.
Qed.

Lemma wrote_len m W m' : wrote m W m' -> lenZ m' = lenZ m.
Proof. induction 1 as [|m p l m1 W m' (L & _) _ IH]; congruence. Qed.

Lemma wrote_bytes m W m' : bytes m -> Forall (fun w => Forall (fun c => 0 <= c < 256) w.2) W ->
  wrote m W m' -> bytes m'.
Proof.
  intros Hb F H. induction H as [|m p l m1 W m' Hw _ IH]; [exact Hb|].
  apply Forall_cons in F as (Fl & F). apply IH; [eapply bytes_written; eassumption|exact F].
Qed.

Lemma in_range p x q : p <= x -> x < q -> (p <=? x) && (x <? q) = true.
Proof. intros. apply andb_true_iff. split; [apply Z.leb_le|apply Z.ltb_lt]; assumption. Qed.
Lemma out_range p x q : x < p \/ q <= x -> (p <=? x) && (x <? q) = false.
Proof. intros [|]; [rewrite (proj2 (Z.leb_gt _ _)) by lia; reflexivity|].
  rewrite (proj2 (Z.ltb_ge x q)) by lia. apply andb_false_r. Qed.

(** Decide which of the writes covers the byte. *)
Ltac pick_write :=
  cbn [after]; rewrite ?lenZ_snoc;
  repeat match goal with
  | |- context [(?p <=? ?x) && (?x <? ?q)] =>
      first [rewrite (out_range p x q) by lia | rewrite (in_range p x q) by lia]
  end.

Lemma then_write m n p l W (step : res (list Z)) (K : list Z -> res (list Z)) :
  lenZ m = n -> (exists m1, step = Ret m1 /\ written m p l m1) ->
  (forall m1, lenZ m1 = n -> exists h, K m1 = Ret h /\ wrote m1 W h) ->
  exists h, (step ≫= K) = Ret h /\ wrote m ((p, l) :: W) h.
Proof.
  intros Hn (m1 & -> & Hw) H. cbn [mbind res_bind].
  destruct (H m1) as (h & E & Hh); [rewrite (written_len _ _ _ _ Hw); exact Hn|].
  exists h. split; [exact E|]. econstructor; eassumption.
Qed.

Lemma last_write m p l (step : res (list Z)) :
  (exists m1, step = Ret m1 /\ written m p l m1) -> exists h, step = Ret h /\ wrote m [(p, l)] h.
Proof. intros (m1 & E & Hw). exists m1. split; [exact E|]. econstructor; [exact Hw|constructor]. Qed.

(** The writes of [fill_header]; [d2], [d5] and [d6] are the printed fields. *)
Definition header_writes (name d2 d5 d6 : list Z) (type : Z) : list (Z * list Z) :=
  [(0, name ++ [0]); (100, d2 ++ [0]); (108, chars "0000000" ++ [0]);
   (116, chars "0000000" ++ [0]); (124, d5 ++ [0]); (136, d6 ++ [0]); (156, [type]);
   (257, chars "ustar" ++ [0]); (264, [48]); (263, [48]);
   (297, chars "root" ++ [0]); (265, chars "root" ++ [0])].

Lemma fill_header_writes name type size header :
  lenZ name <= 99 -> 0 <= size < 2 ^ 31 -> lenZ header = 512 ->
  exists h0 d2 d5 d6 h, fill_header header name type size = Ret h
  /\ lenZ h0 = 512 /\ (forall x, 0 <= x < 512 -> geti h0 x = Some 0)
  /\ (lenZ d2 = 7 /\ Forall (digit_in 8) d2)
  /\ (lenZ d5 = 11 /\ Forall (digit_in 8) d5 /\ num_from 8 0 d5 = size)
  /\ (lenZ d6 = 11 /\ Forall (digit_in 8) d6)
  /\ wrote h0 (header_writes name d2 d5 d6 type) h.
Proof.
  intros Hn Hs Hl. assert (0 <= lenZ name) by (unfold lenZ; lia). unfold fill_header, memset.
  unfold ofs_name, ofs_mode, ofs_uid, ofs_gid, ofs_size, ofs_mtime, ofs_typeflag, ofs_magic,
    ofs_version, ofs_uname, ofs_gname. change (263 + 1) with 264.
  destruct (memset_loop_ok 512 header 0 0) as (h0 & E0 & L0 & G0); [lia|lia|].
  change (Z.to_nat USTAR_HEADER_SIZE) with 512%nat. rewrite E0. rewrite Hl in L0.
  cbn [mbind res_bind mret res_ret].
  destruct (octal_field_07o (if type =? USTAR_REGULAR then 420 else 493)) as (d2 & P2 & D2 & F2 & _);
    [destruct (_ =? _); lia|].
  assert (Ew : wrap 32 size = size) by (apply wrap_id; unfold inU; lia). rewrite Ew.
  destruct (octal_field_011o size) as (d5 & P5 & D5 & F5 & V5); [lia|].
  destruct (octal_field_011o 1136102400) as (d6 & P6 & D6 & F6 & _); [lia|].
  assert (N0 : lenZ (chars "0000000") = 7) by reflexivity.
  assert (Nm : lenZ (chars "ustar") = 5) by reflexivity.
  assert (Nr : lenZ (chars "root") = 4) by reflexivity.
  exists h0, d2, d5, d6.
  match goal with |- exists h, ?step = _ /\ _ /\ _ /\ _ /\ _ /\ _ /\ wrote _ ?W _ =>
    enough (exists h, step = Ret h /\ wrote h0 W h) as (h & E & Hw) end.
  { exists h. split; [exact E|]. split; [exact L0|]. split; [|auto 6].
    intros x Hx. rewrite G0, in_range by lia. reflexivity. }
  apply (then_write _ 512); [exact L0|apply strlcpy_at_written; lia|intros h1 L1].
  apply (then_write _ 512); [exact L1|apply snprintf_at_written; [lia..|exact P2]|intros h2 L2].
  apply (then_write _ 512); [exact L2|apply strlcpy_at_written; lia|intros h3 L3].
  apply (then_write _ 512); [exact L3|apply strlcpy_at_written; lia|intros h4 L4].
  apply (then_write _ 512); [exact L4|apply snprintf_at_written; [lia..|exact P5]|intros h5 L5].
  apply (then_write _ 512); [exact L5|apply snprintf_at_written; [lia..|exact P6]|intros h6 L6].
  apply (then_write _ 512); [exact L6|apply store_written; lia|intros h7 L7].
  apply (then_write _ 512); [exact L7|apply strlcpy_at_written; lia|intros h8 L8].
  apply (then_write _ 512); [exact L8|apply store_written; lia|intros h9 L9].
  apply (then_write _ 512); [exact L9|apply store_written; lia|intros ha La].
  apply (then_write _ 512); [exact La|apply strlcpy_at_written; lia|intros hb Lb].
  apply last_write, strlcpy_at_written; lia.
Qed.

Lemma writes_image name type size h0 d2 d5 d6 h1 d7 h :
  lenZ name <= 99 -> lenZ h0 = 512 -> (forall x, 0 <= x < 512 -> geti h0 x = Some 0) ->
  lenZ d2 = 7 -> lenZ d5 = 11 -> Forall (digit_in 8) d5 -> num_from 8 0 d5 = size -> lenZ d6 = 11 ->
  lenZ d7 = 7 -> Forall (digit_in 8) d7 -> calculate_chksum h1 = Ret (num_from 8 0 d7) ->
  num_from 8 0 d7 < 8 ^ 7 -> wrote h0 (header_writes name d2 d5 d6 type) h1 ->
  written h1 ofs_chksum (d7 ++ [0]) h -> image name type size h.
Proof.
  unfold header_writes. intros Hn L0 Z0 D2 D5 F5 V5 D6 D7 F7 Es B7 W1 W.
  assert (0 <= lenZ name) by (unfold lenZ; lia).
  pose proof (written_len _ _ _ _ W) as L. pose proof (wrote_len _ _ _ W1) as L1.
  rewrite L1, L0 in L. unfold ofs_chksum in W.
  assert (Hout : forall x, x < 148 \/ 156 <= x -> geti h x = geti h1 x)
    by (intros x Hx; apply (written_out _ _ _ _ _ W); rewrite lenZ_snoc; lia).
  assert (N0 : lenZ (chars "0000000") = 7) by reflexivity.
  assert (Nm : lenZ (chars "ustar") = 5) by reflexivity.
  assert (Nr : lenZ (chars "root") = 4) by reflexivity.
  assert (N1 : forall c : Z, lenZ [c] = 1) by reflexivity.
  pose proof (fun x => wrote_get _ _ _ x W1) as Hget.
  split; unfold ofs_size, ofs_typeflag, ofs_magic, ofs_version, ofs_prefix, ofs_chksum.
  - exact L.
  - intros k Hk. rewrite Hout, Hget by lia. pick_write. f_equal. lia.
  - rewrite Hout, Hget, Z0 by lia. cbn [after]. rewrite ?lenZ_snoc, ?N1.
    destruct (Z.eq_dec (lenZ name) 99) as [E9|].
    + pick_write. rewrite <- E9, Z.sub_0_r. unfold geti, lenZ.
      rewrite (proj2 (Z.ltb_ge _ _)), Nat2Z.id by lia. apply list_lookup_middle. reflexivity.
    + pick_write. reflexivity.
  - exists d5. split; [exact D5|]. split; [exact F5|]. split; [exact V5|]. intros k Hk.
    rewrite Hout, Hget by lia. cbn [after]. rewrite ?N1. pick_write. f_equal. lia.
  - rewrite Hout, Hget by lia. cbn [after]. rewrite ?N1. pick_write. reflexivity.
  - intros k Hk. rewrite Hout, Hget by lia. cbn [after]. rewrite ?N1. pick_write. f_equal. lia.
  - rewrite !Hout, !Hget by lia. cbn [after]. rewrite ?N1. pick_write. split; reflexivity.
  - rewrite Hout, Hget, Z0 by lia. cbn [after]. rewrite ?N1. pick_write. reflexivity.
  - exists d7. split; [exact D7|]. split; [exact F7|]. split; [|split; [exact B7|]].
    + rewrite <- Es. apply chksum_same; [lia|rewrite L1, L0; reflexivity| |exact Hout].
      rewrite L, L1, L0. reflexivity.
    + intros k Hk. rewrite (written_at _ _ _ _ _ W) by (rewrite lenZ_snoc; lia). f_equal. lia.
Qed.

Lemma make_header_image file_name name type size header :
  strip_antisocial_prefixes file_name = Ret name -> clean name -> lenZ name <= 99 ->
  type = USTAR_REGULAR \/ type = USTAR_DIRECTORY -> 0 <= size < 2 ^ 31 -> lenZ header = 512 ->
  exists h, ustar_make_header file_name type size header = Ret (true, h) /\ image name type size h.
Proof.
  intros Hst Hc Hn Ht Hs Hl. assert (0 <= lenZ name) by (unfold lenZ; lia).
  destruct (fill_header_writes name type size header Hn Hs Hl)
    as (h0 & d2 & d5 & d6 & h1 & E1 & L0 & Z0 & (D2 & F2) & (D5 & F5 & V5) & (D6 & F6) & W1).
  pose proof (wrote_len _ _ _ W1) as L1. rewrite L0 in L1.
  assert (B1 : bytes h1).
  { eapply wrote_bytes; [|..|exact W1].
    - intros x c Ex. pose proof (geti_Some_lt _ _ _ Ex). rewrite Z0 in Ex by lia.
      injection Ex as <-. lia.
    - assert (0 <= type < 256) by (destruct Ht as [-> | ->]; unfold USTAR_REGULAR, USTAR_DIRECTORY; lia).
      repeat (apply Forall_cons_2; [cbn [snd]; first
        [apply octal_bytes; assumption|apply name_bytes, clean_ok; exact Hc
        |apply name_bytes; repeat constructor|apply byte_bytes; lia]|]).
      constructor. }
  destruct (chksum_bound 512 h1 0 0) as (sum & Es & Hsum); [exact B1|lia..|].
  change (calculate_chksum h1 = Ret sum) in Es.
  destruct (octal_field_07o sum) as (d7 & P7 & D7 & F7 & V7); [lia|].
  destruct (snprintf_at_written h1 ofs_chksum 8 _ _ d7 ltac:(unfold ofs_chksum; lia) ltac:(lia)
              ltac:(unfold ofs_chksum; lia) P7) as (h & E & W).
  exists h. split.
  - unfold ustar_make_header. rewrite Hst.
    assert ((type =? USTAR_REGULAR) || (type =? USTAR_DIRECTORY) = true) as ->
      by (destruct Ht as [-> | ->]; reflexivity).
    cbn [assert mbind res_bind]. rewrite strlen_len, (proj2 (Z.ltb_ge 99 (lenZ name))) by lia.
    rewrite E1. cbn [mbind res_bind]. rewrite Es. cbn [mbind res_bind]. rewrite E. reflexivity.
  - rewrite <- V7 in Es, Hsum. apply (writes_image name type size h0 d2 d5 d6 h1 d7 h); auto. lia.
Qed.

(** ** Parsing it back *)

Lemma zeros_loop_false n : forall h p x c,
  0 <= p -> p + Z.of_nat n <= lenZ h -> p <= x < p + Z.of_nat n -> geti h x = Some c -> c <> 0 ->
  zeros_loop n h p = Ret false.
Proof.
  induction n as [|n IH]; intros h p x c Hp Hl Hx Ex Hc; [lia|]. cbn [zeros_loop].
  destruct (load_ok h p) as (a & -> & Ea); [lia|]. cbn [mbind res_bind].
  destruct (Z.eqb_spec a 0) as [->|Ha]; cbn [negb]; [|reflexivity].
  apply (IH h (p + 1) x c); auto; try lia.
  destruct (Z.eq_dec x p) as [->|]; [congruence|lia].
Qed.

Lemma image_has_str name type size h : clean name -> image name type size h -> has_str h 0 name.
Proof.
  intros Hc Hi. assert (0 <= lenZ name) by (unfold lenZ; lia). split; [lia| | |apply clean_ok, Hc].
  - intros k c Ek. pose proof (geti_Some_lt _ _ _ Ek). rewrite Z.add_0_l, (im_name _ _ _ _ Hi) by lia.
    unfold geti, lenZ in *. destruct (k <? 0); [discriminate|]. rewrite lookup_app_l by lia. exact Ek.
  - rewrite Z.add_0_l, (im_name _ _ _ _ Hi) by lia. unfold geti, lenZ.
    rewrite (proj2 (Z.ltb_ge _ _)), Nat2Z.id by lia. apply list_lookup_middle. reflexivity.
Qed.

Lemma load_get h x c : geti h x = Some c -> load h x = Ret c.
Proof. unfold load. intros ->. reflexivity. Qed.

Lemma image_magic name type size h : image name type size h ->
  memcmp (drop (Z.to_nat ofs_magic) h) (chars "ustar" ++ [0]) 6 = Ret 0.
Proof.
  intros Hi. pose proof (im_len _ _ _ _ Hi) as L. unfold memcmp, ofs_magic.
  assert (Ld : lenZ (drop (Z.to_nat 257) h) = 255) by (unfold lenZ in *; rewrite length_drop; lia).
  destruct (memcmp_loop_prefix 6 (drop (Z.to_nat 257) h) (chars "ustar" ++ [0]) 0)
    as (r & E & Hr); [lia|lia|change (lenZ (chars "ustar" ++ [0])) with 6; lia|].
  change (Z.to_nat 6) with 6%nat. rewrite E. f_equal. apply Hr. intros k Hk.
  rewrite <- (im_magic _ _ _ _ Hi) by lia. unfold geti, ofs_magic.
  rewrite !(proj2 (Z.ltb_ge _ _)) by lia. rewrite lookup_drop. f_equal. lia.
Qed.

(** C31: [ustar_parse_header] of the header [ustar_make_header] composes gives
    the stripped name and the type, and the size of a regular file, whatever
    the buffer held; a stripped name of more than 99 characters is refused. *)
Theorem ustar_roundtrip file_name type size header :
  Forall (fun c => 0 < c < 256) file_name ->
  type = USTAR_REGULAR \/ type = USTAR_DIRECTORY -> 0 <= size < 2 ^ 31 -> lenZ header = 512 ->
  exists name, strip_antisocial_prefixes file_name = Ret name
  /\ if 99 <? lenZ name
     then ustar_make_header file_name type size header = Ret (false, header)
     else exists h, ustar_make_header file_name type size header = Ret (true, h)
          /\ ustar_parse_header h
             = Ret (Entry name type (if type =? USTAR_REGULAR then size else 0)).
Proof.
  intros F Ht Hs Hl. destruct (strip_makes_clean file_name F) as (name & Est & Hc).
  exists name. split; [exact Est|]. destruct (Z.ltb_spec 99 (lenZ name)) as [Hn|Hn].
  { unfold ustar_make_header. rewrite Est.
    assert ((type =? USTAR_REGULAR) || (type =? USTAR_DIRECTORY) = true) as ->
      by (destruct Ht as [-> | ->]; reflexivity).
    cbn [assert mbind res_bind]. rewrite strlen_len, (proj2 (Z.ltb_lt 99 (lenZ name))) by lia.
    reflexivity. }
  destruct (make_header_image file_name name type size header Est Hc Hn Ht Hs Hl) as (h & E & Hi).
  exists h. split; [exact E|]. pose proof (im_len _ _ _ _ Hi) as L. unfold ustar_parse_header.
  assert (H512 : Z.of_nat (Z.to_nat USTAR_HEADER_SIZE) = 512) by reflexivity.
  unfold is_all_zeros. rewrite (zeros_loop_false _ h 0 ofs_version 48);
    [|lia|lia|unfold ofs_version; lia|apply (im_version _ _ _ _ Hi)|lia].
  cbn [mbind res_bind]. rewrite (image_magic _ _ _ _ Hi). cbn [mbind res_bind nz Z.eqb negb].
  destruct (im_version _ _ _ _ Hi) as (V0 & V1).
  rewrite (load_get _ _ _ V0), (load_get _ _ _ V1). cbn [mbind res_bind].
  change (negb (48 =? 48) || negb (48 =? 48)) with false. cbv iota.
  destruct (im_sum _ _ _ _ Hi) as (d7 & D7 & F7 & Es & B7 & G7).
  rewrite (parse_written h ofs_chksum d7 8 F7) by (try lia; rewrite D7; exact G7).
  cbn [mbind res_bind]. rewrite Es. cbn [mbind res_bind]. rewrite Z.eqb_refl. cbn [negb].
  rewrite (load_get _ _ _ (im_last _ _ _ _ Hi) : load h (ofs_name + 99) = _).
  rewrite (load_get _ _ _ (im_prefix _ _ _ _ Hi)), (load_get _ _ _ (im_type _ _ _ _ Hi)).
  cbn [mbind res_bind nz Z.eqb negb orb].
  assert (negb (type =? USTAR_REGULAR) && negb (type =? USTAR_DIRECTORY) = false) as ->
    by (destruct Ht as [-> | ->]; reflexivity).
  destruct (im_size _ _ _ _ Hi) as (d5 & D5 & F5 & V5 & G5).
  assert ((if type =? USTAR_REGULAR then parse_octal_field h ofs_size 12 else mret (Some 0))
          = Ret (Some (if type =? USTAR_REGULAR then size else 0))) as ->.
  { destruct (type =? USTAR_REGULAR); [|reflexivity].
    rewrite (parse_written h ofs_size d5 12 F5), V5 by (try lia; rewrite D5; exact G5). reflexivity. }
  cbn [mbind res_bind]. rewrite (proj2 (Z.ltb_ge (2 ^ 31 - 1) _)) by (destruct (_ =? _); lia).
  rewrite (string_at_has _ _ _ (image_has_str _ _ _ _ Hc Hi) : string_at h ofs_name = _).
  cbn [mbind res_bind]. rewrite strip_clean by exact Hc. reflexivity.
Qed.

Lemma ustar_roundtrip_witness :
  exists h, ustar_make_header (chars "../etc/passwd") USTAR_REGULAR 1234 (replicate 512 255)
            = Ret (true, h)
  /\ ustar_parse_header h = Ret (Entry (chars "etc/passwd") USTAR_REGULAR 1234).
Proof.
  destruct (ustar_roundtrip (chars "../etc/passwd") USTAR_REGULAR 1234 (replicate 512 255))
    as (name & E & H);
    [repeat constructor|left; reflexivity|lia|reflexivity|].
  vm_compute in E. injection E as <-. exact H.
Defined.
