(* ===== verification/Strtol.v ===== *)
(** * Number parsing with [strtol]

    [strtol] and [strtoll] of [lib/stdio.c], with the characters of
    [lib/ctype.h] they need, and the numbers [%x] prints.  A pointer into the
    string is the rest of the string from there on, as in [Printf] and
    [Cstring]; [long] has 32 bits. *)

From Stdlib Require Import ZArith Lia Bool Ascii String.
From stdpp Require Import base list.
From S2P Require Import Prelude Printf.

Definition LONG_MAX : Z := 2 ^ 31 - 1.
Definition LONG_MIN : Z := - 2 ^ 31.

Definition islower (c : Z) : bool := (97 <=? c) && (c <=? 122).
Definition isupper (c : Z) : bool := (65 <=? c) && (c <=? 90).
Definition isalpha (c : Z) : bool := islower c || isupper c.

(** The value of a character as a digit; [None] ends the number. *)
Definition digit_of (base c : Z) : option Z :=
  if isdigit c then (if base <=? c - 48 then None else Some (c - 48))
  else if isalpha c then
    let d := c - (if isupper c then 65 - 10 else 97 - 10) in
    if base <=? d then None else Some d
  else None.

(** One digit: the new [any] and [acc]. *)
Definition strtol_step (neg : bool) (base cutoff cutlim c acc : Z) : Z * Z :=
  if neg then
    if (acc <? cutoff) || ((acc =? cutoff) && (cutlim <? c)) then (-1, LONG_MIN)
    else (1, sgn 32 (sgn 32 (acc * base) - c))
  else
    if (cutoff <? acc) || ((acc =? cutoff) && (cutlim <? c)) then (-1, LONG_MAX)
    else (1, sgn 32 (sgn 32 (acc * base) + c)).

Fixpoint strtol_loop (s : list Z) (neg : bool) (base cutoff cutlim acc any : Z) : Z * Z * list Z :=
  match s with
  | [] => (acc, any, s)
  | c :: t =>
    match digit_of base c with
    | None => (acc, any, s)
    | Some d =>
      if any <? 0 then strtol_loop t neg base cutoff cutlim acc any
      else
        let '(any, acc) := strtol_step neg base cutoff cutlim d acc in
        strtol_loop t neg base cutoff cutlim acc any
    end
  end.

(** The number and where it ends. *)
Definition strtol (nptr : list Z) (base : Z) : Z * list Z :=
  let s := skip_space nptr in
  let '(neg, s) :=
    if peek s =? 45 then (true, tail s) else (false, if peek s =? 43 then tail s else s) in
  let '(s, base) :=
    if ((base =? 0) || (base =? 16)) && (peek s =? 48)
       && ((peek (tail s) =? 120) || (peek (tail s) =? 88))
    then (drop 2 s, 16) else (s, base) in
  let base := if base =? 0 then (if peek s =? 48 then 8 else 10) else base in
  let cutoff := if neg : bool then LONG_MIN else LONG_MAX in
  let cutlim := Z.rem cutoff base in
  let cutoff := Z.quot cutoff base in
  let '(cutlim, cutoff) :=
    if neg then
      let '(cutlim, cutoff) := if 0 <? cutlim then (cutlim - base, cutoff + 1) else (cutlim, cutoff) in
      (- cutlim, cutoff)
    else (cutlim, cutoff) in
  let '(acc, any, s) := strtol_loop s neg base cutoff cutlim 0 0 in
  (acc, if any =? 0 then nptr else s).

Definition strtoll (nptr : list Z) (base : Z) : Z * list Z := strtol nptr base.

(** ** What it computes *)

(** The value of digits, most significant first, after [a]. *)
Definition value_from (base a : Z) (ds : list Z) : Z := fold_left (fun a d => a * base + d) ds a.

(** [cs] are characters of the digits [ds]. *)
Definition digit_chars (base : Z) (cs ds : list Z) : Prop :=
  Forall2 (fun c d => digit_of base c = Some d) cs ds.

Definition clamp (x : Z) : Z := Z.max LONG_MIN (Z.min LONG_MAX x).

Lemma digit_of_range base c d : digit_of base c = Some d -> 0 <= d < base.
Proof.
  unfold digit_of, isdigit, isalpha, islower, isupper.
  destruct (Z.leb_spec 48 c), (Z.leb_spec c 57), (Z.leb_spec 97 c), (Z.leb_spec c 122),
    (Z.leb_spec 65 c), (Z.leb_spec c 90); simpl; try discriminate;
    match goal with |- context [base <=? ?x] => destruct (Z.leb_spec base x) end;
    try discriminate; intros [= <-]; lia.
Qed.

Lemma value_from_le base a ds :
  1 <= base -> 0 <= a -> Forall (fun d => 0 <= d < base) ds -> a <= value_from base a ds.
Proof.
  intros Hb Ha Hd. revert a Ha. induction Hd as [|d ds Hd _ IH]; intros a Ha; [done|].
  simpl. etrans; [|apply IH; nia]. nia.
Qed.

(** The loop after overflow: the rest of the digits is skipped. *)
Lemma loop_overflow neg base cutoff cutlim cs ds rest acc any :
  any < 0 -> digit_chars base cs ds -> digit_of base (peek rest) = None ->
  strtol_loop (cs ++ rest) neg base cutoff cutlim acc any = (acc, any, rest).
Proof.
  intros Ha Hc Hr. induction Hc as [|c d cs ds Hd _ IH]; simpl.
  - destruct rest as [|c rest]; [done|]. simpl in *. by rewrite Hr.
  - by rewrite Hd, (proj2 (Z.ltb_lt _ _)).
Qed.

Lemma loop_end neg base cutoff cutlim rest acc any :
  digit_of base (peek rest) = None ->
  strtol_loop rest neg base cutoff cutlim acc any = (acc, any, rest).
Proof. destruct rest as [|c rest]; [done|]. simpl. by intros ->. Qed.

(** With the sign [sg], a step multiplies and adds, unless the number leaves
    the range. *)
Definition limit (neg : bool) : Z := if neg then 2 ^ 31 else 2 ^ 31 - 1.
Definition signed (neg : bool) (x : Z) : Z := if neg then - x else x.

Lemma step_spec neg base a d :
  2 <= base -> 0 <= a <= limit neg -> 0 <= d < base ->
  strtol_step neg base (signed neg (limit neg / base)) (limit neg mod base) d (signed neg a) =
  if a * base + d <=? limit neg then (1, signed neg (a * base + d)) else (-1, signed neg (limit neg)).
Proof.
  intros Hb Ha Hd. pose proof (Z.div_mod (limit neg) base ltac:(lia)) as E.
  pose proof (Z.mod_pos_bound (limit neg) base ltac:(lia)) as Hm.
  set (q := limit neg / base) in *. set (r := limit neg mod base) in *.
  assert (Hl : limit neg = 2 ^ 31 \/ limit neg = 2 ^ 31 - 1) by (unfold limit; destruct neg; auto).
  assert (Hcase : a * base + d <= limit neg <-> ~ (q < a \/ a = q /\ r < d)) by nia.
  clearbody q r. assert (0 <= a * base) by nia. unfold strtol_step, signed.
  destruct (Z.leb_spec (a * base + d) (limit neg)) as [Hle|Hgt];
    [pose proof (proj1 Hcase Hle) as Hno|assert (q < a \/ a = q /\ r < d) as Hyes by lia];
    clear Hcase; destruct neg.
  - rewrite (proj2 (Z.ltb_ge (- a) (- q))) by lia.
    rewrite (proj2 (andb_false_iff (- a =? - q) (r <? d)))
      by (destruct (Z.eqb_spec (- a) (- q)); [right; apply Z.ltb_ge; lia|by left]).
    simpl orb. cbv iota. rewrite Z.mul_opp_l, (sgn32_id (- (a * base))) by (unfold limit in *; lia).
    rewrite sgn32_id by (unfold limit in *; lia). f_equal. lia.
  - rewrite (proj2 (Z.ltb_ge q a)) by lia.
    rewrite (proj2 (andb_false_iff (a =? q) (r <? d)))
      by (destruct (Z.eqb_spec a q); [right; apply Z.ltb_ge; lia|by left]).
    simpl orb. cbv iota. rewrite (sgn32_id (a * base)) by (unfold limit in *; lia).
    by rewrite sgn32_id by (unfold limit in *; lia).
  - destruct (Z.ltb_spec (- a) (- q)), (Z.eqb_spec (- a) (- q)), (Z.ltb_spec r d); simpl orb;
      done || (exfalso; lia).
  - destruct (Z.ltb_spec q a), (Z.eqb_spec a q), (Z.ltb_spec r d); simpl orb; done || (exfalso; lia).
Qed.

Lemma loop_spec neg base cs ds rest : forall a any,
  2 <= base -> 0 <= a <= limit neg -> 0 <= any -> digit_chars base cs ds ->
  digit_of base (peek rest) = None ->
  exists any', (cs <> [] -> any' <> 0) /\ (cs = [] -> any' = any) /\
  strtol_loop (cs ++ rest) neg base (signed neg (limit neg / base)) (limit neg mod base) (signed neg a) any
  = (signed neg (Z.min (limit neg) (value_from base a ds)), any', rest).
Proof.
  intros a any Hb Ha Hany Hc Hr. revert a any Ha Hany. induction Hc as [|c d cs ds Hd Hcs IH]; intros a any Ha Hany.
  - exists any. split_and!; [done..|]. simpl app. rewrite loop_end by done. simpl. by rewrite Z.min_r by lia.
  - pose proof (digit_of_range _ _ _ Hd) as Hdr. cbn [app strtol_loop]. rewrite Hd.
    rewrite (proj2 (Z.ltb_ge _ _)) by lia. rewrite step_spec by done.
    destruct (Z.leb_spec (a * base + d) (limit neg)) as [Hle|Hgt].
    + destruct (IH (a * base + d) 1) as (any' & A1 & A2 & ->); [lia..|].
      exists any'. split_and!; [|done|done]. intros _. destruct cs; [rewrite A2 by done; lia|by apply A1].
    + exists (-1). split_and!; [lia|done|]. rewrite (loop_overflow _ _ _ _ cs ds) by (done || lia).
      rewrite Z.min_l; [done|]. cbn [value_from fold_left].
      etrans; [|apply (value_from_le base (a * base + d) ds); [lia|nia|]]; [lia|].
      clear -Hcs. induction Hcs; constructor; [by eapply digit_of_range|done].
Qed.

(** The cut-off values the code computes are the limit divided by the base. *)
Lemma cutoffs neg base :
  2 <= base ->
  (let cutoff := if neg : bool then LONG_MIN else LONG_MAX in
   let cutlim := Z.rem cutoff base in
   let cutoff := Z.quot cutoff base in
   if neg then
     let '(cutlim, cutoff) := if 0 <? cutlim then (cutlim - base, cutoff + 1) else (cutlim, cutoff) in
     (- cutlim, cutoff)
   else (cutlim, cutoff)) = (limit neg mod base, signed neg (limit neg / base)).
Proof.
  intros Hb. destruct neg; unfold limit, signed.
  - change LONG_MIN with (- 2 ^ 31). rewrite Z.rem_opp_l, Z.quot_opp_l, Z.rem_mod_nonneg, Z.quot_div_nonneg by lia.
    pose proof (Z.mod_pos_bound (2 ^ 31) base ltac:(lia)). cbv zeta.
    rewrite (proj2 (Z.ltb_ge 0 (- (2 ^ 31 mod base)))) by lia. f_equal. lia.
  - cbv zeta. unfold LONG_MAX. by rewrite Z.rem_mod_nonneg, Z.quot_div_nonneg by lia.
Qed.

Lemma signed_clamp neg v : 0 <= v -> signed neg (Z.min (limit neg) v) = clamp (signed neg v).
Proof. intros Hv. unfold signed, limit, clamp, LONG_MIN, LONG_MAX. destruct neg; lia. Qed.

(** A digit is no space and no sign. *)
Lemma digit_head base c d :
  digit_of base c = Some d -> isspace c = false /\ (c =? 45) = false /\ (c =? 43) = false.
Proof.
  unfold digit_of, isdigit, isalpha, islower, isupper, isspace. intros H.
  assert (Hc : 48 <= c).
  { destruct (Z.leb_spec 48 c), (Z.leb_spec 97 c), (Z.leb_spec 65 c); simpl in H; lia || done. }
  split_and!; repeat (apply orb_false_iff; split); apply Z.eqb_neq; lia.
Qed.

(** The number after the sign and the prefix. *)
Definition strtol_digits (nptr s : list Z) (neg : bool) (base : Z) : Z * list Z :=
  let '(acc, any, s) :=
    strtol_loop s neg base (signed neg (limit neg / base)) (limit neg mod base) 0 0 in
  (acc, if any =? 0 then nptr else s).

Definition hex_prefix (s : list Z) : bool :=
  (peek s =? 48) && ((peek (tail s) =? 120) || (peek (tail s) =? 88)).

Definition sign_char (neg : bool) (plus : bool) : list Z := if neg then [45] else if plus then [43] else [].

(** What precedes the digits. *)
Lemma strtol_split n neg plus s base :
  2 <= base -> isspace (peek s) = false -> peek s <> 45 -> peek s <> 43 ->
  let nptr := replicate n 32 ++ sign_char neg plus ++ s in
  strtol nptr base =
  if (base =? 16) && hex_prefix s then strtol_digits nptr (drop 2 s) neg 16
  else strtol_digits nptr s neg base.
Proof.
  intros Hb Hs H45 H43 nptr. unfold strtol. subst nptr. rewrite skip_space_pad.
  assert (Hsk : skip_space (sign_char neg plus ++ s) = sign_char neg plus ++ s).
  { destruct neg; [done|]. destruct plus; [done|]. simpl. destruct s as [|c t]; [done|]. simpl in *. by rewrite Hs. }
  rewrite Hsk. clear Hsk.
  set (nptr := replicate n 32 ++ sign_char neg plus ++ s). clearbody nptr.
  replace (if peek (sign_char neg plus ++ s) =? 45 then (true, tail (sign_char neg plus ++ s))
    else (false, if peek (sign_char neg plus ++ s) =? 43 then tail (sign_char neg plus ++ s)
                 else sign_char neg plus ++ s)) with (neg, s).
  - rewrite (proj2 (Z.eqb_neq base 0)) by lia. rewrite orb_false_l, <- andb_assoc.
    fold (hex_prefix s).
    destruct (_ && hex_prefix s); cbv iota beta zeta.
    + change (16 =? 0) with false. cbv iota. pose proof (cutoffs neg 16 ltac:(lia)) as Hc.
      cbv zeta in Hc. rewrite Hc. destruct neg; reflexivity.
    + rewrite (proj2 (Z.eqb_neq base 0)) by lia. pose proof (cutoffs neg base ltac:(lia)) as Hc.
      cbv zeta in Hc. rewrite Hc. destruct neg; reflexivity.
  - destruct neg; [done|]. destruct plus; [done|]. simpl.
    by rewrite (proj2 (Z.eqb_neq _ _) H45), (proj2 (Z.eqb_neq _ _) H43).
Qed.

Lemma digits_ok nptr neg base cs ds rest :
  2 <= base -> digit_chars base cs ds -> cs <> [] -> digit_of base (peek rest) = None ->
  strtol_digits nptr (cs ++ rest) neg base = (clamp (signed neg (value_from base 0 ds)), rest).
Proof.
  intros Hb Hc Hne Hr. unfold strtol_digits.
  destruct (loop_spec neg base cs ds rest 0 0) as (any & A1 & _ & E); [done|unfold limit; destruct neg; lia|done..|].
  replace (signed neg 0) with 0 in E by (by destruct neg). rewrite E.
  rewrite (proj2 (Z.eqb_neq any 0)) by (by apply A1). f_equal. apply signed_clamp.
  apply value_from_le; [lia..|]. clear -Hc. induction Hc; constructor; [by eapply digit_of_range|done].
Qed.

Lemma digits_peek base cs ds rest :
  digit_chars base cs ds -> cs <> [] ->
  isspace (peek (cs ++ rest)) = false /\ peek (cs ++ rest) <> 45 /\ peek (cs ++ rest) <> 43.
Proof.
  intros [|c d cs' ds' Hd _] Hne; [done|]. simpl. destruct (digit_head _ _ _ Hd) as (H1 & H2 & H3).
  by apply Z.eqb_neq in H2, H3.
Qed.

(** [strtol] on blanks, an optional sign and digits of a base from 2 to
    36 returns the number the digits denote, limited to the range of [long],
    and the position after the last digit, however many digits there are. *)
Theorem strtol_clamps n neg plus base cs ds rest :
  2 <= base <= 36 -> digit_chars base cs ds -> cs <> [] -> digit_of base (peek rest) = None ->
  (base = 16 -> hex_prefix (cs ++ rest) = false) ->
  strtol (replicate n 32 ++ sign_char neg plus ++ cs ++ rest) base =
  (clamp (signed neg (value_from base 0 ds)), rest).
Proof.
  intros Hb Hc Hne Hr Hx. destruct (digits_peek base cs ds rest Hc Hne) as (H1 & H2 & H3).
  rewrite strtol_split by (done || lia).
  replace ((base =? 16) && hex_prefix (cs ++ rest)) with false.
  - apply digits_ok; [lia|done..].
  - destruct (Z.eqb_spec base 16); [by rewrite Hx|done].
Qed.

Lemma strtol_clamps_witness :
  strtol (replicate 2 32 ++ sign_char true false ++ chars "99999999999" ++ chars " x") 10 =
  (clamp (signed true (value_from 10 0 [9; 9; 9; 9; 9; 9; 9; 9; 9; 9; 9])), chars " x").
Proof.
  apply (strtol_clamps 2 true false 10 (chars "99999999999") [9; 9; 9; 9; 9; 9; 9; 9; 9; 9; 9] (chars " x")).
  - lia.
  - repeat constructor.
  - discriminate.
  - reflexivity.
  - lia.
Defined.

Lemma strtol_hex_prefix cs ds rest :
  digit_chars 16 cs ds -> cs <> [] -> digit_of 16 (peek rest) = None ->
  strtol (48 :: 120 :: cs ++ rest) 16 = (clamp (value_from 16 0 ds), rest).
Proof.
  intros Hc Hne Hr. pose proof (strtol_split 0 false false (48 :: 120 :: cs ++ rest) 16) as E.
  simpl app in E. rewrite E by (done || lia).
  change ((16 =? 16) && hex_prefix (48 :: 120 :: cs ++ rest)) with true. cbv iota.
  change (drop 2 (48 :: 120 :: cs ++ rest)) with (cs ++ rest).
  by apply (digits_ok (48 :: 120 :: cs ++ rest) false).
Qed.

(** ** Numbers printed with [%x] *)

Lemma base_x_digits d : 0 <= d < 16 -> exists c, geti (digits base_x) d = Some c /\ digit_of 16 c = Some d.
Proof.
  intros Hd.
  assert (H : all_below 16 (fun d => match geti (digits base_x) d with
    | Some c => bool_decide (digit_of 16 c = Some d) | None => false end) = true) by (vm_compute; reflexivity).
  pose proof (all_below_spec _ _ H d Hd) as E. cbv beta in E.
  destruct (geti (digits base_x) d) as [c|]; [|done]. exists c. split; [done|]. by apply bool_decide_eq_true in E.
Qed.

Lemma digits_loop_hex k : forall fuel value cnt buf,
  (k < fuel)%nat -> 0 <= value < 16 ^ Z.of_nat k -> lenZ buf + Z.of_nat k <= 64 ->
  exists cs ds, digits_loop fuel base_x false value cnt buf = Ret (buf ++ reverse cs) /\
    digit_chars 16 cs ds /\ value_from 16 0 ds = value /\ (length cs <= k)%nat /\ (0 < value -> cs <> []).
Proof.
  induction k as [|k IH]; intros [|fuel] value cnt buf Hf Hv Hl; [lia| |lia|]; cbn [digits_loop].
  - rewrite (proj2 (Z.ltb_ge 0 value)) by (simpl in Hv; lia). exists [], [].
    rewrite app_nil_r. split_and!; [done|constructor|simpl in *; lia|done|lia].
  - destruct (Z.ltb_spec 0 value) as [Hpos|Hz].
    2: { exists [], []. rewrite app_nil_r. split_and!; [done|constructor|simpl; lia|simpl; lia|lia]. }
    cbn [andb]. pose proof (Z.mod_pos_bound value 16 ltac:(lia)) as Hm.
    cbn [mbind res_bind mret res_ret]. change (base base_x) with 16.
    destruct (base_x_digits (value mod 16) Hm) as (c & -> & Hc). cbn [the mbind res_bind].
    rewrite push_ok by lia. cbn [mbind res_bind].
    destruct (IH fuel (value / 16) (cnt + 1) (buf ++ [c])) as (cs & ds & E & F & N & L & _).
    + lia.
    + split; [apply Z.div_pos; lia|]. apply Z.div_lt_upper_bound; [lia|].
      rewrite <- Z.pow_succ_r by lia. replace (Z.succ (Z.of_nat k)) with (Z.of_nat (S k)) by lia. lia.
    + rewrite lenZ_app. change (lenZ [_]) with 1. lia.
    + exists (cs ++ [c]), (ds ++ [value mod 16]). rewrite E, reverse_snoc. split_and!.
      * by rewrite <- app_assoc.
      * apply Forall2_app; [done|by repeat constructor].
      * unfold value_from in *. rewrite fold_left_app, N. simpl.
        pose proof (Z.div_mod value 16 ltac:(lia)). lia.
      * rewrite length_app. simpl. lia.
      * intros _. by destruct cs.
Qed.

Definition no_flags : conversion := mk_conv 0 0 (-1) INT.

(** [%x] prints a number's hexadecimal digits, at least one. *)
Lemma format_hex v :
  inU 32 v ->
  exists cs ds, format_integer v false false base_x no_flags = Ret cs /\
    digit_chars 16 cs ds /\ value_from 16 0 ds = v /\ cs <> [] /\ (length cs <= 8)%nat.
Proof.
  intros Hv. unfold format_integer. cbn [flags precision width no_flags].
  destruct (digits_loop_hex 8 65 v 0 []) as (cs & ds & E & F & N & L & P);
    [lia|unfold inU in Hv; change (16 ^ Z.of_nat 8) with (2 ^ 32); lia|unfold lenZ; simpl; lia|].
  change (nz (0 &! GROUP)) with false. rewrite E. cbn [mbind res_bind app].
  change (-1 <? 0) with true. cbv iota.
  destruct (decide (cs = [])) as [-> |Hne].
  - assert (v = 0) as -> by (unfold inU in Hv; destruct (Z.lt_ge_cases 0 v); [by destruct P|lia]).
    exists [48], [0]. split_and!; [done|by repeat constructor|done..|simpl; lia].
  - assert (Hp : precision_loop 64 1 (reverse cs) = Ret (reverse cs)).
    { cbn [precision_loop]. assert (1 <= lenZ (reverse cs)).
      { unfold lenZ. rewrite length_reverse. destruct cs; [done|]. simpl. lia. }
      by rewrite (proj2 (Z.ltb_ge (lenZ (reverse cs)) 1)) by lia. }
    rewrite Hp. exists cs, ds. split_and!; try done.
    change (nz (0 &! POUND)) with false. cbn [andb mbind res_bind mret res_ret].
    change (nz (0 &! (MINUS |! ZERO))) with false. change (nz (0 &! ZERO)) with false.
    change (nz (0 &! MINUS)) with false. change (nz (sign_of false false 0)) with false.
    change (nz 0) with false. cbv iota. cbn [app b2z]. rewrite app_nil_r, reverse_involutive.
    rewrite (proj2 (Z.ltb_lt _ 0)); [done|].
    unfold lenZ. rewrite length_reverse. destruct cs; [done|]. simpl length. lia.
Qed.
