(* ===== verification/Bdrv.v ===== *)
(** * Disks and the displaced boot disk

    [devices/disk.c] for ATA and USB disks and [hw/displace_bdrv.c]: the disk
    the guest sees is the boot disk with its first sector displaced and the
    monitor's own sectors protected from writes.  The drive itself, below
    [devices/ata.c] and the USB stack, is a class: its operations on sectors
    and the laws it obeys.  Opening disks is in [BdrvOpen]. *)

From Stdlib Require Import ZArith Lia Bool Ascii String.
From stdpp Require Import base list.
From S2P Require Import Prelude Printf Cstring.

Definition DISK_SECTOR_SIZE : Z := 512.

(** ** Drives *)

Inductive disk_type := DISK_ATA | DISK_USB.

(** One sector at a time, except for [usbmsd_write], which takes the number
    of sectors; [sector] is what the medium holds, and [present] tells
    whether a transfer of a sector succeeds. *)
Class Drive (D : Type) := {
  sector : D -> Z -> list Z;
  present : D -> Z -> bool;
  ata_disk_size : D -> Z;
  ata_disk_read : D -> Z -> res (list Z * D);
  ata_disk_write : D -> Z -> list Z -> res D;
  usbmsd_read_capacity : D -> option (Z * Z);
  usbmsd_read : D -> Z -> Z -> res (option (list Z) * D);
  usbmsd_write : D -> list Z -> Z -> Z -> res (bool * D);
}.

(** A read returns the sector and changes nothing on the medium; a write
    changes the sector it names.  Both fail only on sectors that are not
    present: an ATA drive then panics (it asserts that the sector exists), a
    USB drive returns an error. *)
Class DriveLaws (D : Type) `{Drive D} : Prop := {
  sector_length d n : length (sector d n) = 512%nat;
  sector_bytes d n : Forall (fun b => 0 <= b < 256) (sector d n);
  ata_read_law d n :
    present d n = false /\ ata_disk_read d n = Stop Panic \/
    exists d', ata_disk_read d n = Ret (sector d n, d') /\
      (forall k, sector d' k = sector d k) /\ (forall k, present d' k = present d k) /\ ata_disk_size d' = ata_disk_size d /\
      usbmsd_read_capacity d' = usbmsd_read_capacity d;
  ata_write_law d n b :
    length b = 512%nat -> Forall (fun x => 0 <= x < 256) b ->
    present d n = false /\ ata_disk_write d n b = Stop Panic \/
    exists d', ata_disk_write d n b = Ret d' /\
      (forall k, sector d' k = if k =? n then b else sector d k) /\
      (forall k, present d' k = present d k) /\
      ata_disk_size d' = ata_disk_size d /\ usbmsd_read_capacity d' = usbmsd_read_capacity d;
  usb_read_law d n :
    (exists o d', usbmsd_read d n 1 = Ret (o, d') /\ 
      (present d n = false /\ o = None \/ o = Some (sector d n)) /\
      (forall k, sector d' k = sector d k) /\ (forall k, present d' k = present d k) /\ ata_disk_size d' = ata_disk_size d /\
      usbmsd_read_capacity d' = usbmsd_read_capacity d);
  usb_write_law d n b :
    length b = 512%nat -> Forall (fun x => 0 <= x < 256) b ->
    (exists r d', usbmsd_write d b n 1 = Ret (r, d') /\
      (r = false -> present d n = false) /\
      (r = true -> forall k, sector d' k = if k =? n then b else sector d k) /\
      (forall k, present d' k = present d k) /\
      ata_disk_size d' = ata_disk_size d /\ usbmsd_read_capacity d' = usbmsd_read_capacity d);
}.

Section Disk.
Context {D : Type} `{Drive D}.

(** [struct disk]; [disk_sz] caches the number of sectors, 0 if not known. *)
Record disk := mk_disk { type : disk_type; unit_ : D; disk_sz : Z }.

Definition set_unit (d : disk) (u : D) : disk := mk_disk (type d) u (disk_sz d).
Definition set_size (d : disk) (n : Z) : disk := mk_disk (type d) (unit_ d) n.

Definition identify_disk (t : disk_type) (u : D) : disk := mk_disk t u 0.

Definition disk_size (d : disk) : res (Z * disk) :=
  if negb (disk_sz d =? 0) then mret (disk_sz d, d) else
  match type d with
  | DISK_ATA => mret (ata_disk_size (unit_ d), set_size d (ata_disk_size (unit_ d)))
  | DISK_USB =>
    match usbmsd_read_capacity (unit_ d) with
    | None => Stop Panic
    | Some (numblocks, blocksize) =>
      assert (blocksize =? DISK_SECTOR_SIZE);;
      mret (numblocks, set_size d numblocks)
    end
  end.

(** The loops over [count] sectors; sector numbers are 32 bits wide. *)
Fixpoint read_loop (count : nat) (d : disk) (sec_no : Z) (acc : list Z) : res (list Z * disk) :=
  match count with
  | O => mret (acc, d)
  | S count =>
    '(b, u) ← (match type d with
      | DISK_ATA => ata_disk_read (unit_ d) sec_no
      | DISK_USB =>
        '(o, u) ← usbmsd_read (unit_ d) sec_no 1;
        b ← match o with Some b => mret b | None => Stop Panic end;
        mret (b, u)
      end);
    read_loop count (set_unit d u) (wrap 32 (sec_no + 1)) (acc ++ b)
  end.
Definition disk_read (d : disk) (sec_no count : Z) : res (list Z * disk) :=
  read_loop (Z.to_nat count) d sec_no [].

Fixpoint ata_write_loop (count : nat) (u : D) (sec_no : Z) (buf : list Z) : res D :=
  match count with
  | O => mret u
  | S count =>
    u ← ata_disk_write u sec_no (take 512 buf);
    ata_write_loop count u (wrap 32 (sec_no + 1)) (drop 512 buf)
  end.
Definition disk_write (d : disk) (sec_no count : Z) (buf : list Z) : res disk :=
  match type d with
  | DISK_ATA =>
    u ← ata_write_loop (Z.to_nat count) (unit_ d) sec_no buf;
    mret (set_unit d u)
  | DISK_USB =>
    '(r, u) ← usbmsd_write (unit_ d) buf sec_no count;
    assert r;;
    mret (set_unit d u)
  end.

(** ** The displaced disk *)

(** [BDRVDisplaceState]. *)
Record displace := mk_displace { bas_disk : disk; offset : Z; length_ : Z }.

Definition set_disk (s : displace) (d : disk) : displace := mk_displace d (offset s) (length_ s).

(** [cur < last] in 32 bits; the loop runs [n] times at most. *)
Fixpoint displace_read_loop (fuel : nat) (s : displace) (cur last : Z) (acc : list Z) :
    res (list Z * displace) :=
  match fuel with
  | O => Stop NoFuel
  | S fuel =>
    if cur <? last then
      '(b, d) ← (if cur =? 0 then disk_read (bas_disk s) (offset s) 1
                 else disk_read (bas_disk s) cur 1);
      displace_read_loop fuel (set_disk s d) (wrap 32 (cur + 1)) last (acc ++ b)
    else mret (acc, s)
  end.
Definition displace_bdrv_read (s : displace) (sector_num nb_sectors : Z) :
    res (list Z * displace) :=
  displace_read_loop (S (Z.to_nat nb_sectors)) s sector_num (wrap 32 (sector_num + nb_sectors)) [].

(** A write to a sector of the monitor is dropped with a message. *)
Definition monitor_sector (s : displace) (cur : Z) : bool :=
  (wrap 32 (offset s + 1) <=? cur) && (cur <=? wrap 32 (offset s + length_ s)).

Fixpoint displace_write_loop (fuel : nat) (s : displace) (cur last : Z) (buf : list Z) :
    res displace :=
  match fuel with
  | O => Stop NoFuel
  | S fuel =>
    if cur <? last then
      d ← (if cur =? 0 then disk_write (bas_disk s) (offset s) 1 (take 512 buf)
           else if monitor_sector s cur then mret (bas_disk s)
           else disk_write (bas_disk s) cur 1 (take 512 buf));
      displace_write_loop fuel (set_disk s d) (wrap 32 (cur + 1)) last (drop 512 buf)
    else mret s
  end.
Definition displace_bdrv_write (s : displace) (sector_num : Z) (buf : list Z) (nb_sectors : Z) :
    res displace :=
  displace_write_loop (S (Z.to_nat nb_sectors)) s sector_num
    (wrap 32 (sector_num + nb_sectors)) buf.

Definition displace_bdrv_getlength (s : displace) : res (Z * displace) :=
  '(n, d) ← disk_size (bas_disk s);
  mret (n, set_disk s d).

End Disk.
Arguments disk D : clear implicits.
Arguments displace D : clear implicits.

(** ** Properties *)

Section DiskFacts.
Context {D : Type} `{DriveLaws D}.
Implicit Types (s : displace D) (d : disk D).

Definition byte_list (b : list Z) : Prop := Forall (fun x => 0 <= x < 256) b.

(** What is on the medium, and the parts of a disk that never change. *)
Definition medium (s : displace D) (k : Z) : list Z := sector (unit_ (bas_disk s)) k.
Definition same_setup (s s' : displace D) : Prop :=
  offset s' = offset s /\ length_ s' = length_ s /\ type (bas_disk s') = type (bas_disk s) /\
  forall k, present (unit_ (bas_disk s')) k = present (unit_ (bas_disk s)) k.

Lemma same_setup_trans s s' s'' : same_setup s s' -> same_setup s' s'' -> same_setup s s''.
Proof.
  intros (H1 & H2 & H3 & H4) (K1 & K2 & K3 & K4). unfold same_setup.
  split_and!; [congruence..|]. intros k. by rewrite K4, H4.
Qed.

(** The physical sector of a sector of the guest. *)
Definition phys (s : displace D) (k : Z) : Z := if k =? 0 then offset s else k.

(** All sectors of a range of the guest can be transferred. *)
Definition reachable (s : displace D) (sec n : Z) : Prop :=
  forall k, sec <= k < sec + n -> present (unit_ (bas_disk s)) (phys s k) = true.

Lemma reachable_setup s s' sec n : same_setup s s' -> reachable s sec n -> reachable s' sec n.
Proof. intros (H1 & _ & _ & H4) Hr k Hk. unfold phys. rewrite H1, H4. by apply Hr. Qed.

Lemma reachable_sub s sec n sec' n' :
  reachable s sec n -> sec <= sec' -> sec' + n' <= sec + n -> reachable s sec' n'.
Proof. intros Hr H1 H2 k Hk. apply Hr. lia. Qed.

Lemma disk_read_one d n :
  present (unit_ d) n = false /\ disk_read d n 1 = Stop Panic \/
  exists u, disk_read d n 1 = Ret (sector (unit_ d) n, set_unit d u) /\
    (forall k, sector u k = sector (unit_ d) k) /\ (forall k, present u k = present (unit_ d) k).
Proof.
  unfold disk_read. simpl. destruct (type d) eqn:Et.
  - destruct (ata_read_law (unit_ d) n) as [[Hp ->] |(u & -> & Hs & Hk & _)]; [by left|right]. by exists u.
  - destruct (usb_read_law (unit_ d) n) as (o & u & -> & [[Hp ->] | ->] & Hs & Hk & _); simpl; [by left|right].
    by exists u.
Qed.

Lemma disk_write_one d n b :
  length b = 512%nat -> byte_list b ->
  present (unit_ d) n = false /\ disk_write d n 1 b = Stop Panic \/
  exists u, disk_write d n 1 b = Ret (set_unit d u) /\
    (forall k, sector u k = if k =? n then b else sector (unit_ d) k) /\
    (forall k, present u k = present (unit_ d) k).
Proof.
  intros Hl Hb. unfold disk_write. simpl. rewrite take_ge by lia. destruct (type d) eqn:Et.
  - destruct (ata_write_law (unit_ d) n b Hl Hb) as [[Hp ->] |(u & -> & Hs & Hk & _)];
      [by left|right]. by exists u.
  - destruct (usb_write_law (unit_ d) n b Hl Hb) as (r & u & -> & Hf & Hs & Hk & _). simpl.
    destruct r; simpl; [right; exists u; auto|left; auto].
Qed.

(** The sectors [sec, sec + n) as the guest sees them. *)
Definition view (s : displace D) (sec : Z) (n : nat) : list Z :=
  concat (map (fun i => medium s (phys s (sec + Z.of_nat i))) (seq 0 n)).

Lemma view_S s sec n : view s sec (S n) = medium s (phys s sec) ++ view s (sec + 1) n.
Proof.
  unfold view. simpl. rewrite Z.add_0_r. f_equal. f_equal.
  rewrite <- seq_shift, map_map. apply map_ext. intros i. do 2 f_equal. lia.
Qed.

Lemma view_length s sec n : length (view s sec n) = (512 * n)%nat.
Proof.
  revert sec. induction n as [|n IH]; intros sec; [done|].
  rewrite view_S, length_app, IH. unfold medium. rewrite sector_length. lia.
Qed.

Lemma view_bytes s sec n : byte_list (view s sec n).
Proof.
  revert sec. induction n as [|n IH]; intros sec; [constructor|].
  rewrite view_S. apply Forall_app. split; [apply sector_bytes|apply IH].
Qed.

Lemma view_ext s s' sec n :
  (forall k, medium s' k = medium s k) -> offset s' = offset s -> view s' sec n = view s sec n.
Proof.
  intros Hm Ho. unfold view, phys. f_equal. apply map_ext. intros i. by rewrite Ho, Hm.
Qed.

Lemma read_loop_ok n : forall fuel s cur acc,
  (n < fuel)%nat -> 0 <= cur -> cur + Z.of_nat n < 2 ^ 32 ->
  ~ reachable s cur (Z.of_nat n) /\ displace_read_loop fuel s cur (cur + Z.of_nat n) acc = Stop Panic \/
  exists s', displace_read_loop fuel s cur (cur + Z.of_nat n) acc = Ret (acc ++ view s cur n, s') /\
    (forall k, medium s' k = medium s k) /\ same_setup s s'.
Proof.
  induction n as [|n IH]; intros fuel s cur acc Hf Hc Hw; (destruct fuel as [|fuel]; [lia|]); simpl.
  - rewrite (proj2 (Z.ltb_ge _ _)) by lia. right. exists s. by rewrite app_nil_r.
  - rewrite (proj2 (Z.ltb_lt _ _)) by lia.
    replace (if cur =? 0 then disk_read (bas_disk s) (offset s) 1 else disk_read (bas_disk s) cur 1)
      with (disk_read (bas_disk s) (phys s cur) 1) by (unfold phys; by destruct (cur =? 0)).
    destruct (disk_read_one (bas_disk s) (phys s cur)) as [[Hp ->] |(u & -> & Hu & Hk)].
    { left. split; [|done]. intros Hr. rewrite (Hr cur) in Hp by lia. done. }
    simpl. assert (Hset : same_setup s (set_disk s (set_unit (bas_disk s) u))) by done.
    unfold wrap. rewrite Z.mod_small by lia.
    replace (cur + Z.of_nat (S n)) with (cur + 1 + Z.of_nat n) by lia.
    destruct (IH fuel (set_disk s (set_unit (bas_disk s) u)) (cur + 1)
      (acc ++ sector (unit_ (bas_disk s)) (phys s cur))) as [[Hp ->] |(s' & -> & Hm & Hs)]; [lia..| |].
    { left. split; [|done]. intros Hr. apply Hp. apply (reachable_setup s); [done|].
      eapply reachable_sub; [exact Hr|lia..]. }
    right. exists s'.
    split; [|split; [intros k; rewrite Hm; apply Hu|by eapply same_setup_trans]].
    rewrite view_S, <- (assoc_L (++)). do 4 f_equal. apply view_ext; [|done]. exact Hu.
Qed.

Lemma displace_read_ok s sec n :
  0 <= sec -> 0 <= n -> sec + n < 2 ^ 32 ->
  ~ reachable s sec n /\ displace_bdrv_read s sec n = Stop Panic \/
  exists s', displace_bdrv_read s sec n = Ret (view s sec (Z.to_nat n), s') /\
    (forall k, medium s' k = medium s k) /\ same_setup s s'.
Proof.
  intros Hs Hn Hw. unfold displace_bdrv_read. unfold wrap. rewrite Z.mod_small by lia.
  pose proof (read_loop_ok (Z.to_nat n) (S (Z.to_nat n)) s sec []) as Hl.
  rewrite Z2Nat.id in Hl by lia. destruct Hl as [[Hp ->]|(s' & -> & H2)]; [lia..|by left|right].
  by exists s'.
Qed.

(** Past the end of 32-bit sector numbers nothing is read. *)
Lemma displace_read_wrap s sec n :
  0 <= sec < 2 ^ 32 -> 0 <= n < 2 ^ 16 -> 2 ^ 32 <= sec + n ->
  displace_bdrv_read s sec n = Ret ([], s).
Proof.
  intros Hs Hn Hw. unfold displace_bdrv_read. simpl.
  replace (sec <? wrap 32 (sec + n)) with false; [done|]. symmetry. apply Z.ltb_ge. unfold wrap.
  replace (sec + n) with (sec + n - 2 ^ 32 + 1 * 2 ^ 32) by lia.
  rewrite Z.mod_add, Z.mod_small by lia. lia.
Qed.

(** What a write of [n] sectors leaves on the medium. *)
Fixpoint written (s : displace D) (f : Z -> list Z) (cur : Z) (n : nat) (buf : list Z) : Z -> list Z :=
  match n with
  | O => f
  | S n =>
    written s (fun k =>
      if negb (cur =? 0) && monitor_sector s cur then f k
      else if k =? phys s cur then take 512 buf else f k) (cur + 1) n (drop 512 buf)
  end.

Lemma written_setup s s' f cur n buf :
  same_setup s s' -> written s' f cur n buf = written s f cur n buf.
Proof.
  intros (Ho & Hl & _). revert f cur buf. induction n as [|n IH]; intros f cur buf; [done|]. simpl.
  rewrite IH. unfold monitor_sector, phys. by rewrite Ho, Hl.
Qed.

Lemma written_ext s f g cur n buf :
  (forall k, f k = g k) -> forall k, written s f cur n buf k = written s g cur n buf k.
Proof.
  revert f g cur buf. induction n as [|n IH]; intros f g cur buf Hfg; [done|]. simpl.
  apply IH. intros k. by rewrite Hfg.
Qed.

Lemma write_sector_ok s cur b :
  length b = 512%nat -> byte_list b ->
  let w := if cur =? 0 then disk_write (bas_disk s) (offset s) 1 b
           else if monitor_sector s cur then mret (bas_disk s)
           else disk_write (bas_disk s) cur 1 b in
  present (unit_ (bas_disk s)) (phys s cur) = false /\ w = Stop Panic \/
  exists u, w = Ret (set_unit (bas_disk s) u) /\
    (forall k, sector u k = (if negb (cur =? 0) && monitor_sector s cur then medium s k
      else if k =? phys s cur then b else medium s k)) /\
    (forall k, present u k = present (unit_ (bas_disk s)) k).
Proof.
  intros Hl Hb w. subst w. unfold phys, medium. destruct (cur =? 0) eqn:E0; simpl.
  - by apply disk_write_one.
  - destruct (monitor_sector s cur); [|by apply disk_write_one].
    right. exists (unit_ (bas_disk s)). split; [by destruct (bas_disk s)|done].
Qed.

Lemma write_loop_ok n : forall fuel s cur buf,
  (n < fuel)%nat -> 0 <= cur -> cur + Z.of_nat n < 2 ^ 32 ->
  (512 * n <= length buf)%nat -> byte_list buf ->
  ~ reachable s cur (Z.of_nat n) /\ displace_write_loop fuel s cur (cur + Z.of_nat n) buf = Stop Panic \/
  exists s', displace_write_loop fuel s cur (cur + Z.of_nat n) buf = Ret s' /\
    (forall k, medium s' k = written s (medium s) cur n buf k) /\ same_setup s s'.
Proof.
  induction n as [|n IH]; intros fuel s cur buf Hf Hc Hw Hl Hb; (destruct fuel as [|fuel]; [lia|]); simpl.
  - rewrite (proj2 (Z.ltb_ge _ _)) by lia. right. by exists s.
  - rewrite (proj2 (Z.ltb_lt _ _)) by lia.
    destruct (write_sector_ok s cur (take 512 buf)) as [[Hp ->] |(u & -> & Hu & Hk)];
      [rewrite length_take; lia|by apply Forall_take| |].
    { left. split; [|done]. intros Hr. rewrite (Hr cur) in Hp by lia. done. }
    simpl. assert (Hset : same_setup s (set_disk s (set_unit (bas_disk s) u))) by done.
    unfold wrap. rewrite Z.mod_small by lia.
    replace (cur + Z.of_nat (S n)) with (cur + 1 + Z.of_nat n) by lia.
    destruct (IH fuel (set_disk s (set_unit (bas_disk s) u)) (cur + 1) (drop 512 buf))
      as [[Hp ->] |(s' & -> & Hm & Hs)]; [lia..|rewrite length_drop; lia|by apply Forall_drop| |].
    { left. split; [|done]. intros Hr. apply Hp. apply (reachable_setup s); [done|].
      eapply reachable_sub; [exact Hr|lia..]. }
    right. exists s'. split; [done|]. split; [|by eapply same_setup_trans]. intros k. rewrite Hm.
    rewrite (written_setup s) by done. apply written_ext. exact Hu.
Qed.

Lemma displace_write_ok s sec buf n :
  0 <= sec -> 0 <= n -> sec + n < 2 ^ 32 -> (512 * Z.to_nat n <= length buf)%nat -> byte_list buf ->
  ~ reachable s sec n /\ displace_bdrv_write s sec buf n = Stop Panic \/
  exists s', displace_bdrv_write s sec buf n = Ret s' /\
    (forall k, medium s' k = written s (medium s) sec (Z.to_nat n) buf k) /\ same_setup s s'.
Proof.
  intros Hs Hn Hw Hl Hb. unfold displace_bdrv_write. unfold wrap. rewrite Z.mod_small by lia.
  pose proof (write_loop_ok (Z.to_nat n) (S (Z.to_nat n)) s sec buf) as Hl'.
  rewrite Z2Nat.id in Hl' by lia. destruct Hl' as [[Hp ->]|(s' & -> & H2)]; [lia..|done|by left|right].
  by exists s'.
Qed.

Lemma displace_write_wrap s sec buf n :
  0 <= sec < 2 ^ 32 -> 0 <= n < 2 ^ 16 -> 2 ^ 32 <= sec + n ->
  displace_bdrv_write s sec buf n = Ret s.
Proof.
  intros Hs Hn Hw. unfold displace_bdrv_write. simpl.
  replace (sec <? wrap 32 (sec + n)) with false; [done|]. symmetry. apply Z.ltb_ge. unfold wrap.
  replace (sec + n) with (sec + n - 2 ^ 32 + 1 * 2 ^ 32) by lia.
  rewrite Z.mod_add, Z.mod_small by lia. lia.
Qed.

(** *** The monitor's sectors *)

(** The displaced disk hides the [length_] sectors after [offset] and, if
    that is not where sector 0 is, sector 0. *)
Definition hides (s : displace D) (k : Z) : Prop :=
  0 < offset s /\ k = 0 \/ offset s < k <= offset s + length_ s.
Definition displaced (s : displace D) : Prop :=
  0 <= offset s /\ 0 <= length_ s /\ offset s + length_ s + 1 < 2 ^ 32.

Lemma monitor_sector_spec s k :
  displaced s -> monitor_sector s k = true <-> offset s < k <= offset s + length_ s.
Proof.
  intros (H1 & H2 & H3). unfold monitor_sector, wrap. rewrite !Z.mod_small by lia.
  rewrite andb_true_iff, !Z.leb_le. lia.
Qed.

Lemma written_hides s f cur n buf k :
  displaced s -> 0 <= cur -> hides s k -> written s f cur n buf k = f k.
Proof.
  intros Hd Hc Hk. revert f cur buf Hc. induction n as [|n IH]; intros f cur buf Hc; [done|]. simpl.
  rewrite IH by lia. destruct (negb (cur =? 0) && monitor_sector s cur) eqn:Em; [done|].
  replace (k =? phys s cur) with false; [done|]. symmetry. apply Z.eqb_neq. intros ->.
  unfold hides, phys in Hk. destruct Hd as (H1 & H2 & H3).
  destruct (Z.eqb_spec cur 0) as [E0|E0]; [lia|]. simpl in Em.
  assert (monitor_sector s cur = true) by (apply monitor_sector_spec; [done|lia]). congruence.
Qed.

(** A sector outside the range is not written, unless it is the one sector
    0 is displaced to. *)
Lemma written_outside s f cur n buf k :
  0 <= cur -> (k < cur \/ cur + Z.of_nat n <= k) -> k <> offset s ->
  written s f cur n buf k = f k.
Proof.
  intros Hc Hk Hne. revert f cur buf Hc Hk. induction n as [|n IH]; intros f cur buf Hc Hk; [done|].
  simpl. rewrite IH by lia. destruct (_ && _); [done|].
  replace (k =? phys s cur) with false; [done|]. symmetry. apply Z.eqb_neq. unfold phys.
  destruct (Z.eqb_spec cur 0); lia.
Qed.

Lemma written_after s f cur n buf k :
  0 < cur -> (k < cur \/ cur + Z.of_nat n <= k) -> written s f cur n buf k = f k.
Proof.
  intros Hc Hk. revert f cur buf Hc Hk. induction n as [|n IH]; intros f cur buf Hc Hk; [done|].
  simpl. rewrite IH by lia. destruct (_ && _); [done|].
  replace (k =? phys s cur) with false; [done|]. symmetry. apply Z.eqb_neq. unfold phys.
  destruct (Z.eqb_spec cur 0); lia.
Qed.

(** Sectors of the guest proper: not the monitor's, and not the place of
    sector 0. *)
Definition plain_range (s : displace D) (sec n : Z) : Prop :=
  0 <= sec /\ sec + n < 2 ^ 32 /\
  forall j, sec <= j < sec + n -> j <> offset s /\ monitor_sector s j = false.

Lemma written_view s f n : forall cur buf,
  plain_range s cur (Z.of_nat n) -> (512 * n <= length buf)%nat ->
  concat (map (fun i => written s f cur n buf (phys s (cur + Z.of_nat i))) (seq 0 n)) = take (512 * n) buf.
Proof.
  revert f. induction n as [|n IH]; intros f cur buf (Hc & Hw & Hj) Hl; [done|].
  rewrite <- cons_seq. simpl map. simpl concat. rewrite Z.add_0_r.
  rewrite <- (seq_shift n 0), map_map.
  set (f' := fun k => _). rewrite (written_after s f' (cur + 1)).
  - subst f'. cbv beta. destruct (Hj cur ltac:(lia)) as [_ ->]. rewrite andb_false_r, Z.eqb_refl.
    replace (512 * S n)%nat with (512 + 512 * n)%nat by lia. rewrite <- take_take_drop. f_equal.
    rewrite <- (IH (fun k => if k =? phys s cur then take 512 buf else f k) (cur + 1) (drop 512 buf)).
    + f_equal. apply map_ext. intros i. do 2 f_equal. lia.
    + split_and!; [lia..|]. intros j Hj'. apply Hj. lia.
    + rewrite length_drop. lia.
  - lia.
  - unfold phys. destruct (Z.eqb_spec cur 0) as [-> |]; [|lia].
    destruct (decide (offset s < 0 + 1 \/ 0 + 1 + Z.of_nat n <= offset s)); [done|].
    destruct (Hj (offset s) ltac:(lia)). done.
Qed.

Lemma view_written s s' sec n buf :
  same_setup s s' -> plain_range s sec (Z.of_nat n) -> (512 * n <= length buf)%nat ->
  (forall k, medium s' k = written s (medium s) sec n buf k) ->
  view s' sec n = take (512 * n) buf.
Proof.
  intros (Ho & _) Hp Hl Hm. rewrite <- (written_view s (medium s) n sec buf) by done.
  unfold view. f_equal. apply map_ext. intros i. rewrite Hm. unfold phys. by rewrite Ho.
Qed.

Lemma displaced_setup s s' : same_setup s s' -> displaced s -> displaced s'.
Proof. intros (H1 & H2 & _). unfold displaced. by rewrite H1, H2. Qed.

End DiskFacts.
