(* ===== verification/BdrvOpen.v ===== *)
(** * Opening the guest's disks

    [bdrv_init] and [bdrv_open] of [hw/bdrv.c], [displace_bdrv_open] of
    [hw/displace_bdrv.c] and the search for disks of [devices/disk.c].  The
    boot disk is opened under a name that is printed and parsed again, with
    the place of the monitor in it.  What the probes of the ATA and USB
    drivers found is a record. *)

From Stdlib Require Import ZArith Lia Bool Ascii String.
From stdpp Require Import base list.
From S2P Require Import Prelude Printf Cstring Strtol Bdrv.

Section Open.
Context {D : Type} {HD : Drive D}.

(** A device of the USB stack: its mass storage, whether that is bootable,
    and its name. *)
Record usbdevice := mk_usbdevice { usbdev_is_msd : option D; usbmsd_is_bootdisk : bool; usbmsd_name : list Z }.

Record hardware := mk_hardware {
  usb_get_devlist : list usbdevice;
  ata_disk_get : Z -> Z -> option D;
  boot_disk_name : option (list Z) }.

Definition identify_ata_disk (hw : hardware) (chan_no dev_no : Z) : option (disk D) :=
  match ata_disk_get hw chan_no dev_no with
  | None => None
  | Some d => Some (identify_disk DISK_ATA d)
  end.

Fixpoint boot_loop (name : option (list Z)) (devlist : list usbdevice) : option (disk D) :=
  match devlist with
  | [] => None
  | dev :: devlist =>
    match usbdev_is_msd dev with
    | None => boot_loop name devlist
    | Some msd =>
      if usbmsd_is_bootdisk dev
         && match name with None => true | Some n => strcmp (usbmsd_name dev) n =? 0 end
      then Some (identify_disk DISK_USB msd) else boot_loop name devlist
    end
  end.
Definition identify_boot_disk (hw : hardware) : option (disk D) :=
  match boot_loop (boot_disk_name hw) (usb_get_devlist hw) with
  | Some d => Some d
  | None => identify_ata_disk hw 0 0
  end.

(** Whether the name is one of [displace_bdrv]: two pointers into a string
    are equal if they have the same number of characters before them. *)
Definition find_protocol (filename : list Z) : bool :=
  match strchr filename 58 with
  | None => false
  | Some colon =>
    let str := tail colon in
    let num_end := snd (strtoll str 16) in
    match strchr str 58 with
    | None => false
    | Some p =>
      if strlen num_end =? strlen p then
        let num2_end := snd (strtoll (tail num_end) 16) in
        strlen num2_end =? 0
      else false
    end
  end.

(** [None] is the result -1. *)
Definition displace_bdrv_open (hw : hardware) (filename : list Z) : res (option (displace D)) :=
  let ch i := peek (drop i filename) in
  '(d, offset_str) ← (match strstart filename (chars "bootdisk:") with
    | Some offset_str => mret (identify_boot_disk hw, offset_str)
    | None =>
      assert ((ch 0%nat =? 104) && (ch 1%nat =? 100) && (ch 3%nat =? 58));;
      d ← (if ch 2%nat =? 97 then mret (identify_ata_disk hw 0 0)
           else if ch 2%nat =? 98 then mret (identify_ata_disk hw 0 1)
           else if ch 2%nat =? 99 then mret (identify_ata_disk hw 1 0)
           else if ch 2%nat =? 100 then mret (identify_ata_disk hw 1 1)
           else Stop Panic);
      mret (d, drop 4 filename)
    end);
  match d with
  | None => mret None
  | Some d =>
    let '(ofs, colon) := strtoll offset_str 16 in
    assert (peek colon =? 58);;
    mret (Some (mk_displace d (wrap 32 ofs) (wrap 32 (fst (strtoll (tail colon) 16)))))
  end.

(** [BlockDriverState]; [opaque] is the state of [displace_bdrv]. *)
Record BlockDriverState := mk_bds {
  filename : list Z; drv : bool; opaque : option (displace D); total_sectors : Z }.

(** [memory] tells whether [malloc] succeeds. *)
Definition bdrv_open (hw : hardware) (memory : bool) (bs : BlockDriverState) (name : list Z) :
    res (Z * BlockDriverState) :=
  '(_, fn) ← strlcpy (filename bs) 0 name 64;
  if negb (find_protocol name) then mret (-1, mk_bds fn (drv bs) (opaque bs) (total_sectors bs)) else
  if negb memory then mret (-1, mk_bds fn true None (total_sectors bs)) else
  o ← displace_bdrv_open hw name;
  match o with
  | None => mret (-1, mk_bds fn false None (total_sectors bs))
  | Some s =>
    '(n, s) ← displace_bdrv_getlength s;
    mret (0, mk_bds fn true (Some s) (n / DISK_SECTOR_SIZE))
  end.

(** [bs] is what the allocated states hold, [buf] the 128 bytes of
    [drive_str]. *)
Definition bdrv_init (hw : hardware) (memory : bool) (bs : BlockDriverState) (buf : list Z)
    (monitor_ofs loader_pages monitor_pages swap_disk_pages : Z) :
    res (BlockDriverState * option BlockDriverState) :=
  '(_, drive_str) ← vsnprintf buf 128 (chars "bootdisk:0x%x:0x%x")
    [Arg32 (wrap 32 (monitor_ofs - 1));
     Arg32 (wrap 32 ((loader_pages + monitor_pages + swap_disk_pages) * 8 + 1))];
  name ← string_at drive_str 0;
  '(ret, hda) ← bdrv_open hw memory bs name;
  assert (0 <=? ret);;
  '(_, drive_str) ← vsnprintf drive_str 128 (chars "hdb:0:0") [];
  name ← string_at drive_str 0;
  '(ret, hdb) ← bdrv_open hw memory bs name;
  mret (hda, if 0 <=? ret then Some hdb else None).

End Open.
Arguments usbdevice D : clear implicits.
Arguments hardware D : clear implicits.
Arguments BlockDriverState D : clear implicits.

(** ** The drive's name *)

Lemma vprintf_literal ls f t args :
  Forall (fun c => c <> 37) ls ->
  vprintf_loop (length ls + f) (ls ++ t) args = (rest ← vprintf_loop f t args; mret (ls ++ rest)).
Proof.
  induction 1 as [|c ls Hc _ IH]; cbn [length app Nat.add vprintf_loop].
  - by destruct (vprintf_loop f t args).
  - rewrite (proj2 (Z.eqb_neq c 37) Hc). cbn [negb]. rewrite IH. by destruct (vprintf_loop f t args).
Qed.

Lemma vprintf_hex f t v args out :
  parse_conversion (120 :: t) (Arg32 v :: args) = Ret (120 :: t, no_flags, Arg32 v :: args) ->
  format_integer v false false base_x no_flags = Ret out ->
  vprintf_loop (S f) (37 :: 120 :: t) (Arg32 v :: args) =
  (rest ← vprintf_loop f t args; mret (out ++ rest)).
Proof.
  intros Hp Hf. cbn [vprintf_loop]. change (negb (37 =? 37)) with false.
  change (peek (120 :: t) =? 37) with false. cbv iota. rewrite Hp. cbn [mbind res_bind peek].
  unfold convert. change ((120 =? 100) || (120 =? 105)) with false.
  change (unsigned_base 120) with (Some base_x). cbv iota.
  change (unsigned_arg (Printf.type no_flags) (Arg32 v :: args)) with (@Ret (Z * list arg) (v, args)).
  cbn [mbind res_bind]. rewrite Hf. reflexivity.
Qed.

Definition drive_name (cs1 cs2 : list Z) : list Z :=
  chars "bootdisk:0x" ++ cs1 ++ chars ":0x" ++ cs2.

Lemma drive_name_printed a b :
  inU 32 a -> inU 32 b ->
  exists cs1 ds1 cs2 ds2,
    __vprintf (chars "bootdisk:0x%x:0x%x") [Arg32 a; Arg32 b] = Ret (drive_name cs1 cs2) /\
    digit_chars 16 cs1 ds1 /\ value_from 16 0 ds1 = a /\ cs1 <> [] /\ (length cs1 <= 8)%nat /\
    digit_chars 16 cs2 ds2 /\ value_from 16 0 ds2 = b /\ cs2 <> [] /\ (length cs2 <= 8)%nat.
Proof.
  intros Ha Hb. destruct (format_hex a Ha) as (cs1 & ds1 & E1 & A1 & A2 & A3 & A4).
  destruct (format_hex b Hb) as (cs2 & ds2 & E2 & B1 & B2 & B3 & B4).
  exists cs1, ds1, cs2, ds2. split; [|done]. unfold __vprintf.
  change (chars "bootdisk:0x%x:0x%x") with (chars "bootdisk:0x" ++ 37 :: 120 :: chars ":0x%x").
  change (S (length (chars "bootdisk:0x" ++ 37 :: 120 :: chars ":0x%x"))) with (length (chars "bootdisk:0x") + 8)%nat.
  rewrite vprintf_literal by (vm_compute; repeat constructor; discriminate).
  rewrite (vprintf_hex 7 _ _ _ cs1) by (reflexivity || exact E1).
  change (chars ":0x%x") with (chars ":0x" ++ [37; 120]).
  change 7%nat with (length (chars ":0x") + 4)%nat.
  rewrite vprintf_literal by (vm_compute; repeat constructor; discriminate).
  rewrite (vprintf_hex 3 _ _ _ cs2) by (reflexivity || exact E2).
  unfold drive_name. cbn [vprintf_loop mbind res_bind mret res_ret]. by rewrite app_nil_r.
Qed.

Lemma digit_char base c d : digit_of base c = Some d -> c <> 58 /\ 0 < c < 256.
Proof.
  intros H. split; [intros ->; discriminate|]. revert H.
  unfold digit_of, isdigit, isalpha, islower, isupper.
  destruct (Z.leb_spec 48 c), (Z.leb_spec c 57), (Z.leb_spec 97 c), (Z.leb_spec c 122),
    (Z.leb_spec 65 c), (Z.leb_spec c 90); simpl; try discriminate; lia.
Qed.

Lemma digits_chars_ok base cs ds :
  digit_chars base cs ds -> Forall (fun c => c <> 58 /\ 0 < c < 256) cs.
Proof. induction 1; constructor; [by eapply digit_char|done]. Qed.

(** What [vsnprintf] left in a buffer is the string, if it fits. *)
Lemma string_at_bounded buf n out :
  lenZ out < n -> n <= lenZ buf -> Forall (fun c => 0 < c < 256) out ->
  string_at (bounded buf n out) 0 = Ret out.
Proof.
  intros Ho Hn Hc. apply string_at_has. unfold bounded, lenZ in *.
  rewrite (proj2 (Z.ltb_lt 0 n)) by lia. rewrite take_ge by lia. constructor.
  - lia.
  - intros k c Hk. rewrite Z.add_0_l. unfold geti in *. destruct (k <? 0); [done|].
    by apply lookup_app_l_Some.
  - rewrite Z.add_0_l. unfold lenZ, geti. rewrite (proj2 (Z.ltb_ge _ _)), Nat2Z.id by lia.
    rewrite lookup_app_r by lia. by rewrite Nat.sub_diag.
  - done.
Qed.

(** A bounded buffer has the size it had. *)
Lemma bounded_length buf n out : lenZ out < n -> n <= lenZ buf -> lenZ (bounded buf n out) = lenZ buf.
Proof.
  intros Ho Hn. unfold bounded, lenZ in *. rewrite (proj2 (Z.ltb_lt 0 n)) by lia. rewrite take_ge by lia.
  rewrite length_app. cbn [length]. rewrite length_drop. lia.
Qed.

Lemma strchr_skip ls t :
  Forall (fun c => c <> 58) ls -> strchr (ls ++ 58 :: t) 58 = Some (58 :: t).
Proof.
  unfold strchr. change (wrap 8 58) with 58. induction 1 as [|c ls Hc _ IH]; [done|].
  simpl. by rewrite (proj2 (Z.eqb_neq c 58) Hc).
Qed.

Section Named.
Context (cs1 ds1 cs2 ds2 : list Z).
Hypothesis H1 : digit_chars 16 cs1 ds1.
Hypothesis N1 : cs1 <> [].
Hypothesis H2 : digit_chars 16 cs2 ds2.
Hypothesis N2 : cs2 <> [].

Lemma first_number :
  strtoll (48 :: 120 :: cs1 ++ chars ":0x" ++ cs2) 16 =
  (clamp (value_from 16 0 ds1), chars ":0x" ++ cs2).
Proof. by apply strtol_hex_prefix. Qed.

Lemma second_number :
  strtoll (chars "0x" ++ cs2) 16 = (clamp (value_from 16 0 ds2), []).
Proof.
  pose proof (strtol_hex_prefix cs2 ds2 [] H2 N2 eq_refl) as E. rewrite app_nil_r in E. exact E.
Qed.

Lemma name_protocol : find_protocol (drive_name cs1 cs2) = true.
Proof.
  unfold find_protocol, drive_name.
  change (chars "bootdisk:0x" ++ cs1 ++ chars ":0x" ++ cs2)
    with (chars "bootdisk" ++ 58 :: 48 :: 120 :: cs1 ++ chars ":0x" ++ cs2).
  rewrite strchr_skip by (vm_compute; repeat constructor; discriminate). cbn [tail].
  rewrite first_number. cbn [snd].
  change (48 :: 120 :: cs1 ++ chars ":0x" ++ cs2) with ((48 :: 120 :: cs1) ++ 58 :: chars "0x" ++ cs2).
  rewrite strchr_skip.
  - change (chars ":0x" ++ cs2) with (58 :: chars "0x" ++ cs2). rewrite Z.eqb_refl. cbn [tail].
    by rewrite second_number.
  - repeat (constructor; [discriminate|]). eapply Forall_impl; [by eapply digits_chars_ok|]. by intros ? [].
Qed.

Lemma name_chars : Forall (fun c => 0 < c < 256) (drive_name cs1 cs2).
Proof.
  assert (H : forall cs ds, digit_chars 16 cs ds -> Forall (fun c => 0 < c < 256) cs).
  { intros cs ds Hc. eapply Forall_impl; [by eapply digits_chars_ok|]. by intros ? []. }
  unfold drive_name. repeat (apply Forall_app; split); try (by eapply H).
  all: vm_compute; repeat constructor.
Qed.

Context {D : Type} {HD : Drive D}.

Lemma name_open (hw : hardware D) d :
  identify_boot_disk hw = Some d ->
  displace_bdrv_open hw (drive_name cs1 cs2) =
  Ret (Some (mk_displace d (wrap 32 (clamp (value_from 16 0 ds1))) (wrap 32 (clamp (value_from 16 0 ds2))))).
Proof.
  intros Hd. unfold displace_bdrv_open.
  change (strstart (drive_name cs1 cs2) (chars "bootdisk:"))
    with (Some (48 :: 120 :: cs1 ++ chars ":0x" ++ cs2)).
  cbn [mbind res_bind mret res_ret]. rewrite Hd, first_number.
  change (peek (chars ":0x" ++ cs2) =? 58) with true. change (tail (chars ":0x" ++ cs2)) with (chars "0x" ++ cs2).
  by rewrite second_number.
Qed.
End Named.

Section Init.
Context {D : Type} {HD : Drive D}.
Implicit Types (hw : hardware D) (bs : BlockDriverState D).

(** Opening the second disk: none, or the whole disk. *)
Definition second_disk hw : option (displace D) :=
  match ata_disk_get hw 0 1 with
  | None => None
  | Some d => Some (mk_displace (identify_disk DISK_ATA d) 0 0)
  end.

Lemma second_open hw : displace_bdrv_open hw (chars "hdb:0:0") = Ret (second_disk hw).
Proof.
  unfold displace_bdrv_open, second_disk, identify_ata_disk.
  change (strstart (chars "hdb:0:0") (chars "bootdisk:")) with (@None (list Z)).
  cbn [mbind res_bind mret res_ret]. cbn -[strtoll identify_disk wrap].
  destruct (ata_disk_get hw 0 1); reflexivity.
Qed.

Lemma bdrv_open_ok hw bs name s n s' :
  64 <= lenZ (filename bs) -> find_protocol name = true -> displace_bdrv_open hw name = Ret (Some s) ->
  displace_bdrv_getlength s = Ret (n, s') ->
  exists fn, bdrv_open hw true bs name = Ret (0, mk_bds fn true (Some s') (n / 512)).
Proof.
  intros Hl Hp Ho Hg. destruct (strlcpy_ok (filename bs) 0 name 64) as (fn & E & _); [lia..|].
  exists fn. unfold bdrv_open. rewrite E. cbn [mbind res_bind]. rewrite Hp, Ho. cbn [negb mbind res_bind].
  by rewrite Hg.
Qed.

Lemma bdrv_open_none hw bs name :
  64 <= lenZ (filename bs) -> find_protocol name = true -> displace_bdrv_open hw name = Ret None ->
  exists fn, bdrv_open hw true bs name = Ret (-1, mk_bds fn false None (total_sectors bs)).
Proof.
  intros Hl Hp Ho. destruct (strlcpy_ok (filename bs) 0 name 64) as (fn & E & _); [lia..|].
  exists fn. unfold bdrv_open. rewrite E. cbn [mbind res_bind]. rewrite Hp, Ho. done.
Qed.

(** C10: [bdrv_init] opens the boot disk with the monitor's place in it: the
    name it prints for the disk is read back as the sector before the monitor
    and the number of the monitor's sectors, each limited to 2^31 - 1.  The
    second disk is opened as it is, or left out if there is none. *)
Theorem bdrv_init_opens hw bs buf ofs lp mp sp d n d' :
  64 <= lenZ (filename bs) -> lenZ buf = 128 -> identify_boot_disk hw = Some d -> disk_size d = Ret (n, d') ->
  exists hda ohdb, bdrv_init hw true bs buf ofs lp mp sp = Ret (hda, ohdb) /\
    opaque hda = Some (mk_displace d' (clamp (wrap 32 (ofs - 1))) (clamp (wrap 32 ((lp + mp + sp) * 8 + 1)))) /\
    match second_disk hw, ohdb with
    | None, None => True
    | Some s, Some hdb => exists n s', displace_bdrv_getlength s = Ret (n, s') /\ opaque hdb = Some s'
    | _, _ => False
    end.
Proof.
  intros Hf Hb Hd Hs. unfold bdrv_init.
  set (a := wrap 32 (ofs - 1)). set (l := wrap 32 _).
  assert (Ha : inU 32 a) by (apply wrap_inU; lia). assert (Hl : inU 32 l) by (apply wrap_inU; lia).
  clearbody a l.
  destruct (drive_name_printed a l Ha Hl) as (c1 & d1 & c2 & d2 & E & A1 & A2 & A3 & A4 & B1 & B2 & B3 & B4).
  assert (Hlen : lenZ (drive_name c1 c2) < 128)
    by (unfold lenZ, drive_name; rewrite !length_app; change (length (chars "bootdisk:0x")) with 11%nat;
        change (length (chars ":0x")) with 3%nat; lia).
  rewrite (vsnprintf_ok buf 128 _ _ (drive_name c1 c2)) by (lia || exact E). cbn [mbind res_bind].
  rewrite string_at_bounded; [|lia|lia|by eapply name_chars]. cbn [mbind res_bind].
  assert (Hc : forall x, inU 32 x -> wrap 32 (clamp x) = clamp x).
  { intros x Hx. apply wrap_id. unfold inU, clamp, LONG_MIN, LONG_MAX in *. lia. }
  pose proof (name_open c1 d1 c2 d2 A1 A3 B1 B3 hw d Hd) as Ho. rewrite A2, B2, !Hc in Ho by done.
  destruct (bdrv_open_ok hw bs (drive_name c1 c2) _ n (mk_displace d' (clamp a) (clamp l)) Hf
    (name_protocol c1 d1 c2 d2 A1 A3 B1 B3) Ho) as (fn & ->).
  { unfold displace_bdrv_getlength. simpl. by rewrite Hs. }
  cbn [mbind res_bind]. change (assert (0 <=? 0)) with (@Ret unit tt). cbn [mbind res_bind].
  rewrite (vsnprintf_ok _ 128 (chars "hdb:0:0") [] (chars "hdb:0:0"));
    [|rewrite bounded_length; lia|reflexivity]. cbn [mbind res_bind].
  rewrite string_at_bounded; [|vm_compute; reflexivity|rewrite bounded_length; lia|vm_compute; repeat constructor].
  cbn [mbind res_bind]. pose proof (second_open hw) as E2.
  destruct (second_disk hw) as [s|] eqn:Es.
  - assert (Hg : exists n2 s2, displace_bdrv_getlength s = Ret (n2, s2)).
    { unfold second_disk in Es. destruct (ata_disk_get hw 0 1) as [u|]; [|done]. injection Es as <-.
      do 2 eexists. reflexivity. }
    destruct Hg as (n2 & s2 & Hg). destruct (bdrv_open_ok hw bs (chars "hdb:0:0") _ _ _ Hf eq_refl E2 Hg) as (fn2 & ->).
    do 2 eexists. split; [reflexivity|]. split; [done|]. by exists n2, s2.
  - destruct (bdrv_open_none hw bs (chars "hdb:0:0") Hf eq_refl E2) as (fn2 & ->).
    do 2 eexists. split; [reflexivity|]. done.
Qed.
End Init.

(** One ATA disk, no USB devices. *)
#[local] Instance no_drive_ops : Drive unit := {
  sector _ _ := replicate 512 0;
  present _ _ := true;
  ata_disk_size _ := 1000000;
  ata_disk_read d n := Ret (replicate 512 0, d);
  ata_disk_write d n b := Ret d;
  usbmsd_read_capacity _ := None;
  usbmsd_read d n c := Ret (None, d);
  usbmsd_write d b n c := Ret (false, d);
}.
Definition one_disk : hardware unit :=
  mk_hardware [] (fun c d => if (c =? 0) && (d =? 0) then Some tt else None) None.

Lemma bdrv_init_opens_witness :
  exists hda ohdb,
    bdrv_init one_disk true (mk_bds (replicate 64 0) false None 0) (replicate 128 0) 2048 20 300 512
      = Ret (hda, ohdb) /\
    opaque hda = Some (mk_displace (mk_disk DISK_ATA tt 1000000) (clamp (wrap 32 (2048 - 1)))
      (clamp (wrap 32 ((20 + 300 + 512) * 8 + 1)))) /\
    match second_disk one_disk, ohdb with
    | None, None => True
    | Some s, Some hdb => exists n s', displace_bdrv_getlength s = Ret (n, s') /\ opaque hdb = Some s'
    | _, _ => False
    end.
Proof.
  apply (bdrv_init_opens one_disk (mk_bds (replicate 64 0) false None 0) (replicate 128 0) 2048 20 300 512
    (identify_disk DISK_ATA tt) 1000000).
  - vm_compute. discriminate.
  - reflexivity.
  - reflexivity.
  - reflexivity.
Defined.
