(* ===== verification/Ide.v ===== *)
(** * The IDE disk controller

    [hw/ide.c]: the two drives of the channel the guest's disk driver talks
    to, with their registers, commands and transfers by programmed I/O.  A
    drive reads and writes sectors of a displaced disk ([Bdrv]) and raises
    its line through the interrupt controllers and the processor's interrupt
    request word ([Uart] has that part of the machine).

    [data_ptr] and [data_end] are offsets into [io_buffer], and
    [identify_data] is kept as its bytes.  No code
    allocates a [BMDMAState]; [bmdma] tells whether the pointer is non-null,
    and using one is a fault. *)

From Stdlib Require Import ZArith Lia Bool Ascii String.
From stdpp Require Import base list.
From S2P Require Import Prelude Pic Uart Printf Cstring Bdrv.

Definition ERR_STAT : Z := 0x01.
Definition DRQ_STAT : Z := 0x08.
Definition SEEK_STAT : Z := 0x10.
Definition READY_STAT : Z := 0x40.
Definition BUSY_STAT : Z := 0x80.
Definition ABRT_ERR : Z := 0x04.
Definition IDE_CMD_RESET : Z := 0x04.
Definition IDE_CMD_DISABLE_IRQ : Z := 0x02.
Definition MAX_MULT_SECTORS : Z := 16.

Definition WIN_SRST : Z := 0x08.
Definition WIN_RECAL : Z := 0x10.
Definition WIN_READ : Z := 0x20.
Definition WIN_READ_ONCE : Z := 0x21.
Definition WIN_READ_EXT : Z := 0x24.
Definition WIN_READDMA_EXT : Z := 0x25.
Definition WIN_READ_NATIVE_MAX_EXT : Z := 0x27.
Definition WIN_MULTREAD_EXT : Z := 0x29.
Definition WIN_WRITE : Z := 0x30.
Definition WIN_WRITE_ONCE : Z := 0x31.
Definition WIN_WRITE_EXT : Z := 0x34.
Definition WIN_MULTWRITE_EXT : Z := 0x39.
Definition WIN_VERIFY : Z := 0x40.
Definition WIN_VERIFY_ONCE : Z := 0x41.
Definition WIN_VERIFY_EXT : Z := 0x42.
Definition WIN_DIAGNOSE : Z := 0x90.
Definition WIN_SPECIFY : Z := 0x91.
Definition WIN_PACKETCMD : Z := 0xA0.
Definition WIN_PIDENTIFY : Z := 0xA1.
Definition WIN_MULTREAD : Z := 0xC4.
Definition WIN_MULTWRITE : Z := 0xC5.
Definition WIN_SETMULT : Z := 0xC6.
Definition WIN_READDMA : Z := 0xC8.
Definition WIN_READDMA_ONCE : Z := 0xC9.
Definition WIN_STANDBYNOW1 : Z := 0xE0.
Definition WIN_IDLEIMMEDIATE : Z := 0xE1.
Definition WIN_CHECKPOWERMODE1 : Z := 0xE5.
Definition WIN_FLUSH_CACHE : Z := 0xE7.
Definition WIN_FLUSH_CACHE_EXT : Z := 0xEA.
Definition WIN_IDENTIFY : Z := 0xEC.
Definition WIN_SETFEATURES : Z := 0xEF.
Definition WIN_READ_NATIVE_MAX : Z := 0xF8.

(** The functions [end_transfer_func] can point to. *)
Inductive EndTransferFunc :=
| ide_transfer_stop_
| ide_sector_read_
| ide_sector_write_
| ide_dummy_transfer_stop_.

Section Ide.
Context {D : Type} `{Drive D}.

Record IDEState := mk_IDEState {
  cylinders : Z;
  heads : Z;
  sectors : Z;
  nb_sectors : Z;
  mult_sectors : Z;
  identify_set : bool;
  identify_data : list Z;
  ide_irq : Z;
  bmdma : bool;
  drive_serial : Z;
  feature : Z;
  error : Z;
  nsector : Z;
  sector_ : Z;
  lcyl : Z;
  hcyl : Z;
  hob_feature : Z;
  hob_nsector : Z;
  hob_sector : Z;
  hob_lcyl : Z;
  hob_hcyl : Z;
  select : Z;
  status : Z;
  cmd : Z;
  lba48 : bool;
  bs : option (displace D);
  io_buffer_index : Z;
  io_buffer_size : Z;
  req_nb_sectors : Z;
  end_transfer_func : EndTransferFunc;
  data_ptr : Z;
  data_end : Z;
  io_buffer : list Z }.

Definition set_cylinders (v : Z) (s : IDEState) : IDEState :=
  mk_IDEState v (heads s) (sectors s) (nb_sectors s) (mult_sectors s) (identify_set s)
    (identify_data s) (ide_irq s) (bmdma s) (drive_serial s) (feature s) (error s) (nsector s)
    (sector_ s) (lcyl s) (hcyl s) (hob_feature s) (hob_nsector s) (hob_sector s) (hob_lcyl s)
    (hob_hcyl s) (select s) (status s) (cmd s) (lba48 s) (bs s) (io_buffer_index s)
    (io_buffer_size s) (req_nb_sectors s) (end_transfer_func s) (data_ptr s) (data_end s)
    (io_buffer s).
Definition set_heads (v : Z) (s : IDEState) : IDEState :=
  mk_IDEState (cylinders s) v (sectors s) (nb_sectors s) (mult_sectors s) (identify_set s)
    (identify_data s) (ide_irq s) (bmdma s) (drive_serial s) (feature s) (error s) (nsector s)
    (sector_ s) (lcyl s) (hcyl s) (hob_feature s) (hob_nsector s) (hob_sector s) (hob_lcyl s)
    (hob_hcyl s) (select s) (status s) (cmd s) (lba48 s) (bs s) (io_buffer_index s)
    (io_buffer_size s) (req_nb_sectors s) (end_transfer_func s) (data_ptr s) (data_end s)
    (io_buffer s).
Definition set_sectors (v : Z) (s : IDEState) : IDEState :=
  mk_IDEState (cylinders s) (heads s) v (nb_sectors s) (mult_sectors s) (identify_set s)
    (identify_data s) (ide_irq s) (bmdma s) (drive_serial s) (feature s) (error s) (nsector s)
    (sector_ s) (lcyl s) (hcyl s) (hob_feature s) (hob_nsector s) (hob_sector s) (hob_lcyl s)
    (hob_hcyl s) (select s) (status s) (cmd s) (lba48 s) (bs s) (io_buffer_index s)
    (io_buffer_size s) (req_nb_sectors s) (end_transfer_func s) (data_ptr s) (data_end s)
    (io_buffer s).
Definition set_nb_sectors (v : Z) (s : IDEState) : IDEState :=
  mk_IDEState (cylinders s) (heads s) (sectors s) v (mult_sectors s) (identify_set s)
    (identify_data s) (ide_irq s) (bmdma s) (drive_serial s) (feature s) (error s) (nsector s)
    (sector_ s) (lcyl s) (hcyl s) (hob_feature s) (hob_nsector s) (hob_sector s) (hob_lcyl s)
    (hob_hcyl s) (select s) (status s) (cmd s) (lba48 s) (bs s) (io_buffer_index s)
    (io_buffer_size s) (req_nb_sectors s) (end_transfer_func s) (data_ptr s) (data_end s)
    (io_buffer s).
Definition set_mult_sectors (v : Z) (s : IDEState) : IDEState :=
  mk_IDEState (cylinders s) (heads s) (sectors s) (nb_sectors s) v (identify_set s)
    (identify_data s) (ide_irq s) (bmdma s) (drive_serial s) (feature s) (error s) (nsector s)
    (sector_ s) (lcyl s) (hcyl s) (hob_feature s) (hob_nsector s) (hob_sector s) (hob_lcyl s)
    (hob_hcyl s) (select s) (status s) (cmd s) (lba48 s) (bs s) (io_buffer_index s)
    (io_buffer_size s) (req_nb_sectors s) (end_transfer_func s) (data_ptr s) (data_end s)
    (io_buffer s).
Definition set_identify_set (v : bool) (s : IDEState) : IDEState :=
  mk_IDEState (cylinders s) (heads s) (sectors s) (nb_sectors s) (mult_sectors s) v
    (identify_data s) (ide_irq s) (bmdma s) (drive_serial s) (feature s) (error s) (nsector s)
    (sector_ s) (lcyl s) (hcyl s) (hob_feature s) (hob_nsector s) (hob_sector s) (hob_lcyl s)
    (hob_hcyl s) (select s) (status s) (cmd s) (lba48 s) (bs s) (io_buffer_index s)
    (io_buffer_size s) (req_nb_sectors s) (end_transfer_func s) (data_ptr s) (data_end s)
    (io_buffer s).
Definition set_identify_data (v : list Z) (s : IDEState) : IDEState :=
  mk_IDEState (cylinders s) (heads s) (sectors s) (nb_sectors s) (mult_sectors s)
    (identify_set s) v (ide_irq s) (bmdma s) (drive_serial s) (feature s) (error s) (nsector s)
    (sector_ s) (lcyl s) (hcyl s) (hob_feature s) (hob_nsector s) (hob_sector s) (hob_lcyl s)
    (hob_hcyl s) (select s) (status s) (cmd s) (lba48 s) (bs s) (io_buffer_index s)
    (io_buffer_size s) (req_nb_sectors s) (end_transfer_func s) (data_ptr s) (data_end s)
    (io_buffer s).
Definition set_ide_irq (v : Z) (s : IDEState) : IDEState :=
  mk_IDEState (cylinders s) (heads s) (sectors s) (nb_sectors s) (mult_sectors s)
    (identify_set s) (identify_data s) v (bmdma s) (drive_serial s) (feature s) (error s)
    (nsector s) (sector_ s) (lcyl s) (hcyl s) (hob_feature s) (hob_nsector s) (hob_sector s)
    (hob_lcyl s) (hob_hcyl s) (select s) (status s) (cmd s) (lba48 s) (bs s) (io_buffer_index s)
    (io_buffer_size s) (req_nb_sectors s) (end_transfer_func s) (data_ptr s) (data_end s)
    (io_buffer s).
Definition set_bmdma (v : bool) (s : IDEState) : IDEState :=
  mk_IDEState (cylinders s) (heads s) (sectors s) (nb_sectors s) (mult_sectors s)
    (identify_set s) (identify_data s) (ide_irq s) v (drive_serial s) (feature s) (error s)
    (nsector s) (sector_ s) (lcyl s) (hcyl s) (hob_feature s) (hob_nsector s) (hob_sector s)
    (hob_lcyl s) (hob_hcyl s) (select s) (status s) (cmd s) (lba48 s) (bs s) (io_buffer_index s)
    (io_buffer_size s) (req_nb_sectors s) (end_transfer_func s) (data_ptr s) (data_end s)
    (io_buffer s).
Definition set_drive_serial (v : Z) (s : IDEState) : IDEState :=
  mk_IDEState (cylinders s) (heads s) (sectors s) (nb_sectors s) (mult_sectors s)
    (identify_set s) (identify_data s) (ide_irq s) (bmdma s) v (feature s) (error s) (nsector s)
    (sector_ s) (lcyl s) (hcyl s) (hob_feature s) (hob_nsector s) (hob_sector s) (hob_lcyl s)
    (hob_hcyl s) (select s) (status s) (cmd s) (lba48 s) (bs s) (io_buffer_index s)
    (io_buffer_size s) (req_nb_sectors s) (end_transfer_func s) (data_ptr s) (data_end s)
    (io_buffer s).
Definition set_feature (v : Z) (s : IDEState) : IDEState :=
  mk_IDEState (cylinders s) (heads s) (sectors s) (nb_sectors s) (mult_sectors s)
    (identify_set s) (identify_data s) (ide_irq s) (bmdma s) (drive_serial s) v (error s)
    (nsector s) (sector_ s) (lcyl s) (hcyl s) (hob_feature s) (hob_nsector s) (hob_sector s)
    (hob_lcyl s) (hob_hcyl s) (select s) (status s) (cmd s) (lba48 s) (bs s) (io_buffer_index s)
    (io_buffer_size s) (req_nb_sectors s) (end_transfer_func s) (data_ptr s) (data_end s)
    (io_buffer s).
Definition set_error (v : Z) (s : IDEState) : IDEState :=
  mk_IDEState (cylinders s) (heads s) (sectors s) (nb_sectors s) (mult_sectors s)
    (identify_set s) (identify_data s) (ide_irq s) (bmdma s) (drive_serial s) (feature s) v
    (nsector s) (sector_ s) (lcyl s) (hcyl s) (hob_feature s) (hob_nsector s) (hob_sector s)
    (hob_lcyl s) (hob_hcyl s) (select s) (status s) (cmd s) (lba48 s) (bs s) (io_buffer_index s)
    (io_buffer_size s) (req_nb_sectors s) (end_transfer_func s) (data_ptr s) (data_end s)
    (io_buffer s).
Definition set_nsector (v : Z) (s : IDEState) : IDEState :=
  mk_IDEState (cylinders s) (heads s) (sectors s) (nb_sectors s) (mult_sectors s)
    (identify_set s) (identify_data s) (ide_irq s) (bmdma s) (drive_serial s) (feature s) (error
    s) v (sector_ s) (lcyl s) (hcyl s) (hob_feature s) (hob_nsector s) (hob_sector s) (hob_lcyl
    s) (hob_hcyl s) (select s) (status s) (cmd s) (lba48 s) (bs s) (io_buffer_index s)
    (io_buffer_size s) (req_nb_sectors s) (end_transfer_func s) (data_ptr s) (data_end s)
    (io_buffer s).
Definition set_sector (v : Z) (s : IDEState) : IDEState :=
  mk_IDEState (cylinders s) (heads s) (sectors s) (nb_sectors s) (mult_sectors s)
    (identify_set s) (identify_data s) (ide_irq s) (bmdma s) (drive_serial s) (feature s) (error
    s) (nsector s) v (lcyl s) (hcyl s) (hob_feature s) (hob_nsector s) (hob_sector s) (hob_lcyl
    s) (hob_hcyl s) (select s) (status s) (cmd s) (lba48 s) (bs s) (io_buffer_index s)
    (io_buffer_size s) (req_nb_sectors s) (end_transfer_func s) (data_ptr s) (data_end s)
    (io_buffer s).
Definition set_lcyl (v : Z) (s : IDEState) : IDEState :=
  mk_IDEState (cylinders s) (heads s) (sectors s) (nb_sectors s) (mult_sectors s)
    (identify_set s) (identify_data s) (ide_irq s) (bmdma s) (drive_serial s) (feature s) (error
    s) (nsector s) (sector_ s) v (hcyl s) (hob_feature s) (hob_nsector s) (hob_sector s)
    (hob_lcyl s) (hob_hcyl s) (select s) (status s) (cmd s) (lba48 s) (bs s) (io_buffer_index s)
    (io_buffer_size s) (req_nb_sectors s) (end_transfer_func s) (data_ptr s) (data_end s)
    (io_buffer s).
Definition set_hcyl (v : Z) (s : IDEState) : IDEState :=
  mk_IDEState (cylinders s) (heads s) (sectors s) (nb_sectors s) (mult_sectors s)
    (identify_set s) (identify_data s) (ide_irq s) (bmdma s) (drive_serial s) (feature s) (error
    s) (nsector s) (sector_ s) (lcyl s) v (hob_feature s) (hob_nsector s) (hob_sector s)
    (hob_lcyl s) (hob_hcyl s) (select s) (status s) (cmd s) (lba48 s) (bs s) (io_buffer_index s)
    (io_buffer_size s) (req_nb_sectors s) (end_transfer_func s) (data_ptr s) (data_end s)
    (io_buffer s).
Definition set_hob_feature (v : Z) (s : IDEState) : IDEState :=
  mk_IDEState (cylinders s) (heads s) (sectors s) (nb_sectors s) (mult_sectors s)
    (identify_set s) (identify_data s) (ide_irq s) (bmdma s) (drive_serial s) (feature s) (error
    s) (nsector s) (sector_ s) (lcyl s) (hcyl s) v (hob_nsector s) (hob_sector s) (hob_lcyl s)
    (hob_hcyl s) (select s) (status s) (cmd s) (lba48 s) (bs s) (io_buffer_index s)
    (io_buffer_size s) (req_nb_sectors s) (end_transfer_func s) (data_ptr s) (data_end s)
    (io_buffer s).
Definition set_hob_nsector (v : Z) (s : IDEState) : IDEState :=
  mk_IDEState (cylinders s) (heads s) (sectors s) (nb_sectors s) (mult_sectors s)
    (identify_set s) (identify_data s) (ide_irq s) (bmdma s) (drive_serial s) (feature s) (error
    s) (nsector s) (sector_ s) (lcyl s) (hcyl s) (hob_feature s) v (hob_sector s) (hob_lcyl s)
    (hob_hcyl s) (select s) (status s) (cmd s) (lba48 s) (bs s) (io_buffer_index s)
    (io_buffer_size s) (req_nb_sectors s) (end_transfer_func s) (data_ptr s) (data_end s)
    (io_buffer s).
Definition set_hob_sector (v : Z) (s : IDEState) : IDEState :=
  mk_IDEState (cylinders s) (heads s) (sectors s) (nb_sectors s) (mult_sectors s)
    (identify_set s) (identify_data s) (ide_irq s) (bmdma s) (drive_serial s) (feature s) (error
    s) (nsector s) (sector_ s) (lcyl s) (hcyl s) (hob_feature s) (hob_nsector s) v (hob_lcyl s)
    (hob_hcyl s) (select s) (status s) (cmd s) (lba48 s) (bs s) (io_buffer_index s)
    (io_buffer_size s) (req_nb_sectors s) (end_transfer_func s) (data_ptr s) (data_end s)
    (io_buffer s).
Definition set_hob_lcyl (v : Z) (s : IDEState) : IDEState :=
  mk_IDEState (cylinders s) (heads s) (sectors s) (nb_sectors s) (mult_sectors s)
    (identify_set s) (identify_data s) (ide_irq s) (bmdma s) (drive_serial s) (feature s) (error
    s) (nsector s) (sector_ s) (lcyl s) (hcyl s) (hob_feature s) (hob_nsector s) (hob_sector s)
    v (hob_hcyl s) (select s) (status s) (cmd s) (lba48 s) (bs s) (io_buffer_index s)
    (io_buffer_size s) (req_nb_sectors s) (end_transfer_func s) (data_ptr s) (data_end s)
    (io_buffer s).
Definition set_hob_hcyl (v : Z) (s : IDEState) : IDEState :=
  mk_IDEState (cylinders s) (heads s) (sectors s) (nb_sectors s) (mult_sectors s)
    (identify_set s) (identify_data s) (ide_irq s) (bmdma s) (drive_serial s) (feature s) (error
    s) (nsector s) (sector_ s) (lcyl s) (hcyl s) (hob_feature s) (hob_nsector s) (hob_sector s)
    (hob_lcyl s) v (select s) (status s) (cmd s) (lba48 s) (bs s) (io_buffer_index s)
    (io_buffer_size s) (req_nb_sectors s) (end_transfer_func s) (data_ptr s) (data_end s)
    (io_buffer s).
Definition set_select (v : Z) (s : IDEState) : IDEState :=
  mk_IDEState (cylinders s) (heads s) (sectors s) (nb_sectors s) (mult_sectors s)
    (identify_set s) (identify_data s) (ide_irq s) (bmdma s) (drive_serial s) (feature s) (error
    s) (nsector s) (sector_ s) (lcyl s) (hcyl s) (hob_feature s) (hob_nsector s) (hob_sector s)
    (hob_lcyl s) (hob_hcyl s) v (status s) (cmd s) (lba48 s) (bs s) (io_buffer_index s)
    (io_buffer_size s) (req_nb_sectors s) (end_transfer_func s) (data_ptr s) (data_end s)
    (io_buffer s).
Definition set_status (v : Z) (s : IDEState) : IDEState :=
  mk_IDEState (cylinders s) (heads s) (sectors s) (nb_sectors s) (mult_sectors s)
    (identify_set s) (identify_data s) (ide_irq s) (bmdma s) (drive_serial s) (feature s) (error
    s) (nsector s) (sector_ s) (lcyl s) (hcyl s) (hob_feature s) (hob_nsector s) (hob_sector s)
    (hob_lcyl s) (hob_hcyl s) (select s) v (cmd s) (lba48 s) (bs s) (io_buffer_index s)
    (io_buffer_size s) (req_nb_sectors s) (end_transfer_func s) (data_ptr s) (data_end s)
    (io_buffer s).
Definition set_cmd (v : Z) (s : IDEState) : IDEState :=
  mk_IDEState (cylinders s) (heads s) (sectors s) (nb_sectors s) (mult_sectors s)
    (identify_set s) (identify_data s) (ide_irq s) (bmdma s) (drive_serial s) (feature s) (error
    s) (nsector s) (sector_ s) (lcyl s) (hcyl s) (hob_feature s) (hob_nsector s) (hob_sector s)
    (hob_lcyl s) (hob_hcyl s) (select s) (status s) v (lba48 s) (bs s) (io_buffer_index s)
    (io_buffer_size s) (req_nb_sectors s) (end_transfer_func s) (data_ptr s) (data_end s)
    (io_buffer s).
Definition set_lba48 (v : bool) (s : IDEState) : IDEState :=
  mk_IDEState (cylinders s) (heads s) (sectors s) (nb_sectors s) (mult_sectors s)
    (identify_set s) (identify_data s) (ide_irq s) (bmdma s) (drive_serial s) (feature s) (error
    s) (nsector s) (sector_ s) (lcyl s) (hcyl s) (hob_feature s) (hob_nsector s) (hob_sector s)
    (hob_lcyl s) (hob_hcyl s) (select s) (status s) (cmd s) v (bs s) (io_buffer_index s)
    (io_buffer_size s) (req_nb_sectors s) (end_transfer_func s) (data_ptr s) (data_end s)
    (io_buffer s).
Definition set_bs (v : option (displace D)) (s : IDEState) : IDEState :=
  mk_IDEState (cylinders s) (heads s) (sectors s) (nb_sectors s) (mult_sectors s)
    (identify_set s) (identify_data s) (ide_irq s) (bmdma s) (drive_serial s) (feature s) (error
    s) (nsector s) (sector_ s) (lcyl s) (hcyl s) (hob_feature s) (hob_nsector s) (hob_sector s)
    (hob_lcyl s) (hob_hcyl s) (select s) (status s) (cmd s) (lba48 s) v (io_buffer_index s)
    (io_buffer_size s) (req_nb_sectors s) (end_transfer_func s) (data_ptr s) (data_end s)
    (io_buffer s).
Definition set_io_buffer_index (v : Z) (s : IDEState) : IDEState :=
  mk_IDEState (cylinders s) (heads s) (sectors s) (nb_sectors s) (mult_sectors s)
    (identify_set s) (identify_data s) (ide_irq s) (bmdma s) (drive_serial s) (feature s) (error
    s) (nsector s) (sector_ s) (lcyl s) (hcyl s) (hob_feature s) (hob_nsector s) (hob_sector s)
    (hob_lcyl s) (hob_hcyl s) (select s) (status s) (cmd s) (lba48 s) (bs s) v (io_buffer_size
    s) (req_nb_sectors s) (end_transfer_func s) (data_ptr s) (data_end s) (io_buffer s).
Definition set_io_buffer_size (v : Z) (s : IDEState) : IDEState :=
  mk_IDEState (cylinders s) (heads s) (sectors s) (nb_sectors s) (mult_sectors s)
    (identify_set s) (identify_data s) (ide_irq s) (bmdma s) (drive_serial s) (feature s) (error
    s) (nsector s) (sector_ s) (lcyl s) (hcyl s) (hob_feature s) (hob_nsector s) (hob_sector s)
    (hob_lcyl s) (hob_hcyl s) (select s) (status s) (cmd s) (lba48 s) (bs s) (io_buffer_index s)
    v (req_nb_sectors s) (end_transfer_func s) (data_ptr s) (data_end s) (io_buffer s).
Definition set_req_nb_sectors (v : Z) (s : IDEState) : IDEState :=
  mk_IDEState (cylinders s) (heads s) (sectors s) (nb_sectors s) (mult_sectors s)
    (identify_set s) (identify_data s) (ide_irq s) (bmdma s) (drive_serial s) (feature s) (error
    s) (nsector s) (sector_ s) (lcyl s) (hcyl s) (hob_feature s) (hob_nsector s) (hob_sector s)
    (hob_lcyl s) (hob_hcyl s) (select s) (status s) (cmd s) (lba48 s) (bs s) (io_buffer_index s)
    (io_buffer_size s) v (end_transfer_func s) (data_ptr s) (data_end s) (io_buffer s).
Definition set_end_transfer_func (v : EndTransferFunc) (s : IDEState) : IDEState :=
  mk_IDEState (cylinders s) (heads s) (sectors s) (nb_sectors s) (mult_sectors s)
    (identify_set s) (identify_data s) (ide_irq s) (bmdma s) (drive_serial s) (feature s) (error
    s) (nsector s) (sector_ s) (lcyl s) (hcyl s) (hob_feature s) (hob_nsector s) (hob_sector s)
    (hob_lcyl s) (hob_hcyl s) (select s) (status s) (cmd s) (lba48 s) (bs s) (io_buffer_index s)
    (io_buffer_size s) (req_nb_sectors s) v (data_ptr s) (data_end s) (io_buffer s).
Definition set_data_ptr (v : Z) (s : IDEState) : IDEState :=
  mk_IDEState (cylinders s) (heads s) (sectors s) (nb_sectors s) (mult_sectors s)
    (identify_set s) (identify_data s) (ide_irq s) (bmdma s) (drive_serial s) (feature s) (error
    s) (nsector s) (sector_ s) (lcyl s) (hcyl s) (hob_feature s) (hob_nsector s) (hob_sector s)
    (hob_lcyl s) (hob_hcyl s) (select s) (status s) (cmd s) (lba48 s) (bs s) (io_buffer_index s)
    (io_buffer_size s) (req_nb_sectors s) (end_transfer_func s) v (data_end s) (io_buffer s).
Definition set_data_end (v : Z) (s : IDEState) : IDEState :=
  mk_IDEState (cylinders s) (heads s) (sectors s) (nb_sectors s) (mult_sectors s)
    (identify_set s) (identify_data s) (ide_irq s) (bmdma s) (drive_serial s) (feature s) (error
    s) (nsector s) (sector_ s) (lcyl s) (hcyl s) (hob_feature s) (hob_nsector s) (hob_sector s)
    (hob_lcyl s) (hob_hcyl s) (select s) (status s) (cmd s) (lba48 s) (bs s) (io_buffer_index s)
    (io_buffer_size s) (req_nb_sectors s) (end_transfer_func s) (data_ptr s) v (io_buffer s).
Definition set_io_buffer (v : list Z) (s : IDEState) : IDEState :=
  mk_IDEState (cylinders s) (heads s) (sectors s) (nb_sectors s) (mult_sectors s)
    (identify_set s) (identify_data s) (ide_irq s) (bmdma s) (drive_serial s) (feature s) (error
    s) (nsector s) (sector_ s) (lcyl s) (hcyl s) (hob_feature s) (hob_nsector s) (hob_sector s)
    (hob_lcyl s) (hob_hcyl s) (select s) (status s) (cmd s) (lba48 s) (bs s) (io_buffer_index s)
    (io_buffer_size s) (req_nb_sectors s) (end_transfer_func s) (data_ptr s) (data_end s) v.

(** The channel: the machine around it, both drives, and which is selected
    ([cur_drive] of the first; true for the second). *)
Record ide := mk_ide { mach : machine; if0 : IDEState; if1 : IDEState; cur_drive : bool }.

Definition the_if (u : bool) (c : ide) : IDEState := if u then if1 c else if0 c.
Definition with_if (u : bool) (s : IDEState) (c : ide) : ide :=
  if u then mk_ide (mach c) (if0 c) s (cur_drive c) else mk_ide (mach c) s (if1 c) (cur_drive c).

Definition get_if (u : bool) : st ide IDEState := fun c => Ret (the_if u c, c).
Definition upd (u : bool) (f : IDEState -> IDEState) : st ide unit :=
  modify (fun c => with_if u (f (the_if u c)) c).
Definition both (f : IDEState -> IDEState) : st ide unit := upd false f;; upd true f.
Definition is_null {A} (o : option A) : bool := match o with Some _ => false | None => true end.

(** *** Block driver calls *)

Definition bdrv_read (u : bool) (sector_num n : Z) : st ide (list Z) :=
  s ← get_if u;
  match bs s with
  | None => stop_with Panic
  | Some b =>
    '(data, b) ← lift (displace_bdrv_read b (wrap 32 sector_num) n);
    upd u (set_bs (Some b));;
    mret data
  end.
Definition bdrv_write (u : bool) (sector_num : Z) (buf : list Z) (n : Z) : st ide unit :=
  s ← get_if u;
  match bs s with
  | None => stop_with Panic
  | Some b =>
    b ← lift (displace_bdrv_write b (wrap 32 sector_num) buf n);
    upd u (set_bs (Some b))
  end.
Definition bdrv_flush (u : bool) : st ide unit :=
  s ← get_if u;
  if is_null (bs s) then stop_with Panic else mret tt.

(** *** Interrupts *)

Definition set_line (u level : bool) : st ide unit := fun c =>
  match set_irq_line (mach c) (ide_irq (the_if u c)) level with
  | Ret m => Ret (tt, mk_ide m (if0 c) (if1 c) (cur_drive c))
  | Stop e => Stop e
  end.
Definition ide_set_irq (u : bool) : st ide unit :=
  s ← get_if u;
  if nz (cmd s &! IDE_CMD_DISABLE_IRQ) then mret tt
  else if bmdma s then stop_with Fault
  else set_line u true.

(** *** Sector numbers *)

Definition ide_get_sector (s : IDEState) : Z :=
  if nz (select s &! 0x40) then
    if negb (lba48 s) then
      ((select s &! 0x0f) << 24) |! (hcyl s << 16) |! (lcyl s << 8) |! sector_ s
    else
      (hob_hcyl s << 40) |! (hob_lcyl s << 32) |! (hob_sector s << 24) |! (hcyl s << 16)
        |! (lcyl s << 8) |! sector_ s
  else
    ((hcyl s << 8) |! lcyl s) * heads s * sectors s
      + (select s &! 0x0f) * sectors s + (sector_ s - 1).

Definition put_sector_num (sector_num : Z) (s : IDEState) : IDEState :=
  if nz (select s &! 0x40) then
    if negb (lba48 s) then
      let s := set_select (wrap 8 ((select s &! 0xf0) |! (sector_num >> 24))) s in
      let s := set_hcyl (wrap 8 (sector_num >> 16)) s in
      let s := set_lcyl (wrap 8 (sector_num >> 8)) s in
      set_sector (wrap 8 sector_num) s
    else
      let s := set_sector (wrap 8 sector_num) s in
      let s := set_lcyl (wrap 8 (sector_num >> 8)) s in
      let s := set_hcyl (wrap 8 (sector_num >> 16)) s in
      let s := set_hob_sector (wrap 8 (sector_num >> 24)) s in
      let s := set_hob_lcyl (wrap 8 (sector_num >> 32)) s in
      set_hob_hcyl (wrap 8 (sector_num >> 40)) s
  else
    let cyl := wrap 32 (Z.quot sector_num (heads s * sectors s)) in
    let r := wrap 32 (Z.rem sector_num (heads s * sectors s)) in
    let s := set_hcyl (wrap 8 (cyl >> 8)) s in
    let s := set_lcyl (wrap 8 cyl) s in
    let s := set_select ((select s &! 0xf0) |! ((r / sectors s) &! 0x0f)) s in
    set_sector (wrap 8 (r mod sectors s + 1)) s.

(** With cylinders, heads and sectors an unset geometry is a division by
    zero. *)
Definition ide_set_sector (u : bool) (sector_num : Z) : st ide unit :=
  s ← get_if u;
  if negb (nz (select s &! 0x40)) && ((heads s * sectors s =? 0) || (sectors s =? 0))
  then stop_with Trap else upd u (put_sector_num sector_num).

Definition ide_cmd_lba48_transform (l : bool) (s : IDEState) : IDEState :=
  let s := set_lba48 l s in
  if negb (lba48 s) then
    if nsector s =? 0 then set_nsector 256 s else s
  else if (nsector s =? 0) && (hob_nsector s =? 0) then set_nsector 65536 s
  else set_nsector (wrap 32 ((hob_nsector s << 8) |! nsector s)) s.

Definition ide_set_signature (s : IDEState) : IDEState :=
  let s := set_select (select s &! 0xf0) s in
  let s := set_nsector 1 s in
  let s := set_sector 1 s in
  if negb (is_null (bs s)) then set_hcyl 0 (set_lcyl 0 s)
  else set_hcyl 0xff (set_lcyl 0xff s).

(** *** Transfers *)

Definition ide_transfer_start (size : Z) (f : EndTransferFunc) (s : IDEState) : IDEState :=
  let s := set_end_transfer_func f s in
  let s := set_data_ptr 0 s in
  let s := set_data_end size s in
  set_status (status s |! DRQ_STAT) s.

Definition ide_transfer_stop (s : IDEState) : IDEState :=
  let s := set_end_transfer_func ide_transfer_stop_ s in
  let s := set_data_ptr 0 s in
  let s := set_data_end 0 s in
  set_status (status s &~ DRQ_STAT) s.

Definition ide_dummy_transfer_stop (s : IDEState) : IDEState :=
  let s := set_data_ptr 0 s in
  let s := set_data_end 0 s in
  set_io_buffer (replicate 4 0xff ++ drop 4 (io_buffer s)) s.

Definition ide_abort_command (s : IDEState) : IDEState :=
  set_error ABRT_ERR (set_status (READY_STAT |! ERR_STAT) s).

(** [data] replaces the first bytes of the buffer. *)
Definition fill_buffer (data : list Z) (s : IDEState) : IDEState :=
  set_io_buffer (data ++ drop (length data) (io_buffer s)) s.

Definition ide_sector_read (u : bool) : st ide unit :=
  upd u (set_status (READY_STAT |! SEEK_STAT));;
  upd u (set_error 0);;
  s ← get_if u;
  let sector_num := ide_get_sector s in
  let n := sgn 32 (nsector s) in
  if n =? 0 then upd u ide_transfer_stop
  else
    let n := if req_nb_sectors s <? n then req_nb_sectors s else n in
    data ← bdrv_read u sector_num n;
    upd u (fill_buffer data);;
    upd u (ide_transfer_start (512 * n) ide_sector_read_);;
    ide_set_irq u;;
    ide_set_sector u (sector_num + n);;
    upd u (fun s => set_nsector (wrap 32 (nsector s - n)) s).

Definition ide_sector_write (u : bool) : st ide unit :=
  upd u (set_status (READY_STAT |! SEEK_STAT));;
  s ← get_if u;
  let sector_num := ide_get_sector s in
  let n := sgn 32 (nsector s) in
  let n := if req_nb_sectors s <? n then req_nb_sectors s else n in
  bdrv_write u sector_num (io_buffer s) n;;
  upd u (fun s => set_nsector (wrap 32 (nsector s - n)) s);;
  s ← get_if u;
  (if nsector s =? 0 then upd u ide_transfer_stop
   else
     let n1 := sgn 32 (nsector s) in
     let n1 := if req_nb_sectors s <? n1 then req_nb_sectors s else n1 in
     upd u (ide_transfer_start (512 * n1) ide_sector_write_));;
  ide_set_sector u (sector_num + n);;
  ide_set_irq u.

Definition call_end_transfer (u : bool) : st ide unit :=
  s ← get_if u;
  match end_transfer_func s with
  | ide_transfer_stop_ => upd u ide_transfer_stop
  | ide_sector_read_ => ide_sector_read u
  | ide_sector_write_ => ide_sector_write u
  | ide_dummy_transfer_stop_ => upd u ide_dummy_transfer_stop
  end.

Definition ide_dma_start (u : bool) : st ide unit :=
  s ← get_if u;
  if negb (bmdma s) then mret tt else stop_with Fault.
Definition ide_sector_write_dma (u : bool) : st ide unit :=
  upd u (set_status (READY_STAT |! SEEK_STAT |! DRQ_STAT |! BUSY_STAT));;
  upd u (set_io_buffer_index 0);;
  upd u (set_io_buffer_size 0);;
  ide_dma_start u.

(** *** Identification *)

Definition put_le16 (b : list Z) (i v : Z) : list Z :=
  seti (seti b (2 * i) (wrap 8 v)) (2 * i + 1) (wrap 8 (v >> 8)).

(** The bytes of each word are swapped; the string is padded with blanks. *)
Fixpoint padstr (b : list Z) (str : Z) (src : list Z) (len : nat) : list Z :=
  match len with
  | O => b
  | S len =>
    match src with
    | [] => padstr (seti b (Z.lxor str 1) 32) (str + 1) [] len
    | v :: src => padstr (seti b (Z.lxor str 1) v) (str + 1) src len
    end
  end.

(** The string in a buffer. *)
Fixpoint cstr (b : list Z) : list Z :=
  match b with [] => [] | c :: b => if c =? 0 then [] else c :: cstr b end.

Definition put_all (b : list Z) (l : list (Z * Z)) : list Z :=
  fold_left (fun b '(i, v) => put_le16 b i v) l b.

Definition identify_block (s : IDEState) : res (list Z) :=
  let b := replicate 512 0 in
  let b := put_all b
    [(0, 0x0040); (1, cylinders s); (3, heads s); (4, 512 * sectors s); (5, 512); (6, sectors s)] in
  '(_, buf) ← vsnprintf (replicate 20 0) 20 (chars "MR%05d") [Arg32 (drive_serial s)];
  let b := padstr b (2 * 10) (cstr buf) 20 in
  let b := put_all b [(20, 3); (21, 512); (22, 4)] in
  let b := padstr b (2 * 23) (chars "0") 8 in
  let b := padstr b (2 * 27) (chars "MONITOR HARDDISK") 40 in
  let b := put_all b
    [(47, 0x8000 |! MAX_MULT_SECTORS); (48, 1); (49, (1 << 11) |! (1 << 9) |! (1 << 8));
     (51, 0x200); (52, 0x200); (53, 1 |! (1 << 1) |! (1 << 2));
     (54, cylinders s); (55, heads s); (56, sectors s)] in
  let oldsize := wrap 32 (cylinders s * heads s * sectors s) in
  let b := put_all b [(57, oldsize); (58, oldsize >> 16)] in
  let b := if nz (mult_sectors s) then put_le16 b 59 (0x100 |! mult_sectors s) else b in
  mret (put_all b
    [(60, nb_sectors s); (61, nb_sectors s >> 16); (63, 0x07);
     (65, 120); (66, 120); (67, 120); (68, 120); (80, 0xf0); (81, 0x16); (82, 1 << 14);
     (83, (1 << 14) |! (1 << 13) |! (1 << 12) |! (1 << 10)); (84, 1 << 14); (85, 1 << 14);
     (86, (1 << 14) |! (1 << 13) |! (1 << 12) |! (1 << 10)); (87, 1 << 14);
     (88, 0x3f |! (1 << 13)); (93, 1 |! (1 << 14) |! 0x2000);
     (100, nb_sectors s); (101, nb_sectors s >> 16); (102, nb_sectors s >> 32);
     (103, nb_sectors s >> 48)]).

Definition ide_identify (u : bool) : st ide unit :=
  s ← get_if u;
  if identify_set s then upd u (fill_buffer (identify_data s))
  else
    b ← lift (identify_block s);
    upd u (fill_buffer b);;
    upd u (set_identify_data b);;
    upd u (set_identify_set true).

(** *** Commands *)

Definition abort_cmd (u : bool) : st ide unit := upd u ide_abort_command;; ide_set_irq u.

(** A command that only sets the status. *)
Definition done_cmd (u : bool) (stat : Z) : st ide unit := upd u (set_status stat);; ide_set_irq u.

Definition set_identify_word (i v : Z) (s : IDEState) : IDEState :=
  set_identify_data (put_le16 (identify_data s) i v) s.

Definition cmd_setfeatures (u : bool) : st ide unit :=
  s ← get_if u;
  if is_null (bs s) then abort_cmd u
  else if existsb (Z.eqb (feature s)) [0x02; 0x82; 0xaa; 0x55] then
    done_cmd u (READY_STAT |! SEEK_STAT)
  else if feature s =? 0x03 then
    let val := nsector s &! 0x07 in
    let mode := nsector s >> 3 in
    let words := if (mode =? 0x00) || (mode =? 0x01) then Some (0x07, 0x3f)
      else if mode =? 0x04 then Some (0x07 |! (1 << (val + 8)), 0x3f)
      else if mode =? 0x08 then Some (0x07, 0x3f |! (1 << (val + 8)))
      else None in
    match words with
    | None => abort_cmd u
    | Some (w63, w88) =>
      upd u (set_identify_word 63 w63);;
      upd u (set_identify_word 88 w88);;
      done_cmd u (READY_STAT |! SEEK_STAT)
    end
  else abort_cmd u.

Definition cmd_identify (u : bool) : st ide unit :=
  s ← get_if u;
  (if negb (is_null (bs s)) then
     ide_identify u;;
     upd u (set_status (READY_STAT |! SEEK_STAT));;
     upd u (ide_transfer_start 512 ide_transfer_stop_)
   else upd u ide_abort_command);;
  ide_set_irq u.

Definition cmd_setmult (u : bool) : st ide unit :=
  s ← get_if u;
  (if (MAX_MULT_SECTORS <? nsector s) || (nsector s =? 0)
      || nz (nsector s &! wrap 32 (nsector s - 1)) then upd u ide_abort_command
   else upd u (set_mult_sectors (nsector s));; upd u (set_status READY_STAT));;
  ide_set_irq u.

Definition cmd_read (u l : bool) : st ide unit :=
  s ← get_if u;
  if is_null (bs s) then abort_cmd u else
  upd u (ide_cmd_lba48_transform l);;
  upd u (set_req_nb_sectors 1);;
  ide_sector_read u.

Definition cmd_write (u l : bool) : st ide unit :=
  upd u (ide_cmd_lba48_transform l);;
  upd u (set_error 0);;
  upd u (set_status (SEEK_STAT |! READY_STAT));;
  upd u (set_req_nb_sectors 1);;
  upd u (ide_transfer_start 512 ide_sector_write_).

Definition cmd_multread (u l : bool) : st ide unit :=
  s ← get_if u;
  if mult_sectors s =? 0 then abort_cmd u else
  upd u (ide_cmd_lba48_transform l);;
  upd u (fun s => set_req_nb_sectors (mult_sectors s) s);;
  ide_sector_read u.

Definition cmd_multwrite (u l : bool) : st ide unit :=
  s ← get_if u;
  if mult_sectors s =? 0 then abort_cmd u else
  upd u (ide_cmd_lba48_transform l);;
  upd u (set_error 0);;
  upd u (set_status (SEEK_STAT |! READY_STAT));;
  upd u (fun s => set_req_nb_sectors (mult_sectors s) s);;
  s ← get_if u;
  let n := sgn 32 (nsector s) in
  let n := if req_nb_sectors s <? n then req_nb_sectors s else n in
  upd u (ide_transfer_start (512 * n) ide_sector_write_).

Definition cmd_readdma (u l : bool) : st ide unit :=
  s ← get_if u;
  if is_null (bs s) then abort_cmd u else
  upd u (ide_cmd_lba48_transform l);;
  ide_sector_write_dma u.

Definition cmd_native_max (u l : bool) : st ide unit :=
  upd u (ide_cmd_lba48_transform l);;
  s ← get_if u;
  ide_set_sector u (nb_sectors s - 1);;
  done_cmd u READY_STAT.

Definition is_cmd (val : Z) (l : list Z) : bool := existsb (Z.eqb val) l.

Definition ide_command (u : bool) (val : Z) : st ide unit :=
  if is_cmd val [WIN_IDENTIFY] then cmd_identify u
  else if is_cmd val [WIN_SPECIFY; WIN_RECAL] then
    upd u (set_error 0);; done_cmd u (READY_STAT |! SEEK_STAT)
  else if is_cmd val [WIN_SETMULT] then cmd_setmult u
  else if is_cmd val [WIN_VERIFY_EXT; WIN_VERIFY; WIN_VERIFY_ONCE] then
    upd u (ide_cmd_lba48_transform (val =? WIN_VERIFY_EXT));; done_cmd u READY_STAT
  else if is_cmd val [WIN_READ_EXT; WIN_READ; WIN_READ_ONCE] then cmd_read u (val =? WIN_READ_EXT)
  else if is_cmd val [WIN_WRITE_EXT; WIN_WRITE; WIN_WRITE_ONCE] then cmd_write u (val =? WIN_WRITE_EXT)
  else if is_cmd val [WIN_MULTREAD_EXT; WIN_MULTREAD] then cmd_multread u (val =? WIN_MULTREAD_EXT)
  else if is_cmd val [WIN_MULTWRITE_EXT; WIN_MULTWRITE] then cmd_multwrite u (val =? WIN_MULTWRITE_EXT)
  else if is_cmd val [WIN_READDMA_EXT; WIN_READDMA; WIN_READDMA_ONCE] then
    cmd_readdma u (val =? WIN_READDMA_EXT)
  else if is_cmd val [WIN_READ_NATIVE_MAX_EXT; WIN_READ_NATIVE_MAX] then
    cmd_native_max u (val =? WIN_READ_NATIVE_MAX_EXT)
  else if is_cmd val [WIN_CHECKPOWERMODE1] then
    upd u (set_nsector 0xff);; done_cmd u READY_STAT
  else if is_cmd val [WIN_SETFEATURES] then cmd_setfeatures u
  else if is_cmd val [WIN_FLUSH_CACHE; WIN_FLUSH_CACHE_EXT] then
    s ← get_if u;
    (if negb (is_null (bs s)) then bdrv_flush u else mret tt);;
    done_cmd u READY_STAT
  else if is_cmd val [WIN_STANDBYNOW1; WIN_IDLEIMMEDIATE] then done_cmd u READY_STAT
  else if is_cmd val [WIN_PIDENTIFY] then abort_cmd u
  else if is_cmd val [WIN_DIAGNOSE] then
    upd u ide_set_signature;; upd u (set_status 0x00);; upd u (set_error 0x01)
  else abort_cmd u.

(** *** Ports *)

Definition ide_clear_hob : st ide unit := both (fun s => set_select (select s &~ (1 << 7)) s).

Definition ide_ioport_write (port val : Z) : st ide unit :=
  let port := port &! 7 in
  if port =? 0 then mret tt
  else if port =? 1 then
    ide_clear_hob;;
    both (fun s => set_hob_feature (feature s) s);;
    both (set_feature (wrap 8 val))
  else if port =? 2 then
    ide_clear_hob;;
    both (fun s => set_hob_nsector (wrap 8 (nsector s)) s);;
    both (set_nsector val)
  else if port =? 3 then
    ide_clear_hob;;
    both (fun s => set_hob_sector (sector_ s) s);;
    both (set_sector (wrap 8 val))
  else if port =? 4 then
    ide_clear_hob;;
    both (fun s => set_hob_lcyl (lcyl s) s);;
    both (set_lcyl (wrap 8 val))
  else if port =? 5 then
    ide_clear_hob;;
    both (fun s => set_hob_hcyl (hcyl s) s);;
    both (set_hcyl (wrap 8 val))
  else if port =? 6 then
    upd false (set_select (wrap 8 ((val &~ 0x10) |! 0xa0)));;
    upd true (set_select (wrap 8 ((val |! 0x10) |! 0xa0)));;
    modify (fun c => mk_ide (mach c) (if0 c) (if1 c) (nz ((val >> 4) &! 1)))
  else
    c ← get;
    let u := cur_drive c in
    if u && is_null (bs (the_if u c)) then mret tt else ide_command u val.

(** There is no disk on the channel, or none where the selected drive is. *)
Definition no_disks (c : ide) : bool := is_null (bs (if0 c)) && is_null (bs (if1 c)).
Definition no_drive (c : ide) : bool :=
  no_disks c || (cur_drive c && is_null (bs (the_if (cur_drive c) c))).

Definition ide_ioport_read (port : Z) : st ide Z :=
  let addr := port &! 7 in
  c ← get;
  let s := the_if (cur_drive c) c in
  if addr =? 0 then mret 0xff
  else if addr =? 1 then mret (if no_disks c then 0 else error s)
  else if addr =? 2 then mret (if no_disks c then 0 else nsector s &! 0xff)
  else if addr =? 3 then mret (if no_disks c then 0 else sector_ s)
  else if addr =? 4 then mret (if no_disks c then 0 else lcyl s)
  else if addr =? 5 then mret (if no_disks c then 0 else hcyl s)
  else if addr =? 6 then mret (if no_disks c then 0 else select s)
  else
    set_line (cur_drive c) false;;
    mret (if no_drive c then 0 else status s).

Definition ide_status_read (addr : Z) : st ide Z :=
  c ← get;
  mret (if no_drive c then 0 else status (the_if (cur_drive c) c)).

Definition ide_cmd_write (addr val : Z) : st ide unit :=
  c ← get;
  let was := nz (cmd (if0 c) &! IDE_CMD_RESET) in
  let now := nz (val &! IDE_CMD_RESET) in
  (if negb was && now then
     both (fun s => set_error 0x01 (set_status (BUSY_STAT |! SEEK_STAT) s))
   else if was && negb now then
     both (fun s => ide_set_signature (set_status (READY_STAT |! SEEK_STAT) s))
   else mret tt);;
  both (set_cmd (wrap 8 val)).

(** [n] bytes of [v], least significant first, and back. *)
Fixpoint le_bytes (n : nat) (v : Z) : list Z :=
  match n with O => [] | S n => wrap 8 v :: le_bytes n (v >> 8) end.
Fixpoint of_bytes (l : list Z) : Z :=
  match l with [] => 0 | b :: l => b |! (of_bytes l << 8) end.

(** Access to [n] bytes at [data_ptr]. *)
Definition ide_data_write (n : nat) (val : Z) : st ide unit :=
  c ← get;
  let u := cur_drive c in
  let s := the_if u c in
  let p := data_ptr s in
  if lenZ (io_buffer s) <? p + Z.of_nat n then stop_with Fault else
  upd u (set_io_buffer (take (Z.to_nat p) (io_buffer s) ++ le_bytes n val
                        ++ drop (Z.to_nat p + n) (io_buffer s)));;
  upd u (set_data_ptr (p + Z.of_nat n));;
  if data_end s <=? p + Z.of_nat n then call_end_transfer u else mret tt.
Definition ide_data_read (n : nat) : st ide Z :=
  c ← get;
  let u := cur_drive c in
  let s := the_if u c in
  let p := data_ptr s in
  if lenZ (io_buffer s) <? p + Z.of_nat n then stop_with Fault else
  let ret := of_bytes (take n (drop (Z.to_nat p) (io_buffer s))) in
  upd u (set_data_ptr (p + Z.of_nat n));;
  (if data_end s <=? p + Z.of_nat n then call_end_transfer u else mret tt);;
  mret ret.

Definition ide_data_writew (addr val : Z) : st ide unit := ide_data_write 2 val.
Definition ide_data_readw (addr : Z) : st ide Z := ide_data_read 2.
Definition ide_data_writel (addr val : Z) : st ide unit := ide_data_write 4 val.
Definition ide_data_readl (addr : Z) : st ide Z := ide_data_read 4.

(** *** Initialisation *)

Definition ide_reset (u : bool) : st ide unit :=
  (if u then mret tt else modify (fun c => mk_ide (mach c) (if0 c) (if1 c) false));;
  upd u (set_status READY_STAT);;
  upd u ide_set_signature;;
  upd u (set_end_transfer_func ide_dummy_transfer_stop_);;
  upd u ide_dummy_transfer_stop.

Definition init_drive (u : bool) (irq serial : Z) (b : option (displace D)) : st ide unit :=
  upd u (set_bs b);;
  (match b with
   | None => mret tt
   | Some b =>
     '(n, b) ← lift (displace_bdrv_getlength b);
     upd u (set_bs (Some b));;
     upd u (set_nb_sectors n);;
     let c := n / (16 * 63) in
     let c := if 16383 <? c then 16383 else if c <? 2 then 2 else c in
     upd u (set_cylinders c);;
     upd u (set_heads 16);;
     upd u (set_sectors 63)
   end);;
  upd u (set_drive_serial serial);;
  upd u (set_ide_irq irq);;
  ide_reset u.

(** Both drives; the fields no statement sets keep what the allocated memory
    held. *)
Definition ide_init2 (irq serial : Z) (hda_bdrv hdb_bdrv : option (displace D)) : st ide unit :=
  init_drive false irq serial hda_bdrv;;
  init_drive true irq (serial + 1) hdb_bdrv.
Definition ide_init (hda_bdrv hdb_bdrv : option (displace D)) : st ide unit :=
  ide_init2 14 1 hda_bdrv hdb_bdrv.

End Ide.
