(* ===== verification/IdeSafe.v ===== *)
(** * Safety of the IDE controller

    Whatever the guest writes to the ports of the channel, the controller
    stays within its buffer and its registers within their widths; the only
    way for an access to stop the monitor is an assertion of the disk driver.
    The monitor's own sectors on the disk never change. *)

From Stdlib Require Import ZArith Lia Bool Ascii String.
From stdpp Require Import base list.
From S2P Require Import Prelude Pic Uart Printf Cstring Bdrv Ide.

(** [runs P m c Q]: run from [c], [m] returns with [Q], or panics where [P]
    allows it. *)
Definition runs (P : Prop) {S A} (m : st S A) (c : S) (Q : A -> S -> Prop) : Prop :=
  match m c with Ret (a, c') => Q a c' | Stop e => e = Panic /\ P end.

Section SafeRules.
Context {P : Prop} {S A B : Type}.
Notation safe := (runs P).
Implicit Types (m : st S A) (c : S).

Lemma safe_bind m (f : A -> st S B) c Q :
  safe m c (fun a c' => safe (f a) c' Q) -> safe (m ≫= f) c Q.
Proof. unfold runs, mbind, st_bind. by destruct (m c) as [[a c']|]. Qed.

Lemma safe_mono m c (Q Q' : A -> S -> Prop) :
  safe m c Q -> (forall a c', Q a c' -> Q' a c') -> safe m c Q'.
Proof. unfold runs. destruct (m c) as [[a c']|]; auto. Qed.

Lemma safe_ret (a : A) c (Q : A -> S -> Prop) : Q a c -> safe (mret a) c Q.
Proof. done. Qed.

Lemma safe_if (b : bool) m1 m2 c (Q : A -> S -> Prop) :
  (b = true -> safe m1 c Q) -> (b = false -> safe m2 c Q) ->
  safe (if b then m1 else m2) c Q.
Proof. destruct b; auto. Qed.
End SafeRules.

(** ** The invariant *)

Definition byte (v : Z) : Prop := inU 8 v.

Section Invariant.
Context {D : Type} {HD : Drive D} {HL : DriveLaws D}.
Notation IDEState := (@IDEState D).
Notation ide := (@ide D).
Implicit Types (c : ide) (s : IDEState) (u : bool).

(** Whether the disk driver may panic. *)
Context {P : Prop}.
Notation safe := (runs P).

(** What holds of the disk of each drive throughout; reads and writes keep
    it. *)
Context (G : bool -> displace D -> Prop).
Definition stays : Prop :=
  (forall i b sec n data b', G i b -> 0 <= n <= 16 -> displace_bdrv_read b (wrap 32 sec) n = Ret (data, b') -> G i b') /\
  (forall i b sec buf n b', G i b -> 0 <= n <= 16 -> lenZ buf = 8196 -> byte_list buf ->
     displace_bdrv_write b (wrap 32 sec) buf n = Ret b' -> G i b').

Definition transfers (f : EndTransferFunc) : bool :=
  match f with ide_sector_read_ | ide_sector_write_ => true | _ => false end.

Record drive_ok (i : bool) (s : IDEState) : Prop := {
  k_buf : lenZ (io_buffer s) = 8196;
  k_bytes : byte_list (io_buffer s);
  k_ptr : 0 <= data_ptr s /\ data_ptr s mod 2 = 0;
  k_end : exists m, data_end s = 512 * m /\ 0 <= m <= 16;
  k_range : data_ptr s < data_end s \/ data_ptr s = 0 /\ data_end s = 0;
  k_regs : Forall byte [sector_ s; lcyl s; hcyl s; hob_nsector s; hob_sector s; hob_lcyl s;
    hob_hcyl s; select s; feature s];
  k_nsector : inU 17 (nsector s);
  k_func : transfers (end_transfer_func s) = true -> 1 <= req_nb_sectors s <= 16 /\ bs s <> None;
  k_mult : 0 <= mult_sectors s <= 16;
  k_bmdma : bmdma s = false;
  k_id : length (identify_data s) = 512%nat /\ byte_list (identify_data s);
  k_serial : drive_serial s = 1 \/ drive_serial s = 2;
  k_irq : ide_irq s = 14;
  k_disk : forall b, bs s = Some b -> heads s = 16 /\ sectors s = 63 /\ G i b;
}.
Arguments k_buf {i} s _.
Arguments k_bytes {i} s _.
Arguments k_ptr {i} s _.
Arguments k_end {i} s _.
Arguments k_range {i} s _.
Arguments k_regs {i} s _.
Arguments k_nsector {i} s _.
Arguments k_func {i} s _.
Arguments k_mult {i} s _.
Arguments k_bmdma {i} s _.
Arguments k_id {i} s _.
Arguments k_serial {i} s _.
Arguments k_irq {i} s _.
Arguments k_disk {i} s _.

Definition mach_ok (m : machine) : Prop := pics_wf (isa_pic m) /\ replay_log m = false.

Record chan_ok (c : ide) : Prop := {
  c_mach : mach_ok (mach c);
  c_if0 : drive_ok false (if0 c);
  c_if1 : drive_ok true (if1 c);
  c_hda : bs (if0 c) <> None;
}.

Lemma chan_if c u : chan_ok c -> drive_ok u (the_if u c).
Proof. intros []. by destruct u. Qed.

Lemma chan_with c u s :
  chan_ok c -> drive_ok u s -> (bs (the_if u c) <> None -> bs s <> None) -> chan_ok (with_if u s c).
Proof. intros [Hm H0 H1 Ha] Hs Hb. destruct u; constructor; simpl in *; auto. Qed.

Lemma with_if_same u s c : the_if u (with_if u s c) = s.
Proof. by destruct u. Qed.
Lemma with_if_other u s c : the_if (negb u) (with_if u s c) = the_if (negb u) c.
Proof. by destruct u. Qed.
Lemma cur_with_if u s c : cur_drive (with_if u s c) = cur_drive c.
Proof. by destruct u. Qed.

(** Selected drive [u] has a disk, and the channel is well formed. *)
Definition on_disk (u : bool) (c : ide) : Prop := chan_ok c /\ bs (the_if u c) <> None.

Lemma safe_upd u f c (Q : unit -> ide -> Prop) :
  Q tt (with_if u (f (the_if u c)) c) -> safe (upd u f) c Q.
Proof. done. Qed.

Lemma safe_get u c (Q : IDEState -> ide -> Prop) : Q (the_if u c) c -> safe (get_if u) c Q.
Proof. done. Qed.

(** An update that keeps the invariant of a drive, and its disk. *)
Definition good (f : IDEState -> IDEState) : Prop :=
  forall i s, drive_ok i s -> drive_ok i (f s) /\ (bs s <> None -> bs (f s) <> None).

Lemma upd_good u f c : good f -> chan_ok c -> safe (upd u f) c (fun _ => chan_ok).
Proof.
  intros Hf Hc. apply safe_upd. destruct (Hf _ _ (chan_if c u Hc)). by apply chan_with.
Qed.

Lemma upd_disk u f c : good f -> on_disk u c -> safe (upd u f) c (fun _ => on_disk u).
Proof.
  intros Hf [Hc Hb]. apply safe_upd. destruct (Hf _ _ (chan_if c u Hc)) as [H1 H2].
  split; [by apply chan_with|]. rewrite with_if_same. auto.
Qed.

Lemma both_good f c : good f -> chan_ok c -> safe (both f) c (fun _ => chan_ok).
Proof.
  intros Hf Hc. apply safe_bind. eapply safe_mono; [by apply upd_good|].
  intros ? c' Hc'. by apply upd_good.
Qed.

(** ** Registers *)

Lemma byte_wrap v : byte (wrap 8 v).
Proof. apply wrap_inU. lia. Qed.
Lemma byte_land v w : byte v -> 0 <= w -> byte (v &! w).
Proof. apply inU_land. lia. Qed.
Lemma byte_lor v w : byte v -> byte w -> byte (v |! w).
Proof. apply inU_lor. lia. Qed.
Lemma byte_ldiff v w : byte v -> byte (v &~ w).
Proof. apply inU_ldiff. lia. Qed.

#[local] Hint Resolve byte_wrap byte_land byte_lor byte_ldiff : ide.

(** Each register keeps the invariant. *)
Ltac reg_tac :=
  intros i s [K1 K2 K3 K4 K5 K6 K7 K8 K9 K10 K11 K12 K13 K14]; intros;
  repeat (apply Forall_cons in K6 as [? K6]);
  constructor; cbn -[app replicate drop take Z.mul wrap]; auto with ide;
  repeat (apply Forall_cons; split; [auto with ide|]); auto with ide.

Lemma ok_status v : forall i s, drive_ok i s -> drive_ok i (set_status v s).
Proof. reg_tac. Qed.
Lemma ok_error v : forall i s, drive_ok i s -> drive_ok i (set_error v s).
Proof. reg_tac. Qed.
Lemma ok_nsector v : forall i s, drive_ok i s -> inU 17 v -> drive_ok i (set_nsector v s).
Proof. reg_tac. Qed.
Lemma ok_req v : forall i s, drive_ok i s -> 1 <= v <= 16 -> drive_ok i (set_req_nb_sectors v s).
Proof. reg_tac. naive_solver. Qed.
Lemma ok_mult v : forall i s, drive_ok i s -> 0 <= v <= 16 -> drive_ok i (set_mult_sectors v s).
Proof. reg_tac. Qed.
Lemma ok_index v : forall i s, drive_ok i s -> drive_ok i (set_io_buffer_index v s).
Proof. reg_tac. Qed.
Lemma ok_size v : forall i s, drive_ok i s -> drive_ok i (set_io_buffer_size v s).
Proof. reg_tac. Qed.
Lemma ok_cmd v : forall i s, drive_ok i s -> drive_ok i (set_cmd v s).
Proof. reg_tac. Qed.
Lemma ok_lba48 v : forall i s, drive_ok i s -> drive_ok i (set_lba48 v s).
Proof. reg_tac. Qed.
Lemma ok_idset v : forall i s, drive_ok i s -> drive_ok i (set_identify_set v s).
Proof. reg_tac. Qed.
Lemma ok_iddata v : forall i s, drive_ok i s -> length v = 512%nat -> byte_list v -> drive_ok i (set_identify_data v s).
Proof. reg_tac. Qed.
Lemma ok_select v : forall i s, drive_ok i s -> byte v -> drive_ok i (set_select v s).
Proof. reg_tac. Qed.
Lemma ok_sector v : forall i s, drive_ok i s -> byte v -> drive_ok i (set_sector v s).
Proof. reg_tac. Qed.
Lemma ok_lcyl v : forall i s, drive_ok i s -> byte v -> drive_ok i (set_lcyl v s).
Proof. reg_tac. Qed.
Lemma ok_hcyl v : forall i s, drive_ok i s -> byte v -> drive_ok i (set_hcyl v s).
Proof. reg_tac. Qed.
Lemma ok_hob_sector v : forall i s, drive_ok i s -> byte v -> drive_ok i (set_hob_sector v s).
Proof. reg_tac. Qed.
Lemma ok_hob_lcyl v : forall i s, drive_ok i s -> byte v -> drive_ok i (set_hob_lcyl v s).
Proof. reg_tac. Qed.
Lemma ok_hob_hcyl v : forall i s, drive_ok i s -> byte v -> drive_ok i (set_hob_hcyl v s).
Proof. reg_tac. Qed.
Lemma ok_hob_nsector v : forall i s, drive_ok i s -> byte v -> drive_ok i (set_hob_nsector v s).
Proof. reg_tac. Qed.
Lemma ok_feature v : forall i s, drive_ok i s -> byte v -> drive_ok i (set_feature v s).
Proof. reg_tac. Qed.
Lemma ok_hob_feature v : forall i s, drive_ok i s -> drive_ok i (set_hob_feature v s).
Proof. reg_tac. Qed.

Lemma ok_stop : forall i s, drive_ok i s -> drive_ok i (ide_transfer_stop s).
Proof. reg_tac; try done. exists 0. lia. Qed.
Lemma ok_dummy : forall i s, drive_ok i s -> drive_ok i (ide_dummy_transfer_stop s).
Proof.
  reg_tac; try done; [..|exists 0; lia].
  - unfold lenZ in *. rewrite length_app, length_drop. simpl. lia.
  - by apply Forall_drop.
Qed.
Lemma ok_fill data : forall i s, drive_ok i s -> byte_list data -> lenZ data <= 8192 -> drive_ok i (fill_buffer data s).
Proof.
  reg_tac.
  - unfold lenZ in *. rewrite length_app, length_drop. lia.
  - apply Forall_app. split; [done|by apply Forall_drop].
Qed.
Lemma ok_start m f : forall i s,
  drive_ok i s -> 1 <= m <= 16 -> (transfers f = true -> 1 <= req_nb_sectors s <= 16 /\ bs s <> None) ->
  drive_ok i (ide_transfer_start (512 * m) f s).
Proof. reg_tac; try done; [exists m; lia|left; lia]. Qed.

#[local] Hint Resolve ok_status ok_error ok_nsector ok_req ok_mult ok_index ok_size ok_cmd ok_lba48
  ok_idset ok_iddata ok_select ok_sector ok_lcyl ok_hcyl ok_hob_sector ok_hob_lcyl ok_hob_hcyl
  ok_hob_nsector ok_feature ok_hob_feature ok_stop ok_dummy ok_fill ok_start : ide.

Lemma regs {i} s : drive_ok i s ->
  byte (sector_ s) /\ byte (lcyl s) /\ byte (hcyl s) /\ byte (hob_nsector s) /\ byte (hob_sector s) /\
  byte (hob_lcyl s) /\ byte (hob_hcyl s) /\ byte (select s) /\ byte (feature s).
Proof.
  intros K%k_regs. repeat (apply Forall_cons in K as [? K]). done.
Qed.

Lemma byte_const v : Z.leb 0 v && Z.ltb v 256 = true -> byte v.
Proof. rewrite andb_true_iff, Z.leb_le, Z.ltb_lt. unfold byte, inU. lia. Qed.

(** Composite updates. *)
Lemma ok_abort {i} s : drive_ok i s -> drive_ok i (ide_abort_command s).
Proof. unfold ide_abort_command. auto with ide. Qed.

Lemma ok_signature {i} s : drive_ok i s -> drive_ok i (ide_set_signature s) /\ bs (ide_set_signature s) = bs s.
Proof.
  intros Hs. unfold ide_set_signature. destruct (regs s Hs) as (? & ? & ? & ? & ? & ? & ? & ? & ?).
  assert (byte (select s &! 0xf0)) by (apply byte_land; [done|lia]).
  destruct (is_null _); (split; [|reflexivity]); simpl;
    repeat first [apply ok_hcyl|apply ok_lcyl|apply ok_sector|apply ok_nsector|apply ok_select];
    auto; try by apply byte_const. all: unfold inU; lia.
Qed.

Lemma transform_nsector {i} l s : drive_ok i s ->
  inU 17 (nsector (ide_cmd_lba48_transform l s)) /\ nsector (ide_cmd_lba48_transform l s) <> 0.
Proof.
  intros Hs. destruct (regs s Hs) as (_ & _ & _ & Hh & _). pose proof (k_nsector s Hs) as Hn.
  unfold ide_cmd_lba48_transform. destruct l; simpl.
  - destruct (Z.eqb_spec (nsector s) 0), (Z.eqb_spec (hob_nsector s) 0); simpl; try (unfold inU; lia).
    all: assert (Hw : inU 17 ((hob_nsector s << 8) |! nsector s))
      by (apply inU_lor; [lia| |exact Hn];
        unfold byte, inU in *; rewrite Z.shiftl_mul_pow2 by lia; lia).
    all: rewrite (wrap_id 32) by (unfold inU in *; lia).
    all: split; [done|]; intros E; apply Z.lor_eq_0_iff in E as [E1 E2];
      rewrite Z.shiftl_mul_pow2 in E1 by lia; lia.
  - destruct (Z.eqb_spec (nsector s) 0); simpl; [unfold inU; lia|done].
Qed.

Lemma ok_transform {i} l s :
  drive_ok i s -> drive_ok i (ide_cmd_lba48_transform l s) /\ bs (ide_cmd_lba48_transform l s) = bs s.
Proof.
  intros Hs. pose proof (transform_nsector l s Hs) as [Hn _]. revert Hn.
  unfold ide_cmd_lba48_transform. destruct l; simpl.
  - destruct (_ && _); simpl; intros Hn; (split; [|reflexivity]); auto with ide.
  - destruct (nsector s =? 0); simpl; intros Hn; (split; [|reflexivity]); auto with ide.
Qed.

Lemma byte_low4 x : byte (x &! 0x0f).
Proof.
  change 0x0f with (Z.ones 4). rewrite Z.land_ones by lia.
  pose proof (Z.mod_pos_bound x (2 ^ 4)). unfold byte, inU. lia.
Qed.

Lemma ok_sector_num {i} n s :
  drive_ok i s -> drive_ok i (put_sector_num n s) /\ bs (put_sector_num n s) = bs s /\
  nsector (put_sector_num n s) = nsector s /\ req_nb_sectors (put_sector_num n s) = req_nb_sectors s.
Proof.
  intros Hs. destruct (regs s Hs) as (? & ? & ? & ? & ? & ? & ? & ? & ?). unfold put_sector_num.
  destruct (nz _); [destruct (lba48 s)|]; simpl negb; cbv iota zeta; (split; [|done]).
  - auto 10 with ide.
  - auto 10 with ide.
  - apply ok_sector; [|apply byte_wrap]. apply ok_select; [auto with ide|].
    apply byte_lor; [apply byte_land; [done|lia]|apply byte_low4].
Qed.

(** ** The machine *)

Lemma set_irq_line_ok m irq level :
  mach_ok m -> 0 <= irq < 16 -> exists m', set_irq_line m irq level = Ret m' /\ mach_ok m'.
Proof.
  intros [Hp Hr] Hi. unfold set_irq_line, cpu_interrupt. rewrite Hr.
  destruct (set_irq_wf (isa_pic m) irq level Hp Hi) as (p & Ep & Hp').
  destruct level; unfold assert; cbn [negb mbind res_bind mret res_ret isa_pic];
    rewrite Ep; eexists; (split; [reflexivity|]); by split.
Qed.

(** An access changes the machine around the drives, or nothing. *)
Definition same_drives (c c' : ide) : Prop :=
  if0 c' = if0 c /\ if1 c' = if1 c /\ cur_drive c' = cur_drive c.

Lemma same_the u c c' : same_drives c c' -> the_if u c' = the_if u c.
Proof. intros (E0 & E1 & _). by destruct u. Qed.

Lemma set_line_ok u level c :
  chan_ok c -> safe (set_line u level) c (fun _ c' => chan_ok c' /\ same_drives c c').
Proof.
  intros Hc. destruct (set_irq_line_ok (mach c) (ide_irq (the_if u c)) level) as (m & E & Hm).
  - apply c_mach, Hc.
  - rewrite (k_irq _ (chan_if c u Hc)). lia.
  - unfold runs, set_line. rewrite E. destruct Hc as [? ? ? ?]. done.
Qed.

Lemma set_irq_ok u c :
  chan_ok c -> safe (ide_set_irq u) c (fun _ c' => chan_ok c' /\ same_drives c c').
Proof.
  intros Hc. apply safe_bind, safe_get. apply safe_if; intros E; [by apply safe_ret|].
  rewrite (k_bmdma _ (chan_if c u Hc)). by apply set_line_ok.
Qed.

(** ** Transfers *)

(** Drive [u] is ready for a transfer of [k] sectors. *)
Definition ready (u : bool) (k : Z) (c : ide) : Prop :=
  chan_ok c /\ bs (the_if u c) <> None /\ 1 <= req_nb_sectors (the_if u c) <= 16 /\
  nsector (the_if u c) = k.

(** Updates that leave the disk and the two counts alone. *)
Definition minor (f : IDEState -> IDEState) : Prop :=
  forall s, bs (f s) = bs s /\ req_nb_sectors (f s) = req_nb_sectors s /\ nsector (f s) = nsector s.

Lemma ready_upd u k f c :
  minor f -> (forall s, s = the_if u c -> drive_ok u s -> drive_ok u (f s)) -> ready u k c ->
  safe (upd u f) c (fun _ => ready u k).
Proof.
  intros Hm Hf (Hc & Hb & Hr). apply safe_upd. destruct (Hm (the_if u c)) as (Eb & Er & En).
  unfold ready. rewrite with_if_same, Eb, Er, En.
  split; [|done]. apply chan_with; [done|by apply Hf, chan_if|by rewrite Eb].
Qed.

Lemma ready_same u k c c' : ready u k c -> chan_ok c' -> same_drives c c' -> ready u k c'.
Proof. intros (_ & Hb & Hr) Hc Hs. unfold ready. by rewrite (same_the u c c' Hs). Qed.

Lemma ready_range u k c : ready u k c -> inU 17 k.
Proof. intros (Hc & _ & _ & <-). eapply k_nsector. by apply (chan_if c u). Qed.

Context (Hstays : stays) (HP : P).

Lemma ok_bs {i} b s : drive_ok i s -> bs s <> None -> G i b -> drive_ok i (set_bs (Some b) s).
Proof.
  intros [K1 K2 K3 K4 K5 K6 K7 K8 K9 K10 K11 K12 K13 K14] Hb Hg.
  constructor; try done; simpl.
  - intros Ht. by destruct (K8 Ht).
  - intros b' [= <-]. destruct (bs s) as [b0|]; [|done]. by destruct (K14 b0 eq_refl) as (? & ? & _).
Qed.

Lemma bdrv_read_ok u k sec n c :
  ready u k c -> 0 <= n <= 16 ->
  safe (bdrv_read u sec n) c (fun data c' => ready u k c' /\ byte_list data /\ lenZ data <= 8192).
Proof.
  intros (Hc & Hb & Hr) Hn. pose proof (chan_if c u Hc) as Hs. apply safe_bind, safe_get.
  destruct (bs (the_if u c)) as [b|] eqn:Eb; [|done].
  destruct (k_disk _ Hs b Eb) as (_ & _ & Hg).
  assert (Hw : inU 32 (wrap 32 sec)) by (apply wrap_inU; lia). unfold inU in Hw.
  apply safe_bind. unfold runs at 1, lift.
  assert (Hcase : displace_bdrv_read b (wrap 32 sec) n = Stop Panic \/
    exists data b', displace_bdrv_read b (wrap 32 sec) n = Ret (data, b') /\
      byte_list data /\ lenZ data <= 8192).
  { destruct (Z.lt_ge_cases (wrap 32 sec + n) (2 ^ 32)).
    - destruct (displace_read_ok b (wrap 32 sec) n) as [[_ ->] |(b' & -> & _)]; [lia..|by left|].
      right. do 2 eexists. split; [done|]. split; [apply view_bytes|].
      unfold lenZ. rewrite view_length. lia.
    - rewrite displace_read_wrap by lia. right. exists [], b.
      split; [done|]. split; [constructor|]. unfold lenZ. simpl. lia. }
  destruct Hcase as [-> |(data & b' & E & Hd & Hl)]; [done|]. rewrite E.
  assert (Hg' : G u b') by (eapply (proj1 Hstays); eauto).
  apply safe_bind, safe_upd, safe_ret. unfold ready. rewrite with_if_same. simpl.
  split_and!; try done; try lia. apply chan_with; [done|apply ok_bs; [done|congruence|done]|done].
Qed.

Lemma bdrv_write_ok u k sec n buf c :
  ready u k c -> 0 <= n <= 16 -> byte_list buf -> lenZ buf = 8196 ->
  safe (bdrv_write u sec buf n) c (fun _ => ready u k).
Proof.
  intros (Hc & Hb & Hr) Hn Hbuf Hl. pose proof (chan_if c u Hc) as Hs. apply safe_bind, safe_get.
  destruct (bs (the_if u c)) as [b|] eqn:Eb; [|done].
  destruct (k_disk _ Hs b Eb) as (_ & _ & Hg).
  assert (Hw : inU 32 (wrap 32 sec)) by (apply wrap_inU; lia). unfold inU in Hw.
  apply safe_bind. unfold runs at 1, lift.
  assert (Hcase : displace_bdrv_write b (wrap 32 sec) buf n = Stop Panic \/
    exists b', displace_bdrv_write b (wrap 32 sec) buf n = Ret b').
  { destruct (Z.lt_ge_cases (wrap 32 sec + n) (2 ^ 32)).
    - destruct (displace_write_ok b (wrap 32 sec) buf n) as [[_ ->] |(b' & -> & _)];
        [lia..|unfold lenZ in Hl; lia|done|by left|right]. by eexists.
    - rewrite displace_write_wrap by lia. right. by exists b. }
  destruct Hcase as [-> |(b' & E)]; [done|]. rewrite E.
  assert (Hg' : G u b') by (eapply (proj2 Hstays); eauto).
  apply safe_upd. unfold ready. rewrite with_if_same. simpl.
  split_and!; try done; try lia. apply chan_with; [done|apply ok_bs; [done|congruence|done]|done].
Qed.

Lemma set_sector_ok u n c :
  chan_ok c -> bs (the_if u c) <> None ->
  safe (ide_set_sector u n) c (fun _ c' => c' = with_if u (put_sector_num n (the_if u c)) c).
Proof.
  intros Hc Hb. apply safe_bind, safe_get. pose proof (chan_if c u Hc) as Hs.
  destruct (bs (the_if u c)) as [b|] eqn:Eb; [|done].
  destruct (k_disk _ Hs b Eb) as (-> & -> & _). rewrite andb_false_r. by apply safe_upd.
Qed.

Lemma ready_sector u k n c : ready u k c -> safe (ide_set_sector u n) c (fun _ => ready u k).
Proof.
  intros (Hc & Hb & Hr). eapply safe_mono; [by apply set_sector_ok|]. intros ? ? ->.
  destruct (ok_sector_num n (the_if u c) (chan_if c u Hc)) as (H1 & H2 & H3 & H4).
  unfold ready. rewrite with_if_same, H2, H3, H4. split; [|done].
  apply chan_with; [done..|by rewrite H2].
Qed.

Lemma ready_irq u k c : ready u k c -> safe (ide_set_irq u) c (fun _ => ready u k).
Proof.
  intros Hc. eapply safe_mono; [apply set_irq_ok, Hc|]. intros ? c' [Hc' Hs].
  by apply (ready_same u k c).
Qed.

Lemma sgn_small n : inU 17 n -> sgn 32 n = n.
Proof. unfold inU. intros Hn. apply sgn_id; lia. Qed.

Definition at_most (k n : Z) : Z := if k <? n then k else n.

Lemma at_most_range k n :
  1 <= k <= 16 -> 0 <= n -> 0 <= at_most k n <= 16 /\ at_most k n <= n /\ (n <> 0 -> 1 <= at_most k n).
Proof. intros. unfold at_most. destruct (Z.ltb_spec k n); lia. Qed.

Lemma sub_nsector_ok u k n c :
  ready u k c -> 0 <= n <= k ->
  safe (upd u (fun s => set_nsector (wrap 32 (nsector s - n)) s)) c (fun _ => ready u (k - n)).
Proof.
  intros Hc Hn. pose proof (ready_range _ _ _ Hc) as Hk. destruct Hc as (Hc & Hb & Hr & En).
  apply safe_upd. unfold ready. rewrite with_if_same. simpl. rewrite En. unfold inU in Hk.
  rewrite wrap_id by (unfold inU; lia). split_and!; [|done|lia|lia|done].
  apply chan_with; [done| |done]. apply ok_nsector; [by apply chan_if|]. unfold inU. lia.
Qed.

(** Run one step and forget the state before it. *)
Tactic Notation "next" ident(c) ident(Hc) :=
  clear dependent c; intros ? c Hc; cbv beta in Hc.
Tactic Notation "step" ident(c) ident(Hc) :=
  apply safe_bind; eapply safe_mono;
  [first [eapply ready_upd; [done|by auto with ide|eassumption]
         |eapply ready_irq; eassumption|eapply ready_sector; eassumption]|];
  next c Hc.

Lemma sector_read_ok u k c : ready u k c -> safe (ide_sector_read u) c (fun _ c' => exists k, ready u k c').
Proof.
  intros Hc. unfold ide_sector_read. step c Hc. step c Hc. apply safe_bind, safe_get.
  pose proof (ready_range _ _ _ Hc) as Hk. pose proof Hc as (_ & _ & Hr & ->).
  rewrite sgn_small by done.
  destruct (Z.eqb_spec k 0) as [E|E].
  { eapply safe_mono; [eapply ready_upd; [done|by auto with ide|eassumption]|cbv beta; eauto]. }
  fold (at_most (req_nb_sectors (the_if u c)) k).
  destruct (at_most_range (req_nb_sectors (the_if u c)) k) as (Hn & Hn' & Hn1); [done|apply Hk|].
  specialize (Hn1 E). set (n := at_most _ _) in *. clearbody n.
  generalize (ide_get_sector (the_if u c)). intros sec.
  apply safe_bind. eapply safe_mono; [by eapply bdrv_read_ok|]. clear c Hc Hr.
  intros data c (Hc & Hd & Hl). step c Hc.
  apply safe_bind. eapply safe_mono.
  { eapply ready_upd; [done| |eassumption]. intros s -> Hs. apply ok_start; [done|lia|].
    intros _. split; apply Hc. }
  next c Hc. step c Hc. step c Hc.
  eapply safe_mono; [eapply sub_nsector_ok; [done|lia]|cbv beta; eauto].
Qed.

Lemma start_write u k m c :
  ready u k c -> 1 <= m <= 16 ->
  safe (upd u (ide_transfer_start (512 * m) ide_sector_write_)) c (fun _ => ready u k).
Proof.
  intros Hc Hm. apply ready_upd; [done| |done]. intros s -> Hs. apply ok_start; [done..|].
  intros _. split; apply Hc.
Qed.

Lemma sector_write_ok u k c :
  ready u k c -> safe (ide_sector_write u) c (fun _ c' => exists k, ready u k c').
Proof.
  intros Hc. unfold ide_sector_write. step c Hc. apply safe_bind, safe_get.
  pose proof (ready_range _ _ _ Hc) as Hk. pose proof Hc as (Hch & _ & Hr & ->).
  rewrite sgn_small by done. fold (at_most (req_nb_sectors (the_if u c)) k).
  destruct (at_most_range (req_nb_sectors (the_if u c)) k) as (Hn & Hn' & Hn1); [done|apply Hk|].
  set (n := at_most _ _) in *. clearbody n.
  generalize (ide_get_sector (the_if u c)). intros sec.
  apply safe_bind. eapply safe_mono.
  { eapply bdrv_write_ok; [done..|eapply k_bytes|eapply k_buf]; by apply (chan_if c u). }
  next c Hc. apply safe_bind. eapply safe_mono; [eapply sub_nsector_ok; [done|lia]|].
  next c Hc. apply safe_bind, safe_get. pose proof Hc as (_ & _ & Hr & Ek).
  pose proof (ready_range _ _ _ Hc) as Hk'. rewrite Ek, sgn_small by done.
  fold (at_most (req_nb_sectors (the_if u c)) (k - n)).
  destruct (at_most_range (req_nb_sectors (the_if u c)) (k - n)) as (Hm & _ & Hm1); [done|apply Hk'|].
  set (n1 := at_most _ _) in *. clearbody n1.
  apply safe_bind. apply (safe_mono _ _ (fun _ => ready u (k - n))).
  { destruct (Z.eqb_spec (k - n) 0).
    - apply ready_upd; [done|by auto with ide|done].
    - apply start_write; [done|lia]. }
  next c Hc. step c Hc. eapply safe_mono; [by eapply ready_irq|cbv beta; eauto].
Qed.

(** What [data_ptr] is does not matter at the end of a transfer. *)
Lemma upd_bind {A} u f (g : unit -> st ide A) c :
  (upd u f ≫= g) c = g tt (with_if u (f (the_if u c)) c).
Proof. done. Qed.
Lemma get_bind {A} u (g : IDEState -> st ide A) c : (get_if u ≫= g) c = g (the_if u c) c.
Proof. done. Qed.
Lemma upd_run u f c : upd u f c = Ret (tt, with_if u (f (the_if u c)) c).
Proof. done. Qed.
Lemma with_if_twice u s s' c : with_if u s (with_if u s' c) = with_if u s c.
Proof. by destruct u. Qed.

Ltac run := repeat rewrite ?upd_bind, ?get_bind, ?upd_run, ?with_if_twice, ?with_if_same.

Lemma bind_at {A B} (m : st ide A) (f : A -> st ide B) c :
  (m ≫= f) c = match m c with Ret (a, c') => f a c' | Stop e => Stop e end.
Proof. done. Qed.
Lemma bdrv_read_run u sec n c :
  bdrv_read u sec n c =
  match bs (the_if u c) with
  | None => Stop Panic
  | Some b =>
    match displace_bdrv_read b (wrap 32 sec) n with
    | Ret (data, b') => Ret (data, with_if u (set_bs (Some b') (the_if u c)) c)
    | Stop e => Stop e
    end
  end.
Proof.
  unfold bdrv_read. run. destruct (bs (the_if u c)); [|done]. rewrite bind_at. unfold lift.
  by destruct (displace_bdrv_read _ _ _) as [[data b']|].
Qed.
Lemma bdrv_write_run u sec buf n c :
  bdrv_write u sec buf n c =
  match bs (the_if u c) with
  | None => Stop Panic
  | Some b =>
    match displace_bdrv_write b (wrap 32 sec) buf n with
    | Ret b' => Ret (tt, with_if u (set_bs (Some b') (the_if u c)) c)
    | Stop e => Stop e
    end
  end.
Proof.
  unfold bdrv_write. run. destruct (bs (the_if u c)); [|done]. rewrite bind_at. unfold lift.
  by destruct (displace_bdrv_write _ _ _ _) as [b'|].
Qed.

Lemma end_transfer_ptr u p c :
  call_end_transfer u (with_if u (set_data_ptr p (the_if u c)) c) = call_end_transfer u c.
Proof.
  unfold call_end_transfer. run. cbn [end_transfer_func set_data_ptr].
  destruct (end_transfer_func (the_if u c)); [by run| | |by run].
  - unfold ide_sector_read. run. generalize (the_if u c) as s. intros s.
    cbn [nsector set_error set_status set_data_ptr req_nb_sectors].
    destruct (_ =? 0); [by run|]. generalize (if req_nb_sectors s <? sgn 32 (nsector s) then req_nb_sectors s else sgn 32 (nsector s)). intros n.
    rewrite !(bind_at (bdrv_read _ _ _)), !bdrv_read_run. run. cbn [bs set_error set_status set_data_ptr].
    destruct (bs s) as [b|]; [|done].
    change (ide_get_sector (set_error 0 (set_status _ (set_data_ptr p s)))) with (ide_get_sector s).
    change (ide_get_sector (set_error 0 (set_status _ s))) with (ide_get_sector s).
    destruct (displace_bdrv_read _ _ _) as [[data b']|]; [|done]. run. reflexivity.
  - unfold ide_sector_write. run. generalize (the_if u c) as s. intros s.
    cbn [nsector set_error set_status set_data_ptr req_nb_sectors io_buffer].
    generalize (if req_nb_sectors s <? sgn 32 (nsector s) then req_nb_sectors s else sgn 32 (nsector s)). intros n.
    rewrite !(bind_at (bdrv_write _ _ _ _)), !bdrv_write_run. run. cbn [bs set_error set_status set_data_ptr].
    destruct (bs s) as [b|]; [|done].
    change (ide_get_sector (set_status _ (set_data_ptr p s))) with (ide_get_sector s).
    change (ide_get_sector (set_status _ s)) with (ide_get_sector s).
    destruct (displace_bdrv_write _ _ _ _) as [b'|]; [|done]. run.
    cbn [nsector set_nsector set_bs set_error set_status set_data_ptr req_nb_sectors io_buffer].
    destruct (_ =? 0); run; reflexivity.
Qed.

(** ** Accesses *)

Ltac good_tac := intros ? ? ?; split; [auto with ide|done].

Lemma end_transfer_ok u c : chan_ok c -> safe (call_end_transfer u) c (fun _ => chan_ok).
Proof.
  intros Hc. apply safe_bind, safe_get. pose proof (k_func _ (chan_if c u Hc)) as Hf.
  assert (forall m, transfers (end_transfer_func (the_if u c)) = true ->
    (forall k, ready u k c -> safe m c (fun _ c' => exists k, ready u k c')) ->
    safe m c (fun (_ : unit) => chan_ok)) as Hm.
  { intros m Ht Hm. destruct (Hf Ht). eapply safe_mono; [by eapply Hm|].
    intros ? c' [k Hk]. apply Hk. }
  destruct (end_transfer_func (the_if u c)).
  - apply upd_good; [good_tac|done].
  - apply Hm; [done|]. intros k. apply sector_read_ok.
  - apply Hm; [done|]. intros k. apply sector_write_ok.
  - apply upd_good; [good_tac|done].
Qed.

Lemma ok_ptr {i} p s :
  drive_ok i s -> 0 <= p < data_end s -> p mod 2 = 0 -> drive_ok i (set_data_ptr p s).
Proof.
  intros [K1 K2 K3 K4 K5 K6 K7 K8 K9 K10 K11 K12 K13 K14] Hp He. constructor; try done; simpl; lia.
Qed.

Lemma ok_buffer {i} b s :
  drive_ok i s -> lenZ b = 8196 -> byte_list b -> drive_ok i (set_io_buffer b s).
Proof. intros [K1 K2 K3 K4 K5 K6 K7 K8 K9 K10 K11 K12 K13 K14] Hl Hb. by constructor. Qed.

(** The buffer has room for an access at the data pointer. *)
Lemma data_room {i} n s : drive_ok i s -> n = 2 \/ n = 4 -> data_ptr s + n <= 8196.
Proof.
  intros Hs Hn. pose proof (k_ptr s Hs) as [H0 H2]. destruct (k_end s Hs) as (m & He & Hm).
  destruct (k_range s Hs) as [Hr|Hr]; [|lia].
  pose proof (Z.div_mod (data_ptr s) 2). lia.
Qed.

Lemma advance_ok u n c :
  chan_ok c -> n = 2 \/ n = 4 ->
  safe (upd u (set_data_ptr (data_ptr (the_if u c) + n));;
        if data_end (the_if u c) <=? data_ptr (the_if u c) + n then call_end_transfer u else mret tt)
    c (fun _ => chan_ok).
Proof.
  intros Hc Hn. pose proof (chan_if c u Hc) as Hs. apply safe_bind, safe_upd.
  destruct (Z.leb_spec (data_end (the_if u c)) (data_ptr (the_if u c) + n)) as [He|He].
  - unfold runs. rewrite end_transfer_ptr. by apply end_transfer_ok.
  - apply safe_ret, chan_with; [done| |done]. pose proof (k_ptr _ Hs) as [H0 H2].
    apply ok_ptr; [done|lia|]. destruct Hn as [-> | ->]; rewrite Z.add_mod, H2 by lia; done.
Qed.

Lemma le_bytes_ok n v : byte_list (le_bytes n v) /\ length (le_bytes n v) = n.
Proof.
  revert v. induction n as [|n IH]; intros v; [by split; [constructor|]|].
  destruct (IH (v >> 8)). simpl. split; [constructor; [apply byte_wrap|done]|lia].
Qed.

Lemma data_write_ok n v c :
  chan_ok c -> n = 2%nat \/ n = 4%nat -> safe (ide_data_write n v) c (fun _ => chan_ok).
Proof.
  intros Hc Hn. unfold ide_data_write. apply safe_bind. unfold runs at 1, get. 
  set (u := cur_drive c). pose proof (chan_if c u Hc) as Hs.
  pose proof (data_room (Z.of_nat n) _ Hs ltac:(lia)) as Hr. pose proof (k_buf _ Hs) as Hl.
  pose proof (k_ptr _ Hs) as [H0 _].
  rewrite (proj2 (Z.ltb_ge _ _)) by lia.
  destruct (le_bytes_ok n v) as [Hv Hlen].
  apply safe_bind, safe_upd. set (b := _ ++ _ ++ _). set (c' := with_if _ _ _).
  assert (Hc' : chan_ok c').
  { apply chan_with; [done| |done]. apply ok_buffer; [done|..]; subst b.
    - unfold lenZ in *. rewrite !length_app, length_take, length_drop. lia.
    - pose proof (k_bytes _ Hs). apply Forall_app; split; [by apply Forall_take|].
      apply Forall_app; split; [done|by apply Forall_drop]. }
  replace (data_ptr (the_if u c)) with (data_ptr (the_if u c')) by (subst c'; by rewrite with_if_same).
  replace (data_end (the_if u c)) with (data_end (the_if u c')) by (subst c'; by rewrite with_if_same).
  apply advance_ok; [done|lia].
Qed.

Lemma data_read_ok n c :
  chan_ok c -> n = 2%nat \/ n = 4%nat -> safe (ide_data_read n) c (fun _ => chan_ok).
Proof.
  intros Hc Hn. unfold ide_data_read. apply safe_bind. unfold runs at 1, get.
  set (u := cur_drive c). pose proof (chan_if c u Hc) as Hs.
  pose proof (data_room (Z.of_nat n) _ Hs ltac:(lia)) as Hr. pose proof (k_buf _ Hs) as Hl.
  rewrite (proj2 (Z.ltb_ge _ _)) by lia.
  pose proof (advance_ok u (Z.of_nat n) c Hc ltac:(lia)) as Ha. revert Ha.
  unfold runs. rewrite !upd_bind. rewrite !bind_at.
  destruct (_ <=? _); [|done]. by destruct (call_end_transfer u _) as [[[] c']|].
Qed.

(** ** Identification *)

Definition block (b : list Z) : Prop := length b = 512%nat /\ byte_list b.

Lemma block_seti b i v : block b -> byte v -> block (seti b i v).
Proof.
  intros [Hl Hb] Hv. unfold seti. destruct (i <? 0); [done|]. split; [by rewrite length_insert|by apply Forall_insert].
Qed.

Lemma block_put b i v : block b -> block (put_le16 b i v).
Proof. intros Hb. apply block_seti; [apply block_seti|]; auto with ide. Qed.

Lemma block_put_all l : forall b, block b -> block (put_all b l).
Proof.
  induction l as [|[i v] l IH]; intros b Hb; [done|]. by apply IH, block_put.
Qed.

Lemma block_padstr n : forall b i src, block b -> byte_list src -> block (padstr b i src n).
Proof.
  induction n as [|n IH]; intros b i src Hb Hs; [done|]. simpl. destruct Hs as [|v src Hv Hs].
  - apply IH; [|constructor]. apply block_seti; [done|by apply byte_const].
  - by apply IH; [apply block_seti|].
Qed.

Lemma identify_block_ok {i} s : drive_ok i s -> exists b, identify_block s = Ret b /\ block b.
Proof.
  intros Hs. unfold identify_block.
  assert (Hv : exists n buf, vsnprintf (replicate 20 0) 20 (chars "MR%05d") [Arg32 (drive_serial s)] = Ret (n, buf)
    /\ byte_list (cstr buf)).
  { destruct (k_serial s Hs) as [-> | ->]; do 2 eexists; (split; [vm_compute; reflexivity|]);
      vm_compute cstr; repeat constructor; discriminate || done. }
  destruct Hv as (n & buf & -> & Hbuf).
  cbv beta iota zeta delta [mbind res_bind mret res_ret]. eexists. split; [reflexivity|].
  apply block_put_all. destruct (nz _); [apply block_put|];
    do 2 apply block_put_all; repeat apply block_padstr;
    try lazymatch goal with |- byte_list _ => vm_compute; repeat constructor; discriminate || done end.
  all: apply block_put_all, block_padstr, Hbuf; apply block_put_all.
  all: split; [done|by apply Forall_replicate].
Qed.

Lemma identify_ok u c :
  on_disk u c -> safe (ide_identify u) c (fun _ => on_disk u).
Proof.
  intros Hc. pose proof (chan_if c u (proj1 Hc)) as Hs. apply safe_bind, safe_get.
  destruct (identify_set (the_if u c)).
  - destruct (k_id _ Hs) as [Hl Hb]. apply upd_disk; [|done]. intros i s Hs'. split; [|done].
    apply ok_fill; [done..|]. unfold lenZ. lia.
  - destruct (identify_block_ok _ Hs) as (b & E & Hl & Hb). apply safe_bind.
    unfold runs at 1, lift. rewrite E. apply safe_bind.
    assert (lenZ b <= 8192) by (unfold lenZ; lia).
    eapply safe_mono; [apply upd_disk; [good_tac|done]|]. next c Hc. apply safe_bind.
    eapply safe_mono; [apply upd_disk; [good_tac|done]|]. next c Hc.
    apply upd_disk; [good_tac|done].
Qed.

(** ** Commands *)

Lemma abort_cmd_ok u c : chan_ok c -> safe (abort_cmd u) c (fun _ => chan_ok).
Proof.
  intros Hc. apply safe_bind. eapply safe_mono; [apply upd_good; [|done]|].
  { intros i s Hs. split; [by apply ok_abort|done]. }
  intros ? c' Hc'. eapply safe_mono; [by apply set_irq_ok|]. naive_solver.
Qed.

Lemma done_cmd_ok u st c : chan_ok c -> safe (done_cmd u st) c (fun _ => chan_ok).
Proof.
  intros Hc. apply safe_bind. eapply safe_mono; [apply upd_good; [good_tac|done]|].
  intros ? c' Hc'. eapply safe_mono; [by apply set_irq_ok|]. naive_solver.
Qed.

Lemma irq_chan_ok u c : chan_ok c -> safe (ide_set_irq u) c (fun _ => chan_ok).
Proof. intros Hc. eapply safe_mono; [by apply set_irq_ok|]. naive_solver. Qed.

Lemma not_null {A} (o : option A) : is_null o = false -> o <> None.
Proof. by destruct o. Qed.

Lemma good_word i v : good (set_identify_word i v).
Proof.
  intros j s Hs. split; [|done]. destruct (k_id s Hs).
  apply ok_iddata; [done|..]; by apply block_put.
Qed.

Lemma cmd_setfeatures_ok u c : chan_ok c -> safe (cmd_setfeatures u) c (fun _ => chan_ok).
Proof.
  intros Hc. apply safe_bind, safe_get. apply safe_if; intros _; [by apply abort_cmd_ok|].
  apply safe_if; intros _; [by apply done_cmd_ok|].
  apply safe_if; intros _; [|by apply abort_cmd_ok]. cbv zeta.
  match goal with |- safe (match ?x with _ => _ end) _ _ => destruct x as [[w63 w88]|] end;
    [|by apply abort_cmd_ok].
  apply safe_bind. eapply safe_mono; [apply upd_good; [apply good_word|done]|]. next c Hc.
  apply safe_bind. eapply safe_mono; [apply upd_good; [apply good_word|done]|]. next c Hc.
  by apply done_cmd_ok.
Qed.

Lemma cmd_identify_ok u c : chan_ok c -> safe (cmd_identify u) c (fun _ => chan_ok).
Proof.
  intros Hc. apply safe_bind, safe_get, safe_bind.
  apply (safe_mono _ _ (fun _ => chan_ok)); [|intros ? c'; apply irq_chan_ok].
  apply safe_if; intros E.
  - apply negb_true_iff, not_null in E. apply safe_bind.
    eapply safe_mono; [by apply identify_ok|]. next c Hd. destruct Hd as [Hc _].
    apply safe_bind. eapply safe_mono; [apply upd_good; [good_tac|done]|]. next c Hc.
    apply upd_good; [|done]. intros i s Hs. split; [|done].
    change 512 with (512 * 1). apply ok_start; [done|lia|done].
  - apply upd_good; [|done]. intros i s Hs. split; [by apply ok_abort|done].
Qed.

Lemma cmd_setmult_ok u c : chan_ok c -> safe (cmd_setmult u) c (fun _ => chan_ok).
Proof.
  intros Hc. apply safe_bind, safe_get, safe_bind.
  apply (safe_mono _ _ (fun _ => chan_ok)); [|intros ? c'; apply irq_chan_ok].
  apply safe_if; intros E.
  - apply upd_good; [|done]. intros i s Hs. split; [by apply ok_abort|done].
  - apply orb_false_iff in E as [E _]. apply orb_false_iff in E as [E _]. apply Z.ltb_ge in E.
    pose proof (k_nsector _ (chan_if c u Hc)) as Hn.
    assert (0 <= nsector (the_if u c) <= 16) by (unfold inU, MAX_MULT_SECTORS in *; lia).
    apply safe_bind. eapply safe_mono; [apply upd_good; [good_tac|done]|]. next c Hc.
    apply upd_good; [good_tac|done].
Qed.

(** Drive [u] has sectors to transfer, [m] at a time with the multiple
    commands. *)
Definition pending (u : bool) (m : Z) (c : ide) : Prop :=
  on_disk u c /\ nsector (the_if u c) <> 0 /\ mult_sectors (the_if u c) = m.

Lemma transform_ok u l c :
  on_disk u c ->
  safe (upd u (ide_cmd_lba48_transform l)) c (fun _ => pending u (mult_sectors (the_if u c))).
Proof.
  intros [Hc Hb]. pose proof (chan_if c u Hc) as Hs. destruct (ok_transform l _ Hs) as [H1 H2].
  apply safe_upd. unfold pending, on_disk. rewrite with_if_same, H2. split_and!.
  - apply chan_with; [done..|by rewrite H2].
  - done.
  - by apply (transform_nsector (i := u)).
  - unfold ide_cmd_lba48_transform. destruct l; simpl; [destruct (_ && _)|destruct (_ =? 0)]; done.
Qed.

Lemma transform_good l : good (ide_cmd_lba48_transform l).
Proof. intros i s Hs. destruct (ok_transform l s Hs) as [H1 ->]. done. Qed.

Lemma pending_upd u m f c :
  (forall s, bs (f s) = bs s /\ nsector (f s) = nsector s /\ mult_sectors (f s) = mult_sectors s) ->
  (forall s, drive_ok u s -> drive_ok u (f s)) -> pending u m c -> safe (upd u f) c (fun _ => pending u m).
Proof.
  intros Hf Ho ([Hc Hb] & Hn & Hm). destruct (Hf (the_if u c)) as (E1 & E2 & E3).
  apply safe_upd. unfold pending, on_disk. rewrite with_if_same, E1, E2, E3. split_and!; try done.
  apply chan_with; [done|by apply Ho, chan_if|by rewrite E1].
Qed.

Lemma req_ok u m (f : IDEState -> Z) c :
  pending u m c -> 1 <= f (the_if u c) <= 16 ->
  safe (upd u (fun s => set_req_nb_sectors (f s) s)) c (fun _ c' => exists k, k <> 0 /\ ready u k c').
Proof.
  intros ([Hc Hb] & Hn & Hm) Hf. apply safe_upd. exists (nsector (the_if u c)). unfold ready.
  rewrite with_if_same. cbn [bs req_nb_sectors nsector set_req_nb_sectors]. split_and!; try done; try lia.
  apply chan_with; [done| |done]. apply ok_req; [by apply chan_if|done].
Qed.

Lemma ready_chan {A} u (m : st ide A) c :
  safe m c (fun _ c' => exists k, ready u k c') -> safe m c (fun _ => chan_ok).
Proof. intros Hm. eapply safe_mono; [exact Hm|]. intros ? c' [k Hk]. apply Hk. Qed.

Lemma cmd_read_ok u l c : chan_ok c -> safe (cmd_read u l) c (fun _ => chan_ok).
Proof.
  intros Hc. apply safe_bind, safe_get. apply safe_if; intros E; [by apply abort_cmd_ok|].
  apply not_null in E. apply safe_bind. eapply safe_mono; [by apply transform_ok|].
  intros ? c1 Hp. apply safe_bind.
  eapply safe_mono; [apply (req_ok u _ (fun _ => 1) c1 Hp); lia|].
  intros ? c2 (k & Hk & Hr). by eapply ready_chan, sector_read_ok.
Qed.

(** The error and status registers are cleared before a write. *)
Lemma clear_ok u m (g : st ide unit) c :
  pending u m c -> (forall c', pending u m c' -> safe g c' (fun _ => chan_ok)) ->
  safe (upd u (set_error 0);; upd u (set_status (SEEK_STAT |! READY_STAT));; g) c (fun _ => chan_ok).
Proof.
  intros Hp Hg. apply safe_bind.
  eapply safe_mono; [apply pending_upd; [done|by auto with ide|exact Hp]|]. intros ? c1 H1.
  apply safe_bind. eapply safe_mono; [apply pending_upd; [done|by auto with ide|exact H1]|].
  intros ? c2. apply Hg.
Qed.

Lemma cmd_write_ok u l c : on_disk u c -> safe (cmd_write u l) c (fun _ => chan_ok).
Proof.
  intros Hc. apply safe_bind. eapply safe_mono; [by apply transform_ok|].
  intros ? c1 Hp. eapply clear_ok; [exact Hp|]. intros c2 H2. apply safe_bind.
  eapply safe_mono; [apply (req_ok u _ (fun _ => 1) c2 H2); lia|].
  intros ? c3 (k & Hk & Hr). change 512 with (512 * 1).
  eapply safe_mono; [eapply start_write; [done|lia]|]. by intros ? ? [].
Qed.

Lemma cmd_multread_ok u l c : on_disk u c -> safe (cmd_multread u l) c (fun _ => chan_ok).
Proof.
  intros Hc. pose proof (k_mult _ (chan_if c u (proj1 Hc))) as Hm. apply safe_bind, safe_get.
  apply safe_if; intros E; [by apply abort_cmd_ok, Hc|]. apply Z.eqb_neq in E.
  apply safe_bind. eapply safe_mono; [by apply transform_ok|]. intros ? c1 Hp. apply safe_bind.
  eapply safe_mono; [apply (req_ok u _ mult_sectors c1 Hp); rewrite (proj2 (proj2 Hp)); lia|].
  intros ? c2 (k & Hk & Hr). by eapply ready_chan, sector_read_ok.
Qed.

Lemma cmd_multwrite_ok u l c : on_disk u c -> safe (cmd_multwrite u l) c (fun _ => chan_ok).
Proof.
  intros Hc. pose proof (k_mult _ (chan_if c u (proj1 Hc))) as Hm. apply safe_bind, safe_get.
  apply safe_if; intros E; [by apply abort_cmd_ok, Hc|]. apply Z.eqb_neq in E.
  apply safe_bind. eapply safe_mono; [by apply transform_ok|]. intros ? c1 Hp.
  eapply clear_ok; [exact Hp|]. intros c2 H2. apply safe_bind.
  eapply safe_mono; [apply (req_ok u _ mult_sectors c2 H2); rewrite (proj2 (proj2 H2)); lia|].
  intros ? c3 (k & Hk & Hr). apply safe_bind, safe_get. pose proof (ready_range _ _ _ Hr) as Hu.
  pose proof Hr as (_ & _ & Hq & ->). rewrite sgn_small by done.
  destruct (at_most_range (req_nb_sectors (the_if u c3)) k Hq) as (H16 & _ & H1); [apply Hu|].
  eapply safe_mono; [eapply start_write; [done|unfold at_most in *; naive_solver lia]|]. by intros ? ? [].
Qed.

Lemma cmd_readdma_ok u l c : chan_ok c -> safe (cmd_readdma u l) c (fun _ => chan_ok).
Proof.
  intros Hc. apply safe_bind, safe_get. apply safe_if; intros _; [by apply abort_cmd_ok|].
  apply safe_bind. eapply safe_mono; [apply upd_good; [apply transform_good|done]|]. next c Hc.
  unfold ide_sector_write_dma.
  do 3 (apply safe_bind; eapply safe_mono; [apply upd_good; [good_tac|done]|]; next c Hc).
  apply safe_bind, safe_get. by rewrite (k_bmdma _ (chan_if c u Hc)).
Qed.

Lemma cmd_native_max_ok u l c : on_disk u c -> safe (cmd_native_max u l) c (fun _ => chan_ok).
Proof.
  intros Hc. apply safe_bind. eapply safe_mono; [by apply transform_ok|].
  intros ? c1 ([H1 Hb] & _). apply safe_bind, safe_get, safe_bind.
  eapply safe_mono; [by apply set_sector_ok|]. intros ? c2 ->. apply done_cmd_ok.
  destruct (ok_sector_num (nb_sectors (the_if u c1) - 1) _ (chan_if c1 u H1)) as (H3 & H4 & _).
  apply chan_with; [done..|by rewrite H4].
Qed.

Lemma good_signature : good ide_set_signature.
Proof. intros i s Hs. destruct (ok_signature s Hs) as [H1 ->]. done. Qed.

Lemma good_nsector v : inU 17 v -> good (set_nsector v).
Proof. intros Hv. good_tac. Qed.

(** An update that keeps the invariant, then the rest. *)
Lemma good_then {A} u f (g : st ide A) c Q :
  good f -> chan_ok c -> (forall c', chan_ok c' -> safe g c' Q) -> safe (upd u f;; g) c Q.
Proof.
  intros Hf Hc Hg. apply safe_bind. eapply safe_mono; [by apply upd_good|]. intros ? c'. apply Hg.
Qed.
Lemma both_then {A} f (g : st ide A) c Q :
  good f -> chan_ok c -> (forall c', chan_ok c' -> safe g c' Q) -> safe (both f;; g) c Q.
Proof.
  intros Hf Hc Hg. apply safe_bind. eapply safe_mono; [by apply both_good|]. intros ? c'. apply Hg.
Qed.

Lemma command_ok u val c : on_disk u c -> safe (ide_command u val) c (fun _ => chan_ok).
Proof.
  intros Hd. pose proof (proj1 Hd) as Hc. unfold ide_command.
  repeat match goal with |- safe (if is_cmd _ _ then _ else _) _ _ => apply safe_if; intros _ end;
    auto using cmd_identify_ok, cmd_setmult_ok, cmd_read_ok, cmd_write_ok,
    cmd_multread_ok, cmd_multwrite_ok, cmd_readdma_ok, cmd_native_max_ok, cmd_setfeatures_ok,
    abort_cmd_ok, done_cmd_ok.
  - apply good_then; [good_tac|done|]. intros c'. apply done_cmd_ok.
  - apply good_then; [apply transform_good|done|]. intros c'. apply done_cmd_ok.
  - apply good_then; [apply good_nsector; unfold inU; lia|done|]. intros c'. apply done_cmd_ok.
  - apply safe_bind, safe_get, safe_bind. apply (safe_mono _ _ (fun _ => chan_ok)).
    + destruct (negb (is_null _)) eqn:E; [|by apply safe_ret]. apply safe_bind, safe_get.
      apply negb_true_iff in E. by rewrite E.
    + intros ? c'. apply done_cmd_ok.
  - apply good_then; [apply good_signature|done|]. intros c1 H1.
    apply good_then; [good_tac|done|]. intros c2 H2. apply upd_good; [good_tac|done].
Qed.

(** ** Ports *)

Lemma clear_hob_then (g : st ide unit) c :
  chan_ok c -> (forall c', chan_ok c' -> safe g c' (fun _ => chan_ok)) ->
  safe (ide_clear_hob;; g) c (fun _ => chan_ok).
Proof.
  intros Hc Hg. apply both_then; [|done..]. intros i s Hs.
  destruct (regs s Hs) as (? & ? & ? & ? & ? & ? & ? & ? & ?). split; [|done].
  apply ok_select; [done|by apply byte_ldiff].
Qed.

(** A register: the old value moves to its second half. *)
Lemma register_ok f g c :
  good f -> good g -> chan_ok c -> safe (ide_clear_hob;; both f;; both g) c (fun _ => chan_ok).
Proof.
  intros Hf Hg Hc. apply clear_hob_then; [done|]. intros c1 H1. apply both_then; [done..|].
  intros c2 H2. by apply both_good.
Qed.

Ltac reg_good := intros i s Hs; destruct (regs s Hs) as (? & ? & ? & ? & ? & ? & ? & ? & ?);
  split; [auto with ide|done].

Lemma ioport_write_ok port val c :
  chan_ok c -> byte val -> safe (ide_ioport_write port val) c (fun _ => chan_ok).
Proof.
  intros Hc Hv. assert (inU 17 val) by (unfold byte, inU in *; lia). unfold ide_ioport_write.
  apply safe_if; intros _; [by apply safe_ret|].
  do 5 (apply safe_if; intros _; [apply register_ok; [reg_good|reg_good|done]|]).
  apply safe_if; intros _.
  - apply good_then; [good_tac|done|]. intros c1 H1. apply good_then; [good_tac|done|].
    intros c2 [Hm H2 H3 H4]. by constructor.
  - apply safe_bind. unfold runs at 1, get. cbv zeta. apply safe_if; intros E; [by apply safe_ret|].
    apply command_ok. split; [done|].
    destruct (cur_drive c); [|apply c_hda, Hc]. apply not_null. by apply andb_false_iff in E as [|].
Qed.

Lemma ioport_read_ok port c : chan_ok c -> safe (ide_ioport_read port) c (fun _ => chan_ok).
Proof.
  intros Hc. unfold ide_ioport_read. apply safe_bind. unfold runs at 1, get. cbv zeta.
  do 7 (apply safe_if; intros _; [by apply safe_ret|]).
  apply safe_bind. eapply safe_mono; [by apply set_line_ok|]. intros ? c' [H' _]. by apply safe_ret.
Qed.

Lemma cmd_port_ok addr val c : chan_ok c -> safe (ide_cmd_write addr val) c (fun _ => chan_ok).
Proof.
  intros Hc. unfold ide_cmd_write. apply safe_bind. unfold runs at 1, get. cbv zeta.
  apply safe_bind. apply (safe_mono _ _ (fun _ => chan_ok)).
  - apply safe_if; intros _; [apply both_good; [good_tac|done]|].
    apply safe_if; intros _; [|by apply safe_ret]. apply both_good; [|done].
    intros i s Hs. destruct (good_signature i (set_status (READY_STAT |! SEEK_STAT) s)); [by auto with ide|done].
  - intros ? c' Hc'. apply both_good; [good_tac|done].
Qed.

(** ** Any series of accesses *)

(** The guest's accesses to the channel.  A byte is all that reaches the
    handlers of the byte-wide ports. *)
Inductive access :=
  | Outb (port val : Z) | Inb (port : Z) | Control (val : Z) | Status
  | Outw (val : Z) | Inw | Outl (val : Z) | Inl.

Definition perform (a : access) : st ide Z :=
  match a with
  | Outb port val => ide_ioport_write port (wrap 8 val);; mret 0
  | Inb port => ide_ioport_read port
  | Control val => ide_cmd_write 0x3f6 (wrap 8 val);; mret 0
  | Status => ide_status_read 0x3f6
  | Outw val => ide_data_writew 0x1f0 val;; mret 0
  | Inw => ide_data_readw 0x1f0
  | Outl val => ide_data_writel 0x1f0 val;; mret 0
  | Inl => ide_data_readl 0x1f0
  end.

Fixpoint perform_all (l : list access) : st ide (list Z) :=
  match l with
  | [] => mret []
  | a :: l => v ← perform a; vs ← perform_all l; mret (v :: vs)
  end.

Lemma perform_ok a c : chan_ok c -> safe (perform a) c (fun _ => chan_ok).
Proof.
  intros Hc. assert (forall (m : st ide unit), safe m c (fun _ => chan_ok) ->
    safe (m;; mret 0) c (fun _ => chan_ok)) as Hm.
  { intros m Hm. apply safe_bind. eapply safe_mono; [exact Hm|]. done. }
  destruct a; simpl.
  - by apply Hm, ioport_write_ok; [|apply byte_wrap].
  - by apply ioport_read_ok.
  - by apply Hm, cmd_port_ok.
  - done.
  - by apply Hm, data_write_ok; [|left].
  - by apply data_read_ok; [|left].
  - by apply Hm, data_write_ok; [|right].
  - by apply data_read_ok; [|right].
Qed.

Lemma perform_all_ok l c : chan_ok c -> safe (perform_all l) c (fun _ => chan_ok).
Proof.
  revert c. induction l as [|a l IH]; intros c Hc; [by apply safe_ret|]. apply safe_bind.
  eapply safe_mono; [by apply perform_ok|]. intros v c1 H1. apply safe_bind.
  eapply safe_mono; [by apply IH|]. intros vs c2 H2. by apply safe_ret.
Qed.

(** ** Initialisation *)

(** Memory of the size of an [IDEState].  [ide_init] sets neither the pointer
    to the bus master nor the multiple count: the first has to be null and the
    second at most 16 in the memory it gets. *)
Record raw (s : IDEState) : Prop := {
  r_buf : lenZ (io_buffer s) = 8196;
  r_bytes : byte_list (io_buffer s);
  r_regs : Forall byte [sector_ s; lcyl s; hcyl s; hob_nsector s; hob_sector s; hob_lcyl s;
    hob_hcyl s; select s; feature s];
  r_mult : 0 <= mult_sectors s <= MAX_MULT_SECTORS;
  r_bmdma : bmdma s = false;
  r_id : block (identify_data s);
}.

Definition reset_drive (s : IDEState) : IDEState :=
  ide_dummy_transfer_stop (set_end_transfer_func ide_dummy_transfer_stop_
    (ide_set_signature (set_status READY_STAT s))).

Lemma reset_ok u s :
  raw s -> drive_serial s = 1 \/ drive_serial s = 2 -> ide_irq s = 14 ->
  (forall b, bs s = Some b -> heads s = 16 /\ sectors s = 63 /\ G u b) -> drive_ok u (reset_drive s).
Proof.
  intros [R1 R2 R3 R4 R5 [R6 R7]] Hser Hirq Hb.
  repeat (apply Forall_cons in R3 as [? R3]).
  assert (byte (select s &! 0xf0)) by (apply byte_land; [done|lia]).
  unfold reset_drive, ide_set_signature. cbn [bs set_status set_select set_nsector set_sector].
  destruct (is_null (bs s)) eqn:En.
  all: constructor; cbn -[app replicate drop take Z.mul]; rewrite ?En; try done; try lia.
  all: try (unfold lenZ in *; rewrite length_app, length_drop, length_replicate; lia).
  all: try (exists 0; lia).
  all: try (apply Forall_app; split; [by repeat constructor|by apply Forall_drop]).
  all: repeat (apply Forall_cons; split; [first [done|by apply byte_const]|]); constructor.
Qed.

(** The disks after their sizes have been read. *)
Definition sized : Prop :=
  forall u b n b', G u b -> displace_bdrv_getlength b = Ret (n, b') -> G u b'.

(** The updates of [ide_init2] for one drive, before the reset. *)
Lemma getlength_res b : displace_bdrv_getlength b = Stop Panic \/
  exists n b', displace_bdrv_getlength b = Ret (n, b').
Proof.
  unfold displace_bdrv_getlength, disk_size. destruct (disk_sz _ =? 0); simpl; [|right; by do 2 eexists].
  destruct (type _); [right; by do 2 eexists|]. destruct (usbmsd_read_capacity _) as [[nb sz]|]; [|by left].
  unfold assert. destruct (sz =? _); [right; by do 2 eexists|by left].
Qed.

Lemma reset_run u c :
  ide_reset u c =
  let c := if u then c else mk_ide (mach c) (if0 c) (if1 c) false in
  Ret (tt, with_if u (reset_drive (the_if u c)) c).
Proof. by destruct u. Qed.

Lemma raw_upd f : (forall s, io_buffer (f s) = io_buffer s /\ sector_ (f s) = sector_ s /\ lcyl (f s) = lcyl s /\
  hcyl (f s) = hcyl s /\ hob_nsector (f s) = hob_nsector s /\ hob_sector (f s) = hob_sector s /\
  hob_lcyl (f s) = hob_lcyl s /\ hob_hcyl (f s) = hob_hcyl s /\ select (f s) = select s /\
  feature (f s) = feature s /\ mult_sectors (f s) = mult_sectors s /\ bmdma (f s) = bmdma s /\
  identify_data (f s) = identify_data s) -> forall s, raw s -> raw (f s).
Proof.
  intros Hf s [R1 R2 R3 R4 R5 R6].
  destruct (Hf s) as (E1 & E2 & E3 & E4 & E5 & E6 & E7 & E8 & E9 & E10 & E11 & E12 & E13).
  constructor; rewrite ?E1, ?E2, ?E3, ?E4, ?E5, ?E6, ?E7, ?E8, ?E9, ?E10, ?E11, ?E12, ?E13; done.
Qed.

Lemma init_drive_ok u serial ob c :
  sized -> raw (the_if u c) -> serial = 1 \/ serial = 2 -> (forall b, ob = Some b -> G u b) ->
  safe (init_drive u 14 serial ob) c (fun _ c' =>
    drive_ok u (the_if u c') /\ (ob <> None -> bs (the_if u c') <> None) /\
    the_if (negb u) c' = the_if (negb u) c /\ mach c' = mach c).
Proof.
  intros Hz Hr Hser Hg. apply safe_bind, safe_upd, safe_bind.
  apply (safe_mono _ _ (fun _ c' => raw (the_if u c') /\ (ob <> None -> bs (the_if u c') <> None) /\
    (forall b, bs (the_if u c') = Some b -> heads (the_if u c') = 16 /\ sectors (the_if u c') = 63 /\ G u b) /\
    the_if (negb u) c' = the_if (negb u) c /\ mach c' = mach c)).
  - destruct ob as [b|].
    + apply safe_bind. unfold runs at 1, lift.
      destruct (getlength_res b) as [-> |(n & b' & E)]; [done|]. rewrite E.
      pose proof (Hz u b n b' (Hg b eq_refl) E) as Hg'.
      do 4 (apply safe_bind, safe_upd). apply safe_upd. rewrite ?with_if_twice, ?with_if_same, ?with_if_other.
      cbn [bs heads sectors set_sectors set_heads set_cylinders set_nb_sectors set_bs].
      split_and!; try done; [by repeat apply raw_upd| |by destruct u]. by intros ? [= <-].
    + apply safe_ret. rewrite with_if_same, with_if_other. split_and!; [by apply raw_upd|done..|by destruct u].
  - intros ? c1 (R1 & Hb & Hd & Ho & Hm). apply safe_bind, safe_upd, safe_bind, safe_upd.
    unfold runs. rewrite reset_run, with_if_twice, !with_if_same.
    assert (Hk : drive_ok u (reset_drive (set_ide_irq 14 (set_drive_serial serial (the_if u c1)))))
      by (apply reset_ok; [|done..];
        apply (raw_upd (set_ide_irq 14)), (raw_upd (set_drive_serial serial)); done).
    assert (Eb : forall s, bs (reset_drive s) = bs s)
      by (intros s; unfold reset_drive, ide_set_signature; simpl; by destruct (is_null (bs s))).
    destruct u; cbn [the_if with_if if0 if1 mach negb] in *; rewrite Eb; done.
Qed.

Lemma init_ok hda ohdb c :
  sized -> mach_ok (mach c) -> raw (if0 c) -> raw (if1 c) -> G false hda ->
  (forall b, ohdb = Some b -> G true b) ->
  safe (ide_init (Some hda) ohdb) c (fun _ => chan_ok).
Proof.
  intros Hz Hm H0 H1 Ha Hb. apply safe_bind.
  eapply safe_mono; [apply init_drive_ok; [done..|by left|by intros ? [= <-]]|].
  intros ? c1 (K1 & B1 & O1 & M1). simpl in *.
  eapply safe_mono; [apply init_drive_ok; [done|by rewrite <- O1 in H1|by right|done]|].
  intros ? c2 (K2 & B2 & O2 & M2). simpl in *. constructor.
  - congruence.
  - by rewrite O2.
  - done.
  - rewrite O2. by apply B1.
Qed.

End Invariant.
