(* ===== verification/IdeData.v ===== *)
(** * Data through the IDE controller

    What the guest gets from the channel: the sector number in the registers,
    the sectors a read command delivers word by word and those a write
    command stores, and the isolation of the monitor's part of the disk. *)

From Stdlib Require Import ZArith Lia Bool Ascii String.
From stdpp Require Import base list.
From S2P Require Import Prelude Pic Uart Printf Cstring Bdrv Ide IdeSafe.

(** ** Sector numbers *)

(** Bits [k, k + 8) of [x], in place. *)
Lemma testbit_field x k i :
  0 <= k -> 0 <= i -> Z.testbit (wrap 8 (x >> k) << k) i = (k <=? i) && (i <? k + 8) && Z.testbit x i.
Proof.
  intros Hk Hi. destruct (Z.leb_spec k i); simpl.
  - rewrite Z.shiftl_spec, testbit_wrap, Z.shiftr_spec by lia. f_equal; [|f_equal; lia].
    destruct (Z.ltb_spec (i - k) 8), (Z.ltb_spec i (k + 8)); lia || done.
  - rewrite Z.shiftl_spec_low by lia. done.
Qed.

(** The four registers of a 28-bit sector number. *)
Definition lba28 (n : Z) : Z :=
  ((wrap 8 (n >> 24) &! 0x0f) << 24) |! (wrap 8 (n >> 16) << 16) |! (wrap 8 (n >> 8) << 8) |! wrap 8 n.
Definition lba48_of (n : Z) : Z :=
  (wrap 8 (n >> 40) << 40) |! (wrap 8 (n >> 32) << 32) |! (wrap 8 (n >> 24) << 24)
    |! (wrap 8 (n >> 16) << 16) |! (wrap 8 (n >> 8) << 8) |! wrap 8 n.

Lemma lba28_id n : inU 28 n -> lba28 n = n.
Proof.
  intros Hn. unfold lba28.
  replace (wrap 8 (n >> 24) &! 0x0f) with (wrap 8 (n >> 24)).
  - replace (wrap 8 n) with (wrap 8 (n >> 0) << 0) by (by rewrite Z.shiftl_0_r, Z.shiftr_0_r).
    apply Z.bits_inj'. intros i Hi. rewrite !Z.lor_spec, !testbit_field by lia.
    destruct (Z.testbit n i) eqn:E; [|by rewrite !andb_false_r].
    assert (i < 28) by (destruct (Z.lt_ge_cases i 28); [done|]; by rewrite (inU_testbit 28) in E by (done || lia)).
    rewrite !andb_true_r. cmp_cases; lia || done.
  - change 0x0f with (Z.ones 4). rewrite Z.land_ones by lia.
    unfold inU in Hn. assert (0 <= n >> 24 < 16)
      by (rewrite Z.shiftr_div_pow2 by lia; split; [apply Z.div_pos|apply Z.div_lt_upper_bound]; lia).
    rewrite wrap_id by (unfold inU; lia). by rewrite Z.mod_small by lia.
Qed.

Lemma lba48_id n : inU 48 n -> lba48_of n = n.
Proof.
  intros Hn. unfold lba48_of.
  replace (wrap 8 n) with (wrap 8 (n >> 0) << 0) by (by rewrite Z.shiftl_0_r, Z.shiftr_0_r).
  apply Z.bits_inj'. intros i Hi. rewrite !Z.lor_spec, !testbit_field by lia.
  destruct (Z.testbit n i) eqn:E; [|by rewrite !andb_false_r].
  assert (i < 48) by (destruct (Z.lt_ge_cases i 48); [done|]; by rewrite (inU_testbit 48) in E by (done || lia)).
  rewrite !andb_true_r.
  assert (Hd : exists q, q * 8 <= i < q * 8 + 8 /\ 0 <= q < 6)
    by (exists (i / 8); pose proof (Z.div_mod i 8); pose proof (Z.mod_pos_bound i 8); lia).
  destruct Hd as (q & Hq & Hq6).
  assert (q = 0 \/ q = 1 \/ q = 2 \/ q = 3 \/ q = 4 \/ q = 5) as [-> |[-> |[-> |[-> |[-> | ->]]]]] by lia;
    repeat match goal with
    | |- context [?a <=? ?b] => first [rewrite (proj2 (Z.leb_le a b)) by lia|rewrite (proj2 (Z.leb_gt a b)) by lia]
    | |- context [?a <? ?b] => first [rewrite (proj2 (Z.ltb_lt a b)) by lia|rewrite (proj2 (Z.ltb_ge a b)) by lia]
    end; done.
Qed.


Section Sectors.
Context {D : Type}.
Implicit Types s : @IDEState D.

(** The registers hold sector numbers: 28 bits of address, 48 with the
    extended commands, or cylinder, head and sector. *)
Definition is_lba s : bool := nz (select s &! 0x40).
Definition capacity s : Z :=
  if is_lba s then if lba48 s then 2 ^ 48 else 2 ^ 28 else 65536 * heads s * sectors s.

Lemma select_split x n :
  byte x -> inU 28 n ->
  wrap 8 ((x &! 0xf0) |! (n >> 24)) &! 0x0f = wrap 8 (n >> 24) &! 0x0f /\
  nz (wrap 8 ((x &! 0xf0) |! (n >> 24)) &! 0x40) = nz (x &! 0x40).
Proof.
  intros Hx Hn.
  assert (H4 : inU 4 (n >> 24)).
  { unfold inU in *. rewrite Z.shiftr_div_pow2 by lia.
    split; [apply Z.div_pos|apply Z.div_lt_upper_bound]; lia. }
  split.
  - change 0x0f with (Z.ones 4). change 0xf0 with (Z.ones 4 << 4). bits_eq.
    destruct (Z.ltb_spec i 4); [|by rewrite !andb_false_r]. rewrite (Z.testbit_neg_r _ (i - 4)) by lia.
    by rewrite andb_false_r.
  - change 0x40 with (1 << 6). rewrite !land_bit_nz by lia. change 0xf0 with (Z.ones 4 << 4).
    repeat bits_step. rewrite (inU_testbit 28 ltac:(lia) n (6 + 24)) by (done || lia).
    cbn -[Z.testbit]. by rewrite andb_true_r, orb_false_r.
Qed.

Lemma get_put_lba28 s n :
  byte (select s) -> is_lba s = true -> lba48 s = false -> inU 28 n ->
  ide_get_sector (put_sector_num n s) = n /\ is_lba (put_sector_num n s) = true /\
  byte (select (put_sector_num n s)) /\ lba48 (put_sector_num n s) = false.
Proof.
  unfold is_lba. intros Hs Hl H48 Hn. destruct (select_split (select s) n Hs Hn) as [E1 E2].
  unfold put_sector_num. rewrite Hl, H48. unfold ide_get_sector. simpl. rewrite E1, E2, Hl, H48.
  split_and!; [by apply lba28_id|done|apply byte_wrap|done].
Qed.

Lemma get_put_lba48 s n :
  is_lba s = true -> lba48 s = true -> inU 48 n ->
  ide_get_sector (put_sector_num n s) = n /\ is_lba (put_sector_num n s) = true.
Proof.
  unfold is_lba. intros Hl H48 Hn. unfold put_sector_num. rewrite Hl, H48. unfold ide_get_sector.
  simpl. rewrite Hl, H48. split; [by apply lba48_id|done].
Qed.

Lemma lba16_id n : inU 16 n -> (wrap 8 (n >> 8) << 8) |! wrap 8 n = n.
Proof.
  intros Hn. replace (wrap 8 n) with (wrap 8 (n >> 0) << 0) by (by rewrite Z.shiftl_0_r, Z.shiftr_0_r).
  apply Z.bits_inj'. intros i Hi. rewrite !Z.lor_spec, !testbit_field by lia.
  destruct (Z.testbit n i) eqn:E; [|by rewrite !andb_false_r].
  assert (i < 16) by (destruct (Z.lt_ge_cases i 16); [done|]; by rewrite (inU_testbit 16) in E by (done || lia)).
  rewrite !andb_true_r. cmp_cases; lia || done.
Qed.

Lemma head_split x h :
  byte x -> 0 <= h < 16 ->
  ((x &! 0xf0) |! (h &! 0x0f)) &! 0x0f = h /\ nz (((x &! 0xf0) |! (h &! 0x0f)) &! 0x40) = nz (x &! 0x40).
Proof.
  intros Hx Hh. change 0x0f with (Z.ones 4). change 0xf0 with (Z.ones 4 << 4).
  split.
  - bits_eq. destruct (Z.ltb_spec i 4).
    + rewrite (Z.testbit_neg_r _ (i - 4)) by lia. by rewrite !andb_false_r, !andb_true_r.
    + rewrite !andb_false_r. symmetry. apply (inU_testbit 4); unfold inU; lia.
  - change 0x40 with (1 << 6). rewrite !land_bit_nz by lia. repeat bits_step. cbn -[Z.testbit].
    by rewrite andb_true_r, andb_false_r, orb_false_r.
Qed.

Lemma get_put_chs s n :
  byte (select s) -> is_lba s = false -> heads s = 16 -> sectors s = 63 -> 0 <= n < 65536 * 16 * 63 ->
  ide_get_sector (put_sector_num n s) = n /\ is_lba (put_sector_num n s) = false.
Proof.
  unfold is_lba. intros Hs Hl Hh Hsec Hn. unfold put_sector_num. rewrite Hl, Hh, Hsec.
  unfold ide_get_sector. simpl. rewrite Hh, Hsec.
  rewrite Z.quot_div_nonneg, Z.rem_mod_nonneg by lia.
  pose proof (Z.div_mod n (16 * 63)) as E1. pose proof (Z.mod_pos_bound n (16 * 63)) as B1.
  assert (0 <= n / (16 * 63) < 65536)
    by (split; [apply Z.div_pos|apply Z.div_lt_upper_bound]; lia).
  set (cyl := n / (16 * 63)) in *. set (r := n mod (16 * 63)) in *. clearbody cyl r.
  rewrite (wrap_id 32 cyl), (wrap_id 32 r) by (unfold inU; lia).
  pose proof (Z.div_mod r 63) as E2. pose proof (Z.mod_pos_bound r 63) as B2.
  assert (0 <= r / 63 < 16) by (split; [apply Z.div_pos|apply Z.div_lt_upper_bound]; lia).
  set (h := r / 63) in *. set (t := r mod 63) in *. clearbody h t.
  destruct (head_split (select s) h Hs) as [-> ->]; [lia|]. rewrite Hl.
  rewrite lba16_id, (wrap_id 8) by (unfold inU; lia). split; [lia|done].
Qed.
End Sectors.

(** ** Isolation of the monitor's sectors *)

Section Isolation.
Context {D : Type} {HD : Drive D} {HL : DriveLaws D}.
Implicit Types (b : displace D) (c : @ide D).

(** [b'] is [b] with the monitor's sectors as they were. *)
Definition apart b b' : Prop :=
  same_setup b b' /\ displaced b /\ forall k, hides b k -> medium b' k = medium b k.

(** The disks the two drives started with. *)
Definition from_disks (disks : bool -> option (displace D)) (u : bool) b : Prop :=
  exists b0, disks u = Some b0 /\ apart b0 b.

Notation safe := (runs True).

Lemma apart_trans b0 b b' :
  apart b0 b -> same_setup b b' -> (forall k, hides b k -> medium b' k = medium b k) -> apart b0 b'.
Proof.
  intros (Hset & Hd & Hm) Hset' Hm'. split_and!; [by eapply same_setup_trans|done|].
  destruct Hset as (Ho & Hl & _). intros k Hk. rewrite Hm', Hm by (unfold hides in *; by rewrite ?Ho, ?Hl). done.
Qed.

Lemma same_setup_refl b : same_setup b b.
Proof. done. Qed.

Lemma from_stays disks : stays (from_disks disks).
Proof.
  split; intros i b sec.
  - intros n data b' (b0 & E0 & Ha) Hn E. exists b0. split; [done|].
    assert (Hw : inU 32 (wrap 32 sec)) by (apply wrap_inU; lia). unfold inU in Hw.
    destruct (Z.lt_ge_cases (wrap 32 sec + n) (2 ^ 32)).
    + destruct (displace_read_ok b (wrap 32 sec) n) as [[_ E']|(b1 & E' & Hm & Hs)]; [lia..| |];
        rewrite E' in E; [done|]. injection E as <- <-. by eapply apart_trans.
    + rewrite displace_read_wrap in E by lia. injection E as <- <-. done.
  - intros buf n b' (b0 & E0 & Ha) Hn Hl Hb E. exists b0. split; [done|].
    assert (Hw : inU 32 (wrap 32 sec)) by (apply wrap_inU; lia). unfold inU in Hw.
    destruct (Z.lt_ge_cases (wrap 32 sec + n) (2 ^ 32)).
    + destruct (displace_write_ok b (wrap 32 sec) buf n) as [[_ E']|(b1 & E' & Hm & Hs)];
        [lia..|unfold lenZ in Hl; lia|done| |]; rewrite E' in E; [done|]. injection E as <-.
      eapply apart_trans; [done..|]. intros k Hk. rewrite Hm. apply written_hides; [|lia|done].
      eapply displaced_setup; apply Ha.
    + rewrite displace_write_wrap in E by lia. injection E as <-. done.
Qed.

Lemma from_sized disks : sized (from_disks disks).
Proof.
  intros u b n b' (b0 & E0 & Ha) E. exists b0. split; [done|].
  revert E. unfold displace_bdrv_getlength, disk_size.
  destruct (disk_sz (bas_disk b) =? 0); simpl; [destruct (type (bas_disk b))|].
  - intros [= <- <-]. by apply (apart_trans b0 b).
  - destruct (usbmsd_read_capacity _) as [[nb sz]|]; [|done]. unfold assert.
    destruct (sz =? _); [|done]. intros [= <- <-]. by apply (apart_trans b0 b).
  - intros [= <- <-]. by apply (apart_trans b0 b).
Qed.

Lemma isolated_ok hda ohdb c l :
  mach_ok (mach c) -> raw (if0 c) -> raw (if1 c) -> displaced hda ->
  (forall b, ohdb = Some b -> displaced b) ->
  safe (ide_init (Some hda) ohdb;; perform_all l) c (fun _ c' =>
    chan_ok (from_disks (fun u => if u then ohdb else Some hda)) c').
Proof.
  intros Hm H0 H1 Ha Hb. apply safe_bind.
  eapply safe_mono; [apply (init_ok (from_disks (fun u => if u then ohdb else Some hda)))|].
  - done.
  - apply from_sized.
  - done.
  - done.
  - done.
  - by exists hda.
  - intros b ->. exists b. split; [done|]. split_and!; [done|by apply Hb..|done].
  - intros ? c' Hc'. apply perform_all_ok; [apply from_stays|done..].
Qed.

End Isolation.

(** ** Words through the data port *)

Section Transfer.
Context {D : Type} {HD : Drive D} {HL : DriveLaws D}.
Notation IDEState := (@IDEState D).
Notation ide := (@ide D).
Implicit Types (b : displace D) (c : ide) (s : IDEState) (u : bool).

(** The 16-bit words of a string of bytes, and back. *)
Fixpoint words (l : list Z) : list Z :=
  match l with x :: y :: l => of_bytes [x; y] :: words l | _ => [] end.
Definition unwords (ws : list Z) : list Z := concat (map (le_bytes 2) ws).

Ltac run := repeat rewrite ?upd_bind, ?get_bind, ?upd_run, ?with_if_twice, ?with_if_same.

(** The sectors are present: nothing panics. *)
Notation total := (runs False).

Lemma safe_and {A} (m : st ide A) c (Q Q' : A -> ide -> Prop) :
  runs True m c Q -> total m c Q' -> total m c (fun a c' => Q a c' /\ Q' a c').
Proof. unfold runs. destruct (m c) as [[a c']|]; auto. Qed.

Lemma words_app n x y : length x = (2 * n)%nat -> words (x ++ y) = words x ++ words y.
Proof.
  revert x. induction n as [|n IH]; intros x Hx.
  - by destruct x.
  - destruct x as [|a [|a' x]]; simpl in *; [lia..|]. by rewrite IH by lia.
Qed.

Lemma words_length n x : length x = (2 * n)%nat -> length (words x) = n.
Proof.
  revert x. induction n as [|n IH]; intros x Hx.
  - by destruct x.
  - destruct x as [|a [|a' x]]; simpl in *; [lia..|]. by rewrite IH by lia.
Qed.

Lemma of_le_bytes v : inU 16 v -> of_bytes (le_bytes 2 v) = v.
Proof.
  intros Hv. cbn [le_bytes of_bytes]. rewrite Z.shiftl_0_l, Z.lor_0_r, Z.lor_comm.
  by apply lba16_id.
Qed.

Lemma words_unwords ws : Forall (inU 16) ws -> words (unwords ws) = ws.
Proof.
  induction 1 as [|w ws Hw _ IH]; [done|]. unfold unwords in *.
  change (concat _) with (le_bytes 2 w ++ concat (map (le_bytes 2) ws)).
  rewrite (words_app 1) by done. rewrite IH.
  change (words (le_bytes 2 w)) with [of_bytes (le_bytes 2 w)]. by rewrite of_le_bytes.
Qed.

Lemma unwords_length ws : length (unwords ws) = (2 * length ws)%nat.
Proof.
  induction ws as [|w ws IH]; [done|].
  change (unwords (w :: ws)) with (le_bytes 2 w ++ unwords ws).
  rewrite length_app, IH. simpl. lia.
Qed.

Lemma unwords_bytes ws : byte_list (unwords ws).
Proof.
  induction ws as [|w ws IH]; [constructor|].
  change (unwords (w :: ws)) with (le_bytes 2 w ++ unwords ws).
  apply Forall_app. split; [apply le_bytes_ok|done].
Qed.

Lemma unwords_app x y : unwords (x ++ y) = unwords x ++ unwords y.
Proof. unfold unwords. by rewrite map_app, concat_app. Qed.

Lemma unwords_split n ws : (n <= length ws)%nat ->
  take (2 * n) (unwords ws) = unwords (take n ws) /\ drop (2 * n) (unwords ws) = unwords (drop n ws).
Proof.
  intros Hn. rewrite <- (take_drop n ws) at 1 3. rewrite unwords_app.
  assert (Hl : length (unwords (take n ws)) = (2 * n)%nat) by (rewrite unwords_length, length_take; lia).
  split; [by rewrite take_app_le, take_ge by lia|by rewrite <- Hl, drop_app_length].
Qed.

Lemma written_first b f sec n buf :
  written b f sec (S n) buf = written b (written b f sec 1 (take 512 buf)) (sec + 1) n (drop 512 buf).
Proof. simpl. by rewrite take_take. Qed.

(** *** Reading *)

Definition ending {A B} (m : res A) (f : A -> B) : res B :=
  match m with Ret a => Ret (f a) | Stop e => Stop e end.

(** Reading the rest of the buffer, one word at a time: the last word ends
    the transfer. *)
Lemma inw_mid c :
  let s := the_if (cur_drive c) c in
  0 <= data_ptr s -> data_ptr s + 2 < data_end s -> data_end s <= lenZ (io_buffer s) ->
  perform Inw c = Ret (of_bytes (take 2 (drop (Z.to_nat (data_ptr s)) (io_buffer s))),
    with_if (cur_drive c) (set_data_ptr (data_ptr s + 2) s) c).
Proof.
  intros s H0 Hp He. unfold perform, ide_data_readw, ide_data_read, get. rewrite bind_at.
  fold s. rewrite (proj2 (Z.ltb_ge _ _)) by lia. run. fold s.
  by rewrite (proj2 (Z.leb_gt _ _)) by lia.
Qed.

Lemma inw_last c :
  let s := the_if (cur_drive c) c in
  0 <= data_ptr s -> data_ptr s + 2 = data_end s -> data_end s <= lenZ (io_buffer s) ->
  perform Inw c = ending (call_end_transfer (cur_drive c) c) (fun '(_, c') =>
    (of_bytes (take 2 (drop (Z.to_nat (data_ptr s)) (io_buffer s))), c')).
Proof.
  intros s H0 Hp He. unfold perform, ide_data_readw, ide_data_read, get. rewrite bind_at.
  fold s. rewrite (proj2 (Z.ltb_ge _ _)) by lia. run. fold s.
  rewrite (proj2 (Z.leb_le _ _)) by lia. rewrite bind_at. unfold s. rewrite end_transfer_ptr.
  by destruct (call_end_transfer _ _) as [[[] c']|].
Qed.

Lemma take2_words j l :
  (2 * S j <= length l)%nat ->
  words (take (2 * S j) l) = of_bytes (take 2 l) :: words (take (2 * j) (drop 2 l)).
Proof.
  intros Hl. replace (2 * S j)%nat with (S (S (2 * j))) by lia.
  destruct l as [|x [|y l]]; simpl in Hl; [lia..|]. done.
Qed.

Lemma read_rest j : forall c,
  let s := the_if (cur_drive c) c in
  0 <= data_ptr s -> data_ptr s + 2 * Z.of_nat (S j) = data_end s -> data_end s <= lenZ (io_buffer s) ->
  perform_all (replicate (S j) Inw) c = ending (call_end_transfer (cur_drive c) c) (fun '(_, c') =>
    (words (take (2 * S j) (drop (Z.to_nat (data_ptr s)) (io_buffer s))), c')).
Proof.
  induction j as [|j IH]; intros c s H0 Hp He.
  - cbn [replicate perform_all]. rewrite bind_at, inw_last by (fold s; lia). fold s.
    destruct (call_end_transfer _ _) as [[[] c']|]; [|done]. simpl. do 2 f_equal.
    unfold lenZ in He.
    rewrite (take2_words 0) by (rewrite length_drop; lia). by rewrite take_0.
  - change (replicate (S (S j)) Inw) with (Inw :: replicate (S j) Inw).
    cbn [perform_all]. rewrite bind_at, inw_mid by (fold s; lia). fold s. rewrite bind_at.
    set (c' := with_if _ _ _). assert (Es : the_if (cur_drive c') c' = set_data_ptr (data_ptr s + 2) s)
      by (subst c'; rewrite cur_with_if; apply with_if_same).
    rewrite IH by (rewrite Es; cbn [data_ptr data_end io_buffer set_data_ptr]; lia). rewrite Es.
    cbn [data_ptr data_end io_buffer set_data_ptr].
    replace (call_end_transfer (cur_drive c') c') with (call_end_transfer (cur_drive c) c)
      by (subst c'; rewrite cur_with_if; symmetry; apply end_transfer_ptr).
    destruct (call_end_transfer _ _) as [[[] c'']|]; [|done]. cbn [ending].
    rewrite (take2_words (S j)) by (unfold lenZ in *; rewrite length_drop; lia).
    rewrite drop_drop. replace (Z.to_nat (data_ptr s) + 2)%nat with (Z.to_nat (data_ptr s + 2)) by lia.
    done.
Qed.

(** *** Sectors *)

Definition any (u : bool) b : Prop := True.

Lemma any_stays : stays any.
Proof. done. Qed.

(** Drive [u] is to transfer [k] more sectors of disk [b] from [sec] on. *)
Record at_lba u b (sec k : Z) c : Prop := {
  l_cur : cur_drive c = u;
  l_chan : chan_ok any c;
  l_lba : is_lba (the_if u c) = true;
  l_48 : lba48 (the_if u c) = false;
  l_req : req_nb_sectors (the_if u c) = 1;
  l_n : nsector (the_if u c) = k;
  l_sec : ide_get_sector (the_if u c) = sec;
  l_reach : reachable b sec k;
  l_disk : exists b', bs (the_if u c) = Some b' /\ (forall j, medium b' j = medium b j) /\ same_setup b b';
}.

(** The status while data are transferred. *)
Definition DATA_STAT : Z := READY_STAT |! SEEK_STAT |! DRQ_STAT.

(** The buffer of drive [u] holds [data] for the guest to read. *)
Definition fetched u (data : list Z) c : Prop :=
  data_ptr (the_if u c) = 0 /\ data_end (the_if u c) = 512 /\
  end_transfer_func (the_if u c) = ide_sector_read_ /\ take 512 (io_buffer (the_if u c)) = data /\
  status (the_if u c) = DATA_STAT.

(** The line of the channel at the interrupt controller. *)
Definition raised c : bool := Z.testbit (last_irr (pic1 (isa_pic (mach c)))) 6.

(** From [c] to [c'] drive [u] raises the line, unless told not to. *)
Definition signals u c c' : Prop :=
  nz (cmd (the_if u c) &! IDE_CMD_DISABLE_IRQ) = false -> raised c' = true.

Lemma put_frame n s :
  let s' := put_sector_num n s in
  data_ptr s' = data_ptr s /\ data_end s' = data_end s /\ end_transfer_func s' = end_transfer_func s /\
  io_buffer s' = io_buffer s /\ bs s' = bs s /\ req_nb_sectors s' = req_nb_sectors s /\
  nsector s' = nsector s /\ status s' = status s.
Proof. unfold put_sector_num. destruct (nz _); [destruct (negb _)|]; done. Qed.

Lemma put_chip n s :
  let s' := put_sector_num n s in ide_irq s' = ide_irq s /\ bmdma s' = bmdma s /\ cmd s' = cmd s.
Proof. unfold put_sector_num. destruct (nz _); [destruct (negb _)|]; done. Qed.

Lemma raise_line m m' :
  set_irq_line m 14 true = Ret m' -> Z.testbit (last_irr (pic1 (isa_pic m'))) 6 = true.
Proof.
  unfold set_irq_line, cpu_interrupt. destruct (replay_log m); [done|]. simpl. intros [= <-]. simpl.
  unfold pic_set_irq1. change (1 << (14 &! 7)) with 64.
  assert (Ht : forall x, Z.testbit (wrap 8 (x |! 64)) 6 = true)
    by (intros x; rewrite testbit_wrap, Z.lor_spec by lia; by rewrite orb_true_r).
  destruct (nz _); cbn [last_irr set_last_irr set_irr]; apply Ht.
Qed.

Lemma irq_frame u c :
  mach_ok (mach c) -> ide_irq (the_if u c) = 14 -> bmdma (the_if u c) = false ->
  total (ide_set_irq u) c (fun _ c' => mach_ok (mach c') /\ same_drives c c' /\ signals u c c').
Proof.
  intros Hm Hi Hb. apply safe_bind, safe_get. apply safe_if; intros Hcmd.
  { apply safe_ret. split_and!; try done. unfold signals. by rewrite Hcmd. }
  rewrite Hb. destruct (set_irq_line_ok (mach c) 14 true Hm) as (m & E & Hm'); [lia|].
  unfold runs, set_line. rewrite Hi, E. split_and!; try done. intros _. by apply (raise_line (mach c)).
Qed.

Lemma lba_byte u c : chan_ok any c -> byte (select (the_if u c)).
Proof. intros Hc. by destruct (regs any _ (chan_if _ c u Hc)) as (_ & _ & _ & _ & _ & _ & _ & ? & _). Qed.

(** The registers of drive [u] move on to the next sector. *)
Lemma set_sector_next u n c :
  heads (the_if u c) = 16 -> sectors (the_if u c) = 63 ->
  total (ide_set_sector u n) c (fun _ c' => c' = with_if u (put_sector_num n (the_if u c)) c).
Proof.
  intros Hh Hs. apply safe_bind, safe_get. rewrite Hh, Hs, andb_false_r. by apply safe_upd.
Qed.

Lemma sector_read_fun u b sec k c :
  at_lba u b sec (k + 1) c -> 0 <= k < 256 -> 0 <= sec -> sec + 1 < 2 ^ 28 ->
  total (ide_sector_read u) c (fun _ c' =>
    at_lba u b (sec + 1) k c' /\ fetched u (view b sec 1) c' /\ signals u c c').
Proof.
  intros [Hcur Hc Hlba H48 Hreq Hn Hsec Hre (b' & Eb & Hmed & Hset)] Hk Hs0 Hs1.
  assert (Hch : runs True (ide_sector_read u) c (fun _ => chan_ok any)).
  { eapply ready_chan, sector_read_ok; [apply any_stays|done|].
    split_and!; [done|by rewrite Eb|rewrite Hreq; lia..|done]. }
  enough (Hf : total (ide_sector_read u) c (fun _ c' => chan_ok any c' ->
    at_lba u b (sec + 1) k c' /\ fetched u (view b sec 1) c' /\ signals u c c')).
  { eapply safe_mono; [apply (safe_and _ _ _ _ Hch Hf)|]. naive_solver. }
  clear Hch. unfold ide_sector_read. pose proof (chan_if _ c u Hc) as Hs.
  apply safe_bind, safe_upd, safe_bind, safe_upd, safe_bind, safe_get.
  rewrite !with_if_same, with_if_twice. set (s := the_if u c) in *.
  change (ide_get_sector (set_error 0 (set_status _ s))) with (ide_get_sector s).
  cbn [nsector req_nb_sectors set_error set_status]. rewrite Hsec, Hreq, Hn, sgn_small by (unfold inU; lia).
  destruct (Z.eqb_spec (k + 1) 0); [lia|].
  replace (if 1 <? k + 1 then 1 else k + 1) with 1 by (destruct (Z.ltb_spec 1 (k + 1)); lia).
  apply safe_bind. unfold runs at 1. rewrite bdrv_read_run, with_if_same.
  cbn [bs set_error set_status]. rewrite Eb, wrap_id by (unfold inU; lia).
  destruct (displace_read_ok b' sec 1) as [[Hp _] |(b1 & -> & Hm1 & Hs1')]; [lia..| |].
  { destruct Hp. apply (reachable_setup b); [done|]. eapply reachable_sub; [exact Hre|lia..]. }
  apply safe_bind, safe_upd, safe_bind, safe_upd. rewrite !with_if_same, !with_if_twice.
  set (s1 := ide_transfer_start _ _ _).
  apply safe_bind. eapply safe_mono.
  { apply irq_frame; rewrite ?with_if_same; [destruct u; apply Hc|apply Hs..]. }
  intros ? c2 (_ & Hsd & Hsig). pose proof (same_the u _ _ Hsd) as E2. rewrite with_if_same in E2.
  destruct Hsd as (_ & _ & Ec). rewrite cur_with_if in Ec.
  destruct (k_disk any u _ Hs b' Eb) as (Hh & Hse & _).
  apply safe_bind. eapply safe_mono; [apply set_sector_next; rewrite E2; done|]. intros ? ? ->.
  apply safe_upd. rewrite with_if_twice, with_if_same, E2. intros Hc'.
  destruct (put_frame (sec + 1) s1) as (F1 & F2 & F3 & F4 & F5 & F6 & F7 & F8).
  destruct (get_put_lba28 s1 (sec + 1)) as (G1 & G2 & _ & G4); [apply (lba_byte u c Hc)|done..|unfold inU; lia|].
  assert (Hv : view b' sec 1 = view b sec 1) by (apply view_ext; [done|apply Hset]).
  split; [constructor|split]; rewrite ?with_if_same, ?cur_with_if; try done.
  - congruence.
  - cbn [req_nb_sectors set_nsector]. by rewrite F6.
  - cbn [nsector set_nsector]. rewrite F7. change (nsector s1) with (nsector s).
    rewrite Hn, wrap_id by (unfold inU; lia). lia.
  - eapply reachable_sub; [exact Hre|lia..].
  - exists b1. cbn [bs set_nsector]. rewrite F5. split_and!; [done|intros j; by rewrite Hm1|].
    by eapply same_setup_trans.
  - unfold fetched. rewrite with_if_same.
    cbn [data_ptr data_end end_transfer_func io_buffer status set_nsector]. rewrite F1, F2, F3, F4, F8.
    split_and!; [done..| |done]. subst s1.
    cbn [io_buffer ide_transfer_start fill_buffer set_io_buffer set_end_transfer_func set_data_ptr set_data_end set_status].
    change (Z.to_nat 1) with 1%nat. rewrite Hv.
    rewrite take_app_le by (by rewrite view_length). by rewrite take_ge by (by rewrite view_length).
  - unfold signals in *. rewrite with_if_same in Hsig. destruct u; exact Hsig.
Qed.

(** With no sector left the drive is idle. *)
Definition idle u c : Prop :=
  end_transfer_func (the_if u c) = ide_transfer_stop_ /\ data_end (the_if u c) = 0 /\
  status (the_if u c) = READY_STAT |! SEEK_STAT.

Lemma sector_read_end u b sec c :
  at_lba u b sec 0 c ->
  total (ide_sector_read u) c (fun _ c' => at_lba u b sec 0 c' /\ idle u c').
Proof.
  intros [Hcur Hc Hlba H48 Hreq Hn Hsec Hre Hdisk]. unfold ide_sector_read.
  apply safe_bind, safe_upd, safe_bind, safe_upd, safe_bind, safe_get.
  rewrite !with_if_same, with_if_twice. cbn [nsector set_error set_status]. rewrite Hn.
  change (sgn 32 0 =? 0) with true. cbv iota. apply safe_upd. rewrite with_if_same, with_if_twice.
  pose proof (chan_if _ c u Hc) as Hs.
  split; [constructor|]; rewrite ?with_if_same, ?cur_with_if; try done.
  - apply chan_with; [done| |done]. apply ok_stop, ok_error, ok_status, Hs.
  - unfold idle. by rewrite with_if_same.
Qed.

Lemma perform_all_app l1 l2 c :
  perform_all (l1 ++ l2) c = (vs1 ← perform_all l1; vs2 ← perform_all l2; mret (vs1 ++ vs2)) c.
Proof.
  revert c. induction l1 as [|a l1 IH]; intros c; simpl.
  - rewrite bind_at. change (perform_all [] c) with (@Ret (list Z * ide) ([], c)). simpl. rewrite bind_at.
    by destruct (perform_all l2 c) as [[vs c']|].
  - rewrite !bind_at. destruct (perform a c) as [[v c1]|]; [|done]. rewrite !bind_at, IH, !bind_at.
    destruct (perform_all l1 c1) as [[vs1 c2]|]; [|done]. simpl. rewrite !bind_at.
    by destruct (perform_all l2 c2) as [[vs2 c3]|].
Qed.

Lemma safe_app l1 l2 c (Q : list Z -> ide -> Prop) :
  total (perform_all l1) c (fun vs1 c1 => total (perform_all l2) c1 (fun vs2 => Q (vs1 ++ vs2))) ->
  total (perform_all (l1 ++ l2)) c Q.
Proof.
  intros H. unfold runs at 1. rewrite perform_all_app. fold (@runs False ide (list Z)).
  apply (safe_bind (perform_all l1)). eapply safe_mono; [exact H|].
  intros vs1 c1 H1. apply safe_bind. eapply safe_mono; [exact H1|]. done.
Qed.

(** One buffer full: the words, then the end of the transfer. *)
Lemma read_block u data c (Q : ide -> Prop) :
  chan_ok any c -> cur_drive c = u -> fetched u data c -> total (ide_sector_read u) c (fun _ => Q) ->
  total (perform_all (replicate 256 Inw)) c (fun vs c' => vs = words data /\ Q c').
Proof.
  intros Hc Hcur (Hp & He & Hf & Hd & _) Hq. pose proof (k_buf any u _ (chan_if _ c u Hc)) as Hl.
  unfold runs. rewrite (read_rest 255) by (rewrite Hcur, ?Hp, ?He, ?Hl; lia). rewrite Hcur, Hp.
  unfold call_end_transfer. rewrite get_bind, Hf. unfold runs in Hq.
  destruct (ide_sector_read u c) as [[[] c']|]; [|done]. simpl. by rewrite <- Hd.
Qed.

Lemma read_sectors_ok n : forall u b sec c,
  at_lba u b (sec + 1) (Z.of_nat n) c -> fetched u (view b sec 1) c -> (n < 256)%nat -> 0 <= sec ->
  sec + Z.of_nat (S n) < 2 ^ 28 ->
  total (perform_all (replicate (256 * S n) Inw)) c (fun vs c' =>
    vs = words (view b sec (S n)) /\ at_lba u b (sec + Z.of_nat (S n)) 0 c' /\ idle u c').
Proof.
  induction n as [|n IH]; intros u b sec c Ha Hf Hn Hs Hs2.
  - eapply read_block; [apply Ha..|done|]. by apply sector_read_end.
  - replace (256 * S (S n))%nat with (256 + 256 * S n)%nat by lia. rewrite replicate_add.
    apply safe_app. eapply safe_mono.
    { eapply read_block; [apply Ha..|done|]. apply (sector_read_fun u b (sec + 1) (Z.of_nat n)); [|lia..].
      replace (Z.of_nat n + 1) with (Z.of_nat (S n)) by lia. done. }
    intros vs c1 (-> & Ha1 & Hf1 & _). eapply safe_mono; [apply IH; [exact Ha1|exact Hf1|lia..]|].
    intros vs2 c2 (-> & Ha2 & Hi). split_and!; [|by replace (sec + Z.of_nat (S (S n))) with (sec + 1 + Z.of_nat (S n)) by lia|done].
    rewrite (view_S b sec (S n)). rewrite (words_app 256) by apply sector_length.
    rewrite (view_S b sec 0). f_equal. by rewrite app_nil_r.
Qed.

(** *** Commands *)

(** The accesses of a driver before a command: drive, count and 28-bit
    sector number. *)
Definition address u (sec n : Z) : list access :=
  [Outb 0x1f6 (0xe0 |! (if u then 0x10 else 0) |! (sec >> 24)); Outb 0x1f2 n; Outb 0x1f3 sec;
   Outb 0x1f4 (sec >> 8); Outb 0x1f5 (sec >> 16)].

Definition clear_hob_bit s : IDEState := set_select (select s &~ (1 << 7)) s.

Definition addressed (sel sec n : Z) s : IDEState :=
  let s := set_select sel s in
  let s := clear_hob_bit s in
  let s := set_nsector (wrap 8 n) (set_hob_nsector (wrap 8 (nsector s)) s) in
  let s := clear_hob_bit s in
  let s := set_sector (wrap 8 (wrap 8 sec)) (set_hob_sector (sector_ s) s) in
  let s := clear_hob_bit s in
  let s := set_lcyl (wrap 8 (wrap 8 (sec >> 8))) (set_hob_lcyl (lcyl s) s) in
  let s := clear_hob_bit s in
  set_hcyl (wrap 8 (wrap 8 (sec >> 16))) (set_hob_hcyl (hcyl s) s).

Lemma both_run f c : both f c = Ret (tt, mk_ide (mach c) (f (if0 c)) (f (if1 c)) (cur_drive c)).
Proof. done. Qed.

Lemma both_bind {A} f (g : unit -> st ide A) c :
  (both f ≫= g) c = g tt (mk_ide (mach c) (f (if0 c)) (f (if1 c)) (cur_drive c)).
Proof. done. Qed.

Lemma outb_select v c :
  perform (Outb 0x1f6 v) c = Ret (0, mk_ide (mach c)
    (set_select (wrap 8 ((wrap 8 v &~ 0x10) |! 0xa0)) (if0 c))
    (set_select (wrap 8 ((wrap 8 v |! 0x10) |! 0xa0)) (if1 c)) (nz ((wrap 8 v >> 4) &! 1))).
Proof.
  unfold perform, ide_ioport_write. change (0x1f6 &! 7) with 6.
  cbv beta iota zeta delta [Z.eqb Pos.eqb]. by rewrite bind_at.
Qed.

(** A register of both drives. *)
Lemma outb_regs port f g v c :
  (forall w, ide_ioport_write port w = (ide_clear_hob;; both f;; both (g w))) ->
  perform (Outb port v) c = Ret (0, mk_ide (mach c)
    (g (wrap 8 v) (f (clear_hob_bit (if0 c)))) (g (wrap 8 v) (f (clear_hob_bit (if1 c)))) (cur_drive c)).
Proof.
  intros Hw. unfold perform. rewrite Hw. unfold ide_clear_hob.
  by rewrite bind_at, both_bind, both_bind, both_run.
Qed.

Lemma address_run u sec n c :
  let v := wrap 8 (0xe0 |! (if u then 0x10 else 0) |! (sec >> 24)) in
  perform_all (address u sec n) c =
  Ret (replicate 5 0, mk_ide (mach c) (addressed (wrap 8 ((v &~ 0x10) |! 0xa0)) sec n (if0 c))
    (addressed (wrap 8 ((v |! 0x10) |! 0xa0)) sec n (if1 c)) (nz ((v >> 4) &! 1))).
Proof.
  intros v. unfold address. cbn [perform_all]. rewrite bind_at, outb_select. fold v.
  rewrite !bind_at, (outb_regs 0x1f2 (fun s => set_hob_nsector (wrap 8 (nsector s)) s) set_nsector)
    by reflexivity.
  rewrite !bind_at, (outb_regs 0x1f3 (fun s => set_hob_sector (sector_ s) s) (fun w => set_sector (wrap 8 w)))
    by reflexivity.
  rewrite !bind_at, (outb_regs 0x1f4 (fun s => set_hob_lcyl (lcyl s) s) (fun w => set_lcyl (wrap 8 w)))
    by reflexivity.
  rewrite !bind_at, (outb_regs 0x1f5 (fun s => set_hob_hcyl (hcyl s) s) (fun w => set_hcyl (wrap 8 w)))
    by reflexivity.
  reflexivity.
Qed.

Lemma select_lba u h :
  0 <= h < 16 ->
  let v := wrap 8 (0xe0 |! (if u then 0x10 else 0) |! h) in
  let sel := if u then wrap 8 ((v |! 0x10) |! 0xa0) else wrap 8 ((v &~ 0x10) |! 0xa0) in
  let sel := (((sel &~ (1 << 7)) &~ (1 << 7)) &~ (1 << 7)) &~ (1 << 7) in
  nz ((v >> 4) &! 1) = u /\ nz (sel &! 0x40) = true /\ sel &! 0x0f = h.
Proof.
  intros Hh. assert (In h (map Z.of_nat (seq 0 16))) as Hin.
  { apply in_map_iff. exists (Z.to_nat h). split; [lia|]. apply in_seq. lia. }
  clear Hh. revert h Hin.
  assert (Hall : forallb (fun h =>
    let v := wrap 8 (0xe0 |! (if u then 0x10 else 0) |! h) in
    let sel := if u then wrap 8 ((v |! 0x10) |! 0xa0) else wrap 8 ((v &~ 0x10) |! 0xa0) in
    let sel := (((sel &~ (1 << 7)) &~ (1 << 7)) &~ (1 << 7)) &~ (1 << 7) in
    eqb (nz ((v >> 4) &! 1)) u && nz (sel &! 0x40) && (sel &! 0x0f =? h)) (map Z.of_nat (seq 0 16)) = true)
    by (destruct u; vm_compute; reflexivity).
  intros h Hin. rewrite forallb_forall in Hall. specialize (Hall h Hin).
  apply andb_true_iff in Hall as [Hall H3]. apply andb_true_iff in Hall as [H1 H2].
  apply eqb_prop in H1. apply Z.eqb_eq in H3. done.
Qed.

Lemma get_lba28 s :
  is_lba s = true -> lba48 s = false ->
  ide_get_sector s = ((select s &! 0x0f) << 24) |! (hcyl s << 16) |! (lcyl s << 8) |! sector_ s.
Proof. unfold is_lba, ide_get_sector. by intros -> ->. Qed.

Lemma addressed_regs sel sec n s :
  let s' := set_lba48 false (addressed sel sec n s) in
  select s' = (((sel &~ (1 << 7)) &~ (1 << 7)) &~ (1 << 7)) &~ (1 << 7) /\
  hcyl s' = wrap 8 (wrap 8 (sec >> 16)) /\ lcyl s' = wrap 8 (wrap 8 (sec >> 8)) /\
  sector_ s' = wrap 8 (wrap 8 sec).
Proof. done. Qed.

Lemma high_nibble sec : inU 28 sec -> wrap 8 (sec >> 24) &! 0x0f = sec >> 24.
Proof.
  intros Hsec. assert (0 <= sec >> 24 < 16).
  { unfold inU in Hsec. rewrite Z.shiftr_div_pow2 by lia.
    split; [apply Z.div_pos|apply Z.div_lt_upper_bound]; lia. }
  rewrite wrap_id by (unfold inU; lia). change 0x0f with (Z.ones 4).
  by rewrite Z.land_ones, Z.mod_small by lia.
Qed.

Lemma addressed_sector sel sec n s :
  let sel' := (((sel &~ (1 << 7)) &~ (1 << 7)) &~ (1 << 7)) &~ (1 << 7) in
  nz (sel' &! 0x40) = true -> sel' &! 0x0f = sec >> 24 -> inU 28 sec ->
  bs (addressed sel sec n s) = bs s /\ is_lba (addressed sel sec n s) = true /\
  nsector (addressed sel sec n s) = wrap 8 n /\
  ide_get_sector (set_lba48 false (addressed sel sec n s)) = sec.
Proof.
  intros sel' H1 H2 Hsec. split; [done|]. split; [exact H1|]. split; [done|].
  rewrite get_lba28; [|exact H1|done].
  destruct (addressed_regs sel sec n s) as (-> & -> & -> & ->). fold sel'. rewrite H2.
  rewrite !(wrap_id 8 (wrap 8 _)) by (apply wrap_inU; lia).
  rewrite <- (high_nibble sec Hsec). by apply lba28_id.
Qed.

Lemma address_ok u b sec n c :
  chan_ok any c -> bs (the_if u c) = Some b -> inU 28 sec ->
  total (perform_all (address u sec n)) c (fun vs c' =>
    vs = replicate 5 0 /\ chan_ok any c' /\ cur_drive c' = u /\ bs (the_if u c') = Some b /\
    is_lba (the_if u c') = true /\ nsector (the_if u c') = wrap 8 n /\
    ide_get_sector (set_lba48 false (the_if u c')) = sec).
Proof.
  intros Hc Hb Hsec.
  pose proof (perform_all_ok any any_stays I (address u sec n) c Hc) as Hch. revert Hch. unfold runs.
  rewrite address_run. intros Hch. split; [done|]. split; [done|]. clear Hch.
  assert (Hh : 0 <= sec >> 24 < 16).
  { unfold inU in Hsec. rewrite Z.shiftr_div_pow2 by lia.
    split; [apply Z.div_pos|apply Z.div_lt_upper_bound]; lia. }
  destruct (select_lba u (sec >> 24) Hh) as (E1 & E2 & E3).
  set (v := wrap 8 _) in *. clearbody v. split; [exact E1|].
  destruct u; cbn [the_if if0 if1] in *; rewrite <- Hb; by apply addressed_sector.
Qed.

(** The drive, count and sector number have been given. *)
Definition addressed_at u b sec n c : Prop :=
  chan_ok any c /\ cur_drive c = u /\ bs (the_if u c) = Some b /\ is_lba (the_if u c) = true /\
  nsector (the_if u c) = wrap 8 n /\ ide_get_sector (set_lba48 false (the_if u c)) = sec.

(** A command of the 28-bit set, up to the transfer. *)
Lemma transform28 n s :
  1 <= n <= 256 -> nsector s = wrap 8 n ->
  let s' := ide_cmd_lba48_transform false s in
  bs s' = bs s /\ is_lba s' = is_lba s /\ lba48 s' = false /\ nsector s' = n /\
  ide_get_sector s' = ide_get_sector (set_lba48 false s) /\ cmd s' = cmd s.
Proof.
  intros Hn E. unfold ide_cmd_lba48_transform. cbn [lba48 set_lba48 negb nsector]. rewrite E.
  destruct (Z.eqb_spec (wrap 8 n) 0) as [E0|E0]; (split_and!; try done); cbn [nsector set_nsector set_lba48].
  - unfold wrap in E0. change (2 ^ 8) with 256 in E0.
    apply Z.mod_divide in E0 as [q Hq]; lia.
  - rewrite E. destruct (Z.eq_dec n 256) as [-> |]; [done|]. apply wrap_id. unfold inU. lia.
Qed.

Lemma command28 u b sec n c :
  addressed_at u b sec n c -> 1 <= n <= 256 -> reachable b sec n ->
  total (upd u (ide_cmd_lba48_transform false);; upd u (set_req_nb_sectors 1)) c (fun _ c' =>
    at_lba u b sec n c' /\ cmd (the_if u c') = cmd (the_if u c)).
Proof.
  intros (Hc & Hcur & Hb & Hl & Hn & Hs) Hr Hre.
  assert (Hch : runs True (upd u (ide_cmd_lba48_transform false);; upd u (set_req_nb_sectors 1)) c
    (fun _ => chan_ok any)).
  { apply safe_bind. eapply safe_mono; [apply (transform_ok any); split; [done|by rewrite Hb]|].
    intros ? c1 Hp. eapply safe_mono; [apply (req_ok any u _ (fun _ => 1) c1 Hp); lia|].
    intros ? c2 (k & _ & Hk). apply Hk. }
  revert Hch. unfold runs. run. intros Hch.
  destruct (transform28 n (the_if u c) Hr Hn) as (E1 & E2 & E3 & E4 & E5 & E6).
  split; [constructor|]; rewrite ?with_if_same, ?cur_with_if; try done.
  - by rewrite <- Hl.
  - rewrite <- Hs. exact E5.
  - exists b. cbn [bs set_req_nb_sectors]. by rewrite E1.
Qed.

Lemma outb_command u b v c :
  cur_drive c = u -> bs (the_if u c) = Some b ->
  perform (Outb 0x1f7 v) c = (ide_command u (wrap 8 v);; mret 0) c.
Proof.
  intros Hcur Hb. unfold perform. rewrite !bind_at. f_equal.
  unfold ide_ioport_write. change (0x1f7 &! 7) with 7. cbv beta iota zeta delta [Z.eqb Pos.eqb].
  rewrite bind_at. unfold get. rewrite Hcur. by rewrite Hb, andb_false_r.
Qed.

(** *** The read command *)

Definition read_sectors u sec n : list access :=
  address u sec n ++ [Outb 0x1f7 WIN_READ] ++ replicate (256 * Z.to_nat n) Inw.

Lemma command28_then {A} u b sec n (g : st ide A) c Q :
  addressed_at u b sec n c -> 1 <= n <= 256 -> reachable b sec n ->
  (forall c', at_lba u b sec n c' -> cmd (the_if u c') = cmd (the_if u c) -> total g c' Q) ->
  total (upd u (ide_cmd_lba48_transform false);; upd u (set_req_nb_sectors 1);; g) c Q.
Proof.
  intros Ha Hn Hre Hg. pose proof (command28 u b sec n c Ha Hn Hre) as Hc. revert Hc.
  unfold runs. run. intros [H1 H2]. apply (Hg _ H1). by rewrite with_if_same.
Qed.

Lemma outb_safe u b v c (Q : ide -> Prop) :
  cur_drive c = u -> bs (the_if u c) = Some b -> total (ide_command u (wrap 8 v)) c (fun _ => Q) ->
  total (perform_all [Outb 0x1f7 v]) c (fun vs c' => vs = [0] /\ Q c').
Proof.
  intros Hcur Hb Hq. cbn [perform_all]. apply safe_bind. unfold runs at 1.
  rewrite (outb_command u b) by done. rewrite bind_at. unfold runs in Hq.
  by destruct (ide_command u (wrap 8 v) c) as [[[] c']|].
Qed.

Lemma cmd_read_fun u b sec n c :
  addressed_at u b sec n c -> 1 <= n <= 256 -> 0 <= sec -> sec + n < 2 ^ 28 -> reachable b sec n ->
  total (perform_all [Outb 0x1f7 WIN_READ]) c (fun vs c' => vs = [0] /\
    at_lba u b (sec + 1) (n - 1) c' /\ fetched u (view b sec 1) c' /\ signals u c c').
Proof.
  intros Ha Hn Hs Hs2 Hre. pose proof Ha as (Hc & Hcur & Hb & _). eapply outb_safe; [done..|].
  change (ide_command u (wrap 8 WIN_READ)) with (cmd_read u false). apply safe_bind, safe_get.
  rewrite Hb. eapply command28_then; [done..|]. intros c' Hc' Ecmd.
  eapply safe_mono; [apply (sector_read_fun u b sec (n - 1)); [by replace (n - 1 + 1) with n by lia|lia..]|].
  unfold signals. rewrite Ecmd. done.
Qed.

Lemma read_ok u b sec n c :
  chan_ok any c -> bs (the_if u c) = Some b -> 1 <= n <= 256 -> 0 <= sec -> sec + n < 2 ^ 28 ->
  reachable b sec n ->
  total (perform_all (read_sectors u sec n)) c (fun vs c' =>
    vs = replicate 6 0 ++ words (view b sec (Z.to_nat n)) /\ at_lba u b (sec + n) 0 c' /\ idle u c').
Proof.
  intros Hc Hb Hn Hs Hs2 Hre. apply safe_app.
  eapply safe_mono; [apply (address_ok u b); [done..|unfold inU; lia]|].
  intros ? c1 (-> & Ha). apply safe_app. eapply safe_mono; [by eapply cmd_read_fun|].
  intros ? c2 (-> & Ha2 & Hf & _). replace (Z.to_nat n) with (S (Z.to_nat (n - 1))) by lia.
  eapply safe_mono; [apply (read_sectors_ok _ u b sec); [|done|lia..]|].
  { by replace (Z.of_nat (Z.to_nat (n - 1))) with (n - 1) by lia. }
  intros ? c3 (-> & Ha3 & Hi). split; [done|]. split; [|done].
  by replace (sec + n) with (sec + Z.of_nat (S (Z.to_nat (n - 1)))) by lia.
Qed.

(** *** Writing *)

(** [ws] at offset [p] of the buffer. *)
Definition patch (p : Z) (data buf : list Z) : list Z :=
  take (Z.to_nat p) buf ++ data ++ drop (Z.to_nat p + length data) buf.

Lemma patch_length p data buf :
  0 <= p -> p + lenZ data <= lenZ buf -> length (patch p data buf) = length buf.
Proof. unfold patch, lenZ. intros. rewrite !length_app, length_take, length_drop. lia. Qed.

Lemma patch_patch p x y buf :
  0 <= p -> p + lenZ x + lenZ y <= lenZ buf ->
  patch (p + lenZ x) y (patch p x buf) = patch p (x ++ y) buf.
Proof.
  unfold patch, lenZ. intros Hp Hl. rewrite <- (assoc_L (++)).
  rewrite take_app_ge by (rewrite length_take; lia). rewrite length_take, <- (assoc_L (++)). f_equal.
  replace (Z.to_nat (p + Z.of_nat (length x)) - Z.to_nat p `min` length buf)%nat with (length x) by lia.
  rewrite take_app_length. f_equal. f_equal.
  rewrite !drop_app_ge by (rewrite ?length_take; lia). rewrite length_take, drop_drop, length_app.
  f_equal. lia.
Qed.

Lemma outw_mid w c :
  let s := the_if (cur_drive c) c in
  0 <= data_ptr s -> data_ptr s + 2 < data_end s -> data_end s <= lenZ (io_buffer s) ->
  perform (Outw w) c = Ret (0, with_if (cur_drive c)
    (set_data_ptr (data_ptr s + 2) (set_io_buffer (patch (data_ptr s) (le_bytes 2 w) (io_buffer s)) s)) c).
Proof.
  intros s H0 Hp He. unfold perform, ide_data_writew, ide_data_write, get. rewrite bind_at, bind_at.
  fold s. rewrite (proj2 (Z.ltb_ge _ _)) by lia. run. fold s.
  by rewrite (proj2 (Z.leb_gt _ _)) by lia.
Qed.

Lemma outw_last w c :
  let s := the_if (cur_drive c) c in
  0 <= data_ptr s -> data_ptr s + 2 = data_end s -> data_end s <= lenZ (io_buffer s) ->
  perform (Outw w) c = ending (call_end_transfer (cur_drive c) (with_if (cur_drive c)
    (set_io_buffer (patch (data_ptr s) (le_bytes 2 w) (io_buffer s)) s) c)) (fun '(_, c') => (0, c')).
Proof.
  intros s H0 Hp He. unfold perform, ide_data_writew, ide_data_write, get. rewrite bind_at, bind_at.
  fold s. rewrite (proj2 (Z.ltb_ge _ _)) by lia. run. fold s.
  rewrite (proj2 (Z.leb_le _ _)) by lia.
  set (c1 := with_if (cur_drive c) (set_io_buffer _ s) c).
  rewrite <- (end_transfer_ptr (cur_drive c) (data_ptr s + Z.of_nat 2) c1).
  unfold c1. rewrite with_if_same, with_if_twice. unfold patch. simpl.
  by destruct (call_end_transfer _ _) as [[[] c']|].
Qed.

Lemma write_rest j : forall ws c,
  let s := the_if (cur_drive c) c in
  length ws = S j -> 0 <= data_ptr s -> data_ptr s + 2 * Z.of_nat (S j) = data_end s ->
  data_end s <= lenZ (io_buffer s) ->
  perform_all (map Outw ws) c = ending (call_end_transfer (cur_drive c) (with_if (cur_drive c)
    (set_io_buffer (patch (data_ptr s) (unwords ws) (io_buffer s)) s) c)) (fun '(_, c') => (replicate (S j) 0, c')).
Proof.
  induction j as [|j IH]; intros ws c s Hws H0 Hp He; (destruct ws as [|w ws]; [done|]).
  - destruct ws; [|done]. cbn [map perform_all]. rewrite bind_at, outw_last by (fold s; lia). fold s.
    change (unwords [w]) with (le_bytes 2 w).
    by destruct (call_end_transfer _ _) as [[[] c']|].
  - cbn [map perform_all]. rewrite bind_at, outw_mid by (fold s; lia). fold s. rewrite bind_at.
    set (c' := with_if _ _ _).
    assert (Es : the_if (cur_drive c') c' = set_data_ptr (data_ptr s + 2)
      (set_io_buffer (patch (data_ptr s) (le_bytes 2 w) (io_buffer s)) s))
      by (subst c'; rewrite cur_with_if; apply with_if_same).
    injection Hws as Hws.
    rewrite (IH ws) by (first [exact Hws|rewrite Es; cbn [data_ptr data_end io_buffer set_data_ptr set_io_buffer];
      unfold lenZ; rewrite ?patch_length by (unfold lenZ in *; simpl; lia); unfold lenZ in *; lia]).
    rewrite Es. cbn [data_ptr data_end io_buffer set_data_ptr set_io_buffer].
    replace (patch (data_ptr s + 2) (unwords ws) (patch (data_ptr s) (le_bytes 2 w) (io_buffer s)))
      with (patch (data_ptr s) (unwords (w :: ws)) (io_buffer s))
      by (symmetry; apply (patch_patch _ (le_bytes 2 w));
          [done|unfold lenZ in *; rewrite unwords_length; simpl; lia]).
    set (B := patch (data_ptr s) (unwords (w :: ws)) (io_buffer s)).
    rewrite <- (end_transfer_ptr (cur_drive c) (data_ptr s + 2) (with_if (cur_drive c) (set_io_buffer B s) c)).
    subst c'. rewrite !cur_with_if, !with_if_same, !with_if_twice.
    change (set_io_buffer B (set_data_ptr (data_ptr s + 2) (set_io_buffer _ s)))
      with (set_data_ptr (data_ptr s + 2) (set_io_buffer B s)).
    by destruct (call_end_transfer _ _) as [[[] c'']|].
Qed.

(** Drive [u] takes the next sector from the guest. *)
Definition accepting u c : Prop :=
  data_ptr (the_if u c) = 0 /\ data_end (the_if u c) = 512 /\
  end_transfer_func (the_if u c) = ide_sector_write_ /\ status (the_if u c) = DATA_STAT.

(** What follows a sector: the next one, or nothing. *)
Definition after_write u (k : Z) c : Prop := if k =? 0 then idle u c else accepting u c.

(** The end of [ide_sector_write]: the next transfer, then the registers. *)
Definition next_write (k : Z) s : IDEState :=
  if k =? 0 then ide_transfer_stop s else ide_transfer_start (512 * 1) ide_sector_write_ s.

Lemma next_write_frame k s :
  let s' := next_write k s in
  select s' = select s /\ lba48 s' = lba48 s /\ req_nb_sectors s' = req_nb_sectors s /\
  nsector s' = nsector s /\ bs s' = bs s /\ heads s' = heads s /\ sectors s' = sectors s /\
  ide_irq s' = ide_irq s /\ bmdma s' = bmdma s /\ cmd s' = cmd s.
Proof. unfold next_write. by destruct (k =? 0). Qed.

Lemma next_write_step u k s c :
  0 <= k < 256 ->
  (if k =? 0 then upd u ide_transfer_stop
   else upd u (ide_transfer_start (512 * (if 1 <? sgn 32 k then 1 else sgn 32 k)) ide_sector_write_))
    (with_if u s c) = Ret (tt, with_if u (next_write k s) c).
Proof.
  intros Hk. rewrite sgn_small by (unfold inU; lia). unfold next_write.
  destruct (Z.eqb_spec k 0) as [E|E]; [by run|].
  replace (if 1 <? k then 1 else k) with 1 by (destruct (Z.ltb_spec 1 k); lia). by run.
Qed.

Lemma next_write_after u k s c :
  status s = READY_STAT |! SEEK_STAT -> after_write u k (with_if u (next_write k s) c).
Proof.
  intros Hst. unfold after_write, next_write, idle, accepting. rewrite with_if_same.
  destruct (k =? 0); (split_and!; [done..|]); cbn -[Z.ldiff Z.lor]; by rewrite Hst.
Qed.

(** The registers have moved on to [sec]. *)
Lemma moved_on u b sec k s c :
  chan_ok any c -> cur_drive c = u -> the_if u c = put_sector_num sec s -> byte (select s) -> inU 28 sec ->
  is_lba s = true -> lba48 s = false -> req_nb_sectors s = 1 -> nsector s = k -> bs s = Some b ->
  reachable b sec k -> at_lba u b sec k c.
Proof.
  intros Hc Hcur E Hb Hsec Hl H48 Hr Hn Hbs Hre.
  destruct (get_put_lba28 s sec) as (G1 & G2 & _ & G4); [done..|].
  destruct (put_frame sec s) as (_ & _ & _ & _ & F5 & F6 & F7 & _).
  constructor; rewrite ?E, ?F5, ?F6, ?F7; try done. by exists b.
Qed.

Lemma after_put u k n s c c' :
  the_if u c = put_sector_num n s -> the_if u c' = s -> after_write u k c' -> after_write u k c.
Proof.
  intros E E' Ha. destruct (put_frame n s) as (F1 & F2 & F3 & _ & _ & _ & _ & F8).
  revert Ha. unfold after_write, idle, accepting. rewrite E, E', F1, F2, F3, F8. done.
Qed.

Lemma sector_write_fun u b sec k c :
  at_lba u b sec (k + 1) c -> 0 <= k < 256 -> 0 <= sec -> sec + 1 < 2 ^ 28 ->
  total (ide_sector_write u) c (fun _ c' => exists b1,
    at_lba u b1 (sec + 1) k c' /\ after_write u k c' /\ same_setup b b1 /\ signals u c c' /\
    forall j, medium b1 j = written b (medium b) sec 1 (io_buffer (the_if u c)) j).
Proof.
  intros [Hcur Hc Hlba H48 Hreq Hn Hsec Hre (b' & Eb & Hmed & Hset)] Hk Hs0 Hs1.
  assert (Hch : runs True (ide_sector_write u) c (fun _ => chan_ok any)).
  { eapply ready_chan, sector_write_ok; [apply any_stays|done|].
    split_and!; [done|by rewrite Eb|rewrite Hreq; lia..|done]. }
  match goal with |- runs _ _ _ ?Q =>
    enough (Hf : total (ide_sector_write u) c (fun a c' => chan_ok any c' -> Q a c')) end.
  { eapply safe_mono; [apply (safe_and _ _ _ _ Hch Hf)|]. naive_solver. }
  clear Hch. unfold ide_sector_write. pose proof (chan_if _ c u Hc) as Hs.
  apply safe_bind, safe_upd, safe_bind, safe_get. rewrite !with_if_same. set (s := the_if u c) in *.
  change (ide_get_sector (set_status _ s)) with (ide_get_sector s).
  cbn [nsector req_nb_sectors io_buffer set_status]. rewrite Hsec, Hreq, Hn, sgn_small by (unfold inU; lia).
  replace (if 1 <? k + 1 then 1 else k + 1) with 1 by (destruct (Z.ltb_spec 1 (k + 1)); lia).
  apply safe_bind. unfold runs at 1. rewrite bdrv_write_run, with_if_same.
  cbn [bs set_status]. rewrite Eb, wrap_id by (unfold inU; lia).
  pose proof (k_buf any u _ Hs) as Hlen. unfold lenZ in Hlen.
  destruct (displace_write_ok b' sec (io_buffer s) 1) as [[Hp _] |(b1 & -> & Hm1 & Hs1')];
    [lia..|apply Hs| |].
  { destruct Hp. apply (reachable_setup b); [done|]. eapply reachable_sub; [exact Hre|lia..]. }
  apply safe_bind, safe_upd, safe_bind, safe_get. rewrite !with_if_same, !with_if_twice.
  cbn [nsector req_nb_sectors set_status set_bs set_nsector].
  rewrite Hn, Hreq. replace (wrap 32 (k + 1 - 1)) with k by (rewrite wrap_id; unfold inU; lia).
  set (s1 := set_nsector k _). destruct (next_write_frame k s1) as (N1 & N2 & N3 & N4 & N5 & N6 & N7 & N8 & N9 & N10).
  apply safe_bind. unfold runs at 1. rewrite next_write_step by done. set (s2 := next_write k s1) in *.
  destruct (k_disk any u _ Hs b' Eb) as (Hh & Hse & _).
  apply safe_bind. eapply safe_mono; [apply set_sector_next; rewrite with_if_same, ?N6, ?N7; done|].
  intros ? ? ->. rewrite with_if_same, with_if_twice.
  destruct (put_chip (sec + 1) s2) as (P1 & P2 & P3). eapply safe_mono.
  { apply irq_frame; rewrite ?with_if_same, ?P1, ?P2, ?N8, ?N9; [destruct u; apply Hc|apply Hs..]. }
  intros ? c2 (_ & Hsd & Hsig) Hc2. pose proof (same_the u _ _ Hsd) as E2. rewrite with_if_same in E2.
  destruct Hsd as (_ & _ & Ec). rewrite cur_with_if in Ec. exists b1. split_and!.
  - apply (moved_on u b1 (sec + 1) k s2); try done.
    + congruence.
    + rewrite N1. apply (lba_byte u c Hc).
    + unfold inU. lia.
    + unfold is_lba. rewrite N1. exact Hlba.
    + rewrite N2. exact H48.
    + rewrite N3. exact Hreq.
    + apply (reachable_setup b); [by eapply same_setup_trans|].
      eapply reachable_sub; [exact Hre|lia..].
  - apply (after_put u k (sec + 1) s2 c2 (with_if u s2 c)); [done|apply with_if_same|].
    by apply next_write_after.
  - by eapply same_setup_trans.
  - unfold signals in *. rewrite with_if_same, P3, N10 in Hsig. exact Hsig.
  - intros j. rewrite Hm1. change (Z.to_nat 1) with 1%nat. rewrite (written_setup b b') by done.
    by apply written_ext.
Qed.

(** One sector of words: they are in the buffer when the transfer ends. *)
Lemma write_block u b sec k ws c :
  at_lba u b sec (k + 1) c -> accepting u c -> length ws = 256%nat ->
  0 <= k < 256 -> 0 <= sec -> sec + 1 < 2 ^ 28 ->
  total (perform_all (map Outw ws)) c (fun vs c' => vs = replicate 256 0 /\ exists b1,
    at_lba u b1 (sec + 1) k c' /\ after_write u k c' /\ same_setup b b1 /\ signals u c c' /\
    forall j, medium b1 j = written b (medium b) sec 1 (unwords ws) j).
Proof.
  intros Ha (Hp & He & Hf & _) Hw Hk Hs Hs1. pose proof Ha as [Hcur Hc Hlba H48 Hreq Hn Hsec Hre Hdisk].
  pose proof (chan_if _ c u Hc) as Hd. pose proof (k_buf any u _ Hd) as Hl.
  unfold runs. rewrite (write_rest 255) by (first [done|rewrite Hcur, ?Hp, ?He, ?Hl; lia]). rewrite Hcur, Hp.
  set (B := patch 0 _ _). set (c1 := with_if u _ c).
  assert (EB : B = unwords ws ++ drop 512 (io_buffer (the_if u c)))
    by (unfold B, patch; rewrite unwords_length, Hw; done).
  assert (H1 : at_lba u b sec (k + 1) c1).
  { constructor; subst c1; rewrite ?with_if_same, ?cur_with_if; try done.
    apply chan_with; [done| |done]. apply ok_buffer; [done|..]; rewrite EB.
    - unfold lenZ in *. rewrite length_app, unwords_length, length_drop. lia.
    - apply Forall_app. split; [apply unwords_bytes|apply Forall_drop, Hd]. }
  unfold call_end_transfer. rewrite get_bind.
  replace (end_transfer_func (the_if u c1)) with ide_sector_write_
    by (subst c1; rewrite with_if_same; by rewrite <- Hf).
  pose proof (sector_write_fun u b sec k c1 H1 Hk Hs Hs1) as Hq. unfold runs in Hq.
  destruct (ide_sector_write u c1) as [[[] c']|]; [|done]. simpl.
  destruct Hq as (b1 & A1 & A2 & A3 & Asig & A4). split; [done|]. exists b1. split_and!; [done..| |].
  { unfold signals in *. subst c1. by rewrite with_if_same in Asig. }
  intros j. rewrite A4. subst c1. rewrite with_if_same. cbn [io_buffer set_io_buffer]. rewrite EB.
  simpl. rewrite take_app_le by (rewrite unwords_length; lia). done.
Qed.

Lemma write_sectors_ok n : forall u b sec ws c,
  at_lba u b sec (Z.of_nat (S n)) c -> accepting u c -> length ws = (256 * S n)%nat ->
  (n < 256)%nat -> 0 <= sec -> sec + Z.of_nat (S n) < 2 ^ 28 ->
  total (perform_all (map Outw ws)) c (fun vs c' => vs = replicate (256 * S n) 0 /\ exists b1,
    at_lba u b1 (sec + Z.of_nat (S n)) 0 c' /\ idle u c' /\ same_setup b b1 /\
    forall j, medium b1 j = written b (medium b) sec (S n) (unwords ws) j).
Proof.
  induction n as [|n IH]; intros u b sec ws c Ha Hacc Hw Hn Hs Hs1.
  - eapply safe_mono; [by apply (write_block u b sec 0)|].
    intros ? c1 (-> & b1 & A1 & A2 & A3 & _ & A4). split; [done|]. by exists b1.
  - rewrite <- (take_drop 256 ws), map_app. apply safe_app. eapply safe_mono.
    { apply (write_block u b sec (Z.of_nat (S n))); [|done|rewrite length_take; lia|lia..].
      by replace (Z.of_nat (S n) + 1) with (Z.of_nat (S (S n))) by lia. }
    intros ? c1 (-> & b1 & A1 & A2 & A3 & _ & A4). eapply safe_mono.
    { apply (IH u b1 (sec + 1) (drop 256 ws)); [done|exact A2|rewrite length_drop; lia|lia..]. }
    intros ? c2 (-> & b2 & B1 & B2 & B3 & B4). split; [rewrite <- replicate_add; f_equal; lia|].
    exists b2. split_and!.
    + by replace (sec + Z.of_nat (S (S n))) with (sec + 1 + Z.of_nat (S n)) by lia.
    + done.
    + by eapply same_setup_trans.
    + intros j. rewrite B4, (written_setup b b1) by done.
      rewrite (written_ext b _ _ _ _ _ A4). rewrite take_drop.
      rewrite (written_first b (medium b) sec (S n)).
      destruct (unwords_split 256 ws) as [E1 E2]; [lia|]. change (2 * 256)%nat with 512%nat in *.
      by rewrite E1, E2.
Qed.

(** *** The write command *)

Definition write_sectors u sec n ws : list access :=
  address u sec n ++ [Outb 0x1f7 WIN_WRITE] ++ map Outw ws.

Lemma cmd_write_fun u b sec n c :
  addressed_at u b sec n c -> 1 <= n <= 256 -> reachable b sec n ->
  total (perform_all [Outb 0x1f7 WIN_WRITE]) c (fun vs c' => vs = [0] /\
    at_lba u b sec n c' /\ accepting u c').
Proof.
  intros Ha Hn Hre. pose proof Ha as (Hc & Hcur & Hb & Hl & Hns & Hs). eapply outb_safe; [done..|].
  assert (Hch : runs True (cmd_write u false) c (fun _ => chan_ok any))
    by (apply cmd_write_ok; split; [done|by rewrite Hb]).
  change (@ide_command D HD u (wrap 8 WIN_WRITE)) with (@cmd_write D u false).
  revert Hch. unfold runs, cmd_write. run. intros Hch.
  destruct (transform28 n (the_if u c) Hn Hns) as (E1 & E2 & E3 & E4 & E5 & E6).
  split; [constructor|]; rewrite ?with_if_same, ?cur_with_if; try done.
  - by rewrite <- Hl.
  - rewrite <- Hs. exact E5.
  - exists b. cbn [bs set_req_nb_sectors set_status set_error ide_transfer_start set_end_transfer_func
      set_data_ptr set_data_end]. by rewrite E1.
  - unfold accepting. by rewrite with_if_same.
Qed.

Lemma write_ok u b sec n ws c :
  chan_ok any c -> bs (the_if u c) = Some b -> 1 <= n <= 256 -> 0 <= sec -> sec + n < 2 ^ 28 ->
  reachable b sec n -> lenZ ws = 256 * n ->
  total (perform_all (write_sectors u sec n ws)) c (fun vs c' =>
    vs = replicate (6 + length ws) 0 /\ exists b', at_lba u b' (sec + n) 0 c' /\ idle u c' /\
    same_setup b b' /\ forall j, medium b' j = written b (medium b) sec (Z.to_nat n) (unwords ws) j).
Proof.
  intros Hc Hb Hn Hs Hs2 Hre Hw. apply safe_app.
  eapply safe_mono; [apply (address_ok u b); [done..|unfold inU; lia]|].
  intros ? c1 (-> & Ha). apply safe_app. eapply safe_mono; [by eapply cmd_write_fun|].
  intros ? c2 (-> & Ha2 & Hf). replace (Z.to_nat n) with (S (Z.to_nat (n - 1))) by lia.
  unfold lenZ in Hw.
  assert (En : n = Z.of_nat (S (Z.to_nat (n - 1)))) by lia. rewrite En in Ha2 at 1.
  eapply safe_mono; [apply (write_sectors_ok (Z.to_nat (n - 1)) u b sec ws); [exact Ha2|done|lia..]|].
  intros ? c3 (-> & b' & A1 & A2 & A3 & A4). split; [|exists b'; split_and!; try done].
  - replace (length ws) with (256 * S (Z.to_nat (n - 1)))%nat by lia. done.
  - by rewrite En at 1.
Qed.

End Transfer.
