(* ===== verification/IdeGuest.v ===== *)
(** * The guest's disk

    The properties of the IDE channel as the guest sees it, put together from
    the controller ([Ide]) and the displaced disk ([Bdrv]), and a disk in
    memory to run them on. *)

From Stdlib Require Import ZArith Lia Bool Ascii String.
From stdpp Require Import base list.
From S2P Require Import Prelude Pic Uart Printf Cstring Bdrv Ide IdeSafe IdeData.

Section Guest.
Context {D : Type} {HD : Drive D} {HL : DriveLaws D}.
Implicit Types (b hda : displace D) (c : @ide D) (s : @IDEState D).

(** A run that cannot panic returns. *)
Lemma runs_total {S A} (m : st S A) (x : S) (Q : A -> S -> Prop) :
  runs False m x Q -> exists a (y : S), m x = Ret (a, y) /\ Q a y.
Proof. unfold runs. destruct (m x) as [[a y]|]; [by exists a, y|by intros []]. Qed.

(** C5: Let a channel with at least its first disk be initialised, on a machine
    with well-formed interrupt controllers, in memory that held a null pointer
    to the bus master and a multiple count of at most 16 for both drives,
    which [ide_init] does not set and takes as the allocator returned them,
    and let the monitor's sectors of each disk end below 2^32 - 1.  Then, outside
    replay, whatever series of port accesses the guest makes on the channel,
    no access faults, divides by zero or leaves the buffer: the run
    completes, unless an assertion of the disk driver stops it.  Afterwards
    each disk is set up as before and sector 0 of the physical disk (when it
    is not the place of the guest's sector 0) and all the monitor's sectors
    hold what they held. *)
Theorem ide_guest_isolated hda ohdb c l :
  mach_ok (mach c) -> raw (if0 c) -> raw (if1 c) -> displaced hda ->
  (forall b, ohdb = Some b -> displaced b) ->
  match (ide_init (Some hda) ohdb;; perform_all l) c with
  | Stop e => e = Panic
  | Ret (_, c') =>
    forall u b', bs (the_if u c') = Some b' ->
    exists b, (if u then ohdb else Some hda) = Some b /\ same_setup b b' /\
      forall k, hides b k -> medium b' k = medium b k
  end.
Proof.
  intros Hm H0 H1 Ha Hb. pose proof (isolated_ok hda ohdb c l Hm H0 H1 Ha Hb) as Hi.
  unfold runs in Hi. destruct ((ide_init (Some hda) ohdb;; perform_all l) c) as [[vs c']|]; [|apply Hi].
  intros u b' E. destruct (k_disk _ _ _ (chan_if _ c' u Hi) b' E) as (_ & _ & b0 & E0 & Hs & _ & Hk).
  by exists b0.
Qed.

(** C6: A READ SECTORS command for [n] sectors from 28-bit address [sec],
    followed by [256 n] reads of the data port, gives the guest exactly the
    sectors [sec .. sec + n - 1] of its disk, and leaves the disk alone. *)
Theorem ide_read_returns_disk u b sec n c :
  chan_ok any c -> bs (the_if u c) = Some b -> 1 <= n <= 256 -> 0 <= sec -> sec + n < 2 ^ 28 ->
  reachable b sec n ->
  exists c' b', perform_all (read_sectors u sec n) c =
      Ret (replicate 6 0 ++ words (view b sec (Z.to_nat n)), c') /\
    bs (the_if u c') = Some b' /\ (forall k, medium b' k = medium b k) /\ idle u c'.
Proof.
  intros Hc Hb Hn Hs Hs2 Hre. 
  destruct (runs_total _ _ _ (read_ok u b sec n c Hc Hb Hn Hs Hs2 Hre)) as (vs & c' & Er & -> & Ha & Hi).
  destruct (l_disk _ _ _ _ _ Ha) as (b' & E & Hm & _). exists c', b'. auto.
Qed.

(** C7: What the guest writes it reads back: WRITE SECTORS with [256 n]
    words, then READ SECTORS of the same range, returns those words, for any
    range outside the monitor's sectors and the place of sector 0. *)
Theorem ide_write_read u b sec n ws c :
  chan_ok any c -> bs (the_if u c) = Some b -> 1 <= n <= 256 -> sec + n < 2 ^ 28 ->
  plain_range b sec n -> reachable b sec n -> lenZ ws = 256 * n -> Forall (inU 16) ws ->
  exists c', perform_all (write_sectors u sec n ws ++ read_sectors u sec n) c =
    Ret (replicate (6 + length ws) 0 ++ replicate 6 0 ++ ws, c').
Proof.
  intros Hc Hb Hn Hs2 Hp Hre Hl Hw.
  assert (Hr : runs False (perform_all (write_sectors u sec n ws ++ read_sectors u sec n)) c
    (fun vs _ => vs = replicate (6 + length ws) 0 ++ replicate 6 0 ++ ws)).
  { apply safe_app. eapply safe_mono; [apply (write_ok u b); try done; apply Hp|].
    intros ? c1 (-> & b1 & A1 & _ & A3 & A4). destruct (l_disk _ _ _ _ _ A1) as (b2 & E2 & Hm & Hset).
    eapply safe_mono; [apply (read_ok u b2 sec n); try done; [apply A1|apply Hp|]|].
    { apply (reachable_setup b); [by eapply same_setup_trans|done]. }
    intros ? c2 (-> & _). do 2 f_equal.
    rewrite (view_ext b1 b2) by (done || apply Hset). unfold lenZ in Hl.
    rewrite (view_written b b1 sec (Z.to_nat n) (unwords ws)), take_ge, words_unwords;
      rewrite ?unwords_length; try done; try lia.
    by replace (Z.of_nat (Z.to_nat n)) with n by lia. }
  destruct (runs_total _ _ _ Hr) as (vs & c' & -> & ->). exists c'. reflexivity.
Qed.

(** The sector registers hold what [ide_set_sector] puts there, in each
    of the three ways of addressing: [ide_get_sector] gives back any sector
    number below 2^28, 2^48, or what cylinders, heads and sectors reach. *)
Theorem ide_sector_roundtrip s n :
  byte (select s) -> heads s = 16 -> sectors s = 63 -> 0 <= n < capacity s ->
  ide_get_sector (put_sector_num n s) = n.
Proof.
  intros Hb Hh Hs Hn. unfold capacity in Hn. destruct (is_lba s) eqn:El; [destruct (lba48 s) eqn:E48|].
  - by apply get_put_lba48.
  - by apply get_put_lba28.
  - rewrite Hh, Hs in Hn. by apply get_put_chs.
Qed.

Lemma transform_frame l s :
  let s' := ide_cmd_lba48_transform l s in
  bmdma s' = bmdma s /\ end_transfer_func s' = end_transfer_func s /\ data_ptr s' = data_ptr s /\
  io_buffer s' = io_buffer s.
Proof.
  unfold ide_cmd_lba48_transform. destruct l; simpl; [destruct (_ && _)|destruct (_ =? 0)]; done.
Qed.

Lemma readdma_run u b c v :
  chan_ok any c -> cur_drive c = u -> bs (the_if u c) = Some b ->
  v = WIN_READDMA \/ v = WIN_READDMA_ONCE \/ v = WIN_READDMA_EXT ->
  exists c', perform (Outb 0x1f7 v) c = Ret (0, c') /\ mach c' = mach c /\
    nz (status (the_if u c') &! BUSY_STAT) = true /\ bs (the_if u c') = Some b /\
    end_transfer_func (the_if u c') = end_transfer_func (the_if u c) /\
    data_ptr (the_if u c') = data_ptr (the_if u c) /\ io_buffer (the_if u c') = io_buffer (the_if u c) /\
    cur_drive c' = u.
Proof.
  intros Hc Hcur Hb Hv. rewrite (outb_command u b) by done.
  assert (Hcmd : exists l, ide_command u (wrap 8 v) = cmd_readdma u l)
    by (destruct Hv as [-> |[-> | ->]]; [exists false|exists false|exists true]; reflexivity).
  destruct Hcmd as [l ->]. rewrite bind_at. unfold cmd_readdma, ide_sector_write_dma.
  rewrite get_bind, Hb. cbn [is_null]. rewrite !upd_bind, !with_if_twice, !with_if_same.
  destruct (transform_frame l (the_if u c)) as (E1 & E2 & E3 & E4).
  assert (E5 : bs (ide_cmd_lba48_transform l (the_if u c)) = Some b).
  { rewrite <- Hb. unfold ide_cmd_lba48_transform. destruct l; simpl; [destruct (_ && _)|destruct (_ =? 0)]; done. }
  unfold ide_dma_start. rewrite get_bind, with_if_same.
  cbn [bmdma set_io_buffer_size set_io_buffer_index set_status]. rewrite E1, (k_bmdma _ _ _ (chan_if _ c u Hc)).
  eexists. split; [reflexivity|]. rewrite with_if_same.
  split_and!; [by destruct u|reflexivity|exact E5|exact E2|exact E3|exact E4|by rewrite cur_with_if].
Qed.

(** The interrupt controller has a request of the channel. *)
Definition requested c : bool := Z.testbit (irr (pic1 (isa_pic (mach c)))) 6.

(** Reads of the registers, and those that give the status. *)
Definition poll (a : access) : bool := match a with Inb _ | Status => true | _ => false end.
Definition status_read (a : access) : bool :=
  match a with Inb p => p &! 7 =? 7 | Status => true | _ => false end.

Lemma lower_line m m' :
  set_irq_line m 14 false = Ret m' -> Z.testbit (irr (pic1 (isa_pic m'))) 6 = true ->
  Z.testbit (irr (pic1 (isa_pic m))) 6 = true.
Proof.
  unfold set_irq_line. cbn -[pic_set_irq1 Z.testbit]. intros [= <-]. cbn -[pic_set_irq1 Z.testbit].
  unfold pic_set_irq1. destruct (nz _); cbn [irr set_last_irr set_irr]; [|done].
  rewrite Z.ldiff_spec. by intros [H _]%andb_true_iff.
Qed.

Lemma poll_ok a u b c :
  poll a = true -> chan_ok any c -> cur_drive c = u -> bs (the_if u c) = Some b ->
  runs False (perform a) c (fun v c' => chan_ok any c' /\ same_drives c c' /\
    (requested c' = true -> requested c = true) /\ (status_read a = true -> v = status (the_if u c))).
Proof.
  intros Ha Hc Hu Hb.
  assert (Hn : no_drive c = false).
  { unfold no_drive, no_disks. rewrite Hu. destruct u; cbn [the_if] in *; rewrite Hb; cbn; [|done].
    by rewrite andb_false_r. }
  destruct a; try discriminate Ha; cbn [perform status_read].
  - unfold ide_ioport_read. apply safe_bind. unfold runs at 1, get. cbv zeta. rewrite Hn, Hu.
    do 7 (apply safe_if; [intros E%Z.eqb_eq; apply safe_ret; rewrite E; split_and!; done|intros _]).
    apply safe_bind. unfold runs at 1, set_line. rewrite (k_irq _ _ _ (chan_if _ c u Hc)).
    destruct (set_irq_line_ok (mach c) 14 false (c_mach _ _ Hc)) as (m & E & Hm); [lia|]. rewrite E.
    apply safe_ret. split_and!; try done; [by destruct Hc|]. by apply (lower_line (mach c)).
  - unfold ide_status_read. apply safe_bind. unfold runs at 1, get. rewrite Hn, Hu.
    apply safe_ret. split_and!; done.
Qed.

Lemma polls_ok l u b : forall c,
  Forall (fun a => poll a = true) l -> chan_ok any c -> cur_drive c = u -> bs (the_if u c) = Some b ->
  runs False (perform_all l) c (fun vs c' => same_drives c c' /\
    (requested c' = true -> requested c = true) /\
    Forall2 (fun a v => status_read a = true -> v = status (the_if u c)) l vs).
Proof.
  induction l as [|a l IH]; intros c Hl Hc Hu Hb; [apply safe_ret; split_and!; done|].
  apply Forall_cons in Hl as [Ha Hl]. apply safe_bind.
  eapply safe_mono; [by apply (poll_ok a u b)|]. intros v c1 (H1 & S1 & R1 & V1). apply safe_bind.
  pose proof (same_the u _ _ S1) as E.
  eapply safe_mono; [apply (IH c1); try done; [by rewrite (proj2 (proj2 S1))|by rewrite E]|].
  intros vs c2 (S2 & R2 & V2). apply safe_ret. rewrite E in V2. split_and!; auto.
  unfold same_drives in *. intuition congruence.
Qed.

(** C35: READ DMA, on a channel in a well-formed state (where the pointer to
    the bus master is null), never completes: however often the guest then
    reads the registers of the channel, every read of the status shows the
    drive BUSY, no interrupt is requested, no transfer is set up and the disk
    is as before. *)
Theorem ide_readdma_hangs u b c v polls :
  chan_ok any c -> cur_drive c = u -> bs (the_if u c) = Some b ->
  v = WIN_READDMA \/ v = WIN_READDMA_ONCE \/ v = WIN_READDMA_EXT ->
  Forall (fun a => poll a = true) polls ->
  exists vs c', perform_all (Outb 0x1f7 v :: polls) c = Ret (0 :: vs, c') /\
    Forall2 (fun a x => status_read a = true -> nz (x &! BUSY_STAT) = true) polls vs /\
    (requested c' = true -> requested c = true) /\ bs (the_if u c') = Some b /\
    end_transfer_func (the_if u c') = end_transfer_func (the_if u c) /\
    data_ptr (the_if u c') = data_ptr (the_if u c) /\ io_buffer (the_if u c') = io_buffer (the_if u c).
Proof.
  intros Hc Hcur Hb Hv Hl.
  destruct (readdma_run u b c v Hc Hcur Hb Hv) as (c1 & E & M1 & B1 & D1 & F1 & F2 & F3 & U1).
  pose proof (perform_ok any any_stays I (Outb 0x1f7 v) c Hc) as Hc1. unfold runs in Hc1. rewrite E in Hc1.
  destruct (runs_total _ _ _ (polls_ok polls u b c1 Hl Hc1 U1 D1)) as (vs & c2 & E2 & S2 & R2 & V2).
  exists vs, c2. rewrite (same_the u _ _ S2). split_and!; auto.
  - cbn [perform_all]. rewrite bind_at, E, bind_at, E2. done.
  - eapply Forall2_impl; [exact V2|]. intros a x Hx Hs. by rewrite Hx.
  - unfold requested in *. by rewrite <- M1.
Qed.

End Guest.

(** ** A disk in memory *)

(** The sectors written, latest first; the others are zero. *)
Definition ram := list (Z * list Z).

Definition is_sector (b : list Z) : bool :=
  (lenZ b =? 512) && forallb (fun x => (0 <=? x) && (x <? 256)) b.

Fixpoint ram_sector (d : ram) (n : Z) : list Z :=
  match d with
  | [] => replicate 512 0
  | (k, b) :: d => if (n =? k) && is_sector b then b else ram_sector d n
  end.

Definition ram_size : Z := 4096.
Definition ram_present (d : ram) (n : Z) : bool := (0 <=? n) && (n <? ram_size).

#[global] Instance ram_drive : Drive ram := {
  sector := ram_sector;
  present := ram_present;
  ata_disk_size _ := ram_size;
  ata_disk_read d n := if ram_present d n then Ret (ram_sector d n, d) else Stop Panic;
  ata_disk_write d n b := if ram_present d n then Ret ((n, b) :: d) else Stop Panic;
  usbmsd_read_capacity _ := Some (ram_size, 512);
  usbmsd_read d n _ := Ret (if ram_present d n then Some (ram_sector d n) else None, d);
  usbmsd_write d b n _ := if ram_present d n then Ret (true, (n, b) :: d) else Ret (false, d);
}.

Lemma is_sector_spec b : is_sector b = true <-> length b = 512%nat /\ byte_list b.
Proof.
  unfold is_sector, byte_list, lenZ. rewrite andb_true_iff, Z.eqb_eq, forallb_forall, Forall_forall.
  split; intros [H1 H2]; (split; [lia|]); intros x Hx.
  - specialize (H2 x (proj1 (list_elem_of_In _ _) Hx)). apply andb_true_iff in H2 as [?%Z.leb_le ?%Z.ltb_lt]. lia.
  - specialize (H2 x (proj2 (list_elem_of_In _ _) Hx)). apply andb_true_iff. rewrite Z.leb_le, Z.ltb_lt. lia.
Qed.

Lemma ram_sector_ok d n : length (ram_sector d n) = 512%nat /\ byte_list (ram_sector d n).
Proof.
  induction d as [|[k b] d IH]; cbn [ram_sector].
  - split; [done|]. by apply Forall_replicate.
  - destruct (n =? k); [|done]. destruct (is_sector b) eqn:E; [|done]. by apply is_sector_spec.
Qed.

#[global] Instance ram_laws : DriveLaws ram.
Proof.
  split; simpl.
  - intros d n. apply ram_sector_ok.
  - intros d n. apply ram_sector_ok.
  - intros d n. destruct (ram_present d n); [right; by exists d|by left].
  - intros d n b Hl Hb. destruct (ram_present d n); [right|by left].
    exists ((n, b) :: d). split_and!; try done. intros k. simpl.
    rewrite (proj2 (is_sector_spec b)) by done. by rewrite andb_true_r.
  - intros d n. destruct (ram_present d n); (do 2 eexists; split; [reflexivity|]); auto.
  - intros d n b Hl Hb. destruct (ram_present d n); (do 2 eexists; split; [reflexivity|]); [|split_and!; done].
    split_and!; try done. intros _ k. simpl.
    rewrite (proj2 (is_sector_spec b)) by done. by rewrite andb_true_r.
Qed.

(** A channel in memory of zeros, with the boot disk displaced to sector 100
    and the monitor in the 50 sectors after it. *)
Definition blank_drive : @IDEState ram :=
  mk_IDEState 0 0 0 0 0 false (replicate 512 0) 0 false 0 0 0 0 0 0 0 0 0 0 0 0 0 0 0 false None
    0 0 0 ide_dummy_transfer_stop_ 0 0 (replicate (Z.to_nat 8196) 0).
Definition demo_disk : displace ram := mk_displace (identify_disk DISK_ATA []) 100 50.
Definition blank_channel : @ide ram := mk_ide new_machine blank_drive blank_drive false.

Lemma blank_raw : raw blank_drive.
Proof.
  constructor.
  - vm_compute. reflexivity.
  - unfold blank_drive. cbn [io_buffer]. by apply Forall_replicate.
  - repeat (apply Forall_cons; split; [by apply byte_const|]). constructor.
  - vm_compute. split; discriminate.
  - reflexivity.
  - split; [done|]. by apply Forall_replicate.
Qed.

Lemma new_machine_ok : mach_ok new_machine.
Proof. split; [apply pic_init_wf|done]. Qed.

Lemma demo_displaced : displaced demo_disk.
Proof. unfold displaced. simpl. lia. Qed.

Lemma ide_guest_isolated_witness :
  match (ide_init (Some demo_disk) None;;
         perform_all (write_sectors false 110 2 [7] ++ [Outb 0x1f7 WIN_READDMA; Inl])) blank_channel with
  | Stop e => e = Panic
  | Ret (_, c') =>
    forall u b', bs (the_if u c') = Some b' ->
    exists b, (if u then None else Some demo_disk) = Some b /\ same_setup b b' /\
      forall k, hides b k -> medium b' k = medium b k
  end.
Proof.
  apply (ide_guest_isolated demo_disk None blank_channel).
  - apply new_machine_ok.
  - apply blank_raw.
  - apply blank_raw.
  - apply demo_displaced.
  - discriminate.
Defined.

(** The initialised channel. *)
Definition demo_channel : @ide ram :=
  match ide_init (Some demo_disk) None blank_channel with Ret (_, c) => c | Stop _ => blank_channel end.

Lemma demo_ok : chan_ok any demo_channel.
Proof.
  assert (Hi : runs True (ide_init (Some demo_disk) None) blank_channel (fun _ => chan_ok any)).
  { apply init_ok; try done; [apply new_machine_ok|apply blank_raw|apply blank_raw]. }
  unfold demo_channel, runs in *.
  destruct (ide_init (Some demo_disk) None blank_channel) as [[[] c]|] eqn:E; [done|].
  exfalso. vm_compute in E. discriminate.
Qed.

Definition demo_sized : displace ram := mk_displace (mk_disk DISK_ATA [] ram_size) 100 50.

Lemma demo_reachable sec n : 0 <= sec -> sec + n <= 4096 -> reachable demo_sized sec n.
Proof.
  intros Hs Hn k Hk. unfold phys, demo_sized. simpl. unfold ram_present, ram_size.
  apply andb_true_iff. rewrite Z.leb_le, Z.ltb_lt. destruct (k =? 0); simpl; lia.
Qed.

Lemma ide_read_returns_disk_witness :
  exists c' b', perform_all (read_sectors false 0 2) demo_channel =
      Ret (replicate 6 0 ++ words (view demo_sized 0 (Z.to_nat 2)), c') /\
    bs (the_if false c') = Some b' /\ (forall k, medium b' k = medium demo_sized k) /\ idle false c'.
Proof.
  apply (ide_read_returns_disk false demo_sized 0 2 demo_channel).
  - apply demo_ok.
  - vm_compute. reflexivity.
  - lia.
  - lia.
  - lia.
  - apply demo_reachable; lia.
Defined.

Definition demo_words : list Z := map (fun i => Z.of_nat i * 3) (seq 0 256).

Lemma demo_plain : plain_range demo_sized 1000 1.
Proof.
  split; [lia|]. split; [lia|]. intros j Hj. split; [simpl; lia|].
  apply andb_false_iff. right. apply Z.leb_gt.
  change (wrap 32 (offset demo_sized + length_ demo_sized)) with 150. lia.
Qed.

Lemma demo_words_range : Forall (inU 16) demo_words.
Proof.
  apply Forall_forall. intros w Hw. unfold demo_words in Hw.
  apply list_elem_of_In, in_map_iff in Hw as (i & <- & Hi%in_seq). unfold inU. lia.
Qed.

Lemma ide_write_read_witness :
  exists c', perform_all (write_sectors false 1000 1 demo_words ++ read_sectors false 1000 1) demo_channel =
    Ret (replicate (6 + length demo_words) 0 ++ replicate 6 0 ++ demo_words, c').
Proof.
  apply (ide_write_read false demo_sized 1000 1 demo_words demo_channel).
  - apply demo_ok.
  - vm_compute. reflexivity.
  - lia.
  - lia.
  - apply demo_plain.
  - apply demo_reachable; lia.
  - reflexivity.
  - apply demo_words_range.
Defined.

Lemma ide_sector_roundtrip_witness :
  ide_get_sector (put_sector_num 123456 (if0 demo_channel)) = 123456.
Proof.
  apply (ide_sector_roundtrip (if0 demo_channel) 123456).
  - vm_compute. split; [discriminate|reflexivity].
  - vm_compute. reflexivity.
  - vm_compute. reflexivity.
  - vm_compute. split; [discriminate|reflexivity].
Defined.

Lemma ide_readdma_hangs_witness :
  exists vs c', perform_all [Outb 0x1f7 WIN_READDMA; Inb 0x1f7; Status; Inb 0x1f2] demo_channel = Ret (0 :: vs, c') /\
    Forall2 (fun a x => status_read a = true -> nz (x &! BUSY_STAT) = true)
      [Inb 0x1f7; Status; Inb 0x1f2] vs /\
    (requested c' = true -> requested demo_channel = true) /\ bs (the_if false c') = Some demo_sized /\
    end_transfer_func (the_if false c') = end_transfer_func (the_if false demo_channel) /\
    data_ptr (the_if false c') = data_ptr (the_if false demo_channel) /\
    io_buffer (the_if false c') = io_buffer (the_if false demo_channel).
Proof.
  apply (ide_readdma_hangs false demo_sized demo_channel WIN_READDMA).
  - apply demo_ok.
  - vm_compute. reflexivity.
  - vm_compute. reflexivity.
  - left. reflexivity.
  - repeat constructor.
Defined.
