(* ===== verification/Ports.v ===== *)
(** * Port input and output

    What a device driver of the monitor uses of the machine: the port
    instructions of [sys/io.h], the passing of time in [timer_msleep] and its
    kin, and the wait for an interrupt.  The devices behind the ports are a
    type of states on which these act. *)

From Stdlib Require Import ZArith.
From stdpp Require Import base.
From S2P Require Import Prelude.

(** [delay] is in nanoseconds. *)
Class Ports (H : Type) := {
  inb : Z -> st H Z;
  outb : Z -> Z -> st H unit;
  inw : Z -> st H Z;
  outw : Z -> Z -> st H unit;
  delay : Z -> st H unit;
  wait_irq : Z -> st H unit;
}.
