(* ===== verification/Ata.v ===== *)
(** * The ATA disk driver

    [devices/ata.c] for one channel with two devices, on any hardware that
    has ports, an interrupt and time ([Ports]).  The thread that holds the
    channel's lock is the only one here; the interrupt it waits for runs
    [interrupt_handler].  Messages to the console are left out. *)

From Stdlib Require Import ZArith Lia Bool.
From stdpp Require Import base list.
From S2P Require Import Prelude Ports.

Definition STA_BSY : Z := 0x80.
Definition STA_DRDY : Z := 0x40.
Definition STA_DRQ : Z := 0x08.
Definition CTL_SRST : Z := 0x04.
Definition DEV_MBS : Z := 0xa0.
Definition DEV_LBA : Z := 0x40.
Definition DEV_DEV : Z := 0x10.
Definition CMD_IDENTIFY_DEVICE : Z := 0xec.
Definition CMD_READ_SECTOR_RETRY : Z := 0x20.
Definition CMD_WRITE_SECTOR_RETRY : Z := 0x30.

(** [struct ata_disk] without the name and the pointer to the channel. *)
Record ata_disk := mk_ata_disk {
  dev_no : Z; is_ata : bool; capacity : Z; read_cnt : Z; write_cnt : Z }.

(** [struct channel]: the lock as whether it is held, the semaphore as its
    count. *)
Record channel := mk_channel {
  io_base : Z; io_alt : Z; irq : Z;
  lock : bool; expecting_interrupt : bool; completion_wait : Z;
  device0 : ata_disk; device1 : ata_disk }.

Section Ata.
Context {H : Type} {HPorts : Ports H}.

(** The channel, the processor's interrupt flag and privilege level, and the
    hardware. *)
Record ata := mk_ata { chan : channel; intr_on : bool; user : bool; hw : H }.

Definition set_chan (c : channel) (a : ata) : ata := mk_ata c (intr_on a) (user a) (hw a).
Definition set_lock (b : bool) (c : channel) : channel :=
  mk_channel (io_base c) (io_alt c) (irq c) b (expecting_interrupt c) (completion_wait c)
    (device0 c) (device1 c).
Definition set_expecting (b : bool) (c : channel) : channel :=
  mk_channel (io_base c) (io_alt c) (irq c) (lock c) b (completion_wait c) (device0 c) (device1 c).
Definition set_completion (n : Z) (c : channel) : channel :=
  mk_channel (io_base c) (io_alt c) (irq c) (lock c) (expecting_interrupt c) n (device0 c) (device1 c).
Definition device (u : bool) (c : channel) : ata_disk := if u then device1 c else device0 c.
Definition set_device (u : bool) (d : ata_disk) (c : channel) : channel :=
  mk_channel (io_base c) (io_alt c) (irq c) (lock c) (expecting_interrupt c) (completion_wait c)
    (if u then device0 c else d) (if u then d else device1 c).

Definition on_chan (f : channel -> channel) : st ata unit := modify (fun a => set_chan (f (chan a)) a).
Definition on_hw {A} (m : st H A) : st ata A := fun a =>
  match m (hw a) with
  | Ret (v, h) => Ret (v, mk_ata (chan a) (intr_on a) (user a) h)
  | Stop e => Stop e
  end.

(** *** Registers *)

Definition reg (i : Z) : st ata Z := fun a => Ret (io_base (chan a) + i, a).
Definition reg_in (i : Z) : st ata Z := p ← reg i; on_hw (inb p).
Definition reg_out (i v : Z) : st ata unit := p ← reg i; on_hw (outb p (wrap 8 v)).
Definition alt_status : st ata Z := a ← get; on_hw (inb (io_alt (chan a))).
Definition reg_ctl (v : Z) : st ata unit := a ← get; on_hw (outb (io_alt (chan a)) (wrap 8 v)).

Fixpoint insw (n : nat) (port : Z) : st ata (list Z) :=
  match n with
  | O => mret []
  | S n => w ← on_hw (inw port); ws ← insw n port; mret (w :: ws)
  end.
Fixpoint outsw (port : Z) (ws : list Z) : st ata unit :=
  match ws with
  | [] => mret tt
  | w :: ws => on_hw (outw port w);; outsw port ws
  end.

(** A sector as 256 words, which [insw] and [outsw] find at the bytes of the
    buffer, least significant first. *)
Definition input_sector : st ata (list Z) := p ← reg 0; insw 256 p.
Definition output_sector (ws : list Z) : st ata unit := p ← reg 0; outsw p ws.

(** *** Primitives *)

Fixpoint until_idle_loop (n : nat) : st ata unit :=
  match n with
  | O => mret tt
  | S n =>
    s ← reg_in 7;
    if s &! (STA_BSY |! STA_DRQ) =? 0 then mret tt
    else on_hw (delay 10000);; until_idle_loop n
  end.
Definition wait_until_idle : st ata unit := until_idle_loop (Z.to_nat 1000).

Fixpoint busy_loop (n : nat) : st ata bool :=
  match n with
  | O => mret false
  | S n =>
    s ← alt_status;
    if s &! STA_BSY =? 0 then
      s ← alt_status;
      mret (nz (s &! STA_DRQ))
    else on_hw (delay 10000000);; busy_loop n
  end.
Definition wait_while_busy : st ata bool := busy_loop (Z.to_nat 3000).

Definition select_device (d : ata_disk) : st ata unit :=
  let dev := if dev_no d =? 1 then DEV_MBS |! DEV_DEV else DEV_MBS in
  reg_out 6 dev;;
  alt_status;;
  on_hw (delay 400).
Definition select_device_wait (d : ata_disk) : st ata unit :=
  wait_until_idle;;
  select_device d;;
  wait_until_idle.

Definition select_sector (d : ata_disk) (sec_no : Z) : st ata unit :=
  lift (assert (sec_no <? capacity d));;
  lift (assert (sec_no <? 1 << 28));;
  select_device_wait d;;
  reg_out 2 1;;
  reg_out 3 sec_no;;
  reg_out 4 (sec_no >> 8);;
  reg_out 5 (sec_no >> 16);;
  reg_out 6 (DEV_MBS |! DEV_LBA |! (if dev_no d =? 1 then DEV_DEV else 0) |! (sec_no >> 24)).

Definition issue_pio_command (command : Z) : st ata unit :=
  a ← get;
  lift (assert (intr_on a));;
  on_chan (set_expecting true);;
  reg_out 7 command.

(** *** Interrupts and mutual exclusion *)

(** [sema_up] on [completion_wait]. *)
Definition completion_up : st ata unit :=
  on_chan (fun c => set_completion (completion_wait c + 1) c).

Definition interrupt_handler (vec_no : Z) : st ata unit :=
  a ← get;
  lift (assert (vec_no =? irq (chan a)));;
  if expecting_interrupt (chan a) then reg_in 7;; completion_up else mret tt.

(** [sema_down] on it: while the count is zero the thread sleeps, and the
    channel's interrupt runs its handler.  The driver waits only for
    interrupts it expects, so that one is enough. *)
Fixpoint completion_loop (fuel : nat) : st ata unit :=
  match fuel with
  | O => stop_with NoFuel
  | S fuel =>
    a ← get;
    if completion_wait (chan a) =? 0 then
      on_hw (wait_irq (irq (chan a)));;
      interrupt_handler (irq (chan a));;
      completion_loop fuel
    else on_chan (fun c => set_completion (completion_wait c - 1) c)
  end.
Definition completion_down : st ata unit := completion_loop 2.

(** [lock_acquire] and [lock_release] on the lock of the channel. *)
Definition channel_acquire : st ata unit :=
  a ← get;
  lift (assert (negb (lock (chan a))));;
  on_chan (set_lock true).
Definition channel_release : st ata unit :=
  a ← get;
  lift (assert (lock (chan a)));;
  on_chan (set_lock false).

(** The mode to return to. *)
Definition switch_to_kernel : st ata bool := fun a =>
  Ret (user a, mk_ata (chan a) (intr_on a) false (hw a)).
Definition switch_mode (mode : bool) : st ata unit := fun a =>
  Ret (tt, mk_ata (chan a) (intr_on a) mode (hw a)).

(** *** Sectors *)

Definition count_read (d : ata_disk) : ata_disk :=
  mk_ata_disk (dev_no d) (is_ata d) (capacity d) (read_cnt d + 1) (write_cnt d).
Definition count_write (d : ata_disk) : ata_disk :=
  mk_ata_disk (dev_no d) (is_ata d) (capacity d) (read_cnt d) (write_cnt d + 1).
Definition update_device (u : bool) (f : ata_disk -> ata_disk) : st ata unit :=
  on_chan (fun c => set_device u (f (device u c)) c).

Definition ata_disk_read (u : bool) (sec_no : Z) : st ata (list Z) :=
  channel_acquire;;
  mode ← switch_to_kernel;
  a ← get;
  select_sector (device u (chan a)) sec_no;;
  issue_pio_command CMD_READ_SECTOR_RETRY;;
  completion_down;;
  ok ← wait_while_busy;
  lift (assert ok);;
  buffer ← input_sector;
  update_device u count_read;;
  switch_mode mode;;
  channel_release;;
  mret buffer.

Definition ata_disk_write (u : bool) (sec_no : Z) (buffer : list Z) : st ata unit :=
  channel_acquire;;
  a ← get;
  select_sector (device u (chan a)) sec_no;;
  issue_pio_command CMD_WRITE_SECTOR_RETRY;;
  ok ← wait_while_busy;
  lift (assert ok);;
  output_sector buffer;;
  completion_down;;
  update_device u count_write;;
  channel_release.

(** *** Detection *)

Definition set_is_ata (b : bool) (d : ata_disk) : ata_disk :=
  mk_ata_disk (dev_no d) b (capacity d) (read_cnt d) (write_cnt d).
Definition set_capacity (n : Z) (d : ata_disk) : ata_disk :=
  mk_ata_disk (dev_no d) (is_ata d) n (read_cnt d) (write_cnt d).

(** Whether a device answers. *)
Definition probe_device (u : bool) : st ata bool :=
  a ← get;
  select_device (device u (chan a));;
  reg_out 2 0x55;; reg_out 3 0xaa;;
  reg_out 2 0xaa;; reg_out 3 0x55;;
  reg_out 2 0x55;; reg_out 3 0xaa;;
  n ← reg_in 2;
  if negb (n =? 0x55) then mret false else
  l ← reg_in 3;
  mret (l =? 0xaa).

Fixpoint signature_loop (n : nat) : st ata unit :=
  match n with
  | O => mret tt
  | S n =>
    v ← reg_in 2;
    found ← (if v =? 1 then l ← reg_in 3; mret (l =? 1) else mret false);
    if found : bool then mret tt else on_hw (delay 10000000);; signature_loop n
  end.

Definition reset_channel : st ata unit :=
  present0 ← probe_device false;
  present1 ← probe_device true;
  reg_ctl 0;;
  on_hw (delay 10000);;
  reg_ctl CTL_SRST;;
  on_hw (delay 10000);;
  reg_ctl 0;;
  on_hw (delay 150000000);;
  (if present0 : bool then
     a ← get;
     select_device (device0 (chan a));;
     wait_while_busy;;
     mret tt
   else mret tt);;
  if present1 : bool then
    a ← get;
    select_device (device1 (chan a));;
    signature_loop (Z.to_nat 3000);;
    wait_while_busy;;
    mret tt
  else mret tt.

Definition check_device_type (u : bool) : st ata bool :=
  a ← get;
  let d := device u (chan a) in
  select_device d;;
  error ← reg_in 1;
  lbam ← reg_in 4;
  lbah ← reg_in 5;
  status ← reg_in 7;
  if (negb (error =? 1) && (negb (error =? 0x81) || (dev_no d =? 1)))
     || (status &! STA_DRDY =? 0) || nz (status &! STA_BSY)
  then
    update_device u (set_is_ata false);;
    mret (negb (error =? 0x81))
  else
    update_device u
      (set_is_ata ((lbam =? 0) && (lbah =? 0) || (lbam =? 0x3c) && (lbah =? 0xc3)));;
    mret true.

Definition identify_ata_device (u : bool) : st ata unit :=
  a ← get;
  lift (assert (is_ata (device u (chan a))));;
  select_device_wait (device u (chan a));;
  issue_pio_command CMD_IDENTIFY_DEVICE;;
  completion_down;;
  ok ← wait_while_busy;
  if negb ok then update_device u (set_is_ata false)
  else
    id ← input_sector;
    w60 ← lift (the (geti id 60));
    w61 ← lift (the (geti id 61));
    update_device u (set_capacity (w60 |! (w61 << 16))).

(** [ide_bus_register_legacy] for the first channel. *)
Definition new_channel : channel :=
  mk_channel 0x1f0 (0x1f0 + 0x206) (14 + 0x20) false false 0
    (mk_ata_disk 0 false 0 0 0) (mk_ata_disk 1 false 0 0 0).
Definition ide_bus_register_legacy : st ata unit :=
  on_chan (fun _ => new_channel);;
  reset_channel;;
  slave ← check_device_type false;
  (if slave : bool then check_device_type true;; mret tt else mret tt);;
  a ← get;
  (if is_ata (device0 (chan a)) then identify_ata_device false else mret tt);;
  a ← get;
  if is_ata (device1 (chan a)) then identify_ata_device true else mret tt.

Definition ata_disk_get (chan_no dev_no : Z) (c : channel) : res (option bool) :=
  assert ((dev_no =? 0) || (dev_no =? 1));;
  mret (if chan_no <? 1 then
          let u := dev_no =? 1 in if is_ata (device u c) then Some u else None
        else None).

End Ata.
Arguments ata H : clear implicits.
