(* ===== verification/AtaIde.v ===== *)
(** * The ATA driver on the emulated controller

    [devices/ata.c] drives the monitor's own disk; a monitor that runs as a
    guest drives the one [hw/ide.c] emulates.  Here the driver's ports are
    those of the controller, and the two agree on the protocol: the driver
    finds the disks, and reads and writes their sectors, without running into
    one of its assertions or time-outs. *)

From Stdlib Require Import ZArith Lia Bool Ascii String.
From stdpp Require Import base list.
From S2P Require Import Prelude Pic Uart Printf Cstring Bdrv Ide IdeSafe IdeData IdeGuest Ports Ata.

Section AtaIde.
Context {D : Type} {HD : Drive D} {HL : DriveLaws D}.
Notation IDEState := (@IDEState D).
Notation ide := (@ide D).
Notation total := (runs False).
Implicit Types (c : ide) (s : IDEState) (u : bool) (b : displace D) (a : ata ide).

(** The ports [ide_init_ioport] registers.  Time changes nothing: a command
    is carried out when it is given.  The interrupt of line 14, vector
    [0x2e], comes if the line is raised; otherwise the wait does not end. *)
#[global] Instance ide_ports : Ports ide := {
  inb p := if p =? 0x3f6 then perform Status else perform (Inb p);
  outb p v := if p =? 0x3f6 then perform (Control v);; mret tt else perform (Outb p v);; mret tt;
  inw _ := perform Inw;
  outw _ v := perform (Outw v);; mret tt;
  delay _ := mret tt;
  wait_irq v := fun c => if (v =? 0x2e) && raised c then Ret (tt, c) else Stop NoFuel;
}.

(** ** What a command leaves alone *)

(** The selection, the other drive and the control register. *)
Definition frame u c c' : Prop :=
  cur_drive c' = cur_drive c /\ the_if (negb u) c' = the_if (negb u) c /\
  cmd (the_if u c') = cmd (the_if u c).
Definition spares {A} u (m : st ide A) : Prop :=
  forall c, match m c with Ret (_, c') => frame u c c' | Stop _ => True end.

Lemma spares_bind {A B} u (m : st ide A) (f : A -> st ide B) :
  spares u m -> (forall x, spares u (f x)) -> spares u (m ≫= f).
Proof.
  intros Hm Hf c. specialize (Hm c). rewrite bind_at. destruct (m c) as [[x c1]|]; [|done].
  specialize (Hf x c1). destruct (f x c1) as [[y c2]|]; [|done].
  destruct Hm as (E1 & E2 & E3), Hf as (E4 & E5 & E6). repeat split; congruence.
Qed.
Lemma spares_ret {A} u (x : A) : spares u (mret x).
Proof. done. Qed.
Lemma spares_stop {A} u e : spares u (stop_with e : st ide A).
Proof. done. Qed.
Lemma spares_get u v : spares u (get_if v).
Proof. done. Qed.
Lemma spares_lift {A} u (m : res A) : spares u (lift m).
Proof. intros c. unfold lift. by destruct m. Qed.
Lemma spares_if {A} u (t : bool) (m1 m2 : st ide A) : spares u m1 -> spares u m2 -> spares u (if t then m1 else m2).
Proof. by destruct t. Qed.
Lemma spares_upd u f : (forall s, cmd (f s) = cmd s) -> spares u (upd u f).
Proof.
  intros Hf c. rewrite upd_run. split_and!; [apply cur_with_if|apply with_if_other|].
  by rewrite with_if_same.
Qed.
Lemma spares_line u level : spares u (set_line u level).
Proof. intros c. unfold set_line. destruct (set_irq_line _ _ _); [|done]. by destruct u. Qed.

Create HintDb spares.
#[local] Hint Resolve spares_ret spares_stop spares_get spares_lift spares_line : spares.

Ltac spare :=
  repeat match goal with
  | |- spares _ (_ ≫= _) => apply spares_bind; [|intros ?]
  | |- spares _ (let _ := _ in _) => cbv zeta
  | |- spares _ (if _ then _ else _) => apply spares_if
  | |- spares _ (match ?x with _ => _ end) => destruct x
  | |- spares _ (upd _ _) => apply spares_upd; intros ?
  | |- spares _ _ => solve [auto with spares]
  end; try done.

Lemma put_cmd n s : cmd (put_sector_num n s) = cmd s.
Proof. apply put_chip. Qed.

Lemma spares_bdrv_read u sec n : spares u (bdrv_read u sec n).
Proof. unfold bdrv_read. spare. Qed.
Lemma spares_bdrv_write u sec buf n : spares u (bdrv_write u sec buf n).
Proof. unfold bdrv_write. spare. Qed.
Lemma spares_irq u : spares u (ide_set_irq u).
Proof. unfold ide_set_irq. spare. Qed.
Lemma spares_set_sector u n : spares u (ide_set_sector u n).
Proof. unfold ide_set_sector. spare. apply put_cmd. Qed.
#[local] Hint Resolve spares_bdrv_read spares_bdrv_write spares_irq spares_set_sector : spares.

Lemma spares_sector_read u : spares u (ide_sector_read u).
Proof. unfold ide_sector_read. spare. Qed.
Lemma spares_sector_write u : spares u (ide_sector_write u).
Proof. unfold ide_sector_write. spare. Qed.
#[local] Hint Resolve spares_sector_read spares_sector_write : spares.
Lemma spares_end_transfer u : spares u (call_end_transfer u).
Proof. unfold call_end_transfer. spare. Qed.

Lemma transform_cmd l s : cmd (ide_cmd_lba48_transform l s) = cmd s.
Proof. unfold ide_cmd_lba48_transform. destruct l; simpl; [destruct (_ && _)|destruct (_ =? 0)]; done. Qed.
Lemma spares_identify u : spares u (cmd_identify u).
Proof. unfold cmd_identify, ide_identify. spare. Qed.
Lemma spares_read u : spares u (cmd_read u false).
Proof. unfold cmd_read, abort_cmd. spare. by rewrite transform_cmd. Qed.
Lemma spares_write u : spares u (cmd_write u false).
Proof. unfold cmd_write. spare. by rewrite transform_cmd. Qed.

(** A state reached by a total run, with what the run leaves alone. *)
Definition reaches {A} (m : st ide A) c (F : ide -> Prop) : Prop :=
  match m c with Ret (_, c') => F c' | Stop _ => True end.

Lemma total_reaches {A} (m : st ide A) c Q F :
  total m c Q -> reaches m c F -> total m c (fun x c' => Q x c' /\ F c').
Proof. unfold runs, reaches. by destruct (m c) as [[x c']|]. Qed.

Lemma total_chan {A} (m : st ide A) c Q :
  total m c Q -> runs True m c (fun _ => chan_ok any) -> total m c (fun x c' => Q x c' /\ chan_ok any c').
Proof. unfold runs. by destruct (m c) as [[x c']|]. Qed.

Lemma frame_trans u c c1 c2 : frame u c c1 -> frame u c1 c2 -> frame u c c2.
Proof. intros (E1 & E2 & E3) (E4 & E5 & E6). repeat split; congruence. Qed.

(** Data ports. *)
Lemma data_read_frame n c : reaches (ide_data_read n) c (frame (cur_drive c) c).
Proof.
  set (u := cur_drive c). unfold reaches, ide_data_read. rewrite bind_at. unfold get. fold u.
  destruct (_ <? _); [done|].
  match goal with |- match ?m c with _ => _ end => enough (Hk : spares u m) by apply Hk end.
  pose proof spares_end_transfer. spare.
Qed.
Lemma data_write_frame n v c : reaches (ide_data_write n v) c (frame (cur_drive c) c).
Proof.
  set (u := cur_drive c). unfold reaches, ide_data_write. rewrite bind_at. unfold get. fold u.
  destruct (_ <? _); [done|].
  match goal with |- match ?m c with _ => _ end => enough (Hk : spares u m) by apply Hk end.
  pose proof spares_end_transfer. spare.
Qed.

Definition data_access (x : access) : bool := match x with Inw | Outw _ => true | _ => false end.

Lemma data_frame x c : data_access x = true -> reaches (perform x) c (frame (cur_drive c) c).
Proof.
  unfold reaches. destruct x; try done; intros _.
  - pose proof (data_write_frame 2 val c) as Hw. unfold reaches in Hw. unfold perform, ide_data_writew.
    rewrite bind_at. by destruct (ide_data_write 2 val c) as [[[] c']|].
  - apply (data_read_frame 2 c).
Qed.

Lemma data_all_frame l c :
  forallb data_access l = true -> reaches (perform_all l) c (frame (cur_drive c) c).
Proof.
  unfold reaches. revert c. induction l as [|x l IH]; intros c; [done|]. cbn [forallb perform_all].
  rewrite andb_true_iff. intros [Hx Hl]. rewrite bind_at. pose proof (data_frame x c Hx) as H1.
  unfold reaches in H1. destruct (perform x c) as [[v c1]|]; [|done]. rewrite bind_at.
  specialize (IH c1 Hl). destruct (perform_all l c1) as [[vs c2]|]; [|done].
  eapply frame_trans; [exact H1|]. by rewrite (proj1 H1) in IH.
Qed.

(** ** The driver's primitives *)

Definition with_hw (h : ide) a : ata ide := mk_ata (chan a) (intr_on a) (user a) h.

(** The channel is that of the controller, and interrupts are on. *)
Record wired a : Prop := {
  w_base : io_base (chan a) = 0x1f0;
  w_alt : io_alt (chan a) = 0x3f6;
  w_irq : irq (chan a) = 0x2e;
  w_dev : forall u, dev_no (device u (chan a)) = b2z u;
  w_intr : intr_on a = true;
}.

Lemma wired_hw h a : wired a -> wired (with_hw h a).
Proof. by intros []. Qed.

Lemma on_hw_ok {A} (m : st ide A) a Q :
  total m (hw a) (fun v h => Q v (with_hw h a)) -> total (on_hw m) a Q.
Proof. unfold runs, on_hw. by destruct (m (hw a)) as [[v h]|]. Qed.

Lemma reg_in_ok i a Q :
  wired a -> 0 <= i <= 7 ->
  total (perform (Inb (0x1f0 + i))) (hw a) (fun v h => Q v (with_hw h a)) -> total (reg_in i) a Q.
Proof.
  intros Hw Hi H. unfold reg_in, reg. apply safe_bind. unfold runs at 1. rewrite (w_base a Hw).
  apply on_hw_ok. unfold inb, ide_ports. by rewrite (proj2 (Z.eqb_neq _ _)) by lia.
Qed.

Lemma outb_wrap p v : perform (Outb p (wrap 8 v)) = perform (Outb p v).
Proof. unfold perform. by rewrite (wrap_id 8 (wrap 8 v)) by (apply wrap_inU; lia). Qed.

Lemma drop_value {S} (m : st S Z) (x : S) (Q : unit -> S -> Prop) :
  total m x (fun _ => Q tt) -> total (m;; mret tt) x Q.
Proof. intros H. apply safe_bind. eapply safe_mono; [exact H|]. done. Qed.

Lemma reg_out_ok i v a Q :
  wired a -> 0 <= i <= 7 ->
  total (perform (Outb (0x1f0 + i) v)) (hw a) (fun _ h => Q tt (with_hw h a)) -> total (reg_out i v) a Q.
Proof.
  intros Hw Hi H. unfold reg_out, reg. apply safe_bind. unfold runs at 1. rewrite (w_base a Hw).
  apply on_hw_ok. unfold outb, ide_ports. rewrite (proj2 (Z.eqb_neq _ _)), outb_wrap by lia.
  by apply drop_value.
Qed.

(** What the status ports show. *)
Definition seen c : Z := if no_drive c then 0 else status (the_if (cur_drive c) c).

Lemma alt_status_ok a Q : wired a -> Q (seen (hw a)) a -> total alt_status a Q.
Proof.
  intros Hw H. unfold alt_status. apply safe_bind. unfold runs at 1, get. rewrite (w_alt a Hw).
  apply on_hw_ok. destruct a. exact H.
Qed.

Lemma delay_ok n a Q : Q tt a -> total (on_hw (delay n)) a Q.
Proof. intros H. apply on_hw_ok. destruct a. exact H. Qed.

Lemma inb_status c :
  chan_ok any c ->
  total (perform (Inb 0x1f7)) c (fun v c' => v = seen c /\ chan_ok any c' /\ same_drives c c').
Proof.
  intros Hc. unfold perform, ide_ioport_read. change (0x1f7 &! 7) with 7. cbv beta iota zeta delta [Z.eqb Pos.eqb].
  apply safe_bind. unfold runs at 1, get. apply safe_bind.
  eapply safe_mono; [by apply (set_line_ok any)|]. intros ? c' [H1 H2]. by apply safe_ret.
Qed.

(** *** Selection *)

(** The answer to IDENTIFY that a drive has saved. *)
Definition saved s : option (list Z) := if identify_set s then Some (identify_data s) else None.

(** What is behind a drive's registers, and its control and status. *)
Definition core s : option (displace D) * option (list Z) * Z := (bs s, saved s, nb_sectors s).
Definition ctl s : Z * Z := (cmd s, status s).

Definition calm c c' : Prop :=
  chan_ok any c' /\ forall u, core (the_if u c') = core (the_if u c) /\ ctl (the_if u c') = ctl (the_if u c).

Lemma calm_trans c c1 c2 : calm c c1 -> calm c1 c2 -> calm c c2.
Proof.
  intros [_ H1] [Hc H2]. split; [done|]. intros u. destruct (H1 u), (H2 u). split; congruence.
Qed.
Lemma calm_same c c' : chan_ok any c' -> same_drives c c' -> calm c c'.
Proof. intros Hc Hs. split; [done|]. intros u. by rewrite (same_the u _ _ Hs). Qed.

(** The same, and what the other registers show. *)
Definition shown s : Z * Z * Z * Z * Z := (error s, nsector s, sector_ s, lcyl s, hcyl s).
Definition gentle c c' : Prop := calm c c' /\ forall u, shown (the_if u c') = shown (the_if u c).

Lemma gentle_trans c c1 c2 : gentle c c1 -> gentle c1 c2 -> gentle c c2.
Proof. intros [H1 H2] [H3 H4]. split; [by eapply calm_trans|]. intros u. by rewrite H4. Qed.
Lemma gentle_same c c' : chan_ok any c' -> same_drives c c' -> gentle c c'.
Proof. intros Hc Hs. split; [by apply calm_same|]. intros u. by rewrite (same_the u _ _ Hs). Qed.

(** Neither drive is busy or transfers data. *)
Definition STA_WORK : Z := STA_BSY |! STA_DRQ.
Definition resting c : Prop := chan_ok any c /\ forall u, status (the_if u c) &! STA_WORK = 0.

Lemma calm_resting c c' : calm c c' -> resting c -> resting c'.
Proof.
  intros [Hc H] [_ Hr]. split; [done|]. intros u. destruct (H u) as [_ [= _ ->]]. apply Hr.
Qed.

Lemma seen_resting c : resting c -> seen c &! STA_WORK = 0.
Proof. intros [_ Hr]. unfold seen. destruct (no_drive c); [done|apply Hr]. Qed.

(** What a primitive does: the hardware moves from [hw a] as [F] says. *)
Definition moves {A} (m : st (ata ide) A) a (F : A -> ide -> Prop) : Prop :=
  total m a (fun v a' => exists h, a' = with_hw h a /\ F v h).

Lemma moves_mono {A} (m : st (ata ide) A) a (F F' : A -> ide -> Prop) :
  moves m a F -> (forall v h, F v h -> F' v h) -> moves m a F'.
Proof. intros H HF. eapply safe_mono; [exact H|]. intros v a' (h & -> & Hh). exists h. auto. Qed.

Lemma moves_bind {A B} (m : st (ata ide) A) (f : A -> st (ata ide) B) a (F : A -> ide -> Prop) G :
  moves m a F -> (forall v h, F v h -> moves (f v) (with_hw h a) G) -> moves (m ≫= f) a G.
Proof.
  intros Hm Hf. apply safe_bind. eapply safe_mono; [exact Hm|]. intros v a' (h & -> & Hh).
  eapply safe_mono; [by apply Hf|]. intros v' a'' (h' & -> & Hh'). by exists h'.
Qed.

Lemma moves_ret {A} (v : A) a (F : A -> ide -> Prop) : F v (hw a) -> moves (mret v) a F.
Proof. intros H. apply safe_ret. exists (hw a). split; [by destruct a|done]. Qed.

Lemma reg_in_moves i a F :
  wired a -> 0 <= i <= 7 -> total (perform (Inb (0x1f0 + i))) (hw a) F -> moves (reg_in i) a F.
Proof.
  intros Hw Hi H. apply reg_in_ok; [done..|]. eapply safe_mono; [exact H|]. intros v h Hh. by exists h.
Qed.
Lemma reg_out_moves i v a (F : ide -> Prop) :
  wired a -> 0 <= i <= 7 -> total (perform (Outb (0x1f0 + i) v)) (hw a) (fun _ => F) ->
  moves (reg_out i v) a (fun _ => F).
Proof.
  intros Hw Hi H. apply reg_out_ok; [done..|]. eapply safe_mono; [exact H|]. intros ? h Hh. by exists h.
Qed.
Lemma alt_status_moves a F : wired a -> F (seen (hw a)) (hw a) -> moves alt_status a F.
Proof. intros Hw H. apply alt_status_ok; [done|]. exists (hw a). split; [by destruct a|done]. Qed.
Lemma delay_moves n a (F : unit -> ide -> Prop) : F tt (hw a) -> moves (on_hw (delay n)) a F.
Proof. intros H. apply delay_ok. exists (hw a). split; [by destruct a|done]. Qed.

Lemma status_moves a :
  wired a -> chan_ok any (hw a) ->
  moves (reg_in 7) a (fun v h => v = seen (hw a) /\ chan_ok any h /\ same_drives (hw a) h).
Proof. intros Hw Hc. apply reg_in_moves; [done|lia|]. by apply inb_status. Qed.

Lemma wait_until_idle_ok a :
  wired a -> resting (hw a) ->
  moves wait_until_idle a (fun _ h => chan_ok any h /\ same_drives (hw a) h).
Proof.
  intros Hw Hr. unfold wait_until_idle. replace (Z.to_nat 1000) with (S 999) by reflexivity.
  generalize 999%nat. intros n. cbn [until_idle_loop]. eapply moves_bind; [by apply status_moves; [|apply Hr]|].
  intros v h (-> & Hc & Hs). cbv beta. rewrite (seen_resting _ Hr : seen (hw a) &! (STA_BSY |! STA_DRQ) = 0).
  by apply moves_ret.
Qed.

Lemma select_ok v c :
  chan_ok any c ->
  total (perform (Outb 0x1f6 v)) c (fun _ c' => gentle c c' /\ cur_drive c' = nz ((wrap 8 v >> 4) &! 1)).
Proof.
  intros Hc. pose proof (perform_ok (P := True) any any_stays I (Outb 0x1f6 v) c Hc) as Hch. revert Hch.
  unfold runs. rewrite outb_select. intros Hch. split; [|done].
  split; [split; [done|]|]; intros []; done.
Qed.

Lemma select_device_ok u a :
  wired a -> chan_ok any (hw a) ->
  moves (select_device (device u (chan a))) a (fun _ h => gentle (hw a) h /\ cur_drive h = u).
Proof.
  intros Hw Hc. unfold select_device. rewrite (w_dev a Hw u).
  eapply moves_bind; [apply reg_out_moves; [done|lia|by apply select_ok]|]. intros ? h [H1 H2].
  eapply moves_bind; [apply (alt_status_moves _ (fun _ h' => h' = h)); [by apply wired_hw|done]|].
  intros ? ? ->. apply delay_moves. split; [exact H1|]. cbn [hw with_hw]. rewrite H2. by destruct u.
Qed.

Lemma select_device_wait_ok u a :
  wired a -> resting (hw a) ->
  moves (select_device_wait (device u (chan a))) a (fun _ h => calm (hw a) h /\ cur_drive h = u).
Proof.
  intros Hw Hr. eapply moves_bind; [by apply wait_until_idle_ok|]. intros ? h [H1 H2].
  eapply moves_bind; [apply (select_device_ok u (with_hw h a)); [by apply wired_hw|done]|]. intros ? h2 [H3 H4].
  assert (Hc2 : calm (hw a) h2) by (eapply calm_trans; [by apply calm_same|apply H3]).
  eapply moves_mono; [apply wait_until_idle_ok; [by do 2 apply wired_hw|by eapply calm_resting]|].
  intros ? h3 [H5 H6]. split; [eapply calm_trans; [exact Hc2|by apply calm_same]|].
  by rewrite (proj2 (proj2 H6)).
Qed.

(** *** Addressing a sector *)

Definition device_value u (sec : Z) : Z := DEV_MBS |! DEV_LBA |! (if b2z u =? 1 then DEV_DEV else 0) |! (sec >> 24).

(** The registers in the driver's order. *)
Definition place u (sec : Z) : list access :=
  [Outb 0x1f2 1; Outb 0x1f3 sec; Outb 0x1f4 (sec >> 8); Outb 0x1f5 (sec >> 16);
   Outb 0x1f6 (device_value u sec)].
Lemma place_split u sec :
  place u sec = map (fun p => Outb (0x1f0 + p.1) p.2)
    [(2, 1); (3, sec); (4, sec >> 8); (5, sec >> 16)] ++ [Outb (0x1f0 + 6) (device_value u sec)].
Proof. done. Qed.
Definition placed (sel sec : Z) s : IDEState := set_select sel (addressed (select s) sec 1 s).

Lemma place_run u sec c :
  let v := wrap 8 (device_value u sec) in
  perform_all (place u sec) c =
  Ret (replicate 5 0, mk_ide (mach c) (placed (wrap 8 ((v &~ 0x10) |! 0xa0)) sec (if0 c))
    (placed (wrap 8 ((v |! 0x10) |! 0xa0)) sec (if1 c)) (nz ((v >> 4) &! 1))).
Proof.
  intros v. unfold place. cbn [perform_all].
  rewrite bind_at, (outb_regs 0x1f2 (fun s => set_hob_nsector (wrap 8 (nsector s)) s) set_nsector)
    by reflexivity.
  rewrite !bind_at, (outb_regs 0x1f3 (fun s => set_hob_sector (sector_ s) s) (fun w => set_sector (wrap 8 w)))
    by reflexivity.
  rewrite !bind_at, (outb_regs 0x1f4 (fun s => set_hob_lcyl (lcyl s) s) (fun w => set_lcyl (wrap 8 w)))
    by reflexivity.
  rewrite !bind_at, (outb_regs 0x1f5 (fun s => set_hob_hcyl (hcyl s) s) (fun w => set_hcyl (wrap 8 w)))
    by reflexivity.
  rewrite !bind_at, outb_select. reflexivity.
Qed.

Lemma high_bits sec : inU 28 sec -> 0 <= sec >> 24 < 16.
Proof.
  unfold inU. intros Hsec. rewrite Z.shiftr_div_pow2 by lia.
  split; [apply Z.div_pos|apply Z.div_lt_upper_bound]; lia.
Qed.

Lemma select_placed u sec :
  inU 28 sec ->
  let v := wrap 8 (device_value u sec) in
  let sel := if u then wrap 8 ((v |! 0x10) |! 0xa0) else wrap 8 ((v &~ 0x10) |! 0xa0) in
  nz ((v >> 4) &! 1) = u /\ nz (sel &! 0x40) = true /\ sel &! 0x0f = sec >> 24.
Proof.
  intros Hsec. unfold device_value. pose proof (high_bits sec Hsec) as Hh. revert Hh.
  generalize (sec >> 24). intros h Hh.
  assert (Hall : forallb (fun h =>
    let v := wrap 8 (DEV_MBS |! DEV_LBA |! (if b2z u =? 1 then DEV_DEV else 0) |! h) in
    let sel := if u then wrap 8 ((v |! 0x10) |! 0xa0) else wrap 8 ((v &~ 0x10) |! 0xa0) in
    eqb (nz ((v >> 4) &! 1)) u && nz (sel &! 0x40) && (sel &! 0x0f =? h)) (map Z.of_nat (seq 0 16)) = true)
    by (destruct u; vm_compute; reflexivity).
  rewrite forallb_forall in Hall. specialize (Hall h). rewrite !andb_true_iff, Z.eqb_eq in Hall.
  destruct Hall as [[E1%eqb_prop E2] E3]; [|done].
  apply in_map_iff. exists (Z.to_nat h). split; [lia|]. apply in_seq. lia.
Qed.

Lemma placed_regs sel sec s :
  let s' := set_lba48 false (placed sel sec s) in
  select s' = sel /\ hcyl s' = wrap 8 (wrap 8 (sec >> 16)) /\ lcyl s' = wrap 8 (wrap 8 (sec >> 8)) /\
  sector_ s' = wrap 8 (wrap 8 sec).
Proof. done. Qed.

Lemma placed_sector sel sec s :
  nz (sel &! 0x40) = true -> sel &! 0x0f = sec >> 24 -> inU 28 sec ->
  is_lba (placed sel sec s) = true /\ nsector (placed sel sec s) = wrap 8 1 /\
  ide_get_sector (set_lba48 false (placed sel sec s)) = sec.
Proof.
  intros H1 H2 Hsec. split; [exact H1|]. split; [done|]. rewrite get_lba28; [|exact H1|done].
  destruct (placed_regs sel sec s) as (-> & -> & -> & ->). rewrite H2.
  rewrite !(wrap_id 8 (wrap 8 _)) by (apply wrap_inU; lia).
  rewrite <- (high_nibble sec Hsec). by apply lba28_id.
Qed.

Lemma place_ok u b sec c :
  chan_ok any c -> bs (the_if u c) = Some b -> inU 28 sec ->
  total (perform_all (place u sec)) c (fun _ c' => calm c c' /\ addressed_at u b sec 1 c').
Proof.
  intros Hc Hb Hsec. pose proof (perform_all_ok (P := True) any any_stays I (place u sec) c Hc) as Hch.
  revert Hch. unfold runs. rewrite place_run. intros Hch.
  destruct (select_placed u sec Hsec) as (E1 & E2 & E3). set (v := wrap 8 _) in *. clearbody v.
  split; [split; [exact Hch|intros []; done]|]. split; [exact Hch|]. clear Hch. split; [exact E1|].
  destruct u; cbn [the_if if0 if1] in *; (split; [exact Hb|by apply placed_sector]).
Qed.

(** A series of register writes. *)
Fixpoint outs {B} (l : list (Z * Z)) (m : st (ata ide) B) : st (ata ide) B :=
  match l with [] => m | (i, v) :: l => reg_out i v;; outs l m end.

Lemma total_bind_inv {S A B} (m : st S A) (f : A -> st S B) (x : S) Q :
  total (m ≫= f) x Q -> total m x (fun v y => total (f v) y Q).
Proof. unfold runs, mbind, st_bind. by destruct (m x) as [[v y]|]. Qed.

Lemma total_app_inv l1 l2 c (F : ide -> Prop) :
  total (perform_all (l1 ++ l2)) c (fun _ => F) ->
  total (perform_all l1) c (fun _ c' => total (perform_all l2) c' (fun _ => F)).
Proof.
  unfold runs. rewrite perform_all_app, bind_at. destruct (perform_all l1 c) as [[vs c1]|]; [|done].
  rewrite bind_at. by destruct (perform_all l2 c1) as [[vs' c2]|].
Qed.

Lemma total_one_inv x c (F : ide -> Prop) :
  total (perform_all [x]) c (fun _ => F) -> total (perform x) c (fun _ => F).
Proof. unfold runs. cbn [perform_all]. rewrite bind_at. by destruct (perform x c) as [[v c1]|]. Qed.

Lemma outs_moves {B} l : forall (m : st (ata ide) B) a (F : ide -> Prop) G,
  wired a -> Forall (fun p => 0 <= p.1 <= 7) l ->
  total (perform_all (map (fun p => Outb (0x1f0 + p.1) p.2) l)) (hw a) (fun _ => F) ->
  (forall h, F h -> moves m (with_hw h a) G) -> moves (outs l m) a G.
Proof.
  induction l as [|[i v] l IH]; intros m a F G Hw Hl Ht Hm.
  - cbn [outs]. specialize (Hm (hw a) Ht). destruct a. exact Hm.
  - apply Forall_cons in Hl as [Hi Hl]. cbn [map perform_all fst snd] in Ht. apply total_bind_inv in Ht.
    cbn [outs]. eapply moves_bind.
    { apply (reg_out_moves _ _ _ (fun h => total (perform_all (map (fun p => Outb (0x1f0 + p.1) p.2) l)) h (fun _ => F)));
        [done..|]. eapply safe_mono; [exact Ht|]. intros x h Hh. apply total_bind_inv in Hh.
      eapply safe_mono; [exact Hh|]. done. }
    intros ? h Hh. apply (IH m (with_hw h a) F G); [by apply wired_hw|done|done|].
    intros h' Hh'. exact (Hm h' Hh').
Qed.

Lemma assert_moves t a (F : unit -> ide -> Prop) : t = true -> F tt (hw a) -> moves (lift (assert t)) a F.
Proof. intros -> H. exists (hw a). split; [by destruct a|done]. Qed.

Lemma core_bs c c' u : calm c c' -> bs (the_if u c') = bs (the_if u c).
Proof. intros [_ H]. by destruct (H u) as [[= -> _ _] _]. Qed.

Lemma select_sector_ok u b sec a :
  wired a -> resting (hw a) -> bs (the_if u (hw a)) = Some b ->
  0 <= sec < capacity (device u (chan a)) -> sec < 2 ^ 28 ->
  moves (select_sector (device u (chan a)) sec) a (fun _ h => calm (hw a) h /\ addressed_at u b sec 1 h).
Proof.
  intros Hw Hr Hb Hcap Hsec. unfold select_sector.
  eapply moves_bind; [apply (assert_moves _ _ (fun _ h => h = hw a)); [apply Z.ltb_lt; lia|done]|]. intros ? ? ->.
  eapply moves_bind; [apply (assert_moves _ _ (fun _ h => h = hw a)); [by apply Z.ltb_lt; change (1 << 28) with (2 ^ 28)|done]|]. intros ? ? ->.
  replace (with_hw (hw a) (with_hw (hw a) a)) with a by (by destruct a).
  eapply moves_bind; [by apply select_device_wait_ok|]. intros ? h [H1 H2].
  rewrite (w_dev a Hw u). fold (device_value u sec).
  set (a1 := with_hw h a).
  assert (Hp : total (perform_all (place u sec)) h (fun _ c' => calm h c' /\ addressed_at u b sec 1 c')).
  { apply place_ok; [apply H1|by rewrite (core_bs _ _ u H1)|unfold inU; lia]. }
  rewrite place_split in Hp. apply total_app_inv in Hp.
  apply (outs_moves [(2, 1); (3, sec); (4, sec >> 8); (5, sec >> 16)]
    (reg_out 6 (device_value u sec)) a1
    (fun c1 => total (perform (Outb (0x1f0 + 6) (device_value u sec))) c1 (fun _ c' => calm h c' /\ addressed_at u b sec 1 c'))).
  - by apply wired_hw.
  - repeat (apply Forall_cons; split; [simpl; lia|]). constructor.
  - eapply safe_mono; [exact Hp|]. intros vs c1 Hc1. by apply total_one_inv in Hc1.
  - intros h1 Hh1. apply (moves_mono _ _ (fun _ c' => calm h c' /\ addressed_at u b sec 1 c')).
    + apply reg_out_moves; [by do 2 apply wired_hw|lia|exact Hh1].
    + intros ? h2 [H3 H4]. split; [by eapply calm_trans|done].
Qed.

(** *** Waiting *)

Lemma completion_up_run a :
  completion_up a = Ret (tt, set_chan (set_completion (completion_wait (chan a) + 1) (chan a)) a).
Proof. done. Qed.

Lemma wired_completion n a : wired a -> wired (set_chan (set_completion n (chan a)) a).
Proof. by intros []. Qed.

(** The interrupt that is expected comes, and is acknowledged. *)
Lemma completion_down_ok a :
  wired a -> chan_ok any (hw a) -> expecting_interrupt (chan a) = true -> completion_wait (chan a) = 0 ->
  raised (hw a) = true ->
  moves completion_down a (fun _ h => chan_ok any h /\ same_drives (hw a) h).
Proof.
  intros Hw Hc He Hn Hr. unfold completion_down. cbn [completion_loop]. apply safe_bind.
  unfold runs at 1, get. rewrite Hn. cbn [Z.eqb]. apply safe_bind, on_hw_ok.
  unfold runs at 1. cbn [wait_irq ide_ports]. rewrite (w_irq a Hw), Hr. cbn [Z.eqb Pos.eqb andb].
  replace (with_hw (hw a) a) with a by (by destruct a).
  apply safe_bind. unfold interrupt_handler. apply safe_bind. unfold runs at 1, get.
  rewrite (w_irq a Hw), Z.eqb_refl. apply safe_bind. unfold runs at 1, lift, assert. rewrite He.
  apply safe_bind. eapply safe_mono; [by apply status_moves|]. intros v ? (h & -> & _ & H1 & H2).
  unfold runs at 1. rewrite completion_up_run. cbn [chan with_hw]. rewrite Hn.
  apply safe_bind. unfold runs at 1, get. cbn [chan set_chan completion_wait set_completion].
  exists h. split; [|done]. destruct a as [ch i m x]; destruct ch; simpl in *. by subst.
Qed.

Lemma seen_disk u c : cur_drive c = u -> bs (the_if u c) <> None -> seen c = status (the_if u c).
Proof.
  intros Hu Hb. unfold seen, no_drive, no_disks. rewrite Hu.
  destruct u; simpl in *; destruct (bs (if0 c)), (bs (if1 c)); done.
Qed.

(** Data are ready at once. *)
Lemma wait_while_busy_ok u a :
  wired a -> cur_drive (hw a) = u -> bs (the_if u (hw a)) <> None -> status (the_if u (hw a)) = DATA_STAT ->
  moves wait_while_busy a (fun v h => v = true /\ h = hw a).
Proof.
  intros Hw Hu Hb Hs. unfold wait_while_busy. replace (Z.to_nat 3000) with (S 2999) by reflexivity.
  generalize 2999%nat. intros n. cbn [busy_loop].
  eapply moves_bind; [apply (alt_status_moves _ (fun v h => v = seen (hw a) /\ h = hw a)); done|].
  intros ? ? [-> ->]. rewrite (seen_disk u) by done. rewrite Hs. change (DATA_STAT &! STA_BSY =? 0) with true.
  cbv iota. eapply moves_bind; [apply (alt_status_moves _ (fun v h => v = seen (hw a) /\ h = hw a));
    [by apply wired_hw|done]|].
  intros ? ? [-> ->]. rewrite (seen_disk u) by done. rewrite Hs. by apply moves_ret.
Qed.

(** *** Data *)

Lemma insw_moves n : forall a (F : list Z -> ide -> Prop),
  total (perform_all (replicate n Inw)) (hw a) F -> moves (insw n 0x1f0) a F.
Proof.
  induction n as [|n IH]; intros a F H.
  - by apply moves_ret.
  - cbn [insw]. change (replicate (S n) Inw) with (Inw :: replicate n Inw) in H. cbn [perform_all] in H.
    apply total_bind_inv in H. eapply (moves_bind _ _ _ (fun v h => total (perform_all (replicate n Inw)) h (fun vs => F (v :: vs)))).
    + apply on_hw_ok. eapply safe_mono; [exact H|]. intros v h Hh. exists h. split; [done|].
      apply total_bind_inv in Hh. exact Hh.
    + intros v h Hh. eapply moves_bind; [apply IH; exact Hh|]. intros vs h' Hv. by apply moves_ret.
Qed.

Lemma outsw_moves ws : forall a (F : ide -> Prop),
  total (perform_all (map Outw ws)) (hw a) (fun _ => F) -> moves (outsw 0x1f0 ws) a (fun _ => F).
Proof.
  induction ws as [|w ws IH]; intros a F H.
  - by apply moves_ret.
  - cbn [outsw]. cbn [map perform_all] in H. apply total_bind_inv in H.
    eapply (moves_bind _ _ _ (fun _ h => total (perform_all (map Outw ws)) h (fun _ => F))).
    + apply on_hw_ok, drop_value. eapply safe_mono; [exact H|]. intros v h Hh. exists h. split; [done|].
      apply total_bind_inv in Hh. exact Hh.
    + intros v h Hh. by apply IH.
Qed.

Lemma input_sector_moves a F :
  wired a -> total (perform_all (replicate 256 Inw)) (hw a) F -> moves input_sector a F.
Proof.
  intros Hw H. unfold input_sector. apply safe_bind. unfold runs at 1, reg. rewrite (w_base a Hw).
  change (0x1f0 + 0) with 0x1f0. by apply insw_moves.
Qed.
Lemma output_sector_moves ws a (F : ide -> Prop) :
  wired a -> total (perform_all (map Outw ws)) (hw a) (fun _ => F) -> moves (output_sector ws) a (fun _ => F).
Proof.
  intros Hw H. unfold output_sector. apply safe_bind. unfold runs at 1, reg. rewrite (w_base a Hw).
  change (0x1f0 + 0) with 0x1f0. by apply outsw_moves.
Qed.

(** ** Commands on the controller *)

Lemma command_frame u b v (m : st ide unit) c :
  cur_drive c = u -> bs (the_if u c) = Some b -> ide_command u (wrap 8 v) = m -> spares u m ->
  reaches (perform (Outb 0x1f7 v)) c (frame u c).
Proof.
  intros Hu Hb Em Hk. unfold reaches. rewrite (outb_command u b) by done. rewrite Em, bind_at.
  specialize (Hk c). by destruct (m c) as [[[] c']|].
Qed.

Lemma total_single x c (F : ide -> Prop) :
  total (perform_all [x]) c (fun vs c' => vs = [0] /\ F c') -> total (perform x) c (fun _ => F).
Proof. intros H. apply total_one_inv. eapply safe_mono; [exact H|]. by intros vs c' []. Qed.

Lemma read_command u b sec c :
  addressed_at u b sec 1 c -> 0 <= sec -> sec + 1 < 2 ^ 28 -> reachable b sec 1 ->
  total (perform (Outb 0x1f7 WIN_READ)) c (fun _ c' =>
    (at_lba u b (sec + 1) 0 c' /\ fetched u (view b sec 1) c' /\ signals u c c') /\ frame u c c').
Proof.
  intros Ha Hs Hs1 Hre. pose proof Ha as (Hc & Hcur & Hb & _). apply total_reaches.
  - apply total_single, (cmd_read_fun u b sec 1); [done|lia..|done].
  - apply (command_frame u b _ (cmd_read u false)); [done..|apply spares_read].
Qed.

Lemma read_data u b sec c :
  at_lba u b (sec + 1) 0 c -> fetched u (view b sec 1) c ->
  total (perform_all (replicate 256 Inw)) c (fun vs c' =>
    (vs = words (view b sec 1) /\ at_lba u b (sec + 1) 0 c' /\ idle u c') /\ frame u c c').
Proof.
  intros Ha Hf. apply total_reaches.
  - eapply read_block; [apply Ha..|done|]. by apply sector_read_end.
  - rewrite <- (l_cur _ _ _ _ _ Ha) at 1. by apply data_all_frame.
Qed.

Lemma write_command u b sec c :
  addressed_at u b sec 1 c -> reachable b sec 1 ->
  total (perform (Outb 0x1f7 WIN_WRITE)) c (fun _ c' =>
    (at_lba u b sec 1 c' /\ accepting u c') /\ frame u c c').
Proof.
  intros Ha Hre. pose proof Ha as (Hc & Hcur & Hb & _). apply total_reaches.
  - apply total_single, (cmd_write_fun u b sec 1); [done|lia..|done].
  - apply (command_frame u b _ (cmd_write u false)); [done..|apply spares_write].
Qed.

Lemma outw_access ws : forallb data_access (map Outw ws) = true.
Proof. by induction ws. Qed.

Lemma write_data u b sec ws c :
  at_lba u b sec 1 c -> accepting u c -> length ws = 256%nat -> 0 <= sec -> sec + 1 < 2 ^ 28 ->
  total (perform_all (map Outw ws)) c (fun _ c' =>
    (exists b1, at_lba u b1 (sec + 1) 0 c' /\ idle u c' /\ same_setup b b1 /\ signals u c c' /\
      forall j, medium b1 j = written b (medium b) sec 1 (unwords ws) j) /\ frame u c c').
Proof.
  intros Ha Hf Hw Hs Hs1. apply total_reaches.
  - eapply safe_mono; [by apply (write_block u b sec 0)|]. by intros vs c' (_ & H).
  - rewrite <- (l_cur _ _ _ _ _ Ha) at 1. apply data_all_frame, outw_access.
Qed.

(** Reading the status changes none of this. *)
Lemma at_lba_same u b sec k c c' :
  at_lba u b sec k c -> chan_ok any c' -> same_drives c c' -> at_lba u b sec k c'.
Proof.
  intros [] Hc Hs. pose proof (same_the u _ _ Hs) as E. destruct Hs as (_ & _ & Ec).
  constructor; rewrite ?E; try done. congruence.
Qed.
Lemma fetched_same u data c c' : fetched u data c -> same_drives c c' -> fetched u data c'.
Proof. intros Hf Hs. unfold fetched. by rewrite (same_the u _ _ Hs). Qed.
Lemma idle_same u c c' : idle u c -> same_drives c c' -> idle u c'.
Proof. intros Hi Hs. unfold idle. by rewrite (same_the u _ _ Hs). Qed.
Lemma frame_same u c c' : same_drives c c' -> frame u c c'.
Proof. intros Hs. unfold frame. rewrite !(same_the _ _ _ Hs). split_and!; [apply Hs|done..]. Qed.

(** The drives rest and may raise their line. *)
Definition quiescent c : Prop :=
  resting c /\ forall u, nz (cmd (the_if u c) &! IDE_CMD_DISABLE_IRQ) = false.

Lemma both_drives u (P : bool -> Prop) : P u -> P (negb u) -> forall v, P v.
Proof. destruct u; intros H1 H2 []; done. Qed.

(** A command that ends idle leaves the channel as it found it. *)
Lemma quiescent_after u c c1 c2 :
  quiescent c -> calm c c1 -> frame u c1 c2 -> chan_ok any c2 -> idle u c2 -> quiescent c2.
Proof.
  intros [[_ Hr] Hq] [_ Hcalm] (_ & Eo & Ec) Hc (_ & _ & Hi).
  assert (Hctl : forall v, cmd (the_if v c1) = cmd (the_if v c) /\ status (the_if v c1) = status (the_if v c))
    by (intros v; by destruct (Hcalm v) as [_ [= -> ->]]).
  destruct (Hctl u) as [E1 _], (Hctl (negb u)) as [E3 E4].
  split; [split; [done|]|]; apply (both_drives u).
  - by rewrite Hi.
  - rewrite Eo, E4. apply Hr.
  - rewrite Ec, E1. apply Hq.
  - rewrite Eo, E3. apply Hq.
Qed.

Lemma quiescent_signals u c c1 c2 : quiescent c -> calm c c1 -> signals u c1 c2 -> raised c2 = true.
Proof.
  intros [_ Hq] [_ Hcalm] Hs. apply Hs. destruct (Hcalm u) as [_ [= -> _]]. apply Hq.
Qed.

(** ** The driver *)

Definition expecting a : ata ide := set_chan (set_expecting true (chan a)) a.

Lemma issue_ok v a Q :
  wired a -> total (perform (Outb 0x1f7 v)) (hw a) (fun _ h => Q tt (with_hw h (expecting a))) ->
  total (issue_pio_command v) a Q.
Proof.
  intros Hw H. unfold issue_pio_command. apply safe_bind. unfold runs at 1, get. apply safe_bind.
  unfold runs at 1, lift, assert. rewrite (w_intr a Hw). apply safe_bind. unfold runs at 1, on_chan, modify.
  apply reg_out_ok; [by destruct Hw|lia|]. exact H.
Qed.

(** The driver is set up for the controller, and between two calls. *)
Record attached a : Prop := {
  t_wired : wired a;
  t_lock : lock (chan a) = false;
  t_wait : completion_wait (chan a) = 0;
  t_quiet : quiescent (hw a);
}.

(** After a call: the counter of drive [u] has changed. *)
Definition served u (f : ata_disk -> ata_disk) (h : ide) a : ata ide :=
  mk_ata (set_device u (f (device u (chan a))) (set_expecting true (chan a))) (intr_on a) (user a) h.

Lemma served_attached u f h a :
  attached a -> (forall d, dev_no (f d) = dev_no d) -> quiescent h -> attached (served u f h a).
Proof.
  intros [[W1 W2 W3 W4 W5] Hl Ht _] Hf Hq. constructor; [constructor|..]; try done.
  intros v. pose proof (W4 false). pose proof (W4 true). destruct u, v; simpl in *; by rewrite ?Hf.
Qed.

(** Holding the lock, in kernel mode or not. *)
Definition locked (m : bool) a : ata ide := mk_ata (set_lock true (chan a)) (intr_on a) m (hw a).

Lemma locked_wired m a : wired a -> wired (locked m a).
Proof. by intros []. Qed.
Lemma expecting_wired a : wired a -> wired (expecting a).
Proof. by intros []. Qed.
Lemma expecting_device u a : device u (chan (expecting a)) = device u (chan a).
Proof. by destruct u. Qed.

Lemma acquire_ok a Q : lock (chan a) = false -> Q tt (locked (user a) a) -> total channel_acquire a Q.
Proof.
  intros Hl H. unfold channel_acquire. apply safe_bind. unfold runs at 1, get. rewrite Hl. exact H.
Qed.

(** A command has left data for the driver, and an interrupt. *)
Definition answers u c : Prop :=
  chan_ok any c /\ cur_drive c = u /\ bs (the_if u c) <> None /\ status (the_if u c) = DATA_STAT /\
  raised c = true.

Lemma answer_ok {A} u v (k : bool -> st (ata ide) A) a F Q :
  wired a -> completion_wait (chan a) = 0 ->
  total (perform (Outb 0x1f7 v)) (hw a) (fun _ h => answers u h /\ F h) ->
  (forall h h', F h -> chan_ok any h' -> same_drives h h' -> total (k true) (with_hw h' (expecting a)) Q) ->
  total (issue_pio_command v;; completion_down;; ok ← wait_while_busy; k ok) a Q.
Proof.
  intros Hw Hn Hp Hk. apply safe_bind, issue_ok; [done|].
  eapply safe_mono; [exact Hp|]. intros ? h ((Hc & Hu & Hb & Hs & Hr) & HF).
  assert (Hw' : forall x, wired (with_hw x (expecting a))) by (intros x; by apply wired_hw, expecting_wired).
  apply safe_bind. eapply safe_mono; [by apply completion_down_ok|].
  intros ? ? (h1 & -> & Hc1 & Hs1). cbn [hw with_hw] in Hs1.
  apply safe_bind. eapply safe_mono; [apply (wait_while_busy_ok u)|].
  - apply wired_hw, Hw'.
  - cbn [hw with_hw]. by rewrite (proj2 (proj2 Hs1)).
  - cbn [hw with_hw]. by rewrite (same_the u _ _ Hs1).
  - cbn [hw with_hw]. by rewrite (same_the u _ _ Hs1).
  - intros ? ? (h2 & -> & -> & ->). by apply (Hk h h1).
Qed.

(** What a call leaves of the hardware: at rest, the disk of the other drive
    as it was, and that of drive [u] as [M] says. *)
Definition after u (M : displace D -> Prop) a (h : ide) : Prop :=
  quiescent h /\ core (the_if (negb u) h) = core (the_if (negb u) (hw a)) /\
  exists b', bs (the_if u h) = Some b' /\ M b'.

Lemma after_ok u b M a h1 h2 sec h :
  quiescent (hw a) -> calm (hw a) h1 -> frame u h1 h2 -> at_lba u b sec 0 h2 -> idle u h2 ->
  chan_ok any h -> same_drives h2 h ->
  (forall b', (forall k, medium b' k = medium b k) -> same_setup b b' -> M b') -> after u M a h.
Proof.
  intros Hq Hc1 Hfr Hat Hi Hc Hs HM. split_and!.
  - eapply (quiescent_after u _ h1); [done..| |done|by eapply idle_same].
    eapply frame_trans; [done|by apply frame_same].
  - rewrite (same_the _ _ _ Hs). destruct Hfr as (_ & -> & _). apply Hc1.
  - destruct (l_disk _ _ _ _ _ Hat) as (b' & E & Hm & Hset). exists b'.
    rewrite (same_the _ _ _ Hs). auto.
Qed.

(** The end of a call. *)
Lemma finish_read {A} u f m h a (v : A) :
  lock (chan a) = false ->
  (update_device u f;; switch_mode (user a);; channel_release;; mret v) (with_hw h (expecting (locked m a))) =
  Ret (v, served u f h a).
Proof. intros Hl. destruct a as [[] i um x]. simpl in Hl. subst. by destruct u. Qed.
Lemma finish_write u f h a :
  lock (chan a) = false ->
  (update_device u f;; channel_release) (with_hw h (expecting (locked (user a) a))) =
  Ret (tt, served u f h a).
Proof. intros Hl. destruct a as [[] i um x]. simpl in Hl. subst. by destruct u. Qed.

Lemma ata_read_ok u b sec a :
  attached a -> bs (the_if u (hw a)) = Some b -> 0 <= sec < capacity (device u (chan a)) ->
  sec + 1 < 2 ^ 28 -> reachable b sec 1 ->
  total (ata_disk_read u sec) a (fun ws a' => ws = words (view b sec 1) /\ exists h,
    a' = served u count_read h a /\
    after u (fun b' => (forall k, medium b' k = medium b k) /\ same_setup b b') a h).
Proof.
  intros [Hw Hl Ht Hq] Hb Hcap Hsec Hre. pose proof Hq as [Hr _].
  unfold ata_disk_read. apply safe_bind, acquire_ok; [done|].
  apply safe_bind. unfold runs at 1, switch_to_kernel. cbn [chan intr_on user hw locked].
  change (mk_ata _ _ false _) with (locked false a). set (a1 := locked false a).
  assert (Hw1 : wired a1) by (by apply locked_wired).
  apply safe_bind. unfold runs at 1, get. apply safe_bind.
  eapply safe_mono; [apply (select_sector_ok u b sec a1); [done..|by destruct u|lia]|].
  intros ? ? (h1 & -> & Hc1 & Ha1).
  apply (answer_ok u _ _ _ (fun h => at_lba u b (sec + 1) 0 h /\ fetched u (view b sec 1) h /\ frame u h1 h)).
  { by apply wired_hw. }
  { done. }
  { eapply safe_mono; [apply (read_command u b sec h1 Ha1); [lia|done..]|].
    intros ? h2 ((Hat & Hf & Hsig) & Hfr). split; [|done]. unfold answers.
    destruct (l_disk _ _ _ _ _ Hat) as (b2 & E2 & _). rewrite E2.
    split_and!; [apply Hat|apply Hat|done|apply Hf|by eapply quiescent_signals]. }
  intros h2 h3 (Hat & Hf & Hfr) Hc3 Hs3.
  apply safe_bind. unfold runs at 1. cbn [lift assert].
  apply safe_bind. eapply safe_mono; [apply input_sector_moves|].
  { by apply wired_hw, expecting_wired, wired_hw. }
  { apply (read_data u b sec h3); [by eapply at_lba_same|by eapply fetched_same]. }
  intros ws ? (h5 & -> & (-> & Hat5 & Hi5) & Hfr5).
  unfold runs. change (with_hw h5 _) with (with_hw h5 (expecting (locked false a))).
  rewrite finish_read by done. split; [done|]. exists h5. split; [done|].
  eapply (after_ok u b _ a h1 h5); [done..| |done|done|apply Hat5|done|auto].
  eapply frame_trans; [exact Hfr|]. eapply frame_trans; [by apply frame_same|done].
Qed.

Lemma ata_write_ok u b sec ws a :
  attached a -> bs (the_if u (hw a)) = Some b -> 0 <= sec < capacity (device u (chan a)) ->
  sec + 1 < 2 ^ 28 -> reachable b sec 1 -> length ws = 256%nat ->
  total (ata_disk_write u sec ws) a (fun _ a' => exists h, a' = served u count_write h a /\
    after u (fun b' => same_setup b b' /\
      forall k, medium b' k = written b (medium b) sec 1 (unwords ws) k) a h).
Proof.
  intros [Hw Hl Ht Hq] Hb Hcap Hsec Hre Hws. pose proof Hq as [Hr _].
  unfold ata_disk_write. apply safe_bind, acquire_ok; [done|].
  set (a1 := locked (user a) a). assert (Hw1 : wired a1) by (by apply locked_wired).
  apply safe_bind. unfold runs at 1, get. apply safe_bind.
  eapply safe_mono; [apply (select_sector_ok u b sec a1); [done..|by destruct u|lia]|].
  intros ? ? (h1 & -> & Hc1 & Ha1).
  assert (Hw' : forall x y, wired (with_hw x (expecting (with_hw y a1))))
    by (intros x y; by apply wired_hw, expecting_wired, wired_hw).
  apply safe_bind, issue_ok; [by apply wired_hw|].
  eapply safe_mono; [apply (write_command u b sec h1 Ha1); done|].
  intros ? h2 ((Hat & Hacc) & Hfr).
  apply safe_bind. eapply safe_mono; [apply (wait_while_busy_ok u)|].
  { apply Hw'. }
  { apply Hat. }
  { cbn [hw with_hw]. destruct (l_disk _ _ _ _ _ Hat) as (b2 & -> & _). done. }
  { apply Hacc. }
  intros ? ? (? & -> & -> & ->). apply safe_bind. unfold runs at 1. cbn [lift assert].
  apply safe_bind. eapply safe_mono; [apply output_sector_moves|].
  { apply (Hw' h2). }
  { apply (write_data u b sec ws h2); [done..|lia|done]. }
  intros ? ? (h3 & -> & (b1 & Hat3 & Hi3 & Hset & Hsig & Hm) & Hfr3).
  apply safe_bind. eapply safe_mono; [apply completion_down_ok|].
  { apply (Hw' h3). }
  { apply Hat3. }
  { done. }
  { done. }
  { apply Hsig. destruct Hfr as (_ & _ & ->). destruct (proj2 Hc1 u) as [_ [= -> _]]. apply Hq. }
  intros ? ? (h4 & -> & Hc4 & Hs4). cbn [hw with_hw] in Hs4.
  unfold runs. change (with_hw h4 _) with (with_hw h4 (expecting (locked (user a) a))).
  rewrite finish_write by done. exists h4. split; [done|].
  eapply (after_ok u b1 _ a h1 h3); [done..| |exact Hat3|done|done|done|].
  - by eapply frame_trans.
  - intros b' E1 E2. split; [by eapply same_setup_trans|]. intros k. by rewrite E1.
Qed.

(** ** Detection *)

(** The registers the driver reads. *)
Lemma some_disk c : chan_ok any c -> no_disks c = false.
Proof. intros Hc. unfold no_disks. pose proof (c_hda _ c Hc). by destruct (bs (if0 c)). Qed.

Lemma inb_shown c :
  chan_ok any c -> let s := the_if (cur_drive c) c in
  perform (Inb 0x1f1) c = Ret (error s, c) /\ perform (Inb 0x1f2) c = Ret (nsector s &! 0xff, c) /\
  perform (Inb 0x1f3) c = Ret (sector_ s, c) /\ perform (Inb 0x1f4) c = Ret (lcyl s, c) /\
  perform (Inb 0x1f5) c = Ret (hcyl s, c).
Proof.
  intros Hc s. unfold perform, ide_ioport_read, get. cbn [Z.land Pos.land Pos.Nsucc_double Pos.Ndouble Z.of_N].
  rewrite !bind_at. cbn [Z.eqb Pos.eqb]. by rewrite (some_disk c Hc).
Qed.

Lemma reg_in_run i a v :
  wired a -> 0 <= i <= 7 -> perform (Inb (0x1f0 + i)) (hw a) = Ret (v, hw a) ->
  moves (reg_in i) a (fun x h => x = v /\ h = hw a).
Proof. intros Hw Hi E. apply reg_in_moves; [done..|]. unfold runs. by rewrite E. Qed.

(** Writing the sector count and the low byte of the address. *)
Lemma nsect_write v c :
  chan_ok any c ->
  total (perform (Outb 0x1f2 v)) c (fun _ c' => calm c c' /\ cur_drive c' = cur_drive c /\
    forall u, nsector (the_if u c') = wrap 8 v).
Proof.
  intros Hc. pose proof (perform_ok (P := True) any any_stays I (Outb 0x1f2 v) c Hc) as Hch. revert Hch.
  unfold runs. rewrite (outb_regs 0x1f2 (fun s => set_hob_nsector (wrap 8 (nsector s)) s) set_nsector)
    by reflexivity.
  intros Hch. split; [split; [exact Hch|intros []; done]|]. split; [done|]. intros []; done.
Qed.

Lemma lbal_write v c :
  chan_ok any c ->
  total (perform (Outb 0x1f3 v)) c (fun _ c' => calm c c' /\ cur_drive c' = cur_drive c /\
    forall u, sector_ (the_if u c') = wrap 8 (wrap 8 v) /\ nsector (the_if u c') = nsector (the_if u c)).
Proof.
  intros Hc. pose proof (perform_ok (P := True) any any_stays I (Outb 0x1f3 v) c Hc) as Hch. revert Hch.
  unfold runs.
  rewrite (outb_regs 0x1f3 (fun s => set_hob_sector (sector_ s) s) (fun w => set_sector (wrap 8 w)))
    by reflexivity.
  intros Hch. split; [split; [exact Hch|intros []; done]|]. split; [done|]. intros []; done.
Qed.

Definition probed (v w : Z) c c' : Prop :=
  calm c c' /\ cur_drive c' = cur_drive c /\
  forall u, nsector (the_if u c') = wrap 8 v /\ sector_ (the_if u c') = wrap 8 (wrap 8 w).

Lemma probe_pair {A} v w (k : st (ata ide) A) a F :
  wired a -> chan_ok any (hw a) -> (forall h, probed v w (hw a) h -> moves k (with_hw h a) F) ->
  moves (reg_out 2 v;; reg_out 3 w;; k) a F.
Proof.
  intros Hw Hc Hk. eapply moves_bind; [apply reg_out_moves; [done|lia|by apply nsect_write]|].
  intros ? h (H1 & H2 & H3). eapply moves_bind.
  { apply reg_out_moves; [by apply wired_hw|lia|apply lbal_write, H1]. }
  intros ? h1 (H4 & H5 & H6). apply (Hk h1). split; [by eapply calm_trans|]. split; [by rewrite H5|].
  intros u. destruct (H6 u) as [-> ->]. by rewrite H3.
Qed.

Lemma probe_ok u a :
  wired a -> chan_ok any (hw a) -> moves (probe_device u) a (fun v h => v = true /\ calm (hw a) h).
Proof.
  intros Hw Hc. unfold probe_device. apply safe_bind. unfold runs at 1, get.
  eapply moves_bind; [by apply select_device_ok|]. intros ? h [[H1 _] H2].
  apply probe_pair; [by apply wired_hw|apply H1|]. intros h1 (C1 & _ & _).
  apply probe_pair; [by do 2 apply wired_hw|apply C1|]. intros h2 (C2 & _ & _).
  apply probe_pair; [by do 3 apply wired_hw|apply C2|]. intros h3 (C3 & _ & C4).
  destruct (inb_shown h3 (proj1 C3)) as (_ & E2 & E3 & _ & _).
  destruct (C4 (cur_drive h3)) as [N1 N2]. rewrite N1 in E2. rewrite N2 in E3.
  eapply moves_bind; [apply reg_in_run; [by do 4 apply wired_hw|lia|exact E2]|].
  intros ? ? [-> ->]. change (negb (wrap 8 85 &! 255 =? 85)) with false. cbv iota.
  eapply moves_bind; [apply reg_in_run; [by do 5 apply wired_hw|lia|exact E3]|].
  intros ? ? [-> ->]. apply moves_ret. split; [done|].
  eapply calm_trans; [exact H1|]. eapply calm_trans; [exact C1|]. by eapply calm_trans.
Qed.

(** *** Reset *)

Definition same_core c c' : Prop := chan_ok any c' /\ forall u, core (the_if u c') = core (the_if u c).

Lemma same_core_trans c c1 c2 : same_core c c1 -> same_core c1 c2 -> same_core c c2.
Proof. intros [_ H1] [Hc H2]. split; [done|]. intros u. by rewrite H2. Qed.
Lemma calm_core c c' : calm c c' -> same_core c c'.
Proof. intros [Hc H]. split; [done|]. intros u. apply H. Qed.

(** What a write to the control register does to a drive. *)
Definition control (was now : bool) (v : Z) s : IDEState :=
  set_cmd v (if negb was && now then set_error 0x01 (set_status (BUSY_STAT |! SEEK_STAT) s)
             else if was && negb now then ide_set_signature (set_status (READY_STAT |! SEEK_STAT) s)
             else s).

Lemma control_run v c :
  let f := control (nz (cmd (if0 c) &! IDE_CMD_RESET)) (nz (wrap 8 v &! IDE_CMD_RESET)) (wrap 8 (wrap 8 v)) in
  perform (Control v) c = Ret (0, mk_ide (mach c) (f (if0 c)) (f (if1 c)) (cur_drive c)).
Proof.
  intros f. unfold perform, ide_cmd_write. rewrite !bind_at. unfold get. subst f. unfold control.
  rewrite bind_at.
  destruct (nz (cmd (if0 c) &! IDE_CMD_RESET)), (nz (wrap 8 v &! IDE_CMD_RESET)); reflexivity.
Qed.

Lemma control_core w n v s : core (control w n v s) = core s /\ cmd (control w n v s) = v.
Proof.
  destruct w, n; try done. unfold control, ide_set_signature. cbn [negb andb].
  by destruct (is_null _).
Qed.

Lemma control_ok v c (R : IDEState -> IDEState -> Prop) :
  chan_ok any c ->
  (forall s, R s (control (nz (cmd (if0 c) &! IDE_CMD_RESET)) (nz (wrap 8 v &! IDE_CMD_RESET)) (wrap 8 (wrap 8 v)) s)) ->
  total (perform (Control v)) c (fun _ c' => same_core c c' /\
    forall u, cmd (the_if u c') = wrap 8 (wrap 8 v) /\ R (the_if u c) (the_if u c')).
Proof.
  intros Hc HR. pose proof (perform_ok (P := True) any any_stays I (Control v) c Hc) as Hch. revert Hch.
  unfold runs. rewrite control_run. intros Hch.
  split; [split; [exact Hch|intros []; apply control_core]|].
  intros []; (split; [apply control_core|apply HR]).
Qed.

Lemma reg_ctl_moves v a (F : ide -> Prop) :
  wired a -> total (perform (Control v)) (hw a) (fun _ => F) -> moves (reg_ctl v) a (fun _ => F).
Proof.
  intros Hw H. unfold reg_ctl. apply safe_bind. unfold runs at 1, get. rewrite (w_alt a Hw). apply on_hw_ok.
  unfold outb, ide_ports. cbn [Z.eqb Pos.eqb]. apply drop_value.
  replace (perform (Control (wrap 8 v))) with (perform (Control v)).
  - eapply safe_mono; [exact H|]. intros ? h Hh. by exists h.
  - unfold perform. by rewrite (wrap_id 8 (wrap 8 v)) by (apply wrap_inU; lia).
Qed.

(** A drive after a reset: the signature of a disk, or of nothing. *)
Definition fresh s : Prop :=
  cmd s = 0 /\ status s = READY_STAT |! SEEK_STAT /\
  shown s = (1, 1, 1, (if is_null (bs s) then 0xff else 0), (if is_null (bs s) then 0xff else 0)).

Lemma signature_fresh s :
  error s = 0x01 -> fresh (control true false 0 s).
Proof.
  intros He. unfold control, ide_set_signature. cbn [negb andb].
  unfold fresh, shown. destruct (is_null (bs s)) eqn:E;
    cbn [bs set_status set_select set_nsector set_sector]; rewrite E; cbn [negb]; cbv iota;
    (split; [done|]; split; [done|]); cbn [bs set_cmd set_hcyl set_lcyl set_sector set_nsector set_select
      set_status error nsector sector_ lcyl hcyl]; by rewrite E, He.
Qed.

Lemma soft_reset {A} (k : st (ata ide) A) a F :
  wired a -> chan_ok any (hw a) ->
  (forall h, same_core (hw a) h -> (forall u, fresh (the_if u h)) -> moves k (with_hw h a) F) ->
  moves (reg_ctl 0;; on_hw (delay 10000);; reg_ctl CTL_SRST;; on_hw (delay 10000);; reg_ctl 0;;
         on_hw (delay 150000000);; k) a F.
Proof.
  intros Hw Hc Hk.
  eapply moves_bind; [apply reg_ctl_moves; [done|by apply (control_ok _ _ (fun _ _ => True))]|].
  intros ? h1 [C1 R1].
  eapply moves_bind; [by apply (delay_moves _ _ (fun _ h => h = h1))|]. intros ? ? ->.
  eapply moves_bind; [apply reg_ctl_moves; [by do 2 apply wired_hw|apply (control_ok _ _ (fun _ s' => error s' = 1))]|].
  { apply C1. }
  { cbn [hw with_hw]. destruct (R1 false) as [E1 _]. cbn [the_if] in E1. by rewrite E1. }
  intros ? h2 [C2 R2].
  eapply moves_bind; [by apply (delay_moves _ _ (fun _ h => h = h2))|]. intros ? ? ->.
  eapply moves_bind; [apply reg_ctl_moves; [by do 4 apply wired_hw|apply (control_ok _ _ (fun s s' => error s = 1 -> fresh s'))]|].
  { apply C2. }
  { cbn [hw with_hw]. destruct (R2 false) as [E2 _]. cbn [the_if] in E2. rewrite E2. apply signature_fresh. }
  intros ? h3 [C3 R3].
  eapply moves_bind; [by apply (delay_moves _ _ (fun _ h => h = h3))|]. intros ? ? ->.
  apply (Hk h3).
  - eapply same_core_trans; [exact C1|]. by eapply same_core_trans.
  - intros u. apply (R3 u), (R2 u).
Qed.

Lemma gentle_fresh c c' : gentle c c' -> (forall u, fresh (the_if u c)) -> forall u, fresh (the_if u c').
Proof.
  intros [[_ H1] H2] Hf u. destruct (H1 u) as [[= E1 _ _] [= E2 E3]]. unfold fresh.
  rewrite (H2 u), E1, E2, E3. apply Hf.
Qed.

Lemma fresh_quiescent c : chan_ok any c -> (forall u, fresh (the_if u c)) -> quiescent c.
Proof.
  intros Hc Hf. split; [split; [done|]|]; intros u; destruct (Hf u) as (E1 & E2 & _); by rewrite ?E1, ?E2.
Qed.

Lemma wait_while_busy_rest a :
  wired a -> resting (hw a) -> moves wait_while_busy a (fun _ h => h = hw a).
Proof.
  intros Hw Hr. unfold wait_while_busy. replace (Z.to_nat 3000) with (S 2999) by reflexivity.
  generalize 2999%nat. intros n. cbn [busy_loop].
  eapply moves_bind; [by apply (alt_status_moves _ (fun v h => v = seen (hw a) /\ h = hw a))|].
  intros ? ? [-> ->].
  assert (E : seen (hw a) &! STA_BSY = 0).
  { change STA_BSY with (STA_WORK &! STA_BSY). by rewrite Z.land_assoc, seen_resting, Z.land_0_l. }
  rewrite E. cbn [Z.eqb].
  eapply moves_bind; [by apply (alt_status_moves _ (fun v h => h = hw a)); [apply wired_hw|]|].
  intros ? ? ->. by apply moves_ret.
Qed.

Lemma signature_ok a :
  wired a -> chan_ok any (hw a) -> (forall u, fresh (the_if u (hw a))) ->
  moves (signature_loop (Z.to_nat 3000)) a (fun _ h => h = hw a).
Proof.
  intros Hw Hc Hf. replace (Z.to_nat 3000) with (S 2999) by reflexivity.
  generalize 2999%nat. intros n. cbn [signature_loop].
  destruct (inb_shown (hw a) Hc) as (_ & E2 & E3 & _ & _).
  destruct (Hf (cur_drive (hw a))) as (_ & _ & [= _ N1 N2 _ _]). rewrite N1 in E2. rewrite N2 in E3.
  eapply moves_bind; [apply (reg_in_run 2 a (1 &! 255)); [done|lia|exact E2]|]. intros ? ? [-> ->].
  change (1 &! 255 =? 1) with true. cbv iota.
  eapply (moves_bind _ _ _ (fun t h => t = true /\ h = hw a)).
  { eapply moves_bind; [apply (reg_in_run 3); [by apply wired_hw|lia|exact E3]|]. intros ? ? [-> ->]. by apply moves_ret. }
  intros ? ? [-> ->]. by apply moves_ret.
Qed.

Lemma reset_channel_ok a :
  wired a -> chan_ok any (hw a) ->
  moves reset_channel a (fun _ h => same_core (hw a) h /\ forall u, fresh (the_if u h)).
Proof.
  intros Hw Hc. unfold reset_channel.
  eapply moves_bind; [by apply probe_ok|]. intros ? h1 [-> C1].
  eapply moves_bind; [apply probe_ok; [by apply wired_hw|apply C1]|]. intros ? h2 [-> C2].
  apply soft_reset; [by do 2 apply wired_hw|apply C2|]. intros h3 C3 F3. cbn [hw with_hw] in *.
  eapply (moves_bind _ _ _ (fun _ h => gentle h3 h)).
  { apply safe_bind. unfold runs at 1, get.
    eapply moves_bind; [apply (select_device_ok false (with_hw h3 a)); [by apply wired_hw|apply C3]|].
    intros ? h4 [G4 _]. eapply moves_bind; [apply wait_while_busy_rest|].
    - by do 4 apply wired_hw.
    - apply fresh_quiescent; [apply G4|]. by eapply gentle_fresh.
    - intros ? ? ->. by apply moves_ret. }
  intros ? h4 G4. apply safe_bind. unfold runs at 1, get.
  eapply moves_bind; [apply (select_device_ok true (with_hw h4 a)); [by apply wired_hw|apply G4]|].
  intros ? h5 [G5 _]. cbn [hw with_hw] in G5.
  assert (F5 : forall u, fresh (the_if u h5)) by (eapply gentle_fresh; [exact G5|by eapply gentle_fresh]).
  eapply moves_bind; [apply signature_ok; [by do 5 apply wired_hw|apply G5|exact F5]|]. intros ? ? ->.
  eapply moves_bind; [apply wait_while_busy_rest; [by do 6 apply wired_hw|]|].
  { apply fresh_quiescent; [apply G5|exact F5]. }
  intros ? ? ->. apply moves_ret. split; [|exact F5]. cbn [hw with_hw].
  eapply same_core_trans; [apply calm_core, C1|]. eapply same_core_trans; [apply calm_core, C2|].
  eapply same_core_trans; [exact C3|]. eapply same_core_trans; [apply calm_core, G4|apply calm_core, G5].
Qed.

(** The type of drive [u]. *)
Definition typed u (t : bool) a : ata ide :=
  set_chan (set_device u (set_is_ata t (device u (chan a))) (chan a)) a.

Lemma typed_wired u t a : wired a -> wired (typed u t a).
Proof.
  intros [W1 W2 W3 W4 W5]. constructor; try done. intros v. pose proof (W4 false). pose proof (W4 true).
  by destruct u, v.
Qed.

Definition has_disk u c : bool := negb (is_null (bs (the_if u c))).

Lemma seen_fresh u c :
  chan_ok any c -> cur_drive c = u -> (forall v, fresh (the_if v c)) ->
  seen c = if has_disk u c then READY_STAT |! SEEK_STAT else 0.
Proof.
  intros Hc Hu Hf. destruct (Hf u) as (_ & E & _). unfold has_disk. destruct (bs (the_if u c)) eqn:Eb; simpl.
  - rewrite (seen_disk u) by congruence. exact E.
  - unfold seen, no_drive. rewrite Hu, Eb. destruct u; [by rewrite orb_true_r|].
    by destruct (c_hda _ c Hc).
Qed.

Lemma check_device_type_ok u a :
  wired a -> chan_ok any (hw a) -> (forall v, fresh (the_if v (hw a))) ->
  total (check_device_type u) a (fun v a' => v = true /\ exists h,
    a' = with_hw h (typed u (has_disk u (hw a)) a) /\ gentle (hw a) h).
Proof.
  intros Hw Hc Hf. unfold check_device_type. apply safe_bind. unfold runs at 1, get. apply safe_bind.
  eapply safe_mono; [by apply select_device_ok|]. intros ? ? (h & -> & G & Hu).
  pose proof (gentle_fresh _ _ G Hf) as F. pose proof (proj1 (proj1 G)) as Hch.
  destruct (inb_shown h Hch) as (E1 & _ & _ & E4 & E5). destruct (F u) as (_ & _ & [= N1 N2 N3 N4 N5]).
  rewrite Hu in E1, E4, E5. rewrite N1 in E1. rewrite N4 in E4. rewrite N5 in E5.
  apply safe_bind. eapply safe_mono; [apply (reg_in_run 1); [by apply wired_hw|lia|exact E1]|].
  intros ? ? (? & -> & -> & ->).
  apply safe_bind. eapply safe_mono; [apply (reg_in_run 4); [by do 2 apply wired_hw|lia|exact E4]|].
  intros ? ? (? & -> & -> & ->).
  apply safe_bind. eapply safe_mono; [apply (reg_in_run 5); [by do 3 apply wired_hw|lia|exact E5]|].
  intros ? ? (? & -> & -> & ->).
  apply safe_bind. eapply safe_mono; [apply status_moves; [by do 4 apply wired_hw|exact Hch]|].
  intros ? ? (h2 & -> & -> & Hc2 & Hs2). cbn [hw with_hw] in *.
  assert (G2 : gentle (hw a) h2) by (eapply gentle_trans; [exact G|by apply gentle_same]).
  rewrite (seen_fresh u h Hch Hu F).
  assert (Eh : has_disk u h = has_disk u (hw a)) by (unfold has_disk; by rewrite (core_bs _ _ u (proj1 G))).
  rewrite Eh. replace (is_null (bs (the_if u h))) with (negb (has_disk u h)) by (unfold has_disk; by destruct (is_null _)).
  rewrite Eh. destruct (has_disk u (hw a)); (split; [reflexivity|]); exists h2; (split; [|exact G2]); by destruct u.
Qed.

(** *** Identification *)

Lemma of_bytes_wrap v : of_bytes [wrap 8 v; wrap 8 (v >> 8)] = wrap 16 v.
Proof.
  cbn [of_bytes]. rewrite Z.shiftl_0_l, Z.lor_0_r. apply Z.bits_inj'. intros i Hi.
  rewrite Z.lor_spec, testbit_field, !testbit_wrap by lia.
  change (8 + 8) with 16. destruct (Z.ltb_spec i 8), (Z.leb_spec 8 i), (Z.ltb_spec i 16); try lia;
    simpl; by rewrite ?orb_false_r.
Qed.

Lemma wrap_halves v : wrap 16 v |! (wrap 16 (v >> 16) << 16) = wrap 32 v.
Proof.
  apply Z.bits_inj'. intros i Hi. rewrite Z.lor_spec, !testbit_wrap, Z.shiftl_spec by lia.
  destruct (Z.ltb_spec i 16) as [H1|H1], (Z.ltb_spec i 32) as [H2|H2]; try lia; simpl.
  - rewrite (Z.testbit_neg_r _ (i - 16)) by lia. by rewrite orb_false_r.
  - rewrite testbit_wrap, Z.shiftr_spec by lia. rewrite (proj2 (Z.ltb_lt _ _)) by lia. simpl. f_equal. lia.
  - rewrite testbit_wrap by lia. by rewrite (proj2 (Z.ltb_ge _ _)) by lia.
Qed.

Lemma words_lookup i : forall l x y,
  l !! (2 * i)%nat = Some x -> l !! (2 * i + 1)%nat = Some y -> words l !! i = Some (of_bytes [x; y]).
Proof.
  induction i as [|i IH]; intros l x y Hx Hy; (destruct l as [|z [|z' l]]; [done..|]).
  - simpl in *. by simplify_eq.
  - replace (2 * S i)%nat with (S (S (2 * i))) in Hx, Hy by lia. by apply (IH l).
Qed.

Lemma put_le16_other blk i v j : j <> 2 * i -> j <> 2 * i + 1 -> geti (put_le16 blk i v) j = geti blk j.
Proof. intros H1 H2. unfold put_le16. by rewrite !geti_seti_ne. Qed.
Lemma put_le16_same (blk : list Z) i v :
  0 <= i -> 2 * i + 1 < lenZ blk ->
  geti (put_le16 blk i v) (2 * i) = Some (wrap 8 v) /\ geti (put_le16 blk i v) (2 * i + 1) = Some (wrap 8 (v >> 8)).
Proof.
  intros H1 H2. unfold put_le16. split.
  - rewrite geti_seti_ne by lia. apply geti_seti_eq. lia.
  - apply geti_seti_eq. rewrite lenZ_seti. lia.
Qed.
Lemma put_all_other l : forall blk k,
  forallb (fun p => negb (p.1 =? k)) l = true ->
  geti (put_all blk l) (2 * k) = geti blk (2 * k) /\ geti (put_all blk l) (2 * k + 1) = geti blk (2 * k + 1).
Proof.
  induction l as [|[i v] l IH]; intros blk k; [done|]. cbn [forallb fst]. rewrite andb_true_iff, negb_true_iff, Z.eqb_neq.
  intros [Hi Hl]. cbn [put_all fold_left]. destruct (IH (put_le16 blk i v) k Hl) as [E1 E2]. unfold put_all in *.
  rewrite E1, E2, !put_le16_other by lia. done.
Qed.

(** The words that hold the capacity. *)
Lemma identify_split s blk :
  identify_block s = Ret blk -> exists X l,
    blk = put_all (put_le16 (put_le16 X 60 (nb_sectors s)) 61 (nb_sectors s >> 16)) l /\
    forallb (fun p => negb (p.1 =? 60)) l = true /\ forallb (fun p => negb (p.1 =? 61)) l = true.
Proof.
  unfold identify_block. destruct (vsnprintf _ _ _ _) as [[n buf]|]; [|done].
  cbv beta iota zeta delta [mbind res_bind mret res_ret]. intros E.
  match type of E with Ret (put_all ?X (_ :: _ :: ?l)) = _ =>
    exists X, l; split; [|split; reflexivity];
    change (Ret (put_all (put_le16 (put_le16 X 60 (nb_sectors s)) 61 (nb_sectors s >> 16)) l) = Ret blk) in E
  end.
  revert E. match goal with |- Ret ?x = _ -> _ => generalize x end. by intros x [= ->].
Qed.

Lemma put_le16_length blk i v : lenZ (put_le16 blk i v) = lenZ blk.
Proof. unfold put_le16. by rewrite !lenZ_seti. Qed.
Lemma put_all_length l : forall blk, lenZ (put_all blk l) = lenZ blk.
Proof.
  induction l as [|[i v] l IH]; intros blk; [done|]. cbn [put_all fold_left]. unfold put_all in IH.
  by rewrite IH, put_le16_length.
Qed.

Lemma words_at (blk : list Z) k v :
  0 <= k -> geti blk (2 * k) = Some (wrap 8 v) -> geti blk (2 * k + 1) = Some (wrap 8 (v >> 8)) ->
  geti (words blk) k = Some (wrap 16 v).
Proof.
  unfold geti. intros Hk. rewrite !(proj2 (Z.ltb_ge _ _)) by lia. intros H1 H2. rewrite <- of_bytes_wrap.
  apply words_lookup.
  - by replace (2 * Z.to_nat k)%nat with (Z.to_nat (2 * k)) by lia.
  - by replace (2 * Z.to_nat k + 1)%nat with (Z.to_nat (2 * k + 1)) by lia.
Qed.

Lemma identify_capacity s blk :
  identify_block s = Ret blk -> length blk = 512%nat ->
  geti (words blk) 60 = Some (wrap 16 (nb_sectors s)) /\
  geti (words blk) 61 = Some (wrap 16 (nb_sectors s >> 16)).
Proof.
  intros (X & l & -> & H60 & H61)%identify_split Hl.
  assert (HX : lenZ X = 512).
  { change 512 with (Z.of_nat 512). rewrite <- Hl. symmetry.
    fold (lenZ (put_all (put_le16 (put_le16 X 60 (nb_sectors s)) 61 (nb_sectors s >> 16)) l)).
    by rewrite put_all_length, !put_le16_length. }
  destruct (put_all_other l (put_le16 (put_le16 X 60 (nb_sectors s)) 61 (nb_sectors s >> 16)) 60 H60) as [E1 E2].
  destruct (put_all_other l (put_le16 (put_le16 X 60 (nb_sectors s)) 61 (nb_sectors s >> 16)) 61 H61) as [E3 E4].
  rewrite !(put_le16_other _ 61) in E1, E2 by lia.
  destruct (put_le16_same X 60 (nb_sectors s)) as [F1 F2]; [lia..|].
  destruct (put_le16_same (put_le16 X 60 (nb_sectors s)) 61 (nb_sectors s >> 16)) as [F3 F4];
    [lia|rewrite put_le16_length; lia|].
  split; apply words_at; try lia; congruence.
Qed.

(** What the drive answers to IDENTIFY: what it saved, or else its
    description. *)
Definition answer s : res (list Z) :=
  match saved s with Some blk => Ret blk | None => identify_block s end.

(** Words 60 and 61 of a description give the size. *)
Definition tells_size s blk : Prop :=
  geti (words blk) 60 = Some (wrap 16 (nb_sectors s)) /\
  geti (words blk) 61 = Some (wrap 16 (nb_sectors s >> 16)).

(** A saved answer, if there is one, gives the size. *)
Definition honest s : Prop := forall blk, saved s = Some blk -> tells_size s blk.

Lemma answer_tells {i} s :
  drive_ok any i s -> honest s ->
  exists blk, answer s = Ret blk /\ length blk = 512%nat /\ tells_size s blk.
Proof.
  intros Hs Hh. unfold answer, honest, saved in *. destruct (identify_set s).
  - exists (identify_data s). split; [done|]. split; [apply (k_id any _ s Hs)|]. by apply Hh.
  - destruct (identify_block_ok any s Hs) as (blk & E & Hl & _). exists blk. split; [done|].
    split; [done|]. by apply identify_capacity.
Qed.

Lemma core_honest s s' : core s' = core s -> honest s -> honest s'.
Proof. intros [= _ E2 E3]. unfold honest, tells_size. by rewrite E2, E3. Qed.

(** The buffer of drive [u] holds its description. *)
Definition described u blk c : Prop :=
  data_ptr (the_if u c) = 0 /\ data_end (the_if u c) = 512 /\
  end_transfer_func (the_if u c) = ide_transfer_stop_ /\ take 512 (io_buffer (the_if u c)) = blk /\
  status (the_if u c) = DATA_STAT.

(** What [u] shows afterwards, but that it has been identified. *)
Definition same_disk u c c' : Prop :=
  bs (the_if u c') = bs (the_if u c) /\ nb_sectors (the_if u c') = nb_sectors (the_if u c).

Lemma identify_run u b blk c :
  chan_ok any c -> bs (the_if u c) = Some b ->
  answer (the_if u c) = Ret blk -> length blk = 512%nat ->
  total (cmd_identify u) c (fun _ c' => described u blk c' /\ same_disk u c c' /\ signals u c c').
Proof.
  intros Hc Hb Eb Hl. pose proof (chan_if _ c u Hc) as Hs.
  unfold cmd_identify. apply safe_bind, safe_get. rewrite Hb. cbn [is_null negb].
  assert (Hbuf : take 512 (blk ++ drop (length blk) (io_buffer (the_if u c))) = blk)
    by (rewrite take_app_le by lia; apply take_ge; lia).
  apply safe_bind. unfold runs at 1, ide_identify. rewrite bind_at, get_bind.
  unfold answer, saved in Eb. destruct (identify_set (the_if u c)).
  1: injection Eb as ->.
  2: rewrite bind_at; unfold lift; rewrite Eb.
  all: repeat rewrite ?upd_bind, ?upd_run, ?with_if_twice, ?with_if_same.
  all: eapply safe_mono; [apply irq_frame; rewrite ?with_if_same; [destruct u; apply Hc|apply Hs..]|].
  all: intros ? c' (_ & Hsd & Hsig); pose proof (same_the u _ _ Hsd) as E; rewrite with_if_same in E.
  all: unfold described, same_disk; rewrite E.
  all: split; [by split_and!|split; [done|]]; unfold signals in *; by rewrite with_if_same in Hsig.
Qed.

Lemma identify_command u b blk c :
  chan_ok any c -> cur_drive c = u -> bs (the_if u c) = Some b ->
  answer (the_if u c) = Ret blk -> length blk = 512%nat ->
  total (perform (Outb 0x1f7 WIN_IDENTIFY)) c (fun _ c' =>
    ((described u blk c' /\ same_disk u c c' /\ signals u c c') /\ frame u c c') /\ chan_ok any c').
Proof.
  intros Hc Hu Hb Eb Hl. apply total_chan; [apply total_reaches|].
  - unfold runs. rewrite (outb_command u b) by done. rewrite bind_at.
    change (@ide_command D HD u (wrap 8 WIN_IDENTIFY)) with (@cmd_identify D u).
    pose proof (identify_run u b blk c Hc Hb Eb Hl) as Hr. unfold runs in Hr.
    by destruct (cmd_identify u c) as [[[] c']|].
  - apply (command_frame u b _ (cmd_identify u)); [done..|apply spares_identify].
  - by apply (perform_ok any any_stays I).
Qed.

Lemma identify_data_ok u blk c :
  chan_ok any c -> cur_drive c = u -> described u blk c ->
  total (perform_all (replicate 256 Inw)) c (fun vs c' =>
    ((vs = words blk /\ idle u c' /\ same_disk u c c') /\ frame u c c') /\ chan_ok any c').
Proof.
  intros Hc Hu (Hp & He & Hf & Hd & Hs). pose proof (k_buf any u _ (chan_if _ c u Hc)) as Hl.
  apply total_chan; [apply total_reaches|].
  - unfold runs. rewrite (read_rest 255) by (rewrite Hu, ?Hp, ?He, ?Hl; lia). rewrite Hu, Hp.
    unfold call_end_transfer. rewrite get_bind, Hf, upd_run. cbn [ending]. split; [by rewrite <- Hd|].
    unfold idle, same_disk. rewrite with_if_same. split_and!; try done.
    change (status (the_if u c) &~ DRQ_STAT = READY_STAT |! SEEK_STAT). by rewrite Hs.
  - rewrite <- Hu at 1. by apply data_all_frame.
  - by apply perform_all_ok; [apply any_stays| |].
Qed.

(** The capacity of drive [u]. *)
Definition measured u (n : Z) h a : ata ide :=
  with_hw h (set_chan (set_device u (set_capacity n (device u (chan a))) (set_expecting true (chan a))) a).

Lemma identify_ata_device_ok u b a :
  attached a -> is_ata (device u (chan a)) = true -> bs (the_if u (hw a)) = Some b ->
  honest (the_if u (hw a)) ->
  total (identify_ata_device u) a (fun _ a' => exists h,
    a' = measured u (wrap 32 (nb_sectors (the_if u (hw a)))) h a /\ quiescent h /\
    same_disk u (hw a) h /\ core (the_if (negb u) h) = core (the_if (negb u) (hw a))).
Proof.
  intros [Hw Hl Ht Hq] Hata Hb Hid. unfold identify_ata_device. apply safe_bind. unfold runs at 1, get.
  rewrite Hata. apply safe_bind. unfold runs at 1. cbn [lift assert].
  apply safe_bind. eapply safe_mono; [by apply select_device_wait_ok; [|apply Hq]|].
  intros ? ? (h1 & -> & C1 & Hu). pose proof (proj1 C1) as Hc1.
  destruct (proj2 C1 u) as [Ecore _]. pose proof Ecore as [= E1 _ E3].
  destruct (answer_tells (the_if u h1) (chan_if _ h1 u Hc1) (core_honest _ _ Ecore Hid))
    as (blk & Eblk & Hblk & W60 & W61).
  apply (answer_ok u _ _ _ (fun h => chan_ok any h /\ cur_drive h = u /\ described u blk h /\ same_disk u h1 h /\ frame u h1 h)).
  { by apply wired_hw. }
  { done. }
  { eapply safe_mono; [apply (identify_command u b blk h1); [done|done|by rewrite E1|done|done]|].
    intros ? h2 (((Hd & Hsd & Hsig) & Hfr) & Hc2). pose proof (proj1 Hfr) as Ecur. split; [|by rewrite Ecur].
    unfold answers. rewrite (proj1 Hsd), E1, Hb, Ecur. split_and!; [done..|apply Hd|by eapply quiescent_signals]. }
  intros h2 h3 (Hc2 & Hu2 & Hd & Hsd & Hfr) Hc3 Hs3. cbn [negb]. cbv iota.
  apply safe_bind. eapply safe_mono; [apply input_sector_moves|].
  { by apply wired_hw, expecting_wired, wired_hw. }
  { apply (identify_data_ok u blk h3); [done|by rewrite (proj2 (proj2 Hs3))|].
    unfold described. by rewrite (same_the u _ _ Hs3). }
  intros ? ? (h4 & -> & ((-> & Hi4 & Hsd4) & Hfr4) & Hc4).
  apply safe_bind. unfold runs at 1, lift. rewrite W60. apply safe_bind. unfold runs at 1, lift. rewrite W61.
  cbn [the]. rewrite wrap_halves, E3. exists h4. split; [by destruct u|].
  assert (Hfr' : frame u h1 h4).
  { eapply frame_trans; [exact Hfr|]. eapply frame_trans; [by apply frame_same|done]. }
  split_and!.
  - by eapply quiescent_after.
  - unfold same_disk in *. rewrite (same_the u _ _ Hs3) in Hsd4. destruct Hsd4 as [-> ->], Hsd as [-> ->]. by rewrite E1, E3.
  - destruct Hfr' as (_ & -> & _). apply C1.
Qed.

(** *** Registration *)

(** Drive [u] as the driver should know it. *)
Definition known u (c : ide) (d : ata_disk) : Prop :=
  is_ata d = has_disk u c /\ (has_disk u c = true -> capacity d = wrap 32 (nb_sectors (the_if u c))).

(** The disk of each drive, whether or not it has been identified. *)
Definition same_disks c c' : Prop := forall u, same_disk u c c'.

Definition start a : ata ide := set_chan new_channel a.

Lemma start_wired a : intr_on a = true -> wired (start a).
Proof. intros Hi. constructor; try done. by intros []. Qed.

Lemma measured_attached u n h a : attached a -> quiescent h -> attached (measured u n h a).
Proof.
  intros [[W1 W2 W3 W4 W5] Hl Ht _] Hq. constructor; [constructor|..]; try done.
  intros v. pose proof (W4 false). pose proof (W4 true). by destruct u, v.
Qed.

(** Reset and classification of both drives. *)
Definition classified (t : bool) h a : ata ide := with_hw h (typed true t (typed false true (start a))).

Lemma on_chan_ok f a Q : Q tt (set_chan (f (chan a)) a) -> total (on_chan f) a Q.
Proof. done. Qed.

Lemma typed_hw u t h a : typed u t (with_hw h a) = with_hw h (typed u t a).
Proof. done. Qed.

Lemma check_ok {A} u (k : bool -> st (ata ide) A) a Q :
  wired a -> chan_ok any (hw a) -> (forall v, fresh (the_if v (hw a))) ->
  (forall h, gentle (hw a) h -> (forall v, fresh (the_if v h)) ->
    total (k true) (with_hw h (typed u (has_disk u (hw a)) a)) Q) ->
  total (check_device_type u ≫= k) a Q.
Proof.
  intros Hw Hc Hf Hk. apply safe_bind. eapply safe_mono; [by apply check_device_type_ok|].
  intros v a' (-> & h & -> & G). apply Hk; [done|]. by eapply gentle_fresh.
Qed.

Lemma first_disk c : chan_ok any c -> has_disk false c = true.
Proof. intros Hc. unfold has_disk. pose proof (c_hda _ c Hc). cbn [the_if]. by destruct (bs (if0 c)). Qed.

Lemma check_both_ok {A} (k : st (ata ide) A) a Q :
  wired a -> chan_ok any (hw a) -> (forall v, fresh (the_if v (hw a))) ->
  (forall h, gentle (hw a) h -> (forall v, fresh (the_if v h)) ->
    total k (with_hw h (typed true (has_disk true (hw a)) (typed false true a))) Q) ->
  total (slave ← check_device_type false;
         (if slave : bool then check_device_type true;; mret tt else mret tt);; k) a Q.
Proof.
  intros Hw Hc Hf Hk. apply check_ok; [done..|]. intros h G F. rewrite first_disk by done.
  assert (E : has_disk true h = has_disk true (hw a)).
  { unfold has_disk. by rewrite (core_bs _ _ true (proj1 G)). }
  apply safe_bind. apply check_ok; [by apply wired_hw, typed_wired|apply G|done|].
  intros h2 G2 F2. apply safe_ret. rewrite typed_hw. change (hw (with_hw h _)) with h in *. rewrite E.
  apply Hk; [by eapply gentle_trans|done].
Qed.

Lemma reset_then_ok {A} (k : st (ata ide) A) a Q :
  wired a -> chan_ok any (hw a) ->
  (forall h, same_core (hw a) h -> (forall v, fresh (the_if v h)) -> total k (with_hw h a) Q) ->
  total (reset_channel;; k) a Q.
Proof.
  intros Hw Hc Hk. apply safe_bind. eapply safe_mono; [by apply reset_channel_ok|].
  intros ? ? (h & -> & C & F). by apply Hk.
Qed.

Lemma classify_ok {A} (k : st (ata ide) A) a Q :
  intr_on a = true -> chan_ok any (hw a) ->
  (forall h, same_core (hw a) h -> quiescent h -> total k (classified (has_disk true (hw a)) h a) Q) ->
  total (on_chan (fun _ => new_channel);; reset_channel;; slave ← check_device_type false;
         (if slave : bool then check_device_type true;; mret tt else mret tt);; k) a Q.
Proof.
  intros Hi Hc Hk. apply safe_bind, on_chan_ok. change (set_chan _ a) with (start a).
  apply reset_then_ok; [by apply start_wired|done|]. intros h1 C1 F1. change (hw (start a)) with (hw a) in C1.
  pose proof (start_wired a Hi) as Hw.
  apply check_both_ok; [by apply wired_hw|apply C1|done|]. intros h2 G2 F2. rewrite !typed_hw.
  change (hw (with_hw h1 _)) with h1 in *.
  assert (E : has_disk true h1 = has_disk true (hw a)).
  { unfold has_disk. by pose proof (proj2 C1 true) as [= E _ _]; cbn [the_if]; rewrite E. }
  rewrite E. apply Hk; [eapply same_core_trans; [exact C1|apply calm_core, G2]|].
  apply fresh_quiescent; [apply G2|done].
Qed.

Lemma core_disk u c c' :
  core (the_if u c') = core (the_if u c) ->
  same_disk u c c' /\ (honest (the_if u c) -> honest (the_if u c')).
Proof. intros E. split; [|by apply core_honest]. unfold same_disk. by pose proof E as [= -> _ ->]. Qed.

Lemma same_core_disk u c c' :
  same_core c c' -> same_disk u c c' /\ (honest (the_if u c) -> honest (the_if u c')).
Proof. intros [_ E]. by apply core_disk. Qed.

Lemma same_disk_trans u c c1 c2 : same_disk u c c1 -> same_disk u c1 c2 -> same_disk u c c2.
Proof. unfold same_disk. intuition congruence. Qed.

Lemma same_disk_has u c c' : same_disk u c c' -> has_disk u c' = has_disk u c.
Proof. unfold same_disk, has_disk. by intros [-> _]. Qed.

Lemma has_disk_Some u c : has_disk u c = true -> exists b, bs (the_if u c) = Some b.
Proof. unfold has_disk. destruct (bs (the_if u c)) as [b|]; [by exists b|done]. Qed.

Lemma attach_ok a :
  intr_on a = true -> chan_ok any (hw a) -> (forall u, honest (the_if u (hw a))) ->
  total ide_bus_register_legacy a (fun _ a' => attached a' /\ user a' = user a /\
    forall u, known u (hw a) (device u (chan a')) /\ same_disk u (hw a) (hw a')).
Proof.
  intros Hi Hc Hid. unfold ide_bus_register_legacy. apply classify_ok; [done..|].
  intros h C Hq. set (t := has_disk true (hw a)). set (a1 := classified t h a).
  destruct (same_core_disk false _ _ C) as [D0 I0], (same_core_disk true _ _ C) as [D1 I1].
  specialize (I0 (Hid false)). specialize (I1 (Hid true)).
  assert (T1 : attached a1).
  { constructor; try done. apply wired_hw. do 2 apply typed_wired. by apply start_wired. }
  assert (E0 : has_disk false (hw a) = true).
  { unfold has_disk. pose proof (c_hda _ _ Hc). cbn [the_if]. by destruct (bs (if0 (hw a))). }
  apply safe_bind. unfold runs at 1, get. apply safe_bind.
  destruct (has_disk_Some false h) as [b Hb]; [by rewrite (same_disk_has false (hw a) h)|].
  eapply safe_mono; [by apply (identify_ata_device_ok false b a1)|].
  intros ? ? (h2 & -> & Q2 & S2 & K2). cbn [hw a1 classified with_hw] in S2, K2 |- *. cbn [negb] in K2.
  destruct (core_disk true _ _ K2) as [D2 I2]. specialize (I2 I1).
  pose proof (same_disk_trans _ _ _ _ D1 D2) as D12. pose proof (same_disk_trans _ _ _ _ D0 S2) as D02.
  set (n0 := wrap 32 (nb_sectors (the_if false h))).
  assert (N0 : n0 = wrap 32 (nb_sectors (the_if false (hw a)))) by (unfold n0; by rewrite (proj2 D0)).
  pose proof (measured_attached false n0 h2 a1 T1 Q2) as T2.
  apply safe_bind. unfold runs at 1, get. change (is_ata _) with t. destruct t eqn:Et.
  - destruct (has_disk_Some true h2) as [b1 Hb1]; [by rewrite (same_disk_has true (hw a) h2)|].
    eapply safe_mono; [by apply (identify_ata_device_ok true b1 (measured false n0 h2 a1))|].
    intros ? ? (h3 & -> & Q3 & S3 & K3). cbn [hw measured with_hw] in S3, K3. cbn [negb] in K3.
    destruct (core_disk false _ _ K3) as [D3 _]. split; [by apply measured_attached|]. split; [done|].
    intros []; (split; [split|]); try done.
    + intros _. change (wrap 32 (nb_sectors (the_if true h2)) = wrap 32 (nb_sectors (the_if true (hw a)))).
      by rewrite (proj2 D12).
    + by eapply same_disk_trans.
    + by eapply same_disk_trans.
  - apply safe_ret. split; [exact T2|]. split; [done|]. intros []; (split; [split|]); try done.
    intros Ht. unfold t in Et. congruence.
Qed.

(** ** What the driver gets *)

(** C9: On a controller in any well-formed state (no bus master attached, a
    multiple count of at most 16) in which an answer to IDENTIFY that a drive
    saved before, if there is one, gives the drive's size, the driver's probe
    ends: it passes all assertions, leaves both drives at rest, takes exactly
    the drives that have a disk for ATA disks and learns their sizes; the
    disks are as before.  Interrupts are on. *)
Theorem ata_driver_detects a :
  intr_on a = true -> chan_ok any (hw a) -> (forall u, honest (the_if u (hw a))) ->
  exists a', ide_bus_register_legacy a = Ret (tt, a') /\ quiescent (hw a') /\
    forall u, is_ata (device u (chan a')) = has_disk u (hw a) /\
      (has_disk u (hw a) = true -> capacity (device u (chan a')) = wrap 32 (nb_sectors (the_if u (hw a)))) /\
      bs (the_if u (hw a')) = bs (the_if u (hw a)).
Proof.
  intros Hi Hc Hid. destruct (runs_total _ _ _ (attach_ok a Hi Hc Hid)) as ([] & a' & E & T & _ & K).
  exists a'. split; [done|]. split; [apply T|]. intros u. destruct (K u) as [[K1 K2] [K3 _]]. done.
Qed.

Lemma has_disk_bs u c b : bs (the_if u c) = Some b -> has_disk u c = true.
Proof. unfold has_disk. by intros ->. Qed.

(** A write and a read of the same sector. *)
Lemma write_read_ok u b sec ws a :
  attached a -> bs (the_if u (hw a)) = Some b -> 0 <= sec < capacity (device u (chan a)) ->
  sec + 1 < 2 ^ 28 -> reachable b sec 1 -> plain_range b sec 1 -> length ws = 256%nat -> Forall (inU 16) ws ->
  total (ata_disk_write u sec ws;; ata_disk_read u sec) a (fun vs _ => vs = ws).
Proof.
  intros T Hb Hcap Hsec Hre Hp Hl Hw. apply safe_bind.
  eapply safe_mono; [by apply (ata_write_ok u b)|].
  intros ? ? (h & -> & Q & _ & b1 & E1 & Hset & Hm).
  eapply safe_mono; [apply (ata_read_ok u b1 sec)|].
  - by apply served_attached.
  - exact E1.
  - destruct u; exact Hcap.
  - done.
  - by apply (reachable_setup b).
  - intros vs ? (-> & _). rewrite (view_written b b1 sec 1 (unwords ws)); try done.
    + rewrite take_ge by (rewrite unwords_length; lia). by apply words_unwords.
    + rewrite unwords_length. lia.
Qed.

(** C8: The driver and the controller agree on the protocol.  With interrupts
    on, on a controller in any well-formed state (no bus master attached, a
    multiple count of at most 16) in which an answer to IDENTIFY that a drive
    saved before, if there is one, gives the drive's size, the driver probes
    the drives, and then what it writes to a sector of a disk it reads back,
    word for word, in each drive.  The sector is within the drive's size and
    below 2^28, the disk below has it, and it is neither one of the monitor's
    nor the place where the guest's sector 0 is kept. *)
Theorem ata_driver_roundtrip u b sec ws a :
  intr_on a = true -> chan_ok any (hw a) -> (forall u, honest (the_if u (hw a))) ->
  bs (the_if u (hw a)) = Some b -> 0 <= sec < wrap 32 (nb_sectors (the_if u (hw a))) ->
  sec + 1 < 2 ^ 28 -> reachable b sec 1 -> plain_range b sec 1 -> length ws = 256%nat -> Forall (inU 16) ws ->
  exists a', (ide_bus_register_legacy;; ata_disk_write u sec ws;; ata_disk_read u sec) a = Ret (ws, a').
Proof.
  intros Hi Hc Hid Hb Hsec Hs1 Hre Hp Hl Hw.
  assert (Hr : total (ide_bus_register_legacy;; ata_disk_write u sec ws;; ata_disk_read u sec) a (fun vs _ => vs = ws)).
  { apply safe_bind. eapply safe_mono; [by apply attach_ok|]. intros ? a' (T & _ & K).
    destruct (K u) as [[_ K2] [K3 _]]. apply (write_read_ok u b); try done; [by rewrite K3|].
    rewrite K2; [done|]. by apply (has_disk_bs u _ b). }
  destruct (runs_total _ _ _ Hr) as (vs & a' & E & ->). by exists a'.
Qed.

End AtaIde.

(** ** The disk in memory *)

Definition demo_driver : ata (@ide ram) := mk_ata new_channel true false demo_channel.

Lemma demo_honest u : honest (the_if u (hw demo_driver)).
Proof.
  assert (E : saved (the_if u (hw demo_driver)) = None) by (destruct u; vm_compute; reflexivity).
  unfold honest. by rewrite E.
Qed.

Lemma ata_driver_detects_witness :
  exists a', ide_bus_register_legacy demo_driver = Ret (tt, a') /\ quiescent (hw a') /\
    forall u, is_ata (device u (chan a')) = has_disk u (hw demo_driver) /\
      (has_disk u (hw demo_driver) = true ->
        capacity (device u (chan a')) = wrap 32 (nb_sectors (the_if u (hw demo_driver)))) /\
      bs (the_if u (hw a')) = bs (the_if u (hw demo_driver)).
Proof.
  apply (ata_driver_detects demo_driver).
  - reflexivity.
  - apply demo_ok.
  - apply demo_honest.
Defined.

Lemma ata_driver_roundtrip_witness :
  exists a', (ide_bus_register_legacy;; ata_disk_write false 1000 demo_words;; ata_disk_read false 1000) demo_driver
    = Ret (demo_words, a').
Proof.
  apply (ata_driver_roundtrip false demo_sized 1000 demo_words demo_driver).
  - reflexivity.
  - apply demo_ok.
  - apply demo_honest.
  - vm_compute. reflexivity.
  - vm_compute. split; [discriminate|reflexivity].
  - lia.
  - apply demo_reachable; lia.
  - apply demo_plain.
  - reflexivity.
  - apply demo_words_range.
Defined.
