(* ===== verification/Block.v ===== *)
(** * Block devices and partitions

    [devices/block.c] and [devices/partition.c]: registered devices, checked
    access to their sectors, and the search for partitions.  A device is
    known by its place in the list of all devices.  The drivers of whole
    disks are a class; a partition passes its requests on to the device it
    lies on.  Names, messages and locks are left out, and memory
    for the descriptors is there. *)

From Stdlib Require Import ZArith Lia Bool.
From stdpp Require Import base list.
From S2P Require Import Prelude.

Inductive block_type :=
| BLOCK_MONITOR | BLOCK_GUEST | BLOCK_RECORD | BLOCK_REPLAY | BLOCK_SWAP | BLOCK_RAW | BLOCK_FOREIGN.

#[global] Instance block_type_eq_dec : EqDecision block_type.
Proof. solve_decision. Defined.

(** [block_operations] with their [aux]. *)
Inductive block_ops :=
| Whole (unit : Z)
| Part (parent : Z) (start : Z).

Record block := mk_block {
  type : block_type; size : Z; ops : block_ops; read_cnt : Z; write_cnt : Z }.

(** The drivers: sectors of unit [aux]. *)
Class Driver (S : Type) := {
  drv_read : Z -> Z -> st S (list Z);
  drv_write : Z -> Z -> list Z -> st S unit;
}.

(** A read returns the sector, made of bytes, and changes no sector. *)
Class DriverLaws (S : Type) {HS : Driver S} := {
  medium : S -> Z -> Z -> list Z;
  medium_bytes s u k : Forall (inU 8) (medium s u k);
  read_law s u k : exists s', drv_read u k s = Ret (medium s u k, s')
    /\ forall u' k', medium s' u' k' = medium s u' k';
}.

Section Block.
Context {S : Type} {HS : Driver S}.

Record blocks := mk_blocks { all_blocks : list block; drivers : S }.

Definition get_block (i : Z) : st blocks block := fun w =>
  match geti (all_blocks w) i with Some b => Ret (b, w) | None => Stop Fault end.
Definition put_block (i : Z) (b : block) : st blocks unit :=
  modify (fun w => mk_blocks (seti (all_blocks w) i b) (drivers w)).
Definition on_driver {A} (m : st S A) : st blocks A := fun w =>
  match m (drivers w) with
  | Ret (a, s) => Ret (a, mk_blocks (all_blocks w) s)
  | Stop e => Stop e
  end.

Definition check_sector (b : block) (sector : Z) : st blocks unit :=
  if size b <=? sector then stop_with Panic else mret tt.

Definition count_read (b : block) : block :=
  mk_block (type b) (size b) (ops b) (wrap 64 (read_cnt b + 1)) (write_cnt b).
Definition count_write (b : block) : block :=
  mk_block (type b) (size b) (ops b) (read_cnt b) (wrap 64 (write_cnt b + 1)).

(** [block_read] with [partition_read]: a device lies on one registered
    before it, so that the number of devices is enough fuel. *)
Fixpoint block_read (fuel : nat) (i sector : Z) : st blocks (list Z) :=
  match fuel with
  | O => stop_with NoFuel
  | Datatypes.S fuel =>
    b ← get_block i;
    check_sector b sector;;
    buffer ← match ops b with
             | Whole u => on_driver (drv_read u sector)
             | Part p start => block_read fuel p (wrap 32 (start + sector))
             end;
    b ← get_block i;
    put_block i (count_read b);;
    mret buffer
  end.

Fixpoint block_write (fuel : nat) (i sector : Z) (buffer : list Z) : st blocks unit :=
  match fuel with
  | O => stop_with NoFuel
  | Datatypes.S fuel =>
    b ← get_block i;
    check_sector b sector;;
    lift (assert (negb (bool_decide (type b = BLOCK_FOREIGN))));;
    match ops b with
    | Whole u => on_driver (drv_write u sector buffer)
    | Part p start => block_write fuel p (wrap 32 (start + sector)) buffer
    end;;
    b ← get_block i;
    put_block i (count_write b)
  end.

Definition block_size (i : Z) : st blocks Z := b ← get_block i; mret (size b).

(** At the end of the list; the number of the new device. *)
Definition block_register (t : block_type) (size : Z) (o : block_ops) : st blocks Z := fun w =>
  Ret (lenZ (all_blocks w), mk_blocks (all_blocks w ++ [mk_block t size o 0 0]) (drivers w)).

(** ** Partitions *)

Definition le (l : list Z) : Z := foldr (fun b v => b |! (v << 8)) 0 l.
Definition bytes (pt : list Z) (at_ n : nat) : list Z := take n (drop at_ pt).

(** [struct partition_table_entry], the fields that are used. *)
Record partition_table_entry := mk_entry { ptype : Z; offset : Z; psize : Z }.
Definition entry (pt : list Z) (i : nat) : partition_table_entry :=
  let e := (446 + 16 * i)%nat in
  mk_entry (le (bytes pt (e + 4) 1)) (le (bytes pt (e + 8) 4)) (le (bytes pt (e + 12) 4)).
Definition signature (pt : list Z) : Z := le (bytes pt 510 2).

Definition found_partition (block start psize : Z) : st blocks unit :=
  n ← block_size block;
  if n <=? start then mret tt
  else if (wrap 32 (start + psize) <? start) || (n <? wrap 32 (start + psize)) then mret tt
  else block_register BLOCK_RAW psize (Part block start);; mret tt.

Definition extended (t : Z) : bool := (t =? 0x05) || (t =? 0x0f) || (t =? 0x85) || (t =? 0xc5).

(** The rest of the entries, with the reading of a nested table. *)
Fixpoint parse_entries (nested : Z -> Z -> Z -> st blocks Z) (block sector primary : Z)
    (es : list partition_table_entry) (part_nr : Z) : st blocks Z :=
  match es with
  | [] => mret part_nr
  | e :: es =>
    part_nr ←
      (if (psize e =? 0) || (ptype e =? 0) then mret part_nr
       else if extended (ptype e) then
         if sector =? 0 then nested (offset e) (offset e) part_nr
         else nested (wrap 32 (offset e + primary)) primary part_nr
       else
         found_partition block (wrap 32 (offset e + sector)) (psize e);;
         mret (part_nr + 1));
    parse_entries nested block sector primary es part_nr
  end.

Fixpoint read_partition_table (fuel : nat) (block sector primary_extended_sector part_nr : Z) :
    st blocks Z :=
  match fuel with
  | O => stop_with NoFuel
  | Datatypes.S fuel =>
    n ← block_size block;
    if n <=? sector then mret part_nr else
    w ← get;
    pt ← block_read (length (all_blocks w)) block 0;
    if negb (signature pt =? 0xaa55) then mret part_nr
    else parse_entries (read_partition_table fuel block) block sector primary_extended_sector
           (map (entry pt) (seq 0 4)) part_nr
  end.

Definition partition_scan (fuel : nat) (block : Z) : st blocks Z :=
  read_partition_table fuel block 0 0 0.

(** ** Theorems *)

Context {HL : DriverLaws S}.
Implicit Types (w : blocks) (b : block) (e : partition_table_entry) (fuel : nat).

Lemma le_range l n : Forall (inU 8) l -> (length l <= n)%nat -> inU (8 * Z.of_nat n) (le l).
Proof.
  intros Hl. revert n. induction Hl as [|x l Hx _ IH]; intros n Hn.
  - simpl. apply inU_0. lia.
  - destruct n as [|n]; [simpl in Hn; lia|]. simpl in Hn |- *.
    specialize (IH n ltac:(lia)). apply inU_lor; [lia|apply (inU_weaken 8); [lia|done]|].
    unfold inU in *. rewrite Z.shiftl_mul_pow2 by lia.
    replace (8 * Z.of_nat (Datatypes.S n)) with (8 * Z.of_nat n + 8) by lia. rewrite Z.pow_add_r by lia. lia.
Qed.

Lemma entry_range pt i : Forall (inU 8) pt -> inU 32 (offset (entry pt i)) /\ inU 32 (psize (entry pt i)).
Proof.
  intros Hpt. assert (Hb : forall at_, inU 32 (le (bytes pt at_ 4))).
  { intros at_. change 32 with (8 * Z.of_nat 4). apply le_range; [by apply Forall_take, Forall_drop|].
    unfold bytes. rewrite length_take. lia. }
  split; apply Hb.
Qed.

(** Device [i] is a whole disk of [n] sectors whose first sector is [pt]. *)
Definition disk_at (i n : Z) (pt : list Z) w : Prop :=
  exists b u, geti (all_blocks w) i = Some b /\ size b = n /\ ops b = Whole u /\ medium (drivers w) u 0 = pt.


(** Reading the table only counts. *)
Lemma read_table_run i n pt w :
  disk_at i n pt w -> 0 < n ->
  exists b s, geti (all_blocks w) i = Some b /\
    block_read (length (all_blocks w)) i 0 w = Ret (pt, mk_blocks (seti (all_blocks w) i (count_read b)) s) /\
    disk_at i n pt (mk_blocks (seti (all_blocks w) i (count_read b)) s).
Proof.
  intros (b & u & Eb & En & Eo & Em) Hn. pose proof (geti_Some_lt _ _ _ Eb) as Hi.
  destruct (read_law (drivers w) u 0) as (s & Er & Hm).
  assert (Hl : exists f, length (all_blocks w) = Datatypes.S f)
    by (unfold lenZ in Hi; destruct (length (all_blocks w)); [lia|eauto]).
  destruct Hl as [f Hf]. exists b, s. split; [done|]. split.
  - rewrite Hf. cbn [block_read]. unfold mbind, st_bind, get_block. rewrite Eb. unfold check_sector.
    rewrite (proj2 (Z.leb_gt _ _)) by lia. unfold mret, st_ret. rewrite Eo. unfold on_driver. rewrite Er.
    cbn [all_blocks]. rewrite Eb. by rewrite Em.
  - exists (count_read b), u. cbn [all_blocks drivers]. rewrite geti_seti_eq by done.
    split_and!; try done. by rewrite Hm.
Qed.

Lemma disk_at_app i n pt w bs :
  disk_at i n pt w -> disk_at i n pt (mk_blocks (all_blocks w ++ bs) (drivers w)).
Proof.
  intros (b & u & Eb & H). exists b, u. split; [|done]. cbn [all_blocks]. pose proof (geti_Some_lt _ _ _ Eb) as Hi.
  unfold geti, lenZ in *. destruct (i <? 0); [done|]. rewrite lookup_app_l by lia. done.
Qed.

Lemma block_size_run i n pt w : disk_at i n pt w -> block_size i w = Ret (n, w).
Proof.
  intros (b & u & Eb & En & _). unfold block_size, mbind, st_bind, get_block. rewrite Eb. by rewrite En.
Qed.

(** The device an entry stands for. *)
Definition fits (i n : Z) e : list block :=
  if (psize e =? 0) || (ptype e =? 0) then []
  else if offset e + psize e <=? n then [mk_block BLOCK_RAW (psize e) (Part i (offset e)) 0 0] else [].

Lemma found_run i n pt e w :
  disk_at i n pt w -> inU 32 n -> inU 32 (offset e) -> inU 32 (psize e) ->
  (psize e =? 0) || (ptype e =? 0) = false ->
  found_partition i (wrap 32 (offset e + 0)) (psize e) w =
  Ret (tt, mk_blocks (all_blocks w ++ fits i n e) (drivers w)).
Proof.
  intros Hd Hn Ho Hp He. unfold found_partition, mbind, st_bind. rewrite (block_size_run i n pt) by done.
  rewrite Z.add_0_r, wrap_id by done. unfold fits. rewrite He.
  assert (Hp0 : psize e <> 0) by (intros E; by rewrite E in He).
  unfold inU in *. destruct w as [bl dr]. cbn [all_blocks drivers].
  destruct (Z.leb_spec n (offset e)).
  { rewrite (proj2 (Z.leb_gt _ _)) by lia. by rewrite app_nil_r. }
  destruct (Z.leb_spec (2 ^ 32) (offset e + psize e)) as [Hbig|Hsmall].
  - assert (Ew : wrap 32 (offset e + psize e) = offset e + psize e - 2 ^ 32).
    { unfold wrap. symmetry. apply (Z.mod_unique_pos _ _ 1); lia. }
    rewrite Ew, (proj2 (Z.ltb_lt _ _)) by lia. rewrite (proj2 (Z.leb_gt _ _)) by lia. by rewrite app_nil_r.
  - rewrite wrap_id by (unfold inU; lia). rewrite (proj2 (Z.ltb_ge _ _)) by lia. cbn [orb].
    destruct (Z.ltb_spec n (offset e + psize e)).
    + rewrite (proj2 (Z.leb_gt _ _)) by lia. by rewrite app_nil_r.
    + by rewrite (proj2 (Z.leb_le _ _)) by lia.
Qed.

Definition nonempty e : bool := negb ((psize e =? 0) || (ptype e =? 0)).
Definition nested_table e : bool := nonempty e && extended (ptype e).

Lemma parse_plain nested i n pt primary es : forall nr w,
  disk_at i n pt w -> inU 32 n ->
  Forall (fun e => inU 32 (offset e) /\ inU 32 (psize e) /\ nested_table e = false) es ->
  parse_entries nested i 0 primary es nr w =
  Ret (nr + lenZ (filter (fun e => nonempty e = true) es),
       mk_blocks (all_blocks w ++ concat (map (fits i n) es)) (drivers w)).
Proof.
  induction es as [|e es IH]; intros nr w Hd Hn Hes.
  - cbn. rewrite app_nil_r, Z.add_0_r. by destruct w.
  - apply Forall_cons in Hes as [(Ho & Hp & Hx) Hes]. cbn [parse_entries]. unfold mbind at 1, st_bind at 1.
    rewrite filter_cons. unfold nested_table, nonempty in *. cbn [map concat].
    destruct ((psize e =? 0) || (ptype e =? 0)) eqn:E; cbn [negb andb] in *.
    + rewrite decide_False by done. unfold mret, st_ret. rewrite IH by done.
      unfold fits at 2. rewrite E. done.
    + rewrite Hx, decide_True by done. unfold mbind at 1, st_bind at 1.
      rewrite (found_run i n pt) by done. unfold mret, st_ret.
      rewrite IH by (done || by apply disk_at_app). cbn [all_blocks drivers].
      rewrite <- (assoc_L (++)). do 2 f_equal. unfold lenZ. cbn [length]. lia.
Qed.

(** C14: On a disk whose table has no extended entries, the scan registers
    exactly the partitions that are not empty and lie within the disk, in
    the order of the table, each with its first sector and size, and counts
    the ones that are not empty. *)
Theorem partition_scan_finds fuel i n pt w :
  disk_at i n pt w -> 0 < n < 2 ^ 32 -> signature pt = 0xaa55 ->
  Forall (fun k => nested_table (entry pt k) = false) (seq 0 4) ->
  exists b s, geti (all_blocks w) i = Some b /\
    partition_scan (Datatypes.S fuel) i w =
    Ret (lenZ (filter (fun e => nonempty e = true) (map (entry pt) (seq 0 4))),
         mk_blocks (seti (all_blocks w) i (count_read b) ++ concat (map (fits i n) (map (entry pt) (seq 0 4)))) s).
Proof.
  intros Hd Hn Hsig Hes. unfold partition_scan. cbn [read_partition_table]. unfold mbind at 1, st_bind at 1.
  rewrite (block_size_run i n pt) by done. rewrite (proj2 (Z.leb_gt _ _)) by lia.
  unfold mbind at 1, st_bind at 1, get. unfold mbind at 1, st_bind at 1.
  destruct (read_table_run i n pt w Hd) as (b & s & Eb & -> & Hd'); [lia|].
  rewrite Hsig. cbn [negb Z.eqb Pos.eqb]. exists b, s. split; [done|].
  rewrite (parse_plain _ i n pt); [done|done|unfold inU; lia|].
  assert (Hpt : Forall (inU 8) pt) by (destruct Hd as (? & u & _ & _ & _ & <-); apply medium_bytes).
  apply Forall_map. eapply Forall_impl; [exact Hes|]. intros k Hk.
  destruct (entry_range pt k Hpt). done.
Qed.

(** A partition that was found gives access to its own sectors only. *)
Lemma partition_confined f i j n b p start w u :
  geti (all_blocks w) i = Some p -> size p = n -> ops p = Whole u -> n < 2 ^ 32 ->
  geti (all_blocks w) j = Some b -> ops b = Part i start -> 0 <= start -> start + size b <= n -> forall sector,
  0 <= sector ->
  if sector <? size b then
    exists w', block_read (Datatypes.S (Datatypes.S f)) j sector w =
      Ret (medium (drivers w) u (start + sector), w')
  else block_read (Datatypes.S (Datatypes.S f)) j sector w = Stop Panic.
Proof.
  intros Ep En Eo Hn Eb Ej Hs Hse sector H0. cbn [block_read]. unfold mbind, st_bind, get_block. rewrite Eb.
  unfold check_sector. destruct (Z.ltb_spec sector (size b)).
  - rewrite (proj2 (Z.leb_gt _ _)) by lia. unfold mret, st_ret. rewrite Ej, Ep.
    rewrite wrap_id by (unfold inU; lia). rewrite En, (proj2 (Z.leb_gt _ _)) by lia. rewrite Eo. unfold on_driver.
    destruct (read_law (drivers w) u (start + sector)) as (s & -> & _). cbn [all_blocks]. rewrite Ep.
    unfold put_block, modify. cbn [all_blocks drivers].
    destruct (geti_lt_Some (seti (all_blocks w) i (count_read p)) j) as [b' ->];
      [rewrite lenZ_seti; by apply geti_Some_lt in Eb|]. eauto.
  - by rewrite (proj2 (Z.leb_le _ _)) by lia.
Qed.

(** *** Extended partitions *)

Lemma found_some i n pt start ps w :
  disk_at i n pt w ->
  exists bs, found_partition i start ps w = Ret (tt, mk_blocks (all_blocks w ++ bs) (drivers w)).
Proof.
  intros Hd. unfold found_partition, mbind, st_bind. rewrite (block_size_run i n pt) by done.
  destruct w as [bl dr]. cbn [all_blocks drivers].
  destruct (_ <=? _); [exists []; by rewrite app_nil_r|]. destruct (_ || _); [exists []; by rewrite app_nil_r|].
  by eexists.
Qed.

(** The entries before the first nested table come to an end. *)
Lemma parse_up_to nested i n pt sector primary e rest es : forall nr w,
  disk_at i n pt w -> Forall (fun e => nested_table e = false) es -> nested_table e = true ->
  exists nr' w', disk_at i n pt w' /\
    parse_entries nested i sector primary (es ++ e :: rest) nr w =
    (nr2 ← (if sector =? 0 then nested (offset e) (offset e) nr'
            else nested (wrap 32 (offset e + primary)) primary nr');
     parse_entries nested i sector primary rest nr2) w'.
Proof.
  induction es as [|x es IH]; intros nr w Hd Hes He.
  - exists nr, w. split; [done|]. cbn [app parse_entries]. unfold nested_table, nonempty in He.
    apply andb_true_iff in He as [E1%negb_true_iff E2]. by rewrite E1, E2.
  - apply Forall_cons in Hes as [Hx Hes]. unfold nested_table, nonempty in Hx.
    destruct ((psize x =? 0) || (ptype x =? 0)) eqn:Ex; cbn [negb andb] in Hx.
    + destruct (IH nr w) as (nr' & w' & H1 & H2); [done..|]. exists nr', w'. split; [done|].
      rewrite <- H2. cbn [app parse_entries]. by rewrite Ex.
    + destruct (found_some i n pt (wrap 32 (offset x + sector)) (psize x) w Hd) as [bs Ef].
      destruct (IH (nr + 1) (mk_blocks (all_blocks w ++ bs) (drivers w))) as (nr' & w' & H1 & H2);
        [by apply disk_at_app|done..|]. exists nr', w'. split; [done|].
      rewrite <- H2. cbn [app parse_entries]. rewrite Ex, Hx. unfold mbind, st_bind. by rewrite Ef.
Qed.

(** C34: Every nested table is read from sector 0 again: on a disk whose first
    extended partition starts in the first half, the scan never comes to an
    end, whatever number of nested calls it is given. *)
Theorem partition_scan_diverges fuel i n pt w k e :
  disk_at i n pt w -> 0 < n < 2 ^ 32 -> signature pt = 0xaa55 -> (k < 4)%nat -> entry pt k = e ->
  Forall (fun j => nested_table (entry pt j) = false) (seq 0 k) -> nested_table e = true ->
  2 * offset e < n ->
  partition_scan fuel i w = Stop NoFuel.
Proof.
  intros Hd Hn Hsig Hk Ee Hpre He Hoff. subst e. set (off := offset (entry pt k)) in *.
  assert (Hpt : Forall (inU 8) pt) by (destruct Hd as (? & u & _ & _ & _ & <-); apply medium_bytes).
  destruct (entry_range pt k Hpt) as [Ho _]. fold off in Ho. unfold inU in Ho.
  assert (Hsplit : map (entry pt) (seq 0 4) =
    map (entry pt) (seq 0 k) ++ entry pt k :: map (entry pt) (seq (Datatypes.S k) (3 - k))).
  { replace 4%nat with (k + Datatypes.S (3 - k))%nat by lia. by rewrite seq_app, map_app. }
  unfold partition_scan.
  enough (Hall : forall fuel sector primary nr w, disk_at i n pt w -> 0 <= sector < n ->
    sector = 0 \/ primary = off -> read_partition_table fuel i sector primary nr w = Stop NoFuel)
    by (apply Hall; [done|lia|by left]).
  clear w Hd fuel. intros fuel. induction fuel as [|f IH]; intros sector primary nr w Hd Hs Hp; [done|].
  cbn [read_partition_table]. unfold mbind at 1, st_bind at 1.
  rewrite (block_size_run i n pt) by done. rewrite (proj2 (Z.leb_gt _ _)) by lia.
  unfold mbind at 1, st_bind at 1, get. unfold mbind at 1, st_bind at 1.
  destruct (read_table_run i n pt w Hd) as (b & s & Eb & -> & Hd'); [lia|].
  rewrite Hsig. cbn [negb Z.eqb Pos.eqb]. rewrite Hsplit.
  destruct (parse_up_to (read_partition_table f i) i n pt sector primary (entry pt k)
    (map (entry pt) (seq (Datatypes.S k) (3 - k))) (map (entry pt) (seq 0 k)) nr _ Hd') as (nr' & w' & Hw' & ->).
  { by apply Forall_map. }
  { done. }
  fold off. unfold mbind, st_bind. destruct (Z.eqb_spec sector 0).
  - rewrite IH; [done|done|lia|by right].
  - destruct Hp as [| ->]; [done|]. rewrite IH; [done|done| |by right]. rewrite wrap_id by (unfold inU; lia). lia.
Qed.

End Block.

(** ** A disk in memory *)

Definition is_bytes (l : list Z) : bool := forallb (fun x => (0 <=? x) && (x <? 256)) l.
(** What is not made of bytes reads as nothing. *)
Definition table (s : list Z) : list Z := if is_bytes s then s else [].

(** One disk with a table in its first sector and zeros in the others. *)
#[global] Instance table_driver : Driver (list Z) := {
  drv_read _ k := fun s => Ret (if k =? 0 then table s else replicate 512 0, s);
  drv_write _ _ _ := mret tt;
}.

Definition table_medium (s : list Z) (u k : Z) : list Z := if k =? 0 then table s else replicate 512 0.

Lemma table_medium_bytes s u k : Forall (inU 8) (table_medium s u k).
Proof.
  unfold table_medium. destruct (Z.eqb k 0); [|by apply Forall_replicate]. unfold table.
  destruct (is_bytes s) eqn:E; [|constructor]. apply Forall_forall. intros x Hx%list_elem_of_In.
  unfold is_bytes in E. rewrite forallb_forall in E. specialize (E x Hx).
  apply andb_true_iff in E as [?%Z.leb_le ?%Z.ltb_lt]. unfold inU. lia.
Qed.

#[global] Instance table_laws : DriverLaws (list Z).
Proof. refine {| medium := table_medium |}; [apply table_medium_bytes|]. intros s u k. by exists s. Defined.

Definition raw_entry (t off n : Z) : list Z :=
  [0x80; 0; 0; 0; t; 0; 0; 0] ++ [off mod 256; off / 256; 0; 0] ++ [n mod 256; n / 256; 0; 0].
Definition demo_table (t1 o1 n1 t2 o2 n2 : Z) : list Z :=
  replicate 446 0 ++ raw_entry t1 o1 n1 ++ raw_entry t2 o2 n2 ++ replicate 32 0 ++ [0x55; 0xaa].
Definition demo_blocks (pt : list Z) : blocks := mk_blocks [mk_block BLOCK_RAW 1000 (Whole 0) 0 0] pt.

Lemma demo_at pt : is_bytes pt = true -> disk_at 0 1000 pt (demo_blocks pt).
Proof.
  intros E. exists (mk_block BLOCK_RAW 1000 (Whole 0) 0 0), 0. split_and!; try reflexivity.
  cbn. unfold table. by rewrite E.
Qed.

Definition two_parts : list Z := demo_table 0x83 10 100 0x83 500 600.
Definition one_extended : list Z := demo_table 0x83 10 100 0x05 200 600.

Lemma partition_scan_finds_witness :
  exists b s, geti (all_blocks (demo_blocks two_parts)) 0 = Some b /\
    partition_scan 1 0 (demo_blocks two_parts) =
    Ret (lenZ (filter (fun e => nonempty e = true) (map (entry two_parts) (seq 0 4))),
         mk_blocks (seti (all_blocks (demo_blocks two_parts)) 0 (count_read b)
           ++ concat (map (fits 0 1000) (map (entry two_parts) (seq 0 4)))) s).
Proof.
  apply (partition_scan_finds 0 0 1000 two_parts).
  - apply demo_at. reflexivity.
  - lia.
  - vm_compute. reflexivity.
  - vm_compute. repeat constructor.
Defined.

Lemma partition_scan_diverges_witness :
  partition_scan 100 0 (demo_blocks one_extended) = Stop NoFuel.
Proof.
  apply (partition_scan_diverges 100 0 1000 one_extended (demo_blocks one_extended) 1 (entry one_extended 1)).
  - apply demo_at. reflexivity.
  - lia.
  - vm_compute. reflexivity.
  - lia.
  - reflexivity.
  - vm_compute. repeat constructor.
  - vm_compute. reflexivity.
  - vm_compute. reflexivity.
Defined.
