(* ===== verification/Vga.v ===== *)
(** * The text display

    [devices/vga.c]: the frame buffer as 25 rows of 80 characters with their
    attributes, the cursor, and the hardware cursor behind its ports.  The
    display refines a roll of paper that only grows: the screen is its end.
    Interrupts are off throughout [vga_putc]; the level is left out. *)

From Stdlib Require Import ZArith Lia Bool.
From stdpp Require Import base list.
From S2P Require Import Prelude Ports.

Definition COL_CNT : Z := 80.
Definition ROW_CNT : Z := 25.
Definition GRAY_ON_BLACK : Z := 0x07.

(** The cursor registers of the display's controller, which [find_cursor]
    reads and [move_cursor] writes: a byte written to port 0x3d4 selects a
    register, port 0x3d5 is the register selected, and a word written to
    0x3d4 sets the register of its low byte to its high byte. *)
Definition cursor_reg (i : Z) : Prop := i = 0x0e \/ i = 0x0f.

Class Crtc (H : Type) {HP : Ports H} := {
  reg : H -> Z -> Z;
  sel : H -> Z;
  reg_byte h i : cursor_reg i -> inU 8 (reg h i);
  outb_sel h i : cursor_reg i -> exists h', outb 0x3d4 i h = Ret (tt, h')
    /\ sel h' = i /\ forall j, reg h' j = reg h j;
  inb_sel h : cursor_reg (sel h) -> exists h', inb 0x3d5 h = Ret (reg h (sel h), h')
    /\ forall j, reg h' j = reg h j;
  outw_set h i v : cursor_reg i -> inU 8 v -> exists h', outw 0x3d4 (i |! (v << 8)) h = Ret (tt, h')
    /\ forall j, reg h' j = if j =? i then v else reg h j;
}.

Section Vga.
Context {H : Type} {HP : Ports H}.

Local Notation cell := (Z * Z)%type.

Record vga := mk_vga { inited : bool; fb : list (list cell); cx : Z; cy : Z; hw : H }.

Definition set_fb (f : list (list cell)) (v : vga) : vga := mk_vga (inited v) f (cx v) (cy v) (hw v).
Definition set_cx (x : Z) (v : vga) : vga := mk_vga (inited v) (fb v) x (cy v) (hw v).
Definition set_cy (y : Z) (v : vga) : vga := mk_vga (inited v) (fb v) (cx v) y (hw v).
Definition on_hw {A} (m : st H A) : st vga A := fun v =>
  match m (hw v) with
  | Ret (a, h) => Ret (a, mk_vga (inited v) (fb v) (cx v) (cy v) h)
  | Stop e => Stop e
  end.

Definition find_cursor : st vga (Z * Z) :=
  on_hw (outb 0x3d4 0x0e);;
  hi ← on_hw (inb 0x3d5);
  on_hw (outb 0x3d4 0x0f);;
  lo ← on_hw (inb 0x3d5);
  let cp := wrap 16 (hi << 8) |! lo in
  mret (cp mod COL_CNT, cp / COL_CNT).

Definition init : st vga unit :=
  v ← get;
  if inited v then mret tt
  else
    '(x, y) ← find_cursor;
    modify (fun v => mk_vga true (fb v) x y (hw v)).

Definition move_cursor : st vga unit :=
  v ← get;
  let cp := wrap 16 (cx v + COL_CNT * cy v) in
  on_hw (outw 0x3d4 (wrap 16 (0x0e |! (cp &! 0xff00))));;
  on_hw (outw 0x3d4 (wrap 16 (0x0f |! (cp << 8)))).

Definition blank_row : list cell := replicate (Z.to_nat COL_CNT) (32, GRAY_ON_BLACK).

(** A row outside the frame buffer is a fault. *)
Definition clear_row (y : Z) : st vga unit :=
  v ← get;
  lift (the (geti (fb v) y));;
  put (set_fb (seti (fb v) y blank_row) v).

Fixpoint clear_rows (n : nat) (y : Z) : st vga unit :=
  match n with
  | O => mret tt
  | S n => clear_row y;; clear_rows n (y + 1)
  end.
Definition cls : st vga unit :=
  clear_rows (Z.to_nat ROW_CNT) 0;;
  modify (set_cx 0);;
  modify (set_cy 0);;
  move_cursor.

(** The [memmove] copies rows 1 to 24 over rows 0 to 23. *)
Definition newline : st vga unit :=
  modify (set_cx 0);;
  modify (fun v => set_cy (cy v + 1) v);;
  v ← get;
  if ROW_CNT <=? cy v then
    modify (set_cy (ROW_CNT - 1));;
    modify (fun v => set_fb (tail (fb v) ++ drop (Z.to_nat ROW_CNT - 1) (fb v)) v);;
    clear_row (ROW_CNT - 1)
  else mret tt.

Definition show (c : Z) : st vga unit :=
  v ← get;
  row ← lift (the (geti (fb v) (cy v)));
  lift (the (geti row (cx v)));;
  put (set_fb (seti (fb v) (cy v) (seti row (cx v) (wrap 8 c, GRAY_ON_BLACK))) v).

(** The [switch] of [vga_putc]. *)
Definition putc_arm (c : Z) : st vga unit :=
  if c =? 10 then newline
  else if c =? 12 then cls
  else if c =? 8 then modify (fun v => if 0 <? cx v then set_cx (cx v - 1) v else v)
  else if c =? 13 then modify (set_cx 0)
  else if c =? 9 then
    modify (fun v => set_cx ((cx v + 1 + 8 - 1) / 8 * 8) v);;
    v ← get;
    if COL_CNT <=? cx v then newline else mret tt
  else
    show c;;
    modify (fun v => set_cx (cx v + 1) v);;
    v ← get;
    if COL_CNT <=? cx v then newline else mret tt.

Definition vga_putc (c : Z) : st vga unit :=
  init;;
  putc_arm c;;
  move_cursor.

(** ** Paper *)

(** Rows, and the place of the cursor in them. *)
Record paper := mk_paper { rows : list (list cell); px : Z; py : Z }.

Definition feed (p : paper) : paper :=
  if py p + 1 <? lenZ (rows p) then mk_paper (rows p) 0 (py p + 1)
  else mk_paper (rows p ++ [blank_row]) 0 (py p + 1).

Definition ink (c : Z) (p : paper) : list (list cell) :=
  match geti (rows p) (py p) with
  | Some row => seti (rows p) (py p) (seti row (px p) (wrap 8 c, GRAY_ON_BLACK))
  | None => rows p
  end.

(** The next stop is the least multiple of 8 to the right. *)
Definition paper_putc (c : Z) (p : paper) : paper :=
  if c =? 10 then feed p
  else if c =? 12 then mk_paper (rows p ++ replicate (Z.to_nat ROW_CNT) blank_row) 0 (lenZ (rows p))
  else if c =? 8 then mk_paper (rows p) (Z.max 0 (px p - 1)) (py p)
  else if c =? 13 then mk_paper (rows p) 0 (py p)
  else if c =? 9 then
    let x := px p + 8 - px p mod 8 in
    if COL_CNT <=? x then feed p else mk_paper (rows p) x (py p)
  else
    let p' := mk_paper (ink c p) (px p + 1) (py p) in
    if COL_CNT <=? px p' then feed p' else p'.

Definition vga_puts (cs : list Z) : st vga unit :=
  foldr (fun c k => vga_putc c;; k) (mret tt) cs.

Section Refinement.
Context {HC : Crtc H}.
Implicit Types (v : vga) (p : paper) (h : H).

Definition cursor (h : H) : Z := 256 * reg h 0x0e + reg h 0x0f.

(** Where the next character goes: before the first one, where the hardware
    has its cursor. *)
Definition place (v : vga) : Z * Z :=
  if inited v then (cx v, cy v) else (cursor (hw v) mod COL_CNT, cursor (hw v) / COL_CNT).

(** The screen is the last 25 rows, the cursor in one of them. *)
Record text (p : paper) (f : list (list cell)) (y : Z) : Prop := {
  t_rows : Forall (fun r => lenZ r = COL_CNT) (rows p);
  t_len : ROW_CNT <= lenZ (rows p);
  t_fb : f = drop (Z.to_nat (lenZ (rows p) - ROW_CNT)) (rows p);
  t_y : y = py p - (lenZ (rows p) - ROW_CNT) /\ 0 <= y < ROW_CNT;
}.

Definition shows_at (p : paper) (f : list (list cell)) (x y : Z) : Prop :=
  text p f y /\ x = px p /\ 0 <= x < COL_CNT.

Definition shows (p : paper) (v : vga) : Prop := shows_at p (fb v) (place v).1 (place v).2.

(** ** The hardware cursor *)

Definition with_hw (v : vga) (h : H) : vga := mk_vga (inited v) (fb v) (cx v) (cy v) h.

Lemma on_hw_run {A} (m : st H A) v a h : m (hw v) = Ret (a, h) -> on_hw m v = Ret (a, with_hw v h).
Proof using Type. intros E. unfold on_hw. rewrite E. reflexivity. Qed.

Lemma bind_step {A B} (m : st vga A) (f : A -> st vga B) v a v' :
  m v = Ret (a, v') -> (m ≫= f) v = f a v'.
Proof using Type. intros E. unfold mbind, st_bind. rewrite E. reflexivity. Qed.

Lemma cursor_words cp : 0 <= cp < 2000 ->
  wrap 16 (0x0e |! (cp &! 0xff00)) = 0x0e |! ((cp / 256) << 8)
  /\ wrap 16 (0x0f |! (cp << 8)) = 0x0f |! ((cp mod 256) << 8).
Proof using Type.
  intros Hcp.
  assert (E : all_below 2000 (fun cp =>
    (wrap 16 (0x0e |! (cp &! 0xff00)) =? 0x0e |! ((cp / 256) << 8))
    && (wrap 16 (0x0f |! (cp << 8)) =? 0x0f |! ((cp mod 256) << 8))) = true)
    by (vm_compute; reflexivity).
  apply all_below_spec with (x := cp) in E; [|exact Hcp].
  apply andb_true_iff in E as [E1 E2]. split; apply Z.eqb_eq; assumption.
Qed.

Lemma move_cursor_ok v :
  0 <= cx v < COL_CNT -> 0 <= cy v < ROW_CNT ->
  exists h, move_cursor v = Ret (tt, with_hw v h) /\ cursor h = cx v + COL_CNT * cy v.
Proof using HC.
  unfold COL_CNT, ROW_CNT. intros Hx Hy. set (cp := cx v + 80 * cy v).
  assert (Hcp : 0 <= cp < 2000) by (unfold cp; lia).
  destruct (cursor_words cp Hcp) as [E1 E2].
  assert (inU 8 (cp / 256) /\ inU 8 (cp mod 256)) as [B1 B2]
    by (split; [split; [apply Z.div_pos|apply Z.div_lt_upper_bound]|apply Z.mod_pos_bound]; lia).
  destruct (outw_set (hw v) 0x0e (cp / 256)) as (h1 & O1 & R1); [left; reflexivity|exact B1|].
  destruct (outw_set h1 0x0f (cp mod 256)) as (h2 & O2 & R2); [right; reflexivity|exact B2|].
  exists h2. split.
  - unfold move_cursor. rewrite (bind_step _ _ _ v v) by reflexivity. cbv zeta.
    unfold COL_CNT. fold cp.
    replace (wrap 16 cp) with cp
      by (symmetry; apply wrap_id; split; [lia|change (2 ^ 16) with 65536; lia]).
    rewrite E1, E2.
    rewrite (bind_step _ _ _ tt (with_hw v h1)) by (apply on_hw_run; exact O1).
    apply (on_hw_run _ (with_hw v h1)). exact O2.
  - unfold cursor. rewrite !R2, !R1. simpl. symmetry. apply Z.div_mod. lia.
Qed.

Lemma find_cursor_ok v :
  exists h, find_cursor v = Ret ((cursor (hw v) mod COL_CNT, cursor (hw v) / COL_CNT), with_hw v h).
Proof using HC.
  destruct (outb_sel (hw v) 0x0e) as (h1 & O1 & S1 & R1); [left; reflexivity|].
  destruct (inb_sel h1) as (h2 & I2 & R2); [rewrite S1; left; reflexivity|].
  destruct (outb_sel h2 0x0f) as (h3 & O3 & S3 & R3); [right; reflexivity|].
  destruct (inb_sel h3) as (h4 & I4 & R4); [rewrite S3; right; reflexivity|].
  exists h4. unfold find_cursor.
  rewrite (bind_step _ _ _ tt (with_hw v h1)) by (apply on_hw_run; exact O1).
  rewrite (bind_step _ _ _ _ (with_hw v h2)) by (apply (on_hw_run _ (with_hw v h1)); exact I2).
  rewrite (bind_step _ _ _ tt (with_hw v h3)) by (apply (on_hw_run _ (with_hw v h2)); exact O3).
  rewrite (bind_step _ _ _ _ (with_hw v h4)) by (apply (on_hw_run _ (with_hw v h3)); exact I4).
  rewrite S1, S3, R1, R3, R2, R1.
  assert (B1 := reg_byte (hw v) 0x0e (or_introl eq_refl)).
  assert (B2 := reg_byte (hw v) 0x0f (or_intror eq_refl)).
  cbv zeta. rewrite (wrap_id 16), Z.lor_comm, lor_shiftl_low; [|exact B2|lia|].
  - unfold cursor. rewrite (Z.mul_comm 256), (Z.add_comm _ (reg (hw v) 15)). reflexivity.
  - unfold inU in *. rewrite Z.shiftl_mul_pow2 by lia.
    change (2 ^ 8) with 256 in *. change (2 ^ 16) with 65536. lia.
Qed.

Lemma init_places v :
  exists h, init v = Ret (tt, mk_vga true (fb v) (place v).1 (place v).2 h).
Proof using HC.
  unfold init. rewrite (bind_step _ _ _ v v) by reflexivity. unfold place.
  destruct (inited v) eqn:E.
  - exists (hw v). destruct v; simpl in *; subst. reflexivity.
  - destruct (find_cursor_ok v) as (h & F). exists h.
    rewrite (bind_step _ _ _ _ _ F). reflexivity.
Qed.

(** ** The text *)

Lemma text_length p f y : text p f y -> lenZ f = ROW_CNT.
Proof using Type.
  intros [_ Hl -> _]. unfold lenZ, ROW_CNT in *. rewrite length_drop. lia.
Qed.

Lemma text_geti p f y : text p f y -> geti f y = geti (rows p) (py p).
Proof using Type.
  intros [_ Hl -> [-> Hy]]. unfold geti. rewrite !(proj2 (Z.ltb_ge _ _)) by lia.
  rewrite lookup_drop. f_equal. lia.
Qed.

(** The cursor's row is there, and as wide as the screen. *)
Lemma text_row p f y : text p f y ->
  exists row, geti f y = Some row /\ geti (rows p) (py p) = Some row /\ lenZ row = COL_CNT.
Proof using Type.
  intros T. destruct (geti_lt_Some f y) as (row & E).
  { rewrite (text_length p f y T). apply T. }
  exists row. split; [exact E|]. rewrite (text_geti p f y T) in E. split; [exact E|].
  unfold geti in E. destruct (py p <? 0); [discriminate|].
  exact (Forall_lookup_1 _ _ _ _ (t_rows p f y T) E).
Qed.

Lemma text_ink c p f y x row :
  text p f y -> geti f y = Some row -> lenZ row = COL_CNT -> px p = x ->
  text (mk_paper (ink c p) (x + 1) (py p))
    (seti f y (seti row x (wrap 8 c, GRAY_ON_BLACK))) y.
Proof using Type.
  intros T E Hr <-. pose proof T as [HF Hl Hf [Ey Hy]].
  rewrite (text_geti p f y T) in E. pose proof (geti_Some_lt _ _ _ E) as Hpy.
  unfold ink. rewrite E. split; simpl; rewrite ?lenZ_seti; auto.
  - unfold seti at 1. rewrite (proj2 (Z.ltb_ge _ _)) by lia.
    apply Forall_insert; [exact HF|]. rewrite lenZ_seti. exact Hr.
  - unfold seti at 1 3. rewrite !(proj2 (Z.ltb_ge _ _)) by lia.
    rewrite drop_insert_ge by lia. subst f. f_equal. lia.
Qed.

Lemma clear_row_ok y v :
  0 <= y < lenZ (fb v) -> clear_row y v = Ret (tt, set_fb (seti (fb v) y blank_row) v).
Proof using Type.
  intros Hy. destruct (geti_lt_Some (fb v) y Hy) as (r & E).
  unfold clear_row. rewrite (bind_step _ _ _ v v) by reflexivity.
  unfold mbind, st_bind, lift. rewrite E. reflexivity.
Qed.

Lemma clear_rows_ok n y v :
  0 <= y -> lenZ (fb v) = y + Z.of_nat n ->
  clear_rows n y v = Ret (tt, set_fb (take (Z.to_nat y) (fb v) ++ replicate n blank_row) v).
Proof using Type.
  revert y v. induction n as [|n IH]; intros y v Hy Hl; unfold lenZ in Hl.
  - simpl. rewrite app_nil_r, take_ge by lia. destruct v; reflexivity.
  - simpl clear_rows. rewrite (bind_step _ _ _ _ _ (clear_row_ok y v ltac:(unfold lenZ; lia))).
    rewrite IH by (simpl; rewrite ?lenZ_seti; unfold lenZ; lia). f_equal. f_equal.
    unfold set_fb. simpl. f_equal. unfold seti. rewrite (proj2 (Z.ltb_ge _ _)) by lia.
    replace (Z.to_nat (y + 1)) with (S (Z.to_nat y)) by lia.
    rewrite (take_S_r _ _ blank_row) by (apply list_lookup_insert_eq; lia).
    rewrite take_insert_ge by lia. rewrite <- app_assoc. reflexivity.
Qed.

Lemma blank_row_width : lenZ blank_row = COL_CNT.
Proof using Type. reflexivity. Qed.

(** [memmove] and clearing the last row scroll the screen. *)
Lemma scroll (f : list (list cell)) b :
  lenZ f = ROW_CNT ->
  seti (tail f ++ drop (Z.to_nat ROW_CNT - 1) f) (ROW_CNT - 1) b = drop 1 f ++ [b].
Proof using Type.
  unfold lenZ, ROW_CNT. intros Hl. unfold seti. simpl (_ <? _).
  assert (Ht : length (tail f) = 24%nat) by (destruct f; simpl in *; lia).
  assert (Hd : length (drop 24 f) = 1%nat) by (rewrite length_drop; lia).
  change (Z.to_nat (25 - 1)) with 24%nat. change (Z.to_nat 25 - 1)%nat with 24%nat.
  rewrite insert_app_r_alt, Ht by lia.
  destruct (drop 24 f) as [|d [|]]; simpl in Hd; try lia. destruct f; reflexivity.
Qed.

Lemma scroll_length (f : list (list cell)) :
  lenZ f = ROW_CNT -> lenZ (tail f ++ drop (Z.to_nat ROW_CNT - 1) f) = ROW_CNT.
Proof using Type.
  unfold lenZ, ROW_CNT. intros Hl. rewrite length_app, length_drop.
  destruct f; cbn [length tail] in *; lia.
Qed.

Lemma newline_ok p v :
  text p (fb v) (cy v) ->
  exists f y, newline v = Ret (tt, mk_vga (inited v) f 0 y (hw v)) /\ shows_at (feed p) f 0 y.
Proof using Type.
  intros T. pose proof (text_length _ _ _ T) as Hlen. pose proof T as [HF Hl Hf [Ey Hy]].
  pose proof (scroll_length _ Hlen) as Hs. pose proof (scroll (fb v) blank_row Hlen) as Es.
  unfold newline, feed, shows_at, COL_CNT, mbind, st_bind, modify, get. cbn [cy cx set_cx set_cy].
  unfold ROW_CNT in *. destruct (Z.leb_spec 25 (cy v + 1)), (Z.ltb_spec (py p + 1) (lenZ (rows p))); try lia.
  - rewrite clear_row_ok by (cbn [fb set_fb set_cy set_cx]; lia).
    eexists _, _. split; [reflexivity|]. simpl. split; [|lia]. split; simpl.
    + apply Forall_app. split; [exact HF|]. constructor; [reflexivity|constructor].
    + unfold lenZ, ROW_CNT in *. rewrite length_app. simpl. lia.
    + etransitivity; [exact Es|]. rewrite Hf, drop_drop.
      unfold lenZ, ROW_CNT in *. rewrite length_app, drop_app_le by (cbn [length]; lia).
      f_equal. f_equal. cbn [length]. lia.
    + unfold lenZ, ROW_CNT in *. rewrite length_app. simpl. lia.
  - eexists _, _. split; [reflexivity|]. simpl. split; [|lia]. split; simpl; auto. unfold ROW_CNT. lia.
Qed.

Lemma cls_ok p v :
  text p (fb v) (cy v) ->
  exists h, cls v = Ret (tt, mk_vga (inited v) (replicate (Z.to_nat ROW_CNT) blank_row) 0 0 h)
  /\ shows_at (mk_paper (rows p ++ replicate (Z.to_nat ROW_CNT) blank_row) 0 (lenZ (rows p)))
       (replicate (Z.to_nat ROW_CNT) blank_row) 0 0.
Proof using HC.
  intros T. unfold cls.
  rewrite (bind_step _ _ _ _ _ (clear_rows_ok (Z.to_nat ROW_CNT) 0 v ltac:(lia) (text_length _ _ _ T))).
  unfold mbind, st_bind, modify. rewrite take_0, app_nil_l.
  match goal with |- context [move_cursor ?w] =>
    destruct (move_cursor_ok w) as (h & M & _); [unfold COL_CNT, ROW_CNT; simpl; lia..|] end.
  rewrite M. exists h. split; [reflexivity|].
  destruct T as [HF Hl _ _]. split; [|unfold COL_CNT; simpl; lia]. split; cbn [rows py].
  - apply Forall_app. split; [exact HF|]. apply Forall_replicate. reflexivity.
  - unfold lenZ, ROW_CNT in *. rewrite length_app, length_replicate. lia.
  - unfold lenZ, ROW_CNT in *. rewrite length_app, length_replicate.
    rewrite drop_app_length'; [reflexivity|lia].
  - unfold lenZ, ROW_CNT in *. rewrite length_app, length_replicate. lia.
Qed.

Definition drawn (p : paper) (v : vga) : Prop := inited v = true /\ shows_at p (fb v) (cx v) (cy v).

(** Each arm of the [switch]. *)
Lemma maybe_newline p v :
  inited v = true -> text p (fb v) (cy v) -> cx v = px p -> 0 <= cx v ->
  exists v', (v ← get; if COL_CNT <=? cx v then newline else mret tt) v = Ret (tt, v')
  /\ drawn (if COL_CNT <=? px p then feed p else p) v'.
Proof using Type.
  intros Hi T Ex Hx. unfold mbind, st_bind, get. rewrite <- Ex.
  destruct (Z.leb_spec COL_CNT (cx v)).
  - destruct (newline_ok p v T) as (f & y & N & S). rewrite N. eexists. split; [reflexivity|].
    split; assumption.
  - exists v. split; [reflexivity|]. split; [assumption|]. split; [assumption|]. lia.
Qed.

Lemma show_ok c p v :
  inited v = true -> shows_at p (fb v) (cx v) (cy v) ->
  exists f, show c v = Ret (tt, set_fb f v)
  /\ text (mk_paper (ink c p) (px p + 1) (py p)) f (cy v).
Proof using Type.
  intros Hi [T [Ex Hx]]. destruct (text_row _ _ _ T) as (row & E & _ & Hw).
  destruct (geti_lt_Some row (cx v)) as (b & Eb); [rewrite Hw; exact Hx|].
  eexists. split.
  - unfold show, mbind, st_bind, get, lift. rewrite E. unfold the. cbv beta iota. rewrite Eb. reflexivity.
  - rewrite Ex. apply text_ink; auto.
Qed.

Lemma tab_stop x : (x + 1 + 8 - 1) / 8 * 8 = x + 8 - x mod 8.
Proof using Type. Z.div_mod_to_equations. lia. Qed.

Lemma putc_arm_ok c p v :
  drawn p v -> exists v', putc_arm c v = Ret (tt, v') /\ drawn (paper_putc c p) v'.
Proof using HC.
  intros [Hi S]. pose proof S as [T [Ex Hx]]. unfold putc_arm, paper_putc.
  destruct (c =? 10).
  { destruct (newline_ok p v T) as (f & y & N & S'). rewrite N. eexists.
    split; [reflexivity|]. split; assumption. }
  destruct (c =? 12).
  { destruct (cls_ok p v T) as (h & C & S'). rewrite C. eexists.
    split; [reflexivity|]. split; assumption. }
  destruct (c =? 8).
  { eexists. split; [reflexivity|]. destruct (Z.ltb_spec 0 (cx v)); (split; [assumption|]);
      (split; [destruct T; split; assumption|]); cbn [cx set_cx px]; lia. }
  destruct (c =? 13).
  { eexists. split; [reflexivity|]. split; [assumption|].
    split; [destruct T; split; assumption|]. cbn. unfold COL_CNT. lia. }
  destruct (c =? 9).
  { rewrite (bind_step _ _ _ tt _) by reflexivity.
    assert (T' : text (mk_paper (rows p) (px p + 8 - px p mod 8) (py p)) (fb v) (cy v))
      by (destruct T; split; assumption).
    rewrite tab_stop, Ex. refine (maybe_newline _ (set_cx _ v) Hi T' eq_refl _).
    cbn. Z.div_mod_to_equations. lia. }
  destruct (show_ok c p v Hi S) as (f & E & T'). rewrite (bind_step _ _ _ _ _ E).
  rewrite (bind_step _ _ _ tt _) by reflexivity.
  apply (maybe_newline (mk_paper (ink c p) (px p + 1) (py p)) (set_cx _ (set_fb f v))); cbn; auto; lia.
Qed.

Lemma vga_putc_ok c p v :
  shows p v -> exists v', vga_putc c v = Ret (tt, v') /\ drawn (paper_putc c p) v'
  /\ cursor (hw v') = cx v' + COL_CNT * cy v'.
Proof using HC.
  intros S. destruct (init_places v) as (h & I). unfold vga_putc. rewrite (bind_step _ _ _ _ _ I).
  destruct (putc_arm_ok c p _ (conj eq_refl S : drawn p (mk_vga true (fb v) (place v).1 (place v).2 h)))
    as (v1 & E & [Hi1 S1]).
  rewrite (bind_step _ _ _ _ _ E). destruct S1 as [T1 [Ex Hx]].
  destruct (move_cursor_ok v1 Hx (proj2 (t_y _ _ _ T1))) as (h' & M & C).
  exists (with_hw v1 h'). split; [exact M|]. split; [|exact C].
  exact (conj Hi1 (conj T1 (conj Ex Hx))).
Qed.

Lemma drawn_shows p v : drawn p v -> shows p v.
Proof using Type. intros [Hi S]. unfold shows, place. rewrite Hi. exact S. Qed.

(** C13: whatever characters are written, the display never touches memory
    outside the screen and stops nowhere: from a cursor on the screen, each
    [vga_putc] leaves there the last 25 rows of the paper on which the same
    characters were written, with tabs, backspaces, wrapped lines, form feeds
    and scrolling, and, once one is written, the hardware's cursor is where
    the next goes. *)
Theorem vga_refines_paper cs p v :
  shows p v ->
  exists v', vga_puts cs v = Ret (tt, v') /\ shows (foldl (fun p c => paper_putc c p) p cs) v'
  /\ (cs <> [] -> inited v' = true /\ cursor (hw v') = cx v' + COL_CNT * cy v').
Proof using HC.
  revert p v. induction cs as [|c cs IH]; intros p v S.
  - exists v. split; [reflexivity|]. split; [exact S|]. congruence.
  - destruct (vga_putc_ok c p v S) as (v1 & E & D & C).
    destruct (IH _ _ (drawn_shows _ _ D)) as (v2 & E2 & S2 & C2). exists v2.
    simpl. rewrite (bind_step _ _ _ _ _ E). split; [exact E2|]. split; [exact S2|]. intros _.
    destruct cs; [|apply C2; discriminate]. injection E2 as <-. split; [apply D|exact C].
Qed.

(** A hardware cursor below the screen is taken as it is, and the first
    character is written outside it. *)
Theorem vga_putc_outside c v :
  inited v = false -> lenZ (fb v) = ROW_CNT -> ROW_CNT * COL_CNT <= cursor (hw v) ->
  c ∉ [10; 12; 8; 13; 9] -> vga_putc c v = Stop Fault.
Proof using HC.
  intros Hi Hl Hc Hn. destruct (init_places v) as (h & I). unfold vga_putc.
  rewrite (bind_step _ _ _ _ _ I).
  rewrite !not_elem_of_cons in Hn. destruct Hn as (? & ? & ? & ? & ? & _).
  unfold putc_arm. rewrite !(proj2 (Z.eqb_neq c _)) by assumption.
  unfold place. rewrite Hi. unfold show, mbind, st_bind, get, lift. cbn [fb cy fst snd].
  destruct (geti (fb v) _) eqn:E; [|reflexivity]. apply geti_Some_lt in E.
  rewrite Hl in E. unfold ROW_CNT, COL_CNT in *. Z.div_mod_to_equations. lia.
Qed.

End Refinement.
End Vga.
Arguments vga H : clear implicits.

(** ** A controller with its two cursor registers *)

Record crtc := mk_crtc { index : Z; high : Z; low : Z }.

Definition set_reg (i v : Z) (h : crtc) : crtc :=
  if i =? 0x0e then mk_crtc (index h) v (low h)
  else if i =? 0x0f then mk_crtc (index h) (high h) v else h.

#[global] Instance crtc_ports : Ports crtc := {
  inb p h := Ret (if (p =? 0x3d5) && (index h =? 0x0e) then wrap 8 (high h)
                  else if (p =? 0x3d5) && (index h =? 0x0f) then wrap 8 (low h) else 0xff, h);
  outb p v h := Ret (tt, if p =? 0x3d4 then mk_crtc v (high h) (low h) else h);
  inw p h := Ret (0xffff, h);
  outw p v h := Ret (tt, if p =? 0x3d4 then set_reg (v mod 256) (v / 256) h else h);
  delay t h := Ret (tt, h);
  wait_irq i h := Ret (tt, h);
}.

#[global, program] Instance crtc_crtc : Crtc crtc := {
  reg h i := if i =? 0x0e then wrap 8 (high h) else if i =? 0x0f then wrap 8 (low h) else 0;
  sel := index;
}.
Next Obligation. intros h i [->| ->]; simpl; apply wrap_inU; lia. Qed.
Next Obligation. intros h i Hi. eexists. split; [reflexivity|]. split; reflexivity. Qed.
Next Obligation.
  intros h Hi. exists h. split; [|reflexivity]. simpl.
  destruct Hi as [E|E]; simpl in E; rewrite E; reflexivity.
Qed.
Next Obligation.
  intros h i v Hi Hv. eexists. split; [reflexivity|]. intros j. simpl.
  rewrite lor_shiftl_low by (first [lia | destruct Hi as [->| ->]; inU_num]).
  change (2 ^ 8) with 256. rewrite Z.mod_add, Z.div_add by lia.
  destruct Hi as [->| ->]; simpl; destruct (Z.eqb_spec j 14), (Z.eqb_spec j 15); subst; try reflexivity;
    try lia; apply wrap_id; assumption.
Qed.

Definition demo_vga : vga crtc :=
  mk_vga false (replicate 25 blank_row) 0 0 (mk_crtc 0 0 79).

Definition demo_paper : paper := mk_paper (replicate 25 blank_row) 79 0.

Lemma vga_refines_paper_witness :
  exists v', vga_puts [72; 105; 10; 9] demo_vga = Ret (tt, v')
  /\ shows (foldl (fun p c => paper_putc c p) demo_paper [72; 105; 10; 9]) v'
  /\ ([72; 105; 10; 9] <> [] -> inited v' = true /\ cursor (hw v') = cx v' + COL_CNT * cy v').
Proof.
  apply (vga_refines_paper [72; 105; 10; 9] demo_paper demo_vga).
  split; [split|]; vm_compute; [repeat constructor|discriminate|reflexivity| |];
    repeat split; discriminate.
Defined.
