(* ===== verification/Serial.v ===== *)
(** * The serial port and the input buffer

    [devices/serial.c] and [devices/input.c]: the driver of the machine's
    serial port, by polling or through the queue of bytes to transmit, and
    the buffer of keys that the port and the keyboard fill.  The queues are
    those of [Intq]; a call that has to wait ends there with [Blocks], and is
    made again when the thread is woken.  Registration of the handler is left
    out. *)

From Stdlib Require Import ZArith Lia Bool.
From stdpp Require Import base list.
From S2P Require Import Prelude Ports Intq.

Definition RBR_REG : Z := 0x2f8.
Definition THR_REG : Z := 0x2f8.
Definition IER_REG : Z := 0x2f9.
Definition LS_REG : Z := 0x2f8.
Definition MS_REG : Z := 0x2f9.
Definition IIR_REG : Z := 0x2fa.
Definition FCR_REG : Z := 0x2fa.
Definition LCR_REG : Z := 0x2fb.
Definition MCR_REG : Z := 0x2fc.
Definition LSR_REG : Z := 0x2fd.
Definition IER_RECV : Z := 0x01.
Definition IER_XMIT : Z := 0x02.
Definition LCR_N81 : Z := 0x03.
Definition LCR_DLAB : Z := 0x80.
Definition MCR_OUT2 : Z := 0x08.
Definition LSR_DR : Z := 0x01.
Definition LSR_THRE : Z := 0x20.

Inductive tx_mode := UNINIT | POLL | QUEUE.

#[global] Instance tx_mode_eq_dec : EqDecision tx_mode.
Proof. solve_decision. Defined.

Section Serial.
Context {H : Type} {HP : Ports H}.

(** [intr_on]: interrupts are enabled; [external]: an interrupt handler runs;
    [woken]: the threads unblocked so far. *)
Record serial := mk_serial {
  mode : tx_mode;
  txq : intq;
  buffer : intq;
  intr_on : bool;
  external : bool;
  current : Z;
  woken : list Z;
  hw : H }.

Definition set_mode (m : tx_mode) (s : serial) : serial :=
  mk_serial m (txq s) (buffer s) (intr_on s) (external s) (current s) (woken s) (hw s).
Definition set_txq (q : intq) (s : serial) : serial :=
  mk_serial (mode s) q (buffer s) (intr_on s) (external s) (current s) (woken s) (hw s).
Definition set_buffer (q : intq) (s : serial) : serial :=
  mk_serial (mode s) (txq s) q (intr_on s) (external s) (current s) (woken s) (hw s).
Definition set_on (b : bool) (s : serial) : serial :=
  mk_serial (mode s) (txq s) (buffer s) b (external s) (current s) (woken s) (hw s).
Definition set_hw (h : H) (s : serial) : serial :=
  mk_serial (mode s) (txq s) (buffer s) (intr_on s) (external s) (current s) (woken s) h.
Definition wake (w : option Z) (s : serial) : serial :=
  mk_serial (mode s) (txq s) (buffer s) (intr_on s) (external s) (current s)
    (woken s ++ option_list w) (hw s).

Definition port {A} (m : st H A) : st serial A := fun s =>
  match m (hw s) with Ret (a, h) => Ret (a, set_hw h s) | Stop e => Stop e end.

Definition intr_disable : st serial bool := fun s => Ret (intr_on s, set_on false s).
Definition intr_set_level (b : bool) : st serial unit := modify (set_on b).

Definition interrupts_off : st serial unit := s ← get; lift (assert (negb (intr_on s))).

(** A call of [intq_getc] or [intq_putc] on one of the queues. *)
Definition on_queue {A} (qof : serial -> intq) (set : intq -> serial -> serial)
    (f : intq -> Z -> bool -> res (outcome A * intq)) : st serial (outcome A) :=
  interrupts_off;;
  s ← get;
  '(o, q) ← lift (f (qof s) (current s) (external s));
  put (match o with Blocks => set q s | Done _ w => wake w (set q s) end);;
  mret o.

Definition txq_getc : st serial (outcome Z) := on_queue txq set_txq intq_getc.
Definition txq_putc (b : Z) : st serial (outcome unit) :=
  on_queue txq set_txq (fun q c i => intq_putc q b c i).
Definition buffer_getc : st serial (outcome Z) := on_queue buffer set_buffer intq_getc.
Definition buffer_putc (b : Z) : st serial (outcome unit) :=
  on_queue buffer set_buffer (fun q c i => intq_putc q b c i).

Definition input_init : st serial unit := modify (fun s => set_buffer (intq_init (buffer s)) s).

Definition input_full : st serial bool :=
  interrupts_off;; s ← get; mret (intq_full (buffer s)).

Definition write_ier : st serial unit :=
  interrupts_off;;
  s ← get;
  let ier := if negb (intq_empty (txq s)) then 0 |! IER_XMIT else 0 in
  full ← input_full;
  let ier := if negb full then ier |! IER_RECV else ier in
  port (outb IER_REG ier).

Definition serial_notify : st serial unit :=
  interrupts_off;;
  s ← get;
  if decide (mode s = QUEUE) then write_ier else mret tt.

Definition input_putc (key : Z) : st serial (outcome unit) :=
  interrupts_off;;
  s ← get;
  lift (assert (negb (intq_full (buffer s))));;
  o ← buffer_putc key;
  match o with
  | Blocks => mret Blocks
  | Done _ w => serial_notify;; mret (Done tt w)
  end.

Definition input_getc : st serial (outcome Z) :=
  old_level ← intr_disable;
  o ← buffer_getc;
  match o with
  | Blocks => intr_set_level old_level;; mret Blocks
  | Done key w => serial_notify;; intr_set_level old_level;; mret (Done key w)
  end.

Definition set_serial (bps : Z) : st serial unit :=
  let base_rate := 1843200 / 16 in
  let divisor := wrap 16 (base_rate / bps) in
  lift (assert ((300 <=? bps) && (bps <=? 115200)));;
  port (outb LCR_REG (LCR_N81 |! LCR_DLAB));;
  port (outb LS_REG (divisor &! 0xff));;
  port (outb MS_REG (divisor >> 8));;
  port (outb LCR_REG LCR_N81).

Definition init_poll : st serial unit :=
  s ← get;
  lift (assert (bool_decide (mode s = UNINIT)));;
  port (outb IER_REG 0);;
  port (outb FCR_REG 0);;
  set_serial 115200;;
  port (outb MCR_REG MCR_OUT2);;
  modify (fun s => set_txq (intq_init (txq s)) s);;
  modify (set_mode POLL).

Definition serial_init_queue : st serial unit :=
  s ← get;
  (if decide (mode s = UNINIT) then init_poll else mret tt);;
  s ← get;
  lift (assert (bool_decide (mode s = POLL)));;
  modify (set_mode QUEUE);;
  old_level ← intr_disable;
  write_ier;;
  intr_set_level old_level.

(** The loop of [putc_poll], with the number of times it may look. *)
Fixpoint until_empty (fuel : nat) : st serial unit :=
  match fuel with
  | O => stop_with NoFuel
  | S fuel =>
    v ← port (inb LSR_REG);
    if v &! LSR_THRE =? 0 then until_empty fuel else mret tt
  end.

Definition putc_poll (fuel : nat) (byte : Z) : st serial unit :=
  interrupts_off;;
  until_empty fuel;;
  port (outb THR_REG byte).

Definition serial_putc (fuel : nat) (byte : Z) : st serial (outcome unit) :=
  old_level ← intr_disable;
  s ← get;
  o ← (if decide (mode s = QUEUE) then
         (if negb old_level && intq_full (txq s) then
            o ← txq_getc;
            match o with
            | Blocks => mret tt
            | Done b _ => putc_poll fuel b
            end
          else mret tt);;
         o ← txq_putc byte;
         match o with
         | Blocks => mret Blocks
         | Done _ w => write_ier;; mret (Done tt w)
         end
       else
         (if decide (mode s = UNINIT) then init_poll else mret tt);;
         putc_poll fuel byte;;
         mret (Done tt None));
  intr_set_level old_level;;
  mret o.

(** The bytes still to be sent when the call has to wait. *)
Fixpoint serial_write (fuel : nat) (buf : list Z) : st serial (list Z) :=
  match buf with
  | [] => mret []
  | b :: rest =>
    o ← serial_putc fuel b;
    match o with
    | Blocks => mret (b :: rest)
    | Done _ _ => serial_write fuel rest
    end
  end.

(** Loops over a queue of at most 63 bytes.  A queue found not to be empty
    never blocks [intq_getc]. *)
Fixpoint flush_loop (n fuel : nat) : st serial unit :=
  s ← get;
  if intq_empty (txq s) then mret tt
  else
    match n with
    | O => stop_with NoFuel
    | S n =>
      o ← txq_getc;
      match o with
      | Blocks => mret tt
      | Done b _ => putc_poll fuel b;; flush_loop n fuel
      end
    end.

Definition serial_flush (fuel : nat) : st serial unit :=
  old_level ← intr_disable;
  flush_loop 63 fuel;;
  intr_set_level old_level.

Fixpoint receive_loop (n : nat) : st serial unit :=
  full ← input_full;
  if full : bool then mret tt
  else
    v ← port (inb LSR_REG);
    if v &! LSR_DR =? 0 then mret tt
    else
      match n with
      | O => stop_with NoFuel
      | S n =>
        b ← port (inb RBR_REG);
        input_putc b;;
        receive_loop n
      end.

Fixpoint transmit_loop (n : nat) : st serial unit :=
  s ← get;
  if intq_empty (txq s) then mret tt
  else
    v ← port (inb LSR_REG);
    if v &! LSR_THRE =? 0 then mret tt
    else
      match n with
      | O => stop_with NoFuel
      | S n =>
        o ← txq_getc;
        match o with
        | Blocks => mret tt
        | Done b _ => port (outb THR_REG b);; transmit_loop n
        end
      end.

Definition serial_interrupt : st serial unit :=
  port (inb IIR_REG);;
  receive_loop 63;;
  transmit_loop 63;;
  write_ier.

(** ** The line *)

(** What the port's hardware holds: bytes received and not yet read, bytes
    sent and bytes read so far, the interrupt enable register, the divisor
    latch's access bit, and for how many more looks the transmitter is
    busy. *)
Record line := mk_line {
  rx : list Z; tx : list Z; got : list Z; ier : Z; dlab : bool; busy : nat }.

End Serial.
Arguments serial H : clear implicits.

(** The 16550 as the driver uses it.  No byte arrives while the driver looks;
    the transmitter is never busy for more than [slow] looks. *)
Class Line (H : Type) {HP : Ports H} := {
  view : H -> line;
  slow : nat;
  busy_slow h : (busy (view h) <= slow)%nat;
  inb_iir h : exists v h', inb IIR_REG h = Ret (v, h') /\ view h' = view h;
  inb_lsr h : exists v h', inb LSR_REG h = Ret (v, h')
    /\ (v &! LSR_DR =? 0) = bool_decide (rx (view h) = [])
    /\ (v &! LSR_THRE =? 0) = bool_decide (busy (view h) <> 0%nat)
    /\ view h' = mk_line (rx (view h)) (tx (view h)) (got (view h)) (ier (view h)) (dlab (view h))
                  (pred (busy (view h)));
  inb_rbr h b r : dlab (view h) = false -> rx (view h) = b :: r ->
    exists h', inb RBR_REG h = Ret (b, h')
    /\ view h' = mk_line r (tx (view h)) (got (view h) ++ [b]) (ier (view h)) false (busy (view h));
  outb_thr h b : dlab (view h) = false -> busy (view h) = 0%nat ->
    exists h' n, outb THR_REG b h = Ret (tt, h')
    /\ view h' = mk_line (rx (view h)) (tx (view h) ++ [b]) (got (view h)) (ier (view h)) false n;
  outb_ier h v : dlab (view h) = false ->
    exists h', outb IER_REG v h = Ret (tt, h')
    /\ view h' = mk_line (rx (view h)) (tx (view h)) (got (view h)) v false (busy (view h));
  outb_latch h p v : dlab (view h) = true -> p = LS_REG \/ p = MS_REG ->
    exists h', outb p v h = Ret (tt, h') /\ view h' = view h;
  outb_lcr h v : exists h', outb LCR_REG v h = Ret (tt, h')
    /\ view h' = mk_line (rx (view h)) (tx (view h)) (got (view h)) (ier (view h))
                  (negb (v &! LCR_DLAB =? 0)) (busy (view h));
  outb_control h p v : p = FCR_REG \/ p = MCR_REG ->
    exists h', outb p v h = Ret (tt, h') /\ view h' = view h;
}.

Section Correct.
Context {H : Type} {HP : Ports H} {HL : Line H}.
Implicit Types (s : serial H).

(** [m] returns, with a result and state of which [Q] holds. *)
Definition does {A} (m : st (serial H) A) s (Q : A -> serial H -> Prop) : Prop :=
  match m s with Ret (a, s') => Q a s' | Stop _ => False end.

Lemma does_bind {A B} (m : st (serial H) A) (f : A -> st (serial H) B) s Q :
  does m s (fun a s' => does (f a) s' Q) -> does (m ≫= f) s Q.
Proof using Type. unfold does, mbind, st_bind. destruct (m s) as [[a s']|]; auto. Qed.

Lemma does_mono {A} (m : st (serial H) A) s (Q R : A -> serial H -> Prop) :
  does m s Q -> (forall a s', Q a s' -> R a s') -> does m s R.
Proof using Type. unfold does. destruct (m s) as [[a s']|]; auto. Qed.

Lemma does_get s Q : Q s s -> does get s Q.
Proof using Type. auto. Qed.
Lemma does_ret {A} (a : A) s (Q : A -> serial H -> Prop) : Q a s -> does (mret a) s Q.
Proof using Type. auto. Qed.
Lemma does_modify f s Q : Q tt (f s) -> does (modify f) s Q.
Proof using Type. auto. Qed.

(** The driver seen from outside: the queues' bytes and the line. *)
Record view_of := mk_view { v_mode : tx_mode; v_tx : list Z; v_in : list Z; v_line : line }.

Record reps (a : view_of) (on ext : bool) s : Prop := {
  r_mode : mode s = v_mode a;
  r_txq : wf (txq s);
  r_buffer : wf (buffer s);
  r_tx : contents (txq s) = v_tx a;
  r_in : contents (buffer s) = v_in a;
  r_line : view (hw s) = v_line a;
  r_on : intr_on s = on;
  r_ext : external s = ext;
}.

Definition set_line (l : line) (a : view_of) : view_of := mk_view (v_mode a) (v_tx a) (v_in a) l.

Lemma reps_hw a on ext s h : reps a on ext s -> reps (set_line (view h) a) on ext (set_hw h s).
Proof using Type. intros []. split; auto. Qed.

Lemma does_port {A} (m : st H A) s r h Q : m (hw s) = Ret (r, h) -> Q r (set_hw h s) -> does (port m) s Q.
Proof using Type. intros E. unfold does, port. rewrite E. auto. Qed.

(** The next access of a port, which [E] says how it goes. *)
Local Ltac by_port E := apply does_bind; eapply does_port; [exact E|].

Lemma does_off a ext s Q : reps a false ext s -> Q tt s -> does interrupts_off s Q.
Proof using Type.
  intros R HQ. unfold interrupts_off. apply does_bind, does_get. rewrite (r_on _ _ _ _ R). exact HQ.
Qed.

Definition in_full (a : view_of) : bool := lenZ (v_in a) =? 63.

Lemma full_contents q : wf q -> intq_full q = (lenZ (contents q) =? 63).
Proof using Type. intros W. rewrite contents_length. apply full_count, W. Qed.

Lemma empty_contents q : wf q -> intq_empty q = bool_decide (contents q = []).
Proof using Type.
  intros W. rewrite (empty_count q W). apply Bool.eq_true_iff_eq.
  rewrite bool_decide_eq_true, contents_nil. apply Z.eqb_eq.
Qed.

Lemma does_input_full a ext s Q : reps a false ext s -> Q (in_full a) s -> does input_full s Q.
Proof using Type.
  intros R HQ. unfold input_full. apply does_bind. apply (does_off _ _ _ _ R). apply does_bind, does_get, does_ret.
  rewrite (full_contents _ (r_buffer _ _ _ _ R)), (r_in _ _ _ _ R). exact HQ.
Qed.

Lemma full_at a ext s : reps a false ext s -> input_full s = Ret (in_full a, s).
Proof using Type.
  intros R. pose proof (does_input_full a ext s (fun b s' => b = in_full a /\ s' = s) R) as W.
  unfold does in W. destruct (input_full s) as [[b s']|]; [|by destruct W]. by destruct W as [-> ->].
Qed.

(** What [write_ier] writes. *)
Definition ier_for (a : view_of) : Z :=
  (if bool_decide (v_tx a = []) then 0 else IER_XMIT) |! (if in_full a then 0 else IER_RECV).

Definition enabled (a : view_of) : view_of :=
  set_line (mk_line (rx (v_line a)) (tx (v_line a)) (got (v_line a)) (ier_for a) false (busy (v_line a))) a.

Lemma does_write_ier a ext s Q :
  reps a false ext s -> dlab (v_line a) = false ->
  (forall s', reps (enabled a) false ext s' -> Q tt s') -> does write_ier s Q.
Proof using Type.
  intros R Hd HQ. unfold write_ier. apply does_bind, (does_off _ _ _ _ R), does_bind, does_get.
  cbv zeta. apply does_bind, (does_input_full _ _ _ _ R).
  rewrite (empty_contents _ (r_txq _ _ _ _ R)), (r_tx _ _ _ _ R).
  replace (if negb (in_full a) then _ else _) with (ier_for a)
    by (unfold ier_for; destruct (bool_decide _), (in_full a); reflexivity).
  destruct (outb_ier (hw s) (ier_for a)) as (h & E & V); [rewrite (r_line _ _ _ _ R); exact Hd|].
  apply (does_port _ _ _ _ _ E). apply HQ. pose proof (reps_hw _ _ _ _ h R) as R'.
  rewrite V, (r_line _ _ _ _ R) in R'. exact R'.
Qed.

Lemma does_notify a ext s Q :
  reps a false ext s -> dlab (v_line a) = false ->
  (forall s', reps (if decide (v_mode a = QUEUE) then enabled a else a) false ext s' -> Q tt s') ->
  does serial_notify s Q.
Proof using Type.
  intros R Hd HQ. unfold serial_notify. apply does_bind, (does_off _ _ _ _ R), does_bind, does_get.
  rewrite (r_mode _ _ _ _ R). destruct (decide _).
  - apply (does_write_ier _ _ _ _ R Hd), HQ.
  - apply does_ret, HQ, R.
Qed.

Definition set_tx (l : list Z) (a : view_of) : view_of := mk_view (v_mode a) l (v_in a) (v_line a).
Definition set_in (l : list Z) (a : view_of) : view_of := mk_view (v_mode a) (v_tx a) l (v_line a).

Lemma does_queue {A} qof set (f : intq -> Z -> bool -> res (outcome A * intq)) a ext s o q Q :
  reps a false ext s -> f (qof s) (current s) ext = Ret (o, q) ->
  Q o (match o with Blocks => set q s | Done _ w => wake w (set q s) end) ->
  does (on_queue qof set f) s Q.
Proof using Type.
  intros R E HQ. unfold on_queue. apply does_bind, (does_off _ _ _ _ R), does_bind, does_get, does_bind.
  unfold does at 1, lift. rewrite (r_ext _ _ _ _ R), E. exact HQ.
Qed.

Lemma does_tx_getc a b bs ext s Q :
  reps a false ext s -> v_tx a = b :: bs ->
  (forall w s', reps (set_tx bs a) false ext s' -> Q (Done b w) s') -> does txq_getc s Q.
Proof using Type.
  intros R E HQ. pose proof (getc_correct (txq s) (current s) ext (r_txq _ _ _ _ R)) as C.
  rewrite (r_tx _ _ _ _ R), E in C. destruct C as (q & w & G & W & C & _).
  apply (does_queue _ _ _ _ _ _ _ _ _ R G), HQ. destruct R. split; auto.
Qed.

(** Without room, a thread waits for it. *)
Lemma does_tx_putc a b ext s Q :
  reps a false ext s ->
  (if lenZ (v_tx a) =? 63 then ext = false /\ forall s', reps a false ext s' -> Q Blocks s'
   else forall w s', reps (set_tx (v_tx a ++ [b]) a) false ext s' -> Q (Done tt w) s') ->
  does (txq_putc b) s Q.
Proof using Type.
  intros R HQ. pose proof (putc_correct (txq s) b (current s) ext (r_txq _ _ _ _ R)) as C.
  rewrite (r_tx _ _ _ _ R) in C. destruct (_ =? 63).
  - destruct HQ as [-> HQ]. destruct C as (q & G & W & C & _).
    refine (does_queue _ _ _ _ _ _ _ _ _ R G _). apply HQ. destruct R. split; auto. 
  - destruct C as (q & w & G & W & C & _).
    refine (does_queue _ _ _ _ _ _ _ _ _ R G _). apply HQ. destruct R. split; auto.
Qed.

Lemma does_in_putc a b ext s Q :
  reps a false ext s -> dlab (v_line a) = false -> in_full a = false ->
  (forall w s', reps (let a := set_in (v_in a ++ [b]) a in
      if decide (v_mode a = QUEUE) then enabled a else a) false ext s' -> Q (Done tt w) s') ->
  does (input_putc b) s Q.
Proof using Type.
  intros R Hd Hf HQ. unfold input_putc. apply does_bind, (does_off _ _ _ _ R), does_bind, does_get.
  rewrite (full_contents _ (r_buffer _ _ _ _ R)), (r_in _ _ _ _ R). unfold in_full in Hf. rewrite Hf.
  apply does_bind, does_ret, does_bind.
  pose proof (putc_correct (buffer s) b (current s) ext (r_buffer _ _ _ _ R)) as C.
  rewrite (r_in _ _ _ _ R), Hf in C. destruct C as (q & w & G & W & C & _).
  refine (does_queue _ _ _ _ _ _ _ _ _ R G _). apply does_bind.
  apply (does_notify (set_in (v_in a ++ [b]) a) ext); [destruct R; split; auto|exact Hd|].
  intros s' R'. apply does_ret, HQ, R'.
Qed.

(** ** Polling *)

Definition sent_line (l : line) (bs : list Z) (n : nat) : line :=
  mk_line (rx l) (tx l ++ bs) (got l) (ier l) false n.

Lemma does_until fuel a ext s Q :
  reps a false ext s -> (busy (v_line a) < fuel)%nat ->
  (forall s', reps (set_line (mk_line (rx (v_line a)) (tx (v_line a)) (got (v_line a)) (ier (v_line a))
      (dlab (v_line a)) 0) a) false ext s' -> Q tt s') ->
  does (until_empty fuel) s Q.
Proof using Type.
  revert a s. induction fuel as [|fuel IH]; intros a s R Hb HQ; [lia|]. simpl until_empty.
  destruct (inb_lsr (hw s)) as (v & h & E & _ & T & V). pose proof (reps_hw _ _ _ _ h R) as R'.
  rewrite V, (r_line _ _ _ _ R) in R'. rewrite (r_line _ _ _ _ R) in T.
  apply does_bind, (does_port _ _ _ _ _ E). rewrite T.
  destruct (busy (v_line a)) as [|n] eqn:Eb.
  - rewrite bool_decide_false by auto. apply does_ret, HQ. exact R'.
  - rewrite bool_decide_true by auto. apply (IH _ _ R'); [simpl; lia|exact HQ].
Qed.

Lemma does_poll fuel b a ext s Q :
  reps a false ext s -> dlab (v_line a) = false -> (slow < fuel)%nat ->
  (forall n s', reps (set_line (sent_line (v_line a) [b] n) a) false ext s' -> Q tt s') ->
  does (putc_poll fuel b) s Q.
Proof using Type.
  intros R Hd Hf HQ. unfold putc_poll. apply does_bind, (does_off _ _ _ _ R), does_bind.
  apply (does_until fuel a ext s _ R).
  { rewrite <- (r_line _ _ _ _ R). pose proof (busy_slow (hw s)). lia. }
  intros s1 R1. destruct (outb_thr (hw s1) b) as (h & n & E & V);
    [rewrite (r_line _ _ _ _ R1); first [exact Hd|reflexivity]..|].
  apply (does_port _ _ _ _ _ E), (HQ n). pose proof (reps_hw _ _ _ _ h R1) as R'.
  rewrite V, (r_line _ _ _ _ R1) in R'. exact R'.
Qed.

(** ** Invariant *)

(** The registers at the driver's ports are reachable; bytes wait only in
    queued mode, where the transmitter's interrupt is then enabled and the
    receiver's is exactly while there is room. *)
Record inv (a : view_of) : Prop := {
  i_dlab : dlab (v_line a) = false;
  i_tx : v_mode a <> QUEUE -> v_tx a = [];
  i_xmit : v_mode a = QUEUE -> v_tx a <> [] -> ier (v_line a) &! IER_XMIT <> 0;
  i_recv : v_mode a = QUEUE -> (ier (v_line a) &! IER_RECV =? 0) = in_full a;
}.

(** From [a] to [a'] the driver took the bytes [p] to transmit and gave the
    bytes [g] to readers, losing none and keeping their order. *)
Definition flow (a a' : view_of) (p g : list Z) : Prop :=
  tx (v_line a') ++ v_tx a' = (tx (v_line a) ++ v_tx a) ++ p
  /\ exists d, got (v_line a') = got (v_line a) ++ d /\ g ++ v_in a' = v_in a ++ d.

Lemma flow_refl a : flow a a [] [].
Proof using Type. split; [by rewrite app_nil_r|]. exists []. by rewrite !app_nil_r. Qed.

Lemma flow_trans a b c p q g k : flow a b p g -> flow b c q k -> flow a c (p ++ q) (g ++ k).
Proof using Type.
  intros [T1 (d & G1 & I1)] [T2 (e & G2 & I2)]. split; [by rewrite T2, T1, !app_assoc|].
  exists (d ++ e). split; [by rewrite G2, G1, app_assoc|]. by rewrite <- app_assoc, I2, !app_assoc, I1.
Qed.

Lemma inv_enabled a : v_mode a = QUEUE -> inv (enabled a).
Proof using Type.
  intros Hm. split; simpl; try congruence; intros _.
  - intros Ht. unfold ier_for. rewrite bool_decide_false by exact Ht. by destruct (in_full a).
  - unfold ier_for, in_full. simpl. by destruct (bool_decide _), (_ =? 63).
Qed.

Lemma flow_enabled a : flow a (enabled a) [] [].
Proof using Type. exact (flow_refl a). Qed.

Lemma flow_ier a v m n : flow a (mk_view m (v_tx a) (v_in a)
  (mk_line (rx (v_line a)) (tx (v_line a)) (got (v_line a)) v false n)) [] [].
Proof using Type. exact (flow_refl a). Qed.

Lemma does_init_poll a on ext s Q :
  reps a on ext s -> inv a -> v_mode a = UNINIT ->
  (forall a' s', reps a' on ext s' -> inv a' -> v_mode a' = POLL -> v_in a' = v_in a ->
    flow a a' [] [] -> Q tt s') ->
  does init_poll s Q.
Proof using Type.
  intros R I Hm HQ. unfold init_poll, set_serial. apply does_bind, does_get.
  rewrite (r_mode _ _ _ _ R), Hm. apply does_bind, does_ret.
  pose proof (r_line _ _ _ _ R) as V.
  destruct (outb_ier (hw s) 0) as (h1 & E1 & V1); [rewrite V; apply I|].
  destruct (outb_control h1 FCR_REG 0) as (h2 & E2 & V2); [auto|].
  destruct (outb_lcr h2 (LCR_N81 |! LCR_DLAB)) as (h3 & E3 & V3).
  destruct (outb_latch h3 LS_REG (wrap 16 (1843200 / 16 / 115200) &! 0xff)) as (h4 & E4 & V4);
    [rewrite V3; reflexivity|auto|].
  destruct (outb_latch h4 MS_REG (wrap 16 (1843200 / 16 / 115200) >> 8)) as (h5 & E5 & V5);
    [rewrite V4, V3; reflexivity|auto|].
  destruct (outb_lcr h5 LCR_N81) as (h6 & E6 & V6).
  destruct (outb_control h6 MCR_REG MCR_OUT2) as (h7 & E7 & V7); [auto|].
  by_port E1. by_port E2. apply does_bind. cbv zeta. apply does_bind, does_ret.
  by_port E3. by_port E4. by_port E5. eapply does_port; [exact E6|]. by_port E7.
  apply does_bind, does_modify, does_modify.
  destruct (init_wf (txq s)) as [W C]; [apply R|].
  pose proof (i_tx a I ltac:(congruence)) as Ht.
  apply (HQ (mk_view POLL (v_tx a) (v_in a) (view h7))).
  - destruct R. split; simpl; auto; congruence.
  - rewrite V7, V6, V5, V4, V3, V2, V1. split; simpl; try congruence; auto.
  - reflexivity.
  - reflexivity.
  - rewrite V7, V6, V5, V4, V3, V2, V1, V. apply flow_ier.
Qed.

Lemma reps_on a on ext s b : reps a on ext s -> reps a b ext (set_on b s).
Proof using Type. intros []. split; auto. Qed.

Lemma does_level a on ext s b Q :
  reps a on ext s -> (forall s', reps a b ext s' -> Q tt s') -> does (intr_set_level b) s Q.
Proof using Type. intros R HQ. apply does_modify, HQ, (reps_on _ _ _ _ _ R). Qed.

Lemma does_disable a on ext s Q :
  reps a on ext s -> (forall s', reps a false ext s' -> Q on s') -> does intr_disable s Q.
Proof using Type.
  intros R HQ. unfold does, intr_disable. rewrite (r_on _ _ _ _ R). apply HQ, (reps_on _ _ _ _ _ R).
Qed.

Lemma does_init_queue a on ext s Q :
  reps a on ext s -> inv a -> v_mode a <> QUEUE ->
  (forall a' s', reps a' on ext s' -> inv a' -> flow a a' [] [] -> Q tt s') ->
  does serial_init_queue s Q.
Proof using Type.
  intros R I Hm HQ. unfold serial_init_queue. apply does_bind, does_get, does_bind.
  assert (K : forall a1 s1, reps a1 on ext s1 -> inv a1 -> v_mode a1 = POLL -> flow a a1 [] [] ->
    does (s ← get; lift (assert (bool_decide (mode s = POLL)));;
        modify (set_mode QUEUE);; old_level ← intr_disable; write_ier;; intr_set_level old_level) s1 Q).
  { intros a1 s1 R1 I1 M1 F1. apply does_bind, does_get. rewrite (r_mode _ _ _ _ R1), M1.
    apply does_bind, does_ret, does_bind, does_modify, does_bind.
    apply (does_disable (mk_view QUEUE (v_tx a1) (v_in a1) (v_line a1)) on ext).
    { destruct R1. split; auto. }
    intros s2 R2. apply does_bind, (does_write_ier _ _ _ _ R2 (i_dlab _ I1)). intros s3 R3.
    apply (does_level _ _ _ _ _ _ R3). intros s4 R4. apply (HQ _ _ R4); [by apply inv_enabled|].
    exact F1. }
  rewrite (r_mode _ _ _ _ R). destruct (v_mode a) eqn:E; [| |congruence].
  - apply (does_init_poll _ _ _ _ _ R I E). intros a1 s1 R1 I1 M1 _ F1. by apply (K a1).
  - apply does_ret, (K a); auto. apply flow_refl.
Qed.

(** ** Operations *)

(** What a call leaves: [p] taken, [g] given. *)
Definition leaves (a : view_of) (on ext : bool) (p g : list Z) s : Prop :=
  exists a', reps a' on ext s /\ inv a' /\ flow a a' p g.

Definition completed {A} (o : outcome A) (l : list Z) : list Z :=
  match o with Blocks => [] | Done _ _ => l end.

(** The oldest queued byte goes to the line. *)
Lemma flow_send a b bs n :
  v_tx a = b :: bs ->
  flow a (set_line (sent_line (v_line a) [b] n) (set_tx bs a)) [] [].
Proof using Type.
  intros E. split; simpl; [by rewrite E, app_nil_r, <- app_assoc|]. exists []. by rewrite !app_nil_r.
Qed.

Lemma queue_byte a a0 b ext s Q :
  reps a false ext s -> dlab (v_line a) = false -> v_mode a = QUEUE -> lenZ (v_tx a) <> 63 ->
  flow a0 a [] [] ->
  (forall w s', leaves a0 false ext [b] [] s' -> Q (Done tt w) s') ->
  does (o ← txq_putc b; match o with Blocks => mret Blocks | Done _ w => write_ier;; mret (Done tt w) end) s Q.
Proof using Type.
  intros R Hd Hm Hl F HQ. apply does_bind, (does_tx_putc _ _ _ _ _ R).
  rewrite (proj2 (Z.eqb_neq _ _)) by exact Hl. intros w s1 R1.
  apply does_bind, (does_write_ier _ _ _ _ R1 Hd). intros s2 R2. apply does_ret, HQ.
  eexists. split; [exact R2|]. split; [by apply inv_enabled|].
  apply (flow_trans _ _ _ [] [b] [] [] F). split; simpl; [by rewrite app_assoc|].
  exists []. by rewrite !app_nil_r.
Qed.

(** Only a thread with interrupts enabled waits. *)
Definition put_byte (a : view_of) (b : Z) (on lvl ext : bool) (o : outcome unit) s : Prop :=
  leaves a lvl ext (completed o [b]) [] s /\ (o = Blocks -> on = true).

Lemma putc_queued fuel b a on ext s Q :
  reps a false ext s -> inv a -> v_mode a = QUEUE -> (ext = true -> on = false) -> (slow < fuel)%nat ->
  (forall o s', put_byte a b on false ext o s' -> Q o s') ->
  does ((if negb on && intq_full (txq s) then
         o ← txq_getc; match o with Blocks => mret tt | Done b _ => putc_poll fuel b end
       else mret tt);;
      o ← txq_putc b;
      match o with Blocks => mret Blocks | Done _ w => write_ier;; mret (Done tt w) end) s Q.
Proof using Type.
  intros R I Hm He Hf HQ. rewrite (full_contents _ (r_txq _ _ _ _ R)), (r_tx _ _ _ _ R).
  assert (K : forall w s', leaves a false ext [b] [] s' -> Q (Done tt w) s').
  { intros w s' L. apply HQ. by split. }
  apply does_bind. destruct (Z.eqb_spec (lenZ (v_tx a)) 63) as [Hl|Hl].
  - destruct on; simpl.
    + apply does_ret, does_bind, (does_tx_putc _ _ _ _ _ R). rewrite Hl. split.
      { destruct ext; [|reflexivity]. by discriminate He. }
      intros s2 R2. apply does_ret, HQ. split; [|done]. exists a. split; [exact R2|].
      split; [exact I|]. apply flow_refl.
    + destruct (v_tx a) as [|c cs] eqn:Et; [discriminate|].
      apply does_bind, (does_tx_getc _ _ _ _ _ _ R Et). intros w s2 R2.
      apply (does_poll _ _ _ _ _ _ R2 (i_dlab _ I) Hf). intros n s3 R3.
      eapply queue_byte; [exact R3|reflexivity|exact Hm| |exact (flow_send a c cs n Et)|exact K].
      unfold lenZ in *. simpl in *. lia.
  - rewrite andb_false_r. apply does_ret.
    eapply queue_byte; [exact R|apply I|exact Hm|exact Hl|apply flow_refl|exact K].
Qed.

Lemma poll_byte fuel b a0 a ext s :
  reps a false ext s -> inv a -> v_mode a <> QUEUE -> (slow < fuel)%nat -> flow a0 a [] [] ->
  does (putc_poll fuel b) s (fun _ => leaves a0 false ext [b] []).
Proof using Type.
  intros R I Hm Hf F. apply (does_poll _ _ _ _ _ _ R (i_dlab _ I) Hf). intros n s3 R3.
  eexists. split; [exact R3|]. pose proof (i_tx _ I Hm) as Ht.
  split; [split; simpl; auto; congruence|].
  apply (flow_trans _ _ _ [] [b] [] [] F). split; simpl; [by rewrite Ht, !app_nil_r|].
  exists []. by rewrite !app_nil_r.
Qed.

Lemma putc_ok fuel b a on ext s :
  reps a on ext s -> inv a -> (ext = true -> on = false) -> (slow < fuel)%nat ->
  does (serial_putc fuel b) s (put_byte a b on on ext).
Proof using Type.
  intros R I He Hf. unfold serial_putc. apply does_bind, (does_disable _ _ _ _ _ R). intros s1 R1.
  apply does_bind, does_get, does_bind.
  assert (K : forall o s2, put_byte a b on false ext o s2 ->
    does (intr_set_level on;; mret o) s2 (put_byte a b on on ext)).
  { intros o s2 [(a' & R2 & I2 & F2) Ho]. apply does_bind, (does_level _ _ _ _ _ _ R2). intros s3 R3.
    apply does_ret. split; [|exact Ho]. exists a'. auto. }
  rewrite (r_mode _ _ _ _ R1). destruct (decide (v_mode a = QUEUE)) as [Hm|Hm].
  { by apply (putc_queued fuel b a on ext). }
  apply does_bind.
  assert (K2 : forall a1 s2, reps a1 false ext s2 -> inv a1 -> v_mode a1 <> QUEUE -> flow a a1 [] [] ->
    does (putc_poll fuel b;; mret (Done tt None)) s2
      (fun o s' => does (intr_set_level on;; mret o) s' (put_byte a b on on ext))).
  { intros a1 s2 R2 I2 M2 F2. apply does_bind. eapply does_mono; [by apply (poll_byte fuel b a a1 ext)|].
    intros [] s3 L. apply does_ret, K. by split. }
  destruct (decide (v_mode a = UNINIT)) as [Hu|Hu].
  - apply (does_init_poll _ _ _ _ _ R1 I Hu). intros a1 s2 R2 I2 M2 _ F2. apply (K2 a1); auto. congruence.
  - apply does_ret, (K2 a); auto. apply flow_refl.
Qed.

(** A buffer goes out in order, all of it with interrupts off. *)
Lemma write_in_order fuel buf a on ext s :
  reps a on ext s -> inv a -> (ext = true -> on = false) -> (slow < fuel)%nat ->
  does (serial_write fuel buf) s (fun rest s' =>
    exists done, buf = done ++ rest /\ leaves a on ext done [] s' /\ (on = false -> rest = [])).
Proof using Type.
  intros R I He Hf. revert a s R I. induction buf as [|b buf IH]; intros a s R I; simpl.
  - apply does_ret. exists []. split; [done|]. split; [|done]. exists a. split; [exact R|].
    split; [exact I|apply flow_refl].
  - apply does_bind. eapply does_mono; [by apply (putc_ok fuel b a on ext)|].
    intros [|[] w] s1 [(a1 & R1 & I1 & F1) Ho]; simpl in F1.
    + apply does_ret. exists []. split; [done|]. split; [by exists a1|]. intros ->. by discriminate Ho.
    + eapply does_mono; [apply (IH a1 s1 R1 I1)|]. intros rest s2 (d & -> & (a2 & R2 & I2 & F2) & Hr).
      exists (b :: d). split; [done|]. split; [|exact Hr]. exists a2. split; [exact R2|]. split; [exact I2|].
      exact (flow_trans _ _ _ [b] d [] [] F1 F2).
Qed.

(** Flushing empties the queue. *)
Lemma flush_loop_ok n fuel a ext s :
  reps a false ext s -> inv a -> (slow < fuel)%nat -> lenZ (v_tx a) <= Z.of_nat n ->
  does (flush_loop n fuel) s (fun _ s' => exists a', reps a' false ext s' /\ inv a' /\ flow a a' [] []
    /\ v_tx a' = []).
Proof using Type.
  intros R I Hf. revert a s R I. induction n as [|n IH]; intros a s R I Hl; simpl;
    apply does_bind, does_get; rewrite (empty_contents _ (r_txq _ _ _ _ R)), (r_tx _ _ _ _ R);
    destruct (v_tx a) as [|c cs] eqn:Et; try (unfold lenZ in Hl; simpl in Hl; lia);
    try (apply does_ret; exists a; split; [exact R|]; split; [exact I|]; split; [apply flow_refl|exact Et]).
  rewrite bool_decide_false by discriminate.
  apply does_bind, (does_tx_getc _ _ _ _ _ _ R Et). intros w s1 R1.
  apply does_bind, (does_poll _ _ _ _ _ _ R1 (i_dlab _ I) Hf). intros k s2 R2.
  assert (Hm : v_mode a = QUEUE).
  { destruct (decide (v_mode a = QUEUE)) as [|Hm]; [done|]. rewrite (i_tx _ I Hm) in Et. done. }
  eapply does_mono; [apply (IH _ _ R2)|].
  - split; simpl; try congruence; [|apply I]. intros _ _. apply I; [exact Hm|]. by rewrite Et.
  - unfold lenZ in *. simpl in *. lia.
  - intros [] s3 (a' & R3 & I3 & F3 & E3). exists a'. split; [exact R3|]. split; [exact I3|].
    split; [|exact E3]. exact (flow_trans _ _ _ [] [] [] [] (flow_send a c cs k Et) F3).
Qed.

Lemma queue_bound a on ext s : reps a on ext s -> lenZ (v_tx a) <= 63 /\ lenZ (v_in a) <= 63.
Proof using Type.
  intros R. rewrite <- (r_tx _ _ _ _ R), <- (r_in _ _ _ _ R), !contents_length.
  pose proof (count_range (txq s)). pose proof (count_range (buffer s)). lia.
Qed.

Lemma flush_ok fuel a on ext s :
  reps a on ext s -> inv a -> (slow < fuel)%nat ->
  does (serial_flush fuel) s (fun _ s' => leaves a on ext [] [] s' /\ contents (txq s') = []).
Proof using Type.
  intros R I Hf. unfold serial_flush. apply does_bind, (does_disable _ _ _ _ _ R). intros s1 R1.
  apply does_bind. eapply does_mono; [apply (flush_loop_ok 63 fuel a ext s1 R1 I Hf)|].
  { apply (queue_bound _ _ _ _ R1). }
  intros [] s2 (a' & R2 & I2 & F2 & E2). apply (does_level _ _ _ _ _ _ R2). intros s3 R3.
  split; [exists a'; auto|]. by rewrite (r_tx _ _ _ _ R3).
Qed.

Lemma getc_ok a on s :
  reps a on false s -> inv a ->
  does input_getc s (fun o s' =>
    leaves a on false [] (match o with Blocks => [] | Done b _ => [b] end) s'
    /\ (o = Blocks <-> v_in a = [])).
Proof using Type.
  intros R I. unfold input_getc. apply does_bind, (does_disable _ _ _ _ _ R). intros s1 R1.
  pose proof (getc_correct (buffer s1) (current s1) false (r_buffer _ _ _ _ R1)) as C.
  rewrite (r_in _ _ _ _ R1) in C. apply does_bind. destruct (v_in a) as [|b bs] eqn:Ei.
  - destruct C as (q & G & W & C & _). refine (does_queue _ _ _ _ _ _ _ _ _ R1 G _).
    apply does_bind, (does_level a false false); [destruct R1; split; simpl; auto; congruence|].
    intros s2 R2. apply does_ret. split; [|done]. exists a. split; [exact R2|]. split; [exact I|apply flow_refl].
  - destruct C as (q & w & G & W & C & _). refine (does_queue _ _ _ _ _ _ _ _ _ R1 G _).
    apply does_bind, (does_notify (set_in bs a) false); [destruct R1; split; auto|apply I|].
    intros s2 R2. apply does_bind, (does_level _ _ _ _ _ _ R2). intros s3 R3. apply does_ret. split; [|done].
    eexists. split; [exact R3|].
    assert (F : flow a (set_in bs a) [] [b])
      by (split; [by rewrite app_nil_r|]; exists []; rewrite !app_nil_r; split; [done|]; by rewrite Ei).
    simpl v_mode. destruct (decide (v_mode a = QUEUE)) as [Hm|Hm]; (split; [|exact F]).
    + by apply inv_enabled.
    + destruct I. split; simpl; auto; intros; simpl in *; congruence.
Qed.

(** ** The interrupt handler *)

(** The receiver's bytes that there is room for go to the input buffer. *)
Definition accepted (a : view_of) : list Z := take (63 - length (v_in a)) (rx (v_line a)).

Record received (a a' : view_of) (d : list Z) : Prop := {
  rc_inv : inv a';
  rc_mode : v_mode a' = v_mode a;
  rc_tx : v_tx a' = v_tx a /\ tx (v_line a') = tx (v_line a);
  rc_in : v_in a' = v_in a ++ d;
  rc_got : got (v_line a') = got (v_line a) ++ d;
  rc_rx : rx (v_line a) = d ++ rx (v_line a');
  rc_end : in_full a' = true \/ rx (v_line a') = [];
  rc_busy : busy (v_line a) = 0%nat -> busy (v_line a') = 0%nat;
}.

(** A look at the status register. *)
Definition looked (a : view_of) : view_of :=
  set_line (mk_line (rx (v_line a)) (tx (v_line a)) (got (v_line a)) (ier (v_line a)) (dlab (v_line a))
    (pred (busy (v_line a)))) a.

Lemma inv_looked a : inv a -> inv (looked a).
Proof using Type. intros []. split; auto. Qed.

Lemma does_look a ext s Q :
  reps a false ext s ->
  (forall v s', reps (looked a) false ext s' ->
    (v &! LSR_DR =? 0) = bool_decide (rx (v_line a) = []) ->
    (v &! LSR_THRE =? 0) = bool_decide (busy (v_line a) <> 0%nat) -> Q v s') ->
  does (port (inb LSR_REG)) s Q.
Proof using Type.
  intros R HQ. destruct (inb_lsr (hw s)) as (v & h & E & D & T & V).
  rewrite (r_line _ _ _ _ R) in D, T, V. eapply does_port; [exact E|]. apply HQ; auto.
  pose proof (reps_hw _ _ _ _ h R) as R'. rewrite V in R'. exact R'.
Qed.

(** One byte from the receiver. *)
Definition read_one (a : view_of) (b : Z) (r : list Z) : view_of :=
  let a := mk_view (v_mode a) (v_tx a) (v_in a ++ [b])
    (mk_line r (tx (v_line a)) (got (v_line a) ++ [b]) (ier (v_line a)) false (busy (v_line a))) in
  if decide (v_mode a = QUEUE) then enabled a else a.

Lemma inv_read_one a b r : inv a -> inv (read_one a b r).
Proof using Type.
  intros I. unfold read_one. simpl v_mode. destruct (decide (v_mode a = QUEUE)) as [Hm|Hm].
  - by apply inv_enabled.
  - destruct I. split; auto; intros; simpl in *; congruence.
Qed.

Lemma received_step a b r a' d :
  rx (v_line a) = b :: r -> received (read_one (looked a) b r) a' d -> received a a' (b :: d).
Proof using Type.
  intros Er [Iv M T In G Rx E B]. unfold read_one in *. simpl v_mode in *.
  destruct (decide (v_mode a = QUEUE)); simpl in *; (split; auto;
    [by rewrite In, <- app_assoc|by rewrite G, <- app_assoc|by rewrite Er, Rx|
     intros Hb; apply B; by rewrite Hb]).
Qed.

Lemma receive_loop_ok n a ext s :
  reps a false ext s -> inv a -> 63 - lenZ (v_in a) <= Z.of_nat n ->
  does (receive_loop n) s (fun _ s' => exists a' d, reps a' false ext s' /\ received a a' d).
Proof using Type.
  revert a s. induction n as [|n IH]; intros a s R I Hn; pose proof (queue_bound _ _ _ _ R) as [_ Hb];
    cbn [receive_loop]; apply does_bind, (does_input_full _ _ _ _ R);
    (destruct (in_full a) eqn:Ef; [apply does_ret; exists a, []; split; [exact R|];
      split; rewrite ?app_nil_r; auto|]).
  - unfold in_full in Ef. apply Z.eqb_neq in Ef. lia.
  - apply does_bind, (does_look _ _ _ _ R). intros v s1 R1 D _. rewrite D.
    destruct (rx (v_line a)) as [|b r] eqn:Er.
    + rewrite bool_decide_true by done. apply does_ret. exists (looked a), []. split; [exact R1|].
      pose proof (inv_looked a I). split; rewrite ?app_nil_r; auto. intros E. simpl. by rewrite E.
    + rewrite bool_decide_false by done.
      destruct (inb_rbr (hw s1) b r) as (h & E & V); rewrite (r_line _ _ _ _ R1) in *;
        [apply I|exact Er|]. by_port E. pose proof (reps_hw _ _ _ _ h R1) as R2. rewrite V in R2.
      apply does_bind. eapply does_in_putc; [exact R2|reflexivity|exact Ef|]. intros w s2 R3.
      eapply does_mono; [apply (IH (read_one (looked a) b r) s2 R3); [by apply inv_read_one, inv_looked|]|].
      * unfold read_one. destruct (decide _); simpl; unfold lenZ in *; rewrite length_app; simpl; lia.
      * intros [] s3 (a' & d & R4 & C). exists a', (b :: d). split; [exact R4|].
        by apply (received_step a b r).
Qed.

Lemma received_accepted a a' d on ext s : reps a' on ext s -> received a a' d -> d = accepted a.
Proof using Type.
  intros R [_ _ _ Hin _ Hrx He _]. unfold accepted. rewrite Hrx.
  pose proof (queue_bound _ _ _ _ R) as [_ Hb]. unfold lenZ in Hb. rewrite Hin, length_app in Hb.
  destruct He as [Hf|He].
  - unfold in_full, lenZ in Hf. apply Z.eqb_eq in Hf. rewrite Hin, length_app in Hf.
    rewrite take_app_length'; [done|lia].
  - rewrite He, app_nil_r, take_ge; [done|lia].
Qed.

Record transmitted (a a' : view_of) (d : list Z) : Prop := {
  tr_inv : inv a';
  tr_mode : v_mode a' = v_mode a;
  tr_queue : v_tx a = d ++ v_tx a';
  tr_line : tx (v_line a') = tx (v_line a) ++ d;
  tr_in : v_in a' = v_in a /\ got (v_line a') = got (v_line a) /\ rx (v_line a') = rx (v_line a);
  tr_some : busy (v_line a) = 0%nat -> v_tx a <> [] -> d <> [];
}.

(** One byte from the queue to the transmitter. *)
Definition send_one (a : view_of) (bs : list Z) (b : Z) (n : nat) : view_of :=
  set_line (sent_line (v_line a) [b] n) (set_tx bs a).

Lemma transmitted_step a b bs n a' d :
  v_tx a = b :: bs -> transmitted (send_one (looked a) bs b n) a' d -> transmitted a a' (b :: d).
Proof using Type.
  intros E [Iv M Q L In _]. simpl in *. split; auto; [by rewrite E, Q|by rewrite L, <- app_assoc].
Qed.

Lemma inv_send_one a b bs n : inv a -> v_tx a = b :: bs -> inv (send_one a bs b n).
Proof using Type.
  intros [D T X C] E. split; simpl; auto; intros Hm.
  - rewrite (T Hm) in E. discriminate.
  - intros _. apply X; [exact Hm|]. by rewrite E.
Qed.

Lemma transmit_loop_ok n a ext s :
  reps a false ext s -> inv a -> lenZ (v_tx a) <= Z.of_nat n ->
  does (transmit_loop n) s (fun _ s' => exists a' d, reps a' false ext s' /\ transmitted a a' d).
Proof using Type.
  revert a s. induction n as [|n IH]; intros a s R I Hn; cbn [transmit_loop];
    apply does_bind, does_get; rewrite (empty_contents _ (r_txq _ _ _ _ R)), (r_tx _ _ _ _ R);
    (destruct (v_tx a) as [|b bs] eqn:Et;
     [apply does_ret; exists a, []; split; [exact R|]; split; rewrite ?app_nil_r; auto; congruence|]).
  - unfold lenZ in Hn. simpl in Hn. lia.
  - rewrite bool_decide_false by done. apply does_bind, (does_look _ _ _ _ R). intros v s1 R1 _ T. rewrite T.
    destruct (busy (v_line a)) as [|k] eqn:Eb.
    + rewrite bool_decide_false by auto. apply does_bind, (does_tx_getc _ _ _ _ _ _ R1 Et). intros w s2 R2.
      destruct (outb_thr (hw s2) b) as (h & m & E & V);
        [rewrite (r_line _ _ _ _ R2); simpl; rewrite ?Eb; first [apply I|reflexivity]..|].
      by_port E. pose proof (reps_hw _ _ _ _ h R2) as R3. rewrite V, (r_line _ _ _ _ R2) in R3.
      eapply does_mono; [apply (IH (send_one (looked a) bs b m) _ R3)|].
      * apply inv_send_one; [by apply inv_looked|exact Et].
      * unfold lenZ in *. simpl in *. lia.
      * intros [] s3 (a' & d & R4 & C). exists a', (b :: d). split; [exact R4|].
        by apply (transmitted_step a b bs m).
    + rewrite bool_decide_true by auto. apply does_ret. exists (looked a), []. split; [exact R1|].
      pose proof (inv_looked a I). split; simpl; rewrite ?app_nil_r; auto; congruence.
Qed.

Lemma interrupt_ok a s :
  reps a false true s -> inv a -> v_mode a = QUEUE ->
  does serial_interrupt s (fun _ s' => exists a' a1 sent,
    reps (enabled a') false true s' /\ received a a1 (accepted a) /\ transmitted a1 a' sent).
Proof using Type.
  intros R I Hm. destruct (inb_iir (hw s)) as (v & h & E & V). unfold serial_interrupt. by_port E.
  pose proof (reps_hw _ _ _ _ h R) as R1. rewrite V, (r_line _ _ _ _ R) in R1.
  replace (set_line (v_line a) a) with a in R1 by (destruct a; reflexivity).
  apply does_bind. eapply does_mono; [apply (receive_loop_ok 63 a true _ R1 I)|].
  { unfold lenZ. lia. }
  intros [] s2 (a1 & d & R2 & C2). pose proof (received_accepted _ _ _ _ _ _ R2 C2) as ->.
  apply does_bind. eapply does_mono; [apply (transmit_loop_ok 63 a1 true _ R2 (rc_inv _ _ _ C2))|].
  { apply (queue_bound _ _ _ _ R2). }
  intros [] s3 (a' & d & R3 & C3). apply (does_write_ier _ _ _ _ R3 (i_dlab _ (tr_inv _ _ _ C3))).
  intros s4 R4. exists a', a1, d. auto.
Qed.

Lemma flow_interrupt a a1 a' d :
  received a a1 (accepted a) -> transmitted a1 a' d -> flow a (enabled a') [] [].
Proof using Type.
  intros [_ _ [T1 T2] In G _ _ _] [_ _ Q L (In' & G' & _) _]. split; simpl.
  - by rewrite L, app_nil_r, <- app_assoc, <- Q, T1, T2.
  - exists (accepted a). rewrite G', In', G, In. auto.
Qed.

(** ** Runs *)

Definition empty_queue : intq := mk_intq None None (replicate 64 0) 0 0.

Definition boot (h : H) : serial H :=
  mk_serial UNINIT empty_queue empty_queue false false 0 [] h.

Definition set_context (on ext : bool) (cur : Z) s : serial H :=
  mk_serial (mode s) (txq s) (buffer s) on ext cur (woken s) (hw s).

(** A byte put in the input buffer: read from the serial port's receiver, or
    a character of the keyboard's handler. *)
Inductive arrival := Rx (b : Z) | Key (b : Z).

Definition byte_of (x : arrival) : Z := match x with Rx b | Key b => b end.
Definition from_line (x : arrival) : option Z := match x with Rx b => Some b | Key _ => None end.

(** The bytes a call has read from the receiver. *)
Definition arrived s s' : list arrival :=
  Rx <$> drop (length (got (view (hw s)))) (got (view (hw s'))).

(** The states the driver gets into, with the bytes [P] that were put to be
    transmitted, the bytes [A] that arrived for the input and the bytes [G]
    that were read from the input, by any sequence of calls from threads and
    handlers.  Between them the kernel changes thread, enters and leaves
    handlers, which run with interrupts off, and the line goes on: bytes
    arrive and the transmitter gets busy or free.  Threads alone read the
    input; the serial port's handler is there once the queue is; the
    keyboard's handler puts a character after it has found room. *)
Inductive reachable (fuel : nat) : serial H -> list Z -> list arrival -> list Z -> Prop :=
| run_boot h :
    dlab (view h) = false -> tx (view h) = [] -> got (view h) = [] ->
    reachable fuel (boot h) [] [] []
| run_init s s' P A G :
    reachable fuel s P A G -> mode s <> QUEUE -> serial_init_queue s = Ret (tt, s') ->
    reachable fuel s' P (A ++ arrived s s') G
| run_putc s s' P A G b o :
    reachable fuel s P A G -> serial_putc fuel b s = Ret (o, s') ->
    reachable fuel s' (P ++ completed o [b]) (A ++ arrived s s') G
| run_flush s s' P A G :
    reachable fuel s P A G -> serial_flush fuel s = Ret (tt, s') ->
    reachable fuel s' P (A ++ arrived s s') G
| run_interrupt s s' P A G :
    reachable fuel s P A G -> external s = true -> mode s = QUEUE -> serial_interrupt s = Ret (tt, s') ->
    reachable fuel s' P (A ++ arrived s s') G
| run_key s s' P A G key o :
    reachable fuel s P A G -> external s = true -> input_full s = Ret (false, s) ->
    input_putc key s = Ret (o, s') ->
    reachable fuel s' P (A ++ Key key :: arrived s s') G
| run_getc s s' P A G o :
    reachable fuel s P A G -> external s = false -> input_getc s = Ret (o, s') ->
    reachable fuel s' P (A ++ arrived s s') (G ++ match o with Blocks => [] | Done b _ => [b] end)
| run_context s P A G on ext cur :
    reachable fuel s P A G -> (ext = true -> on = false) ->
    reachable fuel (set_context on ext cur s) P A G
| run_line s P A G h bs n :
    reachable fuel s P A G ->
    view h = mk_line (rx (view (hw s)) ++ bs) (tx (view (hw s))) (got (view (hw s)))
      (ier (view (hw s))) (dlab (view (hw s))) n ->
    reachable fuel (set_hw h s) P A G.

(** The account of the bytes, in both directions. *)
Definition balanced (P : list Z) (A : list arrival) (G : list Z) (a : view_of) : Prop :=
  tx (v_line a) ++ v_tx a = P /\ G ++ v_in a = byte_of <$> A /\ omap from_line A = got (v_line a).

Definition accounted P A G s : Prop :=
  exists a, reps a (intr_on s) (external s) s /\ inv a /\ (external s = true -> intr_on s = false)
  /\ balanced P A G a.

Lemma arrived_flow s s' d :
  got (view (hw s')) = got (view (hw s)) ++ d -> arrived s s' = Rx <$> d.
Proof using Type. intros E. unfold arrived. by rewrite E, drop_app_length. Qed.

Lemma rx_bytes (d : list Z) : byte_of <$> (Rx <$> d) = d.
Proof using Type. rewrite <- list_fmap_compose. apply list_fmap_id. Qed.

Lemma rx_line (d : list Z) : omap from_line (Rx <$> d) = d.
Proof using Type. induction d as [|b d IH]; [done|]. cbn. f_equal. exact IH. Qed.

Lemma accounted_leaves P A G p g a on ext s0 s :
  leaves a on ext p g s -> (ext = true -> on = false) -> view (hw s0) = v_line a ->
  balanced P A G a -> accounted (P ++ p) (A ++ arrived s0 s) (G ++ g) s.
Proof using Type.
  intros (a' & R & I & T & d & Eg & Ei) He V (HP' & HG & HL'). exists a'.
  rewrite (r_on _ _ _ _ R), (r_ext _ _ _ _ R). split; [exact R|]. split; [exact I|]. split; [exact He|].
  rewrite (arrived_flow s0 s d) by (rewrite (r_line _ _ _ _ R), V; exact Eg).
  split; [by rewrite T, HP'|]. rewrite fmap_app, omap_app, rx_bytes, rx_line.
  split; [|by rewrite HL', Eg]. by rewrite <- app_assoc, Ei, app_assoc, HG.
Qed.

(** An operation whose rule is known keeps the account. *)
Lemma accounted_wp {B} (m : st (serial H) B) P A G p g a s s' o (X : B -> serial H -> Prop) :
  does m s X -> m s = Ret (o, s') ->
  (forall o s', X o s' -> leaves a (intr_on s) (external s) (p o) (g o) s') ->
  (external s = true -> intr_on s = false) -> view (hw s) = v_line a ->
  balanced P A G a -> accounted (P ++ p o) (A ++ arrived s s') (G ++ g o) s'.
Proof using Type.
  intros W E L He V HB. unfold does in W. rewrite E in W.
  exact (accounted_leaves _ _ _ _ _ _ _ _ _ _ (L _ _ W) He V HB).
Qed.

(** A character of the keyboard. *)
Definition keyed (key : Z) (a : view_of) : view_of :=
  let a := set_in (v_in a ++ [key]) a in if decide (v_mode a = QUEUE) then enabled a else a.

Lemma inv_keyed key a : inv a -> inv (keyed key a).
Proof using Type.
  intros I. unfold keyed. simpl v_mode. destruct (decide (v_mode a = QUEUE)) as [Hm|Hm].
  - by apply inv_enabled.
  - destruct I. split; simpl; auto; intros; congruence.
Qed.

Lemma key_ok key a s :
  reps a false true s -> inv a -> in_full a = false ->
  does (input_putc key) s (fun _ s' => reps (keyed key a) false true s').
Proof using Type. intros R I Hf. apply (does_in_putc _ _ _ _ _ R (i_dlab _ I) Hf). intros w s' R'. exact R'. Qed.

Lemma accounted_key P A G key a s s' o :
  reps a false true s -> inv a -> balanced P A G a -> input_full s = Ret (false, s) ->
  input_putc key s = Ret (o, s') -> accounted P (A ++ Key key :: arrived s s') G s'.
Proof using Type.
  intros R I (HT & HG & HL') F E.
  pose proof (does_input_full a true s (fun b _ => b = in_full a) R eq_refl) as Hf.
  unfold does in Hf. rewrite F in Hf. pose proof (key_ok key a s R I (eq_sym Hf)) as W.
  unfold does in W. rewrite E in W. exists (keyed key a).
  rewrite (r_on _ _ _ _ W), (r_ext _ _ _ _ W). split; [exact W|]. split; [by apply inv_keyed|]. split; [done|].
  assert (K : v_in (keyed key a) = v_in a ++ [key] /\ v_tx (keyed key a) = v_tx a
    /\ tx (v_line (keyed key a)) = tx (v_line a) /\ got (v_line (keyed key a)) = got (v_line a))
    by (unfold keyed; simpl v_mode; by destruct (decide _)).
  destruct K as (K1 & K2 & K3 & K4).
  rewrite (arrived_flow s s' []) by (rewrite (r_line _ _ _ _ W), (r_line _ _ _ _ R), K4; by rewrite app_nil_r).
  unfold balanced. rewrite K1, K2, K3, K4, fmap_app, omap_app. simpl. rewrite app_nil_r, app_assoc, HG. auto.
Qed.

Lemma reachable_accounted fuel s P A G :
  (slow < fuel)%nat -> reachable fuel s P A G -> accounted P A G s.
Proof using Type.
  intros Hf. induction 1 as [h D T Gt|s s' P A G _ (a & R & I & He & HB) Hm E
    |s s' P A G b o _ (a & R & I & He & HB) E|s s' P A G _ (a & R & I & He & HB) E
    |s s' P A G _ (a & R & I & He & HB) Hx Hm E|s s' P A G key o _ (a & R & I & He & HB) Hx F E
    |s s' P A G o _ (a & R & I & He & HB) Hx E
    |s P A G on ext cur _ (a & R & I & He & HB) Hc|s P A G h bs n _ (a & R & I & He & HB) V].
  - exists (mk_view UNINIT [] [] (view h)). unfold balanced. simpl. rewrite T, Gt.
    split; [split; simpl; try reflexivity; by apply (init_wf empty_queue)|].
    split; [split; simpl; try congruence; done|]. auto.
  - rewrite <- (app_nil_r P), <- (app_nil_r G).
    refine (accounted_wp _ P A G (fun _ => []) (fun _ => []) a s s' tt
      (fun _ => leaves a (intr_on s) (external s) [] []) _ E _ He (r_line _ _ _ _ R) HB); [|auto].
    apply (does_init_queue _ _ _ _ _ R I); [rewrite <- (r_mode _ _ _ _ R); exact Hm|].
    intros a' s1 R1 I1 F1. by exists a'.
  - rewrite <- (app_nil_r G).
    refine (accounted_wp _ P A G (fun o => completed o [b]) (fun _ => []) a s s' o _
      (putc_ok fuel b a _ _ s R I He Hf) E _ He (r_line _ _ _ _ R) HB). by intros o1 s1 [L _].
  - rewrite <- (app_nil_r P), <- (app_nil_r G).
    refine (accounted_wp _ P A G (fun _ => []) (fun _ => []) a s s' tt _
      (flush_ok fuel a _ _ s R I Hf) E _ He (r_line _ _ _ _ R) HB). by intros o1 s1 [L _].
  - rewrite <- (app_nil_r P), <- (app_nil_r G). rewrite Hx in *. rewrite (He eq_refl) in R.
    rewrite (r_mode _ _ _ _ R) in Hm. pose proof (interrupt_ok a s R I Hm) as W.
    unfold does in W. rewrite E in W. destruct W as (a' & a1 & d & R1 & C1 & C2).
    apply (accounted_leaves P A G [] [] a false true); auto; [|apply (r_line _ _ _ _ R)]. exists (enabled a').
    split; [exact R1|]. split; [|by apply (flow_interrupt a a1 a' d)].
    apply inv_enabled. by rewrite (tr_mode _ _ _ C2), (rc_mode _ _ _ C1).
  - rewrite Hx, (He Hx) in R. by apply (accounted_key P A G key a s s' o).
  - rewrite <- (app_nil_r P). rewrite Hx in R.
    refine (accounted_wp _ P A G (fun _ => []) (fun o => match o with Blocks => [] | Done b _ => [b] end)
      a s s' o _ (getc_ok a _ s R I) E _ He (r_line _ _ _ _ R) HB). rewrite Hx. by intros o1 s1 [L _].
  - exists a. split; [destruct R; split; auto|]. auto.
  - exists (set_line (view h) a). unfold balanced in *. rewrite V, <- (r_line _ _ _ _ R) in *.
    pose proof (reps_hw _ _ _ _ h R) as R'. rewrite V in R'. split; [exact R'|].
    split; [|auto]. rewrite (r_line _ _ _ _ R). destruct I. split; auto.
Qed.

Definition returns {A} (m : st (serial H) A) s : Prop := exists o s', m s = Ret (o, s').

Lemma does_returns {A} (m : st (serial H) A) s Q : does m s Q -> returns m s.
Proof using Type. unfold does, returns. destruct (m s) as [[o s']|]; [eauto|done]. Qed.


(** C33: the handler serves both directions.  It takes from the receiver as
    many bytes as the input has room for, in order; it sends a first part of
    the queue, which is not empty when there is a byte and the transmitter is
    free; and it leaves enabled the interrupts that are still wanted. *)
Theorem serial_interrupt_serves a s :
  reps a false true s -> inv a -> v_mode a = QUEUE ->
  exists s' sent, serial_interrupt s = Ret (tt, s')
  /\ contents (buffer s') = contents (buffer s) ++ accepted a
  /\ rx (view (hw s)) = accepted a ++ rx (view (hw s'))
  /\ contents (txq s) = sent ++ contents (txq s')
  /\ tx (view (hw s')) = tx (view (hw s)) ++ sent
  /\ (busy (view (hw s)) = 0%nat -> contents (txq s) <> [] -> sent <> [])
  /\ (ier (view (hw s')) &! IER_XMIT =? 0) = bool_decide (contents (txq s') = [])
  /\ (ier (view (hw s')) &! IER_RECV =? 0) = (lenZ (contents (buffer s')) =? 63).
Proof using Type.
  intros R I Hm. pose proof (interrupt_ok a s R I Hm) as W. unfold does in W.
  destruct (serial_interrupt s) as [[[] s']|]; [|done]. destruct W as (a' & a1 & d & R' & C & T).
  exists s', d. split; [done|].
  rewrite (r_tx _ _ _ _ R), (r_in _ _ _ _ R), (r_line _ _ _ _ R),
    (r_tx _ _ _ _ R'), (r_in _ _ _ _ R'), (r_line _ _ _ _ R'). simpl.
  destruct C as [_ _ [C1 C2] C3 C4 C5 _ C6], T as [_ _ T1 T2 (T3 & T4 & T5) T6].
  rewrite <- C1, <- C2. split_and!; try congruence.
  - intros B Q. apply T6; [by apply C6|exact Q].
  - unfold ier_for. by destruct (bool_decide _), (in_full a').
  - unfold ier_for, in_full. by destruct (bool_decide _), (_ =? 63).
Qed.

End Correct.

(** ** A machine

    Its serial port is busy for one look after each byte; a keyboard's bytes
    wait at port 0x60. *)

Record chip := mk_chip {
  c_rx : list Z; c_tx : list Z; c_got : list Z; c_ier : Z; c_dlab : bool; c_busy : bool;
  c_scan : list Z }.

Definition chip_inb (p : Z) (h : chip) : Z * chip :=
  if p =? LSR_REG then
    ((if decide (c_rx h = []) then 0 else LSR_DR) |! (if c_busy h then 0 else LSR_THRE),
     mk_chip (c_rx h) (c_tx h) (c_got h) (c_ier h) (c_dlab h) false (c_scan h))
  else if p =? RBR_REG then
    match c_rx h with
    | b :: r => (b, mk_chip r (c_tx h) (c_got h ++ [b]) (c_ier h) (c_dlab h) (c_busy h) (c_scan h))
    | [] => (0, h)
    end
  else if p =? 0x60 then
    (match c_scan h with b :: _ => b | [] => 0 end,
     mk_chip (c_rx h) (c_tx h) (c_got h) (c_ier h) (c_dlab h) (c_busy h) (drop 1 (c_scan h)))
  else (0, h).

Definition chip_outb (p v : Z) (h : chip) : chip :=
  if p =? THR_REG then
    if c_dlab h then h else mk_chip (c_rx h) (c_tx h ++ [v]) (c_got h) (c_ier h) false true (c_scan h)
  else if p =? IER_REG then
    if c_dlab h then h else mk_chip (c_rx h) (c_tx h) (c_got h) v false (c_busy h) (c_scan h)
  else if p =? LCR_REG then
    mk_chip (c_rx h) (c_tx h) (c_got h) (c_ier h) (negb (v &! LCR_DLAB =? 0)) (c_busy h) (c_scan h)
  else h.

#[global] Instance chip_ports : Ports chip := {
  inb p h := Ret (chip_inb p h);
  outb p v h := Ret (tt, chip_outb p v h);
  inw p h := Ret (0, h);
  outw p v h := Ret (tt, h);
  delay t h := Ret (tt, h);
  wait_irq i h := Ret (tt, h);
}.

Definition chip_view (h : chip) : line :=
  mk_line (c_rx h) (c_tx h) (c_got h) (c_ier h) (c_dlab h) (if c_busy h then 1 else 0)%nat.

#[global] Instance chip_line : Line chip.
Proof.
  refine {| view := chip_view; slow := 1 |}.
  - intros []. simpl. destruct c_busy0; lia.
  - intros h. eexists _, _. split; reflexivity.
  - intros []. eexists _, _. split; [reflexivity|]. simpl.
    destruct c_busy0, c_rx0; repeat split; reflexivity.
  - intros [] b r D E. simpl in *. subst. eexists. split; reflexivity.
  - intros [] b D _. simpl in *. subst. eexists _, 1%nat. split; reflexivity.
  - intros [] v D. simpl in *. subst. eexists. split; reflexivity.
  - intros [] p v D [->| ->]; simpl in *; subst; eexists; split; reflexivity.
  - intros [] v. eexists. split; reflexivity.
  - intros h p v [->| ->]; eexists; split; reflexivity.
Defined.

Definition idle_chip : chip := mk_chip [] [] [] 0 false false [].

Definition state_after {A} (r : res (A * serial chip)) : serial chip :=
  match r with Ret (_, s) => s | Stop _ => boot idle_chip end.

Definition demo1 : serial chip := state_after (serial_putc 2 72 (boot idle_chip)).
Definition demo2 : serial chip := state_after (serial_init_queue demo1).
Definition demo3 : serial chip := state_after (serial_putc 2 105 demo2).
Definition demo4 : serial chip := state_after (serial_putc 2 33 demo3).

Definition demo5 : serial chip := set_context false true 0 demo4.
Definition demo6 : serial chip := state_after (input_putc 97 demo5).


Definition demo_serial : serial chip :=
  mk_serial QUEUE (mk_intq None None (seti (replicate 64 0) 0 105) 1 0) empty_queue false true 0 []
    (mk_chip [65; 66] [] [] 3 false false []).

Definition demo_view : view_of :=
  mk_view QUEUE [105] [] (mk_line [65; 66] [] [] 3 false 0).

Lemma serial_interrupt_serves_witness :
  exists s' sent, serial_interrupt demo_serial = Ret (tt, s')
  /\ contents (buffer s') = [65; 66] /\ sent = [105] /\ tx (view (hw s')) = sent.
Proof.
  destruct (serial_interrupt_serves demo_view demo_serial) as (s' & sent & E & B & _ & T & X & _).
  - split; try reflexivity; split; simpl; try reflexivity; try lia; congruence.
  - split; [reflexivity|by intros []|by vm_compute|reflexivity].
  - reflexivity.
  - exists s', sent. split; [exact E|]. split; [exact B|].
    split; [|exact X]. vm_compute in E. injection E as <-. vm_compute in X. symmetry. exact X.
Defined.
