(* ===== verification/Kbd.v ===== *)
(** * The keyboard

    [devices/kbd.c]: the interrupt handler that turns scan codes into
    characters in the input buffer of [Serial], and the state of the shift
    keys.  The characters are compared with the keys of a US keyboard, and the
    shift keys with the history of key presses and releases.  Messages are
    left out. *)

From Stdlib Require Import ZArith Lia Bool.
From Stdlib Require Strings.String Strings.Ascii.
Import Strings.String.StringSyntax.
From stdpp Require Import base list.
From S2P Require Import Prelude Strtol Ports Intq Serial.

Definition DATA_REG : Z := 0x60.

Definition chars (s : String.string) : list Z :=
  map (fun a => Z.of_nat (Ascii.nat_of_ascii a)) (String.list_ascii_of_string s).
Arguments chars s%_string_scope : assert.

(** [struct keymap]: the scan code of the first character, the characters. *)
Definition keymap : Type := Z * list Z.

Definition invariant_keymap : list keymap :=
  [(0x01, [27]); (0x0e, [8]); (0x0f, 9 :: chars "QWERTYUIOP"); (0x1c, [13]);
   (0x1e, chars "ASDFGHJKL"); (0x2c, chars "ZXCVBNM"); (0x37, chars "*"); (0x39, chars " ");
   (0x53, [127])].

Definition unshifted_keymap : list keymap :=
  [(0x02, chars "1234567890-="); (0x1a, chars "[]"); (0x27, chars ";'`"); (0x2b, [92]);
   (0x33, chars ",./")].

Definition shifted_keymap : list keymap :=
  [(0x02, chars "!@#$%^&*()_+"); (0x1a, chars "{}"); (0x27, [58; 34; 126]); (0x2b, chars "|");
   (0x33, chars "<>?")].

Fixpoint map_key (k : list keymap) (scancode : Z) : option Z :=
  match k with
  | [] => None
  | (first, cs) :: k =>
    if (first <=? scancode) && (scancode <? first + lenZ cs) then geti cs (scancode - first)
    else map_key k scancode
  end.

(** The condition of the second branch, with the character it finds. *)
Definition find_char (shift : bool) (code : Z) : option Z :=
  match map_key invariant_keymap code with
  | Some c => Some c
  | None => if shift then map_key shifted_keymap code else map_key unshifted_keymap code
  end.

Definition tolower (c : Z) : Z := if isupper c then c - 65 + 97 else c.

Record shifts := mk_shifts {
  left_shift : bool; right_shift : bool; left_alt : bool; right_alt : bool;
  left_ctrl : bool; right_ctrl : bool; caps_lock : bool }.

(** The character as Ctrl, Shift, Caps Lock and Alt change it. *)
Definition adjust (shift ctrl alt caps : bool) (c : Z) : Z :=
  let c := if ctrl && (0x40 <=? c) && (c <? 0x60) then wrap 8 (c - 0x40)
           else if Bool.eqb shift caps then wrap 8 (tolower c) else c in
  if alt then wrap 8 (c + 0x80) else c.

(** The scan of [shift_keys]. *)
Definition set_key (code : Z) (down : bool) (m : shifts) : shifts :=
  let '(mk_shifts ls rs la ra lc rc caps) := m in
  if code =? 0x2a then mk_shifts down rs la ra lc rc caps
  else if code =? 0x36 then mk_shifts ls down la ra lc rc caps
  else if code =? 0x38 then mk_shifts ls rs down ra lc rc caps
  else if code =? 0xe038 then mk_shifts ls rs la down lc rc caps
  else if code =? 0x1d then mk_shifts ls rs la ra down rc caps
  else if code =? 0xe01d then mk_shifts ls rs la ra lc down caps
  else m.

Definition toggle_caps (m : shifts) : shifts :=
  mk_shifts (left_shift m) (right_shift m) (left_alt m) (right_alt m) (left_ctrl m) (right_ctrl m)
    (negb (caps_lock m)).

Section Kbd.
Context {H : Type} {HP : Ports H}.

Record kbd := mk_kbd { keys : shifts; key_cnt : Z; input : serial H }.

Definition on_input {A} (m : st (serial H) A) : st kbd A := fun k =>
  match m (input k) with
  | Ret (a, s) => Ret (a, mk_kbd (keys k) (key_cnt k) s)
  | Stop e => Stop e
  end.

Definition set_keys (m : shifts) (k : kbd) : kbd := mk_kbd m (key_cnt k) (input k).

Definition keyboard_interrupt : st kbd unit :=
  k ← get;
  let m := keys k in
  let shift := left_shift m || right_shift m in
  let alt := left_alt m || right_alt m in
  let ctrl := left_ctrl m || right_ctrl m in
  code ← on_input (port (inb DATA_REG));
  code ← (if code =? 0xe0 then
            b ← on_input (port (inb DATA_REG)); mret ((code << 8) |! b)
          else mret code);
  let release := negb (code &! 0x80 =? 0) in
  let code := code &~ 0x80 in
  if code =? 0x3a then
    if negb release then modify (fun k => set_keys (toggle_caps (keys k)) k) else mret tt
  else
    match find_char shift code with
    | Some c =>
      if negb release then
        let c := adjust shift ctrl alt (caps_lock m) c in
        full ← on_input input_full;
        if negb full then
          modify (fun k => mk_kbd (keys k) (sgn 64 (key_cnt k + 1)) (input k));;
          on_input (input_putc c);;
          mret tt
        else mret tt
      else mret tt
    | None => modify (fun k => set_keys (set_key code (negb release) (keys k)) k)
    end.

End Kbd.
Arguments kbd H : clear implicits.

(** ** A US keyboard *)

(** Scan code, character, character with Shift. *)
Definition row (first : Z) (plain shifted : list Z) : list (Z * (Z * Z)) :=
  zip (seqZ first (lenZ plain)) (zip plain shifted).

Definition letters : list (Z * (Z * Z)) :=
  row 0x10 (chars "qwertyuiop") (chars "QWERTYUIOP") ++ row 0x1e (chars "asdfghjkl") (chars "ASDFGHJKL")
  ++ row 0x2c (chars "zxcvbnm") (chars "ZXCVBNM").

Definition symbols : list (Z * (Z * Z)) :=
  row 0x02 (chars "1234567890-=") (chars "!@#$%^&*()_+") ++ row 0x1a (chars "[]") (chars "{}")
  ++ row 0x27 (chars ";'`") [58; 34; 126] ++ row 0x2b [92] [124] ++ row 0x33 (chars ",./") (chars "<>?")
  ++ map (fun '(k, c) => (k, (c, c)))
       [(0x01, 27); (0x0e, 8); (0x0f, 9); (0x1c, 13); (0x37, 42); (0x39, 32); (0x53, 127)].

Definition find_key (k : Z) (l : list (Z * (Z * Z))) : option (Z * Z) :=
  snd <$> List.find (fun e => fst e =? k) l.

(** What a key types: a letter is a capital with one of Shift and Caps Lock,
    and a control character with Ctrl; Ctrl makes control characters of the
    symbols of the capitals' columns too; Alt sets the high bit. *)
Definition control (ctrl : bool) (capital c : Z) : Z :=
  if ctrl && (64 <=? capital) && (capital <? 96) then capital - 64 else c.

Definition types (shift ctrl alt caps : bool) (key : Z) : option Z :=
  c ← match find_key key letters with
      | Some (small, capital) => Some (control ctrl capital (if xorb shift caps then capital else small))
      | None => (fun '(plain, shifted) => let c := if shift then shifted else plain in control ctrl c c)
                <$> find_key key symbols
      end;
  Some (if alt then c + 128 else c).

(** ** Keys as they come

    An event is a scan code, with the prefix in its high byte: key number and
    whether the key goes up. *)
Definition event (e : Z) : Prop := 0 <= e < 256 /\ e <> 0xe0 \/ 0xe000 <= e < 0xe100.
Definition key_of (e : Z) : Z := e &~ 0x80.
Definition is_press (e : Z) : bool := e &! 0x80 =? 0.
Definition scan_bytes (e : Z) : list Z := if e <? 256 then [e] else [0xe0; e - 0xe000].

(** After a history of events: the key's last event was a press; Caps Lock
    was pressed an odd number of times. *)
Fixpoint held (key : Z) (down : bool) (es : list Z) : bool :=
  match es with
  | [] => down
  | e :: es => held key (if key_of e =? key then is_press e else down) es
  end.

Definition caps_on (es : list Z) : bool :=
  Nat.odd (length (List.filter (fun e => (key_of e =? 0x3a) && is_press e) es)).

Definition history (es : list Z) : shifts :=
  mk_shifts (held 0x2a false es) (held 0x36 false es) (held 0x38 false es) (held 0xe038 false es)
    (held 0x1d false es) (held 0xe01d false es) (caps_on es).

Definition types_after (es : list Z) (e : Z) : option Z :=
  if is_press e then
    types (held 0x2a false es || held 0x36 false es) (held 0x1d false es || held 0xe01d false es)
      (held 0x38 false es || held 0xe038 false es) (caps_on es) (key_of e)
  else None.

(** *** The tables, by evaluation on every event *)

Definition events : list Z := List.filter (fun e => negb (e =? 0xe0)) (seqZ 0 256) ++ seqZ 0xe000 256.

Lemma in_events e : event e -> In e events.
Proof.
  intros [[R N]|R]; unfold events; apply in_or_app; [left|right].
  - apply filter_In. split; [apply list_elem_of_In, elem_of_seqZ; lia|]. by apply negb_true_iff, Z.eqb_neq.
  - apply list_elem_of_In, elem_of_seqZ. lia.
Qed.

Definition modifier (key : Z) : bool :=
  existsb (Z.eqb key) [0x2a; 0x36; 0x38; 0xe038; 0x1d; 0xe01d].

Definition option_eqb (x y : option Z) : bool := bool_decide (x = y).

Definition bools : list bool := [true; false].

(** Caps Lock and the shift keys type nothing; every other key types what a
    US keyboard's does. *)
Definition table_ok (e : Z) (shift ctrl alt caps : bool) : bool :=
  option_eqb (adjust shift ctrl alt caps <$> find_char shift (key_of e)) (types shift ctrl alt caps (key_of e))
  && (negb (modifier (key_of e) || (key_of e =? 0x3a)) || option_eqb (find_char shift (key_of e)) None).

Definition tables_ok : bool :=
  forallb (fun e => forallb (fun sh => forallb (fun ct => forallb (fun al => forallb (fun ca =>
    table_ok e sh ct al ca) bools) bools) bools) bools) events.

Lemma tables_ok_true : tables_ok = true.
Proof. vm_compute. reflexivity. Qed.

Lemma table_spec e shift ctrl alt caps : event e ->
  adjust shift ctrl alt caps <$> find_char shift (key_of e) = types shift ctrl alt caps (key_of e)
  /\ (modifier (key_of e) || (key_of e =? 0x3a) = true -> find_char shift (key_of e) = None).
Proof.
  intros He. assert (B : forall b, In b bools) by (intros []; simpl; auto).
  pose proof tables_ok_true as T. unfold tables_ok in T.
  rewrite forallb_forall in T. specialize (T e (in_events e He)).
  rewrite forallb_forall in T. specialize (T shift (B _)). rewrite forallb_forall in T. specialize (T ctrl (B _)).
  rewrite forallb_forall in T. specialize (T alt (B _)). rewrite forallb_forall in T. specialize (T caps (B _)).
  apply andb_true_iff in T as [T1 T2]. unfold option_eqb in *. split; [by apply bool_decide_eq_true in T1|].
  intros M. rewrite M in T2. by apply bool_decide_eq_true in T2.
Qed.

(** *** One event *)

Lemma held_snoc key down es e :
  held key down (es ++ [e]) = if key_of e =? key then is_press e else held key down es.
Proof. revert down. induction es as [|x es IH]; intros down; simpl; [done|]. apply IH. Qed.

Lemma caps_snoc es e :
  caps_on (es ++ [e]) = xorb (caps_on es) ((key_of e =? 0x3a) && is_press e).
Proof.
  unfold caps_on. rewrite List.filter_app, length_app. simpl.
  destruct (_ && _); simpl; [|by rewrite Nat.add_0_r, xorb_false_r].
  rewrite Nat.add_1_r, Nat.odd_succ, xorb_true_r. by rewrite <- Nat.negb_odd.
Qed.

(** What the event does to the shift keys. *)
Definition next_shifts (e : Z) (m : shifts) : shifts :=
  if key_of e =? 0x3a then if is_press e then toggle_caps m else m
  else set_key (key_of e) (is_press e) m.

Lemma next_history es e : next_shifts e (history es) = history (es ++ [e]).
Proof.
  unfold next_shifts, history. rewrite !held_snoc, caps_snoc.
  destruct (Z.eqb_spec (key_of e) 0x3a) as [E|E].
  - rewrite !E. simpl. destruct (is_press e); [by rewrite xorb_true_r|by rewrite xorb_false_r].
  - simpl. rewrite xorb_false_r.
    unfold set_key. generalize dependent (key_of e). intros k _.
    repeat match goal with
      |- context [k =? ?n] => destruct (Z.eqb_spec k n) as [->|]; [reflexivity|] end.
    reflexivity.
Qed.

Lemma set_key_other key b m : modifier key = false -> set_key key b m = m.
Proof.
  unfold modifier, set_key. destruct m. simpl. rewrite !orb_false_iff.
  intros (-> & -> & -> & -> & -> & -> & _). done.
Qed.

Section Typing.
Context {H : Type} {HP : Ports H} {HL : Line H}.

(** The keyboard hands over its bytes at port 0x60; the serial port does not
    notice. *)
Class Keys := {
  scan : H -> list Z;
  inb_scan h b r : scan h = b :: r ->
    exists h', inb DATA_REG h = Ret (b, h') /\ scan h' = r /\ view h' = view h;
}.
Context {HK : Keys}.
Implicit Types (k : kbd H).

(** The handler's states for a history of events.  Between events anything
    happens to the input and the serial port. *)
Inductive typing : list Z -> kbd H -> Prop :=
| t_boot s n : typing [] (mk_kbd (history []) n s)
| t_key es e k k' r :
    typing es k -> event e -> scan (hw (input k)) = scan_bytes e ++ r ->
    (exists a, reps a false true (input k) /\ inv a) ->
    keyboard_interrupt k = Ret (tt, k') -> typing (es ++ [e]) k'
| t_other es k s : typing es k -> typing es (mk_kbd (keys k) (key_cnt k) s).

(** The handler reads the event. *)
Definition after_read (k : kbd H) (h : H) : kbd H := mk_kbd (keys k) (key_cnt k) (set_hw h (input k)).

Definition interpret (code : Z) (m : shifts) : st (kbd H) unit :=
  let shift := left_shift m || right_shift m in
  let alt := left_alt m || right_alt m in
  let ctrl := left_ctrl m || right_ctrl m in
  if key_of code =? 0x3a then
    if is_press code then modify (fun k => set_keys (toggle_caps (keys k)) k) else mret tt
  else
    match find_char shift (key_of code) with
    | Some c =>
      if is_press code then
        full ← on_input input_full;
        if negb full then
          modify (fun k => mk_kbd (keys k) (sgn 64 (key_cnt k + 1)) (input k));;
          on_input (input_putc (adjust shift ctrl alt (caps_lock m) c));;
          mret tt
        else mret tt
      else mret tt
    | None => modify (fun k => set_keys (set_key (key_of code) (is_press code) (keys k)) k)
    end.

Lemma read_event e k r :
  event e -> scan (hw (input k)) = scan_bytes e ++ r ->
  exists h, view h = view (hw (input k)) /\ scan h = r
  /\ keyboard_interrupt k = interpret e (keys k) (after_read k h).
Proof using Type.
  intros He Hs. unfold scan_bytes in Hs. destruct (Z.ltb_spec e 256) as [Hlt|Hge].
  - destruct (inb_scan _ _ _ Hs) as (h & E & S & V). exists h. split; [exact V|]. split; [exact S|].
    unfold keyboard_interrupt, mbind, st_bind, get, on_input at 1, port. rewrite E.
    assert (N : (e =? 0xe0) = false) by (apply Z.eqb_neq; destruct He; lia). rewrite N.
    unfold mret, st_ret, interpret. cbv beta iota zeta. rewrite negb_involutive. reflexivity.
  - destruct (inb_scan _ _ _ Hs) as (h1 & E1 & S1 & V1).
    destruct (inb_scan _ _ _ S1) as (h2 & E2 & S2 & V2). exists h2. split; [congruence|]. split; [exact S2|].
    assert (Ee : (0xe0 << 8) |! (e - 0xe000) = e).
    { rewrite Z.lor_comm, lor_shiftl_low by (try lia; unfold inU; destruct He; lia). lia. }
    unfold keyboard_interrupt, mbind, st_bind, get, on_input at 1, port at 1. rewrite E1.
    cbn [Z.eqb Pos.eqb]. unfold on_input at 1, port at 1. cbn [input set_hw hw]. rewrite E2.
    unfold mret, st_ret, interpret. rewrite Ee. cbv beta iota zeta. rewrite negb_involutive. reflexivity.
Qed.

(** What an event leaves: the characters [cs] more in the input, the shift
    keys [m], and nothing else. *)
Definition typed (cs : list Z) (m : shifts) k k' : Prop :=
  keys k' = m
  /\ contents (buffer (input k')) = contents (buffer (input k)) ++ cs
  /\ key_cnt k' = (match cs with [] => key_cnt k | _ => sgn 64 (key_cnt k + 1) end)
  /\ contents (txq (input k')) = contents (txq (input k))
  /\ tx (view (hw (input k'))) = tx (view (hw (input k)))
  /\ exists a, reps a false true (input k') /\ inv a.

(** Events that type nothing leave the input alone. *)
Lemma typed_nothing a m k : reps a false true (input k) -> inv a -> typed [] m k (set_keys m k).
Proof using Type. intros R I. unfold typed. simpl. rewrite app_nil_r. eauto 8. Qed.

Lemma type_char a c k :
  reps a false true (input k) -> inv a -> in_full a = false ->
  exists k', (modify (fun k => mk_kbd (keys k) (sgn 64 (key_cnt k + 1)) (input k));;
              on_input (input_putc c);; mret tt) k = Ret (tt, k') /\ typed [c] (keys k) k k'.
Proof using Type.
  intros R I Hf.
  assert (W : does (input_putc c) (input k) (fun _ s => exists a', reps a' false true s /\ inv a'
    /\ v_in a' = v_in a ++ [c] /\ v_tx a' = v_tx a /\ tx (v_line a') = tx (v_line a))).
  { apply (does_in_putc _ _ _ _ _ R (i_dlab _ I) Hf). intros w s R'. cbv zeta in R'. eexists. split; [exact R'|].
    simpl v_mode. destruct (decide (v_mode a = QUEUE)) as [Hm|Hm]; (split; [|auto]).
    - by apply inv_enabled.
    - destruct I. split; simpl; auto; intros; congruence. }
  unfold does in W. unfold mbind, st_bind, modify, on_input. cbn [input].
  destruct (input_putc c (input k)) as [[o s]|]; [|done]. destruct W as (a' & R' & I' & Ei & Et & Ex).
  eexists. split; [reflexivity|]. unfold typed. simpl.
  rewrite (r_in _ _ _ _ R'), (r_tx _ _ _ _ R'), (r_line _ _ _ _ R'), (r_in _ _ _ _ R), (r_tx _ _ _ _ R),
    (r_line _ _ _ _ R). split_and!; auto. eauto.
Qed.

Definition room_for (a : view_of) (o : option Z) : list Z := if in_full a then [] else option_list o.

Lemma interpret_ok a e m k :
  event e -> reps a false true (input k) -> inv a -> keys k = m ->
  exists k', interpret e m k = Ret (tt, k')
  /\ typed (room_for a (if is_press e then
        types (left_shift m || right_shift m) (left_ctrl m || right_ctrl m) (left_alt m || right_alt m)
          (caps_lock m) (key_of e) else None)) (next_shifts e m) k k'.
Proof using Type.
  intros He R I Hm. unfold interpret, next_shifts. cbv zeta.
  destruct (table_spec e (left_shift m || right_shift m) (left_ctrl m || right_ctrl m)
    (left_alt m || right_alt m) (caps_lock m) He) as [T N]. rewrite <- T. clear T.
  assert (Same : set_keys m k = k) by (destruct k; simpl in *; by subst).
  assert (Nothing : forall m', exists k', Ret (tt, set_keys m' k) = Ret (tt, k') /\
    typed (room_for a None) m' k k').
  { intros m'. eexists. split; [reflexivity|]. unfold room_for.
    destruct (in_full a); by apply (typed_nothing a). }
  pose proof (Nothing m) as Still. rewrite Same in Still.
  destruct (Z.eqb_spec (key_of e) 0x3a) as [Ek|Ek].
  { rewrite N by (rewrite orb_true_r; done). unfold modify, mret, st_ret.
    destruct (is_press e); simpl; [rewrite Hm; apply Nothing|exact Still]. }
  rewrite orb_false_r in N. destruct (find_char _ (key_of e)) as [c|].
  - rewrite set_key_other by (destruct (modifier (key_of e)); [by discriminate N|done]).
    destruct (is_press e); simpl; [|exact Still].
    pose proof (full_at a true (input k) R) as F.
    assert (Id : mk_kbd (keys k) (key_cnt k) (input k) = k) by by destruct k.
    unfold mbind at 1, st_bind at 1, on_input at 1. rewrite F, Id. unfold room_for.
    destruct (in_full a) eqn:Ef; simpl negb; cbv iota.
    + exists k. split; [done|]. pose proof (typed_nothing a m k R I) as X. by rewrite Same in X.
    + destruct (type_char a (adjust (left_shift m || right_shift m) (left_ctrl m || right_ctrl m)
        (left_alt m || right_alt m) (caps_lock m) c) k R I Ef) as (k' & E & Tk).
      exists k'. split; [exact E|]. rewrite Hm in Tk. exact Tk.
  - replace (if is_press e then _ <$> None else None) with (@None Z) by by destruct (is_press e).
    unfold modify. cbv beta. rewrite Hm. apply Nothing.
Qed.

Lemma interrupt_types a e r es k :
  keys k = history es -> event e -> scan (hw (input k)) = scan_bytes e ++ r ->
  reps a false true (input k) -> inv a ->
  exists k', keyboard_interrupt k = Ret (tt, k')
  /\ typed (room_for a (types_after es e)) (history (es ++ [e])) k k'.
Proof using Type.
  intros Hk He Hs R I. destruct (read_event e k r He Hs) as (h & V & _ & ->).
  assert (R' : reps a false true (input (after_read k h))) by (destruct R; split; simpl; congruence).
  destruct (interpret_ok a e (keys k) (after_read k h) He R' I eq_refl) as (k' & E & T).
  exists k'. split; [exact E|]. rewrite Hk, next_history in T. unfold typed in *. simpl in T.
  rewrite V in T. exact T.
Qed.

Lemma typing_history es k : typing es k -> keys k = history es.
Proof using Type.
  induction 1 as [| es e k k' r _ IH He Hs (a & R & I) E|]; auto.
  destruct (interrupt_types a e r es k IH He Hs R I) as (k2 & E2 & T).
  rewrite E in E2. injection E2 as <-. apply T.
Qed.

(** To the serial port's driver, the handler is a line that goes on and, if
    it types a character, [run_key]: whatever it does stays within the runs of
    which [Serial] accounts for the bytes. *)
Lemma keyboard_reachable fuel e r k k' P A G :
  reachable fuel (input k) P A G -> external (input k) = true -> event e ->
  scan (hw (input k)) = scan_bytes e ++ r -> keyboard_interrupt k = Ret (tt, k') ->
  (slow < fuel)%nat ->
  reachable fuel (input k') P A G \/ exists c, reachable fuel (input k') P (A ++ [Key c]) G.
Proof using Type.
  intros Hr Hx He Hs E Hf. destruct (read_event e k r He Hs) as (h & V & _ & E1). rewrite E1 in E. clear E1.
  assert (Hr1 : reachable fuel (input (after_read k h)) P A G).
  { apply (run_line fuel (input k) P A G h [] (busy (view (hw (input k)))) Hr).
    rewrite V, app_nil_r. by destruct (view (hw (input k))). }
  assert (Hx1 : external (input (after_read k h)) = true) by exact Hx.
  revert E Hr1 Hx1. generalize (after_read k h), (keys k). clear k h V Hr Hx Hs. intros k m E Hr Hx.
  unfold interpret in E. cbv zeta in E. destruct (_ =? 0x3a).
  { destruct (is_press e); injection E as <-; by left. }
  destruct (find_char _ _) as [c|]; [|injection E as <-; by left].
  destruct (is_press e); [|injection E as <-; by left].
  destruct (reachable_accounted fuel _ _ _ _ Hf Hr) as (a & R & I & Hoff & HB).
  rewrite Hx, (Hoff Hx) in R. pose proof (full_at a true (input k) R) as F.
  unfold mbind at 1, st_bind at 1, on_input at 1 in E. rewrite F in E.
  destruct (in_full a) eqn:Ef; simpl negb in E; [injection E as <-; by left|].
  right. set (ch := adjust _ _ _ _ c) in E. exists ch. unfold mbind, st_bind, modify, on_input in E. simpl in E.
  pose proof (key_ok ch a (input k) R I Ef) as W. unfold does in W.
  destruct (input_putc ch (input k)) as [[o s]|] eqn:Ep; [|done]. injection E as <-. simpl.
  pose proof (run_key fuel _ _ _ _ _ ch o Hr Hx F Ep) as Hk.
  rewrite (arrived_flow (input k) s []) in Hk; [exact Hk|].
  rewrite (r_line _ _ _ _ W), (r_line _ _ _ _ R), app_nil_r. unfold keyed. by destruct (decide _).
Qed.

(** C12: the keyboard's handler knows which shift keys are down.  After any
    history of presses and releases, each is taken to be down exactly when
    its last event was a press, and Caps Lock on when it was pressed an odd
    number of times.  The next event then adds to the input buffer, if it has
    room, the character a US keyboard types for the key with these, and none
    for a release or a key that types nothing; the handler returns, counts
    the character and leaves the bytes to transmit as they are. *)
Theorem kbd_types es k :
  typing es k -> keys k = history es /\
  forall a e r, event e -> scan (hw (input k)) = scan_bytes e ++ r ->
    reps a false true (input k) -> inv a ->
    exists k', keyboard_interrupt k = Ret (tt, k')
    /\ typed (if lenZ (contents (buffer (input k))) =? 63 then [] else option_list (types_after es e))
         (history (es ++ [e])) k k'.
Proof using Type.
  intros Ht. pose proof (typing_history es k Ht) as Hk. split; [exact Hk|]. intros a e r He Hs R I.
  rewrite (r_in _ _ _ _ R). exact (interrupt_types a e r es k Hk He Hs R I).
Qed.

End Typing.

#[global] Instance chip_keys : Keys (H := chip).
Proof.
  refine {| scan := c_scan |}. intros [] b r E. simpl in E. subst. eexists. split; [reflexivity|]. done.
Defined.

(** Shift goes down, then A. *)
Definition demo_kbd : kbd chip :=
  mk_kbd (history []) 0 (mk_serial UNINIT empty_queue empty_queue false true 0 []
    (mk_chip [] [] [] 0 false false [0x2a; 0x1e])).

Definition demo_shifted : kbd chip :=
  match keyboard_interrupt demo_kbd with Ret (_, k) => k | Stop _ => demo_kbd end.

Lemma demo_ready s :
  mode s = UNINIT -> txq s = empty_queue -> buffer s = empty_queue -> intr_on s = false -> external s = true ->
  dlab (view (hw s)) = false ->
  reps (mk_view UNINIT [] [] (view (hw s))) false true s /\ inv (mk_view UNINIT [] [] (view (hw s))).
Proof.
  intros M T B On Ex D. destruct (init_wf empty_queue eq_refl) as [W _].
  split; split; simpl; rewrite ?T, ?B; auto; congruence.
Qed.

Lemma kbd_types_witness :
  keys demo_shifted = history [0x2a]
  /\ exists k', keyboard_interrupt demo_shifted = Ret (tt, k')
     /\ contents (buffer (input k')) = [65].
Proof.
  assert (T : typing [0x2a] demo_shifted).
  { apply (t_key [] 0x2a demo_kbd demo_shifted [0x1e]); [constructor|left; lia|reflexivity| |].
    - eexists. apply demo_ready; reflexivity.
    - vm_compute. reflexivity. }
  destruct (kbd_types [0x2a] demo_shifted T) as [Hk N]. split; [exact Hk|].
  destruct (demo_ready (input demo_shifted)) as [R I]; [vm_compute; reflexivity..|].
  assert (Ev : event 0x1e) by (left; lia).
  destruct (N _ 0x1e [] Ev eq_refl R I) as (k' & E & _ & B & _).
  exists k'. split; [exact E|]. etransitivity; [exact B|]. vm_compute. reflexivity.
Defined.
